(* ===== verification/_CoqProject ===== *)
-Q . S2P
Prelude.v
Cstring.v
Membuf.v
Bitset.v
Rfc1738.v
Convert.v
JsonLex.v
Json.v
JsonPrint.v
MetaList.v
MetaListSeq.v
MetaListLoops.v
Threadpool.v
ThreadpoolInv.v
ThreadpoolSteps.v
ThreadpoolSafe.v
ThreadpoolProps.v
MetaMisc.v
Gensocket.v
Connection.v
HttpBase.v
MetaError.v
HttpDate.v
GeneralHeader.v
GeneralHeaderProps.v
EntityHeader.v
Pair.v
Cookies.v
HeaderLines.v
Request.v
FormFields.v
HeaderProps.v
RequestProps.v
Response.v
ResponseProps.v
Puts.v
SetCookie.v
Chunked.v
Pool.v
TcpServer.v
TcpServerProps.v
HttpServer.v
Service.v
ServiceProps.v
Cbuf.v
Beep.v
ConfigFile.v
Process.v
ServerConfig.v
RootResources.v
HttpClient.v
HttpClientProps.v
Array.v
Client.v
Stack.v
Map.v
HtmlBuffer.v
HtmlTemplate.v
ListTable.v
StringMap.v
Cache.v
FileCache.v
FindFiles.v
Webcache.v
