(* ===== verification/Prelude.v ===== *)
(** A verification of highlander, the C web server of the directories meta, http
    and json.

    This is the first file of the development: it says what is modelled where,
    and holds the vocabulary of all the other files.

    * The program and the files that model it

    The program is a library of data structures (meta/src), an HTTP library and
    server on top of it (http/src) and a JSON parser (json).  A file models one
    source file, or the part of it its name says; files whose name ends in Props,
    and those of a component that has several, hold the theorems.  Functions,
    members, constants and enumerations keep the names of the source.

    Strings and buffers.
    - Cstring: meta/src/cstring.c.  Membuf: meta/src/meta_membuf.c.
    - MetaMisc: meta/src/meta_misc.c, and the two functions of
      http/src/internals.c that cut a header line.
    - Convert: meta/src/meta_convert.c.  Rfc1738: http/src/rfc1738.c.

    Data structures.
    - Bitset, Array, Stack, Pair, Pool: meta/src/meta_*.c of the same name.
    - MetaList, MetaListSeq, MetaListLoops: meta/src/meta_list.c, a heap of
      nodes.  Map (meta_map.c), Stack and the hash tables are lists of it.
    - ListTable, StringMap, Cache, FileCache: the hash tables of
      meta_stringmap.c and meta_cache.c, and the cache of files on top of both.
    - Client: what it means that a component refines another for every user.

    Threads.
    - Threadpool, ThreadpoolInv, ThreadpoolSteps, ThreadpoolSafe,
      ThreadpoolProps: meta/src/threadpool.c as a transition system of worker
      threads, producers and an owner, one access to shared memory at a step.

    Connections.
    - Gensocket: polling, reading, writing and closing of meta/src/gensocket.c.
      Connection: the buffered connection of meta/src/connection.c, over a
      socket and two Membufs.
    - TcpServer, TcpServerProps: meta/src/tcp_server.c, with three Pools and the
      Threadpool between the accept loop and the workers.  RootResources: the
      socket that listens, of gensocket.c, tcp_server.c and http_server.c.

    HTTP.
    - HttpBase: the interface [STRINGS] the header objects are proved against,
      which Cstring implements; [http_error]; sending lines on a connection.
    - HttpDate (parse_time.c), GeneralHeader, EntityHeader, Cookies, SetCookie:
      the parts of a header.  HeaderLines: reading a header line by line.  Puts:
      the contract of the functions that append text to a string.
    - Request, FormFields: request.c.  Response, Chunked: response.c,
      send_status_code.c.  HeaderProps, RequestProps, ResponseProps: sending and
      receiving of both.
    - HttpServer: http_server.c, dynamic_page.c, attribute.c.  Service,
      ServiceProps: highlander.c, the loop that serves a connection.
    - HttpClient, HttpClientProps: tcp_client.c and http_client.c.
    - HtmlBuffer: html_buffer.c.  HtmlTemplate: html_section.c, html_menu.c,
      html_template.c, html_template_repository.c.

    The process.
    - ConfigFile: meta/src/meta_configfile.c.  ServerConfig:
      http_server_configure.  Process: meta/src/meta_process.c.
    - MetaError: meta/src/meta_error.c.

    JSON: JsonLex, Json, JsonPrint: json/json.c.

    Applications.  Cbuf, Beep: apps/beep, values on a connection and adding a
    user.  FindFiles, Webcache: apps/webcache, a server of files from memory:
    the files on disk, loading and renewing the cache, answering a request.

    The calls go as in the program: a worker of TcpServer runs Service, which
    takes a Request from a Connection, looks up a page of HttpServer, and sends a
    Response through the same Connection; the client does the reverse.  Where a
    component is used through an interface ([STRINGS] and [StringLaws] for
    strings, [Own] for the fields of a message) its users are proved against the
    interface alone.

    * How C is modelled

    - A function that may fail an assertion, leave a block, read an uninitialised
      byte or call [die] returns a [res], a value or a [fault].  A theorem that
      states [wp m o Q] or [wpr m Q] states that there is no fault.
    - A function that allocates is in the monad [C]; the allocator is an
      oracle, a list of answers.  Past its end every request of at most
      [PTRDIFF_MAX] bytes succeeds: [o = []] reads "when memory lasts".  Theorems
      hold for every oracle, so for every pattern of failures.
    - Integers are [Z] with the wrap-around of their width written out ([u64],
      [i32], [u8], [schar]).  Characters are numbers from 1 to 255.
    - A buffer that is written is a list of cells, [None] for a byte that is not
      initialised, and every access checks its bounds.  A string that is only
      read is the list of its characters.  What points into shared structures
      (nodes of lists, entries of tables) is a location of a finite map.
    - An object that is changed in place is passed and returned.  Locks are held
      by the function that is modelled (one critical section, one step), but for
      the thread pool, where locking is modelled.
    - What the system does is a parameter or an oracle of the environment: the
      bytes a peer sends and when, errors of system calls, the clock, the file
      system, what page handlers compute.

    * What the theorems show

    - Round trips through the whole stack: a request, a response, a date, a
      header that is sent over a connection is what is received
      ([RequestProps.request_roundtrip], [ResponseProps.response_roundtrip]); a
      client and a server agree ([HttpClientProps.client_meets_server],
      [ServiceProps.service_answers]); JSON that is printed parses to the value
      ([JsonPrint.json_print_parse]); configuration files and URL encoding.
    - Refinement: strings, buffers, connections, lists, arrays, stacks, maps, hash
      tables and pools implement abstract sequences, maps and multisets for any
      sequence of calls and any allocator.
    - Concurrency: mutual exclusion, each job exactly once, progress and complete
      destruction of the thread pool; no connection and no buffer of the server is
      lost, but in the cases stated.
    - Starting and stopping: what the start of a process that fails takes back
      ([Process.process_start_balanced]); what the settings of a server are
      ([ServerConfig.server_configured]); which files a cache serves
      ([Webcache.webcache_loads], [Webcache.webcache_answers]).
    - Safety and bounds: the parsers stay inside their buffers on any input;
      a file that is served lies under the document root.
    - Exact failures: where the code overflows, loses data or loops, a theorem
      states for which inputs ([Rfc1738.rfc1738_encode_cases],
      [Bitset.bitset_mapped_overflow], [ServiceProps.unflushed_lost],
      [TcpServerProps.tcp_server_starves], [Chunked.chunked_limit], ...).

    * Fuel

    Loops whose end depends on data are structural on that data where they can be.
    The rest has fuel, and running out of it is the fault [FuelOut], which a [wp]
    theorem excludes: one round per byte for readers ([S (length f)] lines of a
    file, the length of what has arrived for a connection), one per element for
    lists and tables, the nesting plus the length for JSON.  The theorems
    name the fuel, so that they are also theorems of termination.

    * What is not modelled

    Functions that only free or destroy.  TLS: miscssl.c and what calls OpenSSL in
    gensocket.c, tcp_server.c and tcp_client.c.  Floating point conversions
    (tofloat, todouble).  Regular expressions and seccomp, wrappers of library
    calls (meta_regex.c, meta_seccomp.c); logging to the system
    (meta_common.c).  The applications under apps and the tools, unless named
    above: mains that parse options and call the library.  The code that is
    archived, which nothing builds.  Test drivers at the end of the sources.

    * This file

    The vocabulary every other file of the development shares:

    - [res]: the outcome of a piece of C code, a value or a [fault] (a failed
      [assert], an access outside a block, a read of an uninitialised byte, a
      call of [die], exhausted fuel);
    - [C]: the state of the allocator threaded through [res].  The allocator
      is an oracle, a list of booleans, one per call of [malloc], [calloc] or
      [realloc]; past its end every request that fits in [PTRDIFF_MAX] bytes
      succeeds;
    - [wpr] and [wp]: the weakest preconditions of the two, with the rules and
      the tactic [wp] that drive the proofs of the components;
    - memory blocks as lists of cells, with bounds-checked reads and writes;
    - C characters and NUL-terminated strings, and the part of [<string.h>]
      and [<ctype.h>] (C locale) that the sources call. *)

From Stdlib Require Import ZArith Lia String Ascii.
From stdpp Require Import base list numbers.

Export StringSyntax AsciiSyntax.

#[global] Open Scope Z_scope.

(** * Machine integers *)

Definition SIZE_MAX : Z := 2 ^ 64 - 1.
Definition PTRDIFF_MAX : Z := 2 ^ 63 - 1.
Definition INT_MAX : Z := 2 ^ 31 - 1.
Definition INT_MIN : Z := - 2 ^ 31.

(** Conversion to [size_t] (and [unsigned long]), to [int], to [unsigned char]
    and to plain [char], which is signed on the targets of the makefile. *)
Definition u64 (x : Z) : Z := x mod 2 ^ 64.
Definition i32 (x : Z) : Z := (x + 2 ^ 31) mod 2 ^ 32 - 2 ^ 31.
Definition u8 (x : Z) : Z := x mod 256.
Definition schar (x : Z) : Z := if x <? 128 then x else x - 256.

Definition zlen {A} (l : list A) : Z := Z.of_nat (length l).

(** * Lengths *)

Section Lengths.
Context {A : Type}.
Implicit Types l k : list A.

Lemma zlen_nil : zlen ([] : list A) = 0.
Proof. done. Qed.
Lemma zlen_cons (x : A) l : zlen (x :: l) = 1 + zlen l.
Proof. unfold zlen. simpl. lia. Qed.
Lemma zlen_app l k : zlen (l ++ k) = zlen l + zlen k.
Proof. unfold zlen. rewrite length_app. lia. Qed.
Lemma zlen_nonneg l : 0 <= zlen l.
Proof. unfold zlen. lia. Qed.
Lemma zlen_fmap {B} (f : A -> B) l : zlen (f <$> l) = zlen l.
Proof. unfold zlen. by rewrite length_fmap. Qed.
Lemma zlen_replicate n (x : A) : zlen (replicate n x) = Z.of_nat n.
Proof. unfold zlen. by rewrite length_replicate. Qed.
Lemma zlen_take n l : (n <= length l)%nat -> zlen (take n l) = Z.of_nat n.
Proof. unfold zlen. rewrite length_take. lia. Qed.
Lemma zlen_drop n l : (n <= length l)%nat -> zlen (drop n l) = zlen l - Z.of_nat n.
Proof. unfold zlen. rewrite length_drop. lia. Qed.
Lemma zlen_0 l : zlen l = 0 -> l = [].
Proof. destruct l; [done | rewrite zlen_cons; pose proof (zlen_nonneg l); lia]. Qed.

End Lengths.

Create Rewrite HintDb zlen.
#[export] Hint Rewrite @zlen_nil @zlen_cons @zlen_app @zlen_fmap @zlen_replicate : zlen.

(** Arithmetic on lengths. *)
Ltac zlen_facts :=
  repeat match goal with
  | |- context [zlen ?l] =>
      lazymatch goal with
      | _ : 0 <= zlen l |- _ => fail
      | _ => pose proof (zlen_nonneg l)
      end
  | _ : context [zlen ?l] |- _ =>
      lazymatch goal with
      | _ : 0 <= zlen l |- _ => fail
      | _ => pose proof (zlen_nonneg l)
      end
  end.

Create Rewrite HintDb nlen.
#[export] Hint Rewrite @length_app @length_fmap @length_replicate @length_cons
  @length_nil : nlen.

Ltac zlia :=
  autorewrite with zlen in *; zlen_facts; unfold zlen in *;
  autorewrite with nlen in *; lia.

(** * Outcomes *)

Inductive fault : Set :=
| AssertFailed
| OutOfBounds
| Uninitialised
| Died
| FuelOut.

Inductive res (A : Type) : Type :=
| Ret (a : A)
| Fault (f : fault).
Arguments Ret {A} a.
Arguments Fault {A} f.

Inductive status : Set := failure | success.

(** The values of [errno] the sources set. *)
Inductive errno : Set :=
| EINVAL | ENOSPC | ERANGE | ENOENT | ENOMEM | E2BIG | EAGAIN | EPIPE | EIO | ENOTCONN
| EINTR | EPROTO | ENONET | ENETDOWN | ENOPROTOOPT | EHOSTDOWN | EHOSTUNREACH | EOPNOTSUPP | ENETUNREACH.

#[export] Instance errno_eq_dec : EqDecision errno.
Proof. solve_decision. Defined.

Definition res_bind {A B} (m : res A) (k : A -> res B) : res B :=
  match m with
  | Ret a => k a
  | Fault f => Fault f
  end.

Definition oracle := list bool.

Definition C (A : Type) : Type := oracle -> res (A * oracle).

Definition ret {A} (a : A) : C A := fun o => Ret (a, o).

Definition bind {A B} (m : C A) (k : A -> C B) : C B :=
  fun o => match m o with
           | Ret (a, o') => k a o'
           | Fault f => Fault f
           end.

Definition lift {A} (m : res A) : C A :=
  fun o => match m with
           | Ret a => Ret (a, o)
           | Fault f => Fault f
           end.

Definition guard (b : bool) : res unit :=
  if b then Ret tt else Fault AssertFailed.

Declare Scope c_scope.
Delimit Scope c_scope with c.

Notation "'let*' p ':=' m 'in' k" := (bind m (fun p => k))
  (at level 10, p pattern, m at level 100, k at level 200) : c_scope.
Notation "'let+' p ':=' m 'in' k" := (res_bind m (fun p => k))
  (at level 10, p pattern, m at level 100, k at level 200) : c_scope.
Notation "'c_assert' b ;; k" := (bind (lift (guard b)) (fun _ => k))
  (at level 10, b at level 99, k at level 200) : c_scope.
Notation "'r_assert' b ;; k" := (res_bind (guard b) (fun _ => k))
  (at level 10, b at level 99, k at level 200) : c_scope.

#[global] Open Scope c_scope.

(** * Weakest preconditions *)

Definition wpr {A} (m : res A) (Q : A -> Prop) : Prop :=
  match m with
  | Ret a => Q a
  | Fault _ => False
  end.

Definition wp {A} (m : C A) (o : oracle) (Q : A -> oracle -> Prop) : Prop :=
  match m o with
  | Ret (a, o') => Q a o'
  | Fault _ => False
  end.

Section WpRules.
Context {A B : Type}.

Lemma wpr_bind (m : res A) (k : A -> res B) Q :
  wpr m (fun a => wpr (k a) Q) -> wpr (res_bind m k) Q.
Proof. by destruct m. Qed.

Lemma wpr_mono (m : res A) (P Q : A -> Prop) :
  wpr m P -> (forall a, P a -> Q a) -> wpr m Q.
Proof. destruct m; simpl; auto. Qed.

Lemma wpr_guard b (Q : unit -> Prop) : b = true -> Q tt -> wpr (guard b) Q.
Proof. by intros ->. Qed.

Lemma wpr_eq (m : res A) Q : wpr m Q -> exists a, m = Ret a /\ Q a.
Proof. destruct m; simpl; [eauto | done]. Qed.

Lemma wp_ret (a : A) o Q : Q a o -> wp (ret a) o Q.
Proof. done. Qed.

Lemma wp_bind (m : C A) (k : A -> C B) o Q :
  wp m o (fun a o' => wp (k a) o' Q) -> wp (bind m k) o Q.
Proof. unfold wp, bind. by destruct (m o) as [[a o']|]. Qed.

Lemma wp_lift (m : res A) o (Q : A -> oracle -> Prop) :
  wpr m (fun a => Q a o) -> wp (lift m) o Q.
Proof. unfold wp, lift. by destruct m. Qed.

Lemma wp_mono (m : C A) o (P Q : A -> oracle -> Prop) :
  wp m o P -> (forall a o', P a o' -> Q a o') -> wp m o Q.
Proof. unfold wp. destruct (m o) as [[a o']|]; auto. Qed.

Lemma wp_eq (m : C A) o Q :
  wp m o Q -> exists a o', m o = Ret (a, o') /\ Q a o'.
Proof. unfold wp. destruct (m o) as [[a o']|]; [eauto | done]. Qed.

End WpRules.

(** [wp] steps through binds, returns and assertions whose conditions are
    arithmetic facts of the context. *)
Ltac bool_side :=
  repeat match goal with
  | |- (_ && _)%bool = true => apply andb_true_intro; split
  end;
  try first
    [ reflexivity
    | assumption
    | apply Z.leb_le; (lia || zlia)
    | apply Z.ltb_lt; (lia || zlia)
    | apply Z.eqb_eq; (lia || zlia)
    | apply Z.geb_le; (lia || zlia)
    | apply Z.gtb_lt; (lia || zlia) ].

Ltac wp_step :=
  match goal with
  | |- wp (bind _ _) _ _ => apply wp_bind
  | |- wp (ret _) _ _ => apply wp_ret
  | |- wp (lift _) _ _ => apply wp_lift
  | |- wpr (res_bind _ _) _ => apply wpr_bind
  | |- wpr (guard _) _ => apply wpr_guard; [solve [bool_side] |]
  | |- wpr (Ret _) _ => simpl
  end.

Ltac wp := repeat wp_step.

(** Case analysis on the first boolean test of the goal, the comparison
    reflected to a proposition. *)
Ltac zcase :=
  match goal with
  | |- context [?a <? ?b] => destruct (Z.ltb_spec a b)
  | |- context [?a <=? ?b] => destruct (Z.leb_spec a b)
  | |- context [?a =? ?b] => destruct (Z.eqb_spec a b)
  end.

(** Turns the boolean comparisons of the context into propositions. *)
Ltac zreflect :=
  repeat match goal with
  | H : (_ <? _) = true |- _ => apply Z.ltb_lt in H
  | H : (_ <? _) = false |- _ => apply Z.ltb_ge in H
  | H : (_ <=? _) = true |- _ => apply Z.leb_le in H
  | H : (_ <=? _) = false |- _ => apply Z.leb_gt in H
  | H : (_ =? _) = true |- _ => apply Z.eqb_eq in H
  | H : (_ =? _) = false |- _ => apply Z.eqb_neq in H
  | H : (_ && _)%bool = true |- _ => apply andb_prop in H as [? ?]
  | H : (_ || _)%bool = false |- _ => apply orb_false_elim in H as [? ?]
  | H : negb _ = true |- _ => apply negb_true_iff in H
  | H : negb _ = false |- _ => apply negb_false_iff in H
  end.

(** * The allocator *)

Definition alloc_ok (n : Z) : C bool :=
  fun o => match o with
           | [] => Ret (n <=? PTRDIFF_MAX, [])
           | b :: o' => Ret (b && (n <=? PTRDIFF_MAX), o')
           end.

(** * Memory blocks *)

(** A byte of memory: [None] is a byte nothing was stored in yet. *)
Abbreviation cell := (option Z).

Abbreviation block := (list (option Z)).

Definition malloc (n : Z) : C (option block) :=
  let* ok := alloc_ok n in
  ret (if ok : bool then Some (replicate (Z.to_nat n) None) else None).

Definition realloc (b : block) (n : Z) : C (option block) :=
  let* ok := alloc_ok n in
  ret (if ok : bool
       then Some (take (Z.to_nat n) b
                  ++ replicate (Z.to_nat n - length b)%nat None)
       else None).

(** [rd b off n]: the [n] cells at offset [off]; [wr b off cs] stores [cs]
    there. Both are confined to the block. *)
Definition rd (b : block) (off n : Z) : res block :=
  if (0 <=? off) && (0 <=? n) && (off + n <=? zlen b)
  then Ret (take (Z.to_nat n) (drop (Z.to_nat off) b))
  else Fault OutOfBounds.

Definition wr (b : block) (off : Z) (cs : block) : res block :=
  if (0 <=? off) && (off + zlen cs <=? zlen b)
  then Ret (take (Z.to_nat off) b ++ cs ++ drop (Z.to_nat off + length cs) b)
  else Fault OutOfBounds.

(** One character at offset [off], which has to be initialised. *)
Definition ldc (b : block) (off : Z) : res Z :=
  if (0 <=? off) && (off <? zlen b)
  then match b !! Z.to_nat off with
       | Some (Some c) => Ret c
       | _ => Fault Uninitialised
       end
  else Fault OutOfBounds.

Definition stc (b : block) (off c : Z) : res block := wr b off [Some c].

(** [strlen] of the string that starts at the head of the block. *)
Fixpoint strlen (b : block) : res Z :=
  match b with
  | [] => Fault OutOfBounds
  | None :: _ => Fault Uninitialised
  | Some c :: b' => if c =? 0 then Ret 0 else let+ n := strlen b' in Ret (1 + n)
  end.

(** The characters of the string at the head of the block. *)
Fixpoint str_at (b : block) : res (list Z) :=
  match b with
  | [] => Fault OutOfBounds
  | None :: _ => Fault Uninitialised
  | Some c :: b' => if c =? 0 then Ret [] else let+ s := str_at b' in Ret (c :: s)
  end.

(** A [const char *] argument is the list of its characters, without the
    terminator; in memory it occupies [cstr s]. *)
Definition cstr (s : list Z) : block := (Some <$> s) ++ [Some 0].

Definition is_char (c : Z) : Prop := 1 <= c <= 255.

#[export] Instance is_char_dec c : Decision (is_char c).
Proof. unfold is_char. apply _. Defined.

(** * Characters *)

Definition code (a : ascii) : Z := Z.of_N (N_of_ascii a).

(** [ch "x"] is the code of a character, written as a literal, and [b"..."] the
    codes of a string. *)
Notation "'ch' c" :=
  (ltac:(let v := eval cbv in (code c%char) in exact v))
  (at level 1, c constr, only parsing).

Fixpoint bytes (s : string) : list Z :=
  match s with
  | EmptyString => []
  | String a s' => code a :: bytes s'
  end.

Arguments bytes s%_string.

Definition in_range (lo hi c : Z) : bool := (lo <=? c) && (c <=? hi).

(** [<ctype.h>] in the C locale. *)
Definition isdigit (c : Z) : bool := in_range 48 57 c.
Definition isupper (c : Z) : bool := in_range 65 90 c.
Definition islower (c : Z) : bool := in_range 97 122 c.
Definition isalpha (c : Z) : bool := isupper c || islower c.
Definition isspace (c : Z) : bool := (c =? 32) || in_range 9 13 c.
Definition isxdigit (c : Z) : bool :=
  isdigit c || in_range 97 102 c || in_range 65 70 c.
Definition tolower (c : Z) : Z := if isupper c then c + 32 else c.
Definition toupper (c : Z) : Z := if islower c then c - 32 else c.

(** * <string.h> on the characters of a string *)

Definition mem (c : Z) (s : list Z) : bool := existsb (Z.eqb c) s.

(** [strspn]/[strcspn]: the length of the longest prefix inside/outside the
    set [accept]. *)
Fixpoint span_len (p : Z -> bool) (s : list Z) : nat :=
  match s with
  | [] => 0
  | c :: s' => if p c then S (span_len p s') else 0
  end.

Definition strspn (s accept : list Z) : nat := span_len (fun c => mem c accept) s.
Definition strcspn (s reject : list Z) : nat :=
  span_len (fun c => negb (mem c reject)) s.

(** [strchr] as an index ([c] is not the terminator). *)
Fixpoint strchr (s : list Z) (c : Z) : option nat :=
  match s with
  | [] => None
  | x :: s' => if x =? c then Some 0%nat else S <$> strchr s' c
  end.

Fixpoint prefixb (p s : list Z) : bool :=
  match p, s with
  | [], _ => true
  | x :: p', y :: s' => (x =? y) && prefixb p' s'
  | _ :: _, [] => false
  end.

(** [strstr] as an index. *)
Fixpoint strstr (s p : list Z) : option nat :=
  if prefixb p s then Some 0%nat
  else match s with
       | [] => None
       | _ :: s' => S <$> strstr s' p
       end.

(** [strcmp]: the difference of the first two characters that differ. *)
Fixpoint strcmp (a b : list Z) : Z :=
  match a, b with
  | [], [] => 0
  | [], y :: _ => - y
  | x :: _, [] => x
  | x :: a', y :: b' => if x =? y then strcmp a' b' else x - y
  end.

Definition strcasecmp (a b : list Z) : Z := strcmp (tolower <$> a) (tolower <$> b).

(** Decides a closed instance of a decidable predicate. *)
Ltac decide_closed := apply (bool_decide_unpack _); vm_compute; exact I.

(** * Lemmas on blocks *)

Lemma u64_small x : 0 <= x < 2 ^ 64 -> u64 x = x.
Proof. apply Z.mod_small. Qed.

Lemma u64_range x : 0 <= u64 x < 2 ^ 64.
Proof. apply Z.mod_pos_bound. lia. Qed.

(** Storing over the middle of a block. *)
Lemma wr_app (a b c cs : block) off :
  off = zlen a -> zlen b = zlen cs -> wr (a ++ b ++ c) off cs = Ret (a ++ cs ++ c).
Proof.
  intros -> Hb. unfold wr.
  rewrite (proj2 (andb_true_iff _ _))
    by (split; apply Z.leb_le; autorewrite with zlen; zlen_facts; lia).
  f_equal. unfold zlen in *.
  rewrite Nat2Z.id, take_app_length. do 2 f_equal.
  rewrite app_assoc, drop_app_length'; [done|]. rewrite length_app. lia.
Qed.

Lemma rd_app (a b c : block) off n :
  off = zlen a -> n = zlen b -> rd (a ++ b ++ c) off n = Ret b.
Proof.
  intros -> ->. unfold rd.
  rewrite !(proj2 (andb_true_iff _ _))
    by (repeat split; try apply andb_true_iff; try split; apply Z.leb_le;
        autorewrite with zlen; zlen_facts; lia).
  f_equal. unfold zlen. rewrite !Nat2Z.id, drop_app_length.
  apply take_app_length.
Qed.

Lemma ldc_app (a b : block) c off :
  off = zlen a -> ldc (a ++ Some c :: b) off = Ret c.
Proof.
  intros ->. unfold ldc.
  rewrite (proj2 (andb_true_iff _ _))
    by (split; [apply Z.leb_le | apply Z.ltb_lt]; autorewrite with zlen;
        zlen_facts; lia).
  unfold zlen. rewrite Nat2Z.id, lookup_app_r, Nat.sub_diag by lia. done.
Qed.

Lemma stc_app (a b : block) (x : cell) c off :
  off = zlen a -> stc (a ++ x :: b) off c = Ret (a ++ Some c :: b).
Proof. intros ->. by apply (wr_app a [x] b [Some c]). Qed.

Lemma is_char_nonzero c : is_char c -> (c =? 0) = false.
Proof. unfold is_char. intros. apply Z.eqb_neq. lia. Qed.

Lemma strlen_cstr s junk :
  Forall is_char s -> strlen ((Some <$> s) ++ Some 0 :: junk) = Ret (zlen s).
Proof.
  induction 1 as [|c s Hc _ IH]; [done|].
  rewrite fmap_cons. cbn [app strlen].
  rewrite is_char_nonzero, IH by done. simpl. by rewrite zlen_cons.
Qed.

Lemma str_at_cstr s junk :
  Forall is_char s -> str_at ((Some <$> s) ++ Some 0 :: junk) = Ret s.
Proof.
  induction 1 as [|c s Hc _ IH]; [done|].
  rewrite fmap_cons. cbn [app str_at].
  by rewrite is_char_nonzero, IH by done.
Qed.

Lemma zlen_cstr s : zlen (cstr s) = zlen s + 1.
Proof. unfold cstr. by rewrite zlen_app, zlen_fmap. Qed.

(** A block can be cut at any offset inside it. *)
Lemma block_split (b : block) n :
  0 <= n <= zlen b -> exists a c, b = a ++ c /\ zlen a = n.
Proof.
  intros Hn. exists (take (Z.to_nat n) b), (drop (Z.to_nat n) b).
  rewrite take_drop. split; [done|].
  rewrite zlen_take; unfold zlen in *; lia.
Qed.

Lemma wp_alloc_ok n o (Q : bool -> oracle -> Prop) :
  (forall b o', (b = true -> n <= PTRDIFF_MAX) ->
     (o = [] -> o' = [] /\ b = (n <=? PTRDIFF_MAX)) -> Q b o') ->
  wp (alloc_ok n) o Q.
Proof.
  intros HQ. unfold wp, alloc_ok. destruct o as [|b o].
  - apply HQ; [intros H; by apply Z.leb_le in H | done].
  - apply HQ; [|done]. intros H. apply andb_prop in H as [_ H].
    by apply Z.leb_le in H.
Qed.

Lemma wp_malloc n o (Q : option block -> oracle -> Prop) :
  (forall o', n <= PTRDIFF_MAX -> (o = [] -> o' = []) ->
     Q (Some (replicate (Z.to_nat n) None)) o') ->
  (forall o', (o = [] -> o' = [] /\ PTRDIFF_MAX < n) -> Q None o') ->
  wp (malloc n) o Q.
Proof.
  intros HS HN. unfold malloc. wp. apply wp_alloc_ok.
  intros b o' Hb Ho. wp. destruct b.
  - apply HS; naive_solver.
  - apply HN. intros ->. destruct Ho as [-> Hn]; [done|].
    split; [done|]. symmetry in Hn. by apply Z.leb_gt in Hn.
Qed.

Lemma wp_realloc b n o (Q : option block -> oracle -> Prop) :
  (forall o', n <= PTRDIFF_MAX -> (o = [] -> o' = []) ->
     Q (Some (take (Z.to_nat n) b
              ++ replicate (Z.to_nat n - length b)%nat None)) o') ->
  (forall o', (o = [] -> o' = [] /\ PTRDIFF_MAX < n) -> Q None o') ->
  wp (realloc b n) o Q.
Proof.
  intros HS HN. unfold realloc. wp. apply wp_alloc_ok.
  intros c o' Hb Ho. wp. destruct c.
  - apply HS; naive_solver.
  - apply HN. intros ->. destruct Ho as [-> Hn]; [done|].
    split; [done|]. symmetry in Hn. by apply Z.leb_gt in Hn.
Qed.

(** Storing at the end of a known prefix. *)
Lemma wr_tail (a t cs : block) off :
  off = zlen a -> zlen cs <= zlen t ->
  wr (a ++ t) off cs = Ret (a ++ cs ++ drop (length cs) t).
Proof.
  intros Ha Hcs. rewrite <-(take_drop (length cs) t) at 1.
  apply wr_app; [done|]. rewrite zlen_take; unfold zlen in *; lia.
Qed.

Lemma strlen_drop_cstr s junk :
  strlen (drop (length s) ((Some <$> s) ++ Some 0 :: junk)) = Ret 0.
Proof. by rewrite drop_app_length' by (by rewrite length_fmap). Qed.

Lemma rd_head (b c : block) n : n = zlen b -> rd (b ++ c) 0 n = Ret b.
Proof. by apply (rd_app []). Qed.

Lemma wr_head (t cs : block) :
  zlen cs <= zlen t -> wr t 0 cs = Ret (cs ++ drop (length cs) t).
Proof. by apply (wr_tail []). Qed.

Lemma stc_head (x : cell) (d : block) c : stc (x :: d) 0 c = Ret (Some c :: d).
Proof. by apply (stc_app []). Qed.

(** * Spans *)

Lemma span_len_le p s : (span_len p s <= length s)%nat.
Proof. induction s as [|c s IH]; simpl; [lia|]. destruct (p c); lia. Qed.

Lemma span_len_take p s : Forall (fun c => p c = true) (take (span_len p s) s).
Proof. induction s as [|c s IH]; simpl; [done|]. destruct (p c) eqn:Hp; simpl; auto. Qed.

Lemma span_len_drop p s c s' : drop (span_len p s) s = c :: s' -> p c = false.
Proof.
  induction s as [|x s IH]; simpl; [done|]. destruct (p x) eqn:Hp; simpl; [done|].
  by intros [= -> _].
Qed.

Lemma ldc_head c (d : block) : ldc (Some c :: d) 0 = Ret c.
Proof. by apply (ldc_app []). Qed.

Lemma strchr_none c s : Forall (fun x => x <> c) s -> strchr s c = None.
Proof. induction 1 as [|x s Hx _ IH]; simpl; [done|]. by rewrite (proj2 (Z.eqb_neq _ _) Hx), IH. Qed.

Lemma strchr_app c a b : Forall (fun x => x <> c) a -> strchr (a ++ c :: b) c = Some (length a).
Proof.
  induction 1 as [|x a Hx _ IH]; simpl; [by rewrite Z.eqb_refl|].
  by rewrite (proj2 (Z.eqb_neq _ _) Hx), IH.
Qed.

Lemma str_at_here s junk : Forall is_char s -> str_at (cstr s ++ junk) = Ret s.
Proof. intros Hs. unfold cstr. rewrite <-app_assoc. by apply str_at_cstr. Qed.

Lemma drop_cstr a x s junk : drop (S (length a)) (cstr (a ++ x :: s) ++ junk) = cstr s ++ junk.
Proof.
  unfold cstr. rewrite fmap_app, fmap_cons, <-!app_assoc. cbn [app].
  by rewrite <-Nat.add_1_r, <-drop_drop, drop_app_length' by (by rewrite length_fmap).
Qed.
