(* ===== verification/Cstring.v ===== *)
(** The growable string of meta/src/cstring.c and meta/src/cstring.h.

    A [cstring] is a heap block with its allocated size and the cached length
    of the string it holds.  Every function of the two files is a definition
    here; freeing is not modelled (a released object is no longer reachable
    from the result).  [rep c s] is the abstraction relation: the object [c]
    holds the string [s], NUL-terminated inside its block, with the rest of the
    block arbitrary, possibly uninitialised bytes.  Each operation is given its
    effect on [s]; the absence of [Fault] in a [wp] statement is memory safety
    and the truth of the code's own assertions. *)

From Stdlib Require Import ZArith Lia.
From stdpp Require Import base list numbers.
From S2P Require Import Prelude.

Record cstring := mk_cstring { size : Z; len : Z; data : block }.

Definition set_len (s : cstring) (n : Z) : cstring := mk_cstring (size s) n (data s).
Definition set_data (s : cstring) (d : block) : cstring := mk_cstring (size s) (len s) d.

Definition CSTRING_INITIAL_SIZE : Z := 256.

Definition has_room_for (s : cstring) (n : Z) : bool :=
  let freespace := u64 (size s - len s - 1) in
  n <=? freespace.

(** [assert(s->len == strlen(s->data))] *)
Definition assert_len (s : cstring) : res unit :=
  let+ n := strlen (data s) in guard (len s =? n).

Definition cstring_extend (s : cstring) (n : Z) : C (status * cstring) :=
  c_assert (CSTRING_INITIAL_SIZE <=? size s);;
  c_assert (len s <? size s);;
  let bytes_needed := u64 (len s + n + 1) in
  let* r :=
    (if size s <? bytes_needed then
       let newsize := u64 (size s * 2) in
       let newsize := if newsize <? bytes_needed then u64 (size s + n) else newsize in
       let* d := realloc (data s) newsize in
       ret (match d with
            | None => None
            | Some d => Some (mk_cstring newsize (len s) d)
            end)
     else ret (Some s)) in
  match r with
  | None => ret (failure, s)
  | Some s' => let* _ := lift (assert_len s') in ret (success, s')
  end.

(** [if (!has_room_for(dest, n) && !cstring_extend(dest, n)) return failure;],
    the guard every writing operation opens with. *)
Definition make_room (dest : cstring) (n : Z) : C (status * cstring) :=
  if has_room_for dest n then ret (success, dest) else cstring_extend dest n.

(** The text [vsnprintf] produces for the format and its arguments is [out]. *)
Definition cstring_vprintf (dest : cstring) (out : list Z) : C (status * cstring) :=
  let sz := u64 (zlen out + 1) in
  let* _ := lift (assert_len dest) in
  let* (st, dest) := make_room dest sz in
  match st with
  | failure => ret (failure, dest)
  | success =>
      let* d := lift (wr (data dest) (len dest) (cstr out)) in
      let dest := mk_cstring (size dest) (u64 (len dest + zlen out)) d in
      let* _ := lift (assert_len dest) in
      ret (success, dest)
  end.

Definition cstring_printf (dest : cstring) (out : list Z) : C (status * cstring) :=
  cstring_vprintf dest out.

(** [start] is the memory at the first pointer, [cb] is [end - start]. *)
Definition cstring_pcat (dest : cstring) (start : block) (cb : Z) : C (status * cstring) :=
  c_assert (0 <? cb);;
  let* (st, dest) := make_room dest cb in
  match st with
  | failure => ret (failure, dest)
  | success =>
      let* src := lift (rd start 0 cb) in
      let* d := lift (wr (data dest) (len dest) src) in
      let n := u64 (len dest + cb) in
      let* d := lift (stc d n 0) in
      let dest := mk_cstring (size dest) n d in
      let* _ := lift (assert_len dest) in
      ret (success, dest)
  end.

Definition cstring_concat (dest : cstring) (src : list Z) : C (status * cstring) :=
  let cb := zlen src in
  let* (st, dest) := make_room dest cb in
  match st with
  | failure => ret (failure, dest)
  | success =>
      (* strcat(&dest->data[dest->len], src) *)
      let* n := lift (strlen (drop (Z.to_nat (len dest)) (data dest))) in
      let* d := lift (wr (data dest) (len dest + n) (cstr src)) in
      let dest := mk_cstring (size dest) (u64 (len dest + cb)) d in
      let* _ := lift (assert_len dest) in
      ret (success, dest)
  end.

Definition cstring_charcat (dest : cstring) (c : Z) : C (status * cstring) :=
  let* (st, dest) := make_room dest 1 in
  match st with
  | failure => ret (failure, dest)
  | success =>
      let* d := lift (stc (data dest) (len dest) (u8 c)) in
      let n := u64 (len dest + 1) in
      let* d := lift (stc d n 0) in
      let dest := mk_cstring (size dest) n d in
      let* _ := lift (assert_len dest) in
      ret (success, dest)
  end.

(** [sizeof(struct cstring_tag)] *)
Definition sizeof_cstring : Z := 24.

Definition cstring_new : C (option cstring) :=
  let* p := alloc_ok sizeof_cstring in
  if negb p then ret None
  else
    let* d := malloc CSTRING_INITIAL_SIZE in
    match d with
    | None => ret None
    | Some d =>
        let* d := lift (stc d 0 0) in
        ret (Some (mk_cstring CSTRING_INITIAL_SIZE 0 d))
    end.

Definition cstring_recycle (s : cstring) : res cstring :=
  let+ d := stc (data s) 0 0 in
  Ret (mk_cstring (size s) 0 d).

Definition cstring_set (dest : cstring) (src : list Z) : C (status * cstring) :=
  let* dest := lift (cstring_recycle dest) in
  let n := zlen src in
  let* (st, dest) := make_room dest n in
  match st with
  | failure => ret (failure, dest)
  | success =>
      let* d := lift (wr (data dest) 0 (cstr src)) in
      let dest := mk_cstring (size dest) (u64 (len dest + n)) d in
      let* _ := lift (assert_len dest) in
      ret (success, dest)
  end.

Definition cstring_dup (src : list Z) : C (option cstring) :=
  let* dest := cstring_new in
  match dest with
  | None => ret None
  | Some dest =>
      let* (st, dest) := cstring_set dest src in
      match st with
      | failure => ret None
      | success => ret (Some dest)
      end
  end.

Definition cstring_nset (dest : cstring) (src : list Z) (cch : Z) : C (status * cstring) :=
  let* dest := lift (cstring_recycle dest) in
  let n := zlen src in
  let n := if cch <? n then cch else n in
  let* (st, dest) := make_room dest n in
  match st with
  | failure => ret (failure, dest)
  | success =>
      let* d := lift (wr (data dest) 0 (Some <$> take (Z.to_nat n) src)) in
      let* d := lift (stc d n 0) in
      let dest := mk_cstring (size dest) n d in
      let* _ := lift (assert_len dest) in
      ret (success, dest)
  end.

Definition cstring_concat2 (dest : cstring) (s1 s2 : list Z) : C (status * cstring) :=
  let* (st, dest) := cstring_concat dest s1 in
  match st with
  | failure => ret (failure, dest)
  | success => cstring_concat dest s2
  end.

Definition cstring_concat3 (dest : cstring) (s1 s2 s3 : list Z) : C (status * cstring) :=
  let* (st, dest) := cstring_concat dest s1 in
  match st with
  | failure => ret (failure, dest)
  | success =>
      let* (st, dest) := cstring_concat dest s2 in
      match st with
      | failure => ret (failure, dest)
      | success => cstring_concat dest s3
      end
  end.

(** The array [pstr] filled by the loop, [None] when one allocation failed. *)
Fixpoint cstring_multinew (nelem : nat) : C (option (list cstring)) :=
  match nelem with
  | O => ret (Some [])
  | S n =>
      let* c := cstring_new in
      match c with
      | None => ret None
      | Some c =>
          let* r := cstring_multinew n in
          ret (cons c <$> r)
      end
  end.

Definition cstring_left (src : cstring) (n : Z) : C (option cstring) :=
  let* dest := cstring_new in
  match dest with
  | None => ret None
  | Some dest =>
      let* (st, dest) := cstring_extend dest n in
      match st with
      | failure => ret None
      | success =>
          let* s := lift (str_at (data src)) in
          let* (st, dest) := cstring_nset dest s n in
          match st with
          | failure => ret None
          | success => ret (Some dest)
          end
      end
  end.

Definition cstring_right (src : cstring) (n : Z) : C (option cstring) :=
  let* dest := cstring_new in
  match dest with
  | None => ret None
  | Some dest =>
      let* (st, dest) := cstring_extend dest n in
      match st with
      | failure => ret None
      | success =>
          let* s := lift (str_at (data src)) in
          let cb := zlen s in
          let s := if n <? cb then drop (Z.to_nat (cb - n)) s else s in
          let* (st, dest) := cstring_set dest s in
          match st with
          | failure => ret None
          | success => ret (Some dest)
          end
      end
  end.

Definition cstring_substring (src : cstring) (from to : Z) : C (option cstring) :=
  c_assert (from <=? to);;
  c_assert (to <=? len src);;
  let to := if len src <? to then len src else to in
  let cb := u64 (to - from + 1) in
  let* dest := cstring_new in
  match dest with
  | None => ret None
  | Some dest =>
      let* (st, dest) := cstring_extend dest cb in
      match st with
      | failure => ret None
      | success =>
          let* (st, dest) :=
            cstring_pcat dest (drop (Z.to_nat from) (data src)) (to - from) in
          match st with
          | failure => ret None
          | success => ret (Some dest)
          end
      end
  end.

(** The loop of [cstring_reverse]; [fuel] bounds its iterations. *)
Fixpoint reverse_loop (fuel : nat) (d : block) (beg end_ : Z) : res block :=
  if beg <? end_ then
    match fuel with
    | O => Fault FuelOut
    | S fuel =>
        let+ tmp := ldc d end_ in
        let+ b := ldc d beg in
        let+ d := stc d end_ b in
        let+ d := stc d beg tmp in
        reverse_loop fuel d (beg + 1) (end_ - 1)
    end
  else Ret d.

Definition cstring_reverse (s : cstring) : res cstring :=
  if 0 <? len s then
    let+ d := reverse_loop (Z.to_nat (len s)) (data s) 0 (len s - 1) in
    Ret (set_data s d)
  else Ret s.

(** [while (i-- > 0 && isspace(s->data[i]))], with [i] the loop counter. *)
Fixpoint rstrip_loop (i : nat) (s : cstring) : res cstring :=
  match i with
  | O => Ret s
  | S j =>
      let+ c := ldc (data s) (Z.of_nat j) in
      if isspace c then
        let+ d := stc (data s) (Z.of_nat j) 0 in
        rstrip_loop j (mk_cstring (size s) (u64 (len s - 1)) d)
      else Ret s
  end.

Definition cstring_rstrip (s : cstring) : res cstring :=
  rstrip_loop (Z.to_nat (len s)) s.

(** [for (i = 0; i < s->len; i++) if (!isspace(s->data[i])) break;] with
    [n] iterations left. *)
Fixpoint leading_ws (n : nat) (i : Z) (s : cstring) : res Z :=
  match n with
  | O => Ret i
  | S n =>
      let+ c := ldc (data s) i in
      if isspace c then leading_ws n (i + 1) s else Ret i
  end.

Definition cstring_strip (s : cstring) : res cstring :=
  let+ s := rstrip_loop (Z.to_nat (len s)) s in
  let+ i := leading_ws (Z.to_nat (len s)) 0 s in
  if 0 <? i then
    let n := u64 (len s - i) in
    let+ src := rd (data s) i n in
    let+ d := wr (data s) 0 src in
    let+ d := stc d n 0 in
    Ret (mk_cstring (size s) n d)
  else Ret s.

(** The loop of [cstring_lower] and [cstring_upper]: characters that satisfy
    [p] are replaced by [f] of them. *)
Fixpoint map_loop (p : Z -> bool) (f : Z -> Z) (n : nat) (i : Z) (d : block) : res block :=
  match n with
  | O => Ret d
  | S n =>
      let+ c := ldc d i in
      let+ d := (if p c then stc d i (f c) else Ret d) in
      map_loop p f n (i + 1) d
  end.

Definition cstring_lower (s : cstring) : res cstring :=
  let+ d := map_loop isupper tolower (Z.to_nat (len s)) 0 (data s) in
  Ret (set_data s d).

Definition cstring_upper (s : cstring) : res cstring :=
  let+ d := map_loop islower toupper (Z.to_nat (len s)) 0 (data s) in
  Ret (set_data s d).

Definition cstring_insert (dest : cstring) (offset : Z) (src : list Z) : C (status * cstring) :=
  c_assert (offset <=? len dest);;
  let slen := zlen src in
  let* (st, dest) := make_room dest slen in
  match st with
  | failure => ret (failure, dest)
  | success =>
      let* tail := lift (rd (data dest) offset (len dest - offset)) in
      let* d := lift (wr (data dest) (offset + slen) tail) in
      let* d := lift (wr d offset (Some <$> src)) in
      let n := u64 (len dest + slen) in
      let* d := lift (stc d n 0) in
      ret (success, mk_cstring (size dest) n d)
  end.

Definition cstring_cut (s : cstring) (offset n : Z) : res cstring :=
  r_assert (offset <? len s);;
  r_assert (n <=? len s);;
  r_assert (u64 (offset + n) <=? len s);;
  let+ src := rd (data s) (offset + n) (len s - offset) in
  let+ d := wr (data s) offset src in
  Ret (mk_cstring (size s) (len s - n) d).

Definition cstring_replace (s : cstring) (offset n : Z) (to : list Z) : C (status * cstring) :=
  c_assert (offset <? len s);;
  c_assert (n <? len s);;
  c_assert (u64 (offset + n) <=? len s);;
  let* s := lift (cstring_cut s offset n) in
  cstring_insert s offset to.

Definition cstring_truncate (s : cstring) (offset : Z) : res cstring :=
  r_assert (offset <? len s);;
  let+ d := stc (data s) offset 0 in
  Ret (mk_cstring (size s) offset d).

(** [strchr] finds the terminator when asked for it. *)
Definition cstring_find (s : cstring) (c : Z) : res Z :=
  let+ str := str_at (data s) in
  Ret (if u8 c =? 0 then i32 (zlen str)
       else match strchr str (u8 c) with
            | None => -1
            | Some p => i32 (Z.of_nat p)
            end).

Definition cstring_findstr (s : cstring) (str : list Z) : res Z :=
  let+ d := str_at (data s) in
  Ret (match strstr d str with
       | None => -1
       | Some p => i32 (Z.of_nat p)
       end).

Definition c_str (s : cstring) : block := data s.

Definition cstring_length (s : cstring) : res Z :=
  let+ n := strlen (data s) in
  r_assert (n =? len s);;
  Ret (len s).

Definition cstring_compare (s : cstring) (str : list Z) : res Z :=
  let+ d := str_at (data s) in Ret (strcmp d str).

Definition cstring_casecompare (s : cstring) (str : list Z) : res Z :=
  let+ d := str_at (data s) in Ret (strcasecmp d str).

Definition cstring_copy (dest src : cstring) : C (status * cstring) :=
  let* s := lift (str_at (data src)) in
  cstring_set dest s.

Definition cstring_equal (lhs rhs : cstring) : res bool :=
  if len lhs =? len rhs then
    let+ a := str_at (data lhs) in
    let+ b := str_at (data rhs) in
    Ret (strcmp a b =? 0)
  else Ret false.

(** [for (nelem = 0; *s != '\0'; nelem++)] of [cstring_split]; [fuel] bounds
    the iterations. *)
Fixpoint split_count (fuel : nat) (s delim : list Z) : res nat :=
  match s with
  | [] => Ret 0%nat
  | _ =>
      match fuel with
      | O => Fault FuelOut
      | S fuel =>
          let s := drop (strcspn s delim) s in
          let s := drop (strspn s delim) s in
          let+ n := split_count fuel s delim in Ret (S n)
      end
  end.

(** The copying loop: [arr] is [*dest], [i] its counter. *)
Fixpoint split_copy (fuel : nat) (s delim : list Z) (arr : list cstring) (i : nat)
  : C (option (list cstring)) :=
  match s with
  | [] => ret (Some arr)
  | _ =>
      match fuel with
      | O => lift (Fault FuelOut)
      | S fuel =>
          let end_ := strcspn s delim in
          match arr !! i with
          | None => lift (Fault OutOfBounds)
          | Some c =>
              let* (st, c) := cstring_pcat c (cstr s) (Z.of_nat end_) in
              match st with
              | failure => ret None
              | success =>
                  let s := drop end_ s in
                  let s := drop (strspn s delim) s in
                  split_copy fuel s delim (<[i := c]> arr) (S i)
              end
          end
      end
  end.

(** The number of items and the array; [(0, None)] on failure and when the
    source holds delimiters only. [sizeof *dest] is 8. *)
Definition cstring_split (src delim : list Z) : C (Z * option (list cstring)) :=
  let skip := strspn src delim in
  let s := drop skip src in
  if Z.of_nat skip =? i32 (zlen src) then ret (0, None)
  else
    let* nelem := lift (split_count (length src) s delim) in
    let* ok := alloc_ok (u64 (8 * Z.of_nat nelem)) in
    if negb ok then ret (0, None)
    else
      c_assert (0 <? Z.of_nat nelem);;
      let* arr := cstring_multinew nelem in
      match arr with
      | None => ret (0, None)
      | Some arr =>
          let* r := split_copy (length src) s delim arr 0 in
          match r with
          | None => ret (0, None)
          | Some arr => ret (Z.of_nat nelem, Some arr)
          end
      end.

(** * The abstraction relation *)

Definition rep (c : cstring) (s : list Z) : Prop :=
  exists junk,
    data c = (Some <$> s) ++ Some 0 :: junk /\
    size c = zlen (data c) /\
    len c = zlen s /\
    CSTRING_INITIAL_SIZE <= size c <= PTRDIFF_MAX /\
    Forall is_char s.

(** What a writing operation on [c] leaves behind: the string [s'] when it
    succeeds and [sf] when it fails, in a block that grew by at most doubling
    plus the [n] bytes asked for; and it succeeds when the allocator does. *)
Definition writes (c : cstring) (n : Z) (o : oracle) (sf s' : list Z)
  (r : status * cstring) (o' : oracle) : Prop :=
  rep r.2 (match r.1 with success => s' | failure => sf end) /\
  size c <= size r.2 <= Z.min (2 * size c + n) (Z.max (size c) (3 * (zlen sf + n))) /\
  (o = [] -> o' = [] /\ (2 * size c + n <= PTRDIFF_MAX -> r.1 = success)).

Lemma rep_mk sz n s junk :
  sz = zlen s + 1 + zlen junk -> n = zlen s ->
  CSTRING_INITIAL_SIZE <= sz <= PTRDIFF_MAX -> Forall is_char s ->
  rep (mk_cstring sz n ((Some <$> s) ++ Some 0 :: junk)) s.
Proof.
  intros -> -> Hsz Hs. exists junk. simpl. split_and!; try done; zlia.
Qed.

Lemma rep_assert_len c s (Q : unit -> Prop) :
  rep c s -> Q tt -> wpr (assert_len c) Q.
Proof.
  intros (junk & Hd & _ & Hl & _ & Hs) HQ. unfold assert_len. rewrite Hd.
  wp. rewrite strlen_cstr by done. simpl. wp. done.
Qed.

Lemma rep_bounds c s : rep c s -> 0 <= zlen s < size c /\ size c <= PTRDIFF_MAX /\ len c = zlen s.
Proof. intros (junk & Hd & Hsz & Hl & ? & _). rewrite Hd in Hsz. split_and!; zlia. Qed.

Lemma rep_str_at c s : rep c s -> str_at (data c) = Ret s.
Proof. intros (junk & -> & _ & _ & _ & Hs). by apply str_at_cstr. Qed.

(** After the guard there is room for [n] characters and the terminator. *)
Lemma make_room_spec c s n o :
  rep c s -> 0 <= n <= PTRDIFF_MAX ->
  wp (make_room c n) o (fun r o' =>
    writes c n o s s r o' /\ (r.1 = failure -> r.2 = c) /\
    (r.1 = success -> zlen s + n < size r.2)).
Proof.
  intros Hrep Hn. pose proof (rep_bounds _ _ Hrep) as (Hs & Hsz & Hl).
  unfold make_room, has_room_for. unfold PTRDIFF_MAX in *.
  rewrite u64_small by lia. zcase.
  { wp. unfold writes, PTRDIFF_MAX; simpl. split_and!; try done; lia. }
  unfold cstring_extend. destruct Hrep as (junk & Hd & Hsz' & _ & Hinit & Hch).
  wp. rewrite u64_small by lia. destruct (Z.ltb_spec (size c) (len c + n + 1)); [|lia].
  wp. rewrite (u64_small (size c * 2)) by lia.
  set (newsize := if size c * 2 <? len c + n + 1 then u64 (size c + n) else size c * 2).
  assert (size c <= newsize <= 2 * size c + n /\ len c + n + 1 <= newsize) as [Hnew Hfit].
  { unfold newsize. rewrite u64_small by lia. zcase; lia. }
  apply wp_realloc; [intros o' Hok Ho | intros o' Ho]; wp.
  - assert (rep (mk_cstring newsize (len c)
        (take (Z.to_nat newsize) (data c) ++
         replicate (Z.to_nat newsize - length (data c)) None)) s) as Hrep'.
    { rewrite Hsz' in Hnew. rewrite take_ge by (unfold zlen in *; lia).
      rewrite Hd, <-app_assoc. simpl. apply rep_mk; try done; [|lia].
      rewrite Hd in Hsz'. zlia. }
    eapply rep_assert_len; [exact Hrep'|]. wp.
    unfold writes; simpl. split_and!; try done; try lia.
    intros H'. split; [by apply Ho | done].
  - unfold writes, PTRDIFF_MAX in *; simpl. split_and!; try done; [by exists junk | lia |].
    intros H'. destruct (Ho H') as [-> ?]. split; [done | lia].
Qed.

(** Storing the characters [t] and the terminator over the end of [s]. *)
Lemma rep_append c s t :
  rep c s -> Forall is_char t -> zlen s + zlen t < size c ->
  exists d, wr (data c) (len c) (cstr t) = Ret d /\
    rep (mk_cstring (size c) (len c + zlen t) d) (s ++ t).
Proof.
  intros (junk & Hd & Hsz & Hl & Hinit & Hs) Ht Hfit. rewrite Hd in Hsz.
  assert (zlen (cstr t) <= zlen (Some 0 :: junk)) by (unfold cstr; zlia).
  eexists. split. { rewrite Hd. apply wr_tail; [|done]. zlia. }
  unfold cstr. rewrite !app_assoc, <-fmap_app, <-!app_assoc. cbn [app].
  apply rep_mk; [|zlia|done|by apply Forall_app].
  rewrite zlen_drop by (unfold cstr in *; zlia). unfold cstr. zlia.
Qed.

(** ... and the same store made in two steps, the terminator last. *)
Lemma rep_append2 c s t :
  rep c s -> Forall is_char t -> zlen s + zlen t < size c ->
  exists d d', wr (data c) (len c) (Some <$> t) = Ret d /\
    stc d (len c + zlen t) 0 = Ret d' /\
    rep (mk_cstring (size c) (len c + zlen t) d') (s ++ t).
Proof.
  intros (junk & Hd & Hsz & Hl & Hinit & Hs) Ht Hfit. rewrite Hd in Hsz.
  eexists. eexists. split_and!.
  - rewrite Hd. apply wr_tail; zlia.
  - rewrite app_assoc. erewrite <-(take_drop 1 (drop _ _)), drop_drop.
    apply wr_app; [zlia|]. rewrite zlen_take; [done|]. rewrite length_drop. zlia.
  - rewrite <-fmap_app. cbn [app]. apply rep_mk; [|zlia|done|by apply Forall_app].
    rewrite zlen_drop by zlia. zlia.
Qed.

(** * Appending *)

(** A [const char *] that lies in memory. *)
Definition valid_str (t : list Z) : Prop := Forall is_char t /\ zlen t < PTRDIFF_MAX.

#[export] Instance valid_str_dec t : Decision (valid_str t).
Proof. unfold valid_str. apply _. Defined.

(** Runs the guard of a writing operation: one goal where it failed and the
    object is unchanged, one where there is room in [c']. *)
Ltac use_room Hrep c' Hw Hrep' Hroom :=
  wp; eapply wp_mono; [apply (make_room_spec _ _ _ _ Hrep)|];
  [try solve [unfold valid_str, PTRDIFF_MAX in *; zlia] |];
  intros [[] c'] ? (Hw & ? & Hroom); cbn [fst snd] in *;
  [wp; assumption
  |specialize (Hroom eq_refl); pose proof (proj1 Hw) as Hrep'; cbn [fst snd] in Hrep'].

(** The object stored after the room was made satisfies [writes] too. *)
Lemma writes_success c c' n o o' sf s s' d k :
  writes c n o sf s (success, c') o' ->
  rep (mk_cstring (size c') k d) s' ->
  writes c n o sf s' (success, mk_cstring (size c') k d) o'.
Proof. intros (_ & Hsz & Ho) Hrep. by split. Qed.

Lemma rep_len_u64 c s n : rep c s -> zlen s + n < size c -> 0 <= n -> u64 (len c + n) = len c + n.
Proof.
  intros Hrep Hroom Hn. pose proof (rep_bounds _ _ Hrep) as (? & ? & ->).
  unfold PTRDIFF_MAX in *. apply u64_small. zlia.
Qed.

Lemma cstring_concat_spec c s t o :
  rep c s -> valid_str t ->
  wp (cstring_concat c t) o (writes c (zlen t) o s (s ++ t)).
Proof.
  intros Hrep Ht. unfold cstring_concat.
  use_room Hrep c' Hw Hrep' Hroom.
  destruct (rep_append c' s t) as (d & Hd & Hr); [done|apply Ht|lia|].
  destruct Hrep' as (junk & Hdata & _ & Hl & _). wp.
  rewrite Hdata, Hl. unfold zlen at 1. rewrite Nat2Z.id, strlen_drop_cstr. wp.
  rewrite <-Hdata, Z.add_0_r, <-Hl, Hd. wp.
  rewrite (rep_len_u64 c' s) by (try apply Hw; zlia).
  eapply rep_assert_len; [exact Hr|]. wp. by eapply writes_success.
Qed.

Lemma cstring_vprintf_spec c s t o :
  rep c s -> valid_str t ->
  wp (cstring_vprintf c t) o (writes c (zlen t + 1) o s (s ++ t)).
Proof.
  intros Hrep Ht. unfold cstring_vprintf. wp.
  eapply rep_assert_len; [exact Hrep|].
  rewrite (u64_small (zlen t + 1)) by (unfold valid_str, PTRDIFF_MAX in *; zlia).
  use_room Hrep c' Hw Hrep' Hroom.
  destruct (rep_append c' s t) as (d & -> & Hr); [done|apply Ht|lia|]. wp.
  rewrite (rep_len_u64 c' s) by (done || zlia).
  eapply rep_assert_len; [exact Hr|]. wp. by eapply writes_success.
Qed.

Lemma cstring_pcat_spec c s t rest o :
  rep c s -> valid_str t -> t <> [] ->
  wp (cstring_pcat c ((Some <$> t) ++ rest) (zlen t)) o (writes c (zlen t) o s (s ++ t)).
Proof.
  intros Hrep Ht Hne. unfold cstring_pcat.
  assert (0 < zlen t) by (destruct t; [done | zlia]).
  use_room Hrep c' Hw Hrep' Hroom.
  rewrite rd_head by (by rewrite zlen_fmap). wp.
  destruct (rep_append2 c' s t) as (d & d' & -> & Hst & Hr); [done|apply Ht|lia|]. wp.
  rewrite (rep_len_u64 c' s) by (done || zlia). rewrite Hst. wp.
  eapply rep_assert_len; [exact Hr|]. wp. by eapply writes_success.
Qed.

Lemma cstring_charcat_spec c s x o :
  rep c s -> is_char (u8 x) ->
  wp (cstring_charcat c x) o (writes c 1 o s (s ++ [u8 x])).
Proof.
  intros Hrep Hx. unfold cstring_charcat.
  use_room Hrep c' Hw Hrep' Hroom.
  destruct (rep_append2 c' s [u8 x]) as (d & d' & Hd & Hst & Hr); [done|by apply Forall_singleton|zlia|].
  change (Some <$> [u8 x]) with [Some (u8 x)] in Hd. change (zlen [u8 x]) with 1 in *.
  unfold stc at 1. rewrite Hd. wp.
  rewrite (rep_len_u64 c' s) by (done || zlia). rewrite Hst. wp.
  eapply rep_assert_len; [exact Hr|]. wp. by eapply writes_success.
Qed.

(** * Creation and assignment *)

Lemma cstring_new_spec o :
  wp cstring_new o (fun r o' =>
    (forall c, r = Some c -> rep c [] /\ size c = CSTRING_INITIAL_SIZE) /\
    (o = [] -> o' = [] /\ is_Some r)).
Proof.
  unfold cstring_new. wp. apply wp_alloc_ok. intros b o1 _ Ho1.
  destruct b; simpl; wp.
  2:{ split; [done|]. intros ->. by destruct Ho1. }
  apply wp_malloc; [intros o2 _ Ho2 | intros o2 Ho2].
  - wp. change (replicate _ None) with (None :: replicate 255 None : block).
    rewrite stc_head. wp. split.
    + intros c [= <-]. split; [|done]. by apply (rep_mk _ _ []).
    + intros ->. destruct Ho1 as [-> _]; [done|]. split; [by apply Ho2 | done].
  - wp. split; [done|]. intros ->. destruct Ho1 as [-> _]; [done|].
    by destruct Ho2 as [_ ?].
Qed.

Lemma cstring_recycle_spec c s :
  rep c s -> wpr (cstring_recycle c) (fun c' => rep c' [] /\ size c' = size c).
Proof.
  intros (junk & Hd & Hsz & _ & Hinit & _). unfold cstring_recycle. wp.
  destruct (data c) as [|x d] eqn:Hdc; [by destruct s|].
  rewrite stc_head. wp. split; [|done].
  apply (rep_mk _ _ [] d); [zlia|done..].
Qed.

(** Runs [cstring_recycle]. *)
Ltac use_recycle Hrep c1 Hrep1 Hsz1 :=
  wp; eapply wpr_mono; [apply (cstring_recycle_spec _ _ Hrep)|]; intros c1 [Hrep1 Hsz1].

Lemma writes_size c c1 n o sf s' r o' :
  size c1 = size c -> writes c1 n o sf s' r o' -> writes c n o sf s' r o'.
Proof. unfold writes. by intros ->. Qed.

Lemma cstring_set_spec c s t o :
  rep c s -> valid_str t -> wp (cstring_set c t) o (writes c (zlen t) o [] t).
Proof.
  intros Hrep Ht. unfold cstring_set.
  use_recycle Hrep c1 Hrep1 Hsz1.
  eapply wp_mono; [|intros a o'; by apply writes_size].
  use_room Hrep1 c' Hw Hrep' Hroom.
  destruct (rep_append c' [] t) as (d & Hd & Hr); [done|apply Ht|lia|].
  pose proof (rep_bounds _ _ Hrep') as (_ & _ & Hl). rewrite zlen_nil in Hl.
  rewrite Hl in Hd. rewrite Hd. wp.
  rewrite (rep_len_u64 c' []) by (done || zlia).
  eapply rep_assert_len; [exact Hr|]. wp. by eapply writes_success.
Qed.

Lemma cstring_nset_spec c s t n o :
  rep c s -> valid_str t -> 0 <= n ->
  wp (cstring_nset c t n) o
    (writes c (Z.min n (zlen t)) o [] (take (Z.to_nat n) t)).
Proof.
  intros Hrep Ht Hn. unfold cstring_nset.
  use_recycle Hrep c1 Hrep1 Hsz1.
  eapply wp_mono; [|intros a o'; by apply writes_size].
  replace (if n <? zlen t then n else zlen t) with (Z.min n (zlen t)) by (zcase; lia).
  use_room Hrep1 c' Hw Hrep' Hroom.
  set (t' := take (Z.to_nat (Z.min n (zlen t))) t).
  assert (take (Z.to_nat n) t = t') as ->.
  { unfold t', zlen. destruct (Z.min_spec n (Z.of_nat (length t))) as [[? ->]|[? ->]]; [done|].
    by rewrite Nat2Z.id, !take_ge by lia. }
  assert (zlen t' = Z.min n (zlen t)) as Hlen.
  { unfold t'. rewrite zlen_take; zlia. }
  rewrite <-Hlen in *.
  destruct (rep_append2 c' [] t') as (d & d' & Hd & Hst & Hr);
    [done|by apply Forall_take, Ht|lia|].
  pose proof (rep_bounds _ _ Hrep') as (_ & _ & Hl). rewrite zlen_nil in Hl.
  rewrite Hl, ?Z.add_0_l in *. rewrite Hd. wp. rewrite Hst. wp.
  eapply rep_assert_len; [exact Hr|]. wp. by eapply writes_success.
Qed.

Lemma cstring_dup_spec t o :
  valid_str t ->
  wp (cstring_dup t) o (fun r o' =>
    (forall c, r = Some c -> rep c t) /\
    (o = [] -> zlen t + 512 <= PTRDIFF_MAX -> o' = [] /\ is_Some r)).
Proof.
  intros Ht. unfold cstring_dup. wp.
  eapply wp_mono; [apply cstring_new_spec|]. intros [c|] o1 [Hc Ho1]; wp.
  2:{ split; [done|]. intros ->. by destruct Ho1 as [_ []]. }
  destruct (Hc c eq_refl) as [Hrep Hsz].
  eapply wp_mono; [by apply (cstring_set_spec _ _ _ _ Hrep)|].
  intros [st c'] o2 (Hr & _ & Ho2). cbn [fst snd] in *. destruct st; wp.
  - split; [done|]. intros -> Hfit. destruct Ho1 as [-> _]; [done|].
    destruct Ho2 as [_ H]; [done|]. unfold CSTRING_INITIAL_SIZE in *.
    by discriminate H; lia.
  - split; [by intros ? [= <-]|]. intros -> _. destruct Ho1 as [-> _]; [done|].
    by destruct Ho2 as [-> _].
Qed.

(** * Editing in place *)

(** The two-pointer loop reverses the characters between the pointers. *)
Lemma reverse_loop_spec fuel (mid : list Z) pre post :
  (length mid <= 2 * fuel + 1)%nat ->
  reverse_loop fuel (pre ++ (Some <$> mid) ++ post) (zlen pre) (zlen pre + zlen mid - 1)
  = Ret (pre ++ (Some <$> reverse mid) ++ post).
Proof.
  revert mid pre post. induction fuel as [|fuel IH]; intros mid pre post Hf;
    cbn [reverse_loop]; destruct (Z.ltb_spec (zlen pre) (zlen pre + zlen mid - 1)) as [Hlt|Hge];
    [zlia| destruct mid as [|x [|]]; done || zlia |
     | destruct mid as [|x [|]]; [done|done|zlia]].
  destruct mid as [|x mid]; [zlia|].
  destruct mid as [|y mid _] using rev_ind; [zlia|].
  rewrite fmap_cons, fmap_app. change (Some <$> [y]) with [Some y].
  replace (pre ++ (Some x :: (Some <$> mid) ++ [Some y]) ++ post)
    with ((pre ++ Some x :: (Some <$> mid)) ++ Some y :: post)
    by (by rewrite <-!app_assoc; simpl; rewrite <-app_assoc).
  rewrite ldc_app by zlia. cbn [res_bind].
  rewrite <-app_assoc. cbn [app]. rewrite ldc_app by done. cbn [res_bind].
  replace (pre ++ Some x :: (Some <$> mid) ++ Some y :: post)
    with ((pre ++ Some x :: (Some <$> mid)) ++ Some y :: post)
    by (by rewrite <-!app_assoc).
  rewrite stc_app by zlia. cbn [res_bind].
  rewrite <-app_assoc. cbn [app]. rewrite stc_app by done. cbn [res_bind].
  replace (pre ++ Some y :: (Some <$> mid) ++ Some x :: post)
    with ((pre ++ [Some y]) ++ (Some <$> mid) ++ (Some x :: post))
    by (by rewrite <-!app_assoc).
  replace (zlen pre + 1) with (zlen (pre ++ [Some y])) by zlia.
  replace (zlen pre + zlen (x :: mid ++ [y]) - 1 - 1)
    with (zlen (pre ++ [Some y]) + zlen mid - 1) by zlia.
  rewrite IH by zlia. rewrite reverse_cons, reverse_app, !fmap_app. cbn [reverse rev_append].
  by rewrite <-!app_assoc.
Qed.

Lemma rep_set_data c s t :
  rep c s -> Forall is_char t -> zlen t = zlen s ->
  forall junk, data c = (Some <$> s) ++ Some 0 :: junk ->
  rep (set_data c ((Some <$> t) ++ Some 0 :: junk)) t.
Proof.
  intros (junk' & _ & Hsz & Hl & Hinit & _) Ht Hlen junk Hd.
  rewrite Hd in Hsz. apply rep_mk; [zlia|lia|done|done].
Qed.

Lemma cstring_reverse_spec c s :
  rep c s -> wpr (cstring_reverse c) (fun c' => rep c' (reverse s) /\ size c' = size c).
Proof.
  intros Hrep. pose proof Hrep as (junk & Hd & _ & Hl & _ & Hs).
  unfold cstring_reverse. rewrite Hl. zcase.
  - wp. rewrite Hd, (reverse_loop_spec _ s [] (Some 0 :: junk)) by zlia. wp.
    split; [|done]. eapply rep_set_data; [done|by apply Forall_reverse| |done].
    unfold zlen. by rewrite length_reverse.
  - assert (s = []) as -> by (apply zlen_0; zlia). by wp.
Qed.

(** A loop that maps the characters of a string in place. *)
Lemma map_loop_spec p f s pre post :
  map_loop p f (length s) (zlen pre) (pre ++ (Some <$> s) ++ post)
  = Ret (pre ++ (Some <$> ((fun c => if p c then f c else c) <$> s)) ++ post).
Proof.
  revert pre. induction s as [|c s IH]; intros pre; [done|].
  rewrite !fmap_cons. cbn [length map_loop app]. rewrite ldc_app by done. cbn [res_bind].
  assert (forall x, zlen pre + 1 = zlen (pre ++ [Some x] : block)) as Hpre by (intros; zlia).
  destruct (p c); [rewrite stc_app by done|]; cbn [res_bind];
    [rewrite (Hpre (f c)) | rewrite (Hpre c)].
  - specialize (IH (pre ++ [Some (f c)])). rewrite <-!app_assoc in IH. exact IH.
  - specialize (IH (pre ++ [Some c])). rewrite <-!app_assoc in IH. exact IH.
Qed.

Lemma cstring_map_spec p f c s :
  rep c s -> (forall x, is_char x -> p x = true -> is_char (f x)) ->
  wpr (let+ d := map_loop p f (Z.to_nat (len c)) 0 (data c) in Ret (set_data c d))
    (fun c' => rep c' ((fun x => if p x then f x else x) <$> s)).
Proof.
  intros Hrep Hf. pose proof Hrep as (junk & Hd & _ & Hl & _ & Hs).
  wp. rewrite Hl, Hd. unfold zlen. rewrite Nat2Z.id.
  pose proof (map_loop_spec p f s [] (Some 0 :: junk)) as Hm.
  change (zlen []) with 0 in Hm. cbn [app] in Hm. rewrite Hm. wp.
  eapply rep_set_data; [done| |by rewrite zlen_fmap|done].
  apply Forall_fmap. eapply Forall_impl; [|exact Hs]. intros x Hx. simpl.
  destruct (p x) eqn:Hp; auto.
Qed.

Lemma cstring_lower_spec c s :
  rep c s -> wpr (cstring_lower c) (fun c' => rep c' (tolower <$> s)).
Proof.
  intros Hrep. eapply wpr_mono; [apply (cstring_map_spec _ _ _ _ Hrep)|].
  - unfold tolower, isupper, in_range, is_char. intros x ? Hx. rewrite Hx. zreflect. lia.
  - intros c' Hc'. replace (tolower <$> s) with ((fun x => if isupper x then tolower x else x) <$> s); [done|].
    apply list_fmap_ext. intros ? x _. unfold tolower. by destruct (isupper x).
Qed.

Lemma cstring_upper_spec c s :
  rep c s -> wpr (cstring_upper c) (fun c' => rep c' (toupper <$> s)).
Proof.
  intros Hrep. eapply wpr_mono; [apply (cstring_map_spec _ _ _ _ Hrep)|].
  - unfold toupper, islower, in_range, is_char. intros x ? Hx. rewrite Hx. zreflect. lia.
  - intros c' Hc'. replace (toupper <$> s) with ((fun x => if islower x then toupper x else x) <$> s); [done|].
    apply list_fmap_ext. intros ? x _. unfold toupper. by destruct (islower x).
Qed.

(** * Stripping white space *)

Fixpoint drop_ws (s : list Z) : list Z :=
  match s with
  | c :: s' => if isspace c then drop_ws s' else s
  | [] => []
  end.

Definition strip_right (s : list Z) : list Z := reverse (drop_ws (reverse s)).

Definition strip (s : list Z) : list Z := drop_ws (strip_right s).

Lemma strip_right_snoc s x :
  strip_right (s ++ [x]) = if isspace x then strip_right s else s ++ [x].
Proof.
  unfold strip_right. rewrite reverse_snoc. simpl. destruct (isspace x); [done|].
  by rewrite reverse_cons, reverse_involutive.
Qed.

Lemma rstrip_loop_spec c s :
  rep c s -> wpr (rstrip_loop (length s) c) (fun c' => rep c' (strip_right s) /\ size c' = size c).
Proof.
  revert c. induction s as [|x s IH] using rev_ind; intros c Hrep; [done|].
  pose proof Hrep as (junk & Hd & Hsz & Hl & Hinit & Hs).
  rewrite strip_right_snoc, length_app, Nat.add_comm. cbn [length Nat.add rstrip_loop].
  rewrite fmap_app, <-app_assoc in Hd. cbn [fmap list_fmap app] in Hd.
  wp. rewrite Hd, ldc_app by zlia. simpl. destruct (isspace x); [|done].
  wp. rewrite stc_app by zlia. wp.
  apply Forall_app in Hs as [Hs Hx]. apply Forall_singleton in Hx.
  eapply wpr_mono; [apply IH|done]. rewrite Hd in Hsz.
  unfold PTRDIFF_MAX in *. rewrite u64_small by zlia. apply rep_mk; [zlia|zlia|done|done].
Qed.

Lemma cstring_rstrip_spec c s :
  rep c s -> wpr (cstring_rstrip c) (fun c' => rep c' (strip_right s) /\ size c' = size c).
Proof.
  intros Hrep. unfold cstring_rstrip. rewrite (proj2 (proj2 (rep_bounds _ _ Hrep))).
  unfold zlen. rewrite Nat2Z.id. by apply rstrip_loop_spec.
Qed.

Lemma leading_ws_spec c pre s post :
  data c = pre ++ (Some <$> s) ++ post ->
  leading_ws (length s) (zlen pre) c = Ret (zlen pre + (zlen s - zlen (drop_ws s))).
Proof.
  revert pre. induction s as [|x s IH]; intros pre Hd.
  { simpl. f_equal. zlia. }
  rewrite fmap_cons in Hd. cbn [app] in Hd. cbn [length leading_ws drop_ws].
  rewrite Hd, ldc_app by done. cbn [res_bind].
  destruct (isspace x).
  - replace (zlen pre + 1) with (zlen (pre ++ [Some x] : block)) by zlia.
    rewrite IH by (by rewrite Hd, <-app_assoc). f_equal. zlia.
  - f_equal. zlia.
Qed.

Lemma drop_ws_suffix s : exists w, s = w ++ drop_ws s.
Proof.
  induction s as [|x s [w IH]]; [by exists []|]. simpl.
  destruct (isspace x); [|by exists []]. exists (x :: w). simpl. by rewrite <-IH.
Qed.

(** Moving the tail of the string to the front of the block. *)
Lemma rep_move_front c w t :
  rep c (w ++ t) -> exists d d',
    rd (data c) (zlen w) (zlen t) = Ret (Some <$> t) /\
    wr (data c) 0 (Some <$> t) = Ret d /\ stc d (zlen t) 0 = Ret d' /\
    rep (mk_cstring (size c) (zlen t) d') t.
Proof.
  intros (junk & Hd & Hsz & Hl & Hinit & Hs). rewrite Hd in Hsz.
  pose proof (proj2 (proj1 (Forall_app _ _ _) Hs)) as Ht.
  set (rest := drop (length (Some <$> t)) (data c)).
  assert (zlen rest = size c - zlen t) as Hrest.
  { unfold rest. rewrite zlen_drop; rewrite Hd; zlia. }
  destruct rest as [|r rest'] eqn:Er; [zlia|].
  exists ((Some <$> t) ++ rest), ((Some <$> t) ++ Some 0 :: rest'). split_and!.
  - rewrite Hd, fmap_app, <-app_assoc. apply rd_app; zlia.
  - apply wr_head. rewrite Hd. zlia.
  - rewrite Er. apply stc_app. zlia.
  - apply rep_mk; [zlia|done|done|done].
Qed.

Lemma cstring_strip_spec c s :
  rep c s -> wpr (cstring_strip c) (fun c' => rep c' (strip s)).
Proof.
  intros Hrep. unfold cstring_strip, strip. wp.
  eapply wpr_mono; [apply (cstring_rstrip_spec c s Hrep)|].
  intros c1 [Hrep1 _]. set (s1 := strip_right s) in *.
  pose proof Hrep1 as (junk & Hd & _ & Hl & _ & _).
  wp. rewrite Hl. unfold zlen at 1. rewrite Nat2Z.id.
  pose proof (leading_ws_spec c1 [] s1 (Some 0 :: junk) Hd) as Hws.
  change (zlen []) with 0 in Hws. rewrite Hws. cbn [wpr]. clear Hws.
  destruct (drop_ws_suffix s1) as [w Hw]. set (t := drop_ws s1) in *.
  assert (0 + (zlen s1 - zlen t) = zlen w) as -> by (rewrite Hw; zlia).
  assert (u64 (zlen s1 - zlen w) = zlen t) as ->.
  { pose proof (rep_bounds _ _ Hrep1) as (? & ? & _). rewrite Hw in *.
    unfold PTRDIFF_MAX in *. rewrite u64_small; zlia. }
  rewrite Hw in Hrep1.
  zcase.
  - destruct (rep_move_front _ _ _ Hrep1) as (d & d' & Hrd & Hwr & Hst & Hr).
    wp. rewrite Hrd. wp. rewrite Hwr. wp. rewrite Hst. wp. done.
  - wp. rewrite (zlen_0 w) in Hrep1 by zlia. done.
Qed.

(** * Inserting and removing *)

Lemma cstring_insert_spec c a b t o :
  rep c (a ++ b) -> valid_str t ->
  wp (cstring_insert c (zlen a) t) o (writes c (zlen t) o (a ++ b) (a ++ t ++ b)).
Proof.
  intros Hrep Ht. unfold cstring_insert.
  pose proof (rep_bounds _ _ Hrep) as (_ & _ & Hlc).
  use_room Hrep c' Hw Hrep' Hroom.
  destruct Hrep' as (junk & Hd & Hsz & Hl & Hinit & Hs). rewrite Hd in Hsz.
  set (R := (Some <$> b) ++ Some 0 :: junk).
  assert (data c' = (Some <$> a) ++ R) as HdR by (by rewrite Hd, fmap_app, <-app_assoc).
  assert (rd (data c') (zlen a) (len c' - zlen a) = Ret (Some <$> b)) as ->.
  { rewrite HdR. apply rd_app; zlia. }
  wp. destruct (block_split R (zlen t)) as (R1 & R2 & HR & HR1). { unfold R. zlia. }
  destruct (block_split R2 (zlen b)) as (R3 & R4 & HR2 & HR3).
  { apply (f_equal zlen) in HR. unfold R in HR. zlia. }
  apply (f_equal zlen) in HR as HRlen. unfold R in HRlen.
  assert (zlen R4 = size c' - zlen a - zlen t - zlen b) as HR4 by (subst R2; zlia).
  destruct R4 as [|r R4]; [zlia|].
  assert (wr (data c') (zlen a + zlen t) (Some <$> b)
          = Ret ((Some <$> a) ++ R1 ++ (Some <$> b) ++ r :: R4)) as ->.
  { rewrite HdR, HR, HR2, !app_assoc, <-(app_assoc _ _ (r :: R4)).
    erewrite wr_app; [by rewrite !app_assoc| zlia | zlia]. }
  wp. rewrite (wr_app (Some <$> a) R1) by zlia. wp.
  rewrite (rep_len_u64 c' (a ++ b)) by (try apply Hw; zlia).
  assert (forall x, (Some <$> a) ++ (Some <$> t) ++ (Some <$> b) ++ x :: R4
          = (Some <$> (a ++ t ++ b)) ++ x :: R4) as Happ
    by (intros; by rewrite !fmap_app, <-!app_assoc).
  rewrite Happ, stc_app by zlia. wp. eapply writes_success; [exact Hw|].
  apply rep_mk; [zlia|zlia|done|].
  apply Forall_app in Hs as [??]. apply Forall_app; split; [done|].
  apply Forall_app; split; [apply Ht|done].
Qed.

(** [cstring_cut] moves one byte run of the string's old length; it stays
    inside the block exactly when the block has [n] bytes to spare. *)
Lemma cstring_cut_spec c a b t :
  rep c (a ++ b ++ t) -> 0 < zlen (b ++ t) -> zlen (a ++ b ++ t) + zlen b <= size c ->
  wpr (cstring_cut c (zlen a) (zlen b)) (fun c' => rep c' (a ++ t) /\ size c' = size c).
Proof.
  intros Hrep Hlt Hroom. pose proof (rep_bounds _ _ Hrep) as (_ & Hmax & Hlc).
  destruct Hrep as (junk & Hd & Hsz & Hl & Hinit & Hs). rewrite Hd in Hsz.
  unfold PTRDIFF_MAX in *. unfold cstring_cut. rewrite u64_small by zlia.
  rewrite Hl. wp.
  destruct (block_split (Some 0 :: junk) (zlen b)) as (J1 & J2 & HJ & HJ1); [zlia|].
  apply (f_equal zlen) in HJ as HJlen.
  assert (rd (data c) (zlen a + zlen b) (zlen (a ++ b ++ t) - zlen a)
          = Ret ((Some <$> t) ++ J1)) as ->.
  { rewrite Hd, HJ, !fmap_app, <-!app_assoc, (app_assoc (Some <$> a)).
    rewrite (app_assoc (Some <$> t)). apply rd_app; zlia. }
  wp. rewrite Hd, fmap_app, <-app_assoc.
  rewrite wr_tail by zlia. wp. split; [|done].
  replace ((Some <$> b ++ t) ++ Some 0 :: junk)
    with (((Some <$> b) ++ (Some <$> t)) ++ J1 ++ J2) by (by rewrite HJ, fmap_app).
  rewrite drop_app_length' by (rewrite !length_app; zlia).
  rewrite <-(app_assoc (Some <$> t)), <-HJ, (app_assoc (Some <$> a)), <-fmap_app.
  assert (exists J, J1 ++ Some 0 :: junk = Some 0 :: J) as [J HJ'].
  { destruct J1; [by eexists|]. injection HJ as <- _. by eexists. }
  apply (f_equal zlen) in HJ' as HJ'len. rewrite HJ'.
  apply rep_mk; [zlia|zlia|done|].
  apply Forall_app in Hs as [? Hs]. apply Forall_app in Hs as [? ?]. by apply Forall_app.
Qed.

Lemma cstring_cut_overrun c a b t :
  rep c (a ++ b ++ t) -> 0 < zlen (b ++ t) -> size c < zlen (a ++ b ++ t) + zlen b ->
  cstring_cut c (zlen a) (zlen b) = Fault OutOfBounds.
Proof.
  intros Hrep Hlt Hover. pose proof (rep_bounds _ _ Hrep) as (Hin & Hmax & Hlc).
  destruct Hrep as (junk & Hd & Hsz & Hl & Hinit & Hs).
  unfold PTRDIFF_MAX in *. unfold cstring_cut, guard.
  rewrite u64_small by zlia. rewrite Hl.
  rewrite (proj2 (Z.ltb_lt _ _)), !(proj2 (Z.leb_le _ _)) by zlia.
  cbn [res_bind]. unfold rd. rewrite <-Hsz.
  destruct (Z.leb_spec (zlen a + zlen b + (zlen (a ++ b ++ t) - zlen a)) (size c)); [zlia|].
  by rewrite andb_false_r.
Qed.

Lemma cstring_replace_spec c a b t u o :
  rep c (a ++ b ++ t) -> 0 < zlen (b ++ t) -> zlen b < zlen (a ++ b ++ t) ->
  zlen (a ++ b ++ t) + zlen b <= size c -> valid_str u ->
  wp (cstring_replace c (zlen a) (zlen b) u) o (writes c (zlen u) o (a ++ t) (a ++ u ++ t)).
Proof.
  intros Hrep Hlt Hb Hroom Hu. pose proof (rep_bounds _ _ Hrep) as (Hin & Hmax & Hlc).
  unfold cstring_replace. unfold PTRDIFF_MAX in *. rewrite u64_small by zlia. rewrite Hlc.
  wp. eapply wpr_mono; [by apply cstring_cut_spec|]. intros c1 [Hrep1 Hsz1].
  eapply wp_mono; [by apply cstring_insert_spec|]. intros r o'. by apply writes_size.
Qed.

Lemma cstring_truncate_spec c a b :
  rep c (a ++ b) -> b <> [] ->
  wpr (cstring_truncate c (zlen a)) (fun c' => rep c' a /\ size c' = size c).
Proof.
  intros (junk & Hd & Hsz & Hl & Hinit & Hs) Hb. rewrite Hd in Hsz.
  destruct b as [|x b]; [done|]. unfold cstring_truncate. rewrite Hl. wp.
  rewrite Hd, fmap_app, <-app_assoc, fmap_cons. cbn [app]. rewrite stc_app by zlia. wp.
  split; [|done]. apply Forall_app in Hs as [? _]. apply rep_mk; [zlia|done..].
Qed.

(** * Copies of a part *)

(** A fresh object extended in advance, as the three functions below make it. *)
Lemma new_extended_spec n o (Q : option cstring -> oracle -> Prop) (k : cstring -> C (option cstring)) :
  0 <= n <= PTRDIFF_MAX ->
  (forall o', (o = [] -> o' = [] /\ PTRDIFF_MAX < n + 512) -> Q None o') ->
  (forall c o', rep c [] -> size c <= 512 + n -> (o = [] -> o' = []) -> wp (k c) o' Q) ->
  wp (let* dest := cstring_new in
      match dest with
      | None => ret None
      | Some dest =>
          let* (st, dest) := cstring_extend dest n in
          match st with
          | failure => ret None
          | success => k dest
          end
      end) o Q.
Proof.
  intros Hn HN HS. wp. eapply wp_mono; [apply cstring_new_spec|].
  intros [c|] o1 [Hc Ho1]; wp.
  2:{ apply HN. intros ->. by destruct Ho1 as [_ []]. }
  destruct (Hc c eq_refl) as [Hrep Hsz]. unfold CSTRING_INITIAL_SIZE, PTRDIFF_MAX in *.
  pose proof (rep_bounds _ _ Hrep) as (_ & _ & Hl). rewrite zlen_nil in Hl.
  destruct (has_room_for c n) eqn:Hr.
  - unfold has_room_for in Hr. rewrite Hsz, Hl in Hr.
    change (u64 (256 - 0 - 1)) with 255 in Hr. zreflect.
    unfold cstring_extend, CSTRING_INITIAL_SIZE. rewrite Hsz, Hl, u64_small by lia. wp.
    destruct (Z.ltb_spec 256 (0 + n + 1)); [lia|]. wp.
    eapply rep_assert_len; [exact Hrep|]. wp.
    apply HS; [done|lia|]. intros ->. by destruct Ho1.
  - pose proof (make_room_spec c [] n o1 Hrep Hn) as Hroom.
    unfold make_room in Hroom. rewrite Hr in Hroom.
    eapply wp_mono; [exact Hroom|]. intros [st c'] o2 ((Hrep' & Hsz' & Ho2) & _ & _).
    cbn [fst snd] in *. destruct st; wp.
    + apply HN. intros ->. destruct Ho1 as [-> _]; [done|].
      destruct Ho2 as [-> Hs]; [done|]. split; [done|].
      unfold PTRDIFF_MAX in *. destruct (Z.le_gt_cases (2 * size c + n) (2 ^ 63 - 1)) as [Hle|]; [|lia].
      by specialize (Hs Hle).
    + apply HS; [done|lia|]. intros ->. destruct Ho1 as [-> _]; [done|]. by apply Ho2.
Qed.

(** The result of a copying function: the string [s], always given when the
    allocator never fails and the request fits. *)
Definition copies (need : Z) (s : list Z) (o : oracle) (r : option cstring) (o' : oracle) : Prop :=
  (forall c, r = Some c -> rep c s) /\
  (o = [] -> need <= PTRDIFF_MAX -> o' = [] /\ is_Some r).

(** Finishing such a function with an operation that writes [s]. *)
Lemma wp_copies need c n sf s o o1 m :
  (o = [] -> o1 = []) -> 2 * size c + n <= need ->
  wp m o1 (writes c n o1 sf s) ->
  wp (let* (st, dest) := m in
      match st with
      | failure => ret None
      | success => ret (Some dest)
      end) o1 (copies need s o).
Proof.
  intros Ho Hneed Hm. wp. eapply wp_mono; [exact Hm|].
  intros [st c'] o2 (Hrep & _ & Ho2). cbn [fst snd] in *. destruct st; wp.
  - split; [done|]. intros ->. rewrite Ho in * by done. intros.
    by destruct Ho2 as [_ H']; [done|]; discriminate H'; lia.
  - split; [by intros ? [= <-]|]. intros ->. rewrite Ho in * by done. intros.
    by destruct Ho2 as [-> _].
Qed.

Lemma rep_valid c s : rep c s -> valid_str s.
Proof.
  intros Hrep. pose proof (rep_bounds _ _ Hrep) as (? & ? & _).
  destruct Hrep as (_ & _ & _ & _ & _ & ?). split; [done|lia].
Qed.

Lemma cstring_left_spec c s n o :
  rep c s -> 0 <= n <= PTRDIFF_MAX ->
  wp (cstring_left c n) o (copies (1024 + 3 * n) (take (Z.to_nat n) s) o).
Proof.
  intros Hrep Hn. unfold cstring_left. apply new_extended_spec; [done|..].
  { intros o' Ho'. split; [done|]. intros -> ?. destruct Ho' as [_ ?]; [done|lia]. }
  intros c1 o1 Hrep1 Hsz1 Ho1. wp. rewrite (rep_str_at _ _ Hrep). cbn [wpr].
  eapply wp_copies; [done| |apply (cstring_nset_spec _ _ _ _ _ Hrep1);
    [by eapply rep_valid | lia]].
  lia.
Qed.

Lemma cstring_right_spec c s n o :
  rep c s -> 0 <= n <= PTRDIFF_MAX ->
  wp (cstring_right c n) o
    (copies (1024 + 3 * n) (drop (length s - Z.to_nat n)%nat s) o).
Proof.
  intros Hrep Hn. unfold cstring_right. apply new_extended_spec; [done|..].
  { intros o' Ho'. split; [done|]. intros -> ?. destruct Ho' as [_ ?]; [done|lia]. }
  intros c1 o1 Hrep1 Hsz1 Ho1. wp. rewrite (rep_str_at _ _ Hrep). cbn [wpr].
  set (t := drop (length s - Z.to_nat n)%nat s).
  assert ((if n <? zlen s then drop (Z.to_nat (zlen s - n)) s else s) = t) as ->.
  { unfold t. zcase; unfold zlen in *; [f_equal; lia|].
    by replace (length s - Z.to_nat n)%nat with 0%nat by lia. }
  assert (valid_str t) as Ht.
  { destruct (rep_valid _ _ Hrep) as [??]. split; [by apply Forall_drop|].
    unfold t, zlen in *. rewrite length_drop. lia. }
  eapply wp_copies; [done| |by apply (cstring_set_spec _ _ _ _ Hrep1)].
  unfold t, zlen. rewrite length_drop. lia.
Qed.

Lemma cstring_substring_spec c a b t o :
  rep c (a ++ b ++ t) -> b <> [] ->
  wp (cstring_substring c (zlen a) (zlen (a ++ b))) o (copies (1030 + 3 * zlen b) b o).
Proof.
  intros Hrep Hb. pose proof (rep_bounds _ _ Hrep) as (Hlen & Hmax & Hlc).
  unfold cstring_substring. rewrite Hlc. do 6 wp_step.
  destruct (Z.ltb_spec (zlen (a ++ b ++ t)) (zlen (a ++ b))); [zlia|].
  unfold PTRDIFF_MAX in *. rewrite u64_small by zlia.
  apply new_extended_spec; [unfold PTRDIFF_MAX; zlia|..].
  { intros o' Ho'. split; [done|]. intros -> ?. destruct Ho' as [_ ?]; [done|].
    unfold PTRDIFF_MAX in *. zlia. }
  intros c1 o1 Hrep1 Hsz1 Ho1. destruct (rep_valid _ _ Hrep) as [Hch Hmem].
  destruct Hrep as (junk & Hd & _). rewrite Hd, fmap_app, <-app_assoc.
  rewrite drop_app_length' by zlia. rewrite fmap_app, <-app_assoc.
  replace (zlen (a ++ b) - zlen a) with (zlen b) by zlia.
  apply Forall_app in Hch as [_ Hch]. apply Forall_app in Hch as [Hch _].
  eapply wp_copies; [done| |eapply (cstring_pcat_spec _ _ _ _ _ Hrep1);
    [split; [done|unfold PTRDIFF_MAX in *; zlia]|done]].
  zlia.
Qed.

(** * Splitting *)

Definition flush_word (cur : list Z) : list (list Z) :=
  match cur with [] => [] | _ => [reverse cur] end.

(** The maximal runs of characters outside the set [p], in order; [cur] is the
    run being read, reversed. *)
Fixpoint words (p : Z -> bool) (cur s : list Z) : list (list Z) :=
  match s with
  | [] => flush_word cur
  | c :: s' => if p c then flush_word cur ++ words p [] s' else words p (c :: cur) s'
  end.

Section Words.
Context (p : Z -> bool).

Lemma words_run w cur s :
  Forall (fun c => negb (p c) = true) w -> words p cur (w ++ s) = words p (reverse w ++ cur) s.
Proof.
  intros Hw. revert cur. induction Hw as [|c w Hc _ IH]; intros cur; [done|].
  simpl. apply negb_true_iff in Hc. rewrite Hc, IH, reverse_cons.
  by rewrite <-app_assoc.
Qed.

Lemma words_length cur s :
  (length (words p cur s) <= length s + (match cur with [] => 0 | _ => 1 end))%nat.
Proof.
  revert cur. induction s as [|c s IH]; intros cur; simpl.
  { destruct cur; simpl; lia. }
  destruct (p c).
  - rewrite length_app. specialize (IH []). simpl in IH. destruct cur; simpl; lia.
  - specialize (IH (c :: cur)). simpl in IH. destruct cur; lia.
Qed.

Lemma words_skip s : words p [] (drop (span_len p s) s) = words p [] s.
Proof.
  induction s as [|c s IH]; [done|]. simpl.
  destruct (p c) eqn:Hc; simpl; [exact IH | by rewrite Hc].
Qed.

(** The step both loops of [cstring_split] make. *)
Lemma words_step s :
  (forall c s', s = c :: s' -> p c = false) -> s <> [] ->
  let n := span_len (fun c => negb (p c)) s in
  (0 < n)%nat /\
  words p [] s = take n s :: words p [] (drop (span_len p (drop n s)) (drop n s)).
Proof.
  intros Hhd Hne n. assert (0 < n)%nat as Hn.
  { unfold n. destruct s as [|c s]; [done|]. simpl. rewrite (Hhd c s eq_refl). simpl. lia. }
  split; [done|]. rewrite words_skip.
  rewrite <-(take_drop n s) at 1. rewrite words_run by apply span_len_take.
  rewrite app_nil_r. destruct (take n s) as [|c w] eqn:Hw.
  { apply (f_equal length) in Hw. rewrite length_take in Hw. simpl in Hw.
    destruct s; [done|]. simpl in Hw. lia. }
  assert (flush_word (reverse (c :: w)) = [c :: w]) as Hfl.
  { unfold flush_word. destruct (reverse (c :: w)) eqn:Hr.
    - apply (f_equal length) in Hr. rewrite length_reverse in Hr. done.
    - by rewrite <-Hr, reverse_involutive. }
  destruct (drop n s) as [|x s'] eqn:Hd; [done|]. simpl.
  assert (p x = true) as ->; [|by rewrite Hfl].
  apply span_len_drop in Hd. by apply negb_false_iff in Hd.
Qed.

End Words.

Section Split.
Context (delim : list Z).
#[local] Abbreviation p := (fun c => mem c delim).

Lemma split_count_spec fuel s :
  (length s <= fuel)%nat -> (forall c s', s = c :: s' -> mem c delim = false) ->
  split_count fuel s delim = Ret (length (words p [] s)).
Proof.
  revert s. induction fuel as [|fuel IH]; intros s Hf Hhd.
  { destruct s; [done | simpl in Hf; lia]. }
  destruct (decide (s = [])) as [->|Hne]; [done|].
  destruct (words_step p s Hhd Hne) as [Hn Hw]. rewrite Hw.
  fold (strcspn s delim) in *. set (s1 := drop (strcspn s delim) s) in *.
  fold (strspn s1 delim) in *.
  set (s2 := drop (strspn s1 delim) s1) in *.
  assert (split_count fuel s2 delim = Ret (length (words p [] s2))) as HIH.
  { apply IH; [|intros ??; apply span_len_drop]. unfold s2, s1. rewrite !length_drop.
    destruct s; [done|]. simpl in *. lia. }
  destruct s as [|c s0]; [done|]. cbn [split_count]. fold s1 s2. by rewrite HIH.
Qed.

(** The next free entry of the array receives its word. *)
Lemma fill_next (P : cstring -> Prop) arr (ws : list (list Z)) c w :
  (length ws < length arr)%nat ->
  Forall2 rep (take (length ws) arr) ws -> Forall P (drop (length ws) arr) -> rep c w ->
  Forall2 rep (take (S (length ws)) (<[length ws := c]> arr)) (ws ++ [w]) /\
  Forall P (drop (S (length ws)) (<[length ws := c]> arr)).
Proof.
  intros Hlt Hws Hrest Hc. split.
  - erewrite take_S_r by (by apply list_lookup_insert_eq).
    rewrite take_insert_ge by lia. apply Forall2_app; [done|]. by apply Forall2_cons.
  - rewrite drop_insert_lt by lia. apply (Forall_drop _ 1) in Hrest.
    by rewrite drop_drop, Nat.add_1_r in Hrest.
Qed.

Lemma split_copy_spec fuel s arr ws o :
  (length s <= fuel)%nat -> (forall c s', s = c :: s' -> mem c delim = false) ->
  Forall2 rep (take (length ws) arr) ws ->
  Forall (fun c => rep c [] /\ size c = CSTRING_INITIAL_SIZE) (drop (length ws) arr) ->
  length arr = (length ws + length (words p [] s))%nat ->
  valid_str s ->
  wp (split_copy fuel s delim arr (length ws)) o (fun r o' =>
    (forall a, r = Some a -> Forall2 rep a (ws ++ words p [] s)) /\
    (o = [] -> zlen s + 512 <= PTRDIFF_MAX -> o' = [] /\ is_Some r)).
Proof.
  revert s arr ws o. induction fuel as [|fuel IH];
    intros s arr ws o Hf Hhd Hws Hrest Hlen [Hs Hsz].
  all: destruct (decide (s = [])) as [->|Hne];
    [simpl; wp; simpl in Hlen; split; [|done]; intros a [= <-];
     by rewrite app_nil_r, <-(take_ge arr (length ws)) by lia|].
  { destruct s; [done|]. simpl in Hf; lia. }
  destruct (words_step p s Hhd Hne) as [Hn Hw]. rewrite Hw in *.
  fold (strcspn s delim) in *. set (n := strcspn s delim) in *.
  fold (strspn (drop n s) delim) in *.
  assert (n <= length s)%nat as Hnl by apply span_len_le.
  set (s2 := drop (strspn (drop n s) delim) (drop n s)) in *. cbn [length] in Hlen.
  assert (length s2 <= length s - n)%nat as Hs2 by (unfold s2; rewrite !length_drop; lia).
  assert (zlen (take n s) = Z.of_nat n) as Hzn by (by apply zlen_take).
  assert (valid_str (take n s)) as Hvs
    by (split; [by apply Forall_take | unfold zlen in *; lia]).
  destruct (lookup_lt_is_Some_2 arr (length ws)) as [c Hlook]; [lia|].
  assert (rep c [] /\ size c = CSTRING_INITIAL_SIZE) as [Hc Hcsz].
  { by rewrite (drop_S _ _ _ Hlook), Forall_cons_iff in Hrest; destruct Hrest. }
  destruct s as [|x s0]; [done|]. cbn [split_copy]. fold n.
  set (s := x :: s0) in *. rewrite Hlook. wp.
  unfold cstr. rewrite <-(take_drop n s) at 1. rewrite fmap_app, <-app_assoc, <-Hzn.
  eapply wp_mono; [apply (cstring_pcat_spec _ _ _ _ _ Hc Hvs)|].
  { intros H0. rewrite H0 in Hzn. change (zlen []) with 0 in Hzn. lia. }
  intros [st c'] o1 (Hrep & _ & Ho1). cbn [fst snd] in *. destruct st.
  { wp. split; [done|]. intros -> Hfit. destruct Ho1 as [_ H']; [done|].
    unfold CSTRING_INITIAL_SIZE, zlen in *. by discriminate H'; lia. }
  destruct (fill_next _ arr ws c' (take n s) ltac:(lia) Hws Hrest Hrep) as [Hws' Hrest'].
  assert (length (ws ++ [take n s]) = S (length ws)) as Hl1 by (rewrite length_app; simpl; lia).
  rewrite <-Hl1 in Hws', Hrest'. rewrite <-Hl1.
  fold s2. eapply wp_mono.
  - apply (IH _ _ _ _); [lia| |done|done| |split].
    + intros ??. apply span_len_drop.
    + rewrite length_insert, Hl1. lia.
    + by apply Forall_drop, Forall_drop.
    + unfold zlen in *. lia.
  - intros r o2 [Hr Ho2]. split.
    + intros a Ha. specialize (Hr a Ha). by rewrite <-app_assoc in Hr.
    + intros -> Hfit. destruct Ho1 as [-> _]; [done|]. apply Ho2; [done|].
      unfold zlen in *. lia.
Qed.

End Split.

Lemma cstring_multinew_spec n o :
  wp (cstring_multinew n) o (fun r o' =>
    (forall a, r = Some a -> length a = n /\
       Forall (fun c => rep c [] /\ size c = CSTRING_INITIAL_SIZE) a) /\
    (o = [] -> o' = [] /\ is_Some r)).
Proof.
  revert o. induction n as [|n IH]; intros o; simpl; wp.
  { split; [|done]. by intros a [= <-]. }
  eapply wp_mono; [apply cstring_new_spec|]. intros [c|] o1 [Hc Ho1]; wp.
  2:{ split; [done|]. intros ->. by destruct Ho1. }
  eapply wp_mono; [apply IH|]. intros r o2 [Hr Ho2]. wp. split.
  - intros a Ha. destruct r as [a'|]; [|done]. injection Ha as <-.
    destruct (Hr a' eq_refl) as [<- Ha']. split; [done|]. constructor; [by apply Hc|done].
  - intros ->. destruct Ho1 as [-> _]; [done|]. destruct Ho2 as [-> [a ->]]; [done|]. by eauto.
Qed.

(** ** What the component promises *)

(** The strings, without their representation: the operations an owner of a
    [cstring] has, *)
Inductive op : Set :=
| OpConcat (t : list Z)
| OpCharcat (x : Z)
| OpPrintf (t : list Z)
| OpSet (t : list Z)
| OpNset (t : list Z) (n : Z)
| OpInsert (off : Z) (t : list Z)
| OpTruncate (off : Z)
| OpLower | OpUpper | OpReverse | OpRstrip | OpStrip | OpRecycle.

(** their preconditions on the string, the conditions the code asserts, *)
Definition op_pre (p : op) (s : list Z) : Prop :=
  match p with
  | OpConcat t | OpPrintf t | OpSet t => valid_str t
  | OpCharcat x => is_char (u8 x)
  | OpNset t n => valid_str t /\ 0 <= n
  | OpInsert off t => valid_str t /\ 0 <= off <= zlen s
  | OpTruncate off => 0 <= off < zlen s
  | _ => True
  end.

(** and their effect on it: a failed append keeps the string, a failed
    assignment empties it. *)
Definition op_effect (p : op) (st : status) (s : list Z) : list Z :=
  match st, p with
  | success, (OpConcat t | OpPrintf t) => s ++ t
  | success, OpCharcat x => s ++ [u8 x]
  | success, OpSet t => t
  | success, OpNset t n => take (Z.to_nat n) t
  | success, OpInsert off t => take (Z.to_nat off) s ++ t ++ drop (Z.to_nat off) s
  | failure, (OpSet _ | OpNset _ _) => []
  | _, OpTruncate off => take (Z.to_nat off) s
  | _, OpLower => tolower <$> s
  | _, OpUpper => toupper <$> s
  | _, OpReverse => reverse s
  | _, OpRstrip => strip_right s
  | _, OpStrip => strip s
  | _, OpRecycle => []
  | failure, _ => s
  end.

Definition always (m : res cstring) : C (status * cstring) :=
  let* c := lift m in ret (success, c).

Definition op_run (p : op) (c : cstring) : C (status * cstring) :=
  match p with
  | OpConcat t => cstring_concat c t
  | OpCharcat x => cstring_charcat c x
  | OpPrintf t => cstring_printf c t
  | OpSet t => cstring_set c t
  | OpNset t n => cstring_nset c t n
  | OpInsert off t => cstring_insert c off t
  | OpTruncate off => always (cstring_truncate c off)
  | OpLower => always (cstring_lower c)
  | OpUpper => always (cstring_upper c)
  | OpReverse => always (cstring_reverse c)
  | OpRstrip => always (cstring_rstrip c)
  | OpStrip => always (cstring_strip c)
  | OpRecycle => always (cstring_recycle c)
  end.

(** A history of operations, with the status of each. *)
Fixpoint ops_run (ps : list op) (c : cstring) : C (list status * cstring) :=
  match ps with
  | [] => ret ([], c)
  | p :: ps =>
      let* (st, c) := op_run p c in
      let* (sts, c) := ops_run ps c in
      ret (st :: sts, c)
  end.

Fixpoint ops_effect (ps : list op) (sts : list status) (s : list Z) : list Z :=
  match ps, sts with
  | p :: ps, st :: sts => ops_effect ps sts (op_effect p st s)
  | _, _ => s
  end.

(** Every precondition holds, whichever operations fail on the way. *)
Fixpoint ops_pre (ps : list op) (s : list Z) : Prop :=
  match ps with
  | [] => True
  | p :: ps => op_pre p s /\ forall st, ops_pre ps (op_effect p st s)
  end.

Lemma always_rep m (s : list Z) o p s0 :
  wpr m (fun c => rep c s) -> op_effect p success s0 = s ->
  wp (always m) o (fun r _ => rep r.2 (op_effect p r.1 s0)).
Proof. intros Hm <-. unfold always. wp. eapply wpr_mono; [exact Hm|]. intros c Hc. by wp. Qed.

Lemma op_run_spec p c s o :
  rep c s -> op_pre p s -> wp (op_run p c) o (fun r _ => rep r.2 (op_effect p r.1 s)).
Proof.
  assert (forall c n o sf s' r o', writes c n o sf s' r o' ->
    op_effect p success s = s' -> op_effect p failure s = sf ->
    rep r.2 (op_effect p r.1 s)) as Hwr by (by intros ????? [[]] ? (? & _) <- <-).
  intros Hrep Hpre. destruct p as [t|x|t|t|t n|off t|off| | | | | |]; simpl in Hpre;
    cbn [op_run];
    try (eapply always_rep; [|reflexivity]).
  - eapply wp_mono; [by eapply cstring_concat_spec|]. intros ???; by eapply Hwr.
  - eapply wp_mono; [by eapply cstring_charcat_spec|]. intros ???; by eapply Hwr.
  - eapply wp_mono; [by eapply cstring_vprintf_spec|]. intros ???; by eapply Hwr.
  - eapply wp_mono; [by eapply cstring_set_spec|]. intros ???; by eapply Hwr.
  - destruct Hpre. eapply wp_mono; [by eapply cstring_nset_spec|]. intros ???; by eapply Hwr.
  - destruct Hpre as [Ht Hoff]. rewrite <-(take_drop (Z.to_nat off) s) in Hrep.
    assert (off = zlen (take (Z.to_nat off) s)) as Ho by (rewrite zlen_take; unfold zlen in *; lia).
    rewrite Ho. eapply wp_mono; [by eapply cstring_insert_spec|].
    rewrite <-Ho. intros ???; eapply Hwr; [done|done|]. by rewrite take_drop.
  - rewrite <-(take_drop (Z.to_nat off) s) in Hrep.
    assert (off = zlen (take (Z.to_nat off) s)) as Ho by (rewrite zlen_take; unfold zlen in *; lia).
    rewrite Ho at 1. eapply wpr_mono; [eapply cstring_truncate_spec; [done|]|by intros ? [? _]].
    intros H0. apply (f_equal length) in H0. rewrite length_drop in H0. unfold zlen in *.
    simpl in H0. lia.
  - by apply cstring_lower_spec.
  - by apply cstring_upper_spec.
  - eapply wpr_mono; [by apply cstring_reverse_spec|by intros ? [? _]].
  - eapply wpr_mono; [by apply cstring_rstrip_spec|by intros ? [? _]].
  - by apply cstring_strip_spec.
  - eapply wpr_mono; [by eapply cstring_recycle_spec|by intros ? [? _]].
Qed.

(** C10. Any sequence of operations whose preconditions hold, on an object that
    holds [s] and under any behaviour of the allocator, runs without a memory
    error or a failed assertion and leaves the string that the abstract
    operations produce for the statuses reported. *)
Theorem cstring_ops_refine ps c s o :
  rep c s -> ops_pre ps s ->
  wp (ops_run ps c) o (fun r _ =>
    length r.1 = length ps /\ rep r.2 (ops_effect ps r.1 s)).
Proof.
  revert c s o. induction ps as [|p ps IH]; intros c s o Hrep Hpre; simpl; wp; [done|].
  destruct Hpre as [Hp Hps]. eapply wp_mono; [by apply op_run_spec|].
  intros [st c1] o1 Hrep1. wp. eapply wp_mono; [by eapply IH|].
  intros [sts c2] o2 [Hlen Hrep2]. wp. simpl in *. by rewrite Hlen.
Qed.

(** An empty object as [cstring_new] makes it. *)
Definition fresh : cstring := mk_cstring 256 0 (Some 0 :: replicate 255 None).

Lemma rep_fresh : rep fresh [].
Proof. by exists (replicate 255 None). Qed.

Lemma cstring_ops_refine_witness :
  let ps := [OpConcat (bytes " Hello"); OpPrintf (bytes ", World "); OpStrip; OpLower] in
  wp (ops_run ps fresh) [] (fun r _ =>
    length r.1 = 4%nat /\ rep r.2 (ops_effect ps r.1 [])).
Proof.
  intros ps. apply (cstring_ops_refine ps fresh [] []); [exact rep_fresh|].
  split; [by decide_closed|]. intros st. split; [by decide_closed|]. done.
Defined.

(** On a source of at most [INT_MAX] characters and under any behaviour of
    the allocator, [cstring_split] runs without a memory error; what it returns
    is the number of words of the source, the maximal runs of characters that
    are not delimiters, and an array that holds them in order; and with an
    allocator that does not fail it always returns them. *)
Theorem cstring_split_correct src delim o :
  Forall is_char src -> zlen src <= INT_MAX ->
  let ws := words (fun c => mem c delim) [] src in
  wp (cstring_split src delim) o (fun r o' =>
    match r.2 with
    | Some arr => r.1 = zlen ws /\ 0 < r.1 /\ Forall2 rep arr ws /\ (o = [] -> o' = [])
    | None => r.1 = 0 /\ (o = [] -> ws = [])
    end).
Proof.
  intros Hsrc Hmax ws. unfold cstring_split, INT_MAX in *.
  assert (i32 (zlen src) = zlen src) as ->.
  { unfold i32. rewrite Z.mod_small; zlia. }
  set (s := drop (strspn src delim) src).
  assert (ws = words (fun c => mem c delim) [] s) as Hws
    by (unfold ws, s, strspn; by rewrite words_skip).
  assert (forall c s', s = c :: s' -> mem c delim = false) as Hhd
    by (intros c s'; apply span_len_drop).
  assert (length s <= length src)%nat as Hlen by (unfold s; rewrite length_drop; lia).
  zcase.
  { wp. simpl. split; [done|]. intros _. rewrite Hws.
    replace s with ([] : list Z); [done|]. symmetry. apply nil_length_inv.
    unfold s. rewrite length_drop. unfold zlen in *. lia. }
  assert (s <> []) as Hne.
  { intros H0. apply (f_equal length) in H0. unfold s in H0. rewrite length_drop in H0.
    pose proof (span_len_le (fun c => mem c delim) src). unfold strspn, zlen in *.
    simpl in H0. lia. }
  pose proof (proj2 (words_step _ _ Hhd Hne)) as Hw1. simpl in Hw1. rewrite <-Hws in Hw1.
  assert (zlen ws <= zlen src) as Hwlen.
  { pose proof (words_length (fun c => mem c delim) [] src). unfold ws, zlen in *. simpl in *. lia. }
  assert (0 < zlen ws) as Hpos by (rewrite Hw1; zlia).
  wp. rewrite (split_count_spec delim) by done. cbn [wpr]. rewrite <-Hws. wp.
  fold (zlen ws). apply wp_alloc_ok. intros b o1 _ Ho1. destruct b; cbn [negb].
  2:{ wp. split; [done|]. intros ->. destruct Ho1 as [_ Hb]; [done|].
      rewrite u64_small in Hb by lia. symmetry in Hb. zreflect. unfold PTRDIFF_MAX in Hb. lia. }
  wp. eapply wp_mono; [apply cstring_multinew_spec|]. intros [arr|] o2 [Harr Ho2]; wp.
  2:{ split; [done|]. intros ->. destruct Ho1 as [-> _]; [done|]. by destruct Ho2 as [_ []]. }
  destruct (Harr arr eq_refl) as [Hal Hnew].
  eapply wp_mono.
  { apply (split_copy_spec delim _ _ _ []); try done.
    - simpl. by rewrite Hal, Hws.
    - split; [by apply Forall_drop|]. unfold PTRDIFF_MAX, zlen in *. lia. }
  intros [arr'|] o3 [Hr Ho3]; wp.
  - split; [done|]. split; [done|]. split; [rewrite Hws; by apply Hr|]. intros ->.
    destruct Ho1 as [-> _]; [done|]. destruct Ho2 as [-> _]; [done|]. apply Ho3; [done|]. unfold PTRDIFF_MAX, zlen in *. lia.
  - split; [done|]. intros ->. destruct Ho1 as [-> _]; [done|]. destruct Ho2 as [-> _]; [done|].
    destruct Ho3 as [_ []]; try done. unfold PTRDIFF_MAX, zlen in *. lia.
Qed.

Lemma cstring_split_correct_witness :
  let r := cstring_split (bytes ";;a;bc,;d") (bytes ";,") in
  wp r [] (fun r o' =>
    match r.2 with
    | Some arr => r.1 = 3 /\ 0 < r.1 /\ Forall2 rep arr [bytes "a"; bytes "bc"; bytes "d"] /\
        ([] = ([] : oracle) -> o' = [])
    | None => r.1 = 0 /\ ([] = ([] : oracle) -> [bytes "a"; bytes "bc"; bytes "d"] = [])
    end).
Proof.
  apply (cstring_split_correct (bytes ";;a;bc,;d") (bytes ";,") []);
    [by decide_closed | by vm_compute].
Defined.

(** [cstring_cut] removes exactly the characters it is asked to remove when
    the block has as many spare bytes as are removed, and otherwise its
    [memmove] reads past the end of the block: it moves [len - offset] bytes,
    the length before the cut, from [offset + n]. *)
Theorem cstring_cut_overreads c a b t :
  rep c (a ++ b ++ t) -> b ++ t <> [] ->
  if zlen (a ++ b ++ t) + zlen b <=? size c
  then wpr (cstring_cut c (zlen a) (zlen b)) (fun c' => rep c' (a ++ t))
  else cstring_cut c (zlen a) (zlen b) = Fault OutOfBounds.
Proof.
  intros Hrep Hne. assert (0 < zlen (b ++ t)).
  { destruct (b ++ t); [done|]. zlia. }
  zcase.
  - eapply wpr_mono; [by apply cstring_cut_spec|]. by intros c' [? _].
  - by apply (cstring_cut_overrun _ _ _ t).
Qed.

(** A string that fills its block: 255 characters in 256 bytes. *)
Definition full : cstring :=
  mk_cstring 256 255 ((Some <$> replicate 255 65) ++ [Some 0]).

Lemma cstring_cut_overreads_witness :
  cstring_cut full 0 2 = Fault OutOfBounds.
Proof.
  apply (cstring_cut_overreads full [] [65; 65] (replicate 253 65)); [|done].
  exists []. by vm_compute; split_and!; try done; repeat constructor.
Defined.

(** * Queries *)

Lemma strcmp_0 a b : Forall is_char a -> Forall is_char b -> strcmp a b = 0 <-> a = b.
Proof.
  intros Ha. revert b. induction Ha as [|x a Hx _ IH]; intros b Hb; destruct Hb as [|y b Hy Hb];
    simpl; unfold is_char in *; try (split; [lia|done]); [done|].
  destruct (Z.eqb_spec x y) as [->|Hne].
  - rewrite IH by done. split; [by intros -> | by intros [= ->]].
  - split; [lia|]. intros [= ? _]. done.
Qed.

Lemma cstring_equal_spec c d s t :
  rep c s -> rep d t -> cstring_equal c d = Ret (bool_decide (s = t)).
Proof.
  intros Hc Hd. unfold cstring_equal.
  rewrite (rep_str_at _ _ Hc), (rep_str_at _ _ Hd). simpl.
  pose proof (proj2 (proj2 (rep_bounds _ _ Hc))) as ->.
  pose proof (proj2 (proj2 (rep_bounds _ _ Hd))) as ->.
  destruct (rep_valid _ _ Hc) as [Hs _], (rep_valid _ _ Hd) as [Ht _].
  zcase.
  - f_equal. apply Bool.eq_iff_eq_true. rewrite Z.eqb_eq, bool_decide_eq_true.
    by apply strcmp_0.
  - rewrite bool_decide_eq_false_2; [done|]. by intros ->.
Qed.
