(* ===== verification/Membuf.v ===== *)
(** The byte buffer between a socket and its readers and writers,
    meta/src/meta_membuf.c.

    A [membuf] has a write offset and a read offset into one block.  The file
    models every function, relates the object to an abstract stream, the pair
    of the bytes that can still be put back and the bytes not read yet
    ([view]), and shows that any sequence of calls delivers the bytes that were
    accepted, in order, without leaving the block. *)

From Stdlib Require Import ZArith Lia.
From stdpp Require Import base list numbers.
From S2P Require Import Prelude.

Record membuf := mk_membuf { size : Z; nwritten : Z; nread : Z; data : block }.

Definition sizeof_membuf : Z := 32.

Definition membuf_new (sz : Z) : C (option membuf) :=
  c_assert (0 <? sz);;
  let* ok := alloc_ok sizeof_membuf in
  if negb ok then ret None
  else
    let* d := malloc sz in
    ret (match d with
         | None => None
         | Some d => Some (mk_membuf sz 0 0 d)
         end).

Definition membuf_canread (mb : membuf) : res Z :=
  r_assert (nread mb <=? nwritten mb);;
  r_assert (nwritten mb - nread mb <=? size mb);;
  Ret (nwritten mb - nread mb).

Definition membuf_set_written (mb : membuf) (cb : Z) : res membuf :=
  r_assert (nwritten mb =? 0);;
  Ret (mk_membuf (size mb) cb (nread mb) (data mb)).

Definition membuf_canwrite (mb : membuf) : Z :=
  if nread mb =? nwritten mb then size mb else u64 (size mb - nwritten mb).

Definition membuf_reset (mb : membuf) : membuf := mk_membuf (size mb) 0 0 (data mb).

Definition membuf_unget (mb : membuf) : status * membuf :=
  if 0 <? nread mb
  then (success, mk_membuf (size mb) (nwritten mb) (nread mb - 1) (data mb))
  else (failure, mb).

Definition membuf_data (mb : membuf) : block := data mb.

Definition membuf_set (mb : membuf) (c : Z) : res membuf :=
  let+ d := wr (data mb) 0 (replicate (Z.to_nat (size mb)) (Some (u8 c))) in
  Ret (mk_membuf (size mb) (nwritten mb) (nread mb) d).

Definition membuf_size (mb : membuf) : Z := size mb.

(** The number of bytes copied to [dest], the bytes, and the buffer. *)
Definition membuf_read (this : membuf) (count : Z) : res (Z * block * membuf) :=
  r_assert (negb (count =? 0));;
  r_assert (nread this <=? nwritten this);;
  let+ navail := membuf_canread this in
  let count := if navail <? count then navail else count in
  let+ bs := rd (data this) (nread this) count in
  let nr := nread this + count in
  r_assert (nr <=? nwritten this);;
  Ret (count, bs,
       if nwritten this =? nr then mk_membuf (size this) 0 0 (data this)
       else mk_membuf (size this) (nwritten this) nr (data this)).

(** [src] is the memory at the source pointer. *)
Definition membuf_write (this : membuf) (src : list Z) (count : Z) : res (Z * membuf) :=
  let navail := membuf_canwrite this in
  let count := if navail <? count then navail else count in
  let+ bs := rd (Some <$> src) 0 count in
  let+ d := wr (data this) (nwritten this) bs in
  Ret (count, mk_membuf (size this) (nwritten this + count) (nread this) d).

(** * The stream a buffer holds *)

(** [view mb h q]: [h] is what was read and can be put back, [q] what is left
    to read. A buffer that is empty has nothing to put back: [membuf_read]
    rewinds it. *)
Definition view (mb : membuf) (h q : list Z) : Prop :=
  exists junk,
    data mb = (Some <$> h) ++ (Some <$> q) ++ junk /\
    size mb = zlen (data mb) /\ 0 < size mb <= PTRDIFF_MAX /\
    nread mb = zlen h /\ nwritten mb = zlen h + zlen q /\
    (q = [] -> h = []).

Lemma membuf_new_spec sz o :
  0 < sz ->
  wp (membuf_new sz) o (fun r o' =>
    (forall mb, r = Some mb -> view mb [] [] /\ size mb = sz) /\
    (o = [] -> sz <= PTRDIFF_MAX -> is_Some r)).
Proof.
  intros Hsz. unfold membuf_new. wp. apply wp_alloc_ok. intros b o1 _ Ho1.
  destruct b; cbn [negb]; wp.
  2:{ split; [done|]. intros ->. by destruct Ho1. }
  apply wp_malloc; [intros o2 Hle _ | intros o2 Ho2]; wp.
  - split; [|done]. intros mb [= <-]. split; [|done].
    exists (replicate (Z.to_nat sz) None). simpl. split_and!; try done; zlia.
  - split; [done|]. intros -> Hle. destruct Ho1 as [-> _]; [done|].
    destruct Ho2 as [_ ?]; [done|lia].
Qed.

Lemma membuf_canwrite_spec mb h q :
  view mb h q -> membuf_canwrite mb = size mb - zlen h - zlen q /\
                 0 <= membuf_canwrite mb <= size mb.
Proof.
  intros (junk & Hd & Hsz & Hb & Hr & Hw & Hq). rewrite Hd in Hsz.
  unfold membuf_canwrite. rewrite Hr, Hw. unfold PTRDIFF_MAX in *. zcase.
  - assert (q = []) as -> by (apply zlen_0; lia). rewrite Hq in * by done. zlia.
  - rewrite u64_small; zlia.
Qed.

Lemma membuf_write_spec mb h q src :
  view mb h q ->
  wpr (membuf_write mb src (zlen src)) (fun r =>
    let k := Z.min (zlen src) (size mb - zlen h - zlen q) in
    r.1 = k /\ size r.2 = size mb /\ view r.2 h (q ++ take (Z.to_nat k) src)).
Proof.
  intros Hv. destruct (membuf_canwrite_spec _ _ _ Hv) as [Hcw Hcw'].
  destruct Hv as (junk & Hd & Hsz & Hb & Hr & Hw & Hq). rewrite Hd in Hsz.
  unfold membuf_write. set (k := if membuf_canwrite mb <? zlen src then _ else _).
  assert (Z.min (zlen src) (size mb - zlen h - zlen q) = k) as ->
    by (unfold k; zcase; lia).
  assert (0 <= k <= zlen src /\ k <= membuf_canwrite mb) as [Hk Hk']
    by (unfold k; zcase; zlia).
  set (t := take (Z.to_nat k) src).
  assert (zlen t = k) as Ht by (unfold t; rewrite zlen_take; unfold zlen in *; lia).
  wp. rewrite <-(take_drop (Z.to_nat k) src), fmap_app. fold t.
  rewrite rd_head by (rewrite zlen_fmap; lia). wp.
  rewrite Hd, app_assoc, wr_tail by zlia. wp. split; [done|]. split; [done|].
  exists (drop (length (Some <$> t)) junk). simpl.
  split_and!; try done; try lia.
  - by rewrite fmap_app, <-!app_assoc.
  - autorewrite with zlen. rewrite zlen_drop by zlia. zlia.
  - zlia.
  - intros H0. apply app_eq_nil in H0 as [-> H0]. by apply Hq.
Qed.

Lemma membuf_read_spec mb h q n :
  view mb h q -> 0 < n ->
  wpr (membuf_read mb n) (fun r =>
    let k := Z.min n (zlen q) in
    r.1.1 = k /\ r.1.2 = Some <$> take (Z.to_nat k) q /\ size r.2 = size mb /\
    if k =? zlen q then view r.2 [] []
    else view r.2 (h ++ take (Z.to_nat k) q) (drop (Z.to_nat k) q)).
Proof.
  intros (junk & Hd & Hsz & Hb & Hr & Hw & Hq) Hn. rewrite Hd in Hsz.
  unfold membuf_read, membuf_canread. rewrite Hr, Hw. wp_step.
  apply wpr_guard; [by destruct (Z.eqb_spec n 0); [lia|]|]. wp.
  replace (zlen h + zlen q - zlen h) with (zlen q) by lia.
  replace (if zlen q <? n then zlen q else n) with (Z.min n (zlen q)) by (zcase; lia).
  set (k := Z.min n (zlen q)). assert (0 <= k <= zlen q) as Hk by (unfold k; zlia).
  clearbody k. set (t := take (Z.to_nat k) q). set (u := drop (Z.to_nat k) q).
  assert (zlen t = k) as Ht by (unfold t; rewrite zlen_take; unfold zlen in *; lia).
  assert (q = t ++ u) as Hsplit by (unfold t, u; by rewrite take_drop).
  clearbody t u. subst q. rewrite Hd, fmap_app, <-app_assoc.
  rewrite rd_app by zlia. wp. simpl. split_and!; try done; [by zcase|].
  destruct (Z.eqb_spec (zlen h + zlen (t ++ u)) (zlen h + k)), (Z.eqb_spec k (zlen (t ++ u)));
    try lia.
  - eexists. simpl. split_and!; try reflexivity; try done; zlia.
  - exists junk. simpl. split_and!; try done; try zlia.
    + by rewrite fmap_app, <-app_assoc.
    + intros ->. exfalso. zlia.
Qed.

Lemma membuf_unget_spec mb h q :
  view mb h q ->
  let r := membuf_unget mb in
  size r.2 = size mb /\
  ((r.1 = failure /\ h = [] /\ r.2 = mb) \/
   (exists h' x, r.1 = success /\ h = h' ++ [x] /\ view r.2 h' (x :: q))).
Proof.
  intros (junk & Hd & Hsz & Hb & Hr & Hw & Hq). unfold membuf_unget. rewrite Hr.
  destruct h as [|x h' _] using rev_ind; simpl.
  { split; [done|]. by left. }
  destruct (Z.ltb_spec 0 (zlen (h' ++ [x]))); [|zlia]. simpl. split; [done|]. right.
  exists h', x. split_and!; try done. exists junk. simpl. split_and!; try done; try zlia.
  by rewrite Hd, fmap_app, <-!app_assoc.
Qed.

Lemma membuf_reset_spec mb h q :
  view mb h q -> view (membuf_reset mb) [] [] /\ size (membuf_reset mb) = size mb.
Proof.
  intros (junk & Hd & Hsz & Hb & _). split; [|done]. by exists (data mb).
Qed.

(** * Histories *)

Inductive op : Set :=
| Write (src : list Z)
| Read (n : Z)
| Unget
| Reset.

(** Runs the calls and keeps a log: the bytes the buffer accepted and the bytes
    it delivered since the last reset, less those put back. *)
Fixpoint run (ops : list op) (mb : membuf) (accepted delivered : list Z)
  : res (list Z * list Z * membuf) :=
  match ops with
  | [] => Ret (accepted, delivered, mb)
  | Write src :: ops =>
      let+ (k, mb) := membuf_write mb src (zlen src) in
      run ops mb (accepted ++ take (Z.to_nat k) src) delivered
  | Read n :: ops =>
      let+ (_, bs, mb) := membuf_read mb n in
      let+ s := (match mapM id bs with Some s => Ret s | None => Fault Uninitialised end) in
      run ops mb accepted (delivered ++ s)
  | Unget :: ops =>
      let (st, mb) := membuf_unget mb in
      run ops mb accepted
        (match st with
         | success => take (length delivered - 1) delivered
         | failure => delivered
         end)
  | Reset :: ops => run ops (membuf_reset mb) [] []
  end.

Definition op_ok (p : op) : Prop := match p with Read n => 0 < n | _ => True end.

#[export] Instance op_ok_dec p : Decision (op_ok p).
Proof. destruct p; apply _. Defined.

Lemma mapM_Some (s : list Z) : mapM id (Some <$> s) = Some s.
Proof. apply mapM_fmap_Some. done. Qed.

(** What can be put back is the end of what was delivered. *)
Lemma run_spec ops mb h q acc del pre :
  Forall op_ok ops -> view mb h q -> del = pre ++ h -> acc = del ++ q ->
  wpr (run ops mb acc del) (fun r =>
    exists h' q', view r.2 h' q' /\ size r.2 = size mb /\ r.1.1 = r.1.2 ++ q').
Proof.
  intros Hops. revert mb h q acc del pre.
  induction Hops as [|p ops Hp _ IH]; intros mb h q acc del pre Hv Hdel Hacc; cbn [run].
  { simpl. by exists h, q. }
  destruct p as [src|n| |].
  - wp. eapply wpr_mono; [by apply membuf_write_spec|]. intros [k mb'] (Hk & Hsz & Hv').
    simpl in *. rewrite <-Hsz. rewrite <-Hk in Hv'.
    eapply IH; [exact Hv'|done|]. by rewrite Hacc, app_assoc.
  - wp. eapply wpr_mono; [by apply membuf_read_spec|].
    intros [[k bs] mb'] (Hk & Hbs & Hsz & Hv'). simpl in *. rewrite Hbs, mapM_Some. wp.
    rewrite <-Hk in *. destruct (Z.eqb_spec k (zlen q)) as [Hall|Hpart]; rewrite <-Hsz.
    + eapply (IH _ _ _ _ _ (del ++ take (Z.to_nat k) q)); [exact Hv'|by rewrite app_nil_r|].
      rewrite app_nil_r, Hacc, take_ge; [done|]. unfold zlen in *. lia.
    + eapply IH; [exact Hv'|by rewrite Hdel, <-app_assoc|].
      by rewrite Hacc, <-app_assoc, take_drop.
  - destruct (membuf_unget mb) as [st mb'] eqn:Hun.
    pose proof (membuf_unget_spec _ _ _ Hv) as [Hsz Hcase]. rewrite Hun in Hsz, Hcase.
    simpl in *. rewrite <-Hsz.
    destruct Hcase as [(-> & -> & ->)|(h' & x & -> & -> & Hv')].
    + by eapply IH.
    + assert (take (length del - 1) del = pre ++ h') as ->.
      { rewrite Hdel, app_assoc, length_app. simpl.
        rewrite Nat.add_sub. by rewrite take_app_length. }
      eapply IH; [exact Hv'|done|]. by rewrite Hacc, Hdel, <-!app_assoc.
  - destruct (membuf_reset_spec _ _ _ Hv) as [Hv' Hsz]. rewrite <-Hsz.
    by eapply (IH _ _ _ _ _ []).
Qed.

(** C15. A buffer of [sz] bytes, fresh from [membuf_new], runs any sequence of
    writes, reads of at least one byte, put-backs and resets without leaving
    its block, reading an uninitialised byte or failing an assertion; and the
    bytes it accepted since the last reset are the bytes it delivered followed
    by the at most [sz] bytes still to be read: nothing is lost, duplicated or
    reordered. *)
Theorem membuf_fifo sz ops mb o o' :
  0 < sz -> Forall op_ok ops -> membuf_new sz o = Ret (Some mb, o') ->
  exists accepted delivered pending mb' n,
    run ops mb [] [] = Ret (accepted, delivered, mb') /\
    accepted = delivered ++ pending /\
    membuf_canread mb' = Ret n /\ n = zlen pending /\ n <= sz.
Proof.
  intros Hsz Hops Hnew. pose proof (membuf_new_spec sz o Hsz) as Hspec.
  unfold wp in Hspec. rewrite Hnew in Hspec.
  destruct (proj1 Hspec mb eq_refl) as [Hv Hmb].
  pose proof (run_spec ops mb [] [] [] [] [] Hops Hv eq_refl eq_refl) as Hrun.
  apply wpr_eq in Hrun as ([[acc del] mb'] & Hrun & h & q & Hv' & Hsz' & Hq).
  simpl in *. exists acc, del, q, mb', (zlen q). split_and!; try done.
  - destruct Hv' as (junk & Hd & Hs & Hb & Hr & Hw & _). rewrite Hd in Hs.
    unfold membuf_canread, guard. rewrite Hr, Hw.
    rewrite !(proj2 (Z.leb_le _ _)) by zlia. simpl. f_equal. lia.
  - destruct Hv' as (junk & Hd & Hs & _). rewrite Hd in Hs. zlia.
Qed.

Definition sample_ops : list op :=
  [Write (bytes "hello"); Read 2; Unget; Write (bytes "world"); Read 3].

Lemma membuf_fifo_witness :
  exists accepted delivered pending mb' n,
    run sample_ops (mk_membuf 8 0 0 (replicate 8 None)) [] [] = Ret (accepted, delivered, mb') /\
    accepted = delivered ++ pending /\
    membuf_canread mb' = Ret n /\ n = zlen pending /\ n <= 8.
Proof.
  apply (membuf_fifo 8 sample_ops _ [] []); [done | by decide_closed | reflexivity].
Defined.
