(* ===== verification/Bitset.v ===== *)
(** Sets of small integers as bit vectors, meta/src/meta_bitset.c and
    meta/src/meta_bitset.h.

    The bits live in an array of bytes, each a [Z] between 0 and 255; byte and
    bit addressing are the code's [i / CHAR_BIT] and [1u << (i % CHAR_BIT)].
    The file models every function and relates a bitset to the set of the
    indices whose bit is set. *)

From Stdlib Require Import ZArith Lia.
From stdpp Require Import base list numbers gmap.
From S2P Require Import Prelude.

Definition CHAR_BIT : Z := 8.

Record bitset := mk_bitset { bitcount : Z; size : Z; data : list Z }.

Definition bitset_size (b : bitset) : Z := size b.
Definition bitset_bitcount (b : bitset) : Z := bitcount b.
Definition bitset_data (b : bitset) : list Z := data b.

(** The byte at index [i], and the array with that byte replaced. *)
Definition byte_at (d : list Z) (i : Z) : res Z :=
  if 0 <=? i then match d !! Z.to_nat i with Some x => Ret x | None => Fault OutOfBounds end
  else Fault OutOfBounds.

Definition byte_set (d : list Z) (i x : Z) : res (list Z) :=
  if (0 <=? i) && (i <? zlen d) then Ret (<[Z.to_nat i := x]> d) else Fault OutOfBounds.

Definition bitset_clear_all (b : bitset) : bitset :=
  mk_bitset (bitcount b) (size b) (replicate (Z.to_nat (size b)) 0).

Definition bitset_set_all (b : bitset) : bitset :=
  mk_bitset (bitcount b) (size b) (replicate (Z.to_nat (size b)) 255).

Definition sizeof_bitset : Z := 24.

Definition bitset_new (n : Z) : C (option bitset) :=
  let sz := n / CHAR_BIT + (if n mod CHAR_BIT =? 0 then 0 else 1) in
  let* ok := alloc_ok sizeof_bitset in
  if negb ok then ret None
  else
    let* d := malloc sz in
    match d with
    | None => ret None
    | Some _ => ret (Some (bitset_clear_all (mk_bitset n sz [])))
    end.

(** [data] is the caller's memory, [elemcount] its length in bytes; the bit
    count of a mapped set stays 0 ([calloc]). *)
Definition bitset_map (d : list Z) (elemcount : Z) : C (option bitset) :=
  let* ok := alloc_ok sizeof_bitset in
  ret (if ok : bool then Some (mk_bitset 0 elemcount d) else None).

Definition bitset_remap (b : bitset) (mem : list Z) (cb : Z) : res bitset :=
  r_assert (0 <? cb);;
  Ret (mk_bitset (bitcount b) cb mem).

(** The loops over the bytes [i .. size - 1], [n] of them left. *)
Fixpoint all_bytes (v : Z) (n : nat) (i : Z) (d : list Z) : res bool :=
  match n with
  | O => Ret true
  | S n =>
      let+ x := byte_at d i in
      if negb (x =? v) then Ret false else all_bytes v n (i + 1) d
  end.

Definition bitset_allzero (b : bitset) : res bool := all_bytes 0 (Z.to_nat (size b)) 0 (data b).
Definition bitset_allone (b : bitset) : res bool := all_bytes 255 (Z.to_nat (size b)) 0 (data b).

Fixpoint cmp_bytes (n : nat) (i : Z) (a b : list Z) : res Z :=
  match n with
  | O => Ret 0
  | S n =>
      let+ x := byte_at a i in
      let+ y := byte_at b i in
      let delta := x - y in
      if negb (delta =? 0) then Ret delta else cmp_bytes n (i + 1) a b
  end.

Definition bitset_cmp (a b : bitset) : res Z :=
  r_assert (bitset_size a =? bitset_size b);;
  cmp_bytes (Z.to_nat (size a)) 0 (data a) (data b).

(** [lhs->data[i] op= rhs->data[i]] for every byte. *)
Fixpoint zip_bytes (f : Z -> Z -> Z) (n : nat) (i : Z) (l r : list Z) : res (list Z) :=
  match n with
  | O => Ret l
  | S n =>
      let+ x := byte_at l i in
      let+ y := byte_at r i in
      let+ l := byte_set l i (f x y) in
      zip_bytes f n (i + 1) l r
  end.

Definition op_eq (f : Z -> Z -> Z) (lhs rhs : bitset) : res bitset :=
  r_assert (bitset_size lhs =? bitset_size rhs);;
  let+ d := zip_bytes f (Z.to_nat (size lhs)) 0 (data lhs) (data rhs) in
  Ret (mk_bitset (bitcount lhs) (size lhs) d).

Definition bitset_and_eq (lhs rhs : bitset) : res bitset := op_eq Z.land lhs rhs.
Definition bitset_or_eq (lhs rhs : bitset) : res bitset := op_eq Z.lor lhs rhs.
Definition bitset_xor_eq (lhs rhs : bitset) : res bitset := op_eq Z.lxor lhs rhs.

(** [*sa++ = *sb++ op *sc++] for every byte of the operands. *)
Fixpoint combine_bytes (f : Z -> Z -> Z) (n : nat) (i : Z) (sa sb sc : list Z) : res (list Z) :=
  match n with
  | O => Ret sa
  | S n =>
      let+ x := byte_at sb i in
      let+ y := byte_at sc i in
      let+ sa := byte_set sa i (f x y) in
      combine_bytes f n (i + 1) sa sb sc
  end.

Definition op_new (f : Z -> Z -> Z) (b c : bitset) : C (option bitset) :=
  c_assert (bitset_size b =? bitset_size c);;
  let* r := bitset_new (bitset_bitcount b) in
  match r with
  | None => ret None
  | Some r =>
      let* d := lift (combine_bytes f (Z.to_nat (bitset_size b)) 0 (bitset_data r)
                        (bitset_data b) (bitset_data c)) in
      ret (Some (mk_bitset (bitcount r) (size r) d))
  end.

Definition bitset_and (b c : bitset) : C (option bitset) := op_new Z.land b c.
Definition bitset_or (b c : bitset) : C (option bitset) := op_new Z.lor b c.
Definition bitset_xor (b c : bitset) : C (option bitset) := op_new Z.lxor b c.

(** [memcpy(new->data, b->data, new->size)] *)
Definition bitset_dup (b : bitset) : C (option bitset) :=
  let* r := bitset_new (bitcount b) in
  match r with
  | None => ret None
  | Some r =>
      if size r <=? zlen (data b)
      then ret (Some (mk_bitset (bitcount r) (size r) (take (Z.to_nat (size r)) (data b))))
      else lift (Fault OutOfBounds)
  end.

Definition bitset_set (b : bitset) (i : Z) : res bitset :=
  r_assert (i <? size b * CHAR_BIT);;
  let+ x := byte_at (data b) (i / CHAR_BIT) in
  let+ d := byte_set (data b) (i / CHAR_BIT)
              (Z.lor x (u8 (Z.shiftl 1 (i mod CHAR_BIT)))) in
  Ret (mk_bitset (bitcount b) (size b) d).

Definition bitset_is_set (b : bitset) (i : Z) : res bool :=
  r_assert (i <? size b * CHAR_BIT);;
  let+ x := byte_at (data b) (i / CHAR_BIT) in
  Ret (negb (Z.land x (Z.shiftl 1 (i mod CHAR_BIT)) =? 0)).

Definition bitset_clear (b : bitset) (i : Z) : res bitset :=
  r_assert (i <? size b * CHAR_BIT);;
  let+ x := byte_at (data b) (i / CHAR_BIT) in
  let+ d := byte_set (data b) (i / CHAR_BIT)
              (Z.land x (u8 (Z.lnot (Z.shiftl 1 (i mod CHAR_BIT))))) in
  Ret (mk_bitset (bitcount b) (size b) d).

(** * The set of a bitset *)

Definition is_byte (x : Z) : Prop := 0 <= x < 256.

Definition wf (b : bitset) : Prop :=
  size b = zlen (data b) /\ size b * CHAR_BIT < 2 ^ 64 /\ Forall is_byte (data b).

(** Membership, by the bit's position in the array. *)
Definition member (b : bitset) (i : Z) : bool :=
  match data b !! Z.to_nat (i / CHAR_BIT) with
  | Some x => Z.testbit x (i mod CHAR_BIT)
  | None => false
  end.

(** * Bytes and bits *)

Lemma byte_at_app pre x l i : i = zlen pre -> byte_at (pre ++ x :: l) i = Ret x.
Proof.
  intros ->. unfold byte_at. destruct (Z.leb_spec 0 (zlen pre)); [|zlia].
  unfold zlen. by rewrite Nat2Z.id, lookup_app_r, Nat.sub_diag by lia.
Qed.

Lemma byte_set_app pre x l i v :
  i = zlen pre -> byte_set (pre ++ x :: l) i v = Ret (pre ++ v :: l).
Proof.
  intros ->. unfold byte_set.
  rewrite (proj2 (andb_true_iff _ _))
    by (split; [apply Z.leb_le | apply Z.ltb_lt]; zlia).
  unfold zlen. rewrite Nat2Z.id. f_equal.
  by rewrite insert_app_r_alt, Nat.sub_diag by lia.
Qed.

Section Loops.
Context (f : Z -> Z -> Z).

Lemma combine_bytes_spec pa pb pc sa sb sc :
  length pb = length pa -> length pc = length pa ->
  length sb = length sa -> length sc = length sa ->
  combine_bytes f (length sa) (zlen pa) (pa ++ sa) (pb ++ sb) (pc ++ sc)
  = Ret (pa ++ zip_with f sb sc).
Proof.
  revert pa pb pc sb sc. induction sa as [|a sa IH]; intros pa pb pc sb sc Hb Hc Hsb Hsc;
    destruct sb as [|b sb], sc as [|c sc]; simpl in *; try lia; [done|].
  rewrite !byte_at_app by (unfold zlen; lia). simpl. rewrite byte_set_app by done. simpl.
  specialize (IH (pa ++ [f b c]) (pb ++ [b]) (pc ++ [c]) sb sc).
  rewrite <-!app_assoc, !length_app, zlen_app in IH. simpl in IH. apply IH; lia.
Qed.

Lemma zip_bytes_spec pl pr l r :
  length pr = length pl -> length r = length l ->
  zip_bytes f (length l) (zlen pl) (pl ++ l) (pr ++ r) = Ret (pl ++ zip_with f l r).
Proof.
  revert pl pr r. induction l as [|x l IH]; intros pl pr r Hp Hr; destruct r as [|y r];
    simpl in *; try lia; [done|].
  rewrite !byte_at_app by (unfold zlen; lia). simpl. rewrite byte_set_app by done. simpl.
  specialize (IH (pl ++ [f x y]) (pr ++ [y]) r).
  rewrite <-!app_assoc, !length_app, zlen_app in IH. simpl in IH. apply IH; lia.
Qed.

End Loops.

Lemma all_bytes_spec v pre l :
  all_bytes v (length l) (zlen pre) (pre ++ l) = Ret (forallb (Z.eqb v) l).
Proof.
  revert pre. induction l as [|x l IH]; intros pre; simpl; [done|].
  rewrite byte_at_app by done. simpl. rewrite Z.eqb_sym.
  destruct (Z.eqb_spec v x); simpl; [|done].
  specialize (IH (pre ++ [x])). rewrite <-app_assoc, zlen_app in IH. exact IH.
Qed.

Lemma cmp_bytes_spec pa pb a b :
  length pb = length pa -> length b = length a ->
  exists d, cmp_bytes (length a) (zlen pa) (pa ++ a) (pb ++ b) = Ret d /\ (d = 0 <-> a = b).
Proof.
  revert pa pb b. induction a as [|x a IH]; intros pa pb b Hp Hb; destruct b as [|y b];
    simpl in *; try lia; [by exists 0|].
  rewrite !byte_at_app by (unfold zlen; lia). simpl.
  destruct (Z.eqb_spec (x - y) 0) as [He|Hne]; simpl.
  - destruct (IH (pa ++ [x]) (pb ++ [y]) b) as (d & Hd & Hiff); [rewrite !length_app; simpl; lia|lia|].
    rewrite <-!app_assoc, zlen_app in Hd. exists d. split; [exact Hd|].
    assert (x = y) as -> by lia. rewrite Hiff. split; [by intros ->|by intros [= ->]].
  - exists (x - y). split; [done|]. split; [done|]. intros [= -> ->]. lia.
Qed.

Lemma testbit_bit k j : 0 <= k -> 0 <= j -> Z.testbit (Z.shiftl 1 k) j = (j =? k).
Proof.
  intros Hk Hj. rewrite Z.shiftl_1_l, Z.pow2_bits_eqb by done. apply Z.eqb_sym.
Qed.

Lemma u8_testbit x j : 0 <= j -> Z.testbit (u8 x) j = (j <? 8) && Z.testbit x j.
Proof.
  intros Hj. unfold u8. change 256 with (2 ^ 8).
  destruct (Z.ltb_spec j 8); [by rewrite Z.mod_pow2_bits_low by lia|].
  by rewrite Z.mod_pow2_bits_high by lia.
Qed.

Lemma is_byte_testbit x j : is_byte x -> 8 <= j -> Z.testbit x j = false.
Proof.
  intros [? ?] Hj. rewrite <-(Z.mod_small x (2 ^ 8)) by (simpl; lia).
  apply Z.mod_pow2_bits_high. lia.
Qed.

(** A number whose bits above 8 are clear is a byte. *)
Lemma bits_is_byte x : 0 <= x -> (forall j, 8 <= j -> Z.testbit x j = false) -> is_byte x.
Proof.
  intros Hx Hhi. split; [done|]. destruct (Z.eq_dec x 0) as [->|]; [done|].
  apply Z.log2_lt_pow2 with (b := 8); [lia|].
  destruct (Z.lt_ge_cases (Z.log2 x) 8) as [|Hge]; [done|].
  specialize (Hhi _ Hge). rewrite Z.bit_log2 in Hhi by lia. done.
Qed.

(** A bit operation that is false on two clear bits maps bytes to bytes. *)
Lemma bitop_is_byte (f : Z -> Z -> Z) (g : bool -> bool -> bool) x y :
  (forall a b j, 0 <= j -> Z.testbit (f a b) j = g (Z.testbit a j) (Z.testbit b j)) ->
  g false false = false -> 0 <= f x y -> is_byte x -> is_byte y -> is_byte (f x y).
Proof.
  intros Hf Hg Hpos Hx Hy. apply bits_is_byte; [done|]. intros j Hj.
  by rewrite Hf, !is_byte_testbit by lia || done.
Qed.

Lemma test_mask x k : 0 <= k -> negb (Z.land x (Z.shiftl 1 k) =? 0) = Z.testbit x k.
Proof.
  intros Hk. destruct (Z.testbit x k) eqn:Hb.
  - apply negb_true_iff, Z.eqb_neq. intros H0. apply (f_equal (fun z => Z.testbit z k)) in H0.
    rewrite Z.land_spec, testbit_bit, Hb, Z.eqb_refl, Z.bits_0 in H0 by done. done.
  - apply negb_false_iff, Z.eqb_eq, Z.bits_inj'. intros j Hj.
    rewrite Z.land_spec, testbit_bit, Z.bits_0 by done.
    destruct (Z.eqb_spec j k) as [->|]; [by rewrite Hb|by rewrite andb_false_r].
Qed.

(** * Single bits *)

(** The byte that holds bit [i], with the array around it. *)
Lemma locate_byte b i :
  wf b -> 0 <= i < size b * CHAR_BIT ->
  exists x, byte_at (data b) (i / CHAR_BIT) = Ret x /\
    data b !! Z.to_nat (i / CHAR_BIT) = Some x /\ is_byte x /\
    0 <= i / CHAR_BIT < zlen (data b) /\ 0 <= i mod CHAR_BIT < 8.
Proof.
  intros (Hsz & _ & Hb) Hi. unfold CHAR_BIT in *.
  assert (0 <= i / 8 < zlen (data b)) as Hidx
    by (split; [apply Z.div_pos; lia|apply Z.div_lt_upper_bound; lia]).
  destruct (lookup_lt_is_Some_2 (data b) (Z.to_nat (i / 8))) as [x Hx]; [unfold zlen in *; lia|].
  exists x. unfold byte_at. rewrite (proj2 (Z.leb_le _ _)), Hx by lia.
  split; [done|]. split; [done|].
  split; [by apply (Forall_lookup_1 _ _ _ _ Hb Hx)|]. split; [done|].
  apply Z.mod_pos_bound; lia.
Qed.

(** Replacing the byte of bit [i] by one that differs in that bit only. *)
Lemma update_byte b i x y v :
  wf b -> 0 <= i < size b * CHAR_BIT -> data b !! Z.to_nat (i / CHAR_BIT) = Some x ->
  is_byte y ->
  (forall k, 0 <= k < 8 -> Z.testbit y k = if k =? i mod CHAR_BIT then v else Z.testbit x k) ->
  exists d, byte_set (data b) (i / CHAR_BIT) y = Ret d /\
    wf (mk_bitset (bitcount b) (size b) d) /\
    forall j, 0 <= j ->
      member (mk_bitset (bitcount b) (size b) d) j = if j =? i then v else member b j.
Proof.
  intros Hwf Hi Hx Hy Hbits. destruct (locate_byte b i Hwf Hi) as (x' & _ & Hx' & _ & Hr & _).
  assert (x' = x) as -> by congruence. destruct Hwf as (Hsz & Hmax & Hb).
  eexists. split.
  { unfold byte_set. rewrite (proj2 (andb_true_iff _ _)); [reflexivity|].
    split; [apply Z.leb_le|apply Z.ltb_lt]; lia. }
  split.
  - split_and!; simpl; [unfold zlen in *; by rewrite length_insert|done|].
    by apply Forall_insert.
  - intros j Hj. unfold member. simpl. unfold CHAR_BIT in *.
    pose proof (Z.div_mod i 8) as Hdi. pose proof (Z.div_mod j 8) as Hdj.
    pose proof (Z.mod_pos_bound j 8) as Hmj. pose proof (Z.div_pos j 8) as Hpj.
    destruct (Z.eq_dec (i / 8) (j / 8)) as [He|Hne].
    + rewrite <-He, list_lookup_insert_eq, Hx by (unfold zlen in *; lia).
      rewrite Hbits by lia. do 2 zcase; try done; lia.
    + rewrite list_lookup_insert_ne by lia. zcase; [subst; lia|done].
Qed.

(** On a bitset that fits its array and an index inside it, [bitset_set] and
    [bitset_clear] change the membership of that index alone, and
    [bitset_is_set] reports it; none of them leaves the array. *)
Theorem bitset_single_bit b i :
  wf b -> 0 <= i < size b * CHAR_BIT ->
  bitset_is_set b i = Ret (member b i) /\
  (exists b', bitset_set b i = Ret b' /\ wf b' /\ size b' = size b /\
     forall j, 0 <= j -> member b' j = (j =? i) || member b j) /\
  (exists b', bitset_clear b i = Ret b' /\ wf b' /\ size b' = size b /\
     forall j, 0 <= j -> member b' j = negb (j =? i) && member b j).
Proof.
  intros Hwf Hi. destruct (locate_byte b i Hwf Hi) as (x & Hat & Hx & Hxb & _ & Hm).
  unfold bitset_is_set, bitset_set, bitset_clear, guard.
  rewrite (proj2 (Z.ltb_lt _ _)), Hat by lia. simpl. split; [|split].
  - rewrite test_mask by lia. unfold member. by rewrite Hx.
  - destruct (update_byte b i x (Z.lor x (u8 (Z.shiftl 1 (i mod CHAR_BIT)))) true)
      as (d & -> & Hwf' & Hmem); try done.
    + apply (bitop_is_byte _ orb); [intros; apply Z.lor_spec|done| |done|apply Z.mod_pos_bound; lia].
      apply Z.lor_nonneg. split; [apply Hxb|apply Z.mod_pos_bound; lia].
    + intros k Hk. rewrite Z.lor_spec, u8_testbit, testbit_bit by lia.
      rewrite (proj2 (Z.ltb_lt _ _)) by lia. by zcase; rewrite ?orb_true_r, ?orb_false_r.
    + eexists. split_and!; [done|done|done|]. intros j Hj. rewrite Hmem by done. by zcase.
  - destruct (update_byte b i x (Z.land x (u8 (Z.lnot (Z.shiftl 1 (i mod CHAR_BIT))))) false)
      as (d & -> & Hwf' & Hmem); try done.
    + apply (bitop_is_byte _ andb); [intros; apply Z.land_spec|done| |done|apply Z.mod_pos_bound; lia].
      apply Z.land_nonneg. left. apply Hxb.
    + intros k Hk. rewrite Z.land_spec, u8_testbit, Z.lnot_spec, testbit_bit by lia.
      rewrite (proj2 (Z.ltb_lt _ _)) by lia. by zcase; rewrite ?andb_false_r, ?andb_true_r.
    + eexists. split_and!; [done|done|done|]. intros j Hj. rewrite Hmem by done. by zcase.
Qed.

Lemma bitset_single_bit_witness :
  let b := mk_bitset 12 2 [5; 0] in
  bitset_is_set b 9 = Ret false /\
  (exists b', bitset_set b 9 = Ret b' /\ wf b' /\ size b' = 2 /\
     forall j, 0 <= j -> member b' j = (j =? 9) || member b j) /\
  (exists b', bitset_clear b 9 = Ret b' /\ wf b' /\ size b' = 2 /\
     forall j, 0 <= j -> member b' j = negb (j =? 9) && member b j).
Proof.
  apply (bitset_single_bit (mk_bitset 12 2 [5; 0]) 9); [|by vm_compute].
  split_and!; [done|done|]. repeat constructor; done.
Defined.

(** * Whole sets *)

Lemma member_zip (f : Z -> Z -> Z) (g : bool -> bool -> bool) b c bc sz j :
  (forall x y j, 0 <= j -> Z.testbit (f x y) j = g (Z.testbit x j) (Z.testbit y j)) ->
  g false false = false -> length (data b) = length (data c) -> 0 <= j ->
  member (mk_bitset bc sz (zip_with f (data b) (data c))) j = g (member b j) (member c j).
Proof.
  intros Hf Hg Hlen Hj. unfold member. simpl. rewrite lookup_zip_with.
  set (k := Z.to_nat (j / CHAR_BIT)).
  destruct (data b !! k) as [x|] eqn:Hx, (data c !! k) as [y|] eqn:Hy; simpl.
  - apply Hf. unfold CHAR_BIT. apply Z.mod_pos_bound. lia.
  - apply lookup_lt_Some in Hx. apply lookup_ge_None in Hy. lia.
  - apply lookup_ge_None in Hx. apply lookup_lt_Some in Hy. lia.
  - by rewrite Hg.
Qed.

Lemma wf_zip (f : Z -> Z -> Z) (g : bool -> bool -> bool) b c bc :
  (forall x y j, 0 <= j -> Z.testbit (f x y) j = g (Z.testbit x j) (Z.testbit y j)) ->
  g false false = false -> (forall x y, 0 <= x -> 0 <= y -> 0 <= f x y) ->
  wf b -> wf c -> size b = size c ->
  wf (mk_bitset bc (size b) (zip_with f (data b) (data c))).
Proof.
  intros Hf Hg Hpos (Hb & Hmax & Hbb) (Hc & _ & Hcb) Hsz. split_and!; simpl; [|done|].
  - unfold zlen in *. rewrite length_zip_with. lia.
  - apply Forall_lookup. intros k v Hv. rewrite lookup_zip_with in Hv.
    destruct (data b !! k) as [x|] eqn:Hx; [|done]. simpl in Hv.
    destruct (data c !! k) as [y|] eqn:Hy; [|done]. injection Hv as <-.
    pose proof (Forall_lookup_1 _ _ _ _ Hbb Hx) as Hxb.
    pose proof (Forall_lookup_1 _ _ _ _ Hcb Hy) as Hyb.
    apply (bitop_is_byte f g); try done. apply Hpos; [apply Hxb|apply Hyb].
Qed.

(** A set made by [bitset_new]: its array is just large enough. *)
Definition sized (b : bitset) : Prop :=
  0 <= bitcount b /\ size b = bitcount b / CHAR_BIT + (if bitcount b mod CHAR_BIT =? 0 then 0 else 1).

Lemma bitset_new_spec n o :
  0 <= n -> n + 8 < 2 ^ 64 ->
  wp (bitset_new n) o (fun r o' =>
    (forall b, r = Some b -> wf b /\ sized b /\ bitcount b = n /\
       data b = replicate (Z.to_nat (size b)) 0) /\
    (o = [] -> n <= PTRDIFF_MAX -> is_Some r)).
Proof.
  intros Hn Hmax. unfold bitset_new.
  set (sz := n / CHAR_BIT + (if n mod CHAR_BIT =? 0 then 0 else 1)).
  assert (0 <= sz /\ sz * 8 <= n + 8 /\ sz <= n + 1) as (Hsz & Hsz8 & Hszn).
  { unfold sz, CHAR_BIT. pose proof (Z.div_mod n 8). pose proof (Z.mod_pos_bound n 8).
    zcase; lia. }
  wp. apply wp_alloc_ok. intros b o1 _ Ho1. destruct b; cbn [negb]; wp.
  2:{ split; [done|]. intros ->. by destruct Ho1. }
  apply wp_malloc; [intros o2 Hle _|intros o2 Ho2]; wp.
  - split; [|done]. intros b [= <-]. unfold wf, sized, CHAR_BIT. simpl.
    split_and!; try done; [unfold zlen; rewrite length_replicate; lia|lia|].
    by apply Forall_replicate.
  - split; [done|]. intros -> Hle. destruct Ho1 as [-> _]; [done|]. destruct Ho2 as [_ Hgt]; [done|].
    unfold sz, CHAR_BIT in *. unfold PTRDIFF_MAX in *. pose proof (Z.div_mod n 8).
    pose proof (Z.mod_pos_bound n 8). destruct (n mod 8 =? 0); lia.
Qed.

Lemma op_new_spec (f : Z -> Z -> Z) (g : bool -> bool -> bool) b c o :
  (forall x y j, 0 <= j -> Z.testbit (f x y) j = g (Z.testbit x j) (Z.testbit y j)) ->
  g false false = false -> (forall x y, 0 <= x -> 0 <= y -> 0 <= f x y) ->
  wf b -> wf c -> size b = size c -> sized b -> bitcount b + 8 < 2 ^ 64 ->
  wp (op_new f b c) o (fun r _ =>
    (forall a, r = Some a -> wf a /\ size a = size b /\
       forall j, 0 <= j -> member a j = g (member b j) (member c j)) /\
    (o = [] -> bitcount b <= PTRDIFF_MAX -> is_Some r)).
Proof.
  intros Hf Hg Hpos Hb Hc Hsz Hsized Hmax. unfold op_new, bitset_size, bitset_bitcount, bitset_data.
  wp. eapply wp_mono; [apply bitset_new_spec; [apply Hsized|done]|].
  intros [r|] o1 [Hr Ho]; wp; [|by split].
  destruct (Hr r eq_refl) as ((Hrl & _) & [_ Hrs] & Hbc & Hd).
  assert (size r = size b) as Hrb by (rewrite Hrs, Hbc; symmetry; apply Hsized).
  pose proof Hb as (Hbl & _ & _). pose proof Hc as (Hcl & _ & _).
  pose proof (combine_bytes_spec f [] [] [] (data r) (data b) (data c)) as Hcomb.
  change (zlen []) with 0 in Hcomb. cbn [app] in Hcomb.
  replace (Z.to_nat (size b)) with (length (data r)) by (unfold zlen in *; lia).
  rewrite Hcomb by (done || unfold zlen in *; lia). wp. split; [|done].
  intros a [= <-]. rewrite Hrb. split; [|split; [done|]].
  - apply (wf_zip f g); [done|done|done|done|done|lia].
  - intros j Hj. apply member_zip; [done|done|unfold zlen in *; lia|done].
Qed.

(** For two bitsets of the same size whose arrays match their bit counts,
    [bitset_and], [bitset_or] and [bitset_xor] return a new set that is the
    intersection, the union and the symmetric difference of the two; they fail
    only when an allocation does. *)
Theorem bitset_algebra b c o :
  wf b -> wf c -> size b = size c -> sized b -> bitcount b <= PTRDIFF_MAX ->
  let computes (m : C (option bitset)) (g : bool -> bool -> bool) :=
    wp m o (fun r _ =>
      (forall a, r = Some a -> wf a /\ size a = size b /\
         forall j, 0 <= j -> member a j = g (member b j) (member c j)) /\
      (o = [] -> is_Some r)) in
  computes (bitset_and b c) andb /\ computes (bitset_or b c) orb /\
  computes (bitset_xor b c) xorb.
Proof.
  intros Hb Hc Hsz Hsized Hmax computes.
  assert (forall f g m, m = op_new f b c ->
    (forall x y j, 0 <= j -> Z.testbit (f x y) j = g (Z.testbit x j) (Z.testbit y j)) ->
    g false false = false -> (forall x y, 0 <= x -> 0 <= y -> 0 <= f x y) ->
    computes m g) as H.
  { intros f g m -> Hf Hg Hpos. unfold computes. eapply wp_mono.
    - apply (op_new_spec f g); try done. unfold PTRDIFF_MAX in Hmax. lia.
    - intros r o' [Hr Ho]. split; [done|]. intros ->. by apply Ho. }
  split_and!; (eapply H; [reflexivity| |done|]).
  - intros. apply Z.land_spec.
  - intros. apply Z.land_nonneg. by left.
  - intros. apply Z.lor_spec.
  - intros. by apply Z.lor_nonneg.
  - intros. apply Z.lxor_spec.
  - intros. by apply Z.lxor_nonneg.
Qed.

Lemma bitset_algebra_witness :
  let b := mk_bitset 10 2 [5; 1] in
  let c := mk_bitset 10 2 [4; 2] in
  let computes (m : C (option bitset)) (g : bool -> bool -> bool) :=
    wp m [] (fun r _ =>
      (forall a, r = Some a -> wf a /\ size a = 2 /\
         forall j, 0 <= j -> member a j = g (member b j) (member c j)) /\
      ([] = ([] : oracle) -> is_Some r)) in
  computes (bitset_and b c) andb /\ computes (bitset_or b c) orb /\
  computes (bitset_xor b c) xorb.
Proof.
  apply (bitset_algebra (mk_bitset 10 2 [5; 1]) (mk_bitset 10 2 [4; 2]) []).
  - split_and!; [done|done|]. repeat constructor; done.
  - split_and!; [done|done|]. repeat constructor; done.
  - done.
  - done.
  - by vm_compute.
Defined.

Lemma op_new_mapped f b c :
  wf b -> wf c -> size b = size c -> 0 < size b -> bitcount b = 0 ->
  op_new f b c [] = Fault OutOfBounds.
Proof.
  intros Hb Hc Hsz Hpos Hbc. pose proof Hb as (Hbl & _ & _). pose proof Hc as (Hcl & _ & _).
  unfold op_new, bitset_size, bitset_bitcount, bitset_data, bind, lift, guard.
  rewrite (proj2 (Z.eqb_eq _ _) Hsz), Hbc. vm_compute (bitset_new 0 []). cbn [data].
  destruct (data b) as [|x db] eqn:Hdb; [rewrite Hbl in Hpos; by vm_compute in Hpos|].
  destruct (data c) as [|y dc] eqn:Hdc; [rewrite Hsz, Hcl in Hpos; by vm_compute in Hpos|].
  replace (Z.to_nat (size b)) with (S (length db)) by (rewrite Hbl; unfold zlen; simpl; lia).
  done.
Qed.

(** A set made by [bitset_map] has a bit count of 0, so the result that
    [bitset_and], [bitset_or] and [bitset_xor] allocate for it has no bytes and
    their loops, which run over the bytes of the operand, write outside it. *)
Theorem bitset_mapped_overflow d c b :
  bitset_map d (zlen d) [] = Ret (Some b, []) ->
  Forall is_byte d -> d <> [] -> zlen d * CHAR_BIT < 2 ^ 64 -> wf c -> size c = zlen d ->
  bitset_and b c [] = Fault OutOfBounds /\ bitset_or b c [] = Fault OutOfBounds /\
  bitset_xor b c [] = Fault OutOfBounds.
Proof.
  intros [= <-] Hd Hne Hmax Hc Hsz.
  assert (0 < zlen d) by (destruct d; [done|zlia]).
  split_and!; by apply op_new_mapped.
Qed.

Lemma bitset_mapped_overflow_witness :
  let b := mk_bitset 0 2 [1; 2] in
  let c := mk_bitset 16 2 [3; 4] in
  bitset_and b c [] = Fault OutOfBounds /\ bitset_or b c [] = Fault OutOfBounds /\
  bitset_xor b c [] = Fault OutOfBounds.
Proof.
  apply (bitset_mapped_overflow [1; 2] (mk_bitset 16 2 [3; 4]) (mk_bitset 0 2 [1; 2]));
    [reflexivity | by repeat constructor | done | done | | done].
  split_and!; [done|done|]. by repeat constructor.
Defined.

Lemma bitset_cmp_spec a b :
  wf a -> wf b -> size a = size b ->
  exists d, bitset_cmp a b = Ret d /\ (d = 0 <-> data a = data b).
Proof.
  intros (Ha & _ & _) (Hb & _ & _) Hsz. unfold bitset_cmp, bitset_size, guard.
  rewrite (proj2 (Z.eqb_eq _ _) Hsz). cbn [res_bind].
  replace (Z.to_nat (size a)) with (length (data a)) by (unfold zlen in *; lia).
  apply (cmp_bytes_spec [] []); [done|]. unfold zlen in *. lia.
Qed.
