(* ===== verification/Rfc1738.v ===== *)
(** URL encoding and decoding, http/src/rfc1738.c.

    The destination is a block, so that stores outside it show; the source of
    the two length-delimited functions is a block too, since both look at the
    byte after the last one they copy.  [escape] and [unescape] are the
    reference functions on lists of characters. *)

From Stdlib Require Import ZArith Lia.
From stdpp Require Import base list numbers.
From S2P Require Import Prelude.

(** [high]/[low] nibbles as upper-case hexadecimal digits. *)
Definition hexdigit (x : Z) : Z := if 9 <? x then 65 + x - 10 else 48 + x.

(** The three characters stored at [dest], or [None] on illegal input. *)
Definition encode (c : Z) : option (list Z) :=
  if (c <? 0) || (255 <? c) then None
  else
    let high := Z.shiftr (Z.land c 240) 4 in
    let low := Z.land c 15 in
    Some [ch "%"; hexdigit high; hexdigit low].

Definition hexchar2int (c : Z) : Z :=
  if (ch "0" <=? c) && (c <=? ch "9") then c - ch "0"
  else if (ch "a" <=? c) && (c <=? ch "f") then 10 + c - ch "a"
  else if (ch "A" <=? c) && (c <=? ch "F") then 10 + c - ch "A"
  else -1.

(** [src] is the memory at the pointer. The second digit is looked at only
    when the first one is a digit. *)
Definition decode (src : block) : res Z :=
  let+ c0 := ldc src 0 in
  if negb (c0 =? ch "%") then Ret (-1)
  else
    let+ x1 := ldc src 1 in
    let c1 := hexchar2int x1 in
    if c1 =? -1 then Ret (-1)
    else
      let+ x2 := ldc src 2 in
      let c2 := hexchar2int x2 in
      if c2 =? -1 then Ret (-1) else Ret (Z.shiftl c1 4 + c2).

Definition plain (c : Z) : bool :=
  ((ch "A" <=? c) && (c <=? ch "Z")) || ((ch "a" <=? c) && (c <=? ch "z"))
  || ((ch "0" <=? c) && (c <=? ch "9")).

(** What a call gives back: its value, the [errno] it set, the destination. *)
Record outcome := mk_outcome { value : Z; err : option errno; dest : block }.

(** The loop of [rfc1738_encode]; [n] is [srclen], [off] the offset of [dest]
    in its block, so [size] too. The result is the state after the loop or the
    error returned from inside it. *)
Fixpoint encode_loop (n : nat) (d : block) (off destsize : Z) (src : block)
  : res (outcome + block * Z * block) :=
  match n with
  | O => Ret (inr (d, off, src))
  | S n =>
      if 0 <? destsize then
        let+ c := ldc src 0 in
        if plain (schar c) then
          let+ d := stc d off c in
          encode_loop n d (off + 1) (destsize - 1) (drop 1 src)
        else if 2 <? destsize then
          match encode c with
          | None => Ret (inl (mk_outcome 0 (Some EINVAL) d))
          | Some e =>
              let+ d := wr d off (Some <$> e) in
              encode_loop n d (off + 3) (destsize - 3) (drop 1 src)
          end
        else Ret (inl (mk_outcome 0 (Some ENOSPC) d))
      else Ret (inr (d, off, src))
  end.

Definition rfc1738_encode (d : block) (destsize : Z) (src : block) (srclen : Z) : res outcome :=
  r_assert (0 <? destsize);;
  r_assert (0 <? srclen);;
  let+ r := encode_loop (Z.to_nat srclen) d 0 destsize src in
  match r with
  | inl e => Ret e
  | inr (d, size, src) =>
      let+ c := ldc src 0 in
      if negb (c =? 0) then Ret (mk_outcome 0 (Some ENOSPC) d)
      else
        let+ d := stc d size 0 in
        Ret (mk_outcome size None d)
  end.

(** The loop of [rfc1738_decode], which runs while there is room: [n] is
    [destsize]. *)
Fixpoint decode_loop (n : nat) (d : block) (size : Z) (src : block) (srclen : Z)
  : res (outcome + block * Z * nat) :=
  match n with
  | O => Ret (inr (d, size, O))
  | S n' =>
      if 0 <? srclen then
        let+ c := ldc src 0 in
        if c =? ch "%" then
          let+ x := decode src in
          if x =? -1 then Ret (inl (mk_outcome 0 (Some EINVAL) d))
          else
            let+ d := stc d size (u8 x) in
            decode_loop n' d (size + 1) (drop 3 src) (u64 (u64 (srclen - 2) - 1))
        else
          let+ d := stc d size c in
          decode_loop n' d (size + 1) (drop 1 src) (srclen - 1)
      else Ret (inr (d, size, n))
  end.

Definition rfc1738_decode (d : block) (destsize : Z) (src : block) (srclen : Z) : res outcome :=
  let+ r := decode_loop (Z.to_nat destsize) d 0 src srclen in
  match r with
  | inl e => Ret e
  | inr (d, size, room) =>
      if Z.of_nat room =? 0 then Ret (mk_outcome 0 (Some ENOSPC) d)
      else
        let+ d := stc d size 0 in
        Ret (mk_outcome size None d)
  end.

(** The common end of the two functions on strings. *)
Definition terminate (destsize : Z) (r : outcome) : res outcome :=
  if value r =? 0 then Ret (mk_outcome 0 (err r) (dest r))
  else if value r =? destsize then Ret (mk_outcome 0 (err r) (dest r))
  else let+ d := stc (dest r) (value r) 0 in Ret (mk_outcome (value r) (err r) d).

Definition rfc1738_encode_string (d : block) (destsize : Z) (src : list Z) : res outcome :=
  let+ r := rfc1738_encode d destsize (cstr src) (zlen src) in
  terminate destsize r.

Definition rfc1738_decode_string (d : block) (destsize : Z) (src : list Z) : res outcome :=
  let+ r := rfc1738_decode d destsize (cstr src) (zlen src) in
  terminate destsize r.

(** * Reference functions *)

Definition escape_char (c : Z) : list Z :=
  if plain c then [c] else [ch "%"; hexdigit (c / 16); hexdigit (c mod 16)].

Definition escape (s : list Z) : list Z := mjoin (escape_char <$> s).

Fixpoint unescape (s : list Z) : option (list Z) :=
  match s with
  | [] => Some []
  | c :: s' =>
      if c =? ch "%" then
        match s' with
        | x :: y :: s'' =>
            if (hexchar2int x =? -1) || (hexchar2int y =? -1) then None
            else cons (u8 (16 * hexchar2int x + hexchar2int y)) <$> unescape s''
        | _ => None
        end
      else cons c <$> unescape s'
  end.

(** * Digits *)

Lemma hexchar2int_hexdigit x : 0 <= x < 16 -> hexchar2int (hexdigit x) = x.
Proof.
  intros Hx. unfold hexchar2int, hexdigit. zcase.
  - do 2 (rewrite (proj2 (andb_false_iff _ _)) by (rewrite !Z.leb_gt; lia)).
    rewrite (proj2 (andb_true_iff _ _)) by (rewrite !Z.leb_le; lia). lia.
  - rewrite (proj2 (andb_true_iff _ _)) by (rewrite !Z.leb_le; lia). lia.
Qed.

Lemma hexchar2int_range z : -1 <= hexchar2int z <= 15.
Proof. unfold hexchar2int. repeat zcase; simpl; lia. Qed.

Lemma encode_spec c : 0 <= c <= 255 -> encode c = Some [37; hexdigit (c / 16); hexdigit (c mod 16)].
Proof.
  intros Hc. unfold encode.
  rewrite (proj2 (orb_false_iff _ _)) by (rewrite !Z.ltb_ge; lia).
  rewrite Z.shiftr_land. change (Z.shiftr 240 4) with (Z.ones 4). change 15 with (Z.ones 4).
  rewrite !Z.land_ones, Z.shiftr_div_pow2 by lia. change (2 ^ 4) with 16.
  rewrite (Z.mod_small (c / 16)); [done|].
  split; [apply Z.div_pos; lia|apply Z.div_lt_upper_bound; lia].
Qed.

Lemma plain_schar c : is_char c -> plain (schar c) = plain c.
Proof.
  unfold is_char, schar. intros Hc. zcase; [done|].
  unfold plain. repeat (rewrite (proj2 (andb_false_iff _ _)) by (rewrite !Z.leb_gt; lia)).
  done.
Qed.

Lemma zlen_escape_char c : 1 <= zlen (escape_char c) <= 3.
Proof. unfold escape_char. destruct (plain c); zlia. Qed.

Lemma escape_cons c s : escape (c :: s) = escape_char c ++ escape s.
Proof. done. Qed.

(** * Encoding *)

(** One iteration, by whether the encoding of the character fits. *)
Lemma encode_loop_step n c pre rest src :
  is_char c ->
  encode_loop (S n) (pre ++ rest) (zlen pre) (zlen rest) (Some c :: src) =
  let e := escape_char c in
  if zlen e <=? zlen rest
  then encode_loop n ((pre ++ (Some <$> e)) ++ drop (length e) rest)
         (zlen (pre ++ (Some <$> e))) (zlen (drop (length e) rest)) src
  else if 0 <? zlen rest then Ret (inl (mk_outcome 0 (Some ENOSPC) (pre ++ rest)))
  else Ret (inr (pre ++ rest, zlen pre, Some c :: src)).
Proof.
  intros Hc. cbn [encode_loop]. pose proof (zlen_escape_char c) as Hec. cbv zeta.
  destruct (Z.ltb_spec 0 (zlen rest)); [|by destruct (Z.leb_spec (zlen (escape_char c)) (zlen rest)); [zlia|]].
  rewrite ldc_head. cbn [res_bind]. rewrite plain_schar by done.
  assert (forall (e : list Z), zlen e <= zlen rest ->
    zlen (pre ++ (Some <$> e)) = zlen pre + zlen e /\
    zlen (drop (length e) rest) = zlen rest - zlen e) as Hz
    by (intros; rewrite zlen_drop; zlia).
  unfold escape_char in *. destruct (plain c).
  - destruct (Z.leb_spec (zlen [c]) (zlen rest)); [|zlia].
    unfold stc. rewrite wr_tail by zlia. cbn [res_bind].
    change (drop 1 (Some c :: src)) with src.
    rewrite <-app_assoc. destruct (Hz [c]) as [-> ->]; done.
  - rewrite encode_spec by (unfold is_char in Hc; lia).
    set (e := [37; hexdigit (c / 16); hexdigit (c mod 16)]) in *.
    change (zlen e) with 3 in *.
    destruct (Z.leb_spec 3 (zlen rest)); destruct (Z.ltb_spec 2 (zlen rest)); try lia; [|done].
    rewrite wr_tail by (done || zlia). cbn [res_bind].
    change (drop 1 (Some c :: src)) with src.
    rewrite <-app_assoc. destruct (Hz e) as [-> ->]; done.
Qed.

Lemma encode_loop_fits s pre rest tail :
  Forall is_char s -> zlen (escape s) <= zlen rest ->
  encode_loop (length s) (pre ++ rest) (zlen pre) (zlen rest) ((Some <$> s) ++ tail)
  = Ret (inr (pre ++ (Some <$> escape s) ++ drop (length (escape s)) rest,
              zlen pre + zlen (escape s), tail)).
Proof.
  intros Hs. revert pre rest. induction Hs as [|c s Hc Hs IH]; intros pre rest Hfit.
  { simpl. change (zlen (escape [])) with 0. by rewrite Z.add_0_r. }
  rewrite escape_cons in *. rewrite fmap_cons. cbn [length app].
  rewrite encode_loop_step by done. simpl.
  destruct (Z.leb_spec (zlen (escape_char c)) (zlen rest)); [|zlia].
  rewrite IH by (rewrite zlen_drop; zlia).
  rewrite drop_drop, fmap_app, <-!app_assoc, length_app, !zlen_app, zlen_fmap, Z.add_assoc.
  done.
Qed.

(** Without room for the whole encoding the loop stops in front of a character
    or reports the lack of room. *)
Lemma encode_loop_short s pre rest tail :
  Forall is_char s -> zlen rest < zlen (escape s) ->
  wpr (encode_loop (length s) (pre ++ rest) (zlen pre) (zlen rest) ((Some <$> s) ++ tail))
    (fun r => match r with
              | inl e => value e = 0 /\ err e = Some ENOSPC
              | inr (_, _, src) => exists c src', src = Some c :: src' /\ is_char c
              end).
Proof.
  intros Hs. revert pre rest. induction Hs as [|c s Hc Hs IH]; intros pre rest Hfit.
  { change (zlen (escape [])) with 0 in Hfit. zlia. }
  rewrite escape_cons in *. rewrite fmap_cons. cbn [length app].
  rewrite encode_loop_step by done. cbv zeta.
  destruct (Z.leb_spec (zlen (escape_char c)) (zlen rest)).
  - apply IH. rewrite zlen_drop; zlia.
  - zcase; wp; by eauto.
Qed.

(** * Decoding *)

Lemma decode_spec c x y tail :
  c = 37 ->
  decode (Some c :: Some x :: Some y :: tail) =
  Ret (if (hexchar2int x =? -1) || (hexchar2int y =? -1) then -1
       else 16 * hexchar2int x + hexchar2int y).
Proof.
  intros ->. unfold decode.
  change (ldc (Some 37 :: Some x :: Some y :: tail) 0) with (@Ret Z 37) || rewrite ldc_head.
  cbn [res_bind Z.eqb negb Pos.eqb].
  rewrite (ldc_app [Some 37] (Some y :: tail) x) by done. cbn [res_bind].
  destruct (hexchar2int x =? -1); [done|].
  rewrite (ldc_app [Some 37; Some x] tail y) by done. cbn [res_bind orb].
  destruct (hexchar2int y =? -1); [done|]. f_equal.
  rewrite Z.shiftl_mul_pow2 by lia. lia.
Qed.

(** An escape cut short by the end of the string is illegal: the terminator is
    not a digit. *)
Lemma decode_truncated s tail :
  (length s < 2)%nat -> Forall is_char s ->
  decode (Some 37 :: (Some <$> s) ++ Some 0 :: tail) = Ret (-1).
Proof.
  intros Hlen Hs. unfold decode. rewrite ldc_head. cbn [res_bind Z.eqb negb Pos.eqb].
  destruct s as [|x [|y s]]; simpl in Hlen; [|simpl|lia].
  - by rewrite (ldc_app [Some 37] tail 0).
  - rewrite (ldc_app [Some 37] (Some 0 :: tail) x) by done. cbn [res_bind].
    destruct (hexchar2int x =? -1); [done|].
    by rewrite (ldc_app [Some 37; Some x] tail 0).
Qed.

(** What the loop leaves, in terms of [unescape]: an error when the string is
    illegal, no room left, or the decoded text. *)
Definition decoded (s : list Z) (pre rest : block) (r : outcome + block * Z * nat) : Prop :=
  match r with
  | inl e => value e = 0 /\ err e = Some EINVAL /\ unescape s = None
  | inr (d, sz, room) =>
      (room = 0%nat /\ forall t, unescape s = Some t -> (length rest <= length t)%nat) \/
      (exists t, unescape s = Some t /\ (length t + room = length rest)%nat /\
         d = pre ++ (Some <$> t) ++ drop (length t) rest /\ sz = zlen pre + zlen t)
  end.

(** Decoding one character more. *)
Lemma decoded_cons s s' x pre c rest r :
  unescape s = cons x <$> unescape s' ->
  decoded s' (pre ++ [Some x]) rest r -> decoded s pre (c :: rest) r.
Proof.
  intros Hun Hdec. destruct r as [e|[[d sz] room]]; simpl in *.
  - destruct Hdec as (? & ? & Hn). by rewrite Hun, Hn.
  - destruct Hdec as [[-> Hall]|(t & Ht & Hlen & -> & ->)]; [left|right].
    + split; [done|]. intros t Ht. rewrite Hun in Ht.
      destruct (unescape s') as [t'|] eqn:Ht'; [|done]. injection Ht as <-.
      specialize (Hall t' eq_refl). simpl. lia.
    + exists (x :: t). rewrite Hun, Ht. split; [done|]. split; [simpl; lia|]. split.
      * by rewrite <-app_assoc.
      * zlia.
Qed.

Lemma decode_loop_spec rest s pre tail :
  Forall is_char s -> zlen s <= PTRDIFF_MAX ->
  wpr (decode_loop (length rest) (pre ++ rest) (zlen pre) ((Some <$> s) ++ Some 0 :: tail) (zlen s))
    (decoded s pre rest).
Proof.
  revert s pre. induction rest as [|c0 rest IH]; intros s pre Hs Hmax.
  { simpl. left. split; [done|]. intros. simpl. lia. }
  cbn [length decode_loop]. destruct Hs as [|c s Hc Hs].
  { change (0 <? zlen []) with false. simpl. right. exists []. simpl.
    split; [done|]. split; [done|]. split; [done|]. zlia. }
  rewrite fmap_cons. cbn [app]. destruct (Z.ltb_spec 0 (zlen (c :: s))); [|zlia].
  rewrite ldc_head. cbn [res_bind]. unfold PTRDIFF_MAX in *.
  assert (forall x s', unescape (c :: s) = cons x <$> unescape s' -> Forall is_char s' ->
    zlen s' <= zlen (c :: s) ->
    wpr (let+ d := stc (pre ++ c0 :: rest) (zlen pre) x in
         decode_loop (length rest) d (zlen pre + 1) ((Some <$> s') ++ Some 0 :: tail) (zlen s'))
      (decoded (c :: s) pre (c0 :: rest))) as Hrec.
  { intros x s' Hun Hs' Hle. wp. rewrite stc_app by done. cbn [wpr].
    replace (zlen pre + 1) with (zlen (pre ++ [Some x])) by zlia.
    replace (pre ++ Some x :: rest) with ((pre ++ [Some x]) ++ rest) by (by rewrite <-app_assoc).
    eapply wpr_mono; [apply IH; [done|lia]|]. intros r. by apply decoded_cons. }
  cbn [unescape] in Hrec. destruct (Z.eqb_spec c 37) as [->|Hne].
  - destruct s as [|x [|y s]].
    1,2: rewrite (decode_truncated _ tail) by (simpl; try lia; done); by simpl.
    rewrite !fmap_cons. cbn [app]. rewrite decode_spec by done. cbn [res_bind].
    destruct ((hexchar2int x =? -1) || (hexchar2int y =? -1)) eqn:Hbad.
    { simpl. rewrite Hbad. done. }
    apply orb_false_elim in Hbad as [Hx Hy].
    pose proof (hexchar2int_range x). pose proof (hexchar2int_range y). zreflect.
    destruct (Z.eqb_spec (16 * hexchar2int x + hexchar2int y) (-1)); [lia|].
    change (drop 3 (Some 37 :: Some x :: Some y :: (Some <$> s) ++ Some 0 :: tail))
      with ((Some <$> s) ++ Some 0 :: tail).
    replace (u64 (u64 (zlen (37 :: x :: y :: s) - 2) - 1)) with (zlen s)
      by (rewrite (u64_small (_ - 2)) by zlia; rewrite u64_small by zlia; zlia).
    apply Forall_cons_iff in Hs as [_ Hs]. apply Forall_cons_iff in Hs as [_ Hs].
    apply Hrec; [done|done|zlia].
  - change (drop 1 (Some c :: (Some <$> s) ++ Some 0 :: tail))
      with ((Some <$> s) ++ Some 0 :: tail).
    replace (zlen (c :: s) - 1) with (zlen s) by zlia.
    apply Hrec; [done|done|zlia].
Qed.

(** * Encoding and decoding are inverse *)

Lemma plain_not_percent c : plain c = true -> (c =? 37) = false.
Proof. intros Hp. apply Z.eqb_neq. intros ->. done. Qed.

Lemma unescape_char c s :
  is_char c -> unescape (escape_char c ++ s) = cons c <$> unescape s.
Proof.
  intros Hc. unfold escape_char. destruct (plain c) eqn:Hp.
  - cbn [app unescape]. by rewrite plain_not_percent.
  - unfold is_char in Hc. cbn [app unescape Z.eqb Pos.eqb].
    assert (0 <= c / 16 < 16) by (split; [apply Z.div_pos|apply Z.div_lt_upper_bound]; lia).
    pose proof (Z.mod_pos_bound c 16).
    rewrite !hexchar2int_hexdigit by lia.
    rewrite (proj2 (orb_false_iff _ _)) by (rewrite !Z.eqb_neq; lia).
    replace (u8 (16 * (c / 16) + c mod 16)) with c; [done|].
    rewrite <-Z.div_mod by lia. unfold u8. rewrite Z.mod_small; lia.
Qed.

Lemma unescape_escape s : Forall is_char s -> unescape (escape s) = Some s.
Proof.
  induction 1 as [|c s Hc _ IH]; [done|].
  by rewrite escape_cons, unescape_char, IH.
Qed.

Lemma hexdigit_range x : 0 <= x < 16 -> is_char (hexdigit x).
Proof. intros. unfold hexdigit, is_char. zcase; lia. Qed.

Lemma escape_chars s : Forall is_char s -> Forall is_char (escape s).
Proof.
  induction 1 as [|c s Hc _ IH]; [done|]. rewrite escape_cons. apply Forall_app. split; [|done].
  unfold escape_char. destruct (plain c); [by apply Forall_singleton|].
  unfold is_char in Hc. pose proof (Z.mod_pos_bound c 16).
  assert (0 <= c / 16 < 16) by (split; [apply Z.div_pos|apply Z.div_lt_upper_bound]; lia).
  repeat apply Forall_cons_2; [done|by apply hexdigit_range|apply hexdigit_range; lia|done].
Qed.

Lemma escape_nonempty s : s <> [] -> 0 < zlen (escape s).
Proof.
  destruct s as [|c s]; [done|]. intros _. rewrite escape_cons.
  pose proof (zlen_escape_char c). zlia.
Qed.

Lemma encode_string_fits s d :
  Forall is_char s -> s <> [] -> zlen (escape s) < zlen d ->
  exists d', rfc1738_encode_string d (zlen d) s
    = Ret (mk_outcome (zlen (escape s)) None d') /\ str_at d' = Ret (escape s).
Proof.
  intros Hs Hne Hfit. pose proof (escape_nonempty s Hne) as Hpos.
  assert (0 < zlen s) by (destruct s; [done|zlia]).
  unfold rfc1738_encode_string, rfc1738_encode, guard.
  rewrite !(proj2 (Z.ltb_lt _ _)) by lia. cbn [res_bind].
  unfold zlen at 1. rewrite Nat2Z.id. unfold cstr.
  pose proof (encode_loop_fits s [] d [Some 0] Hs) as Hloop.
  change (zlen []) with 0 in Hloop. cbn [app] in Hloop. rewrite Hloop by lia. cbn [res_bind].
  rewrite ldc_head. cbn [res_bind Z.eqb negb]. rewrite Z.add_0_l.
  destruct (drop (length (escape s)) d) as [|x rest] eqn:Hd.
  { apply (f_equal length) in Hd. rewrite length_drop in Hd. simpl in Hd. unfold zlen in *. lia. }
  rewrite stc_app by (by rewrite zlen_fmap). cbn [res_bind]. unfold terminate. simpl.
  destruct (Z.eqb_spec (zlen (escape s)) 0); [lia|].
  destruct (Z.eqb_spec (zlen (escape s)) (zlen d)); [lia|].
  rewrite stc_app by (by rewrite zlen_fmap). simpl.
  eexists. split; [done|]. apply str_at_cstr. by apply escape_chars.
Qed.

(** [rfc1738_encode_string] on a non-empty string, by the size of the
    destination: with room for the encoding and a terminator it stores exactly
    the reference encoding and returns its length; when the encoding fills the
    destination to the last byte it stores the terminator outside the
    destination; with less room it returns 0 and [ENOSPC]. *)
Theorem rfc1738_encode_cases s d :
  Forall is_char s -> s <> [] -> 0 < zlen d ->
  (zlen (escape s) < zlen d -> exists d',
     rfc1738_encode_string d (zlen d) s = Ret (mk_outcome (zlen (escape s)) None d') /\
     str_at d' = Ret (escape s)) /\
  (zlen (escape s) = zlen d -> rfc1738_encode_string d (zlen d) s = Fault OutOfBounds) /\
  (zlen d < zlen (escape s) -> exists d',
     rfc1738_encode_string d (zlen d) s = Ret (mk_outcome 0 (Some ENOSPC) d')).
Proof.
  intros Hs Hne Hd. split; [by apply encode_string_fits|].
  assert (0 < zlen s) by (destruct s; [done|zlia]).
  unfold rfc1738_encode_string, rfc1738_encode, guard.
  rewrite !(proj2 (Z.ltb_lt _ _)) by lia. cbn [res_bind].
  replace (Z.to_nat (zlen s)) with (length s) by (unfold zlen; lia). unfold cstr.
  split; intros Hlen.
  - pose proof (encode_loop_fits s [] d [Some 0] Hs) as Hloop.
    change (zlen []) with 0 in Hloop. cbn [app] in Hloop. rewrite Hloop by lia. cbn [res_bind].
    rewrite ldc_head. cbn [res_bind Z.eqb negb]. unfold stc, wr.
    rewrite (proj2 (andb_false_iff _ _)); [done|]. right. apply Z.leb_gt.
    rewrite Z.add_0_l, zlen_app, zlen_fmap, zlen_drop by (unfold zlen in *; lia).
    unfold zlen in *. simpl. lia.
  - pose proof (encode_loop_short s [] d [Some 0] Hs Hlen) as Hloop.
    change (zlen []) with 0 in Hloop. cbn [app] in Hloop.
    apply wpr_eq in Hloop as (r & -> & Hr). cbn [res_bind]. destruct r as [e|[[d' sz] src]].
    + destruct Hr as [Hv He]. cbn [res_bind]. unfold terminate. rewrite Hv, He. simpl. by eexists.
    + destruct Hr as (c & src' & -> & Hc). rewrite ldc_head. cbn [res_bind].
      rewrite is_char_nonzero by done. simpl. by eexists.
Qed.

Lemma rfc1738_encode_cases_witness :
  let s := bytes "a b" in
  let d := replicate 5 (None : cell) in
  (zlen (escape s) < 5 -> exists d',
     rfc1738_encode_string d 5 s = Ret (mk_outcome (zlen (escape s)) None d') /\
     str_at d' = Ret (escape s)) /\
  (zlen (escape s) = 5 -> rfc1738_encode_string d 5 s = Fault OutOfBounds) /\
  (5 < zlen (escape s) -> exists d',
     rfc1738_encode_string d 5 s = Ret (mk_outcome 0 (Some ENOSPC) d')).
Proof.
  apply (rfc1738_encode_cases (bytes "a b") (replicate 5 (None : cell)));
    [by decide_closed | done | done].
Defined.

Lemma rfc1738_decode_spec s d :
  Forall is_char s -> zlen s <= PTRDIFF_MAX ->
  wpr (rfc1738_decode d (zlen d) (cstr s) (zlen s)) (fun r =>
    match unescape s with
    | Some t =>
        if zlen t <? zlen d
        then value r = zlen t /\ err r = None /\
             exists junk, dest r = (Some <$> t) ++ Some 0 :: junk
        else value r = 0 /\ err r = Some ENOSPC
    | None => value r = 0 /\ is_Some (err r)
    end).
Proof.
  intros Hs Hmax. unfold rfc1738_decode. unfold zlen at 1. rewrite Nat2Z.id. wp.
  eapply wpr_mono; [by apply (decode_loop_spec d s [] [])|].
  intros [e|[[d' sz] room]] Hdec; simpl in Hdec; wp.
  { destruct Hdec as (-> & -> & ->). by eauto. }
  destruct Hdec as [[-> Hall]|(t & -> & Hlen & -> & ->)].
  - simpl. destruct (unescape s) as [t|]; [|by eauto].
    specialize (Hall t eq_refl). destruct (Z.ltb_spec (zlen t) (zlen d)); [unfold zlen in *; lia|done].
  - destruct (Z.ltb_spec (zlen t) (zlen d)), (Z.eqb_spec (Z.of_nat room) 0);
      try (unfold zlen in *; lia); [|done].
    destruct (drop (length t) d) as [|x rest] eqn:Hd.
    { apply (f_equal length) in Hd. rewrite length_drop in Hd. simpl in Hd. lia. }
    wp. change (zlen []) with 0. rewrite Z.add_0_l, stc_app by (by rewrite zlen_fmap).
    wp. by eauto.
Qed.

(** Text with complete escapes is decoded whatever follows it in memory. *)
Lemma decode_loop_fits rest s t pre tail :
  Forall is_char s -> zlen s <= PTRDIFF_MAX -> unescape s = Some t -> (length t < length rest)%nat ->
  decode_loop (length rest) (pre ++ rest) (zlen pre) ((Some <$> s) ++ tail) (zlen s)
    = Ret (inr (pre ++ (Some <$> t) ++ drop (length t) rest, zlen pre + zlen t,
                (length rest - length t)%nat)).
Proof.
  revert s t pre. induction rest as [|c0 rest IH]; intros s t pre Hs Hmax Ht Hlen; [simpl in Hlen; lia|].
  cbn [length decode_loop]. destruct Hs as [|c s Hc Hs].
  { injection Ht as <-. change (0 <? zlen []) with false. simpl. do 4 f_equal. zlia. }
  rewrite fmap_cons. cbn [app]. destruct (Z.ltb_spec 0 (zlen (c :: s))); [|zlia].
  rewrite ldc_head. cbn [res_bind]. unfold PTRDIFF_MAX in *.
  assert (forall x s', unescape (c :: s) = cons x <$> unescape s' -> Forall is_char s' ->
    zlen s' <= zlen (c :: s) ->
    (let+ d := stc (pre ++ c0 :: rest) (zlen pre) x in
     decode_loop (length rest) d (zlen pre + 1) ((Some <$> s') ++ tail) (zlen s'))
    = Ret (inr (pre ++ (Some <$> t) ++ drop (length t) (c0 :: rest), zlen pre + zlen t,
                (S (length rest) - length t)%nat))) as Hrec.
  { intros x s' Hun Hs' Hle. rewrite Ht in Hun. destruct (unescape s') as [t'|] eqn:Ht'; [|done].
    injection Hun as ->. rewrite stc_app by done. cbn [res_bind].
    replace (zlen pre + 1) with (zlen (pre ++ [Some x])) by zlia.
    replace (pre ++ Some x :: rest) with ((pre ++ [Some x]) ++ rest) by (by rewrite <-app_assoc).
    rewrite (IH s' t') by (done || lia || (simpl in Hlen; lia)).
    rewrite <-app_assoc. cbn [app length drop fmap list_fmap]. do 4 f_equal. zlia. }
  cbn [unescape] in Hrec, Ht. destruct (Z.eqb_spec c 37) as [->|Hne].
  - destruct s as [|x [|y s]]; [done..|].
    rewrite !fmap_cons. cbn [app]. rewrite decode_spec by done. cbn [res_bind].
    destruct ((hexchar2int x =? -1) || (hexchar2int y =? -1)) eqn:Hbad; [done|].
    apply orb_false_elim in Hbad as [Hx Hy].
    pose proof (hexchar2int_range x). pose proof (hexchar2int_range y). zreflect.
    destruct (Z.eqb_spec (16 * hexchar2int x + hexchar2int y) (-1)); [lia|].
    change (drop 3 (Some 37 :: Some x :: Some y :: (Some <$> s) ++ tail)) with ((Some <$> s) ++ tail).
    replace (u64 (u64 (zlen (37 :: x :: y :: s) - 2) - 1)) with (zlen s)
      by (rewrite (u64_small (_ - 2)) by zlia; rewrite u64_small by zlia; zlia).
    apply Forall_cons_iff in Hs as [_ Hs]. apply Forall_cons_iff in Hs as [_ Hs].
    apply Hrec; [done|done|zlia].
  - change (drop 1 (Some c :: (Some <$> s) ++ tail)) with ((Some <$> s) ++ tail).
    replace (zlen (c :: s) - 1) with (zlen s) by zlia.
    apply Hrec; [done|done|zlia].
Qed.

Lemma rfc1738_decode_fits s t d tail :
  Forall is_char s -> zlen s <= PTRDIFF_MAX -> unescape s = Some t -> zlen t < zlen d ->
  rfc1738_decode d (zlen d) ((Some <$> s) ++ tail) (zlen s)
    = Ret (mk_outcome (zlen t) None ((Some <$> t) ++ Some 0 :: drop (S (length t)) d)).
Proof.
  intros Hs Hmax Ht Hfit. unfold rfc1738_decode. unfold zlen at 1. rewrite Nat2Z.id.
  pose proof (decode_loop_fits d s t [] tail Hs Hmax Ht) as HL. change (zlen []) with 0 in HL.
  cbn [app] in HL. rewrite HL by (unfold zlen in Hfit; lia). cbn [res_bind].
  rewrite (proj2 (Z.eqb_neq _ _)) by (unfold zlen in Hfit; lia).
  destruct (drop (length t) d) as [|x rest] eqn:Hd.
  { apply (f_equal length) in Hd. rewrite length_drop in Hd. unfold zlen in Hfit. simpl in Hd. lia. }
  rewrite Z.add_0_l, stc_app by (by rewrite zlen_fmap). cbn [res_bind].
  rewrite <-Nat.add_1_r, <-drop_drop, Hd. done.
Qed.

Lemma decode_string_fits s t d :
  Forall is_char s -> zlen s <= PTRDIFF_MAX -> unescape s = Some t -> t <> [] ->
  zlen t < zlen d ->
  exists junk, rfc1738_decode_string d (zlen d) s
    = Ret (mk_outcome (zlen t) None ((Some <$> t) ++ Some 0 :: junk)).
Proof.
  intros Hs Hmax Ht Hne Hfit. unfold rfc1738_decode_string.
  pose proof (rfc1738_decode_spec s d Hs Hmax) as Hdec.
  apply wpr_eq in Hdec as (r & -> & Hr). rewrite Ht in Hr.
  rewrite (proj2 (Z.ltb_lt _ _) Hfit) in Hr. destruct Hr as (Hv & He & junk & Hd).
  cbn [res_bind]. unfold terminate. rewrite Hv, He, Hd.
  assert (0 < zlen t) by (destruct t; [done|zlia]).
  destruct (Z.eqb_spec (zlen t) 0); [lia|]. destruct (Z.eqb_spec (zlen t) (zlen d)); [lia|].
  rewrite stc_app by (by rewrite zlen_fmap). by eexists.
Qed.

(** C33. For every non-empty string, encoding it into a destination with room
    and decoding the text found there into a second one with room gives the
    string back, with its length and a terminator. *)
Theorem rfc1738_roundtrip s d1 d2 :
  Forall is_char s -> s <> [] -> zlen (escape s) <= PTRDIFF_MAX ->
  zlen (escape s) < zlen d1 -> zlen s < zlen d2 ->
  exists r1 e r2,
    rfc1738_encode_string d1 (zlen d1) s = Ret r1 /\ str_at (dest r1) = Ret e /\
    rfc1738_decode_string d2 (zlen d2) e = Ret r2 /\
    value r2 = zlen s /\ err r2 = None /\ str_at (dest r2) = Ret s.
Proof.
  intros Hs Hne Hmax H1 H2.
  destruct (encode_string_fits s d1 Hs Hne H1) as (d' & Henc & Hat).
  destruct (decode_string_fits (escape s) s d2) as [junk Hdec];
    [by apply escape_chars|done|by apply unescape_escape|done|done|].
  eexists _, (escape s), _. split; [exact Henc|]. split; [done|]. split; [exact Hdec|].
  split; [done|]. split; [done|]. by apply str_at_cstr.
Qed.

Lemma rfc1738_roundtrip_witness :
  let s := bytes "q=x y/%" in
  let d1 := replicate 32 (None : cell) in
  let d2 := replicate 8 (None : cell) in
  exists r1 e r2,
    rfc1738_encode_string d1 32 s = Ret r1 /\ str_at (dest r1) = Ret e /\
    rfc1738_decode_string d2 8 e = Ret r2 /\
    value r2 = zlen s /\ err r2 = None /\ str_at (dest r2) = Ret s.
Proof.
  apply (rfc1738_roundtrip (bytes "q=x y/%") (replicate 32 (None : cell)) (replicate 8 (None : cell)));
    [by decide_closed | done | by vm_compute | by vm_compute | by vm_compute].
Defined.

(** [rfc1738_decode_string] on any string, legal or not, never leaves its
    buffers; an illegal escape is reported as an error with value 0, a result
    that does not fit with its terminator as [ENOSPC], and any other string
    decodes to the reference decoding. *)
Theorem rfc1738_decode_total s d :
  Forall is_char s -> zlen s <= PTRDIFF_MAX ->
  wpr (rfc1738_decode_string d (zlen d) s) (fun r =>
    match unescape s with
    | Some t =>
        if zlen t <? zlen d
        then value r = zlen t /\ err r = None /\
             exists junk, dest r = (Some <$> t) ++ Some 0 :: junk
        else value r = 0 /\ err r = Some ENOSPC
    | None => value r = 0 /\ is_Some (err r)
    end).
Proof.
  intros Hs Hmax. unfold rfc1738_decode_string. wp.
  eapply wpr_mono; [by apply rfc1738_decode_spec|]. intros r Hr. unfold terminate.
  destruct (unescape s) as [t|].
  - destruct (Z.ltb_spec (zlen t) (zlen d)).
    + destruct Hr as (Hv & He & junk & Hd). rewrite Hv, He, Hd.
      destruct (Z.eqb_spec (zlen t) 0) as [H0|]; [wp; simpl; rewrite H0; eauto|].
      destruct (Z.eqb_spec (zlen t) (zlen d)); [lia|].
      wp. rewrite stc_app by (by rewrite zlen_fmap). wp. by eauto.
    + destruct Hr as [-> ->]. by wp.
  - destruct Hr as [-> ?]. by wp.
Qed.

Lemma rfc1738_decode_total_witness :
  wpr (rfc1738_decode_string (replicate 8 None) 8 (bytes "a%2g")) (fun r =>
    value r = 0 /\ is_Some (err r)).
Proof.
  apply (rfc1738_decode_total (bytes "a%2g") (replicate 8 (None : cell)));
    [by decide_closed | by vm_compute].
Defined.
