(* ===== verification/Convert.v ===== *)
(** Strings to numbers, meta/src/meta_convert.c and meta/src/meta_convert.h.

    [strtol], [strtoul] and [strtoull] of the C library are written out
    ([scan_int] and the three functions on top of it); each conversion of the
    component is a definition whose result is the number stored through the
    pointer or the value of [errno] after the failure.  [decimal] prints a
    number the way [%ld] does; it serves the round trips here and in the JSON
    files.  The floating-point conversions are not modelled. *)

From Stdlib Require Import ZArith Lia.
From stdpp Require Import base list numbers.
From S2P Require Import Prelude.

Definition LONG_MIN : Z := - 2 ^ 63.
Definition LONG_MAX : Z := 2 ^ 63 - 1.
Definition ULONG_MAX : Z := 2 ^ 64 - 1.
Definition UINT_MAX : Z := 2 ^ 32 - 1.
Definition UINT16_MAX : Z := 2 ^ 16 - 1.

(** * The C library's scanners *)

Definition digit_value (c : Z) : Z :=
  if in_range 48 57 c then c - 48
  else if in_range 97 122 c then c - 87
  else if in_range 65 90 c then c - 55
  else 255.

Definition is_digit (base c : Z) : bool := digit_value c <? base.

Definition digits_value (base : Z) (ds : list Z) : Z :=
  fold_left (fun v c => base * v + digit_value c) ds 0.

(** An optional sign: negative or not, and the number of characters. *)
Definition scan_sign (t : list Z) : bool * nat :=
  match t with
  | c :: _ => if c =? ch "-" then (true, 1%nat)
              else if c =? ch "+" then (false, 1%nat) else (false, 0%nat)
  | [] => (false, 0%nat)
  end.

(** In base 16 a prefix [0x] counts when a digit follows it. *)
Definition scan_prefix (base : Z) (t : list Z) : nat :=
  match t with
  | z :: x :: d :: _ =>
      if (base =? 16) && (z =? ch "0") && ((x =? ch "x") || (x =? ch "X")) && is_digit base d
      then 2%nat else 0%nat
  | _ => 0%nat
  end.

(** Sign, magnitude and number of characters used; the number is 0 when there
    is no digit, which leaves [endp] at the start. *)
Definition scan_int (base : Z) (s : list Z) : bool * Z * nat :=
  let ws := span_len isspace s in
  let t := drop ws s in
  let '(neg, sign) := scan_sign t in
  let t := drop sign t in
  let prefix := scan_prefix base t in
  let t := drop prefix t in
  let n := span_len (is_digit base) t in
  if (n =? 0)%nat then (neg, 0, 0%nat)
  else (neg, digits_value base (take n t), (ws + sign + prefix + n)%nat).

(** Result, [errno] if it was set, characters used. *)
Definition strtol (base : Z) (s : list Z) : Z * option errno * nat :=
  let '(neg, v, used) := scan_int base s in
  let v := if neg then - v else v in
  if v <? LONG_MIN then (LONG_MIN, Some ERANGE, used)
  else if LONG_MAX <? v then (LONG_MAX, Some ERANGE, used)
  else (v, None, used).

(** [strtoul] and [strtoull] are the same function on the 64-bit targets. *)
Definition strtoul (base : Z) (s : list Z) : Z * option errno * nat :=
  let '(neg, v, used) := scan_int base s in
  if ULONG_MAX <? v then (ULONG_MAX, Some ERANGE, used)
  else ((if neg then u64 (- v) else v), None, used).

(** * The conversions *)

(** Failure with the value [errno] is left with, or the number. *)
Definition conv : Type := errno + Z.

Definition errno_is (e : option errno) (x : errno) : bool :=
  match e, x with
  | Some ERANGE, ERANGE | Some EINVAL, EINVAL => true
  | _, _ => false
  end.

(** The checks that follow the call: nothing converted, trailing characters. *)
Definition check_end (s : list Z) (used : nat) (r : conv) : conv :=
  if (used =? 0)%nat then inl EINVAL
  else if (used <? length s)%nat then inl EINVAL
  else r.

Definition tolong (s : list Z) : conv :=
  let '(r, e, used) := strtol 10 s in
  if (r =? LONG_MIN) && errno_is e ERANGE then inl ERANGE
  else if (r =? LONG_MAX) && errno_is e ERANGE then inl ERANGE
  else if (r =? 0) && errno_is e EINVAL then inl EINVAL
  else check_end s used (inr r).

Definition toulong (s : list Z) : conv :=
  let '(r, e, used) := strtoul 10 s in
  if (r =? ULONG_MAX) && errno_is e ERANGE then inl ERANGE
  else if (r =? 0) && errno_is e EINVAL then inl EINVAL
  else check_end s used (inr r).

(** [*src == '-'] *)
Definition starts_minus (s : list Z) : bool :=
  match s with c :: _ => c =? ch "-" | [] => false end.

Definition tosize_base (base : Z) (s : list Z) : conv :=
  if starts_minus s then inl EINVAL
  else
    let '(r, e, used) := strtoul base s in
    if (r =? ULONG_MAX) && errno_is e ERANGE then inl ERANGE
    else if (r =? 0) && errno_is e EINVAL then inl EINVAL
    else check_end s used (if SIZE_MAX <? r then inl ERANGE else inr r).

Definition tosize_t (s : list Z) : conv := tosize_base 10 s.
Definition hextosize_t (s : list Z) : conv := tosize_base 16 s.

(** [if (!wide(src, &res)) return failure; if (res is out of range) ...] *)
Definition narrow (lo hi : Z) (r : conv) : conv :=
  match r with
  | inl e => inl e
  | inr v => if (v <? lo) || (hi <? v) then inl ERANGE else inr v
  end.

Definition toint (s : list Z) : conv := narrow INT_MIN INT_MAX (tolong s).
Definition touint (s : list Z) : conv := narrow 0 UINT_MAX (toulong s).
Definition touint16_t (s : list Z) : conv := narrow 0 UINT16_MAX (touint s).

Definition converts (r : conv) : bool := match r with inr _ => true | inl _ => false end.

Definition isint (s : list Z) : bool := converts (toint s).
Definition isuint (s : list Z) : bool := converts (touint s).
Definition isuint16_t (s : list Z) : bool := converts (touint16_t s).
Definition issize_t (s : list Z) : bool := converts (tosize_t s).
Definition islong (s : list Z) : bool := converts (tolong s).
Definition isulong (s : list Z) : bool := converts (toulong s).

(** * Decimal notation *)

Fixpoint decimal_loop (fuel : nat) (n : Z) (acc : list Z) : list Z :=
  let acc := (48 + n mod 10) :: acc in
  match fuel with
  | O => acc
  | S fuel => if n <? 10 then acc else decimal_loop fuel (n / 10) acc
  end.

(** The digits of [n >= 0], most significant first; a number has at most as
    many decimal as binary digits. *)
Definition decimal_nat (n : Z) : list Z := decimal_loop (Z.to_nat (Z.log2 n)) n [].

Definition decimal (n : Z) : list Z :=
  if n <? 0 then ch "-" :: decimal_nat (- n) else decimal_nat n.

(** * Lemmas *)

(** The texts the scanners read as a number in base 10. *)
Inductive sign_text : bool -> list Z -> Prop :=
| sign_none : sign_text false []
| sign_plus : sign_text false [ch "+"]
| sign_minus : sign_text true [ch "-"].

Definition spaces (ws : list Z) : Prop := Forall (fun c => isspace c = true) ws.
Definition digits (ds : list Z) : Prop := Forall (fun c => isdigit c = true) ds.

Definition signed (neg : bool) (v : Z) : Z := if neg then - v else v.

Lemma span_len_app p l r :
  Forall (fun c => p c = true) l ->
  match r with c :: _ => p c = false | [] => True end ->
  span_len p (l ++ r) = length l.
Proof.
  induction 1 as [|c l Hc _ IH]; intros Hr; simpl.
  - destruct r as [|c r]; simpl; [done|]. by rewrite Hr.
  - rewrite Hc, IH; done.
Qed.

Lemma is_digit_10 c : is_digit 10 c = isdigit c.
Proof.
  unfold is_digit, digit_value, isdigit, in_range.
  destruct (Z.leb_spec 48 c), (Z.leb_spec c 57); simpl; [apply Z.ltb_lt; lia|..];
    apply Z.ltb_ge; repeat (zcase; simpl); lia.
Qed.

Lemma digit_not_space c : isdigit c = true -> isspace c = false.
Proof. unfold isdigit, isspace, in_range. intros H. zreflect. repeat (zcase; simpl); try lia; done. Qed.

Lemma digits_is_digit ds : digits ds <-> Forall (fun c => is_digit 10 c = true) ds.
Proof. unfold digits. split; apply Forall_impl; intros c; by rewrite is_digit_10. Qed.

Lemma scan_prefix_10 t : scan_prefix 10 t = 0%nat.
Proof. by destruct t as [|? [|? [|? ?]]]. Qed.

Lemma scan_sign_text neg sg d t :
  sign_text neg sg -> isdigit d = true -> scan_sign (sg ++ d :: t) = (neg, length sg).
Proof.
  intros [] Hd; [|done..]. unfold isdigit, in_range in Hd. zreflect. simpl.
  repeat zcase; try lia; done.
Qed.

Lemma scan_int_text neg ws sg ds rest :
  spaces ws -> sign_text neg sg -> digits ds -> ds <> [] ->
  match rest with c :: _ => isdigit c = false | [] => True end ->
  scan_int 10 (ws ++ sg ++ ds ++ rest)
  = (neg, digits_value 10 ds, (length ws + length sg + length ds)%nat).
Proof.
  intros Hws Hsg Hds Hne Hrest. destruct ds as [|d ds]; [done|].
  assert (isdigit d = true) as Hd by (by apply Forall_cons_iff in Hds as [? _]).
  unfold scan_int.
  rewrite span_len_app;
    [ | done | destruct Hsg; simpl; [by apply digit_not_space | done | done]].
  rewrite drop_app_length. change ((d :: ds) ++ rest) with (d :: (ds ++ rest)).
  rewrite (scan_sign_text neg) by done.
  change (d :: (ds ++ rest)) with ((d :: ds) ++ rest).
  rewrite drop_app_length, scan_prefix_10, drop_0, span_len_app.
  - rewrite take_app_length. simpl Nat.eqb. cbv iota. f_equal. lia.
  - by apply digits_is_digit.
  - destruct rest; [done|]. by rewrite is_digit_10.
Qed.

(** Whatever is read has that shape. *)
Lemma scan_int_inv s neg v used :
  scan_int 10 s = (neg, v, used) -> used <> 0%nat ->
  exists ws sg ds rest, s = ws ++ sg ++ ds ++ rest /\ spaces ws /\ sign_text neg sg
    /\ digits ds /\ ds <> [] /\ v = digits_value 10 ds
    /\ used = (length ws + length sg + length ds)%nat.
Proof.
  unfold scan_int. set (w := span_len isspace s). set (t := drop w s).
  destruct (scan_sign t) as [ng sl] eqn:Hs.
  rewrite scan_prefix_10, drop_0. set (n := span_len _ (drop sl t)).
  destruct (Nat.eqb_spec n 0); intros [= -> <- <-] Hu; [done|].
  exists (take w s), (take sl t), (take n (drop sl t)), (drop n (drop sl t)).
  assert (w <= length s /\ n <= length (drop sl t))%nat as [Hw Hn]
    by (split; apply span_len_le).
  assert (sl <= length t /\ sign_text neg (take sl t))%nat as [Hsl Hsg].
  { unfold scan_sign in Hs. destruct t as [|c t']; [injection Hs as <- <-; split; [done | constructor]|].
    destruct (Z.eqb_spec c 45) as [->|]; [|destruct (Z.eqb_spec c 43) as [->|]];
      injection Hs as <- <-; simpl; (split; [lia | constructor]). }
  rewrite !take_drop. split; [symmetry; apply take_drop|].
  split; [apply span_len_take|]. split; [done|].
  split; [apply digits_is_digit, span_len_take|].
  rewrite !length_take, !Nat.min_l by lia.
  split; [|split; [done | lia]].
  intros E%(f_equal length). rewrite length_take in E. simpl in E. lia.
Qed.

(** What the two scanners compute from such a text, and which texts pass
    [check_end]. *)
Definition number_text (s : list Z) (neg : bool) (v : Z) : Prop :=
  exists ws sg ds, s = ws ++ sg ++ ds /\ spaces ws /\ sign_text neg sg
    /\ digits ds /\ ds <> [] /\ v = digits_value 10 ds.

Lemma scan_int_number s neg v :
  number_text s neg v -> scan_int 10 s = (neg, v, length s) /\ length s <> 0%nat.
Proof.
  intros (ws & sg & ds & -> & ? & ? & ? & ? & ->).
  rewrite <-(app_nil_r ds) at 1. rewrite (scan_int_text neg) by done.
  rewrite !length_app. destruct ds; [done|]. simpl. split; [f_equal|]; lia.
Qed.

Lemma number_scan_int s neg v :
  scan_int 10 s = (neg, v, length s) -> length s <> 0%nat -> number_text s neg v.
Proof.
  intros H Hs. apply scan_int_inv in H as (ws & sg & ds & rest & -> & ? & ? & ? & ? & -> & Hl);
    [|done].
  rewrite !length_app in Hl. destruct rest; [|simpl in Hl; lia].
  exists ws, sg, ds. by rewrite app_nil_r.
Qed.

Lemma check_end_full s used r v :
  check_end s used r = inr v -> used <> 0%nat /\ (length s <= used)%nat /\ r = inr v.
Proof.
  unfold check_end. destruct (Nat.eqb_spec used 0); [done|].
  destruct (Nat.ltb_spec used (length s)); done.
Qed.

Lemma check_end_length s r :
  length s <> 0%nat -> check_end s (length s) r = r.
Proof.
  intros. unfold check_end. destruct (Nat.eqb_spec (length s) 0); [done|].
  by rewrite Nat.ltb_irrefl.
Qed.

Lemma scan_int_used s neg v used :
  scan_int 10 s = (neg, v, used) -> (used <= length s)%nat.
Proof.
  intros H. destruct (decide (used = 0%nat)) as [->|Hu]; [lia|].
  destruct (scan_int_inv _ _ _ _ H Hu) as (ws & sg & ds & rest & -> & _ & _ & _ & _ & _ & ->).
  rewrite !length_app. lia.
Qed.

Lemma scan_full s neg v used :
  scan_int 10 s = (neg, v, used) -> used <> 0%nat -> (length s <= used)%nat ->
  number_text s neg v.
Proof.
  intros H Hu Hl. pose proof (scan_int_used _ _ _ _ H).
  assert (used = length s) as -> by lia. by apply number_scan_int.
Qed.

Lemma tolong_iff s r :
  tolong s = inr r <->
  exists neg v, number_text s neg v /\ r = signed neg v /\ LONG_MIN <= r <= LONG_MAX.
Proof.
  unfold tolong, strtol. split.
  - destruct (scan_int 10 s) as [[neg v] used] eqn:Hs. fold (signed neg v).
    zcase; [done|]. zcase; [done|]. simpl. rewrite !andb_false_r.
    intros (Hu & Hl & [= <-])%check_end_full.
    exists neg, v. split; [by eapply scan_full|]. split; [done | lia].
  - intros (neg & v & Hn & -> & Hr).
    destruct (scan_int_number _ _ _ Hn) as [-> Hl]. fold (signed neg v).
    do 2 (zcase; [lia|]). simpl. rewrite !andb_false_r. by apply check_end_length.
Qed.

Lemma narrow_iff lo hi r v :
  narrow lo hi r = inr v <-> r = inr v /\ lo <= v <= hi.
Proof.
  unfold narrow. destruct r as [e|x]; [naive_solver|].
  destruct (Z.ltb_spec x lo), (Z.ltb_spec hi x); simpl;
    (split; [intros E; simplify_eq; lia || done | intros [E ?]; simplify_eq; lia || done]).
Qed.

Lemma digits_value_app base a b :
  digits_value base (a ++ b) = fold_left (fun v c => base * v + digit_value c) b (digits_value base a).
Proof. apply fold_left_app. Qed.

Lemma isdigit_value c : isdigit c = true -> 0 <= digit_value c <= 9.
Proof. unfold digit_value, isdigit. intros H. rewrite H. unfold in_range in H. zreflect. lia. Qed.

Lemma digits_value_nonneg ds : digits ds -> 0 <= digits_value 10 ds.
Proof.
  induction ds as [|d ds IH] using rev_ind; intros Hd; [done|].
  apply Forall_app in Hd as [Hd Hx]. apply Forall_cons_iff in Hx as [Hx _].
  rewrite digits_value_app. cbn [fold_left].
  apply isdigit_value in Hx. specialize (IH Hd). lia.
Qed.

Lemma number_text_nonneg s neg v : number_text s neg v -> 0 <= v.
Proof. intros (ws & sg & ds & _ & _ & _ & Hd & _ & ->). by apply digits_value_nonneg. Qed.

Lemma toulong_iff s r :
  toulong s = inr r <->
  exists neg v, number_text s neg v /\ v <= ULONG_MAX /\ r = u64 (signed neg v).
Proof.
  unfold toulong, strtoul. split.
  - destruct (scan_int 10 s) as [[neg v] used] eqn:Hs.
    zcase; [done|]. simpl. rewrite !andb_false_r.
    intros (Hu & Hl & [= <-])%check_end_full.
    assert (number_text s neg v) as Hn by (by eapply scan_full).
    exists neg, v. split; [done|]. split; [done|].
    pose proof (number_text_nonneg _ _ _ Hn).
    destruct neg; simpl; [done|]. rewrite u64_small; [done|]. unfold ULONG_MAX in *. lia.
  - intros (neg & v & Hn & Hv & ->). pose proof (number_text_nonneg _ _ _ Hn).
    destruct (scan_int_number _ _ _ Hn) as [-> Hl].
    zcase; [lia|]. simpl. rewrite !andb_false_r, check_end_length by done.
    destruct neg; simpl; [done|]. rewrite u64_small; [done|]. unfold ULONG_MAX in *. lia.
Qed.

Lemma tosize_t_guarded s : starts_minus s = false -> tosize_t s = toulong s.
Proof.
  intros Hm. unfold tosize_t, tosize_base, toulong. rewrite Hm.
  unfold strtoul. destruct (scan_int 10 s) as [[neg v] used] eqn:Hs.
  zcase; [done|]. simpl. rewrite !andb_false_r. f_equal.
  assert (0 <= v).
  { destruct (decide (used = 0%nat)) as [->|Hu].
    - unfold scan_int in Hs. destruct (scan_sign _). case_match; simplify_eq; [lia|].
      rewrite Nat.eqb_neq in *. lia.
    - destruct (scan_int_inv _ _ _ _ Hs Hu) as (? & ? & ? & ? & _ & _ & _ & ? & _ & -> & _).
      by apply digits_value_nonneg. }
  pose proof (u64_range (- v)). unfold SIZE_MAX, ULONG_MAX in *.
  zcase; [destruct neg; lia | done].
Qed.

Lemma digits_decimal_loop fuel n acc :
  0 <= n -> digits acc -> digits (decimal_loop fuel n acc).
Proof.
  revert n acc. induction fuel as [|fuel IH]; intros n acc Hn Hacc; simpl.
  all: assert (isdigit (48 + n mod 10) = true)
    by (unfold isdigit, in_range; pose proof (Z.mod_pos_bound n 10); bool_side).
  - by constructor.
  - zcase; [by constructor|]. apply IH; [apply Z.div_pos; lia | by constructor].
Qed.

Lemma decimal_loop_ne fuel n acc : decimal_loop fuel n acc <> [].
Proof. revert n acc. induction fuel; intros; simpl; [done|]. zcase; [done | auto]. Qed.

Lemma digit_value_mod n : digit_value (48 + n mod 10) = n mod 10.
Proof.
  pose proof (Z.mod_pos_bound n 10). unfold digit_value, in_range.
  repeat (zcase; simpl); lia.
Qed.

(** The fuel: a number has at most as many decimal digits after the first as it
    has binary ones. *)
Lemma decimal_loop_value fuel n acc :
  0 <= n -> (n < 10 \/ Z.log2 n <= Z.of_nat fuel) ->
  digits_value 10 (decimal_loop fuel n acc)
  = fold_left (fun v c => 10 * v + digit_value c) acc n.
Proof.
  revert n acc. induction fuel as [|fuel IH]; intros n acc Hn Hf; cbn [decimal_loop].
  - assert (n < 10).
    { destruct Hf as [|Hf]; [lia|]. pose proof (Z.log2_spec n). 
      destruct (Z.eq_dec n 0); [lia|]. pose proof (Z.log2_nonneg n).
      assert (Z.log2 n = 0) as E by lia. rewrite E in *. lia. }
    unfold digits_value. cbn [fold_left]. by rewrite digit_value_mod, Z.mod_small by lia.
  - zcase.
    + unfold digits_value. cbn [fold_left]. by rewrite digit_value_mod, Z.mod_small by lia.
    + rewrite IH; [|apply Z.div_pos; lia|].
      * cbn [fold_left]. rewrite digit_value_mod. f_equal. pose proof (Z.div_mod n 10). lia.
      * destruct (Z.lt_ge_cases (n / 10) 10); [by left|right].
        destruct Hf as [|Hf]; [lia|].
        assert (Z.log2 (n / 10) <= Z.log2 (n / 2)) as Hle.
        { apply Z.log2_le_mono. apply Z.div_le_compat_l; lia. }
        change 2 with (2 ^ 1) in Hle at 1. rewrite <-Z.shiftr_div_pow2, Z.log2_shiftr in Hle by lia.
        lia.
Qed.

Lemma decimal_nat_value n : 0 <= n -> digits_value 10 (decimal_nat n) = n.
Proof.
  intros. unfold decimal_nat. rewrite decimal_loop_value; [done | done | right].
  pose proof (Z.log2_nonneg n). lia.
Qed.

Lemma decimal_nat_digits n : 0 <= n -> digits (decimal_nat n).
Proof. intros. apply digits_decimal_loop; [done | constructor]. Qed.

Lemma decimal_loop_length fuel n acc :
  (length (decimal_loop fuel n acc) <= fuel + 1 + length acc)%nat.
Proof.
  revert n acc. induction fuel as [|fuel IH]; intros n acc; simpl; [lia|].
  zcase; simpl; [lia|]. etransitivity; [apply IH|]. simpl. lia.
Qed.

Lemma decimal_length n : LONG_MIN <= n <= LONG_MAX -> (length (decimal n) <= 65)%nat.
Proof.
  intros Hn. assert (forall m, 0 <= m <= 2 ^ 63 -> (length (decimal_nat m) <= 64)%nat) as H.
  { intros m Hm. unfold decimal_nat. etransitivity; [apply decimal_loop_length|]. simpl.
    assert (Z.log2 m <= 63); [|lia].
    transitivity (Z.log2 (2 ^ 63)); [apply Z.log2_le_mono; lia | done]. }
  unfold decimal, LONG_MIN, LONG_MAX in *. zcase; simpl; [specialize (H (- n))|specialize (H n)]; lia.
Qed.

Lemma decimal_nat_ne n : decimal_nat n <> [].
Proof. apply decimal_loop_ne. Qed.

Lemma decimal_number n : number_text (decimal n) (n <? 0) (Z.abs n).
Proof.
  unfold decimal. zcase;
    [exists [], [ch "-"], (decimal_nat (- n)) | exists [], [], (decimal_nat n)];
    (split; [reflexivity|]); (split; [by apply Forall_nil|]); (split; [constructor|]);
    (split; [apply decimal_nat_digits; lia|]); (split; [apply decimal_nat_ne|]);
    rewrite decimal_nat_value; lia.
Qed.

Lemma signed_abs n : signed (n <? 0) (Z.abs n) = n.
Proof. unfold signed. zcase; lia. Qed.

Lemma decimal_starts_minus n : 0 <= n -> starts_minus (decimal n) = false.
Proof.
  intros. unfold decimal. zcase; [lia|].
  assert (Hds : digits (decimal_nat n)) by (by apply decimal_nat_digits).
  pose proof (decimal_nat_ne n).
  destruct (decimal_nat n) as [|d ds]; [done|]. simpl.
  apply Forall_cons_iff in Hds as [Hd _]. unfold isdigit, in_range in Hd.
  zreflect. apply Z.eqb_neq. lia.
Qed.

Lemma decimal_inj a b : decimal a = decimal b -> a = b.
Proof.
  intros Heq. assert (Hsign : forall n, starts_minus (decimal n) = (n <? 0)).
  { intros n. destruct (Z.ltb_spec n 0); [|by apply decimal_starts_minus].
    unfold decimal. by rewrite (proj2 (Z.ltb_lt _ _)). }
  pose proof (Hsign a) as Ha. rewrite Heq, Hsign in Ha.
  unfold decimal in Heq. rewrite Ha in Heq. destruct (Z.ltb_spec a 0).
  - injection Heq as Heq. apply (f_equal (digits_value 10)) in Heq.
    rewrite !decimal_nat_value in Heq by (zreflect; lia). lia.
  - apply (f_equal (digits_value 10)) in Heq. rewrite !decimal_nat_value in Heq by (zreflect; lia). lia.
Qed.

Lemma toulong_decimal n : 0 <= n <= ULONG_MAX -> toulong (decimal n) = inr n.
Proof.
  intros. apply toulong_iff. exists (n <? 0), (Z.abs n).
  rewrite signed_abs. split; [apply decimal_number|].
  unfold ULONG_MAX in *. rewrite u64_small; lia.
Qed.

Lemma tosize_decimal n : 0 <= n <= ULONG_MAX -> tosize_t (decimal n) = inr n.
Proof.
  intros. rewrite tosize_t_guarded by (apply decimal_starts_minus; lia). by apply toulong_decimal.
Qed.

(** * Theorems *)

(** The signed conversions accept exactly the texts that are white space,
    an optional sign and decimal digits, nothing after them, whose value is in
    the range of the target type, and store that value. *)
Theorem signed_conversions s v :
  (tolong s = inr v <->
     exists neg a, number_text s neg a /\ v = signed neg a /\ LONG_MIN <= v <= LONG_MAX)
  /\ (toint s = inr v <->
     exists neg a, number_text s neg a /\ v = signed neg a /\ INT_MIN <= v <= INT_MAX).
Proof.
  split; [apply tolong_iff|]. unfold toint. rewrite narrow_iff, tolong_iff.
  split; [naive_solver|]. intros (neg & a & ? & ? & ?).
  unfold INT_MIN, INT_MAX, LONG_MIN, LONG_MAX in *. split; [|lia].
  exists neg, a. split; [done|]. split; [done | lia].
Qed.

(** What is printed in decimal is read back: by [tolong] and [toint] in the
    range of the type, by [toulong], [touint], [touint16_t] and [tosize_t] for
    the numbers of their range. *)
Theorem decimal_roundtrip n :
  (LONG_MIN <= n <= LONG_MAX -> tolong (decimal n) = inr n)
  /\ (INT_MIN <= n <= INT_MAX -> toint (decimal n) = inr n)
  /\ (0 <= n <= ULONG_MAX -> toulong (decimal n) = inr n /\ tosize_t (decimal n) = inr n)
  /\ (0 <= n <= UINT_MAX -> touint (decimal n) = inr n)
  /\ (0 <= n <= UINT16_MAX -> touint16_t (decimal n) = inr n).
Proof.
  assert (Hl : LONG_MIN <= n <= LONG_MAX -> tolong (decimal n) = inr n).
  { intros. apply tolong_iff. exists (n <? 0), (Z.abs n).
    rewrite signed_abs. split; [apply decimal_number | done]. }
  pose proof (toulong_decimal n) as Hu. pose proof (tosize_decimal n) as Hz.
  unfold LONG_MIN, LONG_MAX, ULONG_MAX, UINT_MAX, UINT16_MAX, INT_MIN, INT_MAX in *.
  split_and!; try done; unfold touint16_t, touint, toint; intros;
    rewrite ?narrow_iff; unfold INT_MIN, INT_MAX, UINT_MAX, UINT16_MAX; 
    try (split_and!; (lia || by (apply Hl || apply Hu); lia)).
  split; [apply Hu; lia|apply Hz; lia].
Qed.

Lemma decimal_roundtrip_witness :
  tolong (decimal (-9223372036854775808)) = inr (-9223372036854775808)
  /\ tosize_t (decimal 18446744073709551615) = inr 18446744073709551615
  /\ touint16_t (decimal 8080) = inr 8080.
Proof.
  destruct (decimal_roundtrip (-9223372036854775808)) as (H1 & _).
  destruct (decimal_roundtrip 18446744073709551615) as (_ & _ & H2 & _).
  destruct (decimal_roundtrip 8080) as (_ & _ & _ & _ & H3).
  split; [apply H1 | split; [apply H2 | apply H3]]; vm_compute; split; discriminate.
Defined.

(** The guard of [tosize_t] against negative numbers looks at the first
    character only: a minus sign at the start is refused, behind white space it
    is accepted and the size stored is the number modulo 2^64. *)
Theorem tosize_t_negative ws ds :
  spaces ws -> ws <> [] -> digits ds -> ds <> [] ->
  0 < digits_value 10 ds <= SIZE_MAX ->
  tosize_t (ch "-" :: ds) = inl EINVAL
  /\ tosize_t (ws ++ ch "-" :: ds) = inr (2 ^ 64 - digits_value 10 ds).
Proof.
  intros Hws Hne Hds Hdne Hv. split; [done|]. rewrite tosize_t_guarded.
  - apply toulong_iff. exists true, (digits_value 10 ds).
    unfold ULONG_MAX, SIZE_MAX in *. split_and!; [|lia|].
    + exists ws, [ch "-"], ds. split_and!; try done. constructor.
    + unfold signed, u64. rewrite <-(Z.mod_add _ 1), Z.mod_small; lia.
  - destruct ws as [|w ws]; [done|]. simpl. apply Forall_cons_iff in Hws as [Hw _].
    destruct (Z.eqb_spec w 45) as [->|]; done.
Qed.

Lemma tosize_t_negative_witness :
  tosize_t (bytes "-1") = inl EINVAL /\ tosize_t (bytes " -1") = inr 18446744073709551615.
Proof.
  apply (tosize_t_negative [32] [49]); try done; try (repeat constructor; fail).
Defined.
