(* ===== verification/JsonLex.v ===== *)
(** The JSON tokenizer, the first half of json/json.c.

    [lexer] holds the fields of [struct json_parser] and of its
    [struct buffer] the tokenizer works on; the fields only the parser uses
    are in the file Json.  [buf_mem] is the memory that can be read at the
    document's address: its first [buf_size] bytes are the document, and
    [four_hex_digits], which calls [strlen], also looks at what follows.
    A character is read as a plain (signed) [char], so [buffer_getc] gives
    -128..127.  [strtold] of the C library is a parameter: the number, whether
    it set [errno], and how many characters it used.

    The theorems are about the tokens: which texts [nextsym] reads as which
    token, that it always returns, stays inside the document and makes
    progress, and what a token that has a value guarantees of it. *)

From Stdlib Require Import ZArith Lia.
From stdpp Require Import base list numbers sets.
From S2P Require Import Prelude Convert.

Inductive tokentype : Set :=
| TOK_ERROR | TOK_UNKNOWN | TOK_QSTRING | TOK_TRUE | TOK_FALSE | TOK_COLON
| TOK_COMMA | TOK_OBJECTSTART | TOK_OBJECTEND | TOK_ARRAYSTART | TOK_ARRAYEND
| TOK_NUMBER | TOK_NULL | TOK_EOF | TOK_STRING | TOK_BOOLEAN.

#[export] Instance tokentype_eq_dec : EqDecision tokentype.
Proof. solve_decision. Defined.

Record lexer : Set := mkLexer {
  buf_mem : list Z;
  nread : nat;
  buf_size : nat;
  token : tokentype;
  value_start : option nat;
  value_end : option nat;
  lineno : Z;
  jp_errno : option errno
}.

Definition set_nread (n : nat) (p : lexer) : lexer :=
  mkLexer (buf_mem p) n (buf_size p) (token p) (value_start p) (value_end p) (lineno p) (jp_errno p).
Definition set_token (t : tokentype) (p : lexer) : lexer :=
  mkLexer (buf_mem p) (nread p) (buf_size p) t (value_start p) (value_end p) (lineno p) (jp_errno p).
Definition set_value (s e : option nat) (p : lexer) : lexer :=
  mkLexer (buf_mem p) (nread p) (buf_size p) (token p) s e (lineno p) (jp_errno p).
Definition set_lineno (n : Z) (p : lexer) : lexer :=
  mkLexer (buf_mem p) (nread p) (buf_size p) (token p) (value_start p) (value_end p) n (jp_errno p).
Definition set_errno (e : errno) (p : lexer) : lexer :=
  mkLexer (buf_mem p) (nread p) (buf_size p) (token p) (value_start p) (value_end p) (lineno p) (Some e).

(** * Numbers *)

Definition nonnul (c : Z) : bool := negb (c =? 0).

(** The characters before the first NUL. *)
Definition until_nul (s : list Z) : list Z := take (span_len nonnul s) s.

Definition is_zero (s : list Z) : bool :=
  match s with [c] => c =? ch "0" | _ => false end.

Definition skip_spaces (s : list Z) : list Z := drop (span_len isspace s) s.

Definition skip_minus (s : list Z) : list Z :=
  match s with c :: s' => if c =? ch "-" then s' else s | [] => [] end.

Definition has_leading_zero (s : list Z) : bool :=
  match skip_minus (skip_spaces s) with
  | z :: d :: _ => (z =? ch "0") && isdigit d
  | _ => false
  end.

Definition isinteger (s : list Z) : bool :=
  let s := skip_minus s in
  if is_zero s then true
  else if has_leading_zero s then false
  else match s with
       | c :: s' => in_range (ch "1") (ch "9") c && forallb isdigit s'
       | [] => false
       end.

Definition has_trailing_dots (s : list Z) : bool :=
  match head (reverse s) with Some c => c =? ch "." | None => false end.

(** The character at an index, the terminator at the end. *)
Definition char_at (s : list Z) (i : nat) : Z := default 0 (s !! i).

(** The tests on the first dot: a digit after it, something and a digit before
    it. *)
Definition dot_ok (s : list Z) : bool :=
  match strchr s (ch ".") with
  | None => true
  | Some i => isdigit (char_at s (S i)) && negb (i =? 0)%nat && isdigit (char_at s (i - 1))
  end.

Section Strtold.
Context {LD : Type} (strtold : list Z -> LD * bool * nat).

Definition isreal (s : list Z) : res bool :=
  r_assert (match s with [] => false | _ => true end);;
  let s := skip_spaces s in
  match s with
  | [] => Ret false
  | _ =>
      if isinteger s then Ret false
      else if is_zero s then Ret true
      else if has_leading_zero s then Ret false
      else if has_trailing_dots s then Ret false
      else if negb (dot_ok s) then Ret false
      else
        let '(_, err, used) := strtold s in
        Ret (negb err && (used =? length s)%nat)
  end.

Definition ISNUMBER_BUFSIZE : nat := 512.

Definition isnumber (s : list Z) (nchars : nat) : res bool :=
  if (ISNUMBER_BUFSIZE <=? nchars)%nat then Ret false
  else if (nchars <=? length s)%nat then
    let str := until_nul (take nchars s) in
    if isinteger str then Ret true else isreal str
  else Fault OutOfBounds.

(** * The input buffer *)

Definition EOF : Z := -1.

Definition buffer_currpos (p : lexer) : nat := nread p.

Definition buffer_getc (p : lexer) : res (Z * lexer) :=
  if (nread p =? buf_size p)%nat then Ret (EOF, p)
  else match buf_mem p !! nread p with
       | Some c => Ret (schar c, set_nread (S (nread p)) p)
       | None => Fault OutOfBounds
       end.

Definition buffer_ungetc (p : lexer) : res lexer :=
  r_assert (0 <? nread p)%nat;; Ret (set_nread (nread p - 1) p).

Definition buffer_cstr (p : lexer) : list Z := drop (nread p) (buf_mem p).

(** * Tokens *)

(** The table [tokens]: it has an entry for every token but [TOK_BOOLEAN], and
    indexing it there is caught by the assertion. *)
Definition hasvalue (tok : tokentype) : res bool :=
  match tok with
  | TOK_BOOLEAN => Fault AssertFailed
  | TOK_QSTRING | TOK_NUMBER => Ret true
  | _ => Ret false
  end.

Definition four_hex_digits (p : lexer) : res bool :=
  let s := buffer_cstr p in
  let+ len := strlen (Some <$> s) in
  if len <? 4 then Ret false else Ret (forallb isxdigit (take 4 s)).

Definition retfail (p : lexer) (e : errno) : status * lexer := (failure, set_errno e p).

Definition legal_escapes : list Z := [ch "\"; 34; ch "/"; ch "b"; ch "f"; ch "n"; ch "r"; ch "t"; ch "u"].

(** The loop of [get_qstring]: [None] when it returned [TOK_UNKNOWN] from
    inside, otherwise the last [c] and the count [n] of characters read. *)
Fixpoint get_qstring_loop (fuel : nat) (p : lexer) (prev : Z) (n : nat)
    : res (option (Z * nat) * lexer) :=
  match fuel with
  | O => Fault FuelOut
  | S fuel =>
      let+ (c, p) := buffer_getc p in
      if c =? EOF then Ret (Some (c, n), p)
      else
        let n := S n in
        let+ hex := (if (prev =? ch "\") && ((c =? ch "u") || (c =? ch "U"))
                     then four_hex_digits p else Ret true) in
        if negb hex then Ret (None, p)
        else if (prev =? ch "\") && (c =? 0) then Ret (None, p)
        else if c =? 0 then Ret (None, p)
        else if (prev =? ch "\") && negb (mem c legal_escapes) then Ret (None, p)
        else if (c =? 34) && negb (prev =? ch "\") then Ret (Some (c, n), p)
        else
          let prev := if (c =? ch "\") && (prev =? ch "\") then 0 else c in
          if (c =? 9) || (c =? 10) then Ret (None, p)
          else get_qstring_loop fuel (set_value (value_start p) (S <$> value_end p) p) prev n
  end.

Definition get_qstring (p : lexer) : res (tokentype * lexer) :=
  let pos := Some (buffer_currpos p) in
  let p := set_value pos pos p in
  let+ (r, p) := get_qstring_loop (S (buf_size p - nread p)) p 0 0 in
  match r with
  | None => Ret (TOK_UNKNOWN, p)
  | Some (c, n) =>
      if (n =? 0)%nat then Ret (TOK_UNKNOWN, p)
      else if negb (c =? 34) then Ret (TOK_UNKNOWN, p)
      else Ret (TOK_QSTRING, p)
  end.

(** [buffer_getc(src) == 'r' && buffer_getc(src) == 'u' && ...] *)
Fixpoint expect (p : lexer) (cs : list Z) : res (bool * lexer) :=
  match cs with
  | [] => Ret (true, p)
  | x :: cs =>
      let+ (c, p) := buffer_getc p in
      if c =? x then expect p cs else Ret (false, p)
  end.

Definition keyword (p : lexer) (cs : list Z) (tok : tokentype) : res (tokentype * lexer) :=
  let+ (ok, p) := expect p cs in
  Ret (if ok : bool then tok else TOK_UNKNOWN, p).

Definition get_true (p : lexer) := keyword p (bytes "rue") TOK_TRUE.
Definition get_false (p : lexer) := keyword p (bytes "alse") TOK_FALSE.
Definition get_null (p : lexer) := keyword p (bytes "ull") TOK_NULL.
Definition get_string (p : lexer) := keyword p (bytes "tring") TOK_STRING.
Definition get_boolean (p : lexer) := keyword p (bytes "oolean") TOK_BOOLEAN.

Definition legal_number : list Z := bytes "0123456789-.eE+".

(** The loop of [get_number]: [None] when a NUL made the function fail. *)
Fixpoint get_number_loop (fuel : nat) (p : lexer) (nchars : nat)
    : res (option nat * lexer) :=
  match fuel with
  | O => Fault FuelOut
  | S fuel =>
      let+ (c, p) := buffer_getc p in
      if c =? EOF then Ret (Some nchars, p)
      else if c =? 0 then Ret (None, p)
      else if mem c legal_number
      then get_number_loop fuel (set_value (value_start p) (S <$> value_end p) p) (S nchars)
      else let+ p := buffer_ungetc p in Ret (Some nchars, p)
  end.

Definition get_number (p : lexer) : res (status * lexer) :=
  let pos := buffer_currpos p in
  let p := set_value (Some pos) (Some pos) p in
  let+ (r, p) := get_number_loop (S (buf_size p - nread p)) p 0 in
  match r with
  | None => Ret (retfail (set_token TOK_UNKNOWN p) EINVAL)
  | Some nchars =>
      let+ ok := isnumber (drop pos (buf_mem p)) nchars in
      if negb ok then Ret (retfail (set_token TOK_UNKNOWN p) EINVAL)
      else Ret (success, set_token TOK_NUMBER p)
  end.

(** The white space before a token: [None] when a form feed made [nextsym]
    fail, otherwise the first character after it. *)
Fixpoint skip_ws (fuel : nat) (p : lexer) : res (option Z * lexer) :=
  match fuel with
  | O => Fault FuelOut
  | S fuel =>
      let+ (c, p) := buffer_getc p in
      if (c =? EOF) || negb (isspace c) then Ret (Some c, p)
      else if c =? 12 then Ret (None, p)
      else skip_ws fuel (if c =? 10 then set_lineno (u64 (lineno p + 1)) p else p)
  end.

(** The tokens that are one character. *)
Definition punctuation (c : Z) : option tokentype :=
  if c =? EOF then Some TOK_EOF
  else if c =? ch "[" then Some TOK_ARRAYSTART
  else if c =? ch "]" then Some TOK_ARRAYEND
  else if c =? ch "{" then Some TOK_OBJECTSTART
  else if c =? ch "}" then Some TOK_OBJECTEND
  else if c =? ch ":" then Some TOK_COLON
  else if c =? ch "," then Some TOK_COMMA
  else None.

Definition number_start (c : Z) : bool := (c =? ch "-") || isdigit c.

(** The [switch] of [nextsym], the cases but the numbers. *)
Definition get_token (c : Z) (p : lexer) : res (tokentype * lexer) :=
  match punctuation c with
  | Some t => Ret (t, p)
  | None =>
      if c =? 34 then get_qstring p
      else if c =? ch "t" then get_true p
      else if c =? ch "f" then get_false p
      else if c =? ch "n" then get_null p
      else if c =? ch "s" then get_string p
      else if c =? ch "b" then get_boolean p
      else Ret (TOK_UNKNOWN, p)
  end.

Definition nextsym (p : lexer) : res (status * lexer) :=
  if decide (token p = TOK_EOF) then Ret (retfail p ENOENT)
  else
    let p := set_token TOK_UNKNOWN (set_value None None p) in
    let+ (r, p) := skip_ws (S (buf_size p - nread p)) p in
    match r with
    | None => Ret (retfail p EINVAL)
    | Some c =>
        if number_start c then
          let+ p := buffer_ungetc p in get_number p
        else
          let+ (t, p) := get_token c p in
          Ret (if decide (t = TOK_UNKNOWN) then failure else success, set_token t p)
    end.

(** * The reference tokenizer *)

(** The part of the document not read yet. *)
Definition rest (p : lexer) : list Z :=
  take (buf_size p - nread p) (drop (nread p) (buf_mem p)).

(** The text of the token's value, when it lies in the memory. *)
Definition value_text (p : lexer) : option (list Z) :=
  match value_start p, value_end p with
  | Some vs, Some ve =>
      if (vs <=? ve)%nat && (ve <=? length (buf_mem p))%nat
      then Some (take (ve - vs) (drop vs (buf_mem p))) else None
  | _, _ => None
  end.

(** What may stand between two quotes, after the character [prev]: no NUL, tab,
    newline or byte 255, and escapes are complete. *)
Fixpoint qstring_ok (prev : Z) (s : list Z) : bool :=
  match s with
  | [] => negb (prev =? ch "\")
  | c :: s' =>
      negb (c =? 0) && negb (c =? 9) && negb (c =? 10) && negb (c =? 255)
      && (if prev =? ch "\"
          then mem c legal_escapes
               && (negb (c =? ch "u") || (4 <=? length s')%nat && forallb isxdigit (take 4 s'))
          else negb (c =? 34))
      && qstring_ok (if (c =? ch "\") && (prev =? ch "\") then 0 else c) s'
  end.

(** The string at the head of a text, up to the quote that ends it. *)
Fixpoint qscan (prev : Z) (d : list Z) : option (list Z) :=
  match d with
  | [] => None
  | c :: d' =>
      if (c =? 34) && negb (prev =? ch "\") then Some []
      else if negb (c =? 0) && negb (c =? 9) && negb (c =? 10) && negb (c =? 255)
           && (if prev =? ch "\"
               then mem c legal_escapes
                    && (negb (c =? ch "u") || (4 <=? length d')%nat && forallb isxdigit (take 4 d'))
               else true)
      then cons c <$> qscan (if (c =? ch "\") && (prev =? ch "\") then 0 else c) d'
      else None
  end.

Definition keyword_at (d : list Z) : option (tokentype * nat) :=
  if prefixb (bytes "true") d then Some (TOK_TRUE, 4%nat)
  else if prefixb (bytes "false") d then Some (TOK_FALSE, 5%nat)
  else if prefixb (bytes "null") d then Some (TOK_NULL, 4%nat)
  else if prefixb (bytes "string") d then Some (TOK_STRING, 6%nat)
  else if prefixb (bytes "boolean") d then Some (TOK_BOOLEAN, 7%nat)
  else None.

Definition number_ok (s : list Z) : bool :=
  match isnumber s (length s) with Ret b => b | Fault _ => false end.

(** The longest run of number characters; a NUL must not follow it, and a byte
    255 that does is lost. *)
Definition number_at (d : list Z) : option (list Z * list Z) :=
  let n := span_len (fun c => mem c legal_number) d in
  let t := take n d in
  match drop n d with
  | [] => if number_ok t then Some (t, []) else None
  | c :: d' =>
      if c =? 0 then None
      else if number_ok t then Some (t, if c =? 255 then d' else c :: d')
      else None
  end.

(** The token at the head of a text, the text of its value and what follows. *)
Definition ref_next (d : list Z) : option (tokentype * list Z * list Z) :=
  let n := span_len isspace d in
  if mem 12 (take n d) then None
  else
    match drop n d with
    | [] => Some (TOK_EOF, [], [])
    | c :: d' =>
        if c =? 255 then Some (TOK_EOF, [], d')
        else if number_start c then
          (fun '(t, r) => (TOK_NUMBER, t, r)) <$> number_at (c :: d')
        else
          match punctuation c with
          | Some t => Some (t, [], d')
          | None =>
              if c =? 34 then
                (fun t => (TOK_QSTRING, t, drop (S (length t)) d')) <$> qscan 0 d'
              else (fun '(t, k) => (t, [], drop k (c :: d'))) <$> keyword_at (c :: d')
          end
    end.

(** * Reading the buffer *)

Definition is_byte (c : Z) : Prop := 0 <= c <= 255.

(** The document lies in readable memory, which has a NUL at or after its end. *)
Record lex_wf (p : lexer) : Prop := mkLexWf {
  wf_read : (nread p <= buf_size p)%nat;
  wf_size : (buf_size p <= length (buf_mem p))%nat;
  wf_nul : 0 ∈ drop (buf_size p) (buf_mem p);
  wf_bytes : Forall is_byte (buf_mem p)
}.

(** [q] is [p] after reading [a]. *)
Record advances (p : lexer) (a : list Z) (q : lexer) : Prop := mkAdvances {
  adv_mem : buf_mem q = buf_mem p;
  adv_size : buf_size q = buf_size p;
  adv_nread : nread q = (nread p + length a)%nat;
  adv_rest : rest p = a ++ rest q;
  adv_wf : lex_wf q
}.

Lemma advances_refl p : lex_wf p -> advances p [] p.
Proof. intros. constructor; done || (simpl; lia). Qed.

Lemma advances_trans p a q b r : advances p a q -> advances q b r -> advances p (a ++ b) r.
Proof.
  intros [] []. constructor; try congruence.
  - rewrite length_app. lia.
  - rewrite <-app_assoc. congruence.
Qed.

(** Only the position matters. *)
Definition same_pos (p q : lexer) : Prop :=
  buf_mem q = buf_mem p /\ buf_size q = buf_size p /\ nread q = nread p.

Lemma same_pos_rest p q : same_pos p q -> rest q = rest p.
Proof. intros (E1 & E2 & E3). unfold rest. by rewrite E1, E2, E3. Qed.

Lemma same_pos_wf p q : same_pos p q -> lex_wf p -> lex_wf q.
Proof. intros (E1 & E2 & E3) []. constructor; rewrite ?E1, ?E2, ?E3; done. Qed.

Lemma advances_same p a q r : advances p a q -> same_pos q r -> advances p a r.
Proof.
  intros [] Hs. pose proof (same_pos_rest _ _ Hs). pose proof (same_pos_wf _ _ Hs adv_wf0).
  destruct Hs as (? & ? & ?). constructor; congruence.
Qed.

Lemma same_advances p q a r : same_pos p q -> advances q a r -> advances p a r.
Proof.
  intros Hs []. pose proof (same_pos_rest _ _ Hs). destruct Hs as (? & ? & ?).
  constructor; congruence.
Qed.

Lemma rest_length p : lex_wf p -> length (rest p) = (buf_size p - nread p)%nat.
Proof. intros []. unfold rest. rewrite length_take, length_drop. lia. Qed.

Lemma advances_one p c d :
  lex_wf p -> rest p = c :: d ->
  advances p [c] (set_nread (S (nread p)) p) /\ rest (set_nread (S (nread p)) p) = d
  /\ buf_mem p !! nread p = Some c /\ (nread p < buf_size p)%nat /\ is_byte c.
Proof.
  intros Hwf Hr. pose proof (rest_length p Hwf) as Hl. rewrite Hr in Hl. simpl in Hl.
  destruct Hwf as [Hn Hs Hz Hb].
  assert (Hc : buf_mem p !! nread p = Some c).
  { unfold rest in Hr. rewrite <-(Nat.add_0_r (nread p)), <-lookup_drop.
    rewrite <-(lookup_take_lt _ (buf_size p - nread p)) by lia. by rewrite Hr. }
  assert (Hd : rest (set_nread (S (nread p)) p) = d).
  { unfold rest in *; simpl. rewrite (drop_S _ c) in Hr by done.
    replace (buf_size p - nread p)%nat with (S (buf_size p - S (nread p))) in Hr by lia.
    simpl in Hr. by injection Hr. }
  split_and!; [|done|done|lia|by eapply Forall_lookup_1].
  constructor; simpl; [done | done | lia | by rewrite Hd | constructor; simpl; (done || lia)].
Qed.

Lemma getc_cons p c d :
  lex_wf p -> rest p = c :: d ->
  buffer_getc p = Ret (schar c, set_nread (S (nread p)) p).
Proof.
  intros Hwf Hr. destruct (advances_one p c d Hwf Hr) as (_ & _ & Hc & Hlt & _).
  unfold buffer_getc. rewrite Hc. destruct (Nat.eqb_spec (nread p) (buf_size p)); [lia | done].
Qed.

Lemma getc_nil p : lex_wf p -> rest p = [] -> buffer_getc p = Ret (EOF, p).
Proof.
  intros Hwf Hr. pose proof (rest_length p Hwf) as Hl. rewrite Hr in Hl. simpl in Hl.
  destruct Hwf. unfold buffer_getc. destruct (Nat.eqb_spec (nread p) (buf_size p)); [done | lia].
Qed.

Lemma schar_eq c x : is_byte c -> 0 <= x < 128 -> (schar c =? x) = (c =? x).
Proof. unfold is_byte, schar. intros. zcase; repeat zcase; lia || done. Qed.

Lemma schar_EOF c : is_byte c -> (schar c =? EOF) = (c =? 255).
Proof. unfold is_byte, schar, EOF. intros. zcase; repeat zcase; lia || done. Qed.

Lemma schar_isspace c : is_byte c -> isspace (schar c) = isspace c.
Proof.
  unfold is_byte, isspace, in_range, schar. intros. zcase; [done|].
  repeat (zcase; simpl); lia || done.
Qed.

Lemma schar_mem c l :
  is_byte c -> Forall (fun x => 0 <= x < 128) l -> mem (schar c) l = mem c l.
Proof.
  intros Hc. induction 1 as [|x l Hx _ IH]; [done|]. simpl.
  by rewrite schar_eq, IH by done.
Qed.

#[local] Arguments mem : simpl never.
#[local] Arguments Z.eqb !_ !_ : simpl nomatch.

Lemma mem_cons x c l : mem x (c :: l) = (x =? c) || mem x l.
Proof. done. Qed.

(** One step of a reading loop, by the head of the remaining document. *)
Lemma wpr_getc p (Q : Z * lexer -> Prop) :
  lex_wf p ->
  (rest p = [] -> Q (EOF, p)) ->
  (forall c d q, rest p = c :: d -> is_byte c -> q = set_nread (S (nread p)) p ->
     advances p [c] q -> rest q = d -> Q (schar c, q)) ->
  wpr (buffer_getc p) Q.
Proof.
  intros Hwf Hnil Hcons. destruct (rest p) as [|c d] eqn:Hr.
  - rewrite getc_nil by done. by apply Hnil.
  - destruct (advances_one p c d Hwf Hr) as (Ha & Hd & _ & _ & Hb).
    rewrite (getc_cons p c d) by done. by eapply Hcons.
Qed.

Lemma advances_cons p c q a r :
  advances p [c] q -> advances q a r -> advances p (c :: a) r.
Proof. apply (advances_trans p [c] q a r). Qed.

Definition same_values (p q : lexer) : Prop :=
  token q = token p /\ value_start q = value_start p /\ value_end q = value_end p.

Lemma skip_ws_spec fuel p :
  lex_wf p -> (length (rest p) < fuel)%nat ->
  wpr (skip_ws fuel p) (fun '(r, q) =>
    let n := span_len isspace (rest p) in
    same_values p q /\
    if mem 12 (take n (rest p)) then r = None /\ exists a, advances p a q
    else match drop n (rest p) with
         | [] => r = Some EOF /\ advances p (rest p) q
         | c :: d => r = Some (schar c) /\ advances p (take n (rest p) ++ [c]) q /\ rest q = d
         end).
Proof.
  clear strtold LD.
  revert p. induction fuel as [|fuel IH]; intros p Hwf Hf; [lia|]. simpl. wp.
  apply wpr_getc; [done|..].
  - intros Hr. simpl. rewrite Hr. simpl. split; [done|]. split; [done|].
    by apply advances_refl.
  - intros c d q Hr Hb Hq Ha Hd. rewrite Hr in Hf |- *. simpl in Hf.
    rewrite schar_EOF, schar_isspace by done. cbn [span_len].
    destruct (isspace c) eqn:Hsp; simpl.
    2: { rewrite orb_true_r. simpl. subst q. by split_and!. }
    destruct (Z.eqb_spec c 255) as [->|_]; [done|]. simpl.
    rewrite !schar_eq by (done || lia). rewrite mem_cons, (Z.eqb_sym 12 c).
    destruct (Z.eqb_spec c 12) as [->|_]; simpl.
    { subst q. split; [done|]. split; [done | eauto]. }
    set (q' := if c =? 10 then _ else q).
    assert (Hs : same_pos q q') by (unfold q'; by destruct (c =? 10)).
    assert (Hv : same_values p q') by (unfold q'; subst q; by destruct (c =? 10)).
    eapply wpr_mono; [apply IH|].
    + eapply same_pos_wf; [done | by destruct Ha].
    + rewrite (same_pos_rest _ _ Hs), Hd. lia.
    + rewrite (same_pos_rest _ _ Hs), Hd. intros [r q2] [Hv2 H].
      assert (Hadv : forall a, advances q' a q2 -> advances p (c :: a) q2).
      { intros a Ha2. eapply advances_cons; [done|]. by eapply same_advances. }
      split; [unfold same_values in *; naive_solver congruence|].
      destruct (mem 12 _); [naive_solver|]. destruct (drop _ d); naive_solver.
Qed.

Lemma strlen_found s :
  0 ∈ s -> strlen (Some <$> s) = Ret (Z.of_nat (span_len nonnul s)).
Proof.
  clear strtold LD. induction s as [|c s IH]; intros Hz; [by apply elem_of_nil in Hz|].
  rewrite fmap_cons. cbn [strlen span_len].
  unfold nonnul at 1. destruct (Z.eqb_spec c 0); cbn [negb]; [done|].
  rewrite IH; [simpl; f_equal; lia|]. set_solver.
Qed.

Lemma hex_nonzero s : forallb isxdigit s = true -> (length s <= span_len nonnul s)%nat.
Proof.
  induction s as [|c s IH]; simpl; [lia|]. intros [Hc Hs]%andb_prop.
  unfold nonnul at 1. destruct (Z.eqb_spec c 0) as [->|]; [done|]. simpl. specialize (IH Hs). lia.
Qed.

Lemma span_len_prefix p s n : (span_len p (take n s) <= span_len p s)%nat.
Proof. revert s. induction n; intros [|c s]; simpl; try lia. destruct (p c); [|lia]. specialize (IHn s). lia. Qed.

Definition hex4 (s : list Z) : bool := (4 <=? length s)%nat && forallb isxdigit (take 4 s).

Lemma four_hex_digits_spec p :
  lex_wf p -> four_hex_digits p = Ret (hex4 (drop (nread p) (buf_mem p))).
Proof.
  clear strtold LD. intros [Hn Hs Hz Hb]. unfold four_hex_digits, buffer_cstr, hex4.
  set (s := drop (nread p) (buf_mem p)).
  assert (0 ∈ s).
  { unfold s. replace (buf_size p) with (nread p + (buf_size p - nread p))%nat in Hz by lia.
    rewrite <-drop_drop in Hz. rewrite <-(take_drop (buf_size p - nread p) (drop _ _)). set_solver. }
  rewrite strlen_found by done. cbn [res_bind].
  set (k := span_len _ s). assert (k <= length s)%nat by apply span_len_le.
  destruct (forallb isxdigit (take 4 s)) eqn:Hx; rewrite ?andb_false_r, ?andb_true_r; [|by zcase].
  pose proof (hex_nonzero _ Hx) as Hk. rewrite length_take in Hk.
  pose proof (span_len_prefix nonnul s 4) as Hp. fold k in Hp.
  zcase; destruct (Nat.leb_spec 4 (length s)); done || lia.
Qed.

Lemma rest_take p n :
  (n <= length (rest p))%nat -> take n (drop (nread p) (buf_mem p)) = take n (rest p).
Proof. unfold rest. intros H. rewrite length_take in H. rewrite take_take. f_equal. lia. Qed.

Lemma qscan_no_quote prev d : Forall (fun c => c <> 34) d -> qscan prev d = None.
Proof.
  intros Hd. revert prev. induction Hd as [|c d Hc _ IH]; intros prev; [done|]. simpl.
  destruct (Z.eqb_spec c 34); [done|]. simpl. rewrite IH. by case_match.
Qed.

Lemma hex_no_quote s : forallb isxdigit s = true -> Forall (fun c => c <> 34) s.
Proof.
  induction s as [|c s IH]; simpl; [done|]. intros [Hc Hs]%andb_prop.
  constructor; [by intros -> | by apply IH].
Qed.

(** Past the end of the document the check on hexadecimal digits may look at
    foreign memory; the string is unterminated then. *)
Lemma hex4_rest p prev :
  lex_wf p -> hex4 (drop (nread p) (buf_mem p)) = true -> hex4 (rest p) = false ->
  qscan prev (rest p) = None.
Proof.
  unfold hex4. intros Hwf [Hl Hx]%andb_prop Hr. apply Nat.leb_le in Hl.
  destruct (Nat.leb_spec 4 (length (rest p))) as [H4|H4].
  - rewrite <-rest_take, Hx in Hr by done. done.
  - apply qscan_no_quote, hex_no_quote.
    rewrite <-(firstn_all (rest p)), <-rest_take by done.
    rewrite <-(take_drop (length (rest p)) (take 4 _)), forallb_app in Hx.
    apply andb_prop in Hx as [Hx _]. rewrite take_take, Nat.min_l in Hx by lia. done.
Qed.

Lemma legal_escapes_ascii : Forall (fun x => 0 <= x < 128) legal_escapes.
Proof. unfold legal_escapes. repeat constructor; lia. Qed.

Lemma legal_number_ascii : Forall (fun x => 0 <= x < 128) legal_number.
Proof. unfold legal_number. repeat constructor; done. Qed.

(** [qscan] on one character. *)
Definition qchar_ok (esc : bool) (c : Z) (d : list Z) : bool :=
  negb (c =? 0) && negb (c =? 9) && negb (c =? 10) && negb (c =? 255)
  && (if esc then mem c legal_escapes && (negb (c =? ch "u") || hex4 d) else true).

Lemma qscan_cons prev c d :
  qscan prev (c :: d) =
  if (c =? 34) && negb (prev =? ch "\") then Some []
  else if qchar_ok (prev =? ch "\") c d
       then cons c <$> qscan (if (c =? ch "\") && (prev =? ch "\") then 0 else c) d
       else None.
Proof. done. Qed.

Lemma hex4_mem p : hex4 (rest p) = true -> hex4 (drop (nread p) (buf_mem p)) = true.
Proof.
  unfold hex4. intros [Hl Hx]%andb_prop. apply Nat.leb_le in Hl. rewrite rest_take, Hx by done.
  unfold rest in Hl. rewrite length_take in Hl. apply andb_true_intro.
  split; [apply Nat.leb_le; lia | done].
Qed.

(** What the loop establishes, and the cases in which it stops with an error. *)
Definition qstring_post (p : lexer) (n : nat) (scan : option (list Z))
    (r : option (Z * nat)) (q : lexer) : Prop :=
  value_start q = value_start p /\
  match scan with
  | Some t => r = Some (34, (n + length t + 1)%nat) /\ advances p (t ++ [34]) q
              /\ value_end q = (fun e => e + length t)%nat <$> value_end p
  | None => (forall c m, r = Some (c, m) -> c <> 34) /\ exists a, advances p a q
  end.

Lemma qstring_post_none p n a q :
  advances p a q -> value_start q = value_start p -> qstring_post p n None None q.
Proof. intros. split; [done|]. split; [done | eauto]. Qed.

Lemma qstring_post_cons p n c q scan r q2 :
  advances p [c] q -> value_start q = value_start p -> value_end q = S <$> value_end p ->
  qstring_post q (S n) scan r q2 -> qstring_post p n (cons c <$> scan) r q2.
Proof.
  intros Ha Hs He [Hs2 H]. split; [congruence|]. destruct scan as [t|]; simpl.
  - destruct H as (-> & Ha2 & ->). rewrite He. split_and!.
    + do 2 f_equal. lia.
    + by apply (advances_cons p c q (t ++ [34])).
    + destruct (value_end p); simpl; [f_equal; lia | done].
  - destruct H as [? [a Ha2]]. split; [done|]. exists (c :: a). by eapply advances_cons.
Qed.

Lemma hex_check q (esc : bool) c :
  lex_wf q ->
  wpr (if esc && ((c =? ch "u") || (c =? ch "U")) then four_hex_digits q else Ret true)
    (fun h : bool =>
       if h then esc && (c =? ch "u") = true -> hex4 (drop (nread q) (buf_mem q)) = true
       else esc = true /\ (c = ch "U" \/ c = ch "u" /\ hex4 (rest q) = false)).
Proof.
  intros Hwf. destruct esc; [|done]. simpl.
  destruct (Z.eqb_spec c 117) as [->|Hu].
  - simpl. rewrite four_hex_digits_spec by done. simpl.
    destruct (hex4 (drop _ _)) eqn:Hx; [done|]. split; [done|]. right. split; [done|].
    destruct (hex4 (rest q)) eqn:Hr; [|done]. by rewrite hex4_mem in Hx.
  - destruct (Z.eqb_spec c 85) as [->|HU]; simpl; [|done].
    rewrite four_hex_digits_spec by done. simpl. destruct (hex4 _); [done|]. auto.
Qed.

Lemma get_qstring_loop_spec fuel p prev prev' n :
  lex_wf p -> (length (rest p) < fuel)%nat -> (prev =? ch "\") = (prev' =? ch "\") ->
  wpr (get_qstring_loop fuel p prev n)
    (fun '(r, q) => qstring_post p n (qscan prev' (rest p)) r q).
Proof.
  revert p prev prev' n. induction fuel as [|fuel IH]; intros p prev prev' n Hwf Hf Hp; [lia|].
  cbn [get_qstring_loop]. wp. apply wpr_getc; [done|..].
  { intros Hr. rewrite Hr. split; [done|]. split; [by intros ?? [= <- _]|].
    exists []. by apply advances_refl. }
  intros c d q Hr Hb Hq Ha Hd. rewrite Hr in Hf |- *. cbn [length] in Hf.
  rewrite schar_EOF, !schar_eq, schar_mem, qscan_cons, Hp by (done || lia || apply legal_escapes_ascii).
  assert (Hwq : lex_wf q) by (by destruct Ha).
  assert (Hvs : value_start q = value_start p) by (by subst q).
  assert (Hnone : qstring_post p n None None q) by (by eapply qstring_post_none).
  set (esc := prev' =? ch "\"). clearbody esc. unfold qchar_ok.
  destruct (Z.eqb_spec c 255) as [->|_].
  { rewrite andb_false_r. simpl. split; [done|]. split; [by intros ?? [= <- _] | eauto]. }
  apply wpr_bind. eapply wpr_mono; [by apply (hex_check q esc c)|]. cbv beta. rewrite Hd.
  intros [] Hhex; cbn [negb].
  2: { cbn [wpr]. destruct Hhex as [Hesc [->|[-> Hh]]]; rewrite Hesc, ?Hh; done. }
  destruct (Z.eqb_spec c 0) as [->|_].
  { destruct esc; done. }
  rewrite andb_false_r.
  destruct (esc && negb (mem c legal_escapes)) eqn:Hleg.
  { apply andb_prop in Hleg as [-> Hleg]. apply negb_true_iff in Hleg.
    cbn [negb]. rewrite Hleg, !andb_false_r. done. }
  destruct ((c =? 34) && negb esc) eqn:Hquote.
  { apply andb_prop in Hquote as [Hc34 _]. apply Z.eqb_eq in Hc34; subst c. cbn. split; [done|].
    split_and!; [by rewrite Nat.add_0_r, Nat.add_1_r | done |].
    subst q. simpl. destruct (value_end p); simpl; [by rewrite Nat.add_0_r | done]. }
  destruct ((c =? 9) || (c =? 10)) eqn:Htab.
  { cbn [wpr]. apply orb_prop in Htab as [H|H]; rewrite H, ?andb_false_r; done. }
  apply orb_false_elim in Htab as [-> ->]. cbn [negb andb].
  set (q' := set_value _ _ q). set (prev2 := if (c =? ch "\") && esc then 0 else c).
  assert (Hs : same_pos q q') by done.
  eapply wpr_mono; [eapply (IH q' _ prev2 (S n))|].
  - by eapply same_pos_wf.
  - rewrite (same_pos_rest _ _ Hs), Hd. lia.
  - unfold prev2. destruct ((c =? ch "\") && esc); [done|]. rewrite schar_eq; done || lia.
  - rewrite (same_pos_rest _ _ Hs), Hd. intros [r q2] Hpost.
    eapply (qstring_post_cons p n c q') in Hpost; [|by eapply advances_same|done|by subst q].
    destruct esc; [|done]. rewrite andb_true_l in Hleg. apply negb_false_iff in Hleg.
    rewrite Hleg. destruct (Z.eqb_spec c 117) as [->|_]; [|done].
    destruct (hex4 d) eqn:Hx; [done|]. rewrite <-Hd in Hx.
    pose proof (hex4_rest q prev2 Hwq (Hhex eq_refl) Hx) as Hq2. rewrite Hd in Hq2.
    by rewrite Hq2 in Hpost.
Qed.

(** The value delimited by the pointers is the text that was read. *)
Lemma value_text_read p q s a :
  advances p (s ++ a) q -> value_start q = Some (nread p) ->
  value_end q = Some (nread p + length s)%nat -> value_text q = Some s.
Proof.
  intros [Hm Hz Hn Hr Hwf] Hs He. unfold value_text. rewrite Hs, He.
  destruct Hwf. rewrite length_app in Hn.
  rewrite (proj2 (Nat.leb_le _ _)), (proj2 (Nat.leb_le _ _)) by lia. rewrite Hm. simpl. f_equal.
  replace (nread p + length s - nread p)%nat with (length s) by lia.
  rewrite rest_take by (rewrite Hr, !length_app; lia).
  by rewrite Hr, <-app_assoc, take_app_length.
Qed.

Lemma get_qstring_spec p :
  lex_wf p ->
  wpr (get_qstring p) (fun '(t, q) =>
    match qscan 0 (rest p) with
    | Some s => t = TOK_QSTRING /\ advances p (s ++ [34]) q /\ value_text q = Some s
    | None => t = TOK_UNKNOWN /\ exists a, advances p a q
    end).
Proof.
  intros Hwf. unfold get_qstring. set (p' := set_value _ _ p).
  assert (Hs : same_pos p p') by done. pose proof (same_pos_rest _ _ Hs) as Hrest.
  wp. eapply wpr_mono; [eapply (get_qstring_loop_spec _ p' 0 0)|].
  - by eapply same_pos_wf.
  - rewrite rest_length by (by eapply same_pos_wf). lia.
  - done.
  - rewrite Hrest. intros [r q] [Hvs H]. simpl in Hvs.
    destruct (qscan 0 (rest p)) as [s|].
    + destruct H as (-> & Ha & Hve). simpl in Hve.
      eapply same_advances in Ha; [|done].
      destruct (Nat.eqb_spec (0 + length s + 1) 0); [lia|].
      split_and!; [done | done | by eapply value_text_read].
    + destruct H as [Hc [a Ha]]. eapply same_advances in Ha; [|done].
      destruct r as [[c m]|]; [|split; eauto].
      specialize (Hc _ _ eq_refl). destruct (Z.eqb_spec c 34); [done|].
      destruct (m =? 0)%nat; simpl; split; eauto.
Qed.

Lemma expect_spec p cs :
  lex_wf p -> Forall (fun x => 0 <= x < 128) cs ->
  wpr (expect p cs) (fun '(b, q) =>
    b = prefixb cs (rest p) /\ exists a, advances p a q /\ (b = true -> a = cs)).
Proof.
  intros Hwf Hcs. revert p Hwf. induction Hcs as [|x cs Hx _ IH]; intros p Hwf.
  { simpl. split; [done|]. exists []. split; [by apply advances_refl | done]. }
  cbn [expect]. wp. apply wpr_getc; [done|..].
  - intros Hr. rewrite Hr. unfold EOF. destruct (Z.eqb_spec (-1) x); [lia|]. simpl.
    split; [done|]. exists []. split; [by apply advances_refl | done].
  - intros c d q Hr Hb Hq Ha Hd. rewrite Hr, schar_eq by done. cbn [prefixb].
    rewrite (Z.eqb_sym x c). destruct (Z.eqb_spec c x) as [->|]; simpl.
    + eapply wpr_mono; [apply IH; by destruct Ha|]. rewrite Hd.
      intros [b q2] (-> & a & Ha2 & Heq). split; [done|]. exists (x :: a).
      split; [by eapply advances_cons|]. intros H. by rewrite Heq.
    + split; [done|]. exists [c]. split; done.
Qed.

Lemma keyword_spec p cs tok :
  lex_wf p -> Forall (fun x => 0 <= x < 128) cs ->
  wpr (keyword p cs tok) (fun '(t, q) =>
    if prefixb cs (rest p) then t = tok /\ advances p cs q
    else t = TOK_UNKNOWN /\ exists a, advances p a q).
Proof.
  intros Hwf Hcs. unfold keyword. wp. eapply wpr_mono; [by apply expect_spec|].
  intros [b q] (-> & a & Ha & Heq). simpl.
  destruct (prefixb cs (rest p)); [rewrite <-Heq by done|]; eauto.
Qed.

Lemma get_number_loop_spec fuel p n :
  lex_wf p -> (length (rest p) < fuel)%nat ->
  wpr (get_number_loop fuel p n) (fun '(r, q) =>
    let k := span_len (fun c => mem c legal_number) (rest p) in
    value_start q = value_start p /\
    match drop k (rest p) with
    | [] => r = Some (n + k)%nat /\ advances p (take k (rest p)) q
            /\ value_end q = (fun e => e + k)%nat <$> value_end p
    | c :: d =>
        if c =? 0 then r = None /\ exists a, advances p a q
        else r = Some (n + k)%nat
             /\ advances p (take k (rest p) ++ (if c =? 255 then [c] else [])) q
             /\ value_end q = (fun e => e + k)%nat <$> value_end p
    end).
Proof.
  revert p n. induction fuel as [|fuel IH]; intros p n Hwf Hf; [lia|].
  cbn [get_number_loop]. wp. apply wpr_getc; [done|..].
  { intros Hr. rewrite Hr. simpl. rewrite Nat.add_0_r. split_and!; [done | done | by apply advances_refl |].
    destruct (value_end p); simpl; [by rewrite Nat.add_0_r | done]. }
  intros c d q Hr Hb Hq Ha Hd. rewrite Hr in Hf |- *. cbn [length] in Hf.
  rewrite schar_EOF, schar_eq, schar_mem by (done || lia || apply legal_number_ascii).
  cbn [span_len]. destruct (mem c legal_number) eqn:Hleg; cbn [take drop].
  - destruct (Z.eqb_spec c 255) as [->|]; [done|].
    destruct (Z.eqb_spec c 0) as [->|]; [done|].
    set (q' := set_value _ _ q). assert (Hs : same_pos q q') by done.
    eapply wpr_mono; [apply (IH q')|].
    + eapply same_pos_wf; [done | by destruct Ha].
    + rewrite (same_pos_rest _ _ Hs), Hd. lia.
    + rewrite (same_pos_rest _ _ Hs), Hd. intros [r q2] [Hvs H].
      assert (Hadv : forall a, advances q' a q2 -> advances p (c :: a) q2)
        by (intros; eapply advances_cons; [done | by eapply same_advances]).
      assert (Hve : forall k, value_end q2 = (fun e => e + k)%nat <$> value_end q' ->
                value_end q2 = (fun e => e + S k)%nat <$> value_end p).
      { intros k ->. subst q. simpl. destruct (value_end p); simpl; [f_equal; lia | done]. }
      split; [subst q; done|]. rewrite Nat.add_succ_r.
      destruct (drop _ d) as [|x d'].
      * destruct H as (-> & ? & ?). split_and!; auto.
      * destruct (x =? 0); [destruct H as (-> & a & ?); eauto|].
        destruct H as (-> & ? & ?). split_and!; [done | by apply Hadv | auto].
  - assert (Hve : value_end p = (fun e => e + 0)%nat <$> value_end p)
      by (destruct (value_end p); simpl; [by rewrite Nat.add_0_r | done]).
    destruct (Z.eqb_spec c 255) as [->|].
    { simpl. rewrite Nat.add_0_r. by subst q. }
    destruct (Z.eqb_spec c 0) as [->|]; [simpl; subst q; eauto|].
    unfold buffer_ungetc. wp. subst q. simpl. rewrite Nat.add_0_r, Nat.sub_0_r.
    split_and!; [done | done | | done].
    eapply advances_same; [by apply advances_refl | done].
Qed.

Lemma isreal_total s : s <> [] -> exists b, isreal s = Ret b.
Proof.
  intros Hs. unfold isreal. destruct s as [|c s]; [done|]. simpl res_bind.
  destruct (skip_spaces (c :: s)); [eauto|].
  repeat case_match; eauto.
Qed.

Lemma isnumber_take s n :
  (n <= length s)%nat -> isnumber s n = isnumber (take n s) (length (take n s)).
Proof.
  intros Hn. unfold isnumber. rewrite length_take, Nat.min_l by done.
  rewrite (proj2 (Nat.leb_le n (length s))), Nat.leb_refl by done.
  rewrite take_take, Nat.min_id. done.
Qed.

Lemma isnumber_total s c s' :
  s = c :: s' -> c <> 0 -> isnumber s (length s) = Ret (number_ok s).
Proof.
  intros -> Hc. unfold number_ok. assert (exists b, isnumber (c :: s') (length (c :: s')) = Ret b)
    as [b ->]; [|done].
  unfold isnumber. rewrite Nat.leb_refl, firstn_all. case_match; [eauto|]. case_match; [eauto|].
  apply isreal_total. unfold until_nul. cbn [span_len]. unfold nonnul at 1.
  destruct (Z.eqb_spec c 0); done.
Qed.

Lemma advances_rest p a q b d : advances p a q -> rest p = a ++ b -> b = d -> rest q = d.
Proof. intros [_ _ _ H _] H' <-. rewrite H in H'. by apply app_inv_head in H'. Qed.

(** What reading a token guarantees. *)
Definition token_post (p : lexer) (next : option (tokentype * list Z * list Z))
    (st : status) (q : lexer) : Prop :=
  (exists a, advances p a q) /\
  match next with
  | Some (t, txt, d) => st = success /\ token q = t /\ rest q = d
                        /\ (hasvalue t = Ret true -> value_text q = Some txt)
  | None => st = failure /\ token q = TOK_UNKNOWN
  end.

Lemma get_number_spec p c d :
  lex_wf p -> rest p = c :: d -> mem c legal_number = true ->
  wpr (get_number p) (fun '(st, q) =>
    token_post p ((fun '(t, r) => (TOK_NUMBER, t, r)) <$> number_at (rest p)) st q).
Proof.
  intros Hwf Hrest Hc. unfold get_number. set (p' := set_value _ _ p).
  assert (Hs : same_pos p p') by done. pose proof (same_pos_rest _ _ Hs) as Hrp.
  wp. eapply wpr_mono; [eapply (get_number_loop_spec _ p')|].
  - by eapply same_pos_wf.
  - rewrite rest_length by (by eapply same_pos_wf). lia.
  - rewrite Hrp. intros [r q] [Hvs H]. simpl in Hvs. unfold number_at.
    set (k := span_len _ (rest p)) in *. set (t := take k (rest p)) in *.
    assert (k <= length (rest p))%nat as Hk by apply span_len_le.
    assert (Hok : forall a, advances p a q ->
      isnumber (drop (nread p) (buf_mem q)) k = Ret (number_ok t)).
    { intros a [Hm _ _ _ _]. rewrite Hm, isnumber_take.
      - rewrite rest_take by done. fold t. destruct t as [|x t'] eqn:Ht.
        + unfold t, k in Ht. rewrite Hrest in Ht. cbn [span_len] in Ht. by rewrite Hc in Ht.
        + apply (isnumber_total _ x t'); [done|]. unfold t in Ht. rewrite Hrest in Ht.
          unfold k in Ht. rewrite Hrest in Ht. cbn [span_len] in Ht. rewrite Hc in Ht.
          injection Ht as <- _. by intros ->.
      - unfold rest in Hk. rewrite length_take, length_drop in Hk. rewrite length_drop. lia. }
    assert (Hgood : forall a d', r = Some k -> advances p (t ++ a) q -> rest p = t ++ a ++ d' ->
      value_end q = (fun e => e + k)%nat <$> value_end p' ->
      wpr (let+ ok := isnumber (drop (buffer_currpos p) (buf_mem q)) k in
           if negb ok then Ret (retfail (set_token TOK_UNKNOWN q) EINVAL)
           else Ret (success, set_token TOK_NUMBER q))
        (fun '(st, q) => token_post p
          ((fun '(t, r) => (TOK_NUMBER, t, r)) <$> (if number_ok t then Some (t, d') else None)) st q)).
    { intros a d' -> Ha Hd Hve. unfold buffer_currpos. rewrite (Hok _ Ha). simpl.
      destruct (number_ok t); simpl.
      - split; [exists (t ++ a); by eapply advances_same|]. split_and!; try done.
        + eapply advances_rest; [by eapply advances_same | by rewrite <-app_assoc | done].
        + intros _. change (value_text (set_token TOK_NUMBER q)) with (value_text q).
          apply (value_text_read p q t a); [done | done|].
          rewrite Hve. simpl. unfold buffer_currpos, t. by rewrite length_take, Nat.min_l.
      - split; [exists (t ++ a); by eapply advances_same | done]. }
    assert (Hsplit : rest p = t ++ drop k (rest p)) by (symmetry; apply take_drop).
    destruct (drop k (rest p)) as [|x d'] eqn:Hdk.
    + destruct H as (-> & Ha & Hve). apply same_advances with (p := p) in Ha; [|done].
      apply (Hgood []); [done | by rewrite app_nil_r | done | done].
    + destruct (Z.eqb_spec x 0) as [->|Hx].
      * destruct H as (-> & a & Ha). apply same_advances with (p := p) in Ha; [|done].
        simpl. split; [exists a; by eapply advances_same | done].
      * destruct H as (-> & Ha & Hve). apply same_advances with (p := p) in Ha; [|done].
        eapply Hgood; [done | exact Ha | | done].
        rewrite Hsplit. by destruct (x =? 255).
Qed.

Lemma punctuation_schar c :
  is_byte c -> c <> 255 -> punctuation (schar c) = punctuation c.
Proof.
  intros Hb Hc. unfold punctuation. rewrite schar_EOF, !schar_eq by (done || lia).
  unfold is_byte, EOF in *. destruct (Z.eqb_spec c 255), (Z.eqb_spec c (-1)); lia || done.
Qed.

Lemma number_start_schar c : is_byte c -> number_start (schar c) = number_start c.
Proof.
  intros Hb. unfold number_start. rewrite schar_eq by (done || lia). f_equal.
  unfold isdigit, in_range, schar, is_byte in *. zcase; [done|].
  repeat (zcase; simpl); lia || done.
Qed.

Lemma number_start_legal c : number_start c = true -> mem c legal_number = true.
Proof.
  unfold number_start, isdigit, in_range. intros H. unfold mem, legal_number.
  apply existsb_exists. apply orb_prop in H as [H|H]; zreflect.
  - exists c. split; [|apply Z.eqb_refl]. subst c. simpl. tauto.
  - exists c. split; [|apply Z.eqb_refl].
    assert (c = 48 \/ c = 49 \/ c = 50 \/ c = 51 \/ c = 52 \/ c = 53 \/ c = 54 \/ c = 55
            \/ c = 56 \/ c = 57) as Hc by lia.
    simpl. unfold code. simpl. lia.
Qed.

(** The tokens that are neither numbers nor the end. *)
Definition ref_token (c : Z) (d : list Z) : option (tokentype * list Z * list Z) :=
  match punctuation c with
  | Some t => Some (t, [], d)
  | None =>
      if c =? 34 then (fun t => (TOK_QSTRING, t, drop (S (length t)) d)) <$> qscan 0 d
      else (fun '(t, k) => (t, [], drop k (c :: d))) <$> keyword_at (c :: d)
  end.

Definition get_token_post (p : lexer) (next : option (tokentype * list Z * list Z))
    (t : tokentype) (q : lexer) : Prop :=
  (exists a, advances p a q) /\
  match next with
  | Some (t', txt, d) => t = t' /\ t <> TOK_UNKNOWN /\ rest q = d
                         /\ (hasvalue t = Ret true -> value_text q = Some txt)
  | None => t = TOK_UNKNOWN
  end.

(** A keyword whose first character has been read. *)
Lemma keyword_token p x cs tok :
  lex_wf p -> Forall (fun x => 0 <= x < 128) cs -> tok <> TOK_UNKNOWN ->
  hasvalue tok <> Ret true ->
  keyword_at (x :: rest p) = (if prefixb cs (rest p) then Some (tok, S (length cs)) else None) ->
  wpr (keyword p cs tok) (fun '(t, q) =>
    get_token_post p ((fun '(t, k) => (t, [], drop k (x :: rest p))) <$> keyword_at (x :: rest p)) t q).
Proof.
  intros Hwf Hcs Ht Hv ->. eapply wpr_mono; [by apply keyword_spec|]. intros [t q] H.
  destruct (prefixb cs (rest p)); simpl.
  - destruct H as [-> Ha]. split; [eauto|]. split_and!; try done.
    destruct Ha as [_ _ _ -> _]. by rewrite drop_app_length.
  - destruct H as [-> Ha]. done.
Qed.

Lemma punctuation_known c t : punctuation c = Some t -> t <> TOK_UNKNOWN /\ hasvalue t = Ret false.
Proof. unfold punctuation. repeat case_match; intros [= <-]; done. Qed.

Lemma prefixb_head x c d w w' : w = x :: w' -> c <> x -> prefixb w (c :: d) = false.
Proof. intros -> H. simpl. destruct (Z.eqb_spec x c); [by subst | done]. Qed.

Lemma get_token_spec p c :
  lex_wf p -> is_byte c -> c <> 255 ->
  wpr (get_token (schar c) p) (fun '(t, q) => get_token_post p (ref_token c (rest p)) t q).
Proof.
  intros Hwf Hb Hc. unfold get_token, ref_token. rewrite punctuation_schar by done.
  assert (Hrefl : exists a, advances p a p) by (exists []; by apply advances_refl).
  destruct (punctuation c) as [t|] eqn:Hp.
  { apply punctuation_known in Hp as [? Hv]. simpl. split; [done|].
    split_and!; [done | done | done | by rewrite Hv]. }
  rewrite !schar_eq by (done || lia).
  destruct (Z.eqb_spec c 34) as [->|].
  { eapply wpr_mono; [by apply get_qstring_spec|]. intros [t q] H.
    destruct (qscan 0 (rest p)) as [s|]; simpl.
    - destruct H as (-> & Ha & Hv). split; [eauto|]. split_and!; try done.
      destruct Ha as [_ _ _ -> _].
      replace (S (length s)) with (length (s ++ [34])) by (rewrite length_app; simpl; lia).
      by rewrite drop_app_length.
    - destruct H as [-> Ha]. done. }
  unfold get_true, get_false, get_null, get_string, get_boolean.
  repeat (match goal with |- context [c =? ?k] => destruct (Z.eqb_spec c k) as [->|] end;
    [ apply keyword_token; [done | repeat constructor; done | done | done |
        reflexivity] |]).
  assert (keyword_at (c :: rest p) = None) as ->; [|done].
  unfold keyword_at.
  rewrite (prefixb_head 116 c _ (bytes "true") (bytes "rue")) by done.
  rewrite (prefixb_head 102 c _ (bytes "false") (bytes "alse")) by done.
  rewrite (prefixb_head 110 c _ (bytes "null") (bytes "ull")) by done.
  rewrite (prefixb_head 115 c _ (bytes "string") (bytes "tring")) by done.
  rewrite (prefixb_head 98 c _ (bytes "boolean") (bytes "oolean")) by done. done.
Qed.

(** * The tokenizer is the reference tokenizer *)

Lemma advances_unread p a c q :
  lex_wf p -> advances p (a ++ [c]) q ->
  wpr (buffer_ungetc q) (fun q0 => advances p a q0 /\ rest q0 = c :: rest q).
Proof.
  intros Hwf Ha. pose proof Ha as [Hm Hz Hn Hr Hwq]. rewrite length_app in Hn. simpl in Hn.
  assert (Hq0 : lex_wf (set_nread (nread q - 1) q)).
  { destruct Hwq. constructor; simpl; try done. lia. }
  unfold buffer_ungetc. wp.
  { apply wpr_guard; [apply Nat.ltb_lt; lia|]. simpl. set (q0 := set_nread _ q) in *.
    assert (rest q0 = c :: rest q) as Hr0; [|split; [|done]].
    - pose proof (rest_length q0 Hq0) as Hl0. pose proof (rest_length p Hwf) as Hlp.
      rewrite Hr in Hlp. rewrite !length_app in Hlp. simpl in Hlp.
      assert (Hd : rest q0 = drop (length a) (rest p)).
      { unfold rest. simpl. rewrite Hm, Hz, skipn_firstn_comm, drop_drop.
        f_equal; [lia|]. f_equal. lia. }
      rewrite Hd, Hr, <-app_assoc, drop_app_length. done.
    - constructor; simpl; try done; [lia|]. rewrite Hr0, Hr, <-app_assoc. done. }
Qed.

Lemma nextsym_spec p :
  lex_wf p -> token p <> TOK_EOF ->
  wpr (nextsym p) (fun '(st, q) => token_post p (ref_next (rest p)) st q).
Proof.
  intros Hwf Ht. unfold nextsym. rewrite decide_False by done.
  set (p' := set_token _ _). assert (Hs : same_pos p p') by done.
  pose proof (same_pos_rest _ _ Hs) as Hrp. pose proof (same_pos_wf _ _ Hs Hwf) as Hwf'.
  wp. eapply wpr_mono; [eapply (skip_ws_spec _ p'); [done|]|].
  { rewrite rest_length by done. lia. }
  intros [r q] [[Htok _] H]. rewrite Hrp in H. unfold ref_next.
  destruct (mem 12 _).
  { destruct H as [-> [a Ha]]. simpl. split; [|done]. exists a.
    eapply advances_same; [by eapply same_advances | done]. }
  destruct (drop _ (rest p)) as [|c d].
  { destruct H as [-> Ha]. simpl. split; [eexists; eapply advances_same; [by eapply same_advances|done]|].
    split_and!; try done. eapply (advances_rest p (rest p)).
    - eapply advances_same; [by eapply same_advances | done].
    - by rewrite app_nil_r.
    - done. }
  destruct H as (-> & Ha & Hd). apply same_advances with (p := p) in Ha; [|done].
  assert (Hwq : lex_wf q) by (by destruct Ha).
  assert (Hb : is_byte c).
  { destruct Ha as [_ _ _ Hr _]. destruct Hwf as [_ _ _ Hby].
    assert (c ∈ rest p) as Hin by (rewrite Hr; set_solver).
    unfold rest in Hin. apply elem_of_take in Hin as (i & Hin & _).
    rewrite lookup_drop in Hin. by eapply Forall_lookup_1 in Hin. }
  rewrite number_start_schar by done.
  destruct (Z.eqb_spec c 255) as [->|Hc255].
  { simpl. split; [eexists; by eapply advances_same | done]. }
  destruct (number_start c) eqn:Hnum.
  - wp. eapply wpr_mono; [eapply (advances_unread p _ c q); done|]. intros q0 [Ha0 Hr0].
    eapply wpr_mono; [eapply (get_number_spec q0 c)|].
    + by destruct Ha0.
    + done.
    + by apply number_start_legal.
    + intros [st q2] [[a2 Ha2] Hpost]. rewrite Hr0, Hd in Hpost.
      split; [eexists; by eapply advances_trans | done].
  - wp. eapply wpr_mono; [by apply get_token_spec|].
    intros [t q2] [[a2 Ha2] Hpost]. fold (ref_token c d). rewrite Hd in Hpost. simpl.
    split; [eexists; eapply advances_same; [by eapply advances_trans | done]|].
    destruct (ref_token c d) as [[[t' txt] d']|].
    + destruct Hpost as (-> & Hne & Hr2 & Hv). rewrite decide_False by done. done.
    + subst t. done.
Qed.

Lemma hex4_quote s d : hex4 (s ++ 34 :: d) = hex4 s.
Proof. destruct s as [|a [|b [|c [|e s]]]]; unfold hex4; simpl; rewrite ?andb_false_r; done. Qed.

Lemma qscan_ok prev s d : qstring_ok prev s = true -> qscan prev (s ++ 34 :: d) = Some s.
Proof.
  revert prev. induction s as [|c s IH]; intros prev H.
  - cbn [qstring_ok] in H. cbn [app]. rewrite qscan_cons, H. done.
  - cbn [qstring_ok] in H. fold (hex4 s) in H. apply andb_prop in H as [H Hs].
    apply andb_prop in H as [H Hc]. cbn [app]. rewrite qscan_cons.
    unfold qchar_ok. rewrite hex4_quote, H. 
    destruct (prev =? ch "\").
    + rewrite andb_false_r, Hc. simpl. by rewrite IH.
    + rewrite andb_true_r. apply negb_true_iff in Hc. rewrite Hc. simpl. by rewrite IH.
Qed.

Lemma qscan_inv prev d s :
  qscan prev d = Some s -> qstring_ok prev s = true /\ exists d', d = s ++ 34 :: d'.
Proof.
  revert prev s. induction d as [|c d IH]; intros prev s; [done|]. rewrite qscan_cons.
  destruct ((c =? 34) && negb (prev =? ch "\")) eqn:Hq.
  - intros [= <-]. apply andb_prop in Hq as [Hc Hn]. apply Z.eqb_eq in Hc. subst c.
    split; [done | by exists d].
  - destruct (qchar_ok _ c d) eqn:Hok; [|done]. intros (t & Ht & ->)%fmap_Some_1.
    apply IH in Ht as [Hokt [d' ->]]. split; [|by exists d'].
    cbn [qstring_ok]. fold (hex4 t). unfold qchar_ok in Hok. rewrite hex4_quote in Hok.
    apply andb_prop in Hok as [H1 H2]. rewrite H1, Hokt.
    destruct (prev =? ch "\"); [by rewrite H2|].
    rewrite andb_true_r in Hq. by rewrite Hq.
Qed.

Lemma number_at_shorter c d t r :
  mem c legal_number = true -> number_at (c :: d) = Some (t, r) -> (length r < S (length d))%nat.
Proof.
  intros Hc. unfold number_at. cbn [span_len]. rewrite Hc. cbn [take drop].
  set (k := span_len _ d). pose proof (length_drop d k).
  destruct (drop k d) as [|x d']; simpl in *.
  - destruct (number_ok _); intros; simplify_eq. simpl. lia.
  - destruct (x =? 0); [done|]. destruct (number_ok _); intros; simplify_eq.
    destruct (x =? 255); simpl; lia.
Qed.

(** The end of the input aside, a token consumes something. *)
Lemma ref_next_shorter d t txt d' :
  ref_next d = Some (t, txt, d') -> (length d' <= length d)%nat /\ (t = TOK_EOF \/ (length d' < length d)%nat).
Proof.
  unfold ref_next. set (n := span_len isspace d). destruct (mem 12 _); [done|].
  pose proof (length_drop d n). destruct (drop n d) as [|c e]; simpl in *.
  { intros. simplify_eq. simpl. split; [lia | by left]. }
  assert (Hlt : (length d' < S (length e))%nat -> (length d' <= length d)%nat
            /\ (t = TOK_EOF \/ (length d' < length d)%nat)) by (intros; split; [|right]; lia).
  destruct (c =? 255); [intros; simplify_eq; apply Hlt; lia|].
  destruct (number_start c) eqn:Hn.
  { intros ([t0 r0] & Hnum & ?)%fmap_Some_1. simplify_eq. apply Hlt.
    eapply number_at_shorter; [by apply number_start_legal | done]. }
  destruct (punctuation c); [intros; simplify_eq; apply Hlt; lia|].
  destruct (c =? 34).
  - intros (s & Hs & ?)%fmap_Some_1. simplify_eq. apply Hlt. rewrite length_drop. lia.
  - intros ([t0 k] & Hk & ?)%fmap_Some_1. simplify_eq. apply Hlt.
    assert (0 < k)%nat by (unfold keyword_at in Hk; repeat case_match; simplify_eq; lia).
    destruct k; [lia|]. rewrite length_drop. simpl. lia.
Qed.

(** What the text of a value looks like. *)
Lemma qstring_ok_nonzero prev s : qstring_ok prev s = true -> Forall (fun c => c <> 0) s.
Proof.
  revert prev. induction s as [|c s IH]; intros prev H; [done|]. cbn [qstring_ok] in H.
  apply andb_prop in H as [H Hs]. constructor; [|by eapply IH].
  intros ->. done.
Qed.

Lemma legal_nonzero s :
  Forall (fun c => mem c legal_number = true) s -> Forall (fun c => c <> 0) s.
Proof. intros H. eapply Forall_impl; [exact H|]. intros c Hc ->. done. Qed.

Lemma ref_next_value d t txt d' :
  ref_next d = Some (t, txt, d') -> hasvalue t = Ret true ->
  Forall (fun c => c <> 0) txt /\ (t = TOK_NUMBER -> number_ok txt = true).
Proof.
  unfold ref_next. destruct (mem 12 _); [done|].
  destruct (drop _ d) as [|c e]; [by intros [= <- <- <-]|].
  destruct (c =? 255); [by intros [= <- <- <-]|].
  destruct (number_start c).
  { intros ([t0 r0] & Hnum & ?)%fmap_Some_1 _. simplify_eq. unfold number_at in Hnum.
    assert (Hl := span_len_take (fun c => mem c legal_number) (c :: e)).
    destruct (drop _ (c :: e)); [|case_match; [done|]];
      (destruct (number_ok _) eqn:Hok; [|done]); injection Hnum as <- _;
      split; try done; by apply legal_nonzero. }
  destruct (punctuation c) eqn:Hp.
  { intros [= <- <- <-] Hv. apply punctuation_known in Hp as [_ Hp]. congruence. }
  destruct (c =? 34).
  - intros (s & Hs & ?)%fmap_Some_1 _. simplify_eq. apply qscan_inv in Hs as [Hs _].
    split; [by eapply qstring_ok_nonzero | done].
  - intros ([t0 k] & Hk & ?)%fmap_Some_1 Hv. simplify_eq.
    unfold keyword_at in Hk. repeat case_match; by simplify_eq.
Qed.

(** The keyword [boolean] only comes from its text. *)
Lemma strstr_app_none a b w : strstr (a ++ b) w = None -> strstr b w = None.
Proof.
  induction a as [|c a IH]; [done|]. simpl. destruct (prefixb w _); [done|].
  intros H%fmap_None. auto.
Qed.

Lemma strstr_prefix d w : strstr d w = None -> prefixb w d = false.
Proof. destruct d; simpl; destruct (prefixb w _); done. Qed.

Lemma ref_next_boolean d t txt d' :
  strstr d (bytes "boolean") = None -> ref_next d = Some (t, txt, d') -> t <> TOK_BOOLEAN.
Proof.
  intros Hn. unfold ref_next. set (n := span_len isspace d). destruct (mem 12 _); [done|].
  assert (Hd : strstr (drop n d) (bytes "boolean") = None).
  { apply (strstr_app_none (take n d)). by rewrite take_drop. }
  destruct (drop n d) as [|c e]; [by intros [= <- <- <-]|].
  destruct (c =? 255); [by intros [= <- <- <-]|].
  destruct (number_start c).
  { intros ([t0 r0] & _ & ?)%fmap_Some_1. by simplify_eq. }
  destruct (punctuation c) eqn:Hp.
  { intros [= <- <- <-] ->. unfold punctuation in Hp. repeat case_match; by simplify_eq. }
  destruct (c =? 34).
  - intros (s & Hs & ?)%fmap_Some_1. by simplify_eq.
  - intros ([t0 k] & Hk & ?)%fmap_Some_1. simplify_eq.
    apply strstr_prefix in Hd. unfold keyword_at in Hk. rewrite Hd in Hk.
    repeat case_match; by simplify_eq.
Qed.

Lemma skip_spaces_digit d s : isdigit d = true -> skip_spaces (d :: s) = d :: s.
Proof. intros H. unfold skip_spaces. simpl. by rewrite digit_not_space. Qed.

Lemma skip_minus_digit d s : isdigit d = true -> skip_minus (d :: s) = d :: s.
Proof. unfold isdigit, in_range. intros H. zreflect. simpl. destruct (Z.eqb_spec d 45); [lia | done]. Qed.

Lemma skip_minus_split s :
  exists sg, s = sg ++ skip_minus s /\ (sg = [] \/ sg = [ch "-"]).
Proof.
  unfold skip_minus. destruct s as [|c s]; [exists []; auto|].
  destruct (Z.eqb_spec c 45) as [->|]; [exists [ch "-"] | exists []]; auto.
Qed.

Lemma positive_isdigit c : in_range (ch "1") (ch "9") c = true -> isdigit c = true.
Proof. unfold isdigit, in_range. intros H. zreflect. bool_side. Qed.

(** * Theorems *)

(** C30. On every well-formed buffer that is not at its end [nextsym] returns,
    and it is the reference tokenizer [ref_next]: it succeeds exactly when that
    finds a token, with the same token, the same value text and the same text
    left to read; otherwise it fails and leaves the token unknown. In both
    cases it only moves forward inside the document.  The value of a string is the
    text between its quotes, each escape as it is written. *)
Theorem nextsym_refines p :
  lex_wf p -> token p <> TOK_EOF ->
  exists st q, nextsym p = Ret (st, q) /\ token_post p (ref_next (rest p)) st q.
Proof.
  intros Hwf Ht. destruct (wpr_eq _ _ (nextsym_spec p Hwf Ht)) as [[st q] [-> H]]. eauto.
Qed.

(** [get_qstring] accepts exactly a text without NUL, tab, newline and byte
    255 in which every backslash starts a complete escape, up to the first
    quote that is not escaped; that text becomes the value and reading goes on
    after the quote. Anything else is [TOK_UNKNOWN]. *)
Theorem get_qstring_exact p :
  lex_wf p ->
  exists t q, get_qstring p = Ret (t, q) /\
    ((exists s d, rest p = s ++ 34 :: d /\ qstring_ok 0 s = true
        /\ t = TOK_QSTRING /\ value_text q = Some s /\ rest q = d)
     \/ (t = TOK_UNKNOWN /\ forall s d, rest p = s ++ 34 :: d -> qstring_ok 0 s = false)).
Proof.
  intros Hwf. destruct (wpr_eq _ _ (get_qstring_spec p Hwf)) as [[t q] [-> H]].
  exists t, q. split; [done|]. destruct (qscan 0 (rest p)) as [s|] eqn:Hs.
  - left. destruct H as (-> & Ha & Hv). apply qscan_inv in Hs as [Hok [d Hd]].
    exists s, d. split_and!; try done. eapply advances_rest; [done | | done].
    by rewrite Hd, <-app_assoc.
  - right. destruct H as [-> _]. split; [done|]. intros s d Hd.
    destruct (qstring_ok 0 s) eqn:Hok; [|done]. by rewrite Hd, qscan_ok in Hs.
Qed.

(** C31. [isinteger] decides the integers of the JSON grammar: an optional minus
    sign, then 0 or a digit 1-9 followed by digits. *)
Theorem isinteger_grammar s :
  isinteger s = true <->
  exists sg ds, s = sg ++ ds /\ (sg = [] \/ sg = [ch "-"])
    /\ (ds = [ch "0"] \/ exists c r, ds = c :: r /\ in_range (ch "1") (ch "9") c = true
                                     /\ forallb isdigit r = true).
Proof.
  unfold isinteger. split.
  - destruct (skip_minus_split s) as (sg & Hs & Hsg). intros H.
    exists sg, (skip_minus s). split; [done|]. split; [done|].
    destruct (skip_minus s) as [|c r]; [done|].
    destruct (is_zero (c :: r)) eqn:Hz.
    { left. destruct r; [|done]. simpl in Hz. zreflect. by subst c. }
    destruct (has_leading_zero (c :: r)); [done|]. apply andb_prop in H as [? ?]. eauto 6.
  - intros (sg & ds & -> & Hsg & Hds).
    destruct Hds as [-> | (c & r & -> & Hc & Hr)]; [by destruct Hsg as [->| ->]|].
    pose proof (positive_isdigit _ Hc) as Hd.
    assert (skip_minus (sg ++ c :: r) = c :: r) as ->.
    { destruct Hsg as [->| ->]; [by apply skip_minus_digit | done]. }
    destruct (is_zero (c :: r)); [done|].
    unfold has_leading_zero. rewrite skip_spaces_digit, skip_minus_digit by done.
    rewrite Hc, Hr. unfold in_range in Hc. zreflect.
    destruct r; [done|]. destruct (Z.eqb_spec c 48); [lia | done].
Qed.

(** The check on the digits of a unicode escape calls [strlen] on the rest
    of the document: when no NUL follows the document in memory, it reads past
    the end of it. *)
Theorem unicode_escape_overreads p d :
  (nread p < buf_size p <= length (buf_mem p))%nat ->
  Forall (fun c => c <> 0) (buf_mem p) -> rest p = ch "\" :: ch "u" :: d ->
  get_qstring p = Fault OutOfBounds.
Proof.
  intros Hn Hz Hr.
  (* the characters themselves are inside the document *)
  assert (Hl : length (rest p) = (buf_size p - nread p)%nat)
    by (unfold rest; rewrite length_take, length_drop; lia).
  rewrite Hr in Hl. simpl in Hl.
  assert (H0 : buf_mem p !! nread p = Some 92 /\ buf_mem p !! S (nread p) = Some 117).
  { unfold rest in Hr. split.
    - rewrite <-(Nat.add_0_r (nread p)), <-lookup_drop.
      rewrite <-(lookup_take_lt _ (buf_size p - nread p)) by lia. by rewrite Hr.
    - rewrite <-(Nat.add_1_r (nread p)), <-lookup_drop.
      rewrite <-(lookup_take_lt _ (buf_size p - nread p)) by lia. by rewrite Hr. }
  destruct H0 as [H0 H1].
  assert (Hstrlen : forall s, Forall (fun c => c <> 0) s -> strlen (Some <$> s) = Fault OutOfBounds).
  { induction 1 as [|c s Hc _ IH]; [done|]. rewrite fmap_cons. cbn [strlen].
    destruct (Z.eqb_spec c 0); [done|]. by rewrite IH. }
  unfold get_qstring. destruct (buf_size p - nread p)%nat as [|[|k]] eqn:Hk; [lia|lia|].
  unfold buffer_currpos. cbn -[get_qstring_loop]. rewrite Hk.
  cbn [get_qstring_loop]. unfold buffer_getc at 1. cbn.
  destruct (Nat.eqb_spec (nread p) (buf_size p)); [lia|]. rewrite H0. cbn.
  unfold buffer_getc. cbn. destruct (buf_size p) as [|sz] eqn:Hsz; [lia|].
  destruct (Nat.eqb_spec (nread p) sz); [lia|]. rewrite H1. cbn.
  unfold four_hex_digits, buffer_cstr. cbn.
  rewrite Hstrlen; [done|]. by apply Forall_drop.
Qed.

End Strtold.

(** * Witnesses *)

(** A [strtold] that takes every text it is given. *)
Definition strtold_all (s : list Z) : unit * bool * nat := (tt, false, length s).

Definition demo_lexer (s : list Z) : lexer :=
  mkLexer (s ++ [0]) 0 (length s) TOK_ERROR None None 1 None.

Ltac solve_lex_wf :=
  constructor; [vm_compute; lia | vm_compute; lia | decide_closed | ];
  repeat constructor; vm_compute; discriminate.

Lemma nextsym_refines_witness :
  exists st q, nextsym strtold_all (demo_lexer (bytes " -12, 3")) = Ret (st, q)
    /\ token_post (demo_lexer (bytes " -12, 3"))
         (Some (TOK_NUMBER, bytes "-12", bytes ", 3")) st q.
Proof.
  apply (nextsym_refines strtold_all (demo_lexer (bytes " -12, 3"))); [solve_lex_wf | done].
Defined.

Lemma get_qstring_exact_witness :
  exists t q, get_qstring (demo_lexer (bytes "a\u00e6" ++ [34; 44])) = Ret (t, q) /\
    ((exists s d, bytes "a\u00e6" ++ [34; 44] = s ++ 34 :: d /\ qstring_ok 0 s = true
        /\ t = TOK_QSTRING /\ value_text q = Some s /\ rest q = d)
     \/ (t = TOK_UNKNOWN /\ forall s d, bytes "a\u00e6" ++ [34; 44] = s ++ 34 :: d ->
           qstring_ok 0 s = false)).
Proof.
  apply (get_qstring_exact (demo_lexer (bytes "a\u00e6" ++ [34; 44]))). solve_lex_wf.
Defined.

Lemma unicode_escape_overreads_witness :
  get_qstring (mkLexer (bytes "\u00e6") 0 6 TOK_ERROR None None 1 None) = Fault OutOfBounds.
Proof.
  apply (unicode_escape_overreads _ (bytes "00e6")); [vm_compute; lia | | reflexivity].
  repeat constructor; discriminate.
Defined.
