(* ===== verification/Json.v ===== *)
(** The JSON parser, the second half of json/json.c.

    [json_parser] is [struct json_parser] with its [struct buffer]: the
    tokenizer's fields ([lex], see JsonLex), the buffer [savedvalue] the value
    of a token is copied to, and the array nesting [narrays].  [value] is
    [struct value]; the list of an array is NULL until it has an element, which
    is the empty list here, and the list of an object is never NULL.  A [list]
    is the sequence it holds, and [list_new] and [list_add] take from the
    allocator what the functions of meta_list.c take.

    [accept_value], [accept_array_elements] and [accept_objects] call each
    other; their fuel counts calls and loop iterations, and [parse_fuel], twice
    the length of the document and a bit, is enough for every document. *)

From Stdlib Require Import ZArith Lia.
From stdpp Require Import base list numbers.
From S2P Require Import Prelude Convert JsonLex.

Section Json.
Context {LD : Type} (strtold : list Z -> LD * bool * nat).

(** * Values *)

Inductive valuetype : Set :=
| T_UNKNOWN | T_QSTRING | T_INTEGER | T_ARRAY | T_OBJECT | T_TRUE | T_FALSE
| T_NULL | T_DOUBLE | T_STRING | T_BOOLEAN.

Inductive value : Type :=
| VAL_UNKNOWN
| VAL_QSTRING (sval : list Z)
| VAL_INTEGER (lval : Z)
| VAL_ARRAY (aval : list value)
| VAL_OBJECT (oval : list (list Z * value))
| VAL_TRUE
| VAL_FALSE
| VAL_NULL
| VAL_DOUBLE (ldval : LD)
| VAL_STRING
| VAL_BOOLEAN.

(** The [void *] argument of [value_new]. *)
Inductive value_arg : Type :=
| NoArg
| StringArg (s : list Z)
| ArrayArg (l : list value)
| ObjectArg (l : list (list Z * value)).

Definition sizeof_list_node : Z := 24.
Definition sizeof_value : Z := 32.
Definition sizeof_object : Z := 16.
Definition sizeof_json_parser : Z := 96.

Definition dupstr (src : list Z) : C (option (list Z)) :=
  let* ok := alloc_ok (zlen src + 1) in
  ret (if ok : bool then Some src else None).

(** The payload [value_new] stores, [None] for a failed allocation. A pointer
    of the wrong kind for its type is an access outside any object. *)
Definition value_payload (type : valuetype) (arg : value_arg) : C (option value) :=
  match type, arg with
  | T_QSTRING, StringArg s =>
      let* d := dupstr s in ret (VAL_QSTRING <$> d)
  | T_DOUBLE, StringArg s =>
      let* r := lift (isreal strtold s) in
      c_assert r;;
      let '(v, _, _) := strtold s in ret (Some (VAL_DOUBLE v))
  | T_INTEGER, StringArg s =>
      c_assert (isinteger s);;
      let '(v, _, _) := strtol 10 s in ret (Some (VAL_INTEGER v))
  | T_ARRAY, ArrayArg l => ret (Some (VAL_ARRAY l))
  | T_OBJECT, ObjectArg l => ret (Some (VAL_OBJECT l))
  | T_UNKNOWN, _ => lift (Fault Died)
  | T_BOOLEAN, _ => ret (Some VAL_BOOLEAN)
  | T_STRING, _ => ret (Some VAL_STRING)
  | T_TRUE, _ => ret (Some VAL_TRUE)
  | T_FALSE, _ => ret (Some VAL_FALSE)
  | T_NULL, _ => ret (Some VAL_NULL)
  | _, _ => lift (Fault OutOfBounds)
  end.

Definition value_new (type : valuetype) (arg : value_arg) : C (option value) :=
  let* ok := alloc_ok sizeof_value in
  if negb ok then ret None else value_payload type arg.

(** [object_new(name, NULL)]: the name of the new object. *)
Definition object_new (name : list Z) : C (option (list Z)) :=
  let* ok := alloc_ok sizeof_object in
  if negb ok then ret None else dupstr name.

(** [list_new] and [list_add] on the sequence a list holds; [isnull] says that
    the list is NULL, when [list_add] makes one. *)
Definition list_new {A} : C (option (list A)) :=
  let* ok := alloc_ok sizeof_list_node in
  ret (if ok : bool then Some [] else None).

Definition list_add {A} (isnull : bool) (l : list A) (x : A) : C (option (list A)) :=
  let* h := (if isnull then list_new else ret (Some l)) in
  match h with
  | None => ret None
  | Some l =>
      let* ok := alloc_ok sizeof_list_node in
      ret (if ok : bool then Some (l ++ [x]) else None)
  end.

(** * The parser *)

Record json_parser : Type := mkParser {
  lex : lexer;
  savedvalue : block;
  valuesize : Z;
  narrays : Z;
  jp_value : option value
}.

Definition set_lex (l : lexer) (p : json_parser) : json_parser :=
  mkParser l (savedvalue p) (valuesize p) (narrays p) (jp_value p).
Definition set_saved (b : block) (n : Z) (p : json_parser) : json_parser :=
  mkParser (lex p) b n (narrays p) (jp_value p).
Definition set_narrays (n : Z) (p : json_parser) : json_parser :=
  mkParser (lex p) (savedvalue p) (valuesize p) n (jp_value p).
Definition set_jp_value (v : option value) (p : json_parser) : json_parser :=
  mkParser (lex p) (savedvalue p) (valuesize p) (narrays p) v.

Definition parser_fail (p : json_parser) (e : errno) : status * json_parser :=
  (failure, set_lex (set_errno e (lex p)) p).

Definition isok (st : status) : bool := match st with success => true | failure => false end.

Definition next (p : json_parser) : C (status * json_parser) :=
  let* (st, l) := lift (nextsym strtold (lex p)) in ret (st, set_lex l p).

(** [n] bytes of the document's memory. *)
Definition mem_read (l : lexer) (off n : nat) : res (list Z) :=
  if (off + n <=? length (buf_mem l))%nat then Ret (take n (drop off (buf_mem l)))
  else Fault OutOfBounds.

Definition savevalue (p : json_parser) : C (status * json_parser) :=
  match value_start (lex p), value_end (lex p) with
  | Some vs, Some ve =>
      c_assert (vs <=? ve)%nat;;
      c_assert (negb (valuesize p =? 0));;
      let n := Z.of_nat (ve - vs) + 1 in
      let* (st, p) :=
        (if valuesize p <? n then
           let* tmp := realloc (savedvalue p) n in
           match tmp with
           | None => ret (parser_fail p ENOMEM)
           | Some b => ret (success, set_saved b n p)
           end
         else ret (success, p)) in
      if negb (isok st) then ret (failure, p)
      else
        let* s := lift (mem_read (lex p) vs (ve - vs)) in
        let* b := lift (wr (savedvalue p) 0 (Some <$> s)) in
        let* b := lift (stc b (n - 1) 0) in
        ret (success, set_saved b (valuesize p) p)
  | _, _ => lift (Fault AssertFailed)
  end.

(** The string in [savedvalue]. *)
Definition saved_string (p : json_parser) : C (list Z) := lift (str_at (savedvalue p)).

Definition accept (p : json_parser) (tok : tokentype) : C (status * json_parser) :=
  if decide (token (lex p) = tok) then
    let* hv := lift (hasvalue tok) in
    let* (st, p) := (if hv : bool then savevalue p else ret (success, p)) in
    if negb (isok st) then ret (parser_fail p EINVAL)
    else
      let* (st, p) := next p in
      if isok st then ret (success, p) else ret (parser_fail p EINVAL)
  else ret (parser_fail p EINVAL).

Definition MAX_ARRAY_NESTING : Z := 19.

(** [accept_object], given [accept_value]. *)
Definition accept_object
    (accept_value : json_parser -> C (option value * json_parser))
    (p : json_parser) : C (option (list Z * value) * json_parser) :=
  let* (st, p) := accept p TOK_QSTRING in
  if negb (isok st) then ret (None, p)
  else
    let* s := saved_string p in
    let* obj := object_new s in
    match obj with
    | None => ret (None, p)
    | Some name =>
        let* (st, p) := accept p TOK_COLON in
        if negb (isok st) then ret (None, p)
        else
          let* (v, p) := accept_value p in
          ret ((fun x => (name, x)) <$> v, p)
    end.

(** The part of [accept_value] after the two containers. *)
Definition accept_scalar (p : json_parser) : C (option value * json_parser) :=
  let* (st, p) := accept p TOK_TRUE in
  if isok st then let* v := value_new T_TRUE NoArg in ret (v, p) else
  let* (st, p) := accept p TOK_FALSE in
  if isok st then let* v := value_new T_FALSE NoArg in ret (v, p) else
  let* (st, p) := accept p TOK_NULL in
  if isok st then let* v := value_new T_NULL NoArg in ret (v, p) else
  let* (st, p) := accept p TOK_NUMBER in
  if isok st then
    let* s := saved_string p in
    if isinteger s then let* v := value_new T_INTEGER (StringArg s) in ret (v, p)
    else
      let* r := lift (isreal strtold s) in
      if r : bool then let* v := value_new T_DOUBLE (StringArg s) in ret (v, p)
      else lift (Fault Died)
  else
  let* (st, p) := accept p TOK_QSTRING in
  if isok st then
    let* s := saved_string p in
    let* v := value_new T_QSTRING (StringArg s) in ret (v, p)
  else
  let* (st, p) := accept p TOK_STRING in
  if isok st then let* v := value_new T_STRING NoArg in ret (v, p) else
  let* (st, p) := accept p TOK_BOOLEAN in
  if isok st then let* v := value_new T_BOOLEAN NoArg in ret (v, p) else
  ret (None, p).

(** [accept_objects] and [accept_array_elements], given their [do]-loops
    [objects_loop] and [array_loop] below; a loop gives [None] when a failed
    allocation makes the function return NULL. *)
Definition accept_objects
    (objects_loop : json_parser -> list (list Z * value) -> Z -> Z ->
                    C (option (list (list Z * value) * Z * Z) * json_parser))
    (p : json_parser) : C (option (list (list Z * value)) * json_parser) :=
  let* result := list_new in
  match result with
  | None => ret (None, p)
  | Some lst =>
      let* (r, p) := objects_loop p lst (-1) 0 in
      match r with
      | None => ret (None, p)
      | Some (lst, ncommas, nobjects) =>
          if (0 <? ncommas) && negb (nobjects - ncommas =? 1) then ret (None, p)
          else
            let* (st, p) := accept p TOK_OBJECTEND in
            ret (if isok st then Some lst else None, p)
      end
  end.

Definition accept_array_elements
    (array_loop : json_parser -> list value -> Z -> Z ->
                  C (option (list value * Z * Z) * json_parser))
    (p : json_parser) : C (option value * json_parser) :=
  let p := set_narrays (narrays p + 1) p in
  if MAX_ARRAY_NESTING <? narrays p then ret (None, p)
  else
    let* (r, p) := array_loop p [] (-1) 0 in
    match r with
    | None => ret (None, p)
    | Some (lst, ncommas, nvalues) =>
        let* (st, p) := accept p TOK_ARRAYEND in
        if negb (isok st) then ret (None, p)
        else
          let p := set_narrays (narrays p - 1) p in
          if (0 <? nvalues) && negb (nvalues - ncommas =? 1) then ret (None, p)
          else let* v := value_new T_ARRAY (ArrayArg lst) in ret (v, p)
    end.

Definition is_nil {A} (l : list A) : bool := match l with [] => true | _ => false end.

Definition is_null {A} (x : option A) : bool := match x with None => true | _ => false end.

Fixpoint accept_value (fuel : nat) (p : json_parser) : C (option value * json_parser) :=
  match fuel with
  | O => lift (Fault FuelOut)
  | S fuel =>
      let* (st, p) := accept p TOK_OBJECTSTART in
      if isok st then
        let* (lst, p) := accept_objects (objects_loop fuel) p in
        match lst with
        | None => ret (None, p)
        | Some lst => let* v := value_new T_OBJECT (ObjectArg lst) in ret (v, p)
        end
      else
      let* (st, p) := accept p TOK_ARRAYSTART in
      if isok st then accept_array_elements (array_loop fuel) p
      else accept_scalar p
  end
with array_loop (fuel : nat) (p : json_parser) (lst : list value) (ncommas nvalues : Z)
    : C (option (list value * Z * Z) * json_parser) :=
  match fuel with
  | O => lift (Fault FuelOut)
  | S fuel =>
      let* (v, p) := accept_value fuel p in
      if is_nil lst && is_null v then ret (Some (lst, ncommas, nvalues), p)
      else
        let* r := match v with
                  | None => ret (Some (lst, nvalues))
                  | Some v =>
                      let* l := list_add (is_nil lst) lst v in
                      ret ((fun l => (l, nvalues + 1)) <$> l)
                  end in
        match r with
        | None => ret (None, p)
        | Some (lst, nvalues) =>
            let ncommas := ncommas + 1 in
            let* (st, p) := accept p TOK_COMMA in
            if isok st then array_loop fuel p lst ncommas nvalues
            else ret (Some (lst, ncommas, nvalues), p)
        end
  end
with objects_loop (fuel : nat) (p : json_parser) (lst : list (list Z * value))
    (ncommas nobjects : Z) : C (option (list (list Z * value) * Z * Z) * json_parser) :=
  match fuel with
  | O => lift (Fault FuelOut)
  | S fuel =>
      let* (obj, p) := accept_object (accept_value fuel) p in
      let* r := match obj with
                | None => ret (Some (lst, nobjects))
                | Some obj =>
                    let* l := list_add false lst obj in
                    ret ((fun l => (l, nobjects + 1)) <$> l)
                end in
      match r with
      | None => ret (None, p)
      | Some (lst, nobjects) =>
          let ncommas := ncommas + 1 in
          let* (st, p) := accept p TOK_COMMA in
          if isok st then objects_loop fuel p lst ncommas nobjects
          else ret (Some (lst, ncommas, nobjects), p)
      end
  end.

(** Every call and every iteration but the first of a function consumes a
    token. *)
Definition parse_fuel (p : json_parser) : nat := 2 * buf_size (lex p) + 3.

Definition json_parse (p : json_parser) : C (status * json_parser) :=
  let* (st, p) := next p in
  if negb (isok st) then ret (parser_fail p ENOENT)
  else
    let* (v, p) := accept_value (parse_fuel p) p in
    let p := set_jp_value v p in
    match v with
    | None => ret (parser_fail p EINVAL)
    | Some _ =>
        let* (st, p) := next p in
        if isok st then ret (parser_fail p E2BIG) else ret (success, p)
    end.

Definition VALUESIZE : Z := 4096.

(** [src] is the memory at the document's address, [srclen] of its bytes the
    document; the first token is [TOK_ERROR], the enumerator 0. *)
Definition buffer_init (src : list Z) (srclen : nat) : C (option json_parser) :=
  c_assert (0 <? srclen)%nat;;
  let* b := malloc VALUESIZE in
  match b with
  | None => ret None
  | Some b =>
      ret (Some (mkParser (mkLexer src 0 srclen TOK_ERROR None None 1 None) b VALUESIZE 0 None))
  end.

Definition json_parser_new (src : list Z) (srclen : nat) : C (option json_parser) :=
  c_assert (0 <? srclen)%nat;;
  let* ok := alloc_ok sizeof_json_parser in
  if negb ok then ret None else buffer_init src srclen.

Definition json_parser_values (p : json_parser) : option value := jp_value p.
Definition json_parser_errno (p : json_parser) : option errno := jp_errno (lex p).

Definition json_parser_errtext (p : json_parser) : list Z :=
  match jp_errno (lex p) with
  | None => bytes "no error"
  | Some _ => bytes "unknown error"
  end.

(** A document from its text: what [testfile] does with a file. *)
Definition parse_document (src : list Z) (srclen : nat) : C (option (status * json_parser)) :=
  let* p := json_parser_new src srclen in
  match p with
  | None => ret None
  | Some p => let* r := json_parse p in ret (Some r)
  end.

(** * Printing *)

Definition newline : list Z := [10].
Definition quote : list Z := [34].

(** The loops of [print_array] and [print_objects]: a separator unless the node
    is the last one. *)
Definition print_list {A} (print : A -> list Z) : list A -> list Z :=
  fix go l :=
    match l with
    | [] => []
    | x :: l' =>
        print x ++ (match l' with [] => [] | _ => bytes "," ++ newline end) ++ go l'
    end.

Fixpoint print_value (print_ld : LD -> list Z) (v : value) : list Z :=
  match v with
  | VAL_QSTRING s => quote ++ s ++ quote
  | VAL_DOUBLE d => print_ld d
  | VAL_INTEGER n => decimal n
  | VAL_ARRAY l =>
      match l with
      | [] => bytes "[ ]" ++ newline
      | _ => bytes "[" ++ newline ++ print_list (print_value print_ld) l ++ bytes "]" ++ newline
      end
  | VAL_OBJECT l =>
      bytes "{" ++ newline
      ++ print_list (fun '(name, v) =>
           quote ++ name ++ quote ++ bytes " :" ++ print_value print_ld v) l
      ++ newline ++ bytes "}"
  | VAL_STRING => bytes "string"
  | VAL_TRUE => bytes "true"
  | VAL_FALSE => bytes "false"
  | VAL_BOOLEAN => bytes "boolean"
  | VAL_NULL => bytes "null"
  | VAL_UNKNOWN => bytes "unknown"
  end.

(** * The invariant of the parser *)

(** The value of the token is a string without NUL, and a number if it is one. *)
Definition value_ok (l : lexer) : Prop :=
  hasvalue (token l) = Ret true ->
  exists txt, value_text l = Some txt /\ Forall is_char txt
    /\ (token l = TOK_NUMBER -> number_ok strtold txt = true).

Record parser_wf (p : json_parser) : Prop := mkParserWf {
  pwf_lex : lex_wf (lex p);
  pwf_value : value_ok (lex p);
  pwf_size : 0 < valuesize p;
  pwf_saved : zlen (savedvalue p) = valuesize p
}.

(** Tokens left, the current one included. *)
Definition measure (p : json_parser) : nat :=
  length (rest (lex p)) + (if decide (token (lex p) = TOK_EOF) then 0 else 1).

Lemma value_text_bounds l txt :
  value_text l = Some txt ->
  exists vs ve, value_start l = Some vs /\ value_end l = Some ve /\ (vs <= ve)%nat
    /\ mem_read l vs (ve - vs) = Ret txt /\ length txt = (ve - vs)%nat
    /\ (ve <= length (buf_mem l))%nat.
Proof.
  unfold value_text, mem_read. destruct (value_start l) as [vs|], (value_end l) as [ve|]; try done.
  destruct (Nat.leb_spec vs ve), (Nat.leb_spec ve (length (buf_mem l))); simpl; try done.
  intros [= <-]. exists vs, ve. destruct (Nat.leb_spec (vs + (ve - vs)) (length (buf_mem l))); [|lia].
  split_and!; try done. rewrite length_take, length_drop. lia.
Qed.

Lemma value_text_set_errno e l : value_text (set_errno e l) = value_text l.
Proof. done. Qed.

Lemma parser_wf_errno p e : parser_wf p -> parser_wf (set_lex (set_errno e (lex p)) p).
Proof.
  intros [Hl Hv Hs Hz]. constructor; simpl; [|done..].
  by apply (same_pos_wf (lex p)).
Qed.

(** The value of the token lands in [savedvalue]. *)
Lemma savevalue_spec p txt o :
  parser_wf p -> value_text (lex p) = Some txt -> Forall is_char txt ->
  wp (savevalue p) o (fun '(st, q) o' =>
    parser_wf q /\ narrays q = narrays p /\ jp_value q = jp_value p
    /\ match st with
       | success => lex q = lex p /\ str_at (savedvalue q) = Ret txt /\ (o = [] -> o' = [])
       | failure => lex q = set_errno ENOMEM (lex p) /\ (o = [] -> PTRDIFF_MAX < zlen txt + 1)
       end).
Proof.
  intros Hwf Ht Hc. destruct (value_text_bounds _ _ Ht) as (vs & ve & Hvs & Hve & Hle & Hrd & Hl & _).
  pose proof Hwf as [Hlw Hvo Hsz Hsv]. unfold savevalue. rewrite Hvs, Hve. wp.
  { apply wpr_guard; [by apply Nat.leb_le|]. wp.
    apply wpr_guard; [apply negb_true_iff, Z.eqb_neq; lia|].
    set (n := Z.of_nat (ve - vs) + 1). assert (Hn : n = zlen txt + 1) by (unfold n, zlen; lia).
    assert (Hstore : forall b vsz o', zlen b = vsz -> n <= vsz -> (o = [] -> o' = []) ->
      wp (let* s := lift (mem_read (lex p) vs (ve - vs)) in
          let* b := lift (wr b 0 (Some <$> s)) in
          let* b := lift (stc b (n - 1) 0) in
          ret (success, set_saved b vsz p)) o' (fun '(st, q) o' =>
        parser_wf q /\ narrays q = narrays p /\ jp_value q = jp_value p
        /\ match st with
           | success => lex q = lex p /\ str_at (savedvalue q) = Ret txt /\ (o = [] -> o' = [])
           | failure => lex q = set_errno ENOMEM (lex p) /\ (o = [] -> PTRDIFF_MAX < zlen txt + 1)
           end)).
    { intros b vsz o' Hb Hnv Ho. rewrite Hrd. wp. rewrite wr_head by zlia. wp.
      destruct (drop (length (Some <$> txt)) b) as [|x t] eqn:Hd.
      { apply (f_equal length) in Hd. rewrite length_drop, length_fmap in Hd. simpl in Hd.
        unfold zlen in *. lia. }
      rewrite stc_app by (rewrite zlen_fmap; lia). wp.
      split; [constructor; simpl; try done; [lia|]|].
      - rewrite zlen_app, zlen_cons. rewrite <-Hb. apply (f_equal length) in Hd.
        rewrite length_drop, length_fmap in Hd. simpl in Hd.
        unfold zlen in *. rewrite length_fmap. lia.
      - simpl. split_and!; try done. by apply str_at_cstr. }
    zcase.
    - wp. apply wp_realloc.
      + intros o' _ Ho. wp. cbn [isok negb savedvalue valuesize lex set_saved].
        apply Hstore; [|reflexivity | done].
        unfold zlen in *. rewrite length_app, length_take, length_replicate. lia.
      + intros o' Ho. wp. simpl. split; [by apply parser_wf_errno|]. split_and!; try done.
        intros Hoo. apply Ho in Hoo as [_ ?]. lia.
    - wp. simpl. by apply Hstore. }
Qed.

Lemma value_text_bytes l txt :
  lex_wf l -> value_text l = Some txt -> Forall is_byte txt.
Proof.
  intros [_ _ _ Hb]. unfold value_text. repeat case_match; try done. intros [= <-].
  by apply Forall_take, Forall_drop.
Qed.

Lemma bytes_chars s : Forall is_byte s -> Forall (fun c => c <> 0) s -> Forall is_char s.
Proof.
  induction 1 as [|c s Hc _ IH]; intros Hz; [done|]. apply Forall_cons_iff in Hz as [? ?].
  constructor; [unfold is_char, is_byte in *; lia | auto].
Qed.

Lemma token_value_ok l d st q :
  lex_wf q -> token_post l (ref_next strtold d) st q -> value_ok q.
Proof.
  intros Hwf [_ H] Hv. destruct (ref_next strtold d) as [[[t txt] d']|] eqn:Hr.
  - destruct H as (_ & Ht & _ & Htxt). rewrite Ht in *.
    destruct (ref_next_value strtold _ _ _ _ Hr Hv) as [Hz Hn].
    exists txt. split_and!; [by apply Htxt | | done].
    apply bytes_chars; [|done]. eapply value_text_bytes; [exact Hwf | by apply Htxt].
  - destruct H as [_ Ht]. by rewrite Ht in Hv.
Qed.

Lemma next_spec p o :
  parser_wf p -> token (lex p) <> TOK_EOF ->
  wp (next p) o (fun '(st, q) o' =>
    o' = o /\ parser_wf q /\ (exists l, q = set_lex l p)
    /\ token_post (lex p) (ref_next strtold (rest (lex p))) st (lex q)).
Proof.
  intros [Hl Hv Hs Hz] Ht. unfold next. wp.
  eapply wpr_mono; [by apply nextsym_spec|]. intros [st l] Hpost. wp.
  assert (lex_wf l) by (by destruct Hpost as [[a []] _]).
  split; [done|]. split; [constructor; simpl; try done; by eapply token_value_ok|].
  split; [by exists l | done].
Qed.

(** ** [accept] *)

Lemma accept_other p tok :
  token (lex p) <> tok -> accept p tok = ret (parser_fail p EINVAL).
Proof. intros H. unfold accept. by rewrite decide_False. Qed.

(** No [boolean] now or later. *)
Definition no_boolean (l : lexer) : Prop :=
  token l <> TOK_BOOLEAN /\ strstr (rest l) (bytes "boolean") = None.

Lemma token_post_no_boolean l st q :
  token_post l (ref_next strtold (rest l)) st q -> no_boolean l -> no_boolean q.
Proof.
  intros [[a [_ _ _ Hr _]] H] [_ Hn]. split.
  - destruct (ref_next strtold (rest l)) as [[[t txt] d]|] eqn:E.
    + destruct H as (_ & -> & _). by eapply ref_next_boolean.
    + by destruct H as [_ ->].
  - rewrite Hr in Hn. by eapply strstr_app_none.
Qed.

Lemma token_post_measure l st q :
  token_post l (ref_next strtold (rest l)) st q ->
  (length (rest q) <= length (rest l))%nat
  /\ (st = success -> token q = TOK_EOF \/ (length (rest q) < length (rest l))%nat).
Proof.
  intros [[a [_ _ _ Hr _]] H]. split; [rewrite Hr, length_app; lia|].
  intros ->. destruct (ref_next strtold (rest l)) as [[[t txt] d]|] eqn:E; [|by destruct H].
  destruct H as (_ & -> & -> & _). by apply ref_next_shorter in E as [_ E].
Qed.

(** The effect of [accept] that every caller needs, whatever the allocator
    does. *)
Record accepted (p : json_parser) (tok : tokentype) (st : status) (q : json_parser) : Prop :=
  mkAccepted {
    acc_wf : parser_wf q;
    acc_narrays : narrays q = narrays p;
    acc_value : jp_value q = jp_value p;
    acc_measure : (measure q <= measure p)%nat;
    acc_progress : st = success -> (measure q < measure p)%nat /\ token (lex p) = tok;
    acc_boolean : no_boolean (lex p) -> no_boolean (lex q);
    acc_saved : forall txt, st = success -> hasvalue tok = Ret true ->
                value_text (lex p) = Some txt -> str_at (savedvalue q) = Ret txt
  }.

Lemma accepted_failure p q tok e :
  parser_wf q -> narrays q = narrays p -> jp_value q = jp_value p ->
  same_pos (lex p) (lex q) -> token (lex q) = token (lex p) ->
  accepted p tok failure (set_lex (set_errno e (lex q)) q).
Proof.
  intros Hwf Hn Hv Hs Ht. pose proof (same_pos_rest _ _ Hs) as Hr.
  constructor; try done.
  - by apply parser_wf_errno.
  - unfold measure. simpl. change (rest (set_errno e (lex q))) with (rest (lex q)).
    by rewrite Hr, Ht.
  - unfold no_boolean. simpl. change (rest (set_errno e (lex q))) with (rest (lex q)).
    by rewrite Hr, Ht.
Qed.

(** With memory to spare it succeeds when the token is the one asked for and
    another follows. *)
Definition accepts_next (p : json_parser) (tok : tokentype) (o : oracle)
    (st : status) (q : json_parser) (o' : oracle) : Prop :=
  o = [] -> zlen (buf_mem (lex p)) < PTRDIFF_MAX ->
  o' = [] /\ (token (lex p) = tok -> ref_next strtold (rest (lex p)) <> None ->
              st = success /\ token_post (lex p) (ref_next strtold (rest (lex p))) success (lex q)).

Lemma accept_next_spec p0 p tok o o0 :
  parser_wf p -> token (lex p0) <> TOK_EOF -> token (lex p0) = tok -> lex p = lex p0 ->
  narrays p = narrays p0 -> jp_value p = jp_value p0 ->
  (forall txt, hasvalue tok = Ret true -> value_text (lex p0) = Some txt ->
     str_at (savedvalue p) = Ret txt) ->
  (o0 = [] -> o = []) ->
  wp (let* (st, q) := next p in
      if isok st then ret (success, q) else ret (parser_fail q EINVAL)) o
    (fun '(st, q) o' => accepted p0 tok st q /\ accepts_next p0 tok o0 st q o').
Proof.
  intros Hwf Hne Htok Hlex Hn Hv Hs Ho. wp.
  eapply wp_mono; [apply next_spec; by rewrite ?Hlex|].
  intros [st q] o' (-> & Hwq & [l ->] & Hpost). rewrite Hlex in Hpost. simpl in Hpost.
  destruct (token_post_measure _ _ _ Hpost) as [Hm1 Hm2].
  pose proof (token_post_no_boolean _ _ _ Hpost) as Hnb.
  assert (Hmp : measure p0 = (length (rest (lex p0)) + 1)%nat)
    by (unfold measure; by rewrite decide_False).
  destruct st; simpl; wp.
  - split.
    + constructor; try done; simpl.
      * by apply (parser_wf_errno (set_lex l p)).
      * rewrite Hmp. unfold measure. simpl. change (rest (set_errno EINVAL l)) with (rest l).
        case_decide; lia.
    + intros Hoo Hsz. split; [auto|]. intros _ Hr. destruct Hpost as [_ Hpost].
      destruct (ref_next strtold (rest (lex p0))) as [[[t txt] d]|]; [by destruct Hpost | done].
  - split; [|intros Hoo Hsz; auto].
    assert (measure (set_lex l p) < measure p0)%nat.
    { rewrite Hmp. unfold measure. simpl. specialize (Hm2 eq_refl). case_decide; [lia|].
      destruct Hm2; [done | lia]. }
    constructor; try done; [lia | auto].
Qed.

Lemma accept_spec p tok o :
  parser_wf p -> tok <> TOK_EOF -> (tok <> TOK_BOOLEAN \/ token (lex p) <> TOK_BOOLEAN) ->
  wp (accept p tok) o (fun '(st, q) o' =>
    accepted p tok st q /\ accepts_next p tok o st q o').
Proof.
  intros Hwf He Hb. destruct (decide (token (lex p) = tok)) as [Htok|Htok].
  2: { rewrite accept_other by done. wp. split; [by apply accepted_failure|].
       intros -> _. split; done. }
  unfold accept. rewrite decide_True by done.
  assert (tok <> TOK_BOOLEAN) as Hb' by (destruct Hb; congruence).
  assert (exists hv, hasvalue tok = Ret hv) as [hv Hhv] by (destruct tok; simpl; eauto; done).
  rewrite Hhv. wp. destruct hv.
  - assert (Hval := pwf_value p Hwf). unfold value_ok in Hval. rewrite Htok in Hval.
    destruct (Hval Hhv) as (txt & Ht & Hc & _). wp.
    eapply wp_mono; [by apply savevalue_spec|].
    intros [st q] o' (Hwq & Hn & Hv & Hst). destruct st; simpl.
    + destruct Hst as [Hlex Hbig]. wp. split.
      * apply accepted_failure; try done; by rewrite Hlex.
      * intros Hoo Hsz. specialize (Hbig Hoo).
        destruct (value_text_bounds _ _ Ht) as (vs & ve & _ & _ & _ & _ & Hl & Hve).
        unfold zlen in *. lia.
    + destruct Hst as (Hlex & Hstr & Ho). apply (accept_next_spec p q); try done; [congruence|].
      intros txt' _ Ht'. congruence.
  - wp. simpl. apply (accept_next_spec p p); try done; [congruence|]. congruence.
Qed.

(** * The parser returns *)

Lemma until_nul_chars s : Forall is_char s -> until_nul s = s.
Proof.
  intros H. unfold until_nul. assert (span_len nonnul s = length s) as ->; [|apply firstn_all].
  rewrite <-(app_nil_r s) at 1. apply span_len_app; [|done].
  eapply Forall_impl; [|exact H]. intros c Hc. unfold nonnul. by rewrite is_char_nonzero.
Qed.

Lemma number_ok_inv s :
  number_ok strtold s = true -> Forall is_char s ->
  isinteger s = true \/ (isinteger s = false /\ isreal strtold s = Ret true).
Proof.
  unfold number_ok, isnumber. intros H Hc. rewrite Nat.leb_refl, firstn_all, until_nul_chars in H by done.
  case_match; [|done]. case_match; [by simplify_eq|].
  destruct (isinteger s); [auto|]. right. by subst.
Qed.

Definition progress (p q : json_parser) : Prop :=
  parser_wf q /\ no_boolean (lex q) /\ (measure q <= measure p)%nat.

Lemma progress_refl p : parser_wf p -> no_boolean (lex p) -> progress p p.
Proof. intros. split_and!; done. Qed.

Lemma progress_trans p q r : progress p q -> progress q r -> progress p r.
Proof. intros (? & ? & ?) (? & ? & ?). split_and!; [done | done | lia]. Qed.

Lemma accepted_progress p tok st q :
  accepted p tok st q -> no_boolean (lex p) -> progress p q.
Proof. intros [] Hb. split_and!; auto. Qed.

Lemma wp_value_new_const p (type : valuetype) (v : value) o (Q : option value * json_parser -> oracle -> Prop) :
  value_payload type NoArg = ret (Some v) ->
  (forall r o', Q (r, p) o') ->
  wp (let* v := value_new type NoArg in ret (v, p)) o Q.
Proof.
  intros Hp HQ. unfold value_new. rewrite Hp. wp. apply wp_alloc_ok. intros b o' _ _.
  destruct b; simpl; wp; apply HQ.
Qed.

(** The string [accept] saved. *)
Lemma accepted_string p tok q :
  parser_wf p -> accepted p tok success q -> hasvalue tok = Ret true ->
  exists txt, str_at (savedvalue q) = Ret txt /\ value_text (lex p) = Some txt
    /\ Forall is_char txt /\ (tok = TOK_NUMBER -> number_ok strtold txt = true).
Proof.
  intros Hwf Hacc Hhv. destruct (acc_progress _ _ _ _ Hacc eq_refl) as [_ Htok].
  destruct (pwf_value p Hwf) as (txt & Ht & Hc & Hn); [by rewrite Htok|].
  exists txt. split_and!; try done; [by eapply acc_saved | by rewrite <-Htok].
Qed.

Lemma wp_dupstr s o (Q : option (list Z) -> oracle -> Prop) :
  (forall r o', (r = Some s \/ r = None) -> (o = [] -> zlen s < PTRDIFF_MAX -> o' = [] /\ r = Some s) -> Q r o') ->
  wp (dupstr s) o Q.
Proof.
  intros HQ. unfold dupstr. wp. apply wp_alloc_ok. intros b o' _ Ho. wp.
  apply HQ; [destruct b; auto|]. intros Hoo Hs. destruct (Ho Hoo) as [-> ->].
  split; [done|]. rewrite (proj2 (Z.leb_le _ _)); [done | lia].
Qed.

Lemma accept_scalar_total p o :
  parser_wf p -> no_boolean (lex p) ->
  wp (accept_scalar p) o (fun '(v, q) _ => progress p q).
Proof.
  intros Hwf Hnb. unfold accept_scalar.
  assert (Hcase : forall tok (k1 k2 : json_parser -> C (option value * json_parser)) p1 o1,
    tok <> TOK_EOF -> progress p p1 ->
    (forall q o', progress p q -> accepted p1 tok success q -> wp (k1 q) o' (fun '(v, q) _ => progress p q)) ->
    (forall q o', progress p q -> wp (k2 q) o' (fun '(v, q) _ => progress p q)) ->
    wp (let* (st, q) := accept p1 tok in if isok st then k1 q else k2 q) o1
       (fun '(v, q) _ => progress p q)).
  { intros tok k1 k2 p1 o1 He Hp1 H1 H2. pose proof Hp1 as (Hw1 & Hn1 & _). wp.
    eapply wp_mono; [apply accept_spec; [done | done | right; by destruct Hn1]|].
    intros [st q] o' [Hacc _]. pose proof (accepted_progress _ _ _ _ Hacc Hn1) as Hpq.
    destruct st; simpl; [apply H2 | apply H1; [|done]]; by eapply progress_trans. }
  pose proof (progress_refl p Hwf Hnb) as Hp0.
  eapply Hcase; [done | done | |]. { intros. by eapply wp_value_new_const. }
  clear Hp0. intros p1 o1 Hp1.
  eapply Hcase; [done | done | |]. { intros. by eapply wp_value_new_const. }
  clear p1 o1 Hp1. intros p1 o1 Hp1.
  eapply Hcase; [done | done | |]. { intros. by eapply wp_value_new_const. }
  clear p1 o1 Hp1. intros p1 o1 Hp1.
  eapply Hcase; [done | done | |].
  { intros q o' Hq Hacc. destruct Hp1 as [Hw1 _].
    destruct (accepted_string _ _ _ Hw1 Hacc eq_refl) as (txt & Hs & _ & Hc & Hok).
    unfold saved_string. rewrite Hs. wp.
    destruct (number_ok_inv txt) as [Hi|[Hi Hr]]; [by apply Hok | done | rewrite Hi | rewrite Hi].
    - unfold value_new. wp. apply wp_alloc_ok. intros b ? _ _.
      destruct b; simpl; [rewrite Hi|]; wp; [|done]. destruct (strtol 10 txt) as [[v e] n]. by wp.
    - rewrite Hr. wp. unfold value_new. wp. apply wp_alloc_ok. intros b ? _ _.
      destruct b; simpl; [rewrite Hr|]; wp; [|done]. destruct (strtold txt) as [[v e] n]. by wp. }
  clear p1 o1 Hp1. intros p1 o1 Hp1.
  eapply Hcase; [done | done | |].
  { intros q o' Hq Hacc. destruct Hp1 as [Hw1 _].
    destruct (accepted_string _ _ _ Hw1 Hacc eq_refl) as (txt & Hs & _ & Hc & Hok).
    unfold saved_string. rewrite Hs. wp. unfold value_new. wp. apply wp_alloc_ok.
    intros b ? _ _. destruct b; simpl; wp; [|done]. apply wp_dupstr. intros r ? _ _. by wp. }
  clear p1 o1 Hp1. intros p1 o1 Hp1.
  eapply Hcase; [done | done | |]. { intros. by eapply wp_value_new_const. }
  clear p1 o1 Hp1. intros p1 o1 Hp1.
  eapply Hcase; [done | done | |]. { intros. by eapply wp_value_new_const. }
  intros. by wp.
Qed.

(** One [accept] in a function of which nothing but [progress] is claimed. *)
Lemma accept_total p0 p tok o (Q : status * json_parser -> oracle -> Prop) :
  tok <> TOK_EOF -> progress p0 p ->
  (forall st q o', progress p0 q -> accepted p tok st q -> Q (st, q) o') ->
  wp (accept p tok) o Q.
Proof.
  intros He Hp HQ. pose proof Hp as (Hw & Hn & _).
  eapply wp_mono; [apply accept_spec; [done | done | right; by destruct Hn]|].
  intros [st q] o' [Hacc _]. apply HQ; [|done].
  eapply progress_trans; [done | by eapply accepted_progress].
Qed.

Lemma progress_narrays p q n : progress p q -> progress p (set_narrays n q).
Proof. intros ([] & ? & ?). split_and!; [by constructor | done | done]. Qed.

Lemma wp_list_new {A} o (Q : option (list A) -> oracle -> Prop) :
  (forall o', Q (Some []) o') -> (forall o', Q None o') -> wp list_new o Q.
Proof. intros HS HN. unfold list_new. wp. apply wp_alloc_ok. intros [] ? _ _; wp; auto. Qed.

Lemma wp_list_add {A} isnull (l : list A) x o (Q : option (list A) -> oracle -> Prop) :
  (forall r o', Q r o') -> wp (list_add isnull l x) o Q.
Proof.
  intros HQ. unfold list_add. wp.
  assert (forall h o', wp (match h with
    | None => ret None
    | Some l => let* ok := alloc_ok sizeof_list_node in ret (if ok : bool then Some (l ++ [x]) else None)
    end) o' Q) as Hk.
  { intros [] ?; wp; [|done]. apply wp_alloc_ok. intros. by wp. }
  destruct isnull; [apply wp_list_new; intros; [apply (Hk (Some [])) | apply (Hk None)]|]. wp. apply wp_alloc_ok. intros. by wp.
Qed.

Lemma accept_object_total (av : json_parser -> C (option value * json_parser)) p o :
  parser_wf p -> no_boolean (lex p) ->
  (forall q o', progress p q -> wp (av q) o' (fun '(v, r) _ => progress q r)) ->
  wp (accept_object av p) o (fun '(v, q) _ => progress p q).
Proof.
  intros Hw Hn Hav. unfold accept_object.
  wp; apply (accept_total p p); [done | by apply progress_refl|]. intros st q o1 Hq Hacc.
  destruct st; simpl; wp; [done|].
  destruct (accepted_string _ _ _ Hw Hacc eq_refl) as (txt & Hs & _).
  unfold saved_string. rewrite Hs. wp. unfold object_new. wp. apply wp_alloc_ok.
  intros b o2 _ _. destruct b; simpl; wp; [|done]. apply wp_dupstr. intros r o3 _ _.
  destruct r as [name|]; wp; [|done].
  wp; apply (accept_total p q); [done | done|]. intros st q2 o4 Hq2 _. destruct st; simpl; wp; [done|].
  eapply wp_mono; [by apply Hav|]. intros [v q3] ? H3. wp. by eapply progress_trans.
Qed.

Lemma accept_objects_total (loop : json_parser -> list (list Z * value) -> Z -> Z ->
    C (option (list (list Z * value) * Z * Z) * json_parser)) p o :
  parser_wf p -> no_boolean (lex p) ->
  (forall l nc nv o', wp (loop p l nc nv) o' (fun '(r, q) _ => progress p q)) ->
  wp (accept_objects loop p) o (fun '(v, q) _ => progress p q).
Proof.
  intros Hw Hn Hl. unfold accept_objects. wp. apply wp_list_new; intros o1; wp.
  2: by apply progress_refl.
  eapply wp_mono; [apply Hl|]. intros [[[[l nc] nv]|] q] o2 Hq; [|by wp].
  destruct (_ && _); [by wp|].
  wp; apply (accept_total p q); [done | done|]. intros st q2 o3 Hq2 _. by wp.
Qed.

Lemma accept_array_elements_total (loop : json_parser -> list value -> Z -> Z ->
    C (option (list value * Z * Z) * json_parser)) p o :
  parser_wf p -> no_boolean (lex p) ->
  (forall q l nc nv o', progress p q -> wp (loop q l nc nv) o' (fun '(r, q2) _ => progress q q2)) ->
  wp (accept_array_elements loop p) o (fun '(v, q) _ => progress p q).
Proof.
  intros Hw Hn Hl. unfold accept_array_elements.
  assert (Hp1 : progress p (set_narrays (narrays p + 1) p))
    by (by apply progress_narrays, progress_refl).
  zcase; [by wp|]. wp. eapply wp_mono; [by apply Hl|].
  intros [[[[l nc] nv]|] q] o1 Hq; [|wp; simpl; exact (progress_trans _ _ _ Hp1 Hq)].
  wp; apply (accept_total p q); [done | exact (progress_trans _ _ _ Hp1 Hq)|].
  intros st q2 o2 Hq2 _. destruct st; simpl; wp; [done|].
  apply (progress_narrays _ _ (narrays q2 - 1)) in Hq2.
  destruct (_ && _); [by wp|]. unfold value_new. wp. apply wp_alloc_ok.
  intros b o3 _ _. destruct b; simpl; by wp.
Qed.

(** The fuel: a call needs one more than twice the tokens left, a loop two. *)
Lemma accept_value_total fuel :
  (forall p o, parser_wf p -> no_boolean (lex p) -> (2 * measure p + 1 <= fuel)%nat ->
     wp (accept_value fuel p) o (fun '(v, q) _ => progress p q))
  /\ (forall p l nc nv o, parser_wf p -> no_boolean (lex p) -> (2 * measure p + 2 <= fuel)%nat ->
     wp (array_loop fuel p l nc nv) o (fun '(r, q) _ => progress p q))
  /\ (forall p l nc nv o, parser_wf p -> no_boolean (lex p) -> (2 * measure p + 2 <= fuel)%nat ->
     wp (objects_loop fuel p l nc nv) o (fun '(r, q) _ => progress p q)).
Proof.
  induction fuel as [|fuel (IHv & IHa & IHo)]; [split_and!; intros; lia|]. split_and!.
  - intros p o Hw Hn Hf. cbn [accept_value].
    wp; apply (accept_total p p); [done | by apply progress_refl|]. intros st q o1 Hq Hacc.
    destruct st; simpl.
    + wp; apply (accept_total p q); [done | done|]. intros st q2 o2 Hq2 Hacc2.
      destruct st; simpl.
      * destruct Hq2 as (? & ? & ?). eapply wp_mono; [by apply accept_scalar_total|].
        intros [v q3] ? ?. by eapply progress_trans; [split_and!|].
      * destruct (acc_progress _ _ _ _ Hacc2 eq_refl) as [Hm _].
        destruct Hq as (_ & _ & Hm1). pose proof Hq2 as (? & ? & ?).
        eapply wp_mono; [apply accept_array_elements_total; try done|].
        -- intros q3 l nc nv o3 (? & ? & ?). apply IHa; try done. lia.
        -- intros [v q3] ? ?. by eapply progress_trans.
    + destruct (acc_progress _ _ _ _ Hacc eq_refl) as [Hm _]. pose proof Hq as (? & ? & ?).
      wp. eapply wp_mono; [apply accept_objects_total; try done|].
      * intros l nc nv o3. apply IHo; try done. lia.
      * intros [lst q3] o3 Hq3. assert (progress p q3) by (by eapply progress_trans).
        destruct lst; [|by wp]. unfold value_new. wp. apply wp_alloc_ok.
        intros b o4 _ _. destruct b; simpl; by wp.
  - intros p l nc nv o Hw Hn Hf. cbn [array_loop]. wp.
    eapply wp_mono; [apply IHv; [done | done | lia]|]. intros [v q] o1 Hq.
    destruct (is_nil l && is_null v); [by wp|]. wp.
    assert (Hk : forall r o2, wp (match r with
      | None => ret (None, q)
      | Some (lst, nvalues) =>
          let ncommas := nc + 1 in
          let* (st, p) := accept q TOK_COMMA in
          if isok st then array_loop fuel p lst ncommas nvalues
          else ret (Some (lst, ncommas, nvalues), p)
      end) o2 (fun '(r, q) _ => progress p q)).
    { intros [[l' nv']|] o2; [|by wp].
      cbv zeta. wp; apply (accept_total p q); [done | done|]. intros st q2 o3 Hq2 Hacc.
      destruct st; simpl; [by wp|].
      destruct (acc_progress _ _ _ _ Hacc eq_refl) as [Hm _].
      destruct Hq as (_ & _ & ?). pose proof Hq2 as (? & ? & ?).
      eapply wp_mono; [apply IHa; [done | done | lia]|].
      intros [r q3] ? ?. by eapply progress_trans. }
    destruct v; [|apply wp_ret, (Hk (Some (l, nv)))].
    apply wp_bind, wp_list_add. intros r o2. apply wp_ret, Hk.
  - intros p l nc nv o Hw Hn Hf. cbn [objects_loop]. wp.
    eapply wp_mono; [apply accept_object_total; [done | done|]|].
    { intros q o1 (? & ? & ?). apply IHv; [done | done | lia]. }
    intros [obj q] o1 Hq. wp.
    assert (Hk : forall r o2, wp (match r with
      | None => ret (None, q)
      | Some (lst, nobjects) =>
          let ncommas := nc + 1 in
          let* (st, p) := accept q TOK_COMMA in
          if isok st then objects_loop fuel p lst ncommas nobjects
          else ret (Some (lst, ncommas, nobjects), p)
      end) o2 (fun '(r, q) _ => progress p q)).
    { intros [[l' nv']|] o2; [|by wp].
      cbv zeta. wp; apply (accept_total p q); [done | done|]. intros st q2 o3 Hq2 Hacc.
      destruct st; simpl; [by wp|].
      destruct (acc_progress _ _ _ _ Hacc eq_refl) as [Hm _].
      destruct Hq as (_ & _ & ?). pose proof Hq2 as (? & ? & ?).
      eapply wp_mono; [apply IHo; [done | done | lia]|].
      intros [r q3] ? ?. by eapply progress_trans. }
    destruct obj; [|apply wp_ret, (Hk (Some (l, nv)))].
    apply wp_bind, wp_list_add. intros r o2. apply wp_ret, Hk.
Qed.

(** * The grammar *)

Abbreviation tok := (tokentype * list Z)%type.

(** The tokens of a text. *)
Inductive lexes : list Z -> list tok -> Prop :=
| lexes_end d txt d' : ref_next strtold d = Some (TOK_EOF, txt, d') -> lexes d []
| lexes_token d t txt d' ts :
    ref_next strtold d = Some (t, txt, d') -> t <> TOK_EOF -> lexes d' ts ->
    lexes d ((t, txt) :: ts).

(** [denotes n v ts]: the tokens [ts] are the value [v], whose arrays nest at
    most [n] deep. Objects do not count, as in the parser. *)
Inductive denotes : Z -> value -> list tok -> Prop :=
| D_true n : denotes n VAL_TRUE [(TOK_TRUE, [])]
| D_false n : denotes n VAL_FALSE [(TOK_FALSE, [])]
| D_null n : denotes n VAL_NULL [(TOK_NULL, [])]
| D_string n : denotes n VAL_STRING [(TOK_STRING, [])]
| D_qstring n s : denotes n (VAL_QSTRING s) [(TOK_QSTRING, s)]
| D_integer n s v e k :
    isinteger s = true -> strtol 10 s = (v, e, k) -> denotes n (VAL_INTEGER v) [(TOK_NUMBER, s)]
| D_double n s v e k :
    isinteger s = false -> isreal strtold s = Ret true -> strtold s = (v, e, k) ->
    denotes n (VAL_DOUBLE v) [(TOK_NUMBER, s)]
| D_array n l ts :
    0 < n -> elements (n - 1) l ts ->
    denotes n (VAL_ARRAY l) ((TOK_ARRAYSTART, []) :: ts ++ [(TOK_ARRAYEND, [])])
| D_object n l ts :
    members n l ts ->
    denotes n (VAL_OBJECT l) ((TOK_OBJECTSTART, []) :: ts ++ [(TOK_OBJECTEND, [])])
with elements : Z -> list value -> list tok -> Prop :=
| E_none n : elements n [] []
| E_one n v ts : denotes n v ts -> elements n [v] ts
| E_more n v ts v' l ts' :
    denotes n v ts -> elements n (v' :: l) ts' ->
    elements n (v :: v' :: l) (ts ++ (TOK_COMMA, []) :: ts')
with members : Z -> list (list Z * value) -> list tok -> Prop :=
| M_none n : members n [] []
| M_one n name v ts :
    denotes n v ts -> members n [(name, v)] ((TOK_QSTRING, name) :: (TOK_COLON, []) :: ts)
| M_more n name v ts m l ts' :
    denotes n v ts -> members n (m :: l) ts' ->
    members n ((name, v) :: m :: l)
      ((TOK_QSTRING, name) :: (TOK_COLON, []) :: ts ++ (TOK_COMMA, []) :: ts').

Scheme denotes_rule := Minimality for denotes Sort Prop
with elements_rule := Minimality for elements Sort Prop
with members_rule := Minimality for members Sort Prop.
Combined Scheme grammar_rules from denotes_rule, elements_rule, members_rule.

(** ** The parser at a list of tokens *)

Definition head_token (ts : list tok) : tokentype :=
  match ts with [] => TOK_EOF | (t, _) :: _ => t end.

Definition at_tokens (p : json_parser) (ts : list tok) : Prop :=
  parser_wf p /\ zlen (buf_mem (lex p)) < PTRDIFF_MAX /\
  match ts with
  | [] => token (lex p) = TOK_EOF
  | (t, txt) :: ts' => token (lex p) = t /\ t <> TOK_EOF
      /\ (hasvalue t = Ret true -> value_text (lex p) = Some txt) /\ lexes (rest (lex p)) ts'
  end.

Lemma at_tokens_head p ts : at_tokens p ts -> token (lex p) = head_token ts.
Proof. intros (_ & _ & H). destruct ts as [|[t txt] ts]; [done | by destruct H]. Qed.

Lemma at_tokens_errno p ts e : at_tokens p ts -> at_tokens (set_lex (set_errno e (lex p)) p) ts.
Proof. intros (Hw & Hs & H). split; [by apply parser_wf_errno | done]. Qed.

Lemma wp_accept_skip p ts tok o (Q : status * json_parser -> oracle -> Prop) :
  at_tokens p ts -> head_token ts <> tok ->
  (forall q, at_tokens q ts -> narrays q = narrays p -> Q (failure, q) o) ->
  wp (accept p tok) o Q.
Proof.
  intros Hat Hne HQ. rewrite accept_other by (by rewrite (at_tokens_head p ts)).
  apply HQ; [by apply at_tokens_errno | done].
Qed.

Lemma token_post_lexes l ts q p :
  lexes (rest l) ts -> token_post l (ref_next strtold (rest l)) success q -> lex p = q ->
  parser_wf p -> zlen (buf_mem l) < PTRDIFF_MAX -> at_tokens p ts.
Proof.
  intros Hlex [[a Ha] Hpost] Hlp Hw Hs. split; [done|].
  destruct Ha as [Hm _ _ _ _]. rewrite Hlp, Hm. split; [done|].
  destruct Hlex as [d txt d' Hr | d t txt d' ts Hr Hne Hlex]; rewrite Hr in Hpost.
  - by destruct Hpost as (_ & ? & _).
  - destruct Hpost as (_ & Ht & Hd & Hv). rewrite Hd. split_and!; try done; congruence.
Qed.

Lemma wp_accept_take p t txt ts (Q : status * json_parser -> oracle -> Prop) :
  at_tokens p ((t, txt) :: ts) -> t <> TOK_BOOLEAN ->
  (forall q, at_tokens q ts -> narrays q = narrays p ->
     (hasvalue t = Ret true -> str_at (savedvalue q) = Ret txt /\ zlen txt < PTRDIFF_MAX) ->
     Q (success, q) []) ->
  wp (accept p t) [] Q.
Proof.
  intros (Hw & Hs & Ht & Hne & Hv & Hlex) Hb HQ.
  eapply wp_mono; [apply accept_spec; [done | done | by left]|].
  intros [st q] o' [Hacc Hnext]. destruct (Hnext eq_refl Hs) as [-> Hn].
  destruct Hn as [-> Hpost]; [done | by destruct Hlex; congruence|].
  apply HQ.
  - eapply token_post_lexes; [done | done | done | by destruct Hacc | done].
  - by destruct Hacc.
  - intros Hhv. specialize (Hv Hhv). split; [by eapply acc_saved|].
    destruct (value_text_bounds _ _ Hv) as (vs & ve & _ & _ & _ & _ & Hl & Hve).
    unfold zlen in *. lia.
Qed.

Lemma wp_alloc_small n (Q : bool -> oracle -> Prop) :
  n <= PTRDIFF_MAX -> Q true [] -> wp (alloc_ok n) [] Q.
Proof. intros Hn HQ. unfold wp, alloc_ok. by rewrite (proj2 (Z.leb_le _ _)). Qed.

Lemma wp_value_new type arg (Q : option value -> oracle -> Prop) :
  wp (value_payload type arg) [] Q -> wp (value_new type arg) [] Q.
Proof. intros HQ. unfold value_new. wp. by apply wp_alloc_small. Qed.

Lemma wp_list_add_small {A} isnull (l : list A) x (Q : option (list A) -> oracle -> Prop) :
  (isnull = true -> l = []) -> Q (Some (l ++ [x])) [] -> wp (list_add isnull l x) [] Q.
Proof.
  intros Hn HQ. unfold list_add. wp. destruct isnull.
  - rewrite Hn in HQ by done. unfold list_new. wp. apply wp_alloc_small; [done|]. wp.
    apply wp_alloc_small; [done|]. by wp.
  - wp. apply wp_alloc_small; [done|]. by wp.
Qed.

(** What the parser makes of the tokens of a value. *)
Definition delivers {A} (p : json_parser) (x : A) (tl : list tok)
    (r : A * json_parser) (o : oracle) : Prop :=
  r.1 = x /\ o = [] /\ at_tokens r.2 tl /\ narrays r.2 = narrays p.

Definition parses_value (n : Z) (v : value) (ts : list tok) : Prop :=
  forall p tl fuel, at_tokens p (ts ++ tl) -> narrays p + n <= MAX_ARRAY_NESTING ->
    (2 * length ts + 1 <= fuel)%nat -> wp (accept_value fuel p) [] (delivers p (Some v) tl).

Definition parses_elements (n : Z) (l : list value) (ts : list tok) : Prop :=
  forall p tl fuel acc nc nv, l <> [] -> at_tokens p (ts ++ (TOK_ARRAYEND, []) :: tl) ->
    narrays p + n <= MAX_ARRAY_NESTING -> (2 * length ts + 2 <= fuel)%nat ->
    wp (array_loop fuel p acc nc nv) []
      (delivers p (Some (acc ++ l, nc + zlen l, nv + zlen l)) ((TOK_ARRAYEND, []) :: tl)).

Definition parses_members (n : Z) (l : list (list Z * value)) (ts : list tok) : Prop :=
  forall p tl fuel acc nc nv, l <> [] -> at_tokens p (ts ++ (TOK_OBJECTEND, []) :: tl) ->
    narrays p + n <= MAX_ARRAY_NESTING -> (2 * length ts + 2 <= fuel)%nat ->
    wp (objects_loop fuel p acc nc nv) []
      (delivers p (Some (acc ++ l, nc + zlen l, nv + zlen l)) ((TOK_OBJECTEND, []) :: tl)).

(** Passing over tokens that are not there. *)
Ltac skip_tokens :=
  repeat (wp; eapply wp_accept_skip; [eassumption | done|];
          let q := fresh "q" in let Hat := fresh "Hat" in let Hn := fresh "Hn" in
          intros q Hat Hn; cbn [isok negb]).

Ltac take_token Hs :=
  wp; eapply wp_accept_take; [eassumption | done|];
  let q := fresh "q" in let Hat := fresh "Hat" in let Hn := fresh "Hn" in
  intros q Hat Hn Hs; cbn [isok negb].

(** A value of one token. *)
Lemma parses_scalar n v t txt :
  (forall p tl, at_tokens p ((t, txt) :: tl) -> wp (accept_scalar p) [] (delivers p (Some v) tl)) ->
  t <> TOK_OBJECTSTART -> t <> TOK_ARRAYSTART ->
  parses_value n v [(t, txt)].
Proof.
  intros H Ht1 Ht2 p tl fuel Hat _ Hf. destruct fuel as [|fuel]; [lia|]. cbn [accept_value].
  skip_tokens. eapply wp_mono; [by apply H|].
  intros [r q1] o (H1 & H2 & H3 & H4). split_and!; try done. simpl in *. congruence.
Qed.

Lemma scalar_const n t v type :
  value_payload type NoArg = ret (Some v) ->
  (forall p tl, at_tokens p ((t, []) :: tl) ->
     forall Q : option value * json_parser -> oracle -> Prop,
     (forall q, at_tokens q tl -> narrays q = narrays p ->
        wp (let* v := value_new type NoArg in ret (v, q)) [] Q) -> wp (accept_scalar p) [] Q) ->
  t <> TOK_OBJECTSTART -> t <> TOK_ARRAYSTART ->
  parses_value n v [(t, [])].
Proof.
  intros Hp H Ht1 Ht2. apply parses_scalar; [|done|done]. intros p tl Hat.
  eapply H; [done|]. intros q Hq Hn. wp. apply wp_value_new. rewrite Hp. wp. by split_and!.
Qed.

Lemma parses_true n : parses_value n VAL_TRUE [(TOK_TRUE, [])].
Proof.
  apply (scalar_const n TOK_TRUE _ T_TRUE); [done | | done | done]. intros p tl Hat Q HQ. unfold accept_scalar.
  take_token Hs. by apply HQ.
Qed.

Lemma parses_false n : parses_value n VAL_FALSE [(TOK_FALSE, [])].
Proof.
  apply (scalar_const n TOK_FALSE _ T_FALSE); [done | | done | done]. intros p tl Hat Q HQ. unfold accept_scalar.
  skip_tokens. take_token Hs. apply HQ; [done | congruence].
Qed.

Lemma parses_null n : parses_value n VAL_NULL [(TOK_NULL, [])].
Proof.
  apply (scalar_const n TOK_NULL _ T_NULL); [done | | done | done]. intros p tl Hat Q HQ. unfold accept_scalar.
  skip_tokens. take_token Hs. apply HQ; [done | congruence].
Qed.

Lemma parses_string n : parses_value n VAL_STRING [(TOK_STRING, [])].
Proof.
  apply (scalar_const n TOK_STRING _ T_STRING); [done | | done | done]. intros p tl Hat Q HQ. unfold accept_scalar.
  skip_tokens. take_token Hs. apply HQ; [done | congruence].
Qed.

Lemma parses_qstring n s : parses_value n (VAL_QSTRING s) [(TOK_QSTRING, s)].
Proof.
  apply parses_scalar; [|done|done]. intros p tl Hat. unfold accept_scalar.
  skip_tokens. take_token Hs. destruct (Hs eq_refl) as [Hstr Hl].
  unfold saved_string. rewrite Hstr. wp. apply wp_value_new. simpl. wp. apply wp_dupstr.
  intros r o' _ Ho. destruct (Ho eq_refl Hl) as [-> ->]. wp. split_and!; try done. simpl. congruence.
Qed.

Lemma parses_integer n s v e k :
  isinteger s = true -> strtol 10 s = (v, e, k) -> parses_value n (VAL_INTEGER v) [(TOK_NUMBER, s)].
Proof.
  intros Hi Hv. apply parses_scalar; [|done|done]. intros p tl Hat. unfold accept_scalar.
  skip_tokens. take_token Hs. destruct (Hs eq_refl) as [Hstr _].
  unfold saved_string. rewrite Hstr. wp. rewrite Hi. wp. apply wp_value_new. simpl. rewrite Hi, Hv.
  wp. split_and!; try done. simpl. congruence.
Qed.

Lemma parses_double n s v e k :
  isinteger s = false -> isreal strtold s = Ret true -> strtold s = (v, e, k) ->
  parses_value n (VAL_DOUBLE v) [(TOK_NUMBER, s)].
Proof.
  intros Hi Hr Hv. apply parses_scalar; [|done|done]. intros p tl Hat. unfold accept_scalar.
  skip_tokens. take_token Hs. destruct (Hs eq_refl) as [Hstr _].
  unfold saved_string. rewrite Hstr. wp. rewrite Hi, Hr. wp. apply wp_value_new. simpl. rewrite Hr, Hv.
  wp. split_and!; try done. simpl. congruence.
Qed.

(** No value at a token that starts none. *)
Lemma accept_value_none p t txt ts fuel :
  at_tokens p ((t, txt) :: ts) -> t = TOK_ARRAYEND \/ t = TOK_OBJECTEND -> (0 < fuel)%nat ->
  wp (accept_value fuel p) [] (delivers p None ((t, txt) :: ts)).
Proof.
  intros Hat Ht Hf. destruct fuel as [|fuel]; [lia|]. cbn [accept_value]. unfold accept_scalar.
  destruct Ht as [-> | ->]; skip_tokens; wp; split_and!; try done; simpl; congruence.
Qed.

Lemma denotes_length n v ts : denotes n v ts -> (1 <= length ts)%nat.
Proof. destruct 1; simpl; lia. Qed.

(** The loop of an array, from one element on. *)
Lemma array_step n v ts p tl fuel acc nc nv (Q : option (list value * Z * Z) * json_parser -> oracle -> Prop) :
  parses_value n v ts -> at_tokens p (ts ++ tl) -> narrays p + n <= MAX_ARRAY_NESTING ->
  (2 * length ts + 1 <= fuel)%nat ->
  (forall q, at_tokens q tl -> narrays q = narrays p ->
     wp (let* (st, q) := accept q TOK_COMMA in
         if isok st then array_loop fuel q (acc ++ [v]) (nc + 1) (nv + 1)
         else ret (Some (acc ++ [v], nc + 1, nv + 1), q)) [] Q) ->
  wp (array_loop (S fuel) p acc nc nv) [] Q.
Proof.
  intros Hv Hat Hn Hf HQ. cbn [array_loop]. apply wp_bind.
  eapply wp_mono; [by apply Hv|]. intros [r q] o (Hr & -> & Hq & Hnq). simpl in Hr. subst r.
  rewrite andb_false_r. apply wp_bind, wp_bind, wp_list_add_small; [by destruct acc|].
  apply wp_ret. simpl. by apply HQ.
Qed.

Lemma objects_step n name v ts p tl fuel acc nc nv (Q : option (list (list Z * value) * Z * Z) * json_parser -> oracle -> Prop) :
  parses_value n v ts -> at_tokens p (((TOK_QSTRING, name) :: (TOK_COLON, []) :: ts) ++ tl) ->
  narrays p + n <= MAX_ARRAY_NESTING -> (2 * length ts + 1 <= fuel)%nat ->
  (forall q, at_tokens q tl -> narrays q = narrays p ->
     wp (let* (st, q) := accept q TOK_COMMA in
         if isok st then objects_loop fuel q (acc ++ [(name, v)]) (nc + 1) (nv + 1)
         else ret (Some (acc ++ [(name, v)], nc + 1, nv + 1), q)) [] Q) ->
  wp (objects_loop (S fuel) p acc nc nv) [] Q.
Proof.
  intros Hv Hat Hn Hf HQ. cbn [objects_loop]. apply wp_bind. unfold accept_object. cbn [app] in Hat.
  take_token Hs. destruct (Hs eq_refl) as [Hstr Hl]. unfold saved_string. rewrite Hstr. wp.
  unfold object_new. wp. apply wp_alloc_small; [done|]. simpl. apply wp_dupstr.
  intros r o' _ Ho. destruct (Ho eq_refl Hl) as [-> ->]. clear Ho.
  take_token Hs2. wp. eapply wp_mono; [apply Hv; [done | lia | done]|].
  intros [r q2] o (Hr & -> & Hq & Hnq). simpl in Hr. subst r. apply wp_ret.
  apply wp_bind, wp_bind, wp_list_add_small; [done|]. apply wp_ret. simpl. apply HQ; [done|].
  simpl in Hnq. congruence.
Qed.

Lemma delivers_narrays {A} p q (x : A) tl r o :
  delivers q x tl r o -> narrays q = narrays p -> delivers p x tl r o.
Proof. intros (? & ? & ? & ?) ?. split_and!; try done. congruence. Qed.

Lemma parses_one_element n v ts : parses_value n v ts -> parses_elements n [v] ts.
Proof.
  intros Hv p tl fuel acc nc nv _ Hat Hn Hf. destruct fuel as [|fuel]; [lia|].
  eapply (array_step n v ts); [done | done | done | lia|]. intros q Hq Hnq.
  skip_tokens. wp. split_and!; try done. simpl. congruence.
Qed.

Lemma parses_more_elements n v ts v' l ts' :
  parses_value n v ts -> parses_elements n (v' :: l) ts' ->
  parses_elements n (v :: v' :: l) (ts ++ (TOK_COMMA, []) :: ts').
Proof.
  intros Hv Hl p tl fuel acc nc nv _ Hat Hn Hf. destruct fuel as [|fuel]; [lia|].
  rewrite length_app in Hf. simpl in Hf. rewrite <-app_assoc in Hat. cbn [app] in Hat.
  eapply (array_step n v ts); [done | done | done | lia|]. intros q Hq Hnq.
  take_token Hs. eapply wp_mono; [apply Hl; [done | done | lia | lia]|].
  intros r o Hd. apply (delivers_narrays p) in Hd; [|congruence].
  rewrite <-app_assoc in Hd. rewrite !(zlen_cons v). by rewrite !Z.add_assoc.
Qed.

Lemma parses_one_member n name v ts :
  parses_value n v ts ->
  parses_members n [(name, v)] ((TOK_QSTRING, name) :: (TOK_COLON, []) :: ts).
Proof.
  intros Hv p tl fuel acc nc nv _ Hat Hn Hf. destruct fuel as [|fuel]; [lia|]. simpl in Hf.
  eapply (objects_step n name v ts); [done | done | done | lia|]. intros q Hq Hnq.
  skip_tokens. wp. split_and!; try done. simpl. congruence.
Qed.

Lemma parses_more_members n name v ts m l ts' :
  parses_value n v ts -> parses_members n (m :: l) ts' ->
  parses_members n ((name, v) :: m :: l)
    ((TOK_QSTRING, name) :: (TOK_COLON, []) :: ts ++ (TOK_COMMA, []) :: ts').
Proof.
  intros Hv Hl p tl fuel acc nc nv _ Hat Hn Hf. destruct fuel as [|fuel]; [lia|].
  cbn [length] in Hf. rewrite length_app in Hf. cbn [length] in Hf.
  eapply (objects_step n name v ts); [done | | done | lia|].
  { cbn [app] in Hat. rewrite <-app_assoc in Hat. exact Hat. }
  intros q Hq Hnq. cbn [app] in Hq.
  take_token Hs. eapply wp_mono; [apply Hl; [done | done | lia | lia]|].
  intros r o Hd. apply (delivers_narrays p) in Hd; [|congruence].
  rewrite <-app_assoc in Hd. rewrite !(zlen_cons (name, v)). by rewrite !Z.add_assoc.
Qed.

Lemma parses_array n l ts :
  0 < n -> (l = [] -> ts = []) -> parses_elements (n - 1) l ts ->
  parses_value n (VAL_ARRAY l) ((TOK_ARRAYSTART, []) :: ts ++ [(TOK_ARRAYEND, [])]).
Proof.
  intros H0 Hnil Hl p tl fuel Hat Hn Hf. destruct fuel as [|fuel]; [lia|].
  cbn [length] in Hf. rewrite length_app in Hf. cbn [length] in Hf.
  cbn [app] in Hat. rewrite <-app_assoc in Hat. cbn [app] in Hat.
  cbn [accept_value]. skip_tokens. take_token Hs. unfold accept_array_elements. cbn [narrays set_narrays].
  zcase; [lia|]. set (q1 := set_narrays _ q0).
  assert (Hq1 : at_tokens q1 (ts ++ (TOK_ARRAYEND, []) :: tl)).
  { destruct Hat1 as ([] & ? & ?). split; [by constructor | done]. }
  apply wp_bind. apply (wp_mono _ _ (delivers q1 (Some (l, -1 + zlen l, zlen l)) ((TOK_ARRAYEND, []) :: tl))).
  - destruct l as [|v l].
    + rewrite Hnil in Hq1 by done. cbn [app] in Hq1. destruct fuel as [|fuel]; [lia|].
      cbn [array_loop]. apply wp_bind. eapply wp_mono; [apply accept_value_none; [done | auto | lia]|].
      intros [r q2] o (Hr & -> & Hq & Hnq). simpl in Hr. subst r. simpl. wp. by split_and!.
    + eapply wp_mono; [apply Hl; [done | done | simpl; lia | lia]|]. done.
  - intros [r q2] o (Hr & -> & Hq & Hnq). simpl in Hr. subst r. simpl in Hq, Hnq.
    take_token Hs2. zcase; simpl; [destruct (Z.eqb_spec (zlen l - (-1 + zlen l)) 1); [|lia]|];
      cbn [negb]; wp; apply wp_value_new; wp; (split_and!; [done | done | | simpl; lia]);
      destruct Hat2 as ([] & ? & ?); (split; [by constructor | done]).
Qed.

Lemma parses_object n l ts :
  (l = [] -> ts = []) -> parses_members n l ts ->
  parses_value n (VAL_OBJECT l) ((TOK_OBJECTSTART, []) :: ts ++ [(TOK_OBJECTEND, [])]).
Proof.
  intros Hnil Hl p tl fuel Hat Hn Hf. destruct fuel as [|fuel]; [lia|].
  cbn [length] in Hf. rewrite length_app in Hf. cbn [length] in Hf.
  cbn [app] in Hat. rewrite <-app_assoc in Hat. cbn [app] in Hat.
  cbn [accept_value]. take_token Hs. apply wp_bind. unfold accept_objects, list_new.
  wp. apply wp_alloc_small; [done|]. wp.
  apply (wp_mono _ _ (fun r o => exists nc, delivers q (Some (l, nc, zlen l)) ((TOK_OBJECTEND, []) :: tl) r o
                        /\ (nc = zlen l - 1 \/ nc <= 0))).
  - destruct l as [|v l].
    + rewrite Hnil in Hat0 by done. cbn [app] in Hat0. destruct fuel as [|fuel]; [lia|].
      cbn [objects_loop]. apply wp_bind. unfold accept_object. skip_tokens. wp. skip_tokens. wp.
      exists 0. split; [|lia]. split_and!; try done. simpl. congruence.
    + eapply wp_mono; [apply Hl; [done | done | lia | lia]|].
      intros r o Hd. exists (-1 + zlen (v :: l)). split; [done | lia].
  - intros [r q2] o (nc & (Hr & -> & Hq & Hnq) & Hnc). simpl in Hr. subst r. simpl in Hq, Hnq.
    assert ((0 <? nc) && negb (zlen l - nc =? 1) = false) as ->.
    { destruct (Z.ltb_spec 0 nc); [|done]. destruct (Z.eqb_spec (zlen l - nc) 1); [done | lia]. }
    take_token Hs2. wp. apply wp_value_new. wp. split_and!; try done. simpl. congruence.
Qed.

Lemma grammar_parsed :
  (forall n v ts, denotes n v ts -> parses_value n v ts)
  /\ (forall n l ts, elements n l ts -> parses_elements n l ts /\ (l = [] -> ts = []))
  /\ (forall n l ts, members n l ts -> parses_members n l ts /\ (l = [] -> ts = [])).
Proof.
  apply grammar_rules.
  - apply parses_true.
  - apply parses_false.
  - apply parses_null.
  - apply parses_string.
  - apply parses_qstring.
  - intros. by eapply parses_integer.
  - intros. by eapply parses_double.
  - intros n l ts H0 _ [? ?]. by apply parses_array.
  - intros n l ts _ [? ?]. by apply parses_object.
  - intros n. split; [|done]. intros p tl fuel acc nc nv. done.
  - intros n v ts _ ?. split; [by apply parses_one_element | done].
  - intros n v ts v' l ts' _ ? _ [? _]. split; [by apply parses_more_elements | done].
  - intros n. split; [|done]. intros p tl fuel acc nc nv. done.
  - intros n name v ts _ ?. split; [by apply parses_one_member | done].
  - intros n name v ts m l ts' _ ? _ [? _]. split; [by apply parses_more_members | done].
Qed.

(** * Documents *)

Definition initial (src : list Z) (srclen : nat) : json_parser :=
  mkParser (mkLexer src 0 srclen TOK_ERROR None None 1 None)
    (replicate (Z.to_nat VALUESIZE) None) VALUESIZE 0 None.

Lemma initial_rest doc junk : rest (lex (initial (doc ++ junk) (length doc))) = doc.
Proof. unfold rest. simpl. by rewrite drop_0, Nat.sub_0_r, take_app_length. Qed.

Lemma initial_wf doc junk :
  Forall is_byte (doc ++ 0 :: junk) -> parser_wf (initial (doc ++ 0 :: junk) (length doc)).
Proof.
  intros Hb. constructor; simpl; try done.
  constructor; simpl; try done; [lia | rewrite length_app; lia|].
  rewrite drop_app_length. apply list_elem_of_here.
Qed.

(** [json_parser_new] gives the initial parser or runs out of memory. *)
Lemma parser_new_spec src n o (Q : option json_parser -> oracle -> Prop) :
  (0 < n)%nat -> (forall o', (o = [] -> o' = []) -> Q (Some (initial src n)) o') ->
  (forall o', o <> [] -> Q None o') -> wp (json_parser_new src n) o Q.
Proof.
  intros Hn HS HN. unfold json_parser_new. wp. apply wpr_guard; [by apply Nat.ltb_lt|].
  wp. apply wp_alloc_ok. intros b o1 _ Ho1. destruct b; simpl.
  - unfold buffer_init. wp. apply wpr_guard; [by apply Nat.ltb_lt|].
    wp. apply wp_malloc; intros o2; [intros _ Ho2 | intros Ho2]; wp.
    + apply HS. intros ->. destruct Ho1; auto.
    + apply HN. intros ->. destruct Ho1 as [-> _]; [done|]. by destruct Ho2.
  - wp. apply HN. intros ->. by destruct Ho1.
Qed.

(** A parse ends in one of the ways a caller can tell apart. *)
Inductive outcome : status -> json_parser -> Prop :=
| parsed p v : jp_value p = Some v -> outcome success p
| refused p e : e = ENOENT \/ e = EINVAL \/ e = E2BIG -> json_parser_errno p = Some e -> outcome failure p.

Lemma json_parse_spec p o :
  parser_wf p -> no_boolean (lex p) -> token (lex p) <> TOK_EOF -> nread (lex p) = 0%nat ->
  wp (json_parse p) o (fun '(st, q) _ => outcome st q).
Proof.
  intros Hw Hn Ht Hn0. unfold json_parse. wp. eapply wp_mono; [by apply next_spec|].
  intros [st q] o1 (-> & Hwq & [l ->] & Hpost). destruct st; simpl.
  { wp. by apply (refused _ ENOENT); [auto|]. }
  pose proof (token_post_no_boolean _ _ _ Hpost Hn) as Hnq.
  destruct (token_post_measure _ _ _ Hpost) as [Hm _]. simpl in Hm.
  rewrite (rest_length (lex p)) in Hm by (by destruct Hw). wp.
  eapply wp_mono; [eapply accept_value_total; [done | done|]|].
  { unfold parse_fuel, measure. simpl. destruct Hpost as [[a [_ Hsz _ _ _]] _]. simpl in Hsz.
    rewrite Hsz. case_decide; lia. }
  intros [v q2] o2 (Hw2 & Hn2 & _). destruct v as [v|]; [|by wp; apply (refused _ EINVAL); [auto|]].
  wp. destruct (decide (token (lex q2) = TOK_EOF)) as [He|He].
  - unfold next, nextsym. simpl. rewrite decide_True by done. wp. simpl. wp. by eapply parsed.
  - eapply wp_mono; [apply next_spec; [|done]|].
    { destruct Hw2. by constructor. }
    intros [st q3] o3 (_ & _ & [l3 ->] & _). destruct st; simpl; wp.
    + by eapply parsed.
    + by apply (refused _ E2BIG); [auto|].
Qed.

Lemma lexes_length d ts : lexes d ts -> (length ts <= length d)%nat.
Proof.
  induction 1 as [|d t txt d' ts Hr Hne _ IH]; simpl; [lia|].
  apply ref_next_shorter in Hr as [_ [?|?]]; [done | lia].
Qed.

(** A document of the grammar is parsed to its value. *)
Lemma json_parse_grammar doc junk v ts :
  Forall is_byte (doc ++ 0 :: junk) -> zlen (doc ++ 0 :: junk) < PTRDIFF_MAX ->
  lexes doc ts -> denotes MAX_ARRAY_NESTING v ts ->
  wp (json_parse (initial (doc ++ 0 :: junk) (length doc))) []
    (fun '(st, q) o' => st = success /\ jp_value q = Some v /\ o' = []).
Proof.
  intros Hb Hs Hlex Hden. pose proof (lexes_length _ _ Hlex) as Hlen.
  unfold json_parse. wp. eapply wp_mono; [by apply next_spec; [apply initial_wf|]|].
  intros [st q] o1 (-> & Hwq & [l ->] & Hpost). rewrite initial_rest in Hpost. simpl in Hpost.
  assert (st = success) as ->.
  { destruct Hpost as [_ Hpost]. destruct Hlex as [d txt d' Hr|d t txt d' ts Hr Hne Hlex];
      rewrite Hr in Hpost; by destruct Hpost. }
  set (p0 := lex (initial (doc ++ 0 :: junk) (length doc))) in *.
  assert (Hat : at_tokens (set_lex l (initial (doc ++ 0 :: junk) (length doc))) ts).
  { eapply (token_post_lexes p0); simpl.
    - unfold p0. by rewrite initial_rest.
    - unfold p0. by rewrite initial_rest.
    - done.
    - done.
    - done. }
  simpl. wp. eapply wp_mono; [eapply (proj1 grammar_parsed)|].
  - exact Hden.
  - rewrite app_nil_r. exact Hat.
  - done.
  - unfold parse_fuel. simpl. destruct Hpost as [[a [_ Hsz _ _ _]] _]. simpl in Hsz. lia.
  - intros [r q2] o (Hr & -> & Hq & _). simpl in Hr, Hq. subst r. wp.
    unfold next, nextsym. destruct Hq as (_ & _ & He). simpl in *. rewrite decide_True by done.
    wp. simpl. by wp.
Qed.

(** * Theorems *)

(** C13. Every document that is not empty, has a NUL behind it in memory and does not
    contain the text [boolean], whatever the
    bytes of it and whatever the allocator does, is parsed in the fuel given,
    inside its memory and without a failed assertion or a call of [die]: there
    is no parser for want of memory, or the parse succeeds with a value, or it
    fails with one of the three error numbers.  The NUL is needed: without it the
    check of a unicode escape reads on, [JsonLex.unicode_escape_overreads]. *)
Theorem json_parse_total doc junk o :
  doc <> [] -> Forall is_byte (doc ++ 0 :: junk) -> strstr doc (bytes "boolean") = None ->
  exists r o', parse_document (doc ++ 0 :: junk) (length doc) o = Ret (r, o') /\
    match r with None => o <> [] | Some (st, p) => outcome st p end.
Proof.
  intros Hne Hb Hnb.
  assert (wp (parse_document (doc ++ 0 :: junk) (length doc)) o
    (fun r _ => match r with None => o <> [] | Some (st, p) => outcome st p end)) as H.
  { unfold parse_document. wp. apply parser_new_spec; [by destruct doc; simpl; [|lia]| |].
    - intros o1 _. wp. eapply wp_mono; [apply json_parse_spec|].
      + by apply initial_wf.
      + split; [done|]. by rewrite initial_rest.
      + done.
      + done.
      + intros [st q] o2 Hout. by wp.
    - intros o1 Ho. by wp. }
  destruct (wp_eq _ _ _ H) as (r & o' & -> & Hr). eauto.
Qed.

(** C12. A document, with a NUL behind it, whose tokens form a JSON value, arrays
    nested at most 19 deep, is parsed to that value when there is memory.  A string
    of the value is the text between its quotes: an escape is kept as it is
    written, an escaped backslash with both backslashes. *)
Theorem json_accepts_grammar doc junk v ts :
  doc <> [] -> Forall is_byte (doc ++ 0 :: junk) -> zlen (doc ++ 0 :: junk) < PTRDIFF_MAX ->
  lexes doc ts -> denotes MAX_ARRAY_NESTING v ts ->
  exists p, parse_document (doc ++ 0 :: junk) (length doc) [] = Ret (Some (success, p), [])
            /\ json_parser_values p = Some v.
Proof.
  intros Hne Hb Hs Hlex Hden.
  assert (wp (parse_document (doc ++ 0 :: junk) (length doc)) []
    (fun r o' => exists p, r = Some (success, p) /\ jp_value p = Some v /\ o' = [])) as H.
  { unfold parse_document. wp. apply parser_new_spec; [by destruct doc; simpl; [|lia]| |].
    - intros o1 Ho1. rewrite Ho1 by done. wp. eapply wp_mono; [by apply (json_parse_grammar _ _ v ts)|].
      intros [st q] o2 (-> & Hv & ->). wp. eauto.
    - intros o1 Ho. done. }
  destruct (wp_eq _ _ _ H) as (r & o' & -> & p & -> & Hv & ->). eauto.
Qed.

(** The table of tokens has no entry for [TOK_BOOLEAN]: a document whose
    first token is [boolean] fails the assertion in [hasvalue]. *)
Theorem json_boolean_aborts p txt d o :
  parser_wf p -> token (lex p) <> TOK_EOF ->
  ref_next strtold (rest (lex p)) = Some (TOK_BOOLEAN, txt, d) ->
  json_parse p o = Fault AssertFailed.
Proof.
  intros Hw Ht Hr. unfold json_parse, bind.
  destruct (wp_eq _ _ _ (next_spec p o Hw Ht)) as ([st q] & o' & -> & -> & _ & [l ->] & Hpost).
  rewrite Hr in Hpost. destruct Hpost as [_ (-> & Htok & _ & _)]. simpl in Htok.
  unfold parse_fuel. rewrite Nat.add_comm. cbn [Nat.add accept_value isok negb].
  unfold accept_scalar, bind.
  do 8 (rewrite accept_other by (simpl; by rewrite Htok); cbn).
  unfold accept. by rewrite decide_True.
Qed.

(** Texts that are not JSON and that the parser takes: a member without a
    value or without a colon is dropped, an array whose only element is a
    malformed array is empty, one more token may follow the value when illegal
    text follows that, a byte 255 ends the document, and an integer out of
    range becomes the nearest number of the type. *)
Theorem json_accepts_malformed :
  let parse doc := match parse_document (doc ++ [0]) (length doc) [] with
                   | Ret (Some (success, p), _) => json_parser_values p
                   | _ => None
                   end in
  parse (bytes "{" ++ [34; 97; 34] ++ bytes "}") = Some (VAL_OBJECT [])
  /\ parse (bytes "{" ++ [34; 97; 34] ++ bytes ":}") = Some (VAL_OBJECT [])
  /\ parse (bytes "[[1,]]") = Some (VAL_ARRAY [])
  /\ parse (bytes "1 2 @") = Some (VAL_INTEGER 1)
  /\ parse (bytes "true" ++ [255] ++ bytes "@") = Some VAL_TRUE
  /\ parse (bytes "99999999999999999999") = Some (VAL_INTEGER LONG_MAX).
Proof. split_and!; vm_compute; reflexivity. Qed.

End Json.

(** * Witnesses *)

Lemma json_parse_total_witness :
  exists r o', parse_document strtold_all (bytes "[1, 2" ++ 0 :: []) 5 [true; false] = Ret (r, o') /\
    match r with None => [true; false] <> [] | Some (st, p) => outcome st p end.
Proof.
  apply (json_parse_total strtold_all (bytes "[1, 2") [] [true; false]); [done | | reflexivity].
  repeat constructor; vm_compute; discriminate.
Defined.

Lemma json_accepts_grammar_witness :
  exists p, parse_document strtold_all (bytes "[1 , null]" ++ 0 :: []) 10 [] = Ret (Some (success, p), [])
            /\ json_parser_values p = Some (VAL_ARRAY [VAL_INTEGER 1; VAL_NULL]).
Proof.
  apply (json_accepts_grammar strtold_all (bytes "[1 , null]") [] _
    ((TOK_ARRAYSTART, []) :: ([(TOK_NUMBER, bytes "1")] ++ (TOK_COMMA, []) :: [(TOK_NULL, [])])
     ++ [(TOK_ARRAYEND, [])])).
  - done.
  - repeat constructor; vm_compute; discriminate.
  - done.
  - do 5 (eapply lexes_token; [reflexivity | done|]). eapply lexes_end. reflexivity.
  - apply D_array; [done|]. apply E_more; [eapply D_integer; reflexivity|]. apply E_one, D_null.
Defined.

Lemma json_boolean_aborts_witness :
  json_parse strtold_all (initial (bytes "boolean" ++ 0 :: []) 7) [] = Fault AssertFailed.
Proof.
  apply (json_boolean_aborts strtold_all _ [] []); [|done|reflexivity].
  apply (initial_wf strtold_all (bytes "boolean") []).
  repeat constructor; vm_compute; discriminate.
Defined.
