(* ===== verification/JsonPrint.v ===== *)
(** Printing and parsing JSON.

    [print_value] of json/json.c (in the file Json) writes a value with white
    space of its own between the tokens.  This file shows that the text it
    writes has the tokens of the value, so that the parser reads the value
    back: the round trip of [print_value] and [json_parse].  Doubles are left
    out (the program prints six digits of them), and so is the keyword
    [boolean], which the parser does not survive. *)

From Stdlib Require Import ZArith Lia.
From stdpp Require Import base list numbers sets.
From S2P Require Import Prelude Convert JsonLex Json.

#[local] Arguments mem : simpl never.
#[local] Arguments Z.eqb !_ !_ : simpl nomatch.

(** * Decimal numbers as tokens *)

Lemma decimal_strtol n : LONG_MIN <= n <= LONG_MAX -> strtol 10 (decimal n) = (n, None, length (decimal n)).
Proof.
  intros Hn. unfold strtol. destruct (scan_int_number _ _ _ (decimal_number n)) as [-> _].
  fold (signed (n <? 0) (Z.abs n)). rewrite signed_abs. do 2 (zcase; [lia|]). done.
Qed.

(** No leading zero: only 0 starts with the digit 0. *)
Lemma decimal_loop_head fuel n acc :
  0 < n -> (n < 10 \/ Z.log2 n <= Z.of_nat fuel) ->
  exists c r, decimal_loop fuel n acc = c :: r /\ in_range (ch "1") (ch "9") c = true
    /\ exists k, r = k ++ acc.
Proof.
  revert n acc. induction fuel as [|fuel IH]; intros n acc Hn Hf; simpl.
  - assert (n < 10).
    { destruct Hf as [|Hf]; [lia|]. pose proof (Z.log2_spec n). pose proof (Z.log2_nonneg n).
      assert (Z.log2 n = 0) as E by lia. rewrite E in *. lia. }
    exists (48 + n mod 10), acc. rewrite Z.mod_small by lia.
    split; [done|]. split; [unfold in_range; bool_side | by exists []].
  - zcase.
    + exists (48 + n mod 10), acc. rewrite Z.mod_small by lia.
      split; [done|]. split; [unfold in_range; bool_side | by exists []].
    + destruct (IH (n / 10) ((48 + n mod 10) :: acc)) as (c & r & -> & Hc & k & ->).
      * apply Z.div_str_pos. lia.
      * destruct (Z.lt_ge_cases (n / 10) 10); [by left|right].
        destruct Hf as [|Hf]; [lia|].
        assert (Z.log2 (n / 10) <= Z.log2 (n / 2)) as Hle
          by (apply Z.log2_le_mono, Z.div_le_compat_l; lia).
        change 2 with (2 ^ 1) in Hle at 1. rewrite <-Z.shiftr_div_pow2, Z.log2_shiftr in Hle by lia.
        lia.
      * exists c, (k ++ (48 + n mod 10) :: acc). split; [done|]. split; [done|].
        exists (k ++ [48 + n mod 10]). by rewrite <-app_assoc.
Qed.

Lemma digits_forallb s : digits s -> forallb isdigit s = true.
Proof. induction 1 as [|c s Hc _ IH]; [done|]. simpl. by rewrite Hc, IH. Qed.

Lemma decimal_nat_shape n :
  0 <= n -> decimal_nat n = [ch "0"] \/ exists c r, decimal_nat n = c :: r
    /\ in_range (ch "1") (ch "9") c = true /\ forallb isdigit r = true.
Proof.
  intros Hn. destruct (Z.eq_dec n 0) as [->|Hz]; [by left|right].
  pose proof (decimal_nat_digits n Hn) as Hd. unfold decimal_nat in *.
  destruct (decimal_loop_head (Z.to_nat (Z.log2 n)) n []) as (c & r & E & Hc & _).
  - lia.
  - right. pose proof (Z.log2_nonneg n). lia.
  - exists c, r. split; [done|]. split; [done|]. rewrite E in Hd.
    apply Forall_cons_iff in Hd as [_ Hd]. by apply digits_forallb.
Qed.

Lemma has_leading_zero_shape c r :
  in_range (ch "1") (ch "9") c = true -> has_leading_zero (c :: r) = false /\ is_zero (c :: r) = false.
Proof.
  intros Hc. unfold has_leading_zero.
  rewrite skip_spaces_digit, skip_minus_digit by (by apply positive_isdigit).
  unfold in_range in Hc. zreflect. simpl.
  destruct r; (destruct (Z.eqb_spec c 48); [lia|]); done.
Qed.

Lemma decimal_isinteger n : isinteger (decimal n) = true.
Proof.
  unfold decimal, isinteger.
  assert (forall m, 0 <= m -> (if is_zero (decimal_nat m) then true else
    if has_leading_zero (decimal_nat m) then false else
    match decimal_nat m with
    | c :: s' => in_range (ch "1") (ch "9") c && forallb isdigit s'
    | [] => false end) = true) as H.
  { intros m Hm. destruct (decimal_nat_shape m Hm) as [-> | (c & r & -> & Hc & Hr)]; [done|].
    destruct (has_leading_zero_shape c r Hc) as [-> ->]. by rewrite Hc, Hr. }
  zcase; [apply H; lia|].
  assert (skip_minus (decimal_nat n) = decimal_nat n) as ->; [|by apply H].
  pose proof (decimal_nat_digits n H0) as Hd. destruct (decimal_nat n) as [|c r]; [done|].
  apply Forall_cons_iff in Hd as [Hc _]. by apply skip_minus_digit.
Qed.

Lemma digit_legal c : isdigit c = true -> mem c legal_number = true.
Proof. intros H. apply number_start_legal. unfold number_start. rewrite H. apply orb_true_r. Qed.

Lemma decimal_legal n : Forall (fun c => mem c legal_number = true) (decimal n).
Proof.
  assert (forall m, 0 <= m -> Forall (fun c => mem c legal_number = true) (decimal_nat m)) as H.
  { intros m Hm. eapply Forall_impl; [by apply decimal_nat_digits|].
    intros c Hc. by apply digit_legal. }
  unfold decimal. zcase; [constructor; [done|]|]; apply H; lia.
Qed.

Abbreviation tok := (tokentype * list Z)%type.

Section Print.
Context {LD : Type} (strtold : list Z -> LD * bool * nat) (print_ld : LD -> list Z).

(** * Texts and the tokens they give *)

(** What may follow a number: nothing that would belong to it. *)
Definition follows (d : list Z) : Prop :=
  match d with
  | [] => True
  | c :: _ => mem c legal_number = false /\ c <> 0 /\ c <> 255
  end.

(** [s], put in front of a text that may follow it, puts the tokens [ts] in
    front of the tokens of that text. *)
Definition emits (s : list Z) (ts : list tok) : Prop :=
  forall d ts', follows d -> lexes strtold d ts' -> lexes strtold (s ++ d) (ts ++ ts').

Lemma ref_next_space c d :
  isspace c = true -> c <> 12 -> ref_next strtold (c :: d) = ref_next strtold d.
Proof.
  intros Hs Hc. unfold ref_next. simpl. rewrite Hs. cbn [take drop]. rewrite mem_cons.
  destruct (Z.eqb_spec 12 c); [by subst|]. done.
Qed.

Lemma lexes_space c d ts :
  isspace c = true -> c <> 12 -> lexes strtold d ts -> lexes strtold (c :: d) ts.
Proof.
  intros Hs Hc H. destruct H as [d txt d' Hr | d t txt d' ts Hr Hne Hl].
  - eapply lexes_end. rewrite ref_next_space; done.
  - eapply lexes_token; [|done|done]. rewrite ref_next_space; done.
Qed.

(** A token at the head of a text that does not start with white space. *)
Lemma ref_next_token c d :
  isspace c = false -> c <> 255 -> number_start c = false ->
  ref_next strtold (c :: d) = ref_token c d.
Proof.
  intros Hs Hc Hn. unfold ref_next. cbn [span_len]. rewrite Hs. cbn [take drop].
  destruct (Z.eqb_spec c 255); [done|]. by rewrite Hn.
Qed.

Lemma lexes_punct c t d ts :
  punctuation c = Some t -> isspace c = false -> c <> 255 -> number_start c = false ->
  t <> TOK_EOF -> lexes strtold d ts -> lexes strtold (c :: d) ((t, []) :: ts).
Proof.
  intros Hp Hs Hc Hn Ht Hd. eapply lexes_token; [|done|exact Hd].
  rewrite ref_next_token by done. unfold ref_token. by rewrite Hp.
Qed.

Lemma prefixb_app w d : prefixb w (w ++ d) = true.
Proof. induction w as [|c w IH]; [done|]. simpl. by rewrite Z.eqb_refl. Qed.

Lemma lexes_qstring s d ts :
  qstring_ok 0 s = true -> lexes strtold d ts ->
  lexes strtold (quote ++ s ++ quote ++ d) ((TOK_QSTRING, s) :: ts).
Proof.
  intros Hs Hd. eapply lexes_token; [|done|exact Hd].
  cbn [quote app]. rewrite ref_next_token by done. unfold ref_token.
  change (punctuation 34) with (@None tokentype). cbv iota. change (34 =? 34) with true. cbv iota.
  rewrite qscan_ok by done. simpl. do 2 f_equal.
  change (S (length s)) with (1 + length s)%nat. rewrite Nat.add_comm, <-drop_drop, drop_app_length.
  done.
Qed.

Lemma emits_true : emits (bytes "true") [(TOK_TRUE, [])].
Proof. intros d ts' _ Hd. eapply lexes_token; [reflexivity | done | done]. Qed.
Lemma emits_false : emits (bytes "false") [(TOK_FALSE, [])].
Proof. intros d ts' _ Hd. eapply lexes_token; [reflexivity | done | done]. Qed.
Lemma emits_null : emits (bytes "null") [(TOK_NULL, [])].
Proof. intros d ts' _ Hd. eapply lexes_token; [reflexivity | done | done]. Qed.
Lemma emits_string : emits (bytes "string") [(TOK_STRING, [])].
Proof. intros d ts' _ Hd. eapply lexes_token; [reflexivity | done | done]. Qed.

Lemma emits_qstring s : qstring_ok 0 s = true -> emits (quote ++ s ++ quote) [(TOK_QSTRING, s)].
Proof.
  intros Hs d ts' _ Hd. rewrite <-!app_assoc. by apply (lexes_qstring s d ts').
Qed.

Lemma decimal_head n : exists c r, decimal n = c :: r /\ number_start c = true.
Proof.
  unfold decimal. zcase; [by eexists _, _|].
  pose proof (decimal_nat_digits n H) as Hd. pose proof (decimal_nat_ne n) as Hne.
  destruct (decimal_nat n) as [|c r]; [done|]. exists c, r. split; [done|].
  apply Forall_cons_iff in Hd as [Hc _]. unfold number_start. rewrite Hc. apply orb_true_r.
Qed.

Lemma number_start_props c : number_start c = true -> isspace c = false /\ c <> 255.
Proof.
  unfold number_start, isdigit, isspace, in_range. intros H.
  apply orb_prop in H as [H|H]; zreflect; (split; [|lia]); subst;
    repeat (zcase; simpl); lia || done.
Qed.

Lemma decimal_number_ok n : LONG_MIN <= n <= LONG_MAX -> number_ok strtold (decimal n) = true.
Proof.
  intros Hn. unfold number_ok, isnumber.
  pose proof (decimal_length n Hn). unfold ISNUMBER_BUFSIZE.
  destruct (Nat.leb_spec 512 (length (decimal n))); [lia|].
  rewrite Nat.leb_refl, firstn_all.
  assert (until_nul (decimal n) = decimal n) as ->; [|by rewrite decimal_isinteger].
  unfold until_nul. assert (span_len nonnul (decimal n) = length (decimal n)) as ->; [|apply firstn_all].
  rewrite <-(app_nil_r (decimal n)) at 1. apply span_len_app; [|done].
  eapply Forall_impl; [apply legal_nonzero, decimal_legal|].
  intros c Hc. unfold nonnul. by apply negb_true_iff, Z.eqb_neq.
Qed.

Lemma emits_decimal n :
  LONG_MIN <= n <= LONG_MAX -> emits (decimal n) [(TOK_NUMBER, decimal n)].
Proof.
  intros Hn d ts' Hf Hd. eapply lexes_token; [|done|exact Hd].
  destruct (decimal_head n) as (c & r & E & Hc). destruct (number_start_props c Hc) as [Hs H255].
  unfold ref_next. rewrite E. cbn [app span_len]. rewrite Hs. cbn [take drop].
  change (mem 12 []) with false. cbv iota. destruct (Z.eqb_spec c 255); [done|]. rewrite Hc.
  change (c :: r ++ d) with ((c :: r) ++ d). rewrite <-E.
  unfold number_at. rewrite span_len_app.
  - rewrite take_app_length, drop_app_length. rewrite decimal_number_ok by done.
    destruct d as [|x d]; [done|]. destruct Hf as (_ & H0 & H1).
    destruct (Z.eqb_spec x 0); [done|]. destruct (Z.eqb_spec x 255); done.
  - apply decimal_legal.
  - destruct d; [done|]. by destruct Hf.
Qed.

(** * The printer *)

(** The values whose text is read back: no doubles, strings the tokenizer
    accepts as they are, integers of the type, arrays at most [n] deep. *)
Fixpoint printable (n : Z) (v : @value LD) : bool :=
  match v with
  | VAL_QSTRING s => qstring_ok 0 s
  | VAL_INTEGER z => (LONG_MIN <=? z) && (z <=? LONG_MAX)
  | VAL_ARRAY l => (0 <? n) && forallb (printable (n - 1)) l
  | VAL_OBJECT l => forallb (fun '(name, v) => qstring_ok 0 name && printable n v) l
  | VAL_STRING | VAL_TRUE | VAL_FALSE | VAL_NULL => true
  | VAL_DOUBLE _ | VAL_BOOLEAN | VAL_UNKNOWN => false
  end.

Definition prints (n : Z) (v : @value LD) : Prop :=
  exists ts, denotes strtold n v ts /\ emits (print_value print_ld v) ts.

Lemma elements_print n l :
  l <> [] -> Forall (prints n) l ->
  exists ts, elements strtold n l ts /\ emits (print_list (print_value print_ld) l) ts.
Proof.
  intros Hne H. induction H as [|v l (ts & Hd & He) Hl IH]; [done|].
  destruct l as [|v' l].
  - exists ts. split; [by apply E_one|]. simpl. by rewrite app_nil_r.
  - destruct IH as (ts' & Hd' & He'); [done|]. exists (ts ++ (TOK_COMMA, []) :: ts').
    split; [by apply E_more|]. intros d tl Hf Hlex.
    change (print_list (print_value print_ld) (v :: v' :: l)) with
      (print_value print_ld v ++ (bytes "," ++ newline) ++ print_list (print_value print_ld) (v' :: l)).
    rewrite <-!app_assoc. cbn [app]. apply He; [done|].
    apply lexes_punct; [done..|]. apply lexes_space; [done..|]. by apply He'.
Qed.

(** The text of a member. *)
Definition print_member (m : list Z * @value LD) : list Z :=
  let '(name, v) := m in quote ++ name ++ quote ++ bytes " :" ++ print_value print_ld v.

Lemma emits_member name ts v :
  qstring_ok 0 name = true -> emits (print_value print_ld v) ts ->
  emits (print_member (name, v)) ((TOK_QSTRING, name) :: (TOK_COLON, []) :: ts).
Proof.
  intros Hn He d tl Hf Hlex. unfold print_member. rewrite <-!app_assoc. cbn [app].
  apply lexes_qstring; [done|]. apply lexes_space; [done..|]. apply lexes_punct; [done..|]. by apply He.
Qed.

Lemma members_print n l :
  l <> [] -> Forall (fun m => qstring_ok 0 m.1 = true /\ prints n m.2) l ->
  exists ts, members strtold n l ts /\ emits (print_list print_member l) ts.
Proof.
  intros Hne H. induction H as [|[name v] l [Hn (ts & Hd & He)] Hl IH]; [done|].
  pose proof (emits_member name ts v Hn He) as Hm.
  destruct l as [|m l].
  - exists ((TOK_QSTRING, name) :: (TOK_COLON, []) :: ts). split; [by apply M_one|].
    simpl in *. by rewrite !app_nil_r.
  - destruct IH as (ts' & Hd' & He'); [done|].
    exists ((TOK_QSTRING, name) :: (TOK_COLON, []) :: ts ++ (TOK_COMMA, []) :: ts').
    split; [by apply M_more|]. intros d tl Hf Hlex.
    change (print_list print_member ((name, v) :: m :: l)) with
      (print_member (name, v) ++ (bytes "," ++ newline) ++ print_list print_member (m :: l)).
    rewrite <-!app_assoc. cbn [app]. rewrite <-app_assoc. apply (Hm _ ((TOK_COMMA, []) :: ts' ++ tl)); [done|].
    apply lexes_punct; [done..|]. apply lexes_space; [done..|]. by apply He'.
Qed.

Lemma prints_array n l :
  0 < n -> Forall (prints (n - 1)) l -> prints n (VAL_ARRAY l).
Proof.
  intros Hn Hl. destruct l as [|v l].
  - exists ((TOK_ARRAYSTART, []) :: [] ++ [(TOK_ARRAYEND, [])]).
    split; [apply D_array; [done | apply E_none]|]. intros d tl Hf Hlex. simpl.
    apply lexes_punct; [done..|]. apply lexes_space; [done..|].
    apply lexes_punct; [done..|]. by apply lexes_space.
  - destruct (elements_print (n - 1) (v :: l)) as (ts & Hd & He); [done | done|].
    exists ((TOK_ARRAYSTART, []) :: ts ++ [(TOK_ARRAYEND, [])]).
    split; [by apply D_array|]. intros d tl Hf Hlex.
    change (print_value print_ld (VAL_ARRAY (v :: l))) with
      (bytes "[" ++ newline ++ print_list (print_value print_ld) (v :: l) ++ bytes "]" ++ newline).
    rewrite <-!app_assoc. cbn [app].
    apply lexes_punct; [done..|]. apply lexes_space; [done..|]. rewrite <-app_assoc. apply He; [done|].
    apply lexes_punct; [done..|]. by apply lexes_space.
Qed.

Lemma prints_object n l :
  Forall (fun m => qstring_ok 0 m.1 = true /\ prints n m.2) l -> prints n (VAL_OBJECT l).
Proof.
  intros Hl.
  change (prints n (VAL_OBJECT l)) with (exists ts, denotes strtold n (VAL_OBJECT l) ts /\
    emits (bytes "{" ++ newline ++ print_list print_member l ++ newline ++ bytes "}") ts).
  assert (exists ts, members strtold n l ts /\ (forall d tl, follows d -> lexes strtold d tl ->
    lexes strtold (print_list print_member l ++ d) (ts ++ tl))) as (ts & Hd & He).
  { destruct l as [|m l]; [exists []; split; [apply M_none | done]|].
    destruct (members_print n (m :: l)) as (ts & Hd & He); [done | done|]. by exists ts. }
  exists ((TOK_OBJECTSTART, []) :: ts ++ [(TOK_OBJECTEND, [])]).
  split; [by apply D_object|]. intros d tl Hf Hlex. rewrite <-!app_assoc. cbn [app].
  apply lexes_punct; [done..|]. apply lexes_space; [done..|]. rewrite <-app_assoc. apply He; [done|].
  apply lexes_space; [done..|]. by apply lexes_punct.
Qed.

(** Every printable value prints to its own tokens. *)
Fixpoint print_emits (v : @value LD) : forall n, printable n v = true -> prints n v.
Proof.
  destruct v as [|s|z|l|l| | | |x| |]; intros n H; try done.
  - eexists; split; [apply D_qstring | by apply emits_qstring].
  - simpl in H. zreflect. eexists. split; [|by apply emits_decimal].
    eapply D_integer; [apply decimal_isinteger | by apply decimal_strtol].
  - simpl in H. apply andb_prop in H as [Hn H]. apply Z.ltb_lt in Hn. apply prints_array; [done|].
    revert H. induction l as [|v l IH]; intros H; [done|]. simpl in H. apply andb_prop in H as [Hv H].
    constructor; [by apply print_emits | by apply IH].
  - simpl in H. apply prints_object.
    revert H. induction l as [|[name v] l IH]; intros H; [done|]. simpl in H.
    apply andb_prop in H as [Hv H]. apply andb_prop in Hv as [Hname Hv].
    constructor; [split; [done | by apply print_emits] | by apply IH].
  - eexists; split; [apply D_true | apply emits_true].
  - eexists; split; [apply D_false | apply emits_false].
  - eexists; split; [apply D_null | apply emits_null].
  - eexists; split; [apply D_string | apply emits_string].
Qed.

(** C14. The parser reads back what the printer wrote, for the values that are
    [printable]: no double, no [VAL_BOOLEAN], whose text aborts the parser
    ([json_boolean_aborts]), no [VAL_UNKNOWN], integers of the type [long], arrays at most 19 deep, and
    strings and names that the tokenizer takes as they are: without NUL, tab,
    newline and byte 255, without a bare quote, and with every backslash at the start of a complete
    escape (the printer adds none, and the parser keeps the escape as it is
    written).  Printed and parsed with memory to spare and a NUL behind the
    text, such a value comes back as it was. *)
Theorem json_print_parse v :
  printable MAX_ARRAY_NESTING v = true ->
  let doc := print_value print_ld v in
  Forall is_byte doc -> zlen doc + 1 < PTRDIFF_MAX ->
  exists p, parse_document strtold (doc ++ [0]) (length doc) [] = Ret (Some (success, p), [])
            /\ json_parser_values p = Some v.
Proof.
  intros Hp doc Hb Hl. destruct (print_emits v _ Hp) as (ts & Hd & He).
  assert (Hlex : lexes strtold doc ts).
  { rewrite <-(app_nil_r doc), <-(app_nil_r ts). apply He; [done|]. by eapply lexes_end. }
  assert (Hw : wp (parse_document strtold (doc ++ [0]) (length doc)) []
    (fun r o' => exists p, r = Some (success, p) /\ jp_value p = Some v /\ o' = [])).
  { unfold parse_document. wp. apply parser_new_spec.
    - pose proof (denotes_length _ _ _ _ Hd). pose proof (lexes_length _ _ _ Hlex). lia.
    - intros o1 Ho1. rewrite Ho1 by done. wp.
      eapply wp_mono; [apply (json_parse_grammar strtold doc [] v ts)|].
      + apply Forall_app; split; [done|]. repeat constructor; lia.
      + rewrite zlen_app. zlia.
      + done.
      + done.
      + intros [st q] o2 (-> & Hv & ->). wp. eauto.
    - done. }
  destruct (wp_eq _ _ _ Hw) as (r & o' & -> & p & -> & Hv & ->). eauto.
Qed.

End Print.

Lemma json_print_parse_witness :
  let v := VAL_ARRAY [VAL_INTEGER (-12); VAL_OBJECT [(bytes "a", VAL_NULL)]; VAL_ARRAY []] in
  let doc := print_value (fun _ : unit => []) v in
  exists p, parse_document strtold_all (doc ++ [0]) (length doc) [] = Ret (Some (success, p), [])
            /\ json_parser_values p = Some v.
Proof.
  intros v doc. apply (json_print_parse strtold_all (fun _ => []) v); [reflexivity | | reflexivity].
  apply (bool_decide_unpack _). vm_compute. exact I.
Defined.
