(* ===== verification/MetaList.v ===== *)
(** The doubly linked list, meta/src/meta_list.c and meta/src/meta_list.h.

    The list is modelled in a heap of nodes: [next] and [prev] are locations
    or NULL, and [data] is what the [void *] member holds, a payload of type
    [A], NULL, or, in the header node, the cached last node.  Every operation
    is the sequence of loads and stores of the source, on a heap that may hold
    anything else too; a load of a freed or unknown location is a fault.
    Callbacks are functions that thread a state [S].

    [islist h lst ls xs] says that the list with header [lst] holds the
    sequence [xs] in the nodes [ls].  The theorems are the operations on
    sequences the functions implement, for each of them the nodes it may
    touch, and the two ways in which the cached end gets lost. *)

From Stdlib Require Import ZArith Lia.
From stdpp Require Import base list numbers gmap sets sorting.
From S2P Require Import Prelude.

Definition loc : Set := nat.

Inductive data (A : Type) : Type :=
| Null
| Cached (l : loc)
| Item (x : A).
Arguments Null {A}.
Arguments Cached {A} l.
Arguments Item {A} x.

Record node (A : Type) : Type := mkNode {
  next : option loc;
  prev : option loc;
  ndata : data A
}.
Arguments mkNode {A}.
Arguments next {A}.
Arguments prev {A}.
Arguments ndata {A}.

Definition sizeof_node : Z := 24.

Section MetaList.
Context {A S : Type}.

Abbreviation heap := (gmap loc (node A)).

Definition set_next (x : option loc) (n : node A) : node A := mkNode x (prev n) (ndata n).
Definition set_prev (x : option loc) (n : node A) : node A := mkNode (next n) x (ndata n).
Definition set_data (x : data A) (n : node A) : node A := mkNode (next n) (prev n) x.

(** * Loads, stores, allocation *)

(** [*p]; NULL and freed nodes are faults. *)
Definition load (h : heap) (p : option loc) : res (node A) :=
  match p with
  | None => Fault OutOfBounds
  | Some l => match h !! l with Some n => Ret n | None => Fault OutOfBounds end
  end.

(** A store through [p] that changes a member. *)
Definition store (h : heap) (p : option loc) (f : node A -> node A) : res heap :=
  match p with
  | None => Fault OutOfBounds
  | Some l => match h !! l with Some _ => Ret (alter f l h) | None => Fault OutOfBounds end
  end.

(** A location that is not in use. *)
Definition new_loc {B} (h : gmap loc B) : loc := map_fold (fun l _ m => Nat.max (Datatypes.S l) m) 0%nat h.

(** [calloc(1, sizeof *node)] *)
Definition alloc_node (h : heap) : C (option loc * heap) :=
  let* ok := alloc_ok sizeof_node in
  ret (if ok : bool then (Some (new_loc h), <[new_loc h := mkNode None None Null]> h)
       else (None, h)).

Definition free_node (h : heap) (l : loc) : heap := delete l h.

(** A pointer member of the header holds the cached end. *)
Definition cached (d : data A) : res (option loc) :=
  match d with
  | Null => Ret None
  | Cached l => Ret (Some l)
  | Item _ => Fault OutOfBounds
  end.

(** The payload of a node. *)
Definition payload (n : node A) : res A :=
  match ndata n with Item x => Ret x | _ => Fault OutOfBounds end.

(** Enough for one pass over the nodes of a heap. *)
Definition pass (h : heap) : nat := Datatypes.S (size h).

(** * Creating, adding, removing *)

Definition list_new (h : heap) : C (option loc * heap) := alloc_node h.

(** [for (node = ...; node != NULL; node = node->next)] with a body that may
    stop the loop ([None]) or go on with a new state. *)
Fixpoint for_nodes {T} (fuel : nat) (h : heap) (p : option loc) (t : T)
    (body : heap -> node A -> T -> C (bool * T * heap)) : C (bool * T * heap) :=
  match p with
  | None => ret (true, t, h)
  | Some l =>
      match fuel with
      | O => lift (Fault FuelOut)
      | Datatypes.S fuel =>
          let* n := lift (load h (Some l)) in
          let* (go, t, h) := body h n t in
          if go : bool then
            let* n := lift (load h (Some l)) in
            for_nodes fuel h (next n) t body
          else ret (false, t, h)
      end
  end.

(** [while (lst) { p = lst; lst = lst->next; free(p); }] *)
Fixpoint sublist_free_loop (fuel : nat) (h : heap) (p : option loc) : res heap :=
  match p with
  | None => Ret h
  | Some l =>
      match fuel with
      | O => Fault FuelOut
      | Datatypes.S fuel =>
          let+ n := load h (Some l) in sublist_free_loop fuel (free_node h l) (next n)
      end
  end.

Definition sublist_free (h : heap) (lst : option loc) : C heap :=
  lift (sublist_free_loop (pass h) h lst).

(** [dtorp] is called on the payloads; [None] is the null function pointer. *)
Definition list_free (h : heap) (lst : option loc) (dtorp : option (A -> S -> S)) (s : S)
    : C (S * heap) :=
  match lst with
  | None => ret (s, h)
  | Some _ =>
      let* hd := lift (load h lst) in
      let* (_, s, h) := for_nodes (pass h) h (next hd) s (fun h n s =>
        match dtorp with
        | None => ret (true, s, h)
        | Some f => let* x := lift (payload n) in ret (true, f x s, h)
        end) in
      let* h := sublist_free h lst in
      ret (s, h)
  end.

(** The part of [list_add] and [list_insert] that makes the list when there is
    none: the header and whether it is new. *)
Definition list_or_new (h : heap) (lst : option loc) : C (option loc * bool * heap) :=
  match lst with
  | Some _ => ret (lst, false, h)
  | None => let* (l, h) := list_new h in ret (l, true, h)
  end.

(** A list made by the call has no payload yet, so that [list_free] on it only
    frees the header. *)
Definition list_add (h : heap) (lst : option loc) (x : A) : C (option loc * heap) :=
  let* (lst, we_allocated_list, h) := list_or_new h lst in
  match lst with
  | None => ret (None, h)
  | Some _ =>
      let* (nd, h) := alloc_node h in
      match nd with
      | None =>
          if we_allocated_list : bool
          then let* h := sublist_free h lst in ret (None, h)
          else ret (None, h)
      | Some _ =>
          let* hd := lift (load h lst) in
          let* c := lift (cached (ndata hd)) in
          let* h := lift
            match c with
            | Some _ =>
                let+ h := store h nd (set_prev c) in
                store h c (set_next nd)
            | None =>
                let+ h := store h lst (set_next nd) in
                store h nd (set_prev lst)
            end in
          let* h := lift (store h nd (set_data (Item x))) in
          let* h := lift (store h lst (set_data (match nd with Some l => Cached l | None => Null end))) in
          ret (lst, h)
      end
  end.

Definition list_insert (h : heap) (lst : option loc) (x : A) : C (option loc * heap) :=
  let* (lst, we_allocated_list, h) := list_or_new h lst in
  match lst with
  | None => ret (None, h)
  | Some _ =>
      let* (nd, h) := alloc_node h in
      match nd with
      | None =>
          if we_allocated_list : bool
          then let* h := sublist_free h lst in ret (None, h)
          else ret (None, h)
      | Some l =>
          let* h := lift (store h nd (set_data (Item x))) in
          let* hd := lift (load h lst) in
          let* h := lift (store h nd (set_next (next hd))) in
          let* h := lift (store h nd (set_prev lst)) in
          let* h := lift (match next hd with
                          | Some _ => store h (next hd) (set_prev nd)
                          | None => Ret h
                          end) in
          let* h := lift (store h lst (set_next nd)) in
          let* c := lift (cached (ndata hd)) in
          let* h := lift (match c with
                          | None => store h lst (set_data (Cached l))
                          | Some _ => Ret h
                          end) in
          ret (lst, h)
      end
  end.

(** Iterators hold a node or NULL; [data] arguments are not NULL. *)
Definition list_insert_before (h : heap) (li : option loc) (x : A) : C (status * heap) :=
  c_assert (match li with Some _ => true | None => false end);;
  let* (nw, h) := alloc_node h in
  match nw with
  | None => ret (failure, h)
  | Some _ =>
      let* h := lift (store h nw (set_data (Item x))) in
      let* h := lift (store h nw (set_next li)) in
      let* curr := lift (load h li) in
      let* h := lift (store h nw (set_prev (prev curr))) in
      let* h := lift (store h (prev curr) (set_next nw)) in
      let* h := lift (store h li (set_prev nw)) in
      ret (success, h)
  end.

Definition list_insert_after (h : heap) (li : option loc) (x : A) : C (status * heap) :=
  c_assert (match li with Some _ => true | None => false end);;
  let* (nw, h) := alloc_node h in
  match nw with
  | None => ret (failure, h)
  | Some _ =>
      let* h := lift (store h nw (set_data (Item x))) in
      let* h := lift (store h nw (set_prev li)) in
      let* curr := lift (load h li) in
      let* h := lift (store h nw (set_next (next curr))) in
      let* h := lift (match next curr with
                      | Some _ => store h (next curr) (set_prev nw)
                      | None => Ret h
                      end) in
      let* h := lift (store h li (set_next nw)) in
      ret (success, h)
  end.

Definition list_remove_node (h : heap) (lst : loc) (old : option loc) : res (option loc * heap) :=
  let+ hd := load h (Some lst) in
  let+ n := load h old in
  let+ h := match ndata hd with
            | Cached c =>
                if decide (Some c = old)
                then store h (Some lst) (set_data (match prev n with Some p => Cached p | None => Null end))
                else Ret h
            | _ => Ret h
            end in
  let+ h := match next n with
            | Some _ => store h (next n) (set_prev (prev n))
            | None => Ret h
            end in
  let+ h := store h (prev n) (set_next (next n)) in
  match old with
  | Some l => Ret (next n, free_node h l)
  | None => Fault OutOfBounds
  end.

(** [cleanup] is never NULL at the callers; NULL means [free]. *)
Definition list_delete (h : heap) (lst : loc) (i : option loc) (cleanup : A -> S -> S) (s : S)
    : res (option loc * S * heap) :=
  let+ n := load h i in
  let+ x := payload n in
  let+ (i, h) := list_remove_node h lst i in
  Ret (i, cleanup x s, h).

(** * Iterators *)

Definition list_first (h : heap) (lst : option loc) : res (option loc) :=
  r_assert (match lst with Some _ => true | None => false end);;
  let+ n := load h lst in Ret (next n).

Definition list_end (i : option loc) : bool := match i with None => true | Some _ => false end.

Definition list_get (h : heap) (i : option loc) : res A :=
  r_assert (negb (list_end i));; let+ n := load h i in payload n.

Definition list_next (h : heap) (i : option loc) : res (option loc) :=
  let+ n := load h i in Ret (next n).

Definition list_last (h : heap) (li : option loc) : res bool :=
  let+ li := list_next h li in Ret (list_end li).

(** * Loops *)

Definition list_find (h : heap) (lst : loc) (found : A -> bool) : res (option loc) :=
  let+ hd := load h (Some lst) in
  (fix go fuel p :=
     match p with
     | None => Ret None
     | Some l =>
         match fuel with
         | O => Fault FuelOut
         | Datatypes.S fuel =>
             let+ n := load h (Some l) in
             let+ x := payload n in
             if found x : bool then Ret (Some l) else go fuel (next n)
         end
     end) (pass h) (next hd).

Definition list_foreach (h : heap) (lst : loc) (f : A -> S -> bool * S) (s : S)
    : C (bool * S * heap) :=
  let* hd := lift (load h (Some lst)) in
  for_nodes (pass h) h (next hd) s (fun h n s =>
    let* x := lift (payload n) in
    let '(go, s) := f x s in ret (go, s, h)).

(** The test for an empty list in front of the loop changes nothing. *)
Definition list_dual_foreach (h : heap) (lst : loc) (dual : A -> S -> bool * S) (s : S)
    : C (bool * S * heap) :=
  let* hd := lift (load h (Some lst)) in
  match next hd with
  | None => ret (true, s, h)
  | Some _ =>
      for_nodes (pass h) h (next hd) s (fun h n s =>
        let* x := lift (payload n) in
        let '(go, s) := dual x s in ret (go, s, h))
  end.

Fixpoint reversed_loop (fuel : nat) (h : heap) (lst : loc) (p : option loc)
    (f : A -> S -> bool * S) (s : S) : res (bool * S) :=
  if decide (p = Some lst) then Ret (true, s)
  else
    match fuel with
    | O => Fault FuelOut
    | Datatypes.S fuel =>
        let+ n := load h p in
        let+ x := payload n in
        let '(go, s) := f x s in
        if go : bool then reversed_loop fuel h lst (prev n) f s else Ret (false, s)
    end.

Definition list_foreach_reversed (h : heap) (lst : loc) (f : A -> S -> bool * S) (s : S)
    : res (bool * S) :=
  let+ hd := load h (Some lst) in
  let+ c := cached (ndata hd) in
  match c with
  | None => Ret (true, s)
  | Some _ => reversed_loop (pass h) h lst c f s
  end.

Definition list_foreach_sep (h : heap) (lst : loc) (f : A -> S -> bool * S)
    (sep : S -> bool * S) (s : S) : C (bool * S * heap) :=
  let* hd := lift (load h (Some lst)) in
  for_nodes (pass h) h (next hd) s (fun h n s =>
    let* x := lift (payload n) in
    let '(go, s) := f x s in
    if negb go then ret (false, s, h)
    else match next n with
         | Some _ => let '(go, s) := sep s in ret (go, s, h)
         | None => ret (true, s, h)
         end).

Definition list_size (h : heap) (lst : loc) : C Z :=
  let* hd := lift (load h (Some lst)) in
  let* (_, size, _) := for_nodes (pass h) h (next hd) 0 (fun h _ size => ret (true, size + 1, h)) in
  ret size.

(** [include_node == NULL] counts everything. *)
Definition list_count (h : heap) (lst : loc) (include_node : option (A -> bool)) : C Z :=
  let* hd := lift (load h (Some lst)) in
  let* (_, count, _) := for_nodes (pass h) h (next hd) 0 (fun h n count =>
    match include_node with
    | None => ret (true, count + 1, h)
    | Some f => let* x := lift (payload n) in
                ret (true, (if f x then count + 1 else count), h)
    end) in
  ret count.

(** The loops that add to a new list: [pick] gives what is added for a payload,
    if anything. A failed [list_add] ends the loop. *)
Definition add_each (h : heap) (src : loc) (dest : loc) (pick : A -> option A)
    : C (bool * unit * heap) :=
  let* hd := lift (load h (Some src)) in
  for_nodes (pass h) h (next hd) tt (fun h n t =>
    let* x := lift (payload n) in
    match pick x with
    | None => ret (true, t, h)
    | Some y =>
        let* (r, h) := list_add h (Some dest) y in
        ret (match r with Some _ => true | None => false end, t, h)
    end).

Definition sublist_of (h : heap) (src : loc) (pick : A -> option A) : C (option loc * heap) :=
  let* (sub, h) := list_new h in
  match sub with
  | None => ret (None, h)
  | Some d =>
      let* (ok, _, h) := add_each h src d pick in
      if ok : bool then ret (Some d, h)
      else let* h := sublist_free h (Some d) in ret (None, h)
  end.

Definition sublist_create (h : heap) (lst : loc) (include_node : A -> bool) :=
  sublist_of h lst (fun x => if include_node x then Some x else None).
Definition sublist_create_neg (h : heap) (lst : loc) (include_node : A -> bool) :=
  sublist_of h lst (fun x => if negb (include_node x) then Some x else None).
Definition sublist_adaptor (h : heap) (src : loc) (adaptor : A -> A) :=
  sublist_of h src (fun x => Some (adaptor x)).
Definition sublist_copy (h : heap) (src : loc) := sublist_of h src Some.

(** The loop of [list_merge]; [dest] may be NULL, and is then made by the first
    [list_add]. *)
Definition list_merge (h : heap) (dest : option loc) (src : loc) : C (option loc * heap) :=
  let* i := lift (list_first h (Some src)) in
  let* (ok, dest, h) := for_nodes (pass h) h i dest (fun h n dest =>
    let* x := lift (payload n) in
    let* (dest, h) := list_add h dest x in
    ret (match dest with Some _ => true | None => false end, dest, h)) in
  if ok : bool then let* h := sublist_free h (Some src) in ret (dest, h)
  else ret (None, h).

(** [copier] returns NULL when it fails; [dtor] is called on what was copied. *)
Definition list_copy (h : heap) (lst : loc) (copier : A -> S -> option A * S)
    (dtor : option (A -> S -> S)) (s : S) : C (option loc * S * heap) :=
  let* (new, h) := list_new h in
  match new with
  | None => ret (None, s, h)
  | Some d =>
      let* hd := lift (load h (Some lst)) in
      let* (ok, s, h) := for_nodes (pass h) h (next hd) s (fun h n s =>
        let* x := lift (payload n) in
        let '(y, s) := copier x s in
        match y with
        | None => ret (false, s, h)
        | Some y =>
            let* (r, h) := list_add h (Some d) y in
            ret (match r with Some _ => true | None => false end, s, h)
        end) in
      if ok : bool then ret (Some d, s, h)
      else let* (s, h) := list_free h (Some d) dtor s in ret (None, s, h)
  end.

Definition list_get_item (h : heap) (lst : loc) (index : nat) : C (option A) :=
  let* size := list_size h lst in
  c_assert (Z.of_nat index <? size);;
  let* hd := lift (load h (Some lst)) in
  let* (_, r, _) := for_nodes (pass h) h (next hd) (index, None) (fun h n '(index, r) =>
    let* x := lift (payload n) in
    ret (match index with O => (false, (O, Some x), h) | Datatypes.S i => (true, (i, r), h) end)) in
  ret r.2.

(** One pass of the bubble sort: payloads out of order are exchanged. *)
Fixpoint sort_pass (fuel : nat) (h : heap) (s : option loc) (func : A -> A -> Z) (sorted : bool)
    : res (bool * heap) :=
  match s with
  | None => Ret (sorted, h)
  | Some l =>
      match fuel with
      | O => Fault FuelOut
      | Datatypes.S fuel =>
          let+ n := load h s in
          let+ p1 := payload n in
          match next n with
          | None => Ret (sorted, h)
          | Some _ =>
              let+ n2 := load h (next n) in
              let+ p2 := payload n2 in
              if 0 <? func p1 p2 then
                let+ h := store h (next n) (set_data (Item p1)) in
                let+ h := store h s (set_data (Item p2)) in
                sort_pass fuel h (next n) func false
              else sort_pass fuel h (next n) func sorted
          end
      end
  end.

Fixpoint sort_loop (fuel : nat) (h : heap) (lst : loc) (func : A -> A -> Z) : res heap :=
  match fuel with
  | O => Fault FuelOut
  | Datatypes.S fuel =>
      let+ hd := load h (Some lst) in
      let+ (sorted, h) := sort_pass (pass h) h (next hd) func true in
      if sorted : bool then Ret h else sort_loop fuel h lst func
  end.

(** After as many passes as there are nodes, and one more, nothing moves. *)
Definition list_sort (h : heap) (lst : loc) (func : A -> A -> Z) : res heap :=
  sort_loop (Datatypes.S (pass h)) h lst func.

(** * Lists in the heap *)

(** The first node of [ls], or [e] after the last one. *)
Definition hd_or (ls : list loc) (e : option loc) : option loc :=
  match ls with l :: _ => Some l | [] => e end.

(** The last node of [ls], or the one before it. *)
Fixpoint end_of (p : loc) (ls : list loc) : loc :=
  match ls with [] => p | l :: ls => end_of l ls end.

(** The nodes [ls] carry [xs] between the node [p] and the end [e]. *)
Fixpoint seg (h : heap) (p : loc) (ls : list loc) (xs : list A) (e : option loc) : Prop :=
  match ls, xs with
  | [], [] => True
  | l :: ls, x :: xs => h !! l = Some (mkNode (hd_or ls e) (Some p) (Item x)) /\ seg h l ls xs e
  | _, _ => False
  end.

(** The header [lst] with the member [c] in its [data]. *)
Record islist (h : heap) (lst : loc) (ls : list loc) (xs : list A) (c : data A) : Prop :=
  mkIslist {
    il_nodup : NoDup (lst :: ls);
    il_header : h !! lst = Some (mkNode (hd_or ls None) None c);
    il_seg : seg h lst ls xs None
  }.

(** The cached end: the last node; NULL or, once emptied, the header itself
    when there is none. *)
Definition cache_ok (lst : loc) (ls : list loc) (c : data A) : Prop :=
  match ls with
  | [] => c = Null \/ c = Cached lst
  | _ => c = Cached (end_of lst ls)
  end.

(** [h'] differs from [h] on the locations [ls] only. *)
Definition only (ls : list loc) (h h' : heap) : Prop := forall l, l ∉ ls -> h' !! l = h !! l.

Lemma seg_length h p ls xs e : seg h p ls xs e -> length ls = length xs.
Proof. revert p xs. induction ls as [|l ls IH]; intros p [|x xs]; simpl; try done. intros [_ H]. by erewrite IH. Qed.

Lemma seg_frame h h' p ls xs e :
  (forall l, l ∈ ls -> h' !! l = h !! l) -> seg h p ls xs e -> seg h' p ls xs e.
Proof.
  revert p xs. induction ls as [|l ls IH]; intros p [|x xs] Hf; simpl; try done.
  intros [Hl Hs]. split; [rewrite Hf; [done | set_solver]|]. apply IH; [|done]. set_solver.
Qed.

Lemma seg_app h p ls1 ls2 xs e :
  seg h p (ls1 ++ ls2) xs e <->
  exists xs1 xs2, xs = xs1 ++ xs2 /\ seg h p ls1 xs1 (hd_or ls2 e) /\ seg h (end_of p ls1) ls2 xs2 e.
Proof.
  revert p xs. induction ls1 as [|l ls1 IH]; intros p xs; simpl.
  - split; [intros H; by exists [], xs | intros ([|? ?] & xs2 & -> & H & ?); done].
  - split.
    + destruct xs as [|x xs]; [done|]. intros [Hl Hs]. apply IH in Hs as (xs1 & xs2 & -> & H1 & H2).
      exists (x :: xs1), xs2. split; [done|]. split; [|done]. split; [|done].
      rewrite Hl. destruct ls1; done.
    + intros ([|x xs1] & xs2 & -> & H1 & H2); [done|]. destruct H1 as [Hl Hs]. simpl. split.
      * rewrite Hl. destruct ls1; done.
      * apply IH. eauto.
Qed.

Lemma end_of_app p ls1 ls2 : end_of p (ls1 ++ ls2) = end_of (end_of p ls1) ls2.
Proof. revert p. induction ls1; simpl; auto. Qed.

Lemma end_of_in p ls : end_of p ls = p \/ end_of p ls ∈ ls.
Proof. revert p. induction ls as [|l ls IH]; intros p; simpl; [auto|]. destruct (IH l) as [-> | ?]; set_solver. Qed.

Lemma seg_in h p ls xs e l : seg h p ls xs e -> l ∈ ls -> exists n, h !! l = Some n.
Proof.
  revert p xs. induction ls as [|k ls IH]; intros p [|x xs]; simpl; try done; [set_solver|].
  intros [Hk Hs] [->|Hl]%elem_of_cons; [eauto|]. by eapply IH.
Qed.

Lemma new_loc_fresh {B} (h : gmap loc B) : h !! new_loc h = None.
Proof.
  assert (forall l n, h !! l = Some n -> (l < new_loc h)%nat) as H.
  { unfold new_loc. refine (map_fold_weak_ind (fun r m => forall l n, m !! l = Some n -> (l < r)%nat) _ _ _ _ h).
    - intros l n. by rewrite lookup_empty.
    - intros l n m r Hm IH l' n' [[-> ->]|[Hne Hl]]%lookup_insert_Some; [lia|].
      apply IH in Hl. lia. }
  destruct (h !! new_loc h) as [n|] eqn:E; [|done]. apply H in E. lia.
Qed.

(** A list fits in a pass over its heap. *)
Lemma islist_pass h lst ls xs c : islist h lst ls xs c -> (length ls < pass h)%nat.
Proof.
  intros [Hnd Hh Hs]. unfold pass.
  assert (length (lst :: ls) <= size h)%nat; [|simpl in *; lia].
  rewrite <-(size_list_to_set (C := gset loc) (lst :: ls)) by done.
  rewrite <-size_dom. apply subseteq_size. intros l Hl.
  apply elem_of_list_to_set in Hl. apply elem_of_dom.
  apply elem_of_cons in Hl as [->|Hl]; [by eexists|].
  destruct (seg_in _ _ _ _ _ _ Hs Hl). by eexists.
Qed.

Lemma wpr_load h l n (Q : node A -> Prop) : h !! l = Some n -> Q n -> wpr (load h (Some l)) Q.
Proof. intros Hl HQ. simpl. by rewrite Hl. Qed.

(** A store changes the node where it is. *)
Lemma wpr_store h l f (Q : heap -> Prop) :
  is_Some (h !! l) -> Q (alter f l h) -> wpr (store h (Some l) f) Q.
Proof.
  intros [n Hl] HQ. simpl. by rewrite Hl.
Qed.

Lemma lookup_upd (h : heap) (l : loc) (f : node A -> node A) (k : loc) : alter f l h !! k = (if decide (k = l) then f else id) <$> h !! k.
Proof.
  case_decide as E; [subst; by rewrite lookup_alter_eq|].
  rewrite lookup_alter_ne by done. by destruct (h !! k).
Qed.

Lemma upd_is_Some (h : heap) (l : loc) (f : node A -> node A) (k : loc) : is_Some (h !! k) -> is_Some (alter f l h !! k).
Proof. rewrite lookup_upd. by apply fmap_is_Some. Qed.

Lemma wp_alloc_node h o (Q : option loc * heap -> oracle -> Prop) :
  (forall l o', h !! l = None -> (o = [] -> o' = []) ->
     Q (Some l, <[l := mkNode None None Null]> h) o') ->
  (forall o', o <> [] -> Q (None, h) o') ->
  wp (alloc_node h) o Q.
Proof.
  intros HS HN. unfold alloc_node. wp. apply wp_alloc_ok. intros b o' _ Ho. wp. destruct b.
  - apply HS; [apply new_loc_fresh|]. intros H. by destruct (Ho H).
  - apply HN. intros H. by destruct (Ho H) as [_ H2].
Qed.

(** ** Changing the links at a point of a list *)

(** The last node of a segment gets a new successor. *)
Lemma seg_retarget h h' p ls xs e e' :
  seg h p ls xs e -> NoDup ls -> p ∉ ls ->
  (forall l, l ∈ ls -> l <> end_of p ls -> h' !! l = h !! l) ->
  (end_of p ls ∈ ls -> h' !! end_of p ls = set_next e' <$> h !! end_of p ls) ->
  seg h' p ls xs e'.
Proof.
  revert p xs. induction ls as [|l ls IH]; intros p [|x xs]; simpl; try done.
  intros [Hl Hs] [Hnl Hnd]%NoDup_cons Hp Hsame Hend. destruct ls as [|k ls].
  - simpl in *. rewrite Hend, Hl by set_solver. by destruct xs.
  - assert (l <> end_of l (k :: ls)).
    { intros E. destruct (end_of_in k ls) as [E2|E2]; simpl in E; rewrite <-E in *; set_solver. }
    split; [rewrite Hsame; [done | set_solver | done]|].
    apply IH; try done.
    + intros j Hj Hne. apply Hsame; [set_solver | done].
    + intros Hin. apply Hend. set_solver.
Qed.

(** The first node of a segment gets a new predecessor. *)
Lemma seg_rehead h h' p p' l ls xs e :
  seg h p (l :: ls) xs e -> (forall k, k ∈ ls -> h' !! k = h !! k) ->
  h' !! l = set_prev (Some p') <$> h !! l -> seg h' p' (l :: ls) xs e.
Proof.
  destruct xs as [|x xs]; simpl; [done|]. intros [Hl Hs] Hsame Hhd.
  split; [by rewrite Hhd, Hl|]. by eapply seg_frame.
Qed.

(** Between the nodes [ls1] and [ls2] the links point to [n]: what an insertion
    or a removal leaves of a node [k] of the list. *)
Definition relink (lst : loc) (ls1 ls2 : list loc) (nx pv : option loc) (c : data A)
    (k : loc) (nd : node A) : node A :=
  mkNode (if decide (k = end_of lst ls1) then nx else next nd)
         (if decide (hd_or ls2 None = Some k) then pv else prev nd)
         (if decide (k = lst) then c else ndata nd).

Definition relinked (h h' : heap) (lst : loc) (ls1 ls2 : list loc) (nx pv : option loc) (c : data A) : Prop :=
  forall k, k ∈ lst :: ls1 ++ ls2 -> h' !! k = relink lst ls1 ls2 nx pv c k <$> h !! k.

Lemma hd_or_in ls l : hd_or ls None = Some l -> l ∈ ls.
Proof. destruct ls; simpl; [done|]. intros [= ->]. set_solver. Qed.

Lemma node_eta (n : node A) : mkNode (next n) (prev n) (ndata n) = n.
Proof. by destruct n. Qed.

(** The two halves and the header of a list whose links at the cut changed. *)
Lemma relinked_parts h h' lst ls1 ls2 xs1 xs2 e p c c' nx p' :
  NoDup (lst :: ls1 ++ ls2) -> h !! lst = Some (mkNode (hd_or ls1 e) None c) ->
  seg h lst ls1 xs1 e -> seg h p ls2 xs2 None ->
  relinked h h' lst ls1 ls2 nx (Some p') c' ->
  h' !! lst = Some (mkNode (hd_or ls1 nx) None c')
  /\ seg h' lst ls1 xs1 nx /\ seg h' p' ls2 xs2 None.
Proof.
  intros Hnd Hh Hs1 Hs2 Hrel.
  apply NoDup_cons in Hnd as [Hlst Hnd]. apply NoDup_app in Hnd as (Hnd1 & Hdis & Hnd2).
  assert (Hends : end_of lst ls1 = lst \/ end_of lst ls1 ∈ ls1) by apply end_of_in.
  split_and!.
  - rewrite Hrel, Hh by set_solver. simpl. unfold relink. simpl.
    rewrite (decide_True (P := lst = lst)) by done.
    rewrite (decide_False (P := hd_or ls2 None = Some lst)) by (intros ?%hd_or_in; set_solver).
    destruct ls1 as [|l ls1]; simpl; [by rewrite decide_True|].
    rewrite decide_False; [done|]. intros E. apply Hlst.
    pose proof (end_of_in l ls1) as E2. rewrite <-E in E2. set_solver.
  - eapply seg_retarget; [done | done | set_solver | |].
    + intros l Hl Hne. rewrite Hrel by set_solver.
      destruct (seg_in _ _ _ _ _ _ Hs1 Hl) as [nd Hnd']. rewrite Hnd'. simpl. f_equal. unfold relink.
      rewrite !decide_False; [apply node_eta | set_solver | intros ?%hd_or_in; set_solver | done].
    + intros Hin. rewrite Hrel by set_solver.
      destruct (seg_in _ _ _ _ _ _ Hs1 Hin) as [nd Hnd']. rewrite Hnd'. simpl. f_equal.
      unfold relink, set_next. rewrite decide_True by done.
      rewrite !decide_False; [done | intros E; rewrite E in Hin; set_solver
                              | intros ?%hd_or_in; set_solver].
  - destruct ls2 as [|l ls2]; [by destruct xs2|].
    eapply (seg_rehead h h' p); [done | |].
    + intros k Hk. rewrite Hrel by set_solver.
      assert (exists nd, h !! k = Some nd) as [nd Hnd'] by (eapply seg_in; [exact Hs2 | set_solver]).
      rewrite Hnd'. simpl. f_equal. unfold relink.
      rewrite !decide_False; [apply node_eta | set_solver | | intros ->; destruct Hends as [E|E]; [rewrite E in *|]; set_solver].
      simpl. intros [= ->]. apply NoDup_cons in Hnd2 as [? _]. done.
    + rewrite Hrel by set_solver. destruct xs2 as [|x xs2]; [done|]. destruct Hs2 as [Hl _].
      rewrite Hl. simpl. f_equal. unfold relink, set_prev. simpl.
      rewrite (decide_False (P := l = lst)) by set_solver.
      rewrite (decide_False (P := l = end_of lst ls1)) by (intros ->; destruct Hends as [E|E]; [rewrite E in *|]; set_solver).
      by rewrite decide_True.
Qed.

Lemma hd_or_app ls1 ls2 e : hd_or (ls1 ++ ls2) e = hd_or ls1 (hd_or ls2 e).
Proof. by destruct ls1. Qed.

(** A node linked in between two parts. *)
Lemma islist_insert h h' lst ls1 ls2 xs1 xs2 c c' n x :
  islist h lst (ls1 ++ ls2) (xs1 ++ xs2) c -> length ls1 = length xs1 -> n ∉ lst :: ls1 ++ ls2 ->
  relinked h h' lst ls1 ls2 (Some n) (Some n) c' ->
  h' !! n = Some (mkNode (hd_or ls2 None) (Some (end_of lst ls1)) (Item x)) ->
  islist h' lst (ls1 ++ n :: ls2) (xs1 ++ x :: xs2) c'.
Proof.
  intros [Hnd Hh Hs] Hlen Hn Hrel Hnn.
  apply seg_app in Hs as (ys1 & ys2 & Hys & Hs1 & Hs2).
  apply app_inj_1 in Hys as [<- <-]; [|apply seg_length in Hs1; congruence].
  rewrite hd_or_app in Hh.
  destruct (relinked_parts _ _ _ _ _ _ _ _ _ _ _ _ _ Hnd Hh Hs1 Hs2 Hrel) as (Hh' & Hs1' & Hs2').
  constructor.
  - rewrite <-Permutation_middle. apply NoDup_cons in Hnd as [? ?].
    apply NoDup_cons. split; [set_solver|]. apply NoDup_cons. split; [set_solver | done].
  - by rewrite Hh', hd_or_app.
  - apply seg_app. exists xs1, (x :: xs2). split; [done|]. by split_and!.
Qed.

(** A node linked out. *)
Lemma islist_remove h h' lst ls1 k ls2 xs1 y xs2 c c' :
  islist h lst (ls1 ++ k :: ls2) (xs1 ++ y :: xs2) c -> length ls1 = length xs1 ->
  relinked h h' lst ls1 ls2 (hd_or ls2 None) (Some (end_of lst ls1)) c' ->
  islist h' lst (ls1 ++ ls2) (xs1 ++ xs2) c'.
Proof.
  intros [Hnd Hh Hs] Hlen Hrel.
  apply seg_app in Hs as (ys1 & ys2 & Hys & Hs1 & Hs2).
  apply app_inj_1 in Hys as [<- <-]; [|apply seg_length in Hs1; congruence].
  destruct Hs2 as [Hk Hs2]. rewrite hd_or_app in Hh.
  assert (Hnd' : NoDup (lst :: ls1 ++ ls2)).
  { rewrite <-Permutation_middle in Hnd. apply NoDup_cons in Hnd as [? [? ?]%NoDup_cons].
    apply NoDup_cons. split; [set_solver | done]. }
  destruct (relinked_parts _ _ _ _ _ _ _ _ _ _ _ _ _ Hnd' Hh Hs1 Hs2 Hrel) as (Hh' & Hs1' & Hs2').
  constructor; [done | by rewrite Hh', hd_or_app|].
  apply seg_app. eauto 6.
Qed.

End MetaList.

#[local] Arguments load : simpl never.
#[local] Arguments store : simpl never.

(** * Proof automation *)

(** The node [k] of a heap in which only other nodes were written. *)
Ltac untouched := rewrite ?lookup_alter_ne, ?lookup_insert_ne by done.

(** Steps through a store or a load at a known location. *)
Ltac heap_step :=
  match goal with
  | |- wpr (load _ (Some _)) _ => eapply wpr_load; [untouched; eassumption|]
  | |- wpr (store _ (Some _) _) _ =>
      apply wpr_store; [repeat apply upd_is_Some; simplify_map_eq; by eauto|]
  | |- wpr (cached Null) _ => cbn [cached wpr]
  | |- wpr (cached (Cached _)) _ => cbn [cached wpr]
  | |- wpr (Ret _) _ => cbn [wpr]
  end.

Ltac heap_steps := repeat (wp; first [heap_step | wp_step]; cbn [next prev ndata]).

(** Proves [relinked] for a heap obtained by stores, node by node. *)
Ltac solve_relinked n :=
  lazymatch goal with |- relinked ?h _ _ _ _ _ _ _ =>
    let j := fresh "j" in let Hj := fresh "Hj" in
    let nd := fresh "nd" in let Hnd := fresh "Hnd" in
    intros j Hj; assert (j <> n) by (intros ->; by set_solver);
    unfold free_node; rewrite ?lookup_delete_ne, ?lookup_upd, ?lookup_insert_ne by done;
    destruct (h !! j) as [nd|] eqn:Hnd; [|done]; cbn [fmap option_fmap option_map]; f_equal;
    unfold relink, set_next, set_prev, set_data; cbn [hd_or end_of id];
    repeat case_decide; simplify_eq; try done; try (destruct nd; done);
    try match goal with E : end_of _ _ = _ |- _ => rewrite E in *; simplify_eq; done end
  end.

Ltac solve_only :=
  intros ? ?; unfold free_node; rewrite ?lookup_delete_ne, ?lookup_alter_ne, ?lookup_insert_ne; [done|set_solver..].

Section Operations.
Context {A : Type}.

Abbreviation heap := (gmap loc (node A)).
Implicit Types (h : heap) (xs : list A) (x y : A) (ls : list loc) (c : data A).

(** * What the operations do *)

(** The nodes of a list are in the heap. *)
Lemma islist_in h lst ls xs c k : islist h lst ls xs c -> k ∈ lst :: ls -> is_Some (h !! k).
Proof.
  intros [_ Hh Hs] [->|Hk]%elem_of_cons; [eauto|]. destruct (seg_in _ _ _ _ _ _ Hs Hk). eauto.
Qed.

Lemma fresh_not_in h lst ls xs c n : islist h lst ls xs c -> h !! n = None -> n ∉ lst :: ls.
Proof. intros Hl Hn Hin. destruct (islist_in _ _ _ _ _ _ Hl Hin). congruence. Qed.

(** The node in the middle of a list. *)
Lemma islist_node h lst ls1 k ls2 xs c :
  islist h lst (ls1 ++ k :: ls2) xs c ->
  exists xs1 y xs2, xs = xs1 ++ y :: xs2 /\ length ls1 = length xs1
    /\ h !! k = Some (mkNode (hd_or ls2 None) (Some (end_of lst ls1)) (Item y)).
Proof.
  intros [_ _ Hs]. apply seg_app in Hs as (xs1 & [|y xs2] & -> & Hs1 & Hs2); [done|].
  destruct Hs2 as [Hk _]. exists xs1, y, xs2. split_and!; [done | by eapply seg_length | done].
Qed.

Lemma end_of_mem lst ls : end_of lst ls ∈ lst :: ls.
Proof. destruct (end_of_in lst ls) as [->|?]; set_solver. Qed.

Lemma islist_apart h lst ls1 k ls2 xs c :
  islist h lst (ls1 ++ k :: ls2) xs c -> k <> lst /\ k <> end_of lst ls1.
Proof.
  intros [Hnd _ _]. apply NoDup_cons in Hnd as [Hl (_ & Hd & _)%NoDup_app].
  split; [set_solver|]. intros E. destruct (end_of_in lst ls1) as [E2|E2]; rewrite <-E in E2; set_solver.
Qed.

Definition inserted (h : heap) (lst : loc) (ls1 ls2 : list loc) (xs1 xs2 : list A) (x : A)
    (c : data A) (h' : heap) : Prop :=
  exists n, h !! n = None /\ islist h' lst (ls1 ++ n :: ls2) (xs1 ++ x :: xs2) c
    /\ only (lst :: n :: ls1 ++ ls2) h h'.

Lemma list_insert_before_spec h lst ls1 k ls2 xs1 y xs2 c x o :
  islist h lst (ls1 ++ k :: ls2) (xs1 ++ y :: xs2) c -> length ls1 = length xs1 ->
  wp (list_insert_before h (Some k) x) o (fun '(st, h') o' =>
    match st with
    | success => inserted h lst ls1 (k :: ls2) xs1 (y :: xs2) x c h' /\ (o = [] -> o' = [])
    | failure => h' = h /\ o <> []
    end).
Proof.
  intros Hl Hlen. pose proof (il_header _ _ _ _ _ Hl) as Hh. unfold list_insert_before. wp.
  apply wp_alloc_node; [|intros o' Ho; by wp]. intros n o' Hn Ho.
  pose proof (fresh_not_in _ _ _ _ _ _ Hl Hn) as Hnin.
  destruct (islist_node _ _ _ _ _ _ _ Hl) as (ys1 & z & ys2 & Hys & _ & Hk).
  destruct (islist_apart _ _ _ _ _ _ _ Hl) as [? ?].
  pose proof (end_of_mem lst ls1) as Hm.
  assert (end_of lst ls1 <> n) by set_solver. assert (k <> n) by set_solver.
  assert (Hpd : is_Some (h !! end_of lst ls1)) by (eapply islist_in; [exact Hl | set_solver]).
  heap_steps. split; [|done]. exists n. split; [done|]. split.
  - eapply islist_insert; [exact Hl | done | set_solver | |].
    + solve_relinked n.
    + rewrite lookup_alter_ne, lookup_alter_ne by done. rewrite !lookup_alter_eq, lookup_insert_eq. done.
  - solve_only.
Qed.

Lemma end_of_snoc lst ls k : end_of lst (ls ++ [k]) = k.
Proof. by rewrite end_of_app. Qed.

(** After the node [k], which is not the last one for the cache to stay right. *)
Lemma list_insert_after_spec h lst ls1 k ls2 xs1 y xs2 c x o :
  islist h lst (ls1 ++ k :: ls2) (xs1 ++ y :: xs2) c -> length ls1 = length xs1 ->
  wp (list_insert_after h (Some k) x) o (fun '(st, h') o' =>
    match st with
    | success => inserted h lst (ls1 ++ [k]) ls2 (xs1 ++ [y]) xs2 x c h' /\ (o = [] -> o' = [])
    | failure => h' = h /\ o <> []
    end).
Proof.
  intros Hl Hlen. pose proof (il_header _ _ _ _ _ Hl) as Hh. unfold list_insert_after. wp.
  apply wp_alloc_node; [|intros o' Ho; by wp]. intros n o' Hn Ho.
  pose proof (fresh_not_in _ _ _ _ _ _ Hl Hn) as Hnin.
  destruct (islist_node _ _ _ _ _ _ _ Hl) as (ys1 & z & ys2 & Hys & _ & Hk).
  destruct (islist_apart _ _ _ _ _ _ _ Hl) as [? ?]. assert (k <> n) by set_solver.
  assert (Hl' : islist h lst ((ls1 ++ [k]) ++ ls2) ((xs1 ++ [y]) ++ xs2) c) by (by rewrite <-!app_assoc).
  assert (Hlen' : length (ls1 ++ [k]) = length (xs1 ++ [y])) by (rewrite !length_app; simpl; lia).
  destruct ls2 as [|l ls2].
  - cbn [hd_or] in Hk. heap_steps. split; [|done]. exists n. split; [done|]. split; [|solve_only].
    eapply islist_insert; [exact Hl' | done | set_solver | |].
    + pose proof (end_of_snoc lst ls1 k) as Es. solve_relinked n.
    + rewrite lookup_alter_ne by done. rewrite end_of_snoc, !lookup_alter_eq, lookup_insert_eq. done.
  - cbn [hd_or] in Hk.
    assert (is_Some (h !! l)) by (eapply islist_in; [exact Hl | set_solver]).
    assert (l <> n) by set_solver.
    destruct (islist_apart _ _ _ _ _ _ _ Hl') as [Hll Hlk]. rewrite end_of_snoc in Hlk.
    heap_steps. split; [|done]. exists n. split; [done|]. split; [|solve_only].
    eapply islist_insert; [exact Hl' | done | set_solver | |].
    + pose proof (end_of_snoc lst ls1 k) as Es. solve_relinked n.
    + rewrite !lookup_alter_ne by done. rewrite end_of_snoc, !lookup_alter_eq, lookup_insert_eq. done.
Qed.

(** In front; an emptied list whose cache is the header is excluded. *)
Lemma list_insert_spec h lst ls xs c x o :
  islist h lst ls xs c -> cache_ok lst ls c -> (ls = [] -> c = Null) ->
  wp (list_insert h (Some lst) x) o (fun '(r, h') o' =>
    (r = Some lst /\ (o = [] -> o' = []) /\ exists n c', h !! n = None
       /\ islist h' lst (n :: ls) (x :: xs) c' /\ cache_ok lst (n :: ls) c' /\ only (lst :: n :: ls) h h')
    \/ (r = None /\ h' = h /\ o <> [])).
Proof.
  intros Hl Hc Hnull. pose proof (il_header _ _ _ _ _ Hl) as Hh.
  unfold list_insert, list_or_new. do 2 wp. apply wp_alloc_node; [|intros o' Ho; wp; by right].
  intros n o' Hn Ho. pose proof (fresh_not_in _ _ _ _ _ _ Hl Hn) as Hnin.
  assert (lst <> n) by set_solver. destruct ls as [|l ls].
  - rewrite Hnull in * by done. cbn [hd_or] in Hh. heap_steps. left. split; [done|]. split; [done|].
    exists n, (Cached n). split; [done|]. split; [|split; [done | solve_only]].
    eapply (islist_insert h _ lst [] [] [] xs); [exact Hl | done | set_solver | |].
    + solve_relinked n.
    + rewrite !lookup_alter_ne by done. rewrite !lookup_alter_eq, lookup_insert_eq. done.
  - cbn [hd_or] in Hh. simpl in Hc. subst c.
    assert (is_Some (h !! l)) by (eapply islist_in; [exact Hl | set_solver]).
    assert (l <> n) by set_solver.
    destruct (islist_apart h lst [] l ls xs _ Hl) as [? _].
    heap_steps. left. split; [done|]. split; [done|].
    exists n, (Cached (end_of l ls)). split; [done|]. split; [|split; [done | solve_only]].
    eapply (islist_insert h _ lst [] (l :: ls) [] xs); [exact Hl | done | set_solver | |].
    + solve_relinked n.
    + rewrite !lookup_alter_ne by done. rewrite !lookup_alter_eq, lookup_insert_eq. done.
Qed.

(** Removing the node [k]: what is left, the node after it, the cache. *)
Lemma list_remove_node_spec h lst ls1 k ls2 xs1 y xs2 c :
  islist h lst (ls1 ++ k :: ls2) (xs1 ++ y :: xs2) c -> length ls1 = length xs1 ->
  cache_ok lst (ls1 ++ k :: ls2) c ->
  wpr (list_remove_node h lst (Some k)) (fun '(i, h') =>
    i = hd_or ls2 None /\ exists c', islist h' lst (ls1 ++ ls2) (xs1 ++ xs2) c'
      /\ cache_ok lst (ls1 ++ ls2) c' /\ (ls1 ++ ls2 <> [] \/ c' = Cached lst)
      /\ only (lst :: ls1 ++ k :: ls2) h h' /\ h' !! k = None).
Proof.
  intros Hl Hlen Hc. pose proof Hl as [Hnd Hh _].
  assert (Hcc : c = Cached (end_of k ls2)).
  { unfold cache_ok in Hc. destruct (ls1 ++ k :: ls2) eqn:E; [by destruct ls1|].
    rewrite <-E, end_of_app in Hc. done. }
  destruct (islist_node _ _ _ _ _ _ _ Hl) as (ys1 & z & ys2 & Hys & _ & Hk).
  destruct (islist_apart _ _ _ _ _ _ _ Hl) as [? ?].
  assert (is_Some (h !! end_of lst ls1))
    by (eapply islist_in; [exact Hl | pose proof (end_of_mem lst ls1); set_solver]).
  assert (Hkn : k ∉ lst :: ls1 ++ ls2).
  { rewrite <-Permutation_middle in Hnd. apply NoDup_cons in Hnd as [? [? ?]%NoDup_cons]. set_solver. }
  unfold list_remove_node. heap_steps. simpl ndata. rewrite Hcc.
  pose proof (end_of_mem lst ls1) as Hmem.
  destruct ls2 as [|l ls2].
  - cbn [end_of hd_or]. rewrite decide_True by done. cbn [hd_or] in Hk. heap_steps.
    split; [done|]. exists (Cached (end_of lst ls1)). split; [|split_and!].
    + eapply islist_remove; [exact Hl | done |]. solve_relinked k.
    + rewrite app_nil_r. unfold cache_ok. destruct ls1; [by right | done].
    + rewrite app_nil_r. destruct ls1; [by right | by left].
    + solve_only.
    + apply lookup_delete_eq.
  - assert (end_of k (l :: ls2) <> k).
    { apply NoDup_cons in Hnd as [_ (_ & _ & [? _]%NoDup_cons)%NoDup_app].
      cbn [end_of]. intros E. pose proof (end_of_mem l ls2) as E2. rewrite E in E2. done. }
    rewrite decide_False by congruence. cbn [hd_or] in Hk.
    assert (is_Some (h !! l)) by (eapply islist_in; [exact Hl | set_solver]).
    assert (l <> lst /\ l <> end_of lst ls1 /\ l <> k) as (? & ? & ?).
    { apply NoDup_cons in Hnd as [? (_ & Hd & [? _]%NoDup_cons)%NoDup_app].
      split_and!; [set_solver| |set_solver]. intros ->.
      destruct (end_of_in lst ls1) as [E|E]; [rewrite E in *|]; set_solver. }
    heap_steps. split; [done|]. exists (Cached (end_of l ls2)).
    split; [|split_and!].
    + eapply islist_remove; [exact Hl | done |]. solve_relinked k.
    + unfold cache_ok. destruct (ls1 ++ l :: ls2) eqn:E; [by destruct ls1|].
      by rewrite <-E, end_of_app.
    + left. by destruct ls1.
    + solve_only.
    + apply lookup_delete_eq.
Qed.

Lemma list_new_spec h o (Q : option loc * heap -> oracle -> Prop) :
  (forall l h' o', h !! l = None -> islist h' l [] [] Null -> only [l] h h' -> (o = [] -> o' = []) ->
     Q (Some l, h') o') ->
  (forall o', o <> [] -> Q (None, h) o') -> wp (list_new h) o Q.
Proof.
  intros HS HN. apply wp_alloc_node; [|done]. intros l o' Hl Ho. apply HS; try done.
  - constructor; [apply NoDup_singleton | apply lookup_insert_eq | done].
  - solve_only.
Qed.

(** At the end; the effect of [list_add] on a list. *)
Definition added (h : heap) (lst : loc) (ls : list loc) (xs : list A) (x : A) (h' : heap) : Prop :=
  exists n, h !! n = None /\ islist h' lst (ls ++ [n]) (xs ++ [x]) (Cached n)
    /\ only (lst :: n :: ls) h h'.

(** The cached end is where [list_add] goes on, whatever was behind it. *)
Lemma list_add_at h lst ls xs c e x o :
  NoDup (lst :: ls) -> h !! lst = Some (mkNode (hd_or ls e) None c) -> seg h lst ls xs e ->
  c = Null /\ ls = [] \/ c = Cached (end_of lst ls) ->
  wp (list_add h (Some lst) x) o (fun '(r, h') o' =>
    (r = Some lst /\ added h lst ls xs x h' /\ (o = [] -> o' = []))
    \/ (r = None /\ h' = h /\ o <> [])).
Proof.
  intros Hnd Hh Hs Hc. unfold list_add, list_or_new. do 2 wp.
  apply wp_alloc_node; [|intros o' Ho; wp; by right]. intros n o' Hn Ho.
  assert (Hin : forall k, k ∈ lst :: ls -> is_Some (h !! k)).
  { intros k [->|Hk]%elem_of_cons; [eauto|]. destruct (seg_in _ _ _ _ _ _ Hs Hk). eauto. }
  assert (Hnin : n ∉ lst :: ls) by (intros [? ?]%Hin; congruence).
  assert (lst <> n) by set_solver. pose proof (end_of_mem lst ls) as Hmem.
  assert (is_Some (h !! end_of lst ls)) by auto. assert (end_of lst ls <> n) by set_solver.
  assert (Hfin : forall h', relinked h h' lst ls [] (Some n) (Some n) (Cached n) ->
     h' !! n = Some (mkNode None (Some (end_of lst ls)) (Item x)) -> only (lst :: n :: ls) h h' ->
     (Some lst = Some lst /\ added h lst ls xs x h' /\ (o = [] -> o' = []))
     \/ (Some lst = None /\ h' = h /\ o <> [])).
  { intros h' Hrel Hnn Honly. left. split; [done|]. split; [|done]. exists n. split; [done|].
    split; [|done]. rewrite <-(app_nil_r ls) in Hnd.
    destruct (relinked_parts _ _ _ _ _ _ [] _ lst _ _ _ _ Hnd Hh Hs I Hrel) as (Hh' & Hs' & _).
    rewrite app_nil_r in Hnd. constructor.
    - rewrite app_comm_cons, Permutation_app_comm. apply NoDup_cons. by split.
    - by rewrite Hh', hd_or_app.
    - apply seg_app. exists xs, [x]. by split_and!. }
  destruct Hc as [[-> ->]| ->].
  - cbn [end_of hd_or] in *. heap_steps. apply Hfin; [solve_relinked n | | solve_only].
    rewrite !lookup_alter_ne by done. rewrite !lookup_alter_eq, lookup_alter_ne, lookup_insert_eq by done. done.
  - heap_steps. apply Hfin; [solve_relinked n | | solve_only].
    rewrite lookup_alter_ne by done. rewrite lookup_alter_eq, lookup_alter_ne by done.
    rewrite lookup_alter_eq, lookup_insert_eq. done.
Qed.

Lemma list_add_spec h lst ls xs c x o :
  islist h lst ls xs c -> cache_ok lst ls c ->
  wp (list_add h (Some lst) x) o (fun '(r, h') o' =>
    (r = Some lst /\ added h lst ls xs x h' /\ (o = [] -> o' = []))
    \/ (r = None /\ h' = h /\ o <> [])).
Proof.
  intros [Hnd Hh Hs] Hc. eapply list_add_at; [done | done | done|].
  destruct ls; [destruct Hc as [->| ->]; auto | by right].
Qed.

End Operations.
