(* ===== verification/MetaListSeq.v ===== *)
(** The list as a sequence, meta/src/meta_list.c, continued.

    The operations that change a list, run in any order, are the operations on
    the sequence it holds ([list_ops_refine]), as long as the end cached in the
    header stays right; the two ways in which it does not lose a node
    ([list_insert_after_loses], [list_insert_emptied_loses]). *)

From Stdlib Require Import ZArith Lia.
From stdpp Require Import base list numbers gmap sets.
From S2P Require Import Prelude MetaList.

#[local] Arguments load : simpl never.
#[local] Arguments store : simpl never.

Section Sequence.
Context {A : Type}.

Abbreviation heap := (gmap loc (node A)).
Implicit Types (h : heap) (xs ys zs : list A) (x y : A) (ls : list loc) (c : data A).

(** * The list as a sequence *)

(** The operations that change a list, at a position counted from 0. *)
Inductive op : Type :=
| Add (x : A)
| Insert (x : A)
| InsertBefore (i : nat) (x : A)
| InsertAfter (i : nat) (x : A)
| Remove (i : nat).

(** The iterator at a position, as a caller gets it. *)
Fixpoint advance (h : heap) (i : nat) (it : option loc) : res (option loc) :=
  match i with
  | O => Ret it
  | Datatypes.S i => let+ it := list_next h it in advance h i it
  end.

Definition iterator (h : heap) (lst : loc) (i : nat) : res (option loc) :=
  let+ it := list_first h (Some lst) in advance h i it.

Definition isok (st : status) : bool := match st with success => true | failure => false end.

Definition run (h : heap) (lst : loc) (p : op) : C (bool * heap) :=
  match p with
  | Add x => let* (r, h) := list_add h (Some lst) x in ret (match r with Some _ => true | None => false end, h)
  | Insert x => let* (r, h) := list_insert h (Some lst) x in ret (match r with Some _ => true | None => false end, h)
  | InsertBefore i x =>
      let* it := lift (iterator h lst i) in
      let* (st, h) := list_insert_before h it x in ret (isok st, h)
  | InsertAfter i x =>
      let* it := lift (iterator h lst i) in
      let* (st, h) := list_insert_after h it x in ret (isok st, h)
  | Remove i =>
      let* it := lift (iterator h lst i) in
      let* (_, h) := lift (list_remove_node h lst it) in ret (true, h)
  end.

Fixpoint run_ops (h : heap) (lst : loc) (ps : list op) : C (list bool * heap) :=
  match ps with
  | [] => ret ([], h)
  | p :: ps =>
      let* (ok, h) := run h lst p in
      let* (oks, h) := run_ops h lst ps in
      ret (ok :: oks, h)
  end.

(** The sequence, and whether the list has been emptied by a removal. *)
Record seqstate : Type := mkSeq { items : list A; emptied : bool }.

Definition insert_at (i : nat) (x : A) (xs : list A) : list A := take i xs ++ x :: drop i xs.

Definition astep (st : seqstate) (p : op) : seqstate :=
  match p with
  | Add x => mkSeq (items st ++ [x]) (emptied st)
  | Insert x => mkSeq (x :: items st) (emptied st)
  | InsertBefore i x => mkSeq (insert_at i x (items st)) (emptied st)
  | InsertAfter i x => mkSeq (insert_at (Datatypes.S i) x (items st)) (emptied st)
  | Remove i => mkSeq (take i (items st) ++ drop (Datatypes.S i) (items st)) true
  end.

(** When an operation keeps the cached end right: a position has to exist, an
    insertion after the last node and one in front of an emptied list are
    excluded. *)
Definition legal (st : seqstate) (p : op) : Prop :=
  match p with
  | Add _ => True
  | Insert _ => items st <> [] \/ emptied st = false
  | InsertBefore i _ | Remove i => (i < length (items st))%nat
  | InsertAfter i _ => (Datatypes.S i < length (items st))%nat
  end.

(** Whatever fails for want of memory. *)
Fixpoint legal_ops (st : seqstate) (ps : list op) : Prop :=
  match ps with
  | [] => True
  | p :: ps => legal st p /\ legal_ops (astep st p) ps /\ legal_ops st ps
  end.

Fixpoint replay (st : seqstate) (ps : list op) (oks : list bool) : seqstate :=
  match ps, oks with
  | p :: ps, ok :: oks => replay (if ok : bool then astep st p else st) ps oks
  | _, _ => st
  end.

Definition represents (h : heap) (lst : loc) (st : seqstate) : Prop :=
  exists ls c, islist h lst ls (items st) c /\ cache_ok lst ls c
    /\ (items st = [] -> emptied st = false -> c = Null).

(** The nodes around a position. *)
Lemma position_split h lst ls xs c i :
  islist h lst ls xs c -> (i < length xs)%nat ->
  exists ls1 k ls2 xs1 y xs2, ls = ls1 ++ k :: ls2 /\ xs = xs1 ++ y :: xs2
    /\ length ls1 = i /\ length xs1 = i.
Proof.
  intros Hl Hi. assert (Hlen : length ls = length xs) by (eapply seg_length; by destruct Hl).
  destruct (lookup_lt_is_Some_2 ls i) as [k Hk]; [lia|].
  destruct (lookup_lt_is_Some_2 xs i) as [y Hy]; [lia|].
  exists (take i ls), k, (drop (Datatypes.S i) ls), (take i xs), y, (drop (Datatypes.S i) xs).
  rewrite !take_drop_middle by done. rewrite !length_take. split_and!; try done; lia.
Qed.

Lemma advance_spec h p ls1 k ls2 xs :
  seg h p (ls1 ++ k :: ls2) xs None -> wpr (advance h (length ls1) (hd_or (ls1 ++ [k]) None)) (fun it => it = Some k).
Proof.
  revert p xs. induction ls1 as [|l ls1 IH]; intros p xs Hs; [done|].
  destruct xs as [|x xs]; [done|]. destruct Hs as [Hl Hs]. simpl. wp. unfold list_next. wp.
  eapply wpr_load; [exact Hl|]. cbn [next wpr]. rewrite hd_or_app. simpl.
  specialize (IH l xs Hs). by rewrite hd_or_app in IH.
Qed.

Lemma iterator_spec h lst ls1 k ls2 xs c :
  islist h lst (ls1 ++ k :: ls2) xs c -> wpr (iterator h lst (length ls1)) (fun it => it = Some k).
Proof.
  intros Hl. unfold iterator, list_first. apply wpr_bind, wpr_bind, wpr_guard; [done|].
  apply wpr_bind. eapply wpr_load; [exact (il_header _ _ _ _ _ Hl)|]. cbn [next wpr].
  destruct Hl as [_ _ Hs]. replace (hd_or (ls1 ++ k :: ls2) None) with (hd_or (ls1 ++ [k]) None) by (by destruct ls1).
  by eapply advance_spec.
Qed.

Lemma insert_at_app xs1 x xs2 : insert_at (length xs1) x (xs1 ++ xs2) = xs1 ++ x :: xs2.
Proof. unfold insert_at. by rewrite take_app_length, drop_app_length. Qed.

Lemma cache_ok_last lst ls1 k ls2 c :
  cache_ok lst (ls1 ++ k :: ls2) c <-> c = Cached (end_of k ls2).
Proof.
  unfold cache_ok. destruct (ls1 ++ k :: ls2) eqn:E; [by destruct ls1|]. by rewrite <-E, end_of_app.
Qed.

Lemma represents_intro h lst ls xs c (e : bool) :
  islist h lst ls xs c -> cache_ok lst ls c -> (xs = [] -> e = false -> c = Null) ->
  represents h lst (mkSeq xs e).
Proof. intros. by exists ls, c. Qed.

Lemma run_add h lst st x o :
  represents h lst st ->
  wp (run h lst (Add x)) o (fun '(ok, h') o' =>
    represents h' lst (if ok : bool then astep st (Add x) else st) /\ (o = [] -> ok = true /\ o' = [])).
Proof.
  intros (ls & c & Hl & Hc & He). simpl. wp. eapply wp_mono; [by eapply list_add_spec|].
  intros [r h'] o' [(-> & (n & _ & Hl' & _) & Ho) | (-> & -> & Hne)]; wp.
  - split; [|auto]. eapply represents_intro; [done | by apply cache_ok_last|]. by destruct (items st).
  - split; [by exists ls, c | done].
Qed.

Lemma run_insert h lst st x o :
  represents h lst st -> legal st (Insert x) ->
  wp (run h lst (Insert x)) o (fun '(ok, h') o' =>
    represents h' lst (if ok : bool then astep st (Insert x) else st) /\ (o = [] -> ok = true /\ o' = [])).
Proof.
  intros (ls & c & Hl & Hc & He) Hleg. simpl. wp. eapply wp_mono; [eapply list_insert_spec; [done | done|]|].
  { intros ->. destruct Hl as [_ _ Hs]. destruct (items st) eqn:E; [|done].
    destruct Hleg as [?|?]; [done | by apply He]. }
  intros [r h'] o' [(-> & Ho & n & c' & _ & Hl' & Hc' & _) | (-> & -> & Hne)]; wp.
  - split; [|auto]. by eapply represents_intro.
  - split; [by exists ls, c | done].
Qed.

Lemma run_insert_before h lst st i x o :
  represents h lst st -> legal st (InsertBefore i x) ->
  wp (run h lst (InsertBefore i x)) o (fun '(ok, h') o' =>
    represents h' lst (if ok : bool then astep st (InsertBefore i x) else st) /\ (o = [] -> ok = true /\ o' = [])).
Proof.
  intros Hr Hleg. pose proof Hr as (ls & c & Hl & Hc & He). simpl in Hleg.
  destruct (position_split _ _ _ _ _ _ Hl Hleg) as (ls1 & k & ls2 & xs1 & y & xs2 & -> & Hxs & Hl1 & Hx1).
  rewrite Hxs in Hl. simpl. wp. rewrite <-Hl1. eapply wpr_mono; [by eapply iterator_spec|]. intros it ->.
  wp. eapply wp_mono; [eapply list_insert_before_spec; [done | congruence]|].
  intros [[] h'] o' H; wp.
  - destruct H as [-> ?]. by split.
  - destruct H as [(n & _ & Hl' & _) Ho]. split; [|auto].
    rewrite Hl1, <-Hx1, Hxs, insert_at_app. eapply represents_intro; [exact Hl' | | by destruct xs1].
    apply cache_ok_last in Hc. by apply cache_ok_last.
Qed.

Lemma run_insert_after h lst st i x o :
  represents h lst st -> legal st (InsertAfter i x) ->
  wp (run h lst (InsertAfter i x)) o (fun '(ok, h') o' =>
    represents h' lst (if ok : bool then astep st (InsertAfter i x) else st) /\ (o = [] -> ok = true /\ o' = [])).
Proof.
  intros Hr Hleg. pose proof Hr as (ls & c & Hl & Hc & He). simpl in Hleg.
  destruct (position_split _ _ _ _ _ i Hl) as (ls1 & k & ls2 & xs1 & y & xs2 & -> & Hxs & Hl1 & Hx1); [lia|].
  assert (exists l ls2', ls2 = l :: ls2') as (l & ls2' & ->).
  { assert (Hlen : length (ls1 ++ k :: ls2) = length (items st)) by (eapply seg_length; by destruct Hl).
    rewrite length_app in Hlen. simpl in Hlen. destruct ls2; [simpl in Hlen; lia | eauto]. }
  rewrite Hxs in Hl. simpl. wp. rewrite <-Hl1. eapply wpr_mono; [by eapply iterator_spec|]. intros it ->.
  wp. eapply wp_mono; [eapply list_insert_after_spec; [done | congruence]|].
  intros [[] h'] o' H; wp.
  - destruct H as [-> ?]. by split.
  - destruct H as [(n & _ & Hl' & _) Ho]. split; [|auto].
    replace (insert_at (Datatypes.S (length ls1)) x (items st)) with ((xs1 ++ [y]) ++ x :: xs2).
    + eapply represents_intro; [exact Hl' | | by destruct xs1].
      apply cache_ok_last in Hc. by apply cache_ok_last.
    + rewrite <-insert_at_app, Hxs, length_app, <-app_assoc. simpl. rewrite Hx1, Hl1. f_equal. lia.
Qed.

Lemma run_remove h lst st i o :
  represents h lst st -> legal st (Remove i) ->
  wp (run h lst (Remove i)) o (fun '(ok, h') o' =>
    represents h' lst (if ok : bool then astep st (Remove i) else st) /\ (o = [] -> ok = true /\ o' = [])).
Proof.
  intros Hr Hleg. pose proof Hr as (ls & c & Hl & Hc & He). simpl in Hleg.
  destruct (position_split _ _ _ _ _ _ Hl Hleg) as (ls1 & k & ls2 & xs1 & y & xs2 & -> & Hxs & Hl1 & Hx1).
  rewrite Hxs in Hl. simpl. wp. rewrite <-Hl1. eapply wpr_mono; [by eapply iterator_spec|]. intros it ->.
  wp. eapply wpr_mono; [eapply list_remove_node_spec; [done | congruence | done]|].
  intros [i2 h'] (_ & c' & Hl' & Hc' & _ & _). wp. split; [|done].
  replace (take (length ls1) (items st) ++ drop (Datatypes.S (length ls1)) (items st)) with (xs1 ++ xs2).
  - by eapply represents_intro.
  - rewrite Hl1, <-Hx1, Hxs, take_app_length. f_equal.
    change (Datatypes.S (length xs1)) with (1 + length xs1)%nat.
    by rewrite Nat.add_comm, <-drop_drop, drop_app_length.
Qed.

Lemma run_step h lst st p o :
  represents h lst st -> legal st p ->
  wp (run h lst p) o (fun '(ok, h') o' =>
    represents h' lst (if ok : bool then astep st p else st) /\ (o = [] -> ok = true /\ o' = [])).
Proof.
  destruct p; [intros ? _; by apply run_add | by apply run_insert | by apply run_insert_before
    | by apply run_insert_after | by apply run_remove].
Qed.

(** [list_insert] on an emptied list leaves the header cached. *)
Lemma list_insert_cached h lst x o :
  islist h lst [] [] (Cached lst) ->
  wp (list_insert h (Some lst) x) o (fun '(r, h') o' =>
    (r = Some lst /\ (exists n, islist h' lst [n] [x] (Cached lst)) /\ (o = [] -> o' = []))
    \/ (r = None /\ o <> [])).
Proof.
  intros Hl. pose proof (il_header _ _ _ _ _ Hl) as Hh. cbn [hd_or] in Hh.
  unfold list_insert, list_or_new. do 2 wp. apply wp_alloc_node; [|intros o' Ho; wp; by right].
  intros n o' Hn Ho. pose proof (fresh_not_in _ _ _ _ _ _ Hl Hn) as Hnin.
  assert (lst <> n) by set_solver. heap_steps. left. split; [done|]. split; [|done]. exists n.
  eapply (islist_insert h _ lst [] [] [] []); [exact Hl | done | set_solver | |].
  - solve_relinked n.
  - rewrite !lookup_alter_ne by done. rewrite !lookup_alter_eq, lookup_insert_eq. done.
Qed.

(** * Theorems *)

(** C11. Any sequence of additions, insertions and removals that keeps the
    cached end right is, under any behaviour of the allocator, the same
    sequence of operations on the abstract list: it never follows a bad pointer
    and the list it leaves holds what the operations that had memory make of
    the sequence. *)
Theorem list_ops_refine h lst st ps o :
  represents h lst st -> legal_ops st ps ->
  exists oks h' o', run_ops h lst ps o = Ret (oks, h', o') /\ length oks = length ps
    /\ represents h' lst (replay st ps oks) /\ (o = [] -> Forall (eq true) oks).
Proof.
  intros Hr Hleg.
  assert (wp (run_ops h lst ps) o (fun '(oks, h') _ => length oks = length ps
    /\ represents h' lst (replay st ps oks) /\ (o = [] -> Forall (eq true) oks))) as H.
  { revert h st o Hr Hleg. induction ps as [|p ps IH]; intros h st o Hr Hleg; [by wp|].
    destruct Hleg as (Hp & Hyes & Hno). simpl. wp. eapply wp_mono; [by apply run_step|].
    intros [ok h'] o' [Hr' Ho]. wp.
    eapply wp_mono; [apply (IH h' (if ok then astep st p else st)); [done | by destruct ok]|].
    intros [oks h2] o2 (Hlen & Hr2 & Hall). wp. split; [simpl; congruence|]. split; [done|].
    intros Hoo. destruct (Ho Hoo) as [-> ->]. constructor; auto. }
  destruct (wp_eq _ _ _ H) as ([oks h'] & o' & -> & ?). eauto 7.
Qed.

(** Inserting after the last node leaves the end cached in the header
    behind: the payload inserted there is dropped by the next [list_add]. *)
Theorem list_insert_after_loses h lst ls k xs y c x z :
  islist h lst (ls ++ [k]) (xs ++ [y]) c -> length ls = length xs -> cache_ok lst (ls ++ [k]) c ->
  exists h1 h2 ls1 ls2 c2, list_insert_after h (Some k) x [] = Ret (success, h1, [])
    /\ islist h1 lst ls1 (xs ++ [y; x]) c
    /\ list_add h1 (Some lst) z [] = Ret (Some lst, h2, [])
    /\ islist h2 lst ls2 (xs ++ [y; z]) c2.
Proof.
  intros Hl Hlen Hc. apply cache_ok_last in Hc. simpl in Hc. subst c.
  destruct (wp_eq _ _ _ (list_insert_after_spec h lst ls k [] xs y [] _ x [] Hl Hlen))
    as ([[] h1] & o1 & E1 & H1); [by destruct H1|].
  destruct H1 as [(n & _ & Hl1 & _) Ho1]. rewrite Ho1 in E1 by done.
  pose proof Hl1 as [Hnd Hh Hs]. rewrite <-!app_assoc in Hl1.
  apply NoDup_cons in Hnd as [Hn1 (Hn2 & _ & _)%NoDup_app].
  assert (Hnd' : NoDup (lst :: ls ++ [k])) by (apply NoDup_cons; split; [set_solver | done]).
  apply seg_app in Hs as (ys1 & ys2 & Hys & Hs1 & Hs2). rewrite hd_or_app in Hh.
  apply app_inj_1 in Hys as [<- <-];
    [|apply seg_length in Hs1; rewrite !length_app in *; simpl in *; lia].
  assert (Hwp := list_add_at h1 lst (ls ++ [k]) (xs ++ [y]) _ _ z [] Hnd' Hh Hs1).
  rewrite end_of_snoc in Hwp. specialize (Hwp (or_intror eq_refl)).
  destruct (wp_eq _ _ _ Hwp) as ([r h2] & o2 & E2 & [(-> & (m & _ & Hl2 & _) & Ho2) | (_ & _ & ?)]); [|done].
  rewrite Ho2 in E2 by done. rewrite <-!app_assoc in Hl2. by eauto 10.
Qed.

(** A list whose last node was removed caches its own header; a
    [list_insert] does not correct that, and the next [list_add] drops the
    payload inserted. *)
Theorem list_insert_emptied_loses h lst k y x z :
  islist h lst [k] [y] (Cached k) ->
  exists h1 h2 h3 ls2 ls3 c3, list_remove_node h lst (Some k) = Ret (None, h1)
    /\ list_insert h1 (Some lst) x [] = Ret (Some lst, h2, [])
    /\ islist h2 lst ls2 [x] (Cached lst)
    /\ list_add h2 (Some lst) z [] = Ret (Some lst, h3, [])
    /\ islist h3 lst ls3 [z] c3.
Proof.
  intros Hl.
  destruct (wpr_eq _ _ (list_remove_node_spec h lst [] k [] [] y [] _ Hl eq_refl eq_refl))
    as ([i h1] & E1 & -> & c1 & Hl1 & _ & Hc1 & _).
  destruct Hc1 as [? | ->]; [done|].
  destruct (wp_eq _ _ _ (list_insert_cached h1 lst x [] Hl1)) as ([r h2] & o2 & E2 & H2).
  destruct H2 as [(-> & (n & Hl2) & Ho2) | (_ & ?)]; [|done]. rewrite Ho2 in E2 by done.
  pose proof Hl2 as [Hnd Hh Hs].
  assert (Hwp := list_add_at h2 lst [] [] _ (Some n) z [] (NoDup_singleton _) Hh I (or_intror eq_refl)).
  destruct (wp_eq _ _ _ Hwp) as ([r h3] & o3 & E3 & [(-> & (m & _ & Hl3 & _) & Ho3) | (_ & _ & ?)]); [|done].
  rewrite Ho3 in E3 by done. by eauto 12.
Qed.

End Sequence.

(** * Witnesses *)

Definition one_node : gmap loc (node Z) :=
  <[0%nat := mkNode (Some 1%nat) None (Cached 1%nat)]>
  (<[1%nat := mkNode None (Some 0%nat) (Item 7)]> ∅).

Lemma one_node_islist : islist one_node 0%nat [1%nat] [7] (Cached 1%nat).
Proof. constructor; [decide_closed | reflexivity | by split]. Qed.

Lemma list_ops_refine_witness :
  exists oks h' o',
    run_ops one_node 0%nat [Add 8; Insert 5; InsertBefore 0 6; Remove 0] [true; false] = Ret (oks, h', o')
    /\ length oks = 4%nat
    /\ represents h' 0%nat (replay (mkSeq [7] false) [Add 8; Insert 5; InsertBefore 0 6; Remove 0] oks)
    /\ ([true; false] = [] -> Forall (eq true) oks).
Proof.
  apply (list_ops_refine one_node 0%nat (mkSeq [7] false) [Add 8; Insert 5; InsertBefore 0 6; Remove 0]).
  - exists [1%nat], (Cached 1%nat). split; [apply one_node_islist | done].
  - simpl. repeat split; (left; discriminate) || lia || done.
Defined.

Lemma list_insert_after_loses_witness :
  exists h1 h2 ls1 ls2 c2, list_insert_after one_node (Some 1%nat) 8 [] = Ret (success, h1, [])
    /\ islist h1 0%nat ls1 [7; 8] (Cached 1%nat)
    /\ list_add h1 (Some 0%nat) 9 [] = Ret (Some 0%nat, h2, [])
    /\ islist h2 0%nat ls2 [7; 9] c2.
Proof.
  apply (list_insert_after_loses one_node 0%nat [] 1%nat [] 7 (Cached 1%nat) 8 9);
    [apply one_node_islist | done | done].
Defined.

Lemma list_insert_emptied_loses_witness :
  exists h1 h2 h3 ls2 ls3 c3, list_remove_node one_node 0%nat (Some 1%nat) = Ret (None, h1)
    /\ list_insert h1 (Some 0%nat) 8 [] = Ret (Some 0%nat, h2, [])
    /\ islist h2 0%nat ls2 [8] (Cached 0%nat)
    /\ list_add h2 (Some 0%nat) 9 [] = Ret (Some 0%nat, h3, [])
    /\ islist h3 0%nat ls3 [9] c3.
Proof. apply (list_insert_emptied_loses one_node 0%nat 1%nat 7 8 9), one_node_islist. Defined.
