(* ===== verification/MetaListLoops.v ===== *)
(** The loops over a list, meta/src/meta_list.c, continued.

    What the traversals, searches and copies of MetaList compute on the
    sequence a list holds, and that the bubble sort sorts. *)

From Stdlib Require Import ZArith Lia.
From stdpp Require Import base list numbers gmap sets sorting.
From S2P Require Import Prelude MetaList.

#[local] Arguments load : simpl never.
#[local] Arguments store : simpl never.

Section Loops.
Context {A S : Type}.

Abbreviation heap := (gmap loc (node A)).
Implicit Types (h : heap) (xs ys zs : list A) (x : A) (ls : list loc) (c : data A) (s : S).

(** * Loops *)

(** The rule for [for_nodes]: [J] holds before each iteration, of the payloads
    still to come; the body leaves the nodes [all] of the list alone. *)
Lemma for_nodes_spec {T} (body : heap -> node A -> T -> C (bool * T * heap))
    (J : heap -> T -> list A -> oracle -> Prop) (Q : bool * T * heap -> oracle -> Prop) (all : list loc) :
  (forall h p ls x xs t o, J h t (x :: xs) o -> length ls = length xs ->
     wp (body h (mkNode (hd_or ls None) (Some p) (Item x)) t) o (fun '(go, t', h') o' =>
       (forall k, k ∈ all -> h' !! k = h !! k)
       /\ if go : bool then J h' t' xs o' else Q (false, t', h') o')) ->
  (forall h t o, J h t [] o -> Q (true, t, h) o) ->
  forall fuel h p ls xs t o,
    seg h p ls xs None -> ls ⊆ all -> (length ls <= fuel)%nat -> J h t xs o ->
    wp (for_nodes fuel h (hd_or ls None) t body) o Q.
Proof.
  intros Hbody Hend. induction fuel as [|fuel IH]; intros h p ls xs t o Hs Hall Hf HJ.
  - destruct ls as [|l ls]; [|simpl in Hf; lia]. destruct xs; [|done]. simpl. wp. by apply Hend.
  - destruct ls as [|l ls]; destruct xs as [|x xs]; try done; simpl; [wp; by apply Hend|].
    destruct Hs as [Hl Hs]. wp. eapply wpr_load; [exact Hl|]. wp.
    eapply wp_mono; [apply Hbody; [exact HJ | by eapply seg_length]|].
    intros [[go t'] h'] o' [Hsame Hgo]. destruct go; [|by wp]. wp.
    eapply wpr_load; [rewrite Hsame by set_solver; exact Hl|].
    eapply (IH h' l); [|set_solver | simpl in Hf; lia | done].
    eapply seg_frame; [|exact Hs]. intros k Hk. apply Hsame. set_solver.
Qed.

(** The loop over the payloads that stops when [f] says so. *)
Fixpoint fold_while (f : A -> S -> bool * S) (xs : list A) (s : S) : bool * S :=
  match xs with
  | [] => (true, s)
  | x :: xs => let '(go, s) := f x s in if go then fold_while f xs s else (false, s)
  end.

(** A loop whose body leaves the heap alone. *)
Lemma for_nodes_pure {T} (body : heap -> node A -> T -> C (bool * T * heap)) (step : list A -> A -> T -> bool * T) h lst ls xs c t o
    (Q : bool * T * heap -> oracle -> Prop) (fin : list A -> T -> bool * T) :
  islist h lst ls xs c ->
  (forall p ls x xs t o, length ls = length xs ->
     wp (body h (mkNode (hd_or ls None) (Some p) (Item x)) t) o (fun r o' =>
       r = (step xs x t, h) /\ o' = o)) ->
  (forall t, fin [] t = (true, t)) ->
  (forall x xs t, fin (x :: xs) t = let '(go, t) := step xs x t in if go then fin xs t else (false, t)) ->
  Q (fin xs t, h) o ->
  wp (for_nodes (pass h) h (hd_or ls None) t body) o Q.
Proof.
  intros Hl Hbody Hnil Hcons HQ. pose proof (islist_pass _ _ _ _ _ Hl).
  eapply (for_nodes_spec body (fun h' t' xs' o' => h' = h /\ o' = o /\ fin xs t = fin xs' t')
    Q ls); [| |by destruct Hl | done | lia | done].
  - intros h' p ls' x xs' t' o' (-> & -> & Hfin) Hlen.
    eapply wp_mono; [by apply Hbody|]. intros [[go t2] h2] o2 [Hr ->]. injection Hr as Hst ->.
    split; [done|]. rewrite Hcons, <-Hst in Hfin. destruct go; [done|]. by rewrite Hfin in HQ.
  - intros h' t' o' (-> & -> & Hfin). rewrite Hfin, Hnil in HQ. done.
Qed.

Lemma list_foreach_spec h lst ls xs c f s o :
  islist h lst ls xs c ->
  wp (list_foreach h lst f s) o (fun r o' => r = (fold_while f xs s, h) /\ o' = o).
Proof.
  intros Hl. unfold list_foreach. wp. eapply wpr_load; [exact (il_header _ _ _ _ _ Hl)|]. cbn [next].
  eapply (for_nodes_pure _ (fun _ x s => f x s)) with (fin := fold_while f); try done.
  intros. wp. simpl. destruct (f x t). by wp.
Qed.

Lemma list_dual_foreach_spec h lst ls xs c f s o :
  islist h lst ls xs c ->
  wp (list_dual_foreach h lst f s) o (fun r o' => r = (fold_while f xs s, h) /\ o' = o).
Proof.
  intros Hl. unfold list_dual_foreach. wp. eapply wpr_load; [exact (il_header _ _ _ _ _ Hl)|]. cbn [next].
  destruct ls as [|l ls]; cbn [hd_or].
  - wp. destruct Hl as [_ _ Hs]. by destruct xs.
  - change (Some l) with (hd_or (l :: ls) None).
    eapply (for_nodes_pure _ (fun _ x s => f x s)) with (fin := fold_while f); try done.
    intros. wp. simpl. destruct (f x t). by wp.
Qed.

(** With a separator between two payloads. *)
Fixpoint fold_sep (f : A -> S -> bool * S) (sep : S -> bool * S) (xs : list A) (s : S) : bool * S :=
  match xs with
  | [] => (true, s)
  | x :: xs =>
      let '(go, s) := f x s in
      if negb go then (false, s)
      else match xs with
           | [] => (true, s)
           | _ => let '(go, s) := sep s in if go then fold_sep f sep xs s else (false, s)
           end
  end.

Lemma list_foreach_sep_spec h lst ls xs c f sep s o :
  islist h lst ls xs c ->
  wp (list_foreach_sep h lst f sep s) o (fun r o' => r = (fold_sep f sep xs s, h) /\ o' = o).
Proof.
  intros Hl. unfold list_foreach_sep. wp. eapply wpr_load; [exact (il_header _ _ _ _ _ Hl)|]. cbn [next].
  eapply (for_nodes_pure _ (fun xs x s => let '(go, s) := f x s in
    if negb go then (false, s) else match xs with [] => (true, s) | _ => sep s end))
    with (fin := fold_sep f sep); try done.
  - intros p ls' x xs' t o' Hlen. wp. simpl. destruct (f x t) as [[] t']; simpl; [|by wp].
    destruct ls', xs'; try done. simpl. destruct (sep t'). by wp.
  - intros x xs' t. simpl. destruct (f x t) as [[] t']; simpl; [|done]. by destruct xs'.
Qed.

Lemma list_size_spec h lst ls xs c o :
  islist h lst ls xs c -> wp (list_size h lst) o (fun r o' => r = zlen xs /\ o' = o).
Proof.
  intros Hl. unfold list_size. wp. eapply wpr_load; [exact (il_header _ _ _ _ _ Hl)|]. cbn [next]. wp.
  eapply (for_nodes_pure _ (fun _ _ n => (true, n + 1))) with (fin := fun xs n => (true, n + zlen xs)).
  - exact Hl.
  - intros. by wp.
  - intros. by rewrite zlen_nil, Z.add_0_r.
  - intros. by rewrite zlen_cons, Z.add_assoc.
  - by wp.
Qed.

Lemma list_count_spec h lst ls xs c include o :
  islist h lst ls xs c ->
  wp (list_count h lst include) o (fun r o' =>
    r = zlen (filter (fun x => match include with None => true | Some f => f x end = true) xs) /\ o' = o).
Proof.
  intros Hl. unfold list_count. wp. eapply wpr_load; [exact (il_header _ _ _ _ _ Hl)|]. cbn [next]. wp.
  set (P := fun x => match include with None => true | Some f => f x end = true).
  eapply (for_nodes_pure _ (fun _ x n => (true, if match include with None => true | Some f => f x end then n + 1 else n)))
    with (fin := fun xs n => (true, n + zlen (filter P xs))).
  - exact Hl.
  - intros. destruct include; wp; [|done]. simpl. by wp.
  - intros. by rewrite filter_nil, zlen_nil, Z.add_0_r.
  - intros x xs' t. rewrite filter_cons. case_decide as HP; unfold P in HP.
    + by rewrite HP, zlen_cons, Z.add_assoc.
    + apply not_true_is_false in HP. by rewrite HP.
  - by wp.
Qed.

Lemma list_find_spec h lst ls xs c found :
  islist h lst ls xs c ->
  wpr (list_find h lst found) (fun r =>
    match r with
    | Some l => exists ls1 ls2 xs1 x xs2, ls = ls1 ++ l :: ls2 /\ xs = xs1 ++ x :: xs2
        /\ length ls1 = length xs1 /\ found x = true /\ Forall (fun y => found y = false) xs1
    | None => Forall (fun y => found y = false) xs
    end).
Proof.
  intros Hl. unfold list_find. wp. eapply wpr_load; [exact (il_header _ _ _ _ _ Hl)|]. cbn [next].
  pose proof (islist_pass _ _ _ _ _ Hl) as Hf. destruct Hl as [_ _ Hs].
  generalize dependent lst. generalize dependent xs. revert Hf. generalize (pass h) as fuel.
  intros fuel. revert ls. induction fuel as [|fuel IH]; intros ls Hf xs lst Hs; [lia|].
  destruct ls as [|l ls], xs as [|x xs]; try done; [simpl; constructor|].
  destruct Hs as [Hl Hs]. cbn [hd_or].
  wp. eapply wpr_load; [exact Hl|]. wp. simpl. destruct (found x) eqn:Hx.
  - exists [], ls, [], x, xs. by split_and!.
  - eapply wpr_mono; [eapply (IH ls); [simpl in Hf; lia | exact Hs]|].
    intros [k|]; [|by constructor].
    intros (ls1 & ls2 & xs1 & y & xs2 & -> & -> & ? & ? & ?).
    exists (l :: ls1), ls2, (x :: xs1), y, xs2. split_and!; simpl; auto.
Qed.

Lemma list_get_item_spec h lst ls xs c i x o :
  islist h lst ls xs c -> xs !! i = Some x ->
  wp (list_get_item h lst i) o (fun r o' => r = Some x /\ o' = o).
Proof.
  intros Hl Hi. unfold list_get_item. wp. eapply wp_mono; [by eapply list_size_spec|].
  intros n o' [-> ->]. wp.
  { apply wpr_guard; [apply lookup_lt_Some in Hi; apply Z.ltb_lt; unfold zlen; lia|].
    wp. eapply wpr_load; [exact (il_header _ _ _ _ _ Hl)|]. cbn [next]. wp.
    eapply (for_nodes_pure _ (fun _ x '(i, r) => match i with O => (false, (O, Some x)) | Datatypes.S i => (true, (i, r)) end))
      with (fin := fix fin xs t := match xs with [] => (true, t) | x :: xs =>
        let '(i, r) := t in match i with O => (false, (O, Some x)) | Datatypes.S i => fin xs (i, r) end end).
    - exact Hl.
    - intros p ls' y xs' [[|j] r] o' _; by wp.
    - done.
    - intros y xs' [[|j] r]; done.
    - clear Hl. assert (Hfin : forall r, ((fix fin (xs : list A) (t : nat * option A) := match xs with
        | [] => (true, t)
        | x :: xs => let '(i, r) := t in match i with O => (false, (O, Some x)) | Datatypes.S i => fin xs (i, r) end
        end) xs (i, r)).2.2 = Some x); [|specialize (Hfin None); case_match; wp; by subst].
      revert i Hi. induction xs as [|y xs IH]; intros [|i] Hi r; simplify_eq/=; auto. }
Qed.

(** Backwards from the cached end. *)
Lemma reversed_loop_spec fuel h lst ls xs e f s :
  NoDup (lst :: ls) -> seg h lst ls xs e -> (length ls <= fuel)%nat ->
  wpr (reversed_loop fuel h lst (Some (end_of lst ls)) f s)
    (fun r => r = fold_while f (rev xs) s).
Proof.
  revert fuel xs e s. induction ls as [|l ls IH] using rev_ind; intros fuel xs e s Hnd Hs Hf.
  - destruct xs; [|done]. destruct fuel; simpl; by rewrite decide_True.
  - apply seg_app in Hs as (xs1 & [|x [|? ?]] & -> & Hs1 & Hs2); [done| |by destruct Hs2].
    destruct Hs2 as [Hl _]. rewrite end_of_snoc, rev_app_distr.
    rewrite length_app in Hf. simpl in Hf. destruct fuel as [|fuel]; [lia|]. cbn [reversed_loop].
    assert (l <> lst /\ NoDup (lst :: ls)) as [? ?].
    { apply NoDup_cons in Hnd as [Hn (? & _ & _)%NoDup_app].
      split; [set_solver | apply NoDup_cons; split; [set_solver | done]]. }
    rewrite decide_False by congruence. wp. eapply wpr_load; [exact Hl|]. wp. simpl.
    destruct (f x s) as [[] s']; [|done].
    eapply IH; [done | exact Hs1 | lia].
Qed.

Lemma list_foreach_reversed_spec h lst ls xs c f s :
  islist h lst ls xs c -> cache_ok lst ls c ->
  wpr (list_foreach_reversed h lst f s) (fun r => r = fold_while f (rev xs) s).
Proof.
  intros Hl Hc. pose proof (islist_pass _ _ _ _ _ Hl). pose proof Hl as [Hnd Hh Hs].
  unfold list_foreach_reversed. wp. eapply wpr_load; [exact Hh|]. wp. cbn [ndata].
  assert (c = Null /\ ls = [] \/ c = Cached (end_of lst ls)) as [[-> ->]| ->]
    by (destruct ls; [destruct Hc as [->| ->]; auto | by right]).
  - simpl. by destruct xs.
  - cbn [cached wpr]. eapply reversed_loop_spec; [done | done | lia].
Qed.

(** ** Lists made from lists *)

(** A list [src] and one [d] that grew out of the heap [h0] beside it, of which
    the nodes that existed are untouched. *)
Record beside (h0 h : heap) (src : loc) (ls : list loc) (xs : list A) (c : data A)
    (d : loc) (lsd : list loc) (ys : list A) : Prop := mkBeside {
  be_src : islist h src ls xs c;
  be_dest : exists cd, islist h d lsd ys cd /\ cache_ok d lsd cd;
  be_apart : forall k, k ∈ src :: ls -> k ∉ d :: lsd;
  be_frame : forall k, is_Some (h0 !! k) -> h !! k = h0 !! k;
  be_fresh : forall k, k ∈ d :: lsd -> h0 !! k = None
}.

Lemma islist_frame h h' lst ls xs c :
  islist h lst ls xs c -> (forall k, k ∈ lst :: ls -> h' !! k = h !! k) -> islist h' lst ls xs c.
Proof.
  intros [Hnd Hh Hs] Hf. constructor; [done | rewrite Hf; [done | set_solver]|].
  eapply seg_frame; [|done]. intros k Hk. apply Hf. set_solver.
Qed.

(** One more payload in [d]. *)
Lemma beside_add h0 h src ls xs c d lsd ys y o :
  beside h0 h src ls xs c d lsd ys ->
  wp (list_add h (Some d) y) o (fun '(r, h') o' =>
    (r = Some d /\ (exists n, beside h0 h' src ls xs c d (lsd ++ [n]) (ys ++ [y])) /\ (o = [] -> o' = [])
     /\ forall k, k ∈ ls -> h' !! k = h !! k)
    \/ (r = None /\ h' = h /\ o <> [])).
Proof.
  intros [Hs (cd & Hd & Hc) Ha Hf Hfr]. eapply wp_mono; [by eapply list_add_spec|].
  intros [r h'] o' [(-> & (n & Hn & Hl & Honly) & Ho) | ?]; [left | by right].
  assert (Hsame : forall k, k ∈ src :: ls -> h' !! k = h !! k).
  { intros k Hk. apply Honly. specialize (Ha k Hk).
    destruct (islist_in _ _ _ _ _ _ Hs Hk) as [nd Hnd]. assert (k <> n) by congruence. set_solver. }
  assert (Hn0 : h0 !! n = None).
  { destruct (h0 !! n) as [nd|] eqn:E; [|done]. rewrite Hf in Hn by eauto. congruence. }
  split; [done|]. split; [|split; [done | intros; apply Hsame; set_solver]]. exists n. constructor.
  - by eapply islist_frame.
  - exists (Cached n). split; [done|]. unfold cache_ok. destruct (lsd ++ [n]) eqn:E; [by destruct lsd|].
    by rewrite <-E, end_of_snoc.
  - intros k Hk. specialize (Ha k Hk). destruct (islist_in _ _ _ _ _ _ Hs Hk) as [nd Hnd].
    assert (k <> n) by congruence. set_solver.
  - intros k Hk. rewrite <-Hf by done. apply Honly. intros Hin. destruct Hk as [nd Hk].
    apply elem_of_cons in Hin as [->|[->|Hin]%elem_of_cons]; [| congruence |].
    + rewrite Hfr in Hk by set_solver. done.
    + rewrite Hfr in Hk by set_solver. done.
  - intros k Hk. assert (k = n \/ k ∈ d :: lsd) as [->|?] by set_solver; [done | by apply Hfr].
Qed.

Lemma add_each_spec h0 h src ls xs c d pick o :
  beside h0 h src ls xs c d [] [] ->
  wp (add_each h src d pick) o (fun '(ok, _, h') o' =>
    exists lsd zs, beside h0 h' src ls xs c d lsd zs
      /\ (ok = true -> zs = omap pick xs) /\ (o = [] -> ok = true /\ o' = [])).
Proof.
  intros Hb. pose proof (be_src _ _ _ _ _ _ _ _ _ Hb) as Hl. unfold add_each. wp.
  eapply wpr_load; [exact (il_header _ _ _ _ _ Hl)|]. cbn [next].
  pose proof (islist_pass _ _ _ _ _ Hl) as Hpass.
  eapply (for_nodes_spec _ (fun h' _ xs' o' => exists don lsd, xs = don ++ xs'
      /\ beside h0 h' src ls xs c d lsd (omap pick don) /\ (o = [] -> o' = [])) _ ls);
    [| |by destruct Hl | done | lia | by exists [], []].
  - intros h' p ls' x xs' [] o' (don & lsd & Hxs & Hbe & Ho) _. wp. simpl.
    assert (Hxs' : xs = (don ++ [x]) ++ xs') by (by rewrite <-app_assoc).
    assert (Hom : omap pick (don ++ [x]) = omap pick don ++ (match pick x with Some y => [y] | None => [] end)).
    { rewrite omap_app. simpl. by destruct (pick x). }
    destruct (pick x) as [y|] eqn:Hp.
    + wp. eapply wp_mono; [by eapply beside_add|].
      intros [r h2] o2 [(-> & [n Hbe'] & Ho2 & Hsame) | (-> & -> & Hne)]; wp.
      * split; [done|]. exists (don ++ [x]), (lsd ++ [n]). rewrite Hom. split_and!; [done | done | auto].
      * split; [done|]. exists lsd, (omap pick don). split; [done|]. split; [done|].
        intros Hoo. by rewrite Ho in Hne.
    + wp. split; [done|]. exists (don ++ [x]), lsd. rewrite Hom, app_nil_r. split_and!; done.
  - intros h' [] o' (don & lsd & Hxs & Hbe & Ho). rewrite app_nil_r in Hxs. subst don.
    exists lsd, (omap pick xs). split_and!; auto.
Qed.

(** ** Freeing *)

Definition freed (ls : list loc) (h h' : heap) : Prop :=
  (forall k, k ∈ ls -> h' !! k = None) /\ only ls h h'.

Lemma sublist_free_loop_spec fuel h p ls xs :
  seg h p ls xs None -> NoDup ls -> (length ls <= fuel)%nat ->
  wpr (sublist_free_loop fuel h (hd_or ls None)) (freed ls h).
Proof.
  revert fuel h p xs. induction ls as [|l ls IH]; intros fuel h p xs Hs Hnd Hf.
  - destruct fuel; simpl; split; try done; set_solver.
  - destruct xs as [|x xs]; [done|]. destruct Hs as [Hl Hs].
    apply NoDup_cons in Hnd as [Hnl Hnd]. simpl in Hf. destruct fuel as [|fuel]; [lia|]. simpl. wp.
    eapply wpr_load; [exact Hl|]. cbn [next]. unfold free_node.
    eapply wpr_mono; [eapply (IH fuel (delete l h) l xs); [|done|lia]|].
    + eapply seg_frame; [|exact Hs]. intros k Hk. rewrite lookup_delete_ne; [done | set_solver].
    + intros h' [Hd Ho]. split.
      * intros k Hk. apply elem_of_cons in Hk as [->|Hk]; [|by apply Hd].
        rewrite Ho by done. apply lookup_delete_eq.
      * intros k Hk. rewrite Ho by set_solver. rewrite lookup_delete_ne; [done | set_solver].
Qed.

Lemma sublist_free_spec h lst ls xs c o :
  islist h lst ls xs c ->
  wp (sublist_free h (Some lst)) o (fun h' o' => freed (lst :: ls) h h' /\ o' = o).
Proof.
  intros Hl. pose proof (islist_pass _ _ _ _ _ Hl) as Hp. pose proof Hl as [Hnd Hh Hs].
  apply NoDup_cons in Hnd as [Hn Hnd]. unfold sublist_free. wp. unfold pass in *. simpl. wp.
  eapply wpr_load; [exact Hh|]. cbn [next]. unfold free_node.
  eapply wpr_mono; [eapply (sublist_free_loop_spec _ (delete lst h) lst ls xs); [|done|lia]|].
  - eapply seg_frame; [|exact Hs]. intros k Hk. rewrite lookup_delete_ne; [done | set_solver].
  - intros h' [Hd Ho]. split; [|done]. split.
    + intros k Hk. apply elem_of_cons in Hk as [->|Hk]; [|by apply Hd].
      rewrite Ho by done. apply lookup_delete_eq.
    + intros k Hk. rewrite Ho by set_solver. rewrite lookup_delete_ne; [done | set_solver].
Qed.

(** [list_free] calls the destructor on every payload, in order, and frees every
    node. *)
Lemma list_free_spec h lst ls xs c (dtor : A -> S -> S) s o :
  islist h lst ls xs c ->
  wp (list_free h (Some lst) (Some dtor) s) o (fun '(s', h') o' =>
    s' = fold_left (fun s x => dtor x s) xs s /\ freed (lst :: ls) h h' /\ o' = o).
Proof.
  intros Hl. unfold list_free. wp. eapply wpr_load; [exact (il_header _ _ _ _ _ Hl)|]. cbn [next]. wp.
  eapply (for_nodes_pure _ (fun _ x s => (true, dtor x s)))
    with (fin := fun xs s => (true, fold_left (fun s x => dtor x s) xs s)).
  - exact Hl.
  - intros. wp. simpl. by wp.
  - done.
  - done.
  - wp. eapply wp_mono; [by eapply sublist_free_spec|]. intros h' o' [Hf ->]. by wp.
Qed.

(** ** Sublists *)

Lemma sublist_of_spec h src ls xs c pick o :
  islist h src ls xs c ->
  wp (sublist_of h src pick) o (fun '(r, h') o' =>
    match r with
    | Some d => (exists lsd, beside h h' src ls xs c d lsd (omap pick xs)) /\ (o = [] -> o' = [])
    | None => islist h' src ls xs c /\ (forall k, is_Some (h !! k) -> h' !! k = h !! k) /\ o <> []
    end).
Proof.
  intros Hl. unfold sublist_of. wp. apply list_new_spec.
  2: { intros o' Ho. by wp. }
  intros d h1 o1 Hd Hdl Honly Ho1. wp.
  assert (Hframe : forall k, is_Some (h !! k) -> h1 !! k = h !! k).
  { intros k [nd Hk]. apply Honly. intros ->%list_elem_of_singleton. congruence. }
  assert (Hb : beside h h1 src ls xs c d [] []).
  { constructor.
    - eapply islist_frame; [done|]. intros k Hk. apply Hframe. by eapply islist_in.
    - exists Null. split; [done | by left].
    - intros k Hk ->%list_elem_of_singleton. destruct (islist_in _ _ _ _ _ _ Hl Hk). congruence.
    - done.
    - by intros k ->%list_elem_of_singleton. }
  eapply wp_mono; [by eapply add_each_spec|]. intros [[ok []] h2] o2 (lsd & zs & Hbe & Hok & Ho2).
  destruct ok; wp.
  - rewrite <-Hok by done. split; [eauto|]. intros Hoo. destruct Ho2; auto.
  - destruct Hbe as [Hs (cd & Hdd & _) Ha Hf Hfr].
    eapply wp_mono; [by eapply sublist_free_spec|]. intros h3 o3 [[Hgone Hrest] ->]. wp. split_and!.
    + eapply islist_frame; [done|]. intros k Hk. apply Hrest. by apply Ha.
    + intros k Hk. rewrite Hrest, Hf; [done | done|]. intros Hin. destruct Hk as [nd Hk].
      rewrite Hfr in Hk by done. done.
    + intros Hoo. destruct Ho2; auto; done.
Qed.

(** [list_merge] moves the payloads of [src] behind those of [d] and frees
    [src]; when memory runs out both lists still stand. *)
Lemma list_merge_spec h src ls xs c d lsd ys cd o :
  islist h src ls xs c -> islist h d lsd ys cd -> cache_ok d lsd cd ->
  (forall k, k ∈ src :: ls -> k ∉ d :: lsd) ->
  wp (list_merge h (Some d) src) o (fun '(r, h') o' =>
    match r with
    | Some d' => d' = d /\ (exists lsd' cd', islist h' d lsd' (ys ++ xs) cd' /\ cache_ok d lsd' cd')
                 /\ (forall k, k ∈ src :: ls -> h' !! k = None) /\ (o = [] -> o' = [])
    | None => islist h' src ls xs c /\ o <> []
    end).
Proof.
  intros Hl Hd Hc Hap. unfold list_merge, list_first.
  apply wp_bind, wp_lift, wpr_bind, wpr_guard; [done|]. apply wpr_bind.
  eapply wpr_load; [exact (il_header _ _ _ _ _ Hl)|]. cbn [next wpr]. apply wp_bind.
  pose proof (islist_pass _ _ _ _ _ Hl) as Hpass.
  eapply (for_nodes_spec (T := option loc) _ (fun h' t xs' o' => exists don lsd' cd', t = Some d /\ xs = don ++ xs'
      /\ islist h' src ls xs c /\ islist h' d lsd' (ys ++ don) cd' /\ cache_ok d lsd' cd'
      /\ (forall k, k ∈ src :: ls -> k ∉ d :: lsd') /\ (o = [] -> o' = [])) _ ls);
    [| |by destruct Hl | done | lia |].
  - intros h' p ls' x xs' t o' (don & lsd' & cd' & -> & Hxs & Hs & Hdd & Hcc & Ha & Ho) _. wp. simpl. wp.
    eapply wp_mono; [by eapply list_add_spec|].
    intros [r h2] o2 [(-> & (n & Hn & Hl2 & Honly) & Ho2) | (-> & -> & Hne)]; wp.
    + assert (Hsame : forall k, k ∈ src :: ls -> k <> n /\ h2 !! k = h' !! k).
      { intros k Hk. specialize (Ha k Hk). destruct (islist_in _ _ _ _ _ _ Hs Hk) as [nd Hnd].
        assert (k <> n) by congruence. split; [done|]. apply Honly. set_solver. }
      split; [intros; apply Hsame; set_solver|].
      exists (don ++ [x]), (lsd' ++ [n]), (Cached n). split_and!.
      * done.
      * by rewrite <-app_assoc.
      * eapply islist_frame; [done|]. intros. by apply Hsame.
      * by rewrite app_assoc.
      * unfold cache_ok. destruct (lsd' ++ [n]) eqn:E; [by destruct lsd'|]. by rewrite <-E, end_of_snoc.
      * intros k Hk. destruct (Hsame k Hk). specialize (Ha k Hk). set_solver.
      * auto.
    + split; [done|]. simpl. wp. split; [done|]. intros Hoo. by rewrite Ho in Hne.
  - intros h' t o' (don & lsd' & cd' & -> & Hxs & Hs & Hdd & Hcc & Ha & Ho). rewrite app_nil_r in Hxs. subst don.
    wp. eapply wp_mono; [by eapply sublist_free_spec|]. intros h3 o3 [[Hgone Hrest] ->]. wp. split_and!; try done.
    exists lsd', cd'. split; [|done]. eapply islist_frame; [done|]. intros k Hk. apply Hrest. set_solver.
  - exists [], lsd, cd. rewrite app_nil_r. split_and!; done.
Qed.

(** ** Sorting *)

Context (func : A -> A -> Z).

(** One pass on a sequence, [x] the payload in hand. *)
Fixpoint bubble (x : A) (xs : list A) (sorted : bool) : bool * list A :=
  match xs with
  | [] => (sorted, [x])
  | y :: ys =>
      if 0 <? func x y then let '(b, r) := bubble x ys false in (b, y :: r)
      else let '(b, r) := bubble y ys sorted in (b, x :: r)
  end.

Lemma sort_pass_spec fuel h p l ls x xs b :
  seg h p (l :: ls) (x :: xs) None -> NoDup (l :: ls) -> (length ls < fuel)%nat ->
  wpr (sort_pass fuel h (Some l) func b) (fun '(b', h') =>
    b' = (bubble x xs b).1 /\ seg h' p (l :: ls) (bubble x xs b).2 None /\ only (l :: ls) h h').
Proof.
  revert h p l ls x xs b. induction fuel as [|fuel IH]; intros h p l ls x xs b Hs Hnd Hf; [lia|].
  destruct Hs as [Hl Hs]. cbn [sort_pass]. wp. eapply wpr_load; [exact Hl|]. wp. simpl.
  destruct ls as [|l2 ls], xs as [|y xs]; try done. simpl in Hf.
  apply NoDup_cons in Hnd as [Hnl Hnd]. assert (l <> l2) by set_solver.
  destruct Hs as [Hl2 Hs]. simpl. wp. eapply wpr_load; [exact Hl2|]. wp. simpl.
  zcase; simpl.
  - wp. apply wpr_store; [by eauto|]. wp. apply wpr_store; [rewrite lookup_alter_ne by done; by eauto|].
    eapply wpr_mono; [eapply (IH _ l l2 ls x xs); [|done|lia]|].
    + simpl. split.
      * rewrite lookup_alter_ne by done. by rewrite lookup_alter_eq, Hl2.
      * eapply seg_frame; [|exact Hs]. intros k Hk. apply NoDup_cons in Hnd as [? _].
        rewrite !lookup_alter_ne; [done | set_solver | set_solver].
    + intros [b' h'] (-> & Hs' & Ho). destruct (bubble x xs false) as [b2 r]. simpl in *.
      split; [done|]. split; [split; [|done]|].
      * rewrite Ho by done. by rewrite lookup_alter_eq, lookup_alter_ne, Hl.
      * intros k Hk. rewrite Ho by set_solver. rewrite !lookup_alter_ne; [done | set_solver | set_solver].
  - eapply wpr_mono; [eapply (IH h l l2 ls y xs); [by split|done|lia]|].
    intros [b' h'] (-> & Hs' & Ho). destruct (bubble y xs b) as [b2 r]. simpl in *.
    split; [done|]. split; [split; [|done]|].
    + by rewrite Ho, Hl.
    + intros k Hk. apply Ho. set_solver.
Qed.

Definition pass_list (xs : list A) : bool * list A :=
  match xs with [] => (true, []) | x :: xs => bubble x xs true end.

Lemma bubble_perm x xs b : (bubble x xs b).2 ≡ₚ x :: xs.
Proof.
  revert x b. induction xs as [|y ys IH]; intros x b; simpl; [done|]. zcase.
  - specialize (IH x false). destruct (bubble x ys false) as [b' r]. simpl in *. rewrite IH. apply Permutation_swap.
  - specialize (IH y b). destruct (bubble y ys b) as [b' r]. simpl in *. by rewrite IH.
Qed.

Definition le_by (x y : A) : Prop := func x y <= 0.

(** No exchange happened: the sequence was sorted, and is unchanged. *)
Lemma bubble_false x xs : (bubble x xs false).1 = false.
Proof.
  revert x. induction xs as [|y ys IH]; intros x; simpl; [done|].
  zcase; [specialize (IH x); by destruct (bubble x ys false) | specialize (IH y); by destruct (bubble y ys false)].
Qed.

Lemma bubble_done x xs r : bubble x xs true = (true, r) -> r = x :: xs /\ Sorted le_by (x :: xs).
Proof.
  revert x r. induction xs as [|y ys IH]; intros x r; simpl; [intros [= <-]; split; [done | repeat constructor]|].
  zcase.
  - pose proof (bubble_false x ys). destruct (bubble x ys false). simpl in *. by intros [= -> _].
  - destruct (bubble y ys true) as [b r'] eqn:E. intros [= -> <-].
    apply IH in E as [-> HS]. split; [done|]. constructor; [done|]. by constructor.
Qed.

Lemma bubble_sorted x xs b : Sorted le_by (x :: xs) -> bubble x xs b = (b, x :: xs).
Proof.
  revert x. induction xs as [|y ys IH]; intros x HS; simpl; [done|].
  apply Sorted_inv in HS as [HS Hx]. apply HdRel_inv in Hx. unfold le_by in Hx.
  zcase; [lia|]. by rewrite IH.
Qed.

(** What [func] has to be: a total preorder. *)
Hypothesis func_total : forall x y, 0 < func x y -> func y x <= 0.
Hypothesis func_trans : forall x y z, func x y <= 0 -> func y z <= 0 -> func x z <= 0.

Lemma le_by_refl x : le_by x x.
Proof. unfold le_by. destruct (Z.lt_ge_cases 0 (func x x)) as [H|H]; [|lia]. by apply func_total. Qed.

(** A pass carries the greatest payload of a prefix to its end. *)
Lemma bubble_app x a b f :
  exists a' m f1, bubble x a f = (f1, a' ++ [m])
    /\ bubble x (a ++ b) f = ((bubble m b f1).1, a' ++ (bubble m b f1).2)
    /\ Forall (fun y => le_by y m) a' /\ le_by x m.
Proof.
  revert x f. induction a as [|y a IH]; intros x f.
  - exists [], x, f. simpl. destruct (bubble x b f). split_and!; [done | done | constructor | apply le_by_refl].
  - simpl. zcase.
    + destruct (IH x false) as (a' & m & f1 & -> & -> & Hall & Hx).
      exists (y :: a'), m, f1. split_and!; try done. constructor; [|done].
      unfold le_by in *. eapply func_trans; [by apply func_total | done].
    + destruct (IH y f) as (a' & m & f1 & -> & -> & Hall & Hy).
      assert (le_by x m) by (unfold le_by in *; by eapply func_trans).
      exists (x :: a'), m, f1. split_and!; try done. by constructor.
Qed.

(** After some passes: [b] is sorted and in its place. *)
Definition settled (xs a b : list A) : Prop :=
  xs = a ++ b /\ Sorted le_by b /\ (forall u v, u ∈ a -> v ∈ b -> le_by u v).

Lemma pass_settles xs x a b :
  settled xs (x :: a) b ->
  exists a' m, settled (pass_list xs).2 a' (m :: b) /\ length a' = length a.
Proof.
  intros (-> & HS & Hab). simpl.
  destruct (bubble_app x a b true) as (a' & m & f1 & Ha & Hall & Hle & _). rewrite Hall.
  pose proof (bubble_perm x a true) as Hp. rewrite Ha in Hp. simpl in Hp.
  assert (HSm : Sorted le_by (m :: b)).
  { constructor; [done|]. destruct b as [|v b]; constructor. apply Hab; [|set_solver].
    rewrite <-Hp. set_solver. }
  rewrite bubble_sorted by done. simpl. exists a', m. split.
  - split; [done|]. split; [done|]. intros u v Hu Hv.
    apply elem_of_cons in Hv as [->|Hv].
    + rewrite Forall_forall in Hle. by apply Hle.
    + apply Hab; [|done]. rewrite <-Hp. set_solver.
  - apply Permutation_length in Hp. rewrite length_app in Hp. simpl in Hp. lia.
Qed.

Lemma pass_list_perm xs : (pass_list xs).2 ≡ₚ xs.
Proof. destruct xs; [done|]. apply bubble_perm. Qed.

Lemma pass_list_done xs : (pass_list xs).1 = true -> (pass_list xs).2 = xs /\ Sorted le_by xs.
Proof.
  destruct xs as [|x xs]; simpl; [split; [done | constructor]|].
  destruct (bubble x xs true) as [b r] eqn:E. simpl. intros ->. by apply bubble_done.
Qed.

Lemma settled_done xs b : settled xs [] b -> (pass_list xs).1 = true.
Proof.
  intros (-> & HS & _). simpl. destruct b as [|v b]; [done|]. simpl. by rewrite bubble_sorted.
Qed.

Lemma islist_data h h' lst ls xs ys c :
  islist h lst ls xs c -> seg h' lst ls ys None -> only ls h h' -> islist h' lst ls ys c.
Proof.
  intros [Hnd Hh _] Hs Ho. constructor; [done | | done]. rewrite Ho; [done|].
  by apply NoDup_cons in Hnd as [? _].
Qed.

(** One pass over the list of a heap. *)
Lemma list_pass_spec h lst ls xs c :
  islist h lst ls xs c ->
  wpr (sort_pass (pass h) h (hd_or ls None) func true) (fun '(b, h') =>
    b = (pass_list xs).1 /\ islist h' lst ls (pass_list xs).2 c /\ only (lst :: ls) h h').
Proof.
  intros Hl. pose proof (islist_pass _ _ _ _ _ Hl) as Hp. pose proof Hl as [Hnd _ Hs].
  destruct ls as [|l ls], xs as [|x xs]; try done.
  simpl in Hp. apply NoDup_cons in Hnd as [_ Hnd].
  eapply wpr_mono; [eapply sort_pass_spec; [exact Hs | done | lia]|].
  intros [b h'] (-> & Hs' & Ho). split; [done|]. split; [by eapply islist_data|].
  intros k Hk. apply Ho. set_solver.
Qed.

(** The sort returns after at most one pass more than there are payloads, with
    the same payloads in order. *)
Lemma sort_loop_spec fuel h lst ls xs c a b :
  islist h lst ls xs c -> settled xs a b -> (length a < fuel)%nat ->
  wpr (sort_loop fuel h lst func) (fun h' => exists ys,
    islist h' lst ls ys c /\ ys ≡ₚ xs /\ Sorted le_by ys /\ only (lst :: ls) h h').
Proof.
  revert h xs a b. induction fuel as [|fuel IH]; intros h xs a b Hl Hset Hf; [lia|].
  cbn [sort_loop]. apply wpr_bind. eapply wpr_load; [exact (il_header _ _ _ _ _ Hl)|]. cbn [next].
  apply wpr_bind. eapply wpr_mono; [by eapply list_pass_spec|].
  intros [fin h'] (-> & Hl' & Ho). destruct (pass_list xs).1 eqn:Hfin.
  - destruct (pass_list_done xs Hfin) as [Heq HS]. rewrite Heq in Hl'. simpl. eauto.
  - destruct a as [|x a]; [by rewrite (settled_done xs b) in Hfin|].
    destruct (pass_settles _ _ _ _ Hset) as (a' & m & Hset' & Hlen). simpl in Hf.
    eapply wpr_mono; [eapply IH; [exact Hl' | exact Hset' | lia]|].
    intros h2 (ys & Hl2 & Hp & HS & Ho2). exists ys. split_and!; try done.
    + by rewrite Hp, pass_list_perm.
    + intros k Hk. by rewrite Ho2, Ho.
Qed.

Lemma list_sort_spec h lst ls xs c :
  islist h lst ls xs c ->
  wpr (list_sort h lst func) (fun h' => exists ys,
    islist h' lst ls ys c /\ ys ≡ₚ xs /\ Sorted le_by ys /\ only (lst :: ls) h h').
Proof.
  intros Hl. pose proof (islist_pass _ _ _ _ _ Hl) as Hp.
  unfold list_sort. eapply (sort_loop_spec _ h lst ls xs c xs []); [done | |].
  - split; [by rewrite app_nil_r|]. split; [constructor|]. intros u v _ Hv. by apply elem_of_nil in Hv.
  - assert (length ls = length xs) by (eapply seg_length; by destruct Hl). lia.
Qed.

(** * Theorems *)

(** C32. [list_sort] returns, for a comparison that is a total preorder, with the
    same nodes holding the same payloads in ascending order; the rest of the
    heap is untouched. *)
Theorem list_sort_sorts h lst ls xs c :
  islist h lst ls xs c ->
  exists h' ys, list_sort h lst func = Ret h' /\ islist h' lst ls ys c /\ ys ≡ₚ xs
    /\ Sorted (fun x y => func x y <= 0) ys /\ only (lst :: ls) h h'.
Proof.
  intros Hl. destruct (wpr_eq _ _ (list_sort_spec h lst ls xs c Hl)) as (h' & -> & ys & ?). eauto.
Qed.

End Loops.

Section Traversals.
Context {A S : Type}.
Implicit Types (h : gmap loc (node A)) (xs : list A) (ls : list loc) (c : data A) (s : S).

(** The images of the payloads that have one. *)
Lemma omap_step (f : A -> option A) x xs :
  omap f (x :: xs) = match f x with Some y => y :: omap f xs | None => omap f xs end.
Proof. done. Qed.

Lemma omap_if (p : A -> bool) xs :
  omap (fun x => if p x then Some x else None) xs = filter (fun x => p x = true) xs.
Proof.
  induction xs as [|x xs IH]; [done|]. rewrite omap_step, filter_cons, IH.
  case_decide as E; [by rewrite E|]. apply not_true_is_false in E. by rewrite E.
Qed.

Lemma omap_all (f : A -> A) xs : omap (fun x => Some (f x)) xs = f <$> xs.
Proof. induction xs as [|x xs IH]; [done|]. by rewrite omap_step, IH. Qed.

(** The traversals of a list that holds [xs] compute, without changing the
    heap, what their name says of the sequence: [list_foreach] calls the
    function on the payloads in order until it returns false,
    [list_foreach_sep] calls the separator between two of them,
    [list_foreach_reversed] goes backwards, [list_size] and [list_count] count,
    [list_find] gives the first payload found, [list_get_item] the one at an
    index. *)
Theorem list_traversals h lst ls xs c o :
  islist h lst ls xs c -> cache_ok lst ls c ->
  (forall f s, list_foreach h lst f s o = Ret (fold_while f xs s, h, o))
  /\ (forall f sep s, list_foreach_sep h lst f sep s o = Ret (fold_sep f sep xs s, h, o))
  /\ (forall f s, list_foreach_reversed h lst f s = Ret (fold_while f (rev xs) s))
  /\ list_size h lst o = Ret (zlen xs, o)
  /\ (forall p, list_count h lst (Some p) o = Ret (zlen (filter (fun x => p x = true) xs), o))
  /\ (forall i x, xs !! i = Some x -> list_get_item h lst i o = Ret (Some x, o))
  /\ (forall found, (list_find h lst found = Ret None /\ Forall (fun y => found y = false) xs)
       \/ (exists ls1 l ls2 xs1 x xs2, list_find h lst found = Ret (Some l) /\ ls = ls1 ++ l :: ls2
            /\ xs = xs1 ++ x :: xs2 /\ length ls1 = length xs1 /\ found x = true
            /\ Forall (fun y => found y = false) xs1)).
Proof.
  intros Hl Hc. split_and!.
  - intros f s. destruct (wp_eq _ _ _ (list_foreach_spec h lst ls xs c f s o Hl)) as (? & ? & -> & -> & ->). done.
  - intros f sep s. destruct (wp_eq _ _ _ (list_foreach_sep_spec h lst ls xs c f sep s o Hl)) as (? & ? & -> & -> & ->). done.
  - intros f s. destruct (wpr_eq _ _ (list_foreach_reversed_spec h lst ls xs c f s Hl Hc)) as (? & -> & ->). done.
  - destruct (wp_eq _ _ _ (list_size_spec h lst ls xs c o Hl)) as (? & ? & -> & -> & ->). done.
  - intros p. destruct (wp_eq _ _ _ (list_count_spec h lst ls xs c (Some p) o Hl)) as (? & ? & -> & -> & ->). done.
  - intros i x Hi. destruct (wp_eq _ _ _ (list_get_item_spec h lst ls xs c i x o Hl Hi)) as (? & ? & -> & -> & ->). done.
  - intros found. destruct (wpr_eq _ _ (list_find_spec h lst ls xs c found Hl)) as ([l|] & -> & H).
    + right. destruct H as (ls1 & ls2 & xs1 & x & xs2 & H). exists ls1, l, ls2, xs1, x, xs2. naive_solver.
    + by left.
Qed.

(** The functions that make a list from a list, with memory to spare:
    [sublist_create] and [sublist_create_neg] take the payloads with and without
    the property, [sublist_copy] all of them, [sublist_adaptor] their images,
    all into fresh nodes beside the source; [list_merge] moves the payloads of
    one list behind those of another and frees the first. *)
Theorem list_constructors h src ls xs c :
  islist h src ls xs c ->
  (forall p, exists d h' lsd, sublist_create h src p [] = Ret (Some d, h', [])
     /\ beside h h' src ls xs c d lsd (filter (fun x => p x = true) xs))
  /\ (forall p, exists d h' lsd, sublist_create_neg h src p [] = Ret (Some d, h', [])
     /\ beside h h' src ls xs c d lsd (filter (fun x => p x = false) xs))
  /\ (exists d h' lsd, sublist_copy h src [] = Ret (Some d, h', []) /\ beside h h' src ls xs c d lsd xs)
  /\ (forall f, exists d h' lsd, sublist_adaptor h src f [] = Ret (Some d, h', [])
     /\ beside h h' src ls xs c d lsd (f <$> xs))
  /\ (forall d lsd ys cd, islist h d lsd ys cd -> cache_ok d lsd cd ->
        (forall k, k ∈ src :: ls -> k ∉ d :: lsd) ->
        exists h' lsd' cd', list_merge h (Some d) src [] = Ret (Some d, h', [])
          /\ islist h' d lsd' (ys ++ xs) cd' /\ cache_ok d lsd' cd'
          /\ forall k, k ∈ src :: ls -> h' !! k = None).
Proof.
  intros Hl.
  assert (Hsub : forall pick, exists d h' lsd, sublist_of h src pick [] = Ret (Some d, h', [])
     /\ beside h h' src ls xs c d lsd (omap pick xs)).
  { intros pick. destruct (wp_eq _ _ _ (sublist_of_spec h src ls xs c pick [] Hl)) as ([[d|] h'] & o' & -> & H);
      [|by destruct H as (_ & _ & ?)]. destruct H as [[lsd Hb] Ho]. rewrite Ho by done. eauto. }
  split_and!.
  - intros p. rewrite <-omap_if. apply Hsub.
  - intros p. destruct (Hsub (fun x => if negb (p x) then Some x else None)) as (d & h' & lsd & H1 & H2).
    exists d, h', lsd. split; [done|]. rewrite (omap_if (fun x => negb (p x))) in H2.
    rewrite (list_filter_iff _ (fun x => p x = false)) in H2; [done|]. intros x. apply negb_true_iff.
  - destruct (Hsub Some) as (d & h' & lsd & H1 & H2). exists d, h', lsd. split; [done|].
    pose proof (omap_all id xs) as E. rewrite list_fmap_id in E. by rewrite <-E at 2.
  - intros f. rewrite <-omap_all. apply Hsub.
  - intros d lsd ys cd Hd Hcd Hap.
    destruct (wp_eq _ _ _ (list_merge_spec h src ls xs c d lsd ys cd [] Hl Hd Hcd Hap))
      as ([[d'|] h'] & o' & -> & H); [|by destruct H].
    destruct H as (-> & (lsd' & cd' & ? & ?) & ? & Ho). rewrite Ho by done. eauto 7.
Qed.

End Traversals.

(** * Witnesses *)

(** A heap with the list of 3, 1, 2. *)
Definition demo_heap : gmap loc (node Z) :=
  <[0%nat := mkNode (Some 1%nat) None (Cached 3%nat)]>
  (<[1%nat := mkNode (Some 2%nat) (Some 0%nat) (Item 3)]>
  (<[2%nat := mkNode (Some 3%nat) (Some 1%nat) (Item 1)]>
  (<[3%nat := mkNode None (Some 2%nat) (Item 2)]> ∅))).

Lemma demo_islist : islist demo_heap 0%nat [1; 2; 3]%nat [3; 1; 2] (Cached 3%nat).
Proof.
  constructor.
  - decide_closed.
  - reflexivity.
  - simpl. by split_and!.
Qed.

Lemma list_sort_sorts_witness :
  exists h' ys, list_sort demo_heap 0%nat Z.sub = Ret h' /\ islist h' 0%nat [1; 2; 3]%nat ys (Cached 3%nat)
    /\ ys ≡ₚ [3; 1; 2] /\ Sorted (fun x y => x - y <= 0) ys /\ only [0; 1; 2; 3]%nat demo_heap h'.
Proof.
  apply (list_sort_sorts Z.sub); [lia | lia | apply demo_islist].
Defined.

Lemma list_traversals_witness :
  list_size demo_heap 0%nat [] = Ret (3, []) /\ list_get_item demo_heap 0%nat 1 [] = Ret (Some 1, []).
Proof.
  destruct (list_traversals (S := unit) demo_heap 0%nat [1; 2; 3]%nat [3; 1; 2] (Cached 3%nat) [] demo_islist eq_refl)
    as (_ & _ & _ & H1 & _ & H2 & _).
  split; [exact H1 | by apply H2].
Defined.

Lemma list_constructors_witness :
  exists d h' lsd, sublist_copy demo_heap 0%nat [] = Ret (Some d, h', [])
    /\ beside demo_heap h' 0%nat [1; 2; 3]%nat [3; 1; 2] (Cached 3%nat) d lsd [3; 1; 2].
Proof.
  destruct (list_constructors demo_heap 0%nat [1; 2; 3]%nat [3; 1; 2] (Cached 3%nat) demo_islist)
    as (_ & _ & H & _). exact H.
Defined.
