(* ===== verification/Threadpool.v ===== *)
(** Threadpool: the thread pool of meta/src/threadpool.c.

    The pool is shared by a fixed number of worker threads, by producers that
    call [threadpool_add_work] and by the owner, which creates and destroys
    it.  Its state is the record [threadpool]; every thread is a program
    counter, one per access to the shared state, and [exec] runs one step of
    one thread.  What the environment decides is a [choice]: which waiter a
    signal wakes, what [initfn] returns, whether a pthread call whose result
    the code tests fails, whether a wait ends spuriously, which call a
    producer makes next.

    A mutex is a flag, waiting on a condition variable is a program counter.
    The calls of the three functions a job carries are recorded in [log], the
    jobs [threadpool_add_work] stored in [added].

    The pthread calls whose result the code ignores are taken to succeed, the
    functions of a job do not touch the pool, and only the owner destroys it.
    The last part is the allocation half of [threadpool_new]. *)

From Stdlib Require Import ZArith Lia.
From stdpp Require Import base list numbers.
From S2P Require Import Prelude.

(** * Data *)

Inductive slot_state : Set := SLOT_UNUSED | SLOT_RUNNING | SLOT_WAITING.

#[export] Instance slot_state_eq_dec : EqDecision slot_state.
Proof. solve_decision. Defined.

(** The six fields of [struct work] that [threadpool_add_work] fills; function
    pointers and arguments are addresses, 0 is NULL. *)
Record job : Set := Job {
  workfn : Z;
  workarg : Z;
  initfn : Z;
  initarg : Z;
  cleanupfn : Z;
  cleanup_arg : Z;
}.

#[export] Instance job_eq_dec : EqDecision job.
Proof. solve_decision. Defined.

Record work : Set := Work {
  state : slot_state;
  fields : job;
}.

(** [workers] holds the thread ids [pthread_create] stored, [None] for the
    entries that are still 0. *)
Record threadpool : Set := Pool {
  nworkers : nat;
  workers : list (option nat);
  capacity : Z;
  nentries : Z;
  queue : list work;
  queue_lock : bool;
  queue_closed : bool;
  shutting_down : bool;
  block_when_full : bool;
  sum_work_added : Z;
  sum_blocked : Z;
  sum_discarded : Z;
}.

Definition queue_empty (p : threadpool) : bool := nentries p =? 0.
Definition queue_full (p : threadpool) : bool := nentries p =? capacity p.

Definition set_lock (b : bool) (p : threadpool) : threadpool :=
  Pool (nworkers p) (workers p) (capacity p) (nentries p) (queue p) b
    (queue_closed p) (shutting_down p) (block_when_full p)
    (sum_work_added p) (sum_blocked p) (sum_discarded p).
Definition set_nentries (n : Z) (p : threadpool) : threadpool :=
  Pool (nworkers p) (workers p) (capacity p) n (queue p) (queue_lock p)
    (queue_closed p) (shutting_down p) (block_when_full p)
    (sum_work_added p) (sum_blocked p) (sum_discarded p).
Definition set_queue (q : list work) (p : threadpool) : threadpool :=
  Pool (nworkers p) (workers p) (capacity p) (nentries p) q (queue_lock p)
    (queue_closed p) (shutting_down p) (block_when_full p)
    (sum_work_added p) (sum_blocked p) (sum_discarded p).
Definition set_workers (ws : list (option nat)) (p : threadpool) : threadpool :=
  Pool (nworkers p) ws (capacity p) (nentries p) (queue p) (queue_lock p)
    (queue_closed p) (shutting_down p) (block_when_full p)
    (sum_work_added p) (sum_blocked p) (sum_discarded p).
Definition set_flags (closed shutting : bool) (p : threadpool) : threadpool :=
  Pool (nworkers p) (workers p) (capacity p) (nentries p) (queue p) (queue_lock p)
    closed shutting (block_when_full p)
    (sum_work_added p) (sum_blocked p) (sum_discarded p).
Definition set_counters (a b d : Z) (p : threadpool) : threadpool :=
  Pool (nworkers p) (workers p) (capacity p) (nentries p) (queue p) (queue_lock p)
    (queue_closed p) (shutting_down p) (block_when_full p) a b d.

Definition set_state (i : nat) (s : slot_state) (w : work) (p : threadpool) : threadpool :=
  set_queue (<[i := Work s (fields w)]> (queue p)) p.

Definition lock := set_lock true.
Definition unlock := set_lock false.

(** * Threads *)

(** [threadpool_exec_thread]; a [W_wait] is asleep in [pthread_cond_wait], a
    [W_woken] was woken there and wants the mutex back; [W_busy] is inside
    [workfn]. *)
Inductive wpc : Set :=
| W_lock | W_test | W_wait | W_woken | W_exit_test | W_exit
| W_scan (idx : nat) | W_nothing | W_mark (idx : nat) | W_unlock (idx : nat)
| W_init (idx : nat) | W_work (idx : nat) | W_busy (idx : nat) | W_cleanup (idx : nat)
| W_relock (idx : nat) | W_unused (idx : nat) | W_dec | W_signal_full
| W_signal_empty | W_unlock_end | W_exited.

(** [threadpool_add_work]; [A_leaked] has returned with the mutex locked. *)
Inductive apc : Set :=
| A_lock | A_full_test | A_discard | A_discard_count | A_test | A_wait | A_woken
| A_closed_test | A_reject | A_scan (i : nat) | A_none | A_fill (i : nat)
| A_signal | A_inc | A_unlock | A_count | A_leaked.

(** [threadpool_destroy]; [D_leaked] has returned with the mutex locked,
    [D_failed] has returned [failure] with the mutex released. *)
Inductive dpc : Set :=
| D_lock | D_close | D_finish_test | D_wait1 | D_woken1 | D_fail_unlock
| D_bcast1 | D_bcast2 | D_unlock1 | D_lock2 | D_test2 | D_wait2 | D_woken2
| D_shutdown | D_bcast3 | D_unlock2 | D_join (i : nat) | D_free
| D_leaked | D_failed | D_done.

(** What [threadpool_add_work] returned: [success], [fail(e)], [fail(err)] with
    the error of a pthread call, [failure] with no [errno] set. *)
Inductive result : Set := R_success | R_fail (e : errno) | R_pthread | R_failure.

Inductive pc : Set :=
| Worker (w : wpc)
| New_create (i : nat)
| New_counters
| Idle (owner : bool) (last : option result)
| Add (owner : bool) (j : job) (a : apc)
| Destroy (finish : bool) (d : dpc).

Inductive condvar : Set := queue_not_empty | queue_not_full | queue_is_empty.

Inductive wake : Set := Quiet | Signal (cv : condvar) | Broadcast (cv : condvar).

Inductive choice : Set :=
| Go
| Err
| Pick (t : nat)
| Spurious
| Init_returns (st : status)
| Call_add (j : job)
| Call_destroy (finish : bool).

Inductive event : Set :=
| Called_init (j : job) (st : status)
| Called_work (j : job)
| Called_cleanup (j : job).

Record config : Set := Config {
  pool : threadpool;
  threads : list pc;
  published : bool;
  freed : bool;
  added : list job;
  log : list event;
}.

(** What a thread does in one step, besides moving to [e_pc]. *)
Record effect : Set := Effect {
  e_pool : threadpool;
  e_pc : pc;
  e_wake : wake;
  e_added : list job;
  e_log : list event;
  e_spawn : list pc;
  e_published : bool;
  e_freed : bool;
}.

Inductive outcome (A : Type) : Type :=
| Next (a : A)
| Blocked
| Crash (f : fault).
Arguments Next {A} a.
Arguments Blocked {A}.
Arguments Crash {A} f.

Definition go (p : threadpool) (n : pc) : outcome effect :=
  Next (Effect p n Quiet [] [] [] false false).
Definition go_wake (p : threadpool) (n : pc) (wk : wake) : outcome effect :=
  Next (Effect p n wk [] [] [] false false).
Definition go_log (p : threadpool) (n : pc) (e : event) : outcome effect :=
  Next (Effect p n Quiet [] [e] [] false false).

(** [pthread_mutex_lock], also the end of a [pthread_cond_wait]. *)
Definition acquire (p : threadpool) (n : pc) : outcome effect :=
  if queue_lock p then Blocked else go (lock p) n.

(** A sleeper leaves [pthread_cond_wait] by itself only spuriously; a signal
    moves it in [do_wake]. *)
Definition sleep (cx : choice) (p : threadpool) (n : pc) : outcome effect :=
  match cx with
  | Spurious => go p n
  | _ => Blocked
  end.

Definition with_slot (p : threadpool) (i : nat) (k : work -> outcome effect) : outcome effect :=
  match queue p !! i with
  | Some w => k w
  | None => Crash OutOfBounds
  end.

Definition is_err (cx : choice) : bool :=
  match cx with
  | Err => true
  | _ => false
  end.

(** A pthread call whose result is tested: [Err] makes it fail. *)
Definition tested (cx : choice) (bad good : outcome effect) : outcome effect :=
  if is_err cx then bad else good.

(** * The worker *)

Definition threadpool_exec_thread (cx : choice) (p : threadpool) (w : wpc) : outcome effect :=
  match w with
  | W_lock => acquire p (Worker W_test)
  | W_test =>
      if queue_empty p && negb (shutting_down p)
      then go (unlock p) (Worker W_wait)
      else go p (Worker W_exit_test)
  | W_wait => sleep cx p (Worker W_woken)
  | W_woken => acquire p (Worker W_test)
  | W_exit_test =>
      if shutting_down p && queue_empty p then go p (Worker W_exit)
      else if queue_empty p then go p (Worker W_exit)
      else go p (Worker (W_scan 0))
  | W_exit => go (unlock p) (Worker W_exited)
  | W_scan idx =>
      if Z.of_nat idx <? capacity p
      then with_slot p idx (fun w =>
             if decide (state w = SLOT_WAITING)
             then go p (Worker (W_mark idx))
             else go p (Worker (W_scan (S idx))))
      else go p (Worker W_nothing)
  | W_nothing => go (unlock p) (Worker W_lock)
  | W_mark idx =>
      with_slot p idx (fun w =>
        go (set_state idx SLOT_RUNNING w p) (Worker (W_unlock idx)))
  | W_unlock idx => go (unlock p) (Worker (W_init idx))
  | W_init idx =>
      with_slot p idx (fun w =>
        if initfn (fields w) =? 0 then go p (Worker (W_work idx))
        else match cx with
             | Init_returns success =>
                 go_log p (Worker (W_work idx)) (Called_init (fields w) success)
             | Init_returns failure =>
                 go_log p (Worker (W_relock idx)) (Called_init (fields w) failure)
             | _ => Blocked
             end)
  | W_work idx =>
      with_slot p idx (fun w =>
        go_log p (Worker (W_busy idx)) (Called_work (fields w)))
  | W_busy idx => go p (Worker (W_cleanup idx))
  | W_cleanup idx =>
      with_slot p idx (fun w =>
        if cleanupfn (fields w) =? 0 then go p (Worker (W_relock idx))
        else go_log p (Worker (W_relock idx)) (Called_cleanup (fields w)))
  | W_relock idx => acquire p (Worker (W_unused idx))
  | W_unused idx =>
      with_slot p idx (fun w =>
        go (set_state idx SLOT_UNUSED w p) (Worker W_dec))
  | W_dec => go (set_nentries (u64 (nentries p - 1)) p) (Worker W_signal_full)
  | W_signal_full =>
      if block_when_full p && negb (queue_full p)
      then go_wake p (Worker W_signal_empty) (Signal queue_not_full)
      else go p (Worker W_signal_empty)
  | W_signal_empty =>
      if queue_empty p
      then go_wake p (Worker W_unlock_end) (Signal queue_is_empty)
      else go p (Worker W_unlock_end)
  | W_unlock_end => go (unlock p) (Worker W_lock)
  | W_exited => Blocked
  end.

(** * The producer *)

Definition threadpool_add_work (cx : choice) (p : threadpool) (owner : bool) (j : job) (a : apc)
    : outcome effect :=
  let next n := Add owner j n in
  let return_ r := Idle owner (Some r) in
  match a with
  | A_lock => tested cx (go p (return_ R_pthread)) (acquire p (next A_full_test))
  | A_full_test =>
      if queue_full p then
        if block_when_full p
        then go (set_counters (sum_work_added p) (u64 (sum_blocked p + 1)) (sum_discarded p) p)
               (next A_test)
        else go p (next A_discard)
      else go p (next A_test)
  | A_discard => go (unlock p) (next A_discard_count)
  | A_discard_count =>
      go (set_counters (sum_work_added p) (sum_blocked p) (u64 (sum_discarded p + 1)) p)
        (return_ (R_fail ENOSPC))
  | A_test =>
      if queue_full p && negb (shutting_down p) && negb (queue_closed p)
      then tested cx (go p (next A_leaked)) (go (unlock p) (next A_wait))
      else go p (next A_closed_test)
  | A_wait => sleep cx p (next A_woken)
  | A_woken => acquire p (next A_test)
  | A_closed_test =>
      if shutting_down p || queue_closed p then go p (next A_reject)
      else go p (next (A_scan 0))
  | A_reject => go (unlock p) (return_ (R_fail EINVAL))
  | A_scan i =>
      if Z.of_nat i <? capacity p
      then with_slot p i (fun w =>
             if decide (state w = SLOT_UNUSED)
             then go (set_state i SLOT_WAITING w p) (next (A_fill i))
             else go p (next (A_scan (S i))))
      else go p (next A_none)
  | A_none => go (unlock p) (return_ R_failure)
  | A_fill i =>
      with_slot p i (fun w =>
        Next (Effect (set_queue (<[i := Work (state w) j]> (queue p)) p) (next A_signal)
                Quiet [j] [] [] false false))
  | A_signal =>
      if queue_empty p
      then go_wake p (next A_inc) (Signal queue_not_empty)
      else go p (next A_inc)
  | A_inc => go (set_nentries (u64 (nentries p + 1)) p) (next A_unlock)
  | A_unlock => go (unlock p) (next A_count)
  | A_count =>
      go (set_counters (u64 (sum_work_added p + 1)) (sum_blocked p) (sum_discarded p) p)
        (return_ R_success)
  | A_leaked => Blocked
  end.

(** * Destruction *)

(** [exited t]: thread [t] has returned from its start routine. *)
Definition threadpool_destroy (cx : choice) (exited : nat -> bool) (p : threadpool)
    (finish : bool) (d : dpc) : outcome effect :=
  let next n := Destroy finish n in
  match d with
  | D_lock => tested cx (go p (next D_failed)) (acquire p (next D_close))
  | D_close =>
      go (set_flags true (shutting_down p) p)
        (next (if finish then D_finish_test else D_bcast1))
  | D_finish_test =>
      if queue_empty p then go p (next D_bcast1)
      else tested cx (go p (next D_fail_unlock)) (go (unlock p) (next D_wait1))
  | D_wait1 => sleep cx p (next D_woken1)
  | D_woken1 => acquire p (next D_finish_test)
  | D_fail_unlock => go (unlock p) (next D_failed)
  | D_bcast1 =>
      tested cx (go p (next D_leaked)) (go_wake p (next D_bcast2) (Broadcast queue_not_empty))
  | D_bcast2 =>
      tested cx (go p (next D_leaked)) (go_wake p (next D_unlock1) (Broadcast queue_not_full))
  | D_unlock1 => tested cx (go p (next D_leaked)) (go (unlock p) (next D_lock2))
  | D_lock2 => acquire p (next D_test2)
  | D_test2 =>
      if queue_empty p then go p (next D_shutdown) else go (unlock p) (next D_wait2)
  | D_wait2 => sleep cx p (next D_woken2)
  | D_woken2 => acquire p (next D_test2)
  | D_shutdown => go (set_flags (queue_closed p) true p) (next D_bcast3)
  | D_bcast3 => go_wake p (next D_unlock2) (Broadcast queue_not_empty)
  | D_unlock2 => go (unlock p) (next (D_join 0))
  | D_join i =>
      if (i <? nworkers p)%nat
      then match workers p !! i with
           | None => Crash OutOfBounds
           | Some None => go p (next (D_join (S i)))
           | Some (Some t) =>
               tested cx (go p (next D_failed))
                 (if exited t then go p (next (D_join (S i))) else Blocked)
           end
      else go p (next D_free)
  | D_free => Next (Effect p (next D_done) Quiet [] [] [] false true)
  | D_leaked | D_failed | D_done => Blocked
  end.

(** * Creation of the workers and calls of the users *)

(** The second half of [threadpool_new]: the loop over [pthread_create], which
    destroys the pool when a thread cannot be created, and the counters.
    [fresh] is the id of the thread the next [pthread_create] makes. *)
Definition threadpool_new_threads (cx : choice) (fresh : nat) (p : threadpool) (n : pc)
    : outcome effect :=
  match n with
  | New_create i =>
      if (i <? nworkers p)%nat
      then match workers p !! i with
           | None => Crash OutOfBounds
           | Some _ =>
               tested cx (go p (Destroy false D_lock))
                 (Next (Effect (set_workers (<[i := Some fresh]> (workers p)) p)
                          (New_create (S i)) Quiet [] [] [Worker W_lock] false false))
           end
      else go p New_counters
  | New_counters =>
      Next (Effect (set_counters 0 0 0 p) (Idle true None) Quiet [] [] [] true false)
  | _ => Blocked
  end.

(** A producer may call [threadpool_add_work] once the owner has the pool,
    with a [workfn] (the function asserts it). *)
Definition user_call (cx : choice) (pub : bool) (p : threadpool) (owner : bool)
    : outcome effect :=
  match cx with
  | Call_add j =>
      if pub then
        if workfn j =? 0 then Crash AssertFailed else go p (Add owner j A_lock)
      else Blocked
  | Call_destroy finish => if owner then go p (Destroy finish D_lock) else Blocked
  | _ => Blocked
  end.

(** * Steps of the system *)

Definition is_exited (ts : list pc) (t : nat) : bool :=
  match ts !! t with
  | Some (Worker W_exited) => true
  | _ => false
  end.

Definition pc_step (cx : choice) (c : config) (n : pc) : outcome effect :=
  match n with
  | Worker w => threadpool_exec_thread cx (pool c) w
  | Add owner j a => threadpool_add_work cx (pool c) owner j a
  | Destroy finish d =>
      threadpool_destroy cx (is_exited (threads c)) (pool c) finish d
  | New_create _ | New_counters =>
      threadpool_new_threads cx (length (threads c)) (pool c) n
  | Idle owner _ => user_call cx (published c) (pool c) owner
  end.

(** The thread waits on a condition variable, and what waking it does. *)
Definition waits_on (n : pc) : option condvar :=
  match n with
  | Worker W_wait => Some queue_not_empty
  | Add _ _ A_wait => Some queue_not_full
  | Destroy _ D_wait1 | Destroy _ D_wait2 => Some queue_is_empty
  | _ => None
  end.

#[export] Instance condvar_eq_dec : EqDecision condvar.
Proof. solve_decision. Defined.

Definition wake_pc (cv : condvar) (n : pc) : pc :=
  if decide (waits_on n = Some cv) then
    match n with
    | Worker _ => Worker W_woken
    | Add owner j _ => Add owner j A_woken
    | Destroy f D_wait1 => Destroy f D_woken1
    | Destroy f D_wait2 => Destroy f D_woken2
    | _ => n
    end
  else n.

(** [pthread_cond_signal] wakes the waiter [Pick] names and does nothing when
    there is none, [pthread_cond_broadcast] wakes every waiter. *)
Definition do_wake (wk : wake) (cx : choice) (ts : list pc) : option (list pc) :=
  match wk with
  | Quiet => Some ts
  | Broadcast cv => Some (wake_pc cv <$> ts)
  | Signal cv =>
      if existsb (fun n => bool_decide (waits_on n = Some cv)) ts then
        match cx with
        | Pick t =>
            n ← ts !! t;
            if decide (waits_on n = Some cv) then Some (<[t := wake_pc cv n]> ts) else None
        | _ => None
        end
      else Some ts
  end.

(** The thread still has an access to the pool to make. *)
Definition active (n : pc) : bool :=
  match n with
  | Worker W_exited | Destroy _ D_done | Destroy _ D_failed | Destroy _ D_leaked
  | Add _ _ A_leaked => false
  | Idle _ _ => false
  | _ => true
  end.

Definition exec (t : nat) (cx : choice) (c : config) : outcome config :=
  match threads c !! t with
  | None => Blocked
  | Some n =>
      if freed c && active n then Crash OutOfBounds else
      match pc_step cx c n with
      | Blocked => Blocked
      | Crash f => Crash f
      | Next e =>
          match do_wake (e_wake e) cx (<[t := e_pc e]> (threads c)) with
          | None => Blocked
          | Some ts =>
              Next (Config (e_pool e) (ts ++ e_spawn e) (published c || e_published e)
                      (freed c || e_freed e) (added c ++ e_added e) (log c ++ e_log e))
          end
      end
  end.

(** A pool as the allocation half of [threadpool_new] leaves it, its owner
    about to create the workers, and [np] producers. *)
Definition new_pool (nw cap : nat) (block : bool) : threadpool :=
  Pool nw (replicate nw None) (Z.of_nat cap) 0
    (replicate cap (Work SLOT_UNUSED (Job 0 0 0 0 0 0))) false false false block 0 0 0.

Definition initial (p : threadpool) (np : nat) : config :=
  Config p (New_create 0 :: replicate np (Idle false None)) false false [] [].

Inductive reachable (c0 : config) : config -> Prop :=
| reachable_refl : reachable c0 c0
| reachable_step t cx c c' :
    reachable c0 c -> exec t cx c = Next c' -> reachable c0 c'.

(** Runs a schedule. *)
Fixpoint run (s : list (nat * choice)) (c : config) : outcome config :=
  match s with
  | [] => Next c
  | (t, cx) :: s' =>
      match exec t cx c with
      | Next c' => run s' c'
      | Blocked => Blocked
      | Crash f => Crash f
      end
  end.

(** * The allocation half of [threadpool_new] *)

(** The two pointers [free_mem] follows, in a struct fresh from [malloc]:
    [None] is a field nothing was stored in yet, [Some None] is NULL. *)
Record raw_pool : Set := Raw {
  raw_workers : option (option (list (option nat)));
  raw_queue : option (option (list (option work)));
}.

Definition free_mem (cap : Z) (p : option raw_pool) : res unit :=
  match p with
  | None => Ret tt
  | Some r =>
      match raw_workers r, raw_queue r with
      | None, _ | _, None => Fault Uninitialised
      | Some _, Some None => Ret tt
      | Some _, Some (Some q) => if cap <=? zlen q then Ret tt else Fault OutOfBounds
      end
  end.

Definition sizeof_threadpool : Z := 256.
Definition sizeof_work : Z := 56.

(** [calloc] of the slots one by one: [true] when all of them were had, and
    the array as the loop leaves it. *)
Fixpoint alloc_slots (n : nat) : C (bool * list (option work)) :=
  match n with
  | O => ret (true, [])
  | S n' =>
      let* ok := alloc_ok sizeof_work in
      if ok : bool
      then let* (b, q) := alloc_slots n' in
           ret (b, Some (Work SLOT_UNUSED (Job 0 0 0 0 0 0)) :: q)
      else ret (false, replicate n None)
  end.

(** [pthread_mutex_init] and the three [pthread_cond_init], up to the first
    that fails. *)
Fixpoint init_all (n : nat) : C bool :=
  match n with
  | O => ret true
  | S n' =>
      let* ok := alloc_ok 0 in
      if ok : bool then init_all n' else ret false
  end.

(** From the array of slots on. *)
Definition new_queue (nw cap : Z) (block : bool) (ws : list (option nat))
    : C (option threadpool) :=
  let* ok := alloc_ok (cap * 8) in
  if negb ok then
    let* _ := lift (free_mem cap (Some (Raw (Some (Some ws)) (Some None)))) in ret None
  else
  let* (all, q) := alloc_slots (Z.to_nat cap) in
  let r := Raw (Some (Some ws)) (Some (Some q)) in
  if negb all then let* _ := lift (free_mem cap (Some r)) in ret None else
  let* ok := init_all 4 in
  if negb ok then let* _ := lift (free_mem cap (Some r)) in ret None else
  ret (Some (new_pool (Z.to_nat nw) (Z.to_nat cap) block)).

Definition threadpool_new (nw cap : Z) (block : bool) : C (option threadpool) :=
  c_assert (0 <? nw);;
  c_assert (0 <? cap);;
  let* ok := alloc_ok sizeof_threadpool in
  if negb ok then let* _ := lift (free_mem cap None) in ret None else
  let* ok := alloc_ok (nw * 8) in
  if negb ok then
    let* _ := lift (free_mem cap (Some (Raw (Some None) None))) in ret None
  else new_queue nw cap block (replicate (Z.to_nat nw) None).

Definition threadpool_sum_blocked (p : threadpool) : Z := sum_blocked p.
Definition threadpool_sum_discarded (p : threadpool) : Z := sum_discarded p.
Definition threadpool_sum_added (p : threadpool) : Z := sum_work_added p.
