(* ===== verification/ThreadpoolInv.v ===== *)
(** ThreadpoolInv: the invariant of the thread pool.

    Every fact that relates the threads to the shared state is a sum over the
    program counters: the threads that hold the mutex, that own a slot, that
    have marked a slot and not counted it yet.  One step changes one summand,
    so that preservation is arithmetic; the facts a thread knows while it
    holds the mutex are the assertion [asserts] of its program counter. *)

From Stdlib Require Import ZArith Lia.
From stdpp Require Import base list numbers.
From S2P Require Import Prelude Threadpool.

(** * Sums *)

Fixpoint sumZ {A} (f : A -> Z) (l : list A) : Z :=
  match l with
  | [] => 0
  | x :: l' => f x + sumZ f l'
  end.

Section Sums.
Context {A : Type}.
Implicit Types (f g h : A -> Z) (l : list A).

Lemma sumZ_app f l k : sumZ f (l ++ k) = sumZ f l + sumZ f k.
Proof. induction l; simpl; lia. Qed.

Lemma sumZ_insert f l i x y :
  l !! i = Some x -> sumZ f (<[i := y]> l) = sumZ f l - f x + f y.
Proof.
  revert i. induction l as [|z l IH]; intros [|i] Hi; simplify_eq/=; [lia|].
  rewrite (IH i) by done. lia.
Qed.

Lemma sumZ_Forall2 f l k : Forall2 (fun x y => f x = f y) l k -> sumZ f l = sumZ f k.
Proof. induction 1; simpl; lia. Qed.

Lemma sumZ_Forall2_le f l k : Forall2 (fun x y => f x <= f y) l k -> sumZ f l <= sumZ f k.
Proof. induction 1; simpl; lia. Qed.

Lemma sumZ_le f g l : (forall x, f x <= g x) -> sumZ f l <= sumZ g l.
Proof. intros H. induction l as [|x l IH]; simpl; [lia|]. specialize (H x). lia. Qed.

Lemma sumZ_nonneg f l : (forall x, 0 <= f x) -> 0 <= sumZ f l.
Proof. intros H. induction l as [|x l IH]; simpl; [lia|]. specialize (H x). lia. Qed.

Lemma sumZ_elem f l i x :
  (forall x, 0 <= f x) -> l !! i = Some x -> f x <= sumZ f l.
Proof.
  intros H. revert i. induction l as [|z l IH]; intros [|i] Hi; simplify_eq/=.
  - pose proof (sumZ_nonneg f l H). lia.
  - specialize (IH i Hi). specialize (H z). lia.
Qed.

Lemma sumZ_two f l i j x y :
  (forall x, 0 <= f x) -> l !! i = Some x -> l !! j = Some y -> i <> j ->
  f x + f y <= sumZ f l.
Proof.
  intros H. revert i j. induction l as [|z l IH]; intros [|i] [|j] Hi Hj Hij; simplify_eq/=.
  - pose proof (sumZ_elem f l j y H Hj). lia.
  - pose proof (sumZ_elem f l i x H Hi). lia.
  - specialize (IH i j Hi Hj ltac:(congruence)). specialize (H z). lia.
Qed.

Lemma sumZ_ext f g l : (forall i x, l !! i = Some x -> f x = g x) -> sumZ f l = sumZ g l.
Proof.
  induction l as [|x l IH]; intros H; simpl; [done|].
  rewrite (H 0%nat x) by done. rewrite IH; [done|]. intros i y Hy. by apply (H (S i)).
Qed.

Lemma sumZ_all_zero f l : (forall i x, l !! i = Some x -> f x = 0) -> sumZ f l = 0.
Proof.
  induction l as [|x l IH]; intros H; simpl; [done|].
  rewrite (H 0%nat x) by done. rewrite IH; [done|]. intros i y Hy. by apply (H (S i)).
Qed.

(** [g] is carried by the one element [h] counts. *)
Lemma sumZ_single g h l i x :
  (forall y, 0 <= h y) -> (forall y, h y < 1 -> g y = 0) ->
  sumZ h l <= 1 -> l !! i = Some x -> 1 <= h x -> sumZ g l = g x.
Proof.
  intros H0 Hg. revert i. induction l as [|z l IH]; intros [|i] Hs Hi Hx; simplify_eq/=.
  - rewrite (sumZ_all_zero g l); [lia|]. intros i y Hy. apply Hg.
    pose proof (sumZ_elem h l i y H0 Hy). lia.
  - pose proof (sumZ_elem h l i x H0 Hi). pose proof (H0 z).
    rewrite (IH i); [|lia|done|done]. rewrite (Hg z); [done|]. lia.
Qed.

Lemma sumZ_pos f l : 0 < sumZ f l -> exists i x, l !! i = Some x /\ 0 < f x.
Proof.
  induction l as [|x l IH]; simpl; intros H; [lia|].
  destruct (Z.lt_decidable 0 (f x)) as [Hx|Hx]; [by exists 0%nat, x|].
  destruct IH as (i & y & Hy & Hf); [lia|]. by exists (S i), y.
Qed.

(** Sums over the positions of a list. *)
Fixpoint sumI (g : nat -> A -> Z) (l : list A) : Z :=
  match l with
  | [] => 0
  | x :: l' => g 0%nat x + sumI (fun i => g (S i)) l'
  end.

Lemma sumI_ext (g g' : nat -> A -> Z) l :
  (forall i x, g i x = g' i x) -> sumI g l = sumI g' l.
Proof.
  revert g g'. induction l as [|x l IH]; intros g g' H; simpl; [done|].
  rewrite (H 0%nat x). f_equal. by apply IH.
Qed.

Lemma sumI_insert (g g' : nat -> A -> Z) l i x y :
  l !! i = Some x -> (forall k z, k <> i -> g k z = g' k z) ->
  sumI g' (<[i := y]> l) = sumI g l - g i x + g' i y.
Proof.
  revert g g' i. induction l as [|z l IH]; intros g g' [|i] Hi Hk; simplify_eq/=.
  - rewrite (sumI_ext (fun i => g (S i)) (fun i => g' (S i))); [lia|].
    intros k w. by apply Hk.
  - rewrite (Hk 0%nat z) by done.
    rewrite (IH (fun i => g (S i)) (fun i => g' (S i)) i Hi); [lia|].
    intros k w Hne. apply Hk. congruence.
Qed.

Lemma sumI_nonneg (g : nat -> A -> Z) l :
  (forall i x, l !! i = Some x -> 0 <= g i x) -> 0 <= sumI g l.
Proof.
  revert g. induction l as [|x l IH]; intros g H; simpl; [done|].
  specialize (IH (fun i => g (S i)) (fun i y Hy => H (S i) y Hy)).
  specialize (H 0%nat x eq_refl). lia.
Qed.

Lemma sumI_zero (g : nat -> A -> Z) l :
  (forall i x, l !! i = Some x -> g i x = 0) -> sumI g l = 0.
Proof.
  revert g. induction l as [|x l IH]; intros g H; simpl; [done|].
  rewrite (H 0%nat x) by done. rewrite IH; [done|]. intros i y Hy. by apply (H (S i)).
Qed.

End Sums.

(** * What a program counter contributes *)

Definition holds (n : pc) : Z :=
  match n with
  | Worker (W_test | W_exit_test | W_exit | W_scan _ | W_nothing | W_mark _ | W_unlock _
           | W_unused _ | W_dec | W_signal_full | W_signal_empty | W_unlock_end) => 1
  | Add _ _ (A_full_test | A_discard | A_test | A_closed_test | A_reject | A_scan _ | A_none
            | A_fill _ | A_signal | A_inc | A_unlock | A_leaked) => 1
  | Destroy _ (D_close | D_finish_test | D_fail_unlock | D_bcast1 | D_bcast2 | D_unlock1
              | D_test2 | D_shutdown | D_bcast3 | D_unlock2 | D_leaked) => 1
  | _ => 0
  end.

(** Slots marked and not counted, or counted and not marked any more. *)
Definition adj (n : pc) : Z :=
  match n with
  | Add _ _ (A_fill _ | A_signal | A_inc) => 1
  | Worker W_dec => -1
  | _ => 0
  end.

(** The slot a worker has taken. *)
Definition slot_of (w : wpc) : option nat :=
  match w with
  | W_unlock i | W_init i | W_work i | W_busy i | W_cleanup i | W_relock i | W_unused i =>
      Some i
  | _ => None
  end.

Definition owns (i : nat) (n : pc) : Z :=
  match n with
  | Worker w => Z.b2z (bool_decide (slot_of w = Some i))
  | _ => 0
  end.

Definition filling (i : nat) (n : pc) : Z :=
  match n with
  | Add _ _ (A_fill k) => Z.b2z (bool_decide (k = i))
  | _ => 0
  end.

(** The worker has the slot and has not called [workfn] yet. *)
Definition prestart (i : nat) (n : pc) : Z :=
  match n with
  | Worker (W_unlock k | W_init k | W_work k) => Z.b2z (bool_decide (k = i))
  | _ => 0
  end.

Definition at_work (i : nat) (n : pc) : Z :=
  match n with
  | Worker (W_work k) => Z.b2z (bool_decide (k = i))
  | _ => 0
  end.

Definition at_cleanup (i : nat) (n : pc) : Z :=
  match n with
  | Worker (W_busy k | W_cleanup k) => Z.b2z (bool_decide (k = i))
  | _ => 0
  end.

Definition awake (n : pc) : Z :=
  match n with
  | Worker (W_wait | W_exited) => 0
  | Worker _ => 1
  | _ => 0
  end.

Definition is_worker (n : pc) : Z :=
  match n with
  | Worker _ => 1
  | _ => 0
  end.

(** The job is stored, [sum_work_added] is not incremented yet. *)
Definition uncounted (n : pc) : Z :=
  match n with
  | Add _ _ (A_signal | A_inc | A_unlock | A_count) => 1
  | _ => 0
  end.

Definition is_owner (n : pc) : bool :=
  match n with
  | New_create _ | New_counters | Destroy _ _ => true
  | Idle o _ | Add o _ _ => o
  | Worker _ => false
  end.

Definition busy (w : work) : Z := Z.b2z (bool_decide (state w <> SLOT_UNUSED)).
Definition waiting (w : work) : Z := Z.b2z (bool_decide (state w = SLOT_WAITING)).

Definition running_at (q : list work) (i : nat) : Z :=
  match q !! i with
  | Some w => Z.b2z (bool_decide (state w = SLOT_RUNNING))
  | None => 0
  end.

(** * Accounting of the calls *)

Definition count_job (j : job) (l : list job) : Z :=
  sumZ (fun k => Z.b2z (bool_decide (k = j))) l.

(** [workfn] was called, or [initfn] refused. *)
Definition settles (j : job) (e : event) : Z :=
  match e with
  | Called_work k | Called_init k failure => Z.b2z (bool_decide (k = j))
  | _ => 0
  end.
Definition worked (j : job) (e : event) : Z :=
  match e with
  | Called_work k => Z.b2z (bool_decide (k = j))
  | _ => 0
  end.
Definition init_ok (j : job) (e : event) : Z :=
  match e with
  | Called_init k success => Z.b2z (bool_decide (k = j))
  | _ => 0
  end.
Definition cleaned (j : job) (e : event) : Z :=
  match e with
  | Called_cleanup k => Z.b2z (bool_decide (k = j))
  | _ => 0
  end.

Definition is_job (j : job) (w : work) : Z := Z.b2z (bool_decide (fields w = j)).

(** The slots that hold job [j], each weighed by its state and by what the
    threads are doing with it. *)
Definition weigh (j : job) (base : work -> Z) (S : nat -> Z) (q : list work) : Z :=
  sumI (fun i w => is_job j w * (base w + S i)) q.

Definition pending (j : job) (c : config) : Z :=
  weigh j waiting
    (fun i => sumZ (prestart i) (threads c) - sumZ (filling i) (threads c)) (queue (pool c)).
Definition in_work (j : job) (c : config) : Z :=
  weigh j (fun _ => 0) (fun i => sumZ (at_work i) (threads c)) (queue (pool c)).
Definition in_cleanup (j : job) (c : config) : Z :=
  weigh j (fun _ => 0) (fun i => sumZ (at_cleanup i) (threads c)) (queue (pool c)).

(** * The invariant *)

Definition lt_cap (p : threadpool) : Prop := nentries p < capacity p.
Definition opened (p : threadpool) : Prop :=
  shutting_down p = false /\ queue_closed p = false.
Definition slot_waits (p : threadpool) (i : nat) : Prop :=
  exists w, queue p !! i = Some w /\ state w = SLOT_WAITING.
Definition none_free (p : threadpool) (i : nat) : Prop :=
  forall k w, (k < i)%nat -> queue p !! k = Some w -> state w <> SLOT_UNUSED.
Definition joined (c : config) (i : nat) : Prop :=
  forall k t, (k < i)%nat -> workers (pool c) !! k = Some (Some t) ->
    is_exited (threads c) t = true.

Definition asserts (c : config) (n : pc) : Prop :=
  let p := pool c in
  match n with
  | Worker W_exit_test => nentries p = 0 -> shutting_down p = true
  | Worker W_exit => nentries p = 0 /\ shutting_down p = true
  | Worker W_exited => shutting_down p = true
  | Worker (W_mark i) => slot_waits p i
  | Worker _ => True
  | New_create i =>
      published c = false /\ (i <= nworkers p)%nat /\
      Z.of_nat i <= sumZ is_worker (threads c) /\
      (forall k, (i <= k < nworkers p)%nat -> workers p !! k = Some None)
  | New_counters => published c = false /\ 1 <= sumZ is_worker (threads c)
  | Idle _ _ => True
  | Add _ _ a =>
      published c = true /\
      match a with
      | A_closed_test => opened p -> lt_cap p
      | A_scan i => opened p /\ lt_cap p /\ none_free p i
      | A_none => False
      | A_fill i => opened p /\ lt_cap p /\ slot_waits p i
      | A_signal => opened p /\ lt_cap p
      | A_inc => opened p /\ lt_cap p /\ 1 <= sumZ awake (threads c)
      | _ => True
      end
  | Destroy _ d =>
      match d with
      | D_lock | D_close | D_failed | D_leaked | D_fail_unlock => True
      | D_shutdown => nentries p = 0 /\ queue_closed p = true
      | D_bcast3 | D_unlock2 => shutting_down p = true
      | D_join i => shutting_down p = true /\ joined c i
      | D_free | D_done => shutting_down p = true /\ joined c (nworkers p)
      | _ => queue_closed p = true
      end
  end.

Record inv (c : config) : Prop := Inv {
  inv_cap : capacity (pool c) = zlen (queue (pool c)) /\ capacity (pool c) < 2 ^ 64;
  inv_workers_len : nworkers (pool c) = length (workers (pool c)) /\ (1 <= nworkers (pool c))%nat;
  inv_lock : sumZ holds (threads c) = Z.b2z (queue_lock (pool c));
  inv_run : forall i, sumZ (owns i) (threads c) = running_at (queue (pool c)) i;
  inv_count : nentries (pool c) + sumZ adj (threads c) = sumZ busy (queue (pool c));
  inv_range : 0 <= nentries (pool c) <= capacity (pool c);
  inv_shut : shutting_down (pool c) = true ->
    nentries (pool c) = 0 /\ queue_closed (pool c) = true;
  inv_awake : 0 < nentries (pool c) -> 1 <= sumZ awake (threads c);
  inv_owner : forall t n, threads c !! t = Some n -> is_owner n = true -> t = 0%nat;
  inv_published : published c = true -> 1 <= sumZ is_worker (threads c);
  inv_unpublished : published c = false -> added c = [];
  inv_ids : forall t w, threads c !! t = Some (Worker w) ->
    exists k, workers (pool c) !! k = Some (Some t);
  inv_freed : freed c = true ->
    forall t w, threads c !! t = Some (Worker w) -> w = W_exited;
  inv_asserts : forall t n, threads c !! t = Some n -> asserts c n;
  inv_added : published c = true ->
    sum_work_added (pool c) = u64 (zlen (added c) - sumZ uncounted (threads c));
  inv_jobs : forall j, count_job j (added c) = sumZ (settles j) (log c) + pending j c;
  inv_inits : forall j, initfn j <> 0 ->
    sumZ (init_ok j) (log c) = sumZ (worked j) (log c) + in_work j c;
  inv_cleanups : forall j, cleanupfn j <> 0 ->
    sumZ (worked j) (log c) = sumZ (cleaned j) (log c) + in_cleanup j c;
}.
