(* ===== verification/ThreadpoolSteps.v ===== *)
(** ThreadpoolSteps: every step of every thread keeps the invariant of the
    thread pool.

    The first part are the effects of one step of one program counter, by
    cases on it; the second part lifts them to the whole system, where the
    step may also wake or create threads. *)

From Stdlib Require Import ZArith Lia.
From stdpp Require Import base list numbers.
From S2P Require Import Prelude Threadpool ThreadpoolInv.

(** * Case analysis on a step *)

Ltac step_cases H :=
  unfold pc_step, threadpool_exec_thread, threadpool_add_work, threadpool_destroy,
    threadpool_new_threads, user_call, acquire, sleep, tested, with_slot, go, go_wake,
    go_log, queue_empty, queue_full in H;
  repeat case_match; try discriminate H; injection H as <-; subst; simpl in *; zreflect.

Ltac bdec := repeat (case_bool_decide || case_decide); simplify_eq; try lia; try done.

(** The constants of a pool. *)
Lemma step_constants cx c n e :
  pc_step cx c n = Next e ->
  capacity (e_pool e) = capacity (pool c) /\ nworkers (e_pool e) = nworkers (pool c) /\
  length (queue (e_pool e)) = length (queue (pool c)) /\
  length (workers (e_pool e)) = length (workers (pool c)).
Proof. intros H. destruct n; step_cases H; by rewrite ?length_insert. Qed.

Lemma step_spawn cx c n e :
  pc_step cx c n = Next e ->
  e_spawn e = [] /\ workers (e_pool e) = workers (pool c) \/
  exists i, n = New_create i /\ (i < nworkers (pool c))%nat /\
    e_pc e = New_create (S i) /\ e_spawn e = [Worker W_lock] /\
    workers (e_pool e) = <[i := Some (length (threads c))]> (workers (pool c)).
Proof.
  intros H. destruct n; step_cases H; try (by left);
    right; eexists; (split; [done|]); (split; [|done]); by apply Nat.ltb_lt.
Qed.

Lemma step_owner cx c n e : pc_step cx c n = Next e -> is_owner (e_pc e) = is_owner n.
Proof. intros H. destruct n; step_cases H; done. Qed.

Lemma step_worker cx c n e : pc_step cx c n = Next e -> is_worker (e_pc e) = is_worker n.
Proof. intros H. destruct n; step_cases H; done. Qed.

Lemma step_flags cx c n e :
  pc_step cx c n = Next e ->
  (shutting_down (pool c) = true -> shutting_down (e_pool e) = true) /\
  (queue_closed (pool c) = true -> queue_closed (e_pool e) = true).
Proof. intros H. destruct n; step_cases H; done. Qed.

(** Without the mutex a thread changes nothing the mutex guards. *)
Lemma step_frame cx c n e :
  pc_step cx c n = Next e -> holds n = 0 -> queue_lock (pool c) = true ->
  queue (e_pool e) = queue (pool c) /\ nentries (e_pool e) = nentries (pool c) /\
  shutting_down (e_pool e) = shutting_down (pool c) /\
  queue_closed (e_pool e) = queue_closed (pool c) /\ awake n <= awake (e_pc e).
Proof. intros H Hn Hl. destruct n; step_cases H; try done; congruence. Qed.

Lemma step_lock cx c n e :
  pc_step cx c n = Next e -> (holds n = 1 -> queue_lock (pool c) = true) ->
  Z.b2z (queue_lock (e_pool e)) - Z.b2z (queue_lock (pool c)) = holds (e_pc e) - holds n.
Proof.
  intros H Hl. destruct n; step_cases H; try lia;
    repeat match goal with
    | H : queue_lock _ = _ |- _ => rewrite H
    | H : 1 = 1 -> _ |- _ => rewrite H by done
    end; done.
Qed.

(** * What the invariant gives for the thread that steps *)

Record local (c : config) (n : pc) : Prop := Local {
  l_asserts : asserts c n;
  l_cap : capacity (pool c) = zlen (queue (pool c)) /\ capacity (pool c) < 2 ^ 64;
  l_owns : forall i, owns i n <= running_at (queue (pool c)) i;
  l_range : 0 <= nentries (pool c) <= capacity (pool c);
  l_count : holds n = 1 -> nentries (pool c) + adj n = sumZ busy (queue (pool c));
  l_fill : forall o j i, n = Add o j (A_fill i) ->
    sumZ (prestart i) (threads c) = 0 /\ sumZ (filling i) (threads c) = 1 /\
    sumZ (at_work i) (threads c) = 0 /\ sumZ (at_cleanup i) (threads c) = 0;
}.

Lemma holds_01 n : 0 <= holds n <= 1.
Proof. destruct n as [[]| | | |? ? []|? []]; simpl; lia. Qed.

Lemma owns_nonneg i n : 0 <= owns i n.
Proof. destruct n; simpl; try case_bool_decide; simpl; lia. Qed.

Lemma part_of_owns i n :
  0 <= prestart i n <= owns i n /\ 0 <= at_work i n <= owns i n /\
  0 <= at_cleanup i n <= owns i n.
Proof.
  destruct n as [[]| | | |? ? []|? []]; simpl; repeat split; bdec; simpl; try lia;
    exfalso; congruence.
Qed.

Lemma inv_local c t n : inv c -> threads c !! t = Some n -> local c n.
Proof.
  intros I Ht.
  assert (Hone : holds n = 1 -> sumZ holds (threads c) <= 1)
    by (intros _; rewrite (inv_lock c I); destruct (queue_lock _); simpl; lia).
  assert (Hh : forall y, 0 <= holds y) by (intros y; apply holds_01).
  split; try apply I; [by eapply inv_asserts| | |].
  - intros i. rewrite <-(inv_run c I). eapply sumZ_elem; [apply owns_nonneg | done].
  - intros Hn. rewrite <-(inv_count c I). f_equal. symmetry.
    apply (sumZ_single _ holds _ t); try (by auto || lia).
    intros y Hy. destruct y as [[]| | | |? ? []|? []]; simpl in *; lia.
  - intros o j i ->. destruct (inv_asserts c I t _ Ht) as (_ & _ & _ & w & Hw & Hs).
    assert (H0 : sumZ (owns i) (threads c) = 0).
    { rewrite (inv_run c I). unfold running_at. rewrite Hw, Hs. done. }
    assert (Hz : forall m : pc -> Z, (forall y, 0 <= m y <= owns i y) -> sumZ m (threads c) = 0).
    { intros m Hm. pose proof (sumZ_le m (owns i) (threads c) ltac:(intros; apply Hm)).
      pose proof (sumZ_nonneg m (threads c) ltac:(intros; apply Hm)). lia. }
    split; [apply Hz; intros; apply part_of_owns|].
    split; [|split; apply Hz; intros; apply part_of_owns].
    rewrite (sumZ_single _ holds _ t (Add o j (A_fill i)) Hh);
      [simpl; by case_bool_decide| |by apply Hone|done|done].
    intros y Hy. destruct y as [[]| | | |? ? []|? []]; simpl in *; lia.
Qed.

Lemma running_at_insert q i w w' k :
  q !! i = Some w ->
  running_at (<[i := w']> q) k =
  if decide (k = i) then Z.b2z (bool_decide (state w' = SLOT_RUNNING)) else running_at q k.
Proof.
  intros Hi. unfold running_at. case_decide as Hk.
  - subst. rewrite list_lookup_insert_eq; [done|]. by eapply lookup_lt_Some.
  - by rewrite list_lookup_insert_ne.
Qed.

Lemma running_at_lookup q i w :
  q !! i = Some w -> running_at q i = Z.b2z (bool_decide (state w = SLOT_RUNNING)).
Proof. unfold running_at. by intros ->. Qed.

Lemma step_run cx c n e i :
  pc_step cx c n = Next e -> local c n ->
  running_at (queue (e_pool e)) i - running_at (queue (pool c)) i = owns i (e_pc e) - owns i n.
Proof.
  intros H L. pose proof (l_asserts c n L) as LA. pose proof (l_owns c n L i) as LO.
  destruct n; step_cases H; try lia; simpl; try lia.
  all: erewrite running_at_insert by done; case_decide; subst; simpl; [| bdec; simpl; lia].
  all: match goal with
       | Hq : queue _ !! _ = Some _ |- _ =>
           pose proof (running_at_lookup _ _ _ Hq) as Hr
       end; simpl in *.
  all: repeat match goal with
       | H : _ /\ _ |- _ => destruct H
       | H : slot_waits _ _ |- _ => destruct H as (? & ? & ?)
       end; simplify_eq; bdec; simpl in *; try lia; congruence.
Qed.

Lemma busy_nonneg q : 0 <= sumZ busy q.
Proof. apply sumZ_nonneg. intros w. unfold busy. case_bool_decide; simpl; lia. Qed.

(** Facts about the slot a step works on, from [local]. *)
Ltac local_facts L :=
  let LA := fresh "LA" in let LO := fresh "LO" in
  pose proof (l_asserts _ _ L) as LA; pose proof (l_owns _ _ L) as LO;
  pose proof (l_range _ _ L); pose proof (l_count _ _ L); pose proof (l_cap _ _ L);
  simpl in *; try match goal with H : 1 = 1 -> _ |- _ => specialize (H eq_refl) end;
  unfold opened, lt_cap in *;
  repeat match goal with
  | H : _ /\ _ |- _ => destruct H
  | H : slot_waits _ _ |- _ => destruct H as (? & ? & ?)
  end; simplify_eq.

Lemma owns_running c w i :
  local c (Worker w) -> slot_of w = Some i ->
  exists x, queue (pool c) !! i = Some x /\ state x = SLOT_RUNNING.
Proof.
  intros L Hw. pose proof (l_owns _ _ L i) as LO. simpl in LO.
  rewrite bool_decide_eq_true_2 in LO by done. unfold running_at in LO.
  destruct (queue (pool c) !! i) as [x|]; [|simpl in LO; lia].
  exists x. split; [done|]. case_bool_decide; [done|]. simpl in LO. lia.
Qed.

Lemma step_count cx c n e :
  pc_step cx c n = Next e -> local c n ->
  nentries (e_pool e) + adj (e_pc e) - (nentries (pool c) + adj n) =
  sumZ busy (queue (e_pool e)) - sumZ busy (queue (pool c)).
Proof.
  intros H L. pose proof (busy_nonneg (queue (pool c))).
  destruct n; step_cases H; try lia; local_facts L; rewrite ?u64_small by lia; try lia.
  all: try (destruct (owns_running _ _ _ L eq_refl) as (? & ? & ?)).
  all: erewrite sumZ_insert by done; unfold busy; simpl; simplify_eq; bdec; simpl; lia || congruence.
Qed.

Lemma step_range cx c n e :
  pc_step cx c n = Next e -> local c n ->
  0 <= nentries (e_pool e) <= capacity (pool c).
Proof.
  intros H L. pose proof (busy_nonneg (queue (pool c))).
  destruct n; step_cases H; local_facts L; rewrite ?u64_small by lia; lia.
Qed.

Lemma step_shut cx c n e :
  pc_step cx c n = Next e -> local c n ->
  (shutting_down (pool c) = true -> nentries (pool c) = 0 /\ queue_closed (pool c) = true) ->
  shutting_down (e_pool e) = true ->
  nentries (e_pool e) = 0 /\ queue_closed (e_pool e) = true.
Proof.
  intros H L Hs. pose proof (busy_nonneg (queue (pool c))).
  destruct n; step_cases H; try done; local_facts L; try naive_solver.
  all: intros Hd; destruct (Hs Hd); try lia; congruence.
Qed.

(** * Accounting of the calls *)

Section Weigh.
Context (j : job) (base : work -> Z).

Lemma weigh_same (S S' : nat -> Z) q :
  (forall i, S i = S' i) -> weigh j base S' q = weigh j base S q.
Proof. intros HS. apply sumI_ext. intros i x. by rewrite HS. Qed.

Lemma weigh_at (S S' : nat -> Z) q i x y :
  q !! i = Some x -> (forall k, k <> i -> S k = S' k) ->
  weigh j base S' (<[i := y]> q) =
  weigh j base S q - is_job j x * (base x + S i) + is_job j y * (base y + S' i).
Proof.
  intros Hi HS. unfold weigh.
  rewrite (sumI_insert (fun i w => is_job j w * (base w + S i)) _ _ _ x); [done|done|].
  intros k z Hk. by rewrite HS.
Qed.

Lemma weigh_at_id (S S' : nat -> Z) q i x :
  q !! i = Some x -> (forall k, k <> i -> S k = S' k) ->
  weigh j base S' q = weigh j base S q + is_job j x * (S' i - S i).
Proof.
  intros Hi HS. rewrite <-(list_insert_id q i x Hi) at 1.
  rewrite (weigh_at S S' q i x x) by done. lia.
Qed.

End Weigh.

(** [S] after the step of [n] to [n']. *)
Definition moved (m : nat -> pc -> Z) (n n' : pc) (S : nat -> Z) (i : nat) : Z :=
  S i - m i n + m i n'.

Ltac weigh_side :=
  intros; unfold moved; simpl; bdec; simpl; try lia; congruence.

Ltac weigh_solve :=
  match goal with
  | |- context [weigh ?j ?b (moved ?m ?n ?n' ?S) ?q] =>
      first
        [ match q with
          | <[?i := ?y]> ?q0 =>
              match goal with
              | Hq : q0 !! i = Some ?x |- _ =>
                  rewrite (weigh_at j b S (moved m n n' S) q0 i x y Hq) by weigh_side
              end
          end
        | rewrite (weigh_same j b S (moved m n n' S) q) by weigh_side
        | match goal with
          | Hq : q !! ?i = Some ?x |- _ =>
              rewrite (weigh_at_id j b S (moved m n n' S) q i x Hq) by weigh_side
          end ]
  end;
  unfold moved, is_job, waiting; simpl; bdec; simpl in *; try lia; try congruence.

Lemma step_jobs cx c n e j (S : nat -> Z) :
  pc_step cx c n = Next e -> local c n ->
  (forall i, S i = sumZ (prestart i) (threads c) - sumZ (filling i) (threads c)) ->
  count_job j (e_added e) =
  sumZ (settles j) (e_log e)
  + weigh j waiting (moved (fun i n => prestart i n - filling i n) n (e_pc e) S)
      (queue (e_pool e))
  - weigh j waiting S (queue (pool c)).
Proof.
  intros H L HS. unfold count_job.
  destruct n; step_cases H; try (weigh_solve; done); local_facts L.
  - weigh_solve.
  - destruct (owns_running _ _ _ L eq_refl) as (? & ? & ?). simplify_eq. weigh_solve.
  - destruct (l_fill _ _ L _ _ _ eq_refl) as (F1 & F2 & _). specialize (HS i). weigh_solve.
Qed.

Lemma step_inits cx c n e j (S : nat -> Z) :
  pc_step cx c n = Next e -> local c n -> initfn j <> 0 ->
  (forall i, S i = sumZ (at_work i) (threads c)) ->
  sumZ (init_ok j) (e_log e) =
  sumZ (worked j) (e_log e)
  + weigh j (fun _ => 0) (moved at_work n (e_pc e) S) (queue (e_pool e))
  - weigh j (fun _ => 0) S (queue (pool c)).
Proof.
  intros H L Hj HS. destruct n; step_cases H; try (weigh_solve; done); local_facts L.
  destruct (l_fill _ _ L _ _ _ eq_refl) as (_ & _ & F1 & _). specialize (HS i). weigh_solve.
Qed.

Lemma step_cleanups cx c n e j (S : nat -> Z) :
  pc_step cx c n = Next e -> local c n -> cleanupfn j <> 0 ->
  (forall i, S i = sumZ (at_cleanup i) (threads c)) ->
  sumZ (worked j) (e_log e) =
  sumZ (cleaned j) (e_log e)
  + weigh j (fun _ => 0) (moved at_cleanup n (e_pc e) S) (queue (e_pool e))
  - weigh j (fun _ => 0) S (queue (pool c)).
Proof.
  intros H L Hj HS. destruct n; step_cases H; try (weigh_solve; done); local_facts L.
  destruct (l_fill _ _ L _ _ _ eq_refl) as (_ & _ & _ & F1). specialize (HS i). weigh_solve.
Qed.

Lemma step_added cx c n e :
  pc_step cx c n = Next e ->
  n = New_counters \/
  published c = (published c || e_published e)%bool /\
  forall a, sum_work_added (pool c) = u64 (a - uncounted n) ->
    sum_work_added (e_pool e) = u64 (a + zlen (e_added e) - uncounted (e_pc e)).
Proof.
  intros H. destruct n; step_cases H; try (by left); right;
    (split; [by destruct (published c)|]); intros a ->;
    unfold u64; rewrite ?Zplus_mod_idemp_l; f_equal; unfold zlen; simpl; lia.
Qed.

Lemma step_awake cx c n e :
  pc_step cx c n = Next e -> local c n -> 0 < nentries (e_pool e) ->
  awake n <= awake (e_pc e) /\
  (0 < nentries (pool c) \/ 1 <= sumZ awake (threads c)).
Proof.
  intros H L. pose proof (busy_nonneg (queue (pool c))).
  destruct n; step_cases H; local_facts L; rewrite ?u64_small by lia; intros; lia.
Qed.

(** * Waking *)

Definition woken (n n' : pc) : Prop := n' = n \/ exists cv, n' = wake_pc cv n.

Lemma do_wake_woken wk cx ts ts' :
  do_wake wk cx ts = Some ts' -> Forall2 woken ts ts'.
Proof.
  assert (Hr : forall l, Forall2 woken l l) by (intros l; induction l; constructor; auto; by left).
  destruct wk as [|cv|cv]; simpl; intros H; simplify_eq; [done| |].
  - case_match; [|by simplify_eq]. destruct cx; try done.
    apply bind_Some in H as (n & Hn & H). case_decide; [|done]. simplify_eq.
    rewrite <-(list_insert_id ts t n) at 1 by done.
    apply Forall2_insert; [done|]. right. by exists cv.
  - induction ts as [|n ts IH]; constructor; [right; by exists cv | done].
Qed.

Lemma woken_same {A} (f : pc -> A) n n' :
  (forall cv, f (wake_pc cv n) = f n) -> woken n n' -> f n' = f n.
Proof. by intros H [->|[cv ->]]. Qed.

Ltac wake_cases :=
  unfold wake_pc; case_decide; [|done];
  match goal with n : pc |- _ => destruct n as [[]| | | |? ? []|? []]; done end.

Lemma wake_holds cv n : holds (wake_pc cv n) = holds n.
Proof. wake_cases. Qed.
Lemma wake_adj cv n : adj (wake_pc cv n) = adj n.
Proof. wake_cases. Qed.
Lemma wake_owns i cv n : owns i (wake_pc cv n) = owns i n.
Proof. wake_cases. Qed.
Lemma wake_filling i cv n : filling i (wake_pc cv n) = filling i n.
Proof. wake_cases. Qed.
Lemma wake_prestart i cv n : prestart i (wake_pc cv n) = prestart i n.
Proof. wake_cases. Qed.
Lemma wake_at_work i cv n : at_work i (wake_pc cv n) = at_work i n.
Proof. wake_cases. Qed.
Lemma wake_at_cleanup i cv n : at_cleanup i (wake_pc cv n) = at_cleanup i n.
Proof. wake_cases. Qed.
Lemma wake_is_worker cv n : is_worker (wake_pc cv n) = is_worker n.
Proof. wake_cases. Qed.
Lemma wake_uncounted cv n : uncounted (wake_pc cv n) = uncounted n.
Proof. wake_cases. Qed.
Lemma wake_is_owner cv n : is_owner (wake_pc cv n) = is_owner n.
Proof. wake_cases. Qed.
Lemma wake_asserts c cv n : asserts c (wake_pc cv n) = asserts c n.
Proof. wake_cases. Qed.
Lemma wake_awake cv n : awake n <= awake (wake_pc cv n).
Proof.
  unfold wake_pc. case_decide; [|done].
  destruct n as [[]| | | |? ? []|? []]; simpl; lia || done.
Qed.

Lemma woken_exited n n' : woken n n' -> (n = Worker W_exited <-> n' = Worker W_exited).
Proof.
  intros [->|[cv ->]]; [done|]. unfold wake_pc. case_decide; [|done].
  destruct n as [[]| | | |? ? []|? []]; simplify_eq; done.
Qed.

(** The signal of [threadpool_add_work] leaves a worker awake. *)
Lemma signal_wakes cx ts ts' :
  do_wake (Signal queue_not_empty) cx ts = Some ts' ->
  1 <= sumZ is_worker ts -> (forall t, ts !! t <> Some (Worker W_exited)) ->
  1 <= sumZ awake ts'.
Proof.
  assert (Haw : forall n, 0 <= awake n)
    by (intros n; destruct n as [[]| | | |? ? []|? []]; simpl; lia).
  unfold do_wake. intros H Hw Hx. case_match eqn:He.
  - destruct cx; try done. apply bind_Some in H as (n & Hn & H). case_decide as Hd; [|done].
    simplify_eq. etrans; [|eapply (sumZ_elem _ _ t); [done|]].
    2: { rewrite list_lookup_insert_eq; [done|]. by eapply lookup_lt_Some. }
    unfold wake_pc. rewrite decide_True by done.
    destruct n as [[]| | | |? ? []|? []]; simplify_eq/=; lia.
  - simplify_eq. etrans; [exact Hw|]. apply Z.eq_le_incl.
    apply sumZ_ext. intros t n Hn.
    destruct n as [[]| | | |? ? []|? []]; try done; [|by destruct (Hx t)].
    apply not_true_iff_false in He. destruct He. apply existsb_exists.
    exists (Worker W_wait). split; [|by apply bool_decide_eq_true_2].
    apply list_elem_of_In. by eapply list_elem_of_lookup_2.
Qed.

(** * Steps of the system *)

Lemma exec_inv t cx c c' :
  exec t cx c = Next c' ->
  exists n e ts,
    threads c !! t = Some n /\ (freed c && active n)%bool = false /\
    pc_step cx c n = Next e /\
    do_wake (e_wake e) cx (<[t := e_pc e]> (threads c)) = Some ts /\
    c' = Config (e_pool e) (ts ++ e_spawn e) (published c || e_published e)
           (freed c || e_freed e) (added c ++ e_added e) (log c ++ e_log e).
Proof.
  unfold exec. intros H. repeat case_match; try discriminate. simplify_eq.
  by repeat eexists.
Qed.
