(* ===== verification/ThreadpoolSafe.v ===== *)
(** ThreadpoolSafe: the invariant of the thread pool holds in every reachable
    state, and what follows from it: mutual exclusion, a queue that is counted
    correctly and never overflows, every stored job run exactly once, progress,
    and a destruction that returns with all work done and all workers gone.
    The last theorems are schedules that show what the code gets wrong. *)

From Stdlib Require Import ZArith Lia.
From stdpp Require Import base list numbers.
From S2P Require Import Prelude Threadpool ThreadpoolInv ThreadpoolSteps.

(** * One step of the system *)

(** A full scan that finds no free slot has seen a full queue. *)
Lemma none_free_full p i :
  capacity p = zlen (queue p) -> none_free p i -> capacity p <= Z.of_nat i ->
  sumZ busy (queue p) = capacity p.
Proof.
  intros -> Hn Hi. unfold none_free, zlen in *.
  assert (H : forall k w, queue p !! k = Some w -> busy w = 1).
  { intros k w Hk. unfold busy. rewrite bool_decide_eq_true_2; [done|].
    apply (Hn k w); [|done]. apply lookup_lt_Some in Hk. lia. }
  clear - H. revert H. induction (queue p) as [|w q IH]; intros H; simpl; [done|].
  rewrite (H 0%nat w) by done. rewrite IH; [lia|]. intros k x Hk. by apply (H (S k)).
Qed.

Ltac bool_cases :=
  repeat match goal with
  | H : (_ && _)%bool = false |- _ => apply andb_false_iff in H as [H|H]
  | H : (_ && _)%bool = true |- _ => apply andb_true_iff in H as [? ?]
  | H : (_ || _)%bool = false |- _ => apply orb_false_iff in H as [? ?]
  end; zreflect.

Ltac by_joined k :=
  match goal with
  | HJ : forall _ _ : nat, _ -> _ -> is_exited _ _ = true |- _ =>
      apply (HJ k); [lia | done]
  end.

(** The thread that steps establishes the assertion of its next program
    counter. *)
Lemma own_asserts cx c c' n e :
  pc_step cx c n = Next e -> local c n ->
  nworkers (pool c) = length (workers (pool c)) -> (1 <= nworkers (pool c))%nat ->
  pool c' = e_pool e -> published c' = (published c || e_published e)%bool ->
  (forall o j, n = Add o j A_signal -> 1 <= sumZ awake (threads c')) ->
  sumZ is_worker (threads c') = sumZ is_worker (threads c) + sumZ is_worker (e_spawn e) ->
  (forall t, is_exited (threads c) t = true -> is_exited (threads c') t = true) ->
  asserts c' (e_pc e).
Proof.
  intros H L Hlen Hpos Hp Hpub Haw Hw Hex.
  destruct n; step_cases H; local_facts L; unfold asserts, joined, opened, lt_cap, slot_waits in *;
    rewrite ?Hp, ?Hpub; simpl in *; rewrite ?orb_false_r; try done;
    try (split; [done|]); try done.
  - intros Hz. bool_cases; [lia|done].
  - bool_cases; auto.
  - eauto.
  - rewrite Nat.ltb_lt in *. split; [lia|]. split; [lia|]. intros k Hk.
    rewrite list_lookup_insert_ne by lia. auto with lia.
  - rewrite Nat.ltb_ge in *. lia.
  - intros [Hsd Hcl]. bool_cases; [lia|congruence|congruence].
  - bool_cases. split; [done|]. split; [auto|]. intros k w Hk. lia.
  - split; [done|]. split; [done|].
    eexists. by rewrite list_lookup_insert_eq by (by eapply lookup_lt_Some).
  - split; [done|]. split; [done|]. intros k x Hk Hx.
    destruct (decide (k = i)) as [->|]; [by simplify_eq|].
    match goal with Hn : none_free _ _ |- _ => apply (Hn k x); [lia|done] end.
  - match goal with Hn : none_free _ _ |- _ => apply none_free_full in Hn; lia end.
  - split; [done|]. split; [done|]. by eapply Haw.
  - split; [done|]. split; [done|]. by eapply Haw.
  - intros k t' Hk. lia.
  - intros k t' Hk Hw'. destruct (decide (k = i)) as [->|]; [by simplify_eq; apply Hex|].
    apply Hex. by_joined k.
  - intros k t' Hk Hw'. destruct (decide (k = i)) as [->|]; [by simplify_eq|].
    apply Hex. by_joined k.
  - rewrite Nat.ltb_ge in *. intros k t' Hk Hw'. apply Hex. by_joined k.
  - intros k t' Hk Hw'. apply Hex. by_joined k.
Qed.

Section Step.
Context (t : nat) (cx : choice) (c : config) (n : pc) (e : effect) (ts : list pc).
Context (Ht : threads c !! t = Some n).
Context (Hfree : (freed c && active n)%bool = false).
Context (Hs : pc_step cx c n = Next e).
Context (Hw : do_wake (e_wake e) cx (<[t := e_pc e]> (threads c)) = Some ts).
Context (I : inv c).

Definition after : config :=
  Config (e_pool e) (ts ++ e_spawn e) (published c || e_published e)
    (freed c || e_freed e) (added c ++ e_added e) (log c ++ e_log e).

Lemma step_local : local c n.
Proof. by eapply inv_local. Qed.

Lemma sum_after f :
  (forall cv n, f (wake_pc cv n) = f n) ->
  sumZ f (threads after) = sumZ f (threads c) - f n + f (e_pc e) + sumZ f (e_spawn e).
Proof.
  intros Hf. simpl. rewrite sumZ_app, <-(sumZ_insert f _ t n (e_pc e) Ht). f_equal.
  symmetry. apply sumZ_Forall2. eapply Forall2_impl; [|by eapply do_wake_woken].
  intros x y Hxy. symmetry. by apply (woken_same f x y).
Qed.

Lemma sum_spawn f : f (Worker W_lock) = 0 -> sumZ f (e_spawn e) = 0.
Proof.
  intros Hf. destruct (step_spawn _ _ _ _ Hs) as [[-> _]|(i & _ & _ & _ & -> & _)];
    simpl; lia.
Qed.

Lemma sum_awake_after :
  sumZ awake (threads c) - awake n + awake (e_pc e) <= sumZ awake (threads after).
Proof.
  simpl. rewrite sumZ_app, <-(sumZ_insert awake _ t n (e_pc e) Ht).
  assert (0 <= sumZ awake (e_spawn e)) by
    (destruct (step_spawn _ _ _ _ Hs) as [[-> _]|(i & _ & _ & _ & -> & _)]; simpl; lia).
  assert (sumZ awake (<[t := e_pc e]> (threads c)) <= sumZ awake ts); [|lia].
  apply sumZ_Forall2_le. eapply Forall2_impl; [|by eapply do_wake_woken].
  intros x y [->|[cv ->]]; [done|apply wake_awake].
Qed.

Lemma lookup_after t' n' :
  threads after !! t' = Some n' ->
  (t' = length (threads c) /\ n' = Worker W_lock /\ e_spawn e = [Worker W_lock]) \/
  exists n0, woken n0 n' /\
    (t' = t /\ n0 = e_pc e \/ t' <> t /\ threads c !! t' = Some n0).
Proof.
  simpl. intros H. pose proof (do_wake_woken _ _ _ _ Hw) as HF.
  pose proof (Forall2_length HF) as HL. rewrite length_insert in HL.
  apply lookup_app_Some in H as [H|[Hge H]].
  - right. destruct (Forall2_lookup_r _ _ _ _ _ HF H) as (n0 & H0 & Hn). exists n0.
    split; [done|]. destruct (decide (t' = t)) as [->|Hne].
    + left. rewrite list_lookup_insert_eq in H0 by (by eapply lookup_lt_Some). by simplify_eq.
    + right. by rewrite list_lookup_insert_ne in H0.
  - left. destruct (step_spawn _ _ _ _ Hs) as [[He _]|(i & _ & _ & _ & He & _)];
      rewrite He in H; [done|]. rewrite He. rewrite <-HL in *.
    apply list_lookup_singleton_Some in H as [H ->]. split; [lia|done].
Qed.

Lemma lookup_before t' n0 :
  t' <> t -> threads c !! t' = Some n0 ->
  exists n', woken n0 n' /\ threads after !! t' = Some n'.
Proof.
  intros Hne H. pose proof (do_wake_woken _ _ _ _ Hw) as HF.
  rewrite <-(list_lookup_insert_ne _ _ _ (e_pc e) (not_eq_sym Hne)) in H.
  destruct (Forall2_lookup_l _ _ _ _ _ HF H) as (n' & H' & Hn).
  exists n'. split; [done|]. by apply lookup_app_l_Some.
Qed.

Lemma exited_after t' : is_exited (threads c) t' = true -> is_exited (threads after) t' = true.
Proof.
  unfold is_exited at 1. intros H. repeat case_match; try done. subst.
  destruct (decide (t' = t)) as [->|Hne].
  - rewrite Ht in *. by simplify_eq.
  - destruct (lookup_before t' _ Hne ltac:(done)) as (n' & Hn & H').
    apply woken_exited in Hn. unfold is_exited. rewrite H'.
    rewrite (proj1 Hn eq_refl). done.
Qed.

Lemma is_worker_after :
  sumZ is_worker (threads after) = sumZ is_worker (threads c) + sumZ is_worker (e_spawn e).
Proof.
  rewrite (sum_after is_worker wake_is_worker), (step_worker _ _ _ _ Hs). lia.
Qed.

Lemma is_worker_mono : sumZ is_worker (threads c) <= sumZ is_worker (threads after).
Proof.
  rewrite is_worker_after.
  pose proof (sumZ_nonneg is_worker (e_spawn e) ltac:(intros []; simpl; lia)). lia.
Qed.

(** Another thread's assertion survives the step. *)
Lemma other_asserts t' n' :
  t' <> t -> threads c !! t' = Some n' -> asserts c n' -> asserts after n'.
Proof.
  intros Hne H' Ha.
  pose proof (step_flags _ _ _ _ Hs) as [Hsd Hcl].
  pose proof (step_constants _ _ _ _ Hs) as (Hcap & Hnw & _ & _).
  pose proof is_worker_mono as Hwm. pose proof exited_after as Hex.
  assert (Hown : is_owner n' = true ->
    published after = published c /\ workers (pool after) = workers (pool c)).
  { intros Ho. assert (Hn : is_owner n = false).
    { destruct (is_owner n) eqn:Hn; [|done]. destruct Hne.
      by rewrite (inv_owner c I _ _ H' Ho), (inv_owner c I _ _ Ht Hn). }
    clear - Hs Hn. simpl. destruct n; step_cases Hs; try done; by destruct (published c). }
  assert (Hfr : holds n' = 1 ->
    queue (e_pool e) = queue (pool c) /\ nentries (e_pool e) = nentries (pool c) /\
    shutting_down (e_pool e) = shutting_down (pool c) /\
    queue_closed (e_pool e) = queue_closed (pool c) /\
    (1 <= sumZ awake (threads c) -> 1 <= sumZ awake (threads after))).
  { intros Hh. pose proof (inv_lock c I) as HL.
    pose proof (sumZ_two holds _ _ _ _ _ (fun x => proj1 (holds_01 x)) Ht H' (not_eq_sym Hne)).
    pose proof (holds_01 n).
    destruct (step_frame _ _ _ _ Hs) as (-> & -> & -> & -> & Haw);
      [destruct (queue_lock (pool c)); simpl in *; lia
      |destruct (queue_lock (pool c)); simpl in *; [done|lia]|].
    pose proof sum_awake_after. repeat split; auto. lia. }
  destruct n' as [[]|i| | |o j []|f []]; try done; simpl in *;
    unfold joined, opened, lt_cap, slot_waits, none_free in *; simpl in *;
    try (destruct (Hfr eq_refl) as (Eq & En & Es & Ec & Ea); rewrite ?Eq, ?En, ?Es, ?Ec);
    try (destruct (Hown eq_refl) as [Ep Ew]); rewrite ?Hnw, ?Hcap; try (by auto);
    rewrite ?Ep, ?Ew; try (destruct Ha as [-> Ha]; simpl); try (by auto);
    intuition eauto; lia.
Qed.

(** The worker signalled for a job is awake when the job is counted. *)
Lemma signal_after o j : n = Add o j A_signal -> 1 <= sumZ awake (threads after).
Proof.
  intros Hn. pose proof step_local as L. pose proof sum_awake_after as Hge.
  assert (Hrest : 1 <= sumZ awake (threads c) -> 1 <= sumZ awake (threads after)).
  { intros H. clear - Hge H Hs Hn. rewrite Hn in *. unfold pc_step, threadpool_add_work in Hs.
    destruct (queue_empty _); unfold go_wake, go in Hs; injection Hs as <-;
      simpl in *; lia. }
  destruct (decide (nentries (pool c) = 0)) as [Hz|Hz].
  2: { apply Hrest, (inv_awake c I). pose proof (inv_range c I). lia. }
  pose proof (l_asserts _ _ L) as La. rewrite Hn in La. destruct La as (Hp & [Hsd _] & _).
  assert (Hwk : e_wake e = Signal queue_not_empty /\ e_spawn e = [] /\ e_pc e = Add o j A_inc).
  { clear - Hs Hn Hz. rewrite Hn in Hs. unfold pc_step, threadpool_add_work, queue_empty in Hs.
    rewrite (proj2 (Z.eqb_eq _ _) Hz) in Hs. unfold go_wake in Hs. by injection Hs as <-. }
  destruct Hwk as (Hwk & Hsp & Hpc). simpl. rewrite Hsp, app_nil_r.
  pose proof Hw as Hw'. rewrite Hwk in Hw'. apply (signal_wakes _ _ _ Hw').
  - rewrite (sumZ_insert _ _ _ n) by done. rewrite Hn, Hpc. simpl.
    pose proof (inv_published c I Hp). lia.
  - intros t' Hx. destruct (decide (t' = t)) as [->|Hne].
    + rewrite list_lookup_insert_eq in Hx by (by eapply lookup_lt_Some). congruence.
    + rewrite list_lookup_insert_ne in Hx by done.
      apply (inv_asserts c I) in Hx. simpl in Hx. congruence.
Qed.

Lemma after_asserts t' n' : threads after !! t' = Some n' -> asserts after n'.
Proof.
  intros H. destruct (lookup_after _ _ H) as [(_ & -> & _)|(n0 & Hn & Hc)]; [done|].
  rewrite (woken_same (asserts after) n0 n' (fun cv => wake_asserts _ cv _) Hn).
  destruct Hc as [[-> ->]|[Hne Ht']].
  - destruct (inv_workers_len c I). eapply own_asserts; [done|apply step_local|done|done|done|done| | |].
    + apply signal_after.
    + apply is_worker_after.
    + apply exited_after.
  - eapply other_asserts; [done..|]. by eapply inv_asserts.
Qed.

Lemma after_lookup_worker t' w' :
  threads after !! t' = Some (Worker w') ->
  (t' = length (threads c) /\ e_spawn e = [Worker W_lock]) \/
  exists w, threads c !! t' = Some (Worker w).
Proof.
  intros H. destruct (lookup_after _ _ H) as [(-> & _ & Hsp)|(n0 & Hn & Hc)]; [by left|right].
  assert (H0 : is_worker n0 = 1) by (by rewrite <-(woken_same is_worker _ _ (fun cv => wake_is_worker cv _) Hn)).
  destruct Hc as [[-> ->]|[Hne Ht']].
  - rewrite (step_worker _ _ _ _ Hs) in H0. rewrite Ht. destruct n; naive_solver.
  - rewrite Ht'. destruct n0; naive_solver.
Qed.

Lemma after_ids t' w' :
  threads after !! t' = Some (Worker w') ->
  exists k, workers (pool after) !! k = Some (Some t').
Proof.
  intros H. simpl. destruct (step_spawn _ _ _ _ Hs) as [[Hsp ->]|(i & Hn & Hi & _ & Hsp & ->)].
  - destruct (after_lookup_worker _ _ H) as [[_ Hsp']|[w H0]]; [congruence|].
    by eapply inv_ids.
  - destruct (inv_workers_len c I) as [Hlen _].
    destruct (after_lookup_worker _ _ H) as [[-> _]|[w H0]].
    + exists i. by rewrite list_lookup_insert_eq by lia.
    + destruct (inv_ids c I _ _ H0) as [k Hk]. exists k. rewrite list_lookup_insert_ne; [done|].
      intros <-. pose proof (inv_asserts c I _ _ Ht) as Ha. rewrite Hn in Ha.
      destruct Ha as (_ & _ & _ & Ha). rewrite Ha in Hk by lia. done.
Qed.

Lemma after_freed t' w' :
  freed after = true -> threads after !! t' = Some (Worker w') -> w' = W_exited.
Proof.
  intros Hf H. simpl in Hf.
  assert (Hall : forall u w, threads c !! u = Some (Worker w) -> w = W_exited).
  { intros u w Hu. destruct (freed c) eqn:Hc; [by eapply inv_freed|]. simpl in Hf.
    assert (exists f, n = Destroy f D_free) as [f Hn].
    { clear - Hs Hf. destruct n; step_cases Hs; try done. by eexists. }
    pose proof (inv_asserts c I _ _ Ht) as Ha. rewrite Hn in Ha. destruct Ha as [_ Hj].
    destruct (inv_ids c I _ _ Hu) as [k Hk]. specialize (Hj k u). unfold is_exited in Hj.
    rewrite Hu in Hj. destruct (inv_workers_len c I) as [Hlen _].
    apply lookup_lt_Some in Hk as Hlt. destruct w; naive_solver lia. }
  destruct (after_lookup_worker _ _ H) as [[_ Hsp]|[w H0]].
  - destruct (step_spawn _ _ _ _ Hs) as [[Hsp' _]|(i & Hn & _ & Hpc & _)]; [congruence|].
    clear - Hs Hf Hn Hfree. rewrite Hn in *. simpl in *. rewrite andb_true_r in Hfree.
    rewrite Hfree in Hf. simpl in Hf. step_cases Hs; done.
  - rewrite (Hall _ _ H0) in H0. pose proof (exited_after t') as Hx. unfold is_exited in Hx.
    rewrite H0, H in Hx. specialize (Hx eq_refl). by destruct w'.
Qed.

Lemma sum_moved (m : nat -> pc -> Z) i :
  (forall cv n, m i (wake_pc cv n) = m i n) -> m i (Worker W_lock) = 0 ->
  sumZ (m i) (threads after) = moved m n (e_pc e) (fun i => sumZ (m i) (threads c)) i.
Proof. intros H1 H2. rewrite (sum_after _ H1), (sum_spawn _ H2). unfold moved. lia. Qed.

Lemma after_jobs j :
  count_job j (added after) = sumZ (settles j) (log after) + pending j after.
Proof.
  pose proof (step_jobs _ _ _ _ j _ Hs step_local (fun i => eq_refl)) as H.
  pose proof (inv_jobs c I j) as Hj. unfold pending, count_job in *. simpl in *.
  rewrite !sumZ_app.
  rewrite (weigh_same _ _ (moved (fun i n => prestart i n - filling i n) n (e_pc e)
    (fun i => sumZ (prestart i) (threads c) - sumZ (filling i) (threads c)))); [lia|].
  intros i. pose proof (sum_moved prestart i (wake_prestart i) eq_refl) as E1.
  pose proof (sum_moved filling i (wake_filling i) eq_refl) as E2.
  simpl in E1, E2. rewrite E1, E2. unfold moved. lia.
Qed.

Lemma after_inits j :
  initfn j <> 0 ->
  sumZ (init_ok j) (log after) = sumZ (worked j) (log after) + in_work j after.
Proof.
  intros Hz. pose proof (step_inits _ _ _ _ j _ Hs step_local Hz (fun i => eq_refl)) as H.
  pose proof (inv_inits c I j Hz) as Hj. unfold in_work in *. simpl in *. rewrite !sumZ_app.
  erewrite weigh_same; [|intros i; symmetry; exact (sum_moved at_work i (wake_at_work i) eq_refl)].
  lia.
Qed.

Lemma after_cleanups j :
  cleanupfn j <> 0 ->
  sumZ (worked j) (log after) = sumZ (cleaned j) (log after) + in_cleanup j after.
Proof.
  intros Hz. pose proof (step_cleanups _ _ _ _ j _ Hs step_local Hz (fun i => eq_refl)) as H.
  pose proof (inv_cleanups c I j Hz) as Hj. unfold in_cleanup in *. simpl in *.
  rewrite !sumZ_app.
  erewrite weigh_same;
    [|intros i; symmetry; exact (sum_moved at_cleanup i (wake_at_cleanup i) eq_refl)].
  lia.
Qed.

Lemma after_awake : 0 < nentries (pool after) -> 1 <= sumZ awake (threads after).
Proof.
  intros H. destruct (step_awake _ _ _ _ Hs step_local H) as [Hle Hor].
  pose proof sum_awake_after. pose proof (inv_awake c I). lia.
Qed.

Lemma after_added :
  published after = true ->
  sum_work_added (pool after) = u64 (zlen (added after) - sumZ uncounted (threads after)).
Proof.
  intros Hp. rewrite (sum_after _ wake_uncounted), (sum_spawn uncounted eq_refl). simpl.
  rewrite zlen_app. simpl in Hp. destruct (step_added _ _ _ _ Hs) as [Hn|[Hpub Hst]].
  - pose proof (inv_asserts c I _ _ Ht) as Ha. rewrite Hn in Ha. destruct Ha as [Hunp _].
    rewrite (inv_unpublished c I Hunp). rewrite (sumZ_all_zero uncounted).
    + clear - Hn Hs. rewrite Hn in *. simpl in Hs. injection Hs as <-. done.
    + intros i x Hx. apply (inv_asserts c I) in Hx. destruct x; try done.
      destruct Hx as [Hx _]. congruence.
  - rewrite <-Hpub in Hp.
    rewrite (Hst (zlen (added c) - sumZ uncounted (threads c) + uncounted n)).
    + f_equal. lia.
    + rewrite (inv_added c I Hp). f_equal. lia.
Qed.

Lemma after_published : published after = true -> 1 <= sumZ is_worker (threads after).
Proof.
  intros H. pose proof is_worker_mono. destruct (published c) eqn:Hp.
  - pose proof (inv_published c I Hp). lia.
  - assert (n = New_counters) as Hn.
    { simpl in H. rewrite Hp in H. clear - H Hs. destruct n; step_cases Hs; done. }
    pose proof (inv_asserts c I _ _ Ht) as Ha. rewrite Hn in Ha. destruct Ha. lia.
Qed.

Lemma after_unpublished : published after = false -> added after = [].
Proof.
  simpl. intros H. apply orb_false_iff in H as [Hp _].
  rewrite (inv_unpublished c I Hp). pose proof (inv_asserts c I _ _ Ht) as Ha.
  clear - Hs Ha Hp. destruct n; step_cases Hs; try done.
  destruct Ha as [Ha _]. congruence.
Qed.

Lemma after_owner t' n' : threads after !! t' = Some n' -> is_owner n' = true -> t' = 0%nat.
Proof.
  intros H Ho. destruct (lookup_after _ _ H) as [(_ & -> & _)|(n0 & Hn & Hc)]; [done|].
  rewrite (woken_same is_owner _ _ (fun cv => wake_is_owner cv _) Hn) in Ho.
  destruct Hc as [[-> ->]|[_ Hc]]; [|by eapply inv_owner].
  rewrite (step_owner _ _ _ _ Hs) in Ho. by eapply inv_owner.
Qed.

Lemma inv_after : inv after.
Proof.
  pose proof step_local as L. pose proof (step_constants _ _ _ _ Hs) as (K1 & K2 & K3 & K4).
  destruct (inv_cap c I) as [Hcap Hmax]. destruct (inv_workers_len c I) as [Hwl Hw1].
  split.
  - simpl. unfold zlen in *. by rewrite K1, K3.
  - simpl. by rewrite K2, K4.
  - rewrite (sum_after _ wake_holds), (sum_spawn holds eq_refl). simpl.
    pose proof (inv_lock c I) as HL. pose proof (sumZ_elem _ _ _ _ (fun x => proj1 (holds_01 x)) Ht).
    pose proof (step_lock _ _ _ _ Hs). destruct (queue_lock (pool c)); simpl in *; lia.
  - intros i. rewrite (sum_after _ (wake_owns i)), (sum_spawn (owns i) eq_refl). simpl.
    pose proof (step_run _ _ _ _ i Hs L). pose proof (inv_run c I i). lia.
  - rewrite (sum_after _ wake_adj), (sum_spawn adj eq_refl). simpl.
    pose proof (step_count _ _ _ _ Hs L). pose proof (inv_count c I). lia.
  - simpl. rewrite K1. by eapply step_range.
  - simpl. eapply step_shut; [done|done|]. apply I.
  - apply after_awake.
  - apply after_owner.
  - apply after_published.
  - apply after_unpublished.
  - apply after_ids.
  - intros Hf t' w. by apply after_freed.
  - apply after_asserts.
  - apply after_added.
  - apply after_jobs.
  - apply after_inits.
  - apply after_cleanups.
Qed.

End Step.

Lemma exec_preserves t cx c c' : inv c -> exec t cx c = Next c' -> inv c'.
Proof.
  intros I H. destruct (exec_inv _ _ _ _ H) as (n & e & ts & Ht & Hf & Hs & Hw & ->).
  by eapply (inv_after t cx c n e ts).
Qed.

(** * The initial state *)

Lemma initial_inv nw cap block np :
  (1 <= nw)%nat -> Z.of_nat cap < 2 ^ 64 -> inv (initial (new_pool nw cap block) np).
Proof.
  intros Hnw Hcap.
  assert (Hz : forall f, f (New_create 0) = 0 -> f (Idle false None) = 0 ->
    sumZ f (New_create 0 :: replicate np (Idle false None)) = 0).
  { intros f H1 H2. apply sumZ_all_zero. intros [|i] x Hx; simplify_eq/=; [done|].
    apply lookup_replicate in Hx as [-> _]. done. }
  assert (Hq : forall i w, replicate cap (Work SLOT_UNUSED (Job 0 0 0 0 0 0)) !! i = Some w ->
    state w = SLOT_UNUSED) by (intros i w Hw; by apply lookup_replicate in Hw as [-> _]).
  assert (Hweigh : forall j b S, (forall i, S i = 0) -> (forall w, state w = SLOT_UNUSED -> b w = 0) ->
    weigh j b S (replicate cap (Work SLOT_UNUSED (Job 0 0 0 0 0 0))) = 0).
  { intros j b S HS Hb. apply sumI_zero. intros i w Hw. rewrite HS, (Hb w) by eauto. lia. }
  assert (Hno : forall t w, (New_create 0 :: replicate np (Idle false None)) !! t <> Some (Worker w)).
  { intros [|t] w Hw; simplify_eq/=. by apply lookup_replicate in Hw as [? _]. }
  unfold initial, new_pool.
  split; cbn [pool threads published freed added log nworkers workers capacity nentries
    queue queue_lock shutting_down queue_closed sum_work_added]; try done.
  - split; [by rewrite zlen_replicate|done].
  - by rewrite length_replicate.
  - by apply Hz.
  - intros i. rewrite Hz by done. unfold running_at. case_match eqn:E; [|done].
    by rewrite (Hq _ _ E).
  - rewrite Hz by done. symmetry. apply sumZ_all_zero. intros i w Hw. unfold busy.
    by rewrite (Hq _ _ Hw).
  - lia.
  - intros [|t] n Hn Ho; [done|]. simplify_eq/=. by apply lookup_replicate in Hn as [-> _].
  - intros t w Hw. by destruct (Hno t w).
  - intros [|t] n Hn; [injection Hn as <-|by apply lookup_replicate in Hn as [-> _]].
    split; [done|]. split; [apply Nat.le_0_l|]. split; [cbn [threads]; by rewrite Hz|].
    intros k Hk. apply lookup_replicate. split; [done|apply Hk].
  - intros j. unfold pending. rewrite Hweigh; [done| |].
    + intros i. cbn [threads]. by rewrite !Hz.
    + intros w Hw. unfold waiting. by rewrite Hw.
  - intros j _. unfold in_work. rewrite Hweigh; [done| |done]. intros i. by rewrite Hz.
  - intros j _. unfold in_cleanup. rewrite Hweigh; [done| |done]. intros i. by rewrite Hz.
Qed.

Lemma reachable_inv c0 c : inv c0 -> reachable c0 c -> inv c.
Proof. intros I. induction 1; [done|]. by eapply exec_preserves. Qed.

Lemma reachable_app c0 c1 c2 : reachable c0 c1 -> reachable c1 c2 -> reachable c0 c2.
Proof. intros H. induction 1; [done|]. by eapply reachable_step. Qed.

Lemma run_reachable s c c' : run s c = Next c' -> reachable c c'.
Proof.
  revert c. induction s as [|[t cx] s IH]; simpl; intros c H.
  - injection H as <-. constructor.
  - destruct (exec t cx c) as [c1| |] eqn:E; try done.
    eapply reachable_app; [|by apply IH]. eapply reachable_step; [constructor|done].
Qed.

(** * Consequences of the invariant *)

Lemma busy_filter q :
  sumZ busy q = zlen (filter (fun w => state w <> SLOT_UNUSED) q).
Proof.
  induction q as [|w q IH]; [done|]. rewrite filter_cons. simpl. rewrite IH. unfold busy.
  case_decide; case_bool_decide; try done; rewrite ?zlen_cons; simpl; lia.
Qed.

Lemma no_crash t cx c f :
  inv c -> exec t cx c = Crash f -> freed c = true \/ exists j, cx = Call_add j /\ workfn j = 0.
Proof.
  intros I. unfold exec. destruct (threads c !! t) as [n|] eqn:Ht; [|done].
  destruct (freed c && active n)%bool eqn:Hf; [apply andb_true_iff in Hf as [? _]; by left|].
  pose proof (inv_local _ _ _ I Ht) as L. destruct (inv_workers_len c I) as [Hwl _].
  destruct (pc_step cx c n) as [e| |g] eqn:Hs; [by case_match|done|]. intros _.
  assert (Hq : forall i, Z.of_nat i < capacity (pool c) -> queue (pool c) !! i <> None).
  { intros i Hi Hn. apply lookup_ge_None in Hn. destruct (l_cap _ _ L) as [Hc _].
    unfold zlen in Hc. lia. }
  destruct n; revert Hs; unfold pc_step, threadpool_exec_thread, threadpool_add_work,
    threadpool_destroy, threadpool_new_threads, user_call, acquire, sleep, tested, with_slot,
    go, go_wake, go_log; repeat case_match; intros; simplify_eq; zreflect.
  all: try (exfalso; by eapply Hq).
  all: try (destruct (owns_running _ _ _ L eq_refl) as (? & ? & ?); congruence).
  all: local_facts L; try (right; by eexists).
  all: exfalso; rewrite Nat.ltb_lt in *;
    match goal with H : workers _ !! _ = None |- _ => apply lookup_ge_None in H end; lia.
Qed.

Lemma pending_nonneg c j : inv c -> 0 <= pending j c.
Proof.
  intros I. unfold pending, weigh.
  assert (Hw : forall i w, queue (pool c) !! i = Some w ->
    0 <= waiting w + (sumZ (prestart i) (threads c) - sumZ (filling i) (threads c))).
  { intros i w Hi.
    pose proof (sumZ_nonneg (prestart i) (threads c) (fun x => proj1 (proj1 (part_of_owns i x)))).
    assert (0 <= waiting w) by (unfold waiting; case_bool_decide; simpl; lia).
    assert (Hf : forall x, filling i x <= holds x)
      by (intros x; destruct x as [[]| | | |? ? []|? []]; simpl; try case_bool_decide; simpl; lia).
    pose proof (sumZ_le _ _ (threads c) Hf) as Hle. rewrite (inv_lock c I) in Hle.
    destruct (Z.leb_spec (sumZ (filling i) (threads c)) 0) as [|Hpos]; [lia|].
    destruct (sumZ_pos _ _ Hpos) as (t & n & Ht & Hn).
    destruct n as [[]| | | |o k []|? []]; simpl in Hn; try lia. case_bool_decide; [subst|simpl in Hn; lia].
    destruct (inv_asserts c I _ _ Ht) as (_ & _ & _ & x & Hx & Hs). simplify_eq.
    unfold waiting. rewrite Hs. destruct (queue_lock (pool c)); simpl in *; lia. }
  apply sumI_nonneg. intros i w Hi. specialize (Hw i w Hi).
  unfold is_job. case_bool_decide; simpl; lia.
Qed.

(** The weights of the jobs being worked on or cleaned up are sums of program
    counters. *)
Lemma weigh_nonneg j (S : nat -> Z) q : (forall i, 0 <= S i) -> 0 <= weigh j (fun _ => 0) S q.
Proof.
  intros HS. apply sumI_nonneg. intros i w _. specialize (HS i).
  unfold is_job. case_bool_decide; simpl; lia.
Qed.

(** When no slot is used and no worker has one, nothing is pending. *)
Lemma weigh_idle j b (S : nat -> Z) q :
  (forall i, S i = 0) -> (forall i w, q !! i = Some w -> b w = 0) -> weigh j b S q = 0.
Proof. intros HS Hb. apply sumI_zero. intros i w Hw. rewrite HS, (Hb i w Hw). lia. Qed.

Fixpoint settled (l : list event) : list job :=
  match l with
  | [] => []
  | (Called_work k | Called_init k failure) :: l' => k :: settled l'
  | _ :: l' => settled l'
  end.

Lemma count_settled j l : count_job j (settled l) = sumZ (settles j) l.
Proof.
  unfold count_job. induction l as [|[k []|k|k] l IH]; simpl in *; lia.
Qed.

Lemma count_job_perm (l k : list job) :
  (forall j, count_job j l = count_job j k) -> l ≡ₚ k.
Proof.
  intros H. apply (Permutation_count_occ job_eq_dec). intros j. specialize (H j).
  assert (Hc : forall m, count_job j m = Z.of_nat (count_occ job_eq_dec m j)).
  { unfold count_job. induction m as [|x m IH]; [done|]. simpl.
    destruct (job_eq_dec x j); case_bool_decide; try done; rewrite IH; simpl; lia. }
  rewrite !Hc in H. lia.
Qed.
