(* ===== verification/ThreadpoolProps.v ===== *)
(** ThreadpoolProps: what the thread pool guarantees.

    Mutual exclusion and a queue that is counted right; every stored job run
    exactly once, with its [initfn] before and its [cleanupfn] after it; a
    destruction that returns with all work done and all workers gone; progress
    while there is work; the outcomes of the allocation in [threadpool_new].
    The last two theorems are schedules that show where the code falls short. *)

From Stdlib Require Import ZArith Lia.
From stdpp Require Import base list numbers.
From S2P Require Import Prelude Threadpool ThreadpoolInv ThreadpoolSteps ThreadpoolSafe.

(** Every state a pool of [nw] workers and [cap] slots with [np] producers can
    reach. *)
Definition states (nw cap : nat) (block : bool) (np : nat) (c : config) : Prop :=
  (1 <= nw)%nat /\ Z.of_nat cap < 2 ^ 64 /\ reachable (initial (new_pool nw cap block) np) c.

Lemma states_inv nw cap block np c : states nw cap block np c -> inv c.
Proof. intros (H1 & H2 & H). eapply reachable_inv; [by apply initial_inv|done]. Qed.

(** ** Progress *)

Definition leaked (n : pc) : bool :=
  match n with
  | Add _ _ A_leaked | Destroy _ D_leaked => true
  | _ => false
  end.

(** The choices in which nothing fails and nobody wakes spuriously. *)
Definition plain (cx : choice) : bool :=
  match cx with
  | Err | Spurious => false
  | _ => true
  end.

(** A choice that lets a signal find its waiter. *)
Lemma do_wake_total wk ts :
  exists cx ts', (cx = Go \/ exists t, cx = Pick t) /\ do_wake wk cx ts = Some ts'.
Proof.
  destruct wk as [|cv|cv]; [exists Go; eauto| |exists Go; eauto]. simpl.
  destruct (existsb _ ts) eqn:He; [|exists Go; eauto].
  apply existsb_exists in He as (n & Hin & Hn). apply bool_decide_eq_true in Hn.
  apply list_elem_of_In, list_elem_of_lookup in Hin as [t Ht].
  exists (Pick t), (<[t := wake_pc cv n]> ts). split; [by eauto|].
  rewrite Ht. simpl. by rewrite decide_True.
Qed.

(** A thread that holds the mutex is not blocked in its next step. *)
Lemma holder_steps c t n :
  inv c -> threads c !! t = Some n -> freed c = false -> holds n = 1 -> leaked n = false ->
  forall cx, cx = Go \/ (exists u, cx = Pick u) -> pc_step cx c n = pc_step Go c n /\
    exists e, pc_step Go c n = Next e.
Proof.
  intros I Ht Hf Hh Hl cx Hcx.
  assert (Hnc : forall f, pc_step Go c n <> Crash f).
  { intros f Hc. destruct (no_crash t Go c f I) as [?|(j & ? & _)]; [|congruence|done].
    unfold exec. rewrite Ht, Hf. simpl. by rewrite Hc. }
  split; [by destruct Hcx as [->|[u ->]], n as [[]| | | |? ? []|? []]|].
  destruct (pc_step Go c n) as [e| |f] eqn:Hs; [by eauto| |by destruct (Hnc f)].
  exfalso. clear Hnc. destruct n as [[]| | | |? ? []|? []]; try done; revert Hs;
    unfold pc_step, threadpool_exec_thread, threadpool_add_work, threadpool_destroy,
      acquire, sleep, tested, with_slot, go, go_wake, go_log; repeat case_match; done.
Qed.

(** With the mutex free, so is a worker that is awake. *)
Lemma awake_steps c t n :
  inv c -> threads c !! t = Some n -> freed c = false -> awake n = 1 ->
  queue_lock (pool c) = false ->
  exists cx e, plain cx = true /\ pc_step cx c n = Next e /\ e_wake e = Quiet.
Proof.
  intros I Ht Hf Ha Hl. pose proof (inv_local _ _ _ I Ht) as L.
  assert (Hh : holds n = 0).
  { pose proof (sumZ_elem _ _ _ _ (fun x => proj1 (holds_01 x)) Ht) as H.
    rewrite (inv_lock c I), Hl in H. pose proof (holds_01 n). simpl in H. lia. }
  destruct n as [w| | | |? ? []|? []]; try done.
  destruct w; try done;
    try (exists Go; eexists; split; [done|]; unfold pc_step, threadpool_exec_thread, acquire;
         rewrite ?Hl; done).
  all: destruct (owns_running _ _ _ L eq_refl) as (x & Hx & _);
    exists (Init_returns success); unfold pc_step, threadpool_exec_thread, with_slot; rewrite Hx;
    unfold go, go_log; repeat case_match; eauto.
Qed.

Lemma exec_step t cx c n e ts :
  threads c !! t = Some n -> freed c = false -> pc_step cx c n = Next e ->
  do_wake (e_wake e) cx (<[t := e_pc e]> (threads c)) = Some ts ->
  exists c', exec t cx c = Next c'.
Proof. intros Ht Hf Hs Hw. unfold exec. rewrite Ht, Hf, Hs, Hw. simpl. eauto. Qed.

(** C28. While the queue holds work, and as long as no call has returned with
    the mutex locked, the system can step without a failing call or a spurious
    wake-up, and it is a worker or the thread that holds the mutex that can:
    no wake-up is lost that would stop the pool. *)
Theorem threadpool_progress nw cap block np c :
  states nw cap block np c -> 0 < nentries (pool c) ->
  (forall t n, threads c !! t = Some n -> leaked n = false) ->
  exists t n cx c', threads c !! t = Some n /\ (holds n = 1 \/ is_worker n = 1) /\
    plain cx = true /\ exec t cx c = Next c'.
Proof.
  intros Hst Hn Hl. pose proof (states_inv _ _ _ _ _ Hst) as I.
  destruct (sumZ_pos awake (threads c)) as (t & n & Ht & Ha); [pose proof (inv_awake c I Hn); lia|].
  assert (Hf : freed c = false).
  { apply not_true_iff_false. intros Hf. destruct n as [w| | | | |]; simpl in Ha; try lia.
    pose proof (inv_freed c I Hf t w Ht). subst. simpl in Ha. lia. }
  assert (Ha1 : awake n = 1 /\ is_worker n = 1)
    by (destruct n as [[]| | | | |]; simpl in *; lia).
  destruct (queue_lock (pool c)) eqn:Hlk.
  - destruct (sumZ_pos holds (threads c)) as (u & m & Hu & Hm);
      [rewrite (inv_lock c I), Hlk; simpl; lia|].
    assert (Hm1 : holds m = 1) by (pose proof (holds_01 m); lia).
    pose proof (holder_steps c u m I Hu Hf Hm1 (Hl _ _ Hu)) as Hall.
    destruct (Hall Go ltac:(by left)) as [_ [e He]].
    destruct (do_wake_total (e_wake e) (<[u := e_pc e]> (threads c))) as (cx & ts & Hcx & Hw).
    destruct (Hall cx Hcx) as [Heq _]. rewrite He in Heq.
    destruct (exec_step _ _ _ _ _ _ Hu Hf Heq Hw) as [c' Hc']. exists u, m, cx, c'.
    repeat split; auto. by destruct Hcx as [->|[? ->]].
  - destruct (awake_steps c t n I Ht Hf (proj1 Ha1) Hlk) as (cx & e & Hp & Hs & Hq).
    destruct (exec_step t cx c n e (<[t := e_pc e]> (threads c))) as [c' Hc']; try done.
    { by rewrite Hq. }
    exists t, n, cx, c'. split; [done|]. split; [right; apply Ha1|done].
Qed.

(** ** Mutual exclusion and the queue *)


(** ** Jobs *)

(** C9. In every state a pool can reach, for every job: the number of times it
    was stored is the number of times it was settled (its [workfn] was called,
    or its [initfn] refused) plus the number of times it is still in the queue
    or with a worker that has not called its [workfn] yet.  So a job is never
    lost and never run twice; with an [initfn], [workfn] is called only after
    an [initfn] that succeeded; with a [cleanupfn], it is called at most once
    per call of [workfn], after it, and exactly once when no worker is between
    the two. *)
Theorem threadpool_exactly_once nw cap block np c j :
  states nw cap block np c ->
  count_job j (added c) = sumZ (settles j) (log c) + pending j c /\
  0 <= pending j c /\
  (initfn j <> 0 ->
     sumZ (init_ok j) (log c) = sumZ (worked j) (log c) + in_work j c /\ 0 <= in_work j c) /\
  (cleanupfn j <> 0 ->
     sumZ (worked j) (log c) = sumZ (cleaned j) (log c) + in_cleanup j c /\
     0 <= in_cleanup j c /\
     ((forall t n i, threads c !! t = Some n -> at_cleanup i n = 0) -> in_cleanup j c = 0)).
Proof.
  intros Hst. pose proof (states_inv _ _ _ _ _ Hst) as I.
  split; [by apply I|]. split; [by apply pending_nonneg|]. split; intros Hz.
  - split; [by apply I|]. apply weigh_nonneg. intros i. apply sumZ_nonneg.
    intros x. apply part_of_owns.
  - split; [by apply I|]. split.
    + apply weigh_nonneg. intros i. apply sumZ_nonneg. intros x. apply part_of_owns.
    + intros H. apply weigh_idle; [|done]. intros i. apply sumZ_all_zero. eauto.
Qed.

(** C29. When [threadpool_destroy] returns success, with [finish] or without:
    every worker has returned, no slot is in use, the pool is closed, and the
    jobs that were settled are, as a multiset, the jobs that were ever stored.
    Each [workfn] that was called had its [cleanupfn] called. *)
Theorem threadpool_destroy_complete nw cap block np c finish :
  states nw cap block np c -> threads c !! 0%nat = Some (Destroy finish D_done) ->
  (forall t w, threads c !! t = Some (Worker w) -> w = W_exited) /\
  (forall i w, queue (pool c) !! i = Some w -> state w = SLOT_UNUSED) /\
  shutting_down (pool c) = true /\ nentries (pool c) = 0 /\
  settled (log c) ≡ₚ added c /\
  (forall j, cleanupfn j <> 0 -> sumZ (worked j) (log c) = sumZ (cleaned j) (log c)).
Proof.
  intros Hst Hd. pose proof (states_inv _ _ _ _ _ Hst) as I.
  destruct (inv_asserts c I _ _ Hd) as [Hsd Hj].
  destruct (inv_shut c I Hsd) as [Hn _].
  assert (Hex : forall t w, threads c !! t = Some (Worker w) -> w = W_exited).
  { intros t w Ht. destruct (inv_ids c I _ _ Ht) as [k Hk].
    destruct (inv_workers_len c I) as [Hlen _]. apply lookup_lt_Some in Hk as Hlt.
    specialize (Hj k t ltac:(lia) Hk). unfold is_exited in Hj. rewrite Ht in Hj.
    by destruct w. }
  assert (Hno : forall (m : pc -> Z), (forall w, m (Worker w) <> 0 -> w <> W_exited) ->
    (forall n, m n <> 0 -> adj n <> 0 \/ is_worker n = 1) -> sumZ m (threads c) = 0).
  { intros m H1 H2. apply sumZ_all_zero. intros t n Ht.
    destruct (decide (m n = 0)) as [|Hm]; [done|]. exfalso.
    destruct n as [w| | | |o j a|f d]; try (by destruct (H2 _ Hm)).
    - by apply (H1 _ Hm), (Hex t).
    - pose proof (inv_asserts c I _ _ Ht) as Ha. unfold asserts, opened in Ha.
      destruct a; destruct (H2 _ Hm); simpl in *; try done; intuition congruence. }
  assert (Hb : sumZ busy (queue (pool c)) = 0).
  { rewrite <-(inv_count c I), Hn, (Hno adj); [done| |by left]. intros []; simpl; done. }
  assert (Hun : forall i w, queue (pool c) !! i = Some w -> state w = SLOT_UNUSED).
  { intros i w Hw. pose proof (sumZ_elem busy _ _ _ ltac:(intros x; unfold busy; by case_bool_decide) Hw) as H.
    rewrite Hb in H. unfold busy in H. case_bool_decide as Hs; [simpl in *; lia|].
    destruct (decide (state w = SLOT_UNUSED)); [done|by destruct Hs]. }
  split; [done|]. split; [done|]. split; [done|]. split; [done|]. split.
  - apply count_job_perm. intros j. rewrite count_settled, (inv_jobs c I j).
    unfold pending. rewrite weigh_idle; [lia| |].
    + intros i. rewrite !Hno; [done| | | |].
      all: try (intros []; simpl; done).
      all: intros n; destruct n as [[]| | | |? ? []|? []]; simpl; auto; by left.
    + intros i w Hw. unfold waiting. by rewrite (Hun i w Hw).
  - intros j Hz. rewrite (inv_cleanups c I j Hz). unfold in_cleanup. rewrite weigh_idle; [lia| |done].
    intros i. apply Hno; [intros []; simpl; done|].
    intros n; destruct n as [[]| | | |? ? []|? []]; simpl; auto; by left.
Qed.

(** ** Allocation *)

Lemma alloc_slots_spec n o :
  wp (alloc_slots n) o (fun '(b, q) _ => zlen q = Z.of_nat n).
Proof.
  revert o. induction n as [|n IH]; intros o; simpl; [done|].
  wp. apply wp_alloc_ok. intros [] o' _ _.
  - apply wp_bind. eapply wp_mono; [apply IH|]. intros [b q] o2 Hq. wp.
    rewrite zlen_cons. lia.
  - wp. rewrite zlen_cons, zlen_replicate. lia.
Qed.

Lemma init_all_spec n o : wp (init_all n) o (fun _ _ => True).
Proof.
  revert o. induction n as [|n IH]; intros o; simpl; [done|].
  wp. apply wp_alloc_ok. intros [] o' _ _; [apply IH|done].
Qed.

Lemma new_queue_spec nw cap block ws o :
  0 < nw -> 0 < cap ->
  wp (new_queue nw cap block ws) o (fun r _ =>
    r = None \/
    r = Some (new_pool (Z.to_nat nw) (Z.to_nat cap) block) /\
    (1 <= Z.to_nat nw)%nat /\ Z.of_nat (Z.to_nat cap) < 2 ^ 64).
Proof.
  intros Hnw Hcap. unfold new_queue. wp. apply wp_alloc_ok. intros [] o1 Hok _; simpl.
  2: { wp. by left. }
  wp. eapply wp_mono; [apply alloc_slots_spec|]. intros [all q] o2 Hq. cbn zeta.
  rewrite Z2Nat.id in Hq by lia.
  assert (Hfree : forall o', wp (let* _ := lift (free_mem cap (Some (Raw (Some (Some ws))
    (Some (Some q))))) in ret (@None threadpool)) o' (fun r _ => r = None)).
  { intros o'. wp. simpl. rewrite (proj2 (Z.leb_le cap (zlen q))) by lia. by wp. }
  destruct all; simpl; [|eapply wp_mono; [apply Hfree|by left]].
  apply wp_bind. eapply wp_mono; [apply (init_all_spec 4)|]. intros [] o3 _; simpl.
  - wp. right. specialize (Hok eq_refl). unfold PTRDIFF_MAX in Hok. split; [done|].
    split; lia.
  - eapply wp_mono; [apply Hfree|by left].
Qed.

(** What the allocation half of [threadpool_new] does under every behaviour
    of the allocator: when the array of workers is refused it frees through
    [p->queue], which nothing was stored in; in every other case it returns
    NULL or the empty pool, its capacity representable in a [size_t]. *)
Theorem threadpool_new_outcomes nw cap block :
  0 < nw -> 0 < cap -> nw * 8 <= PTRDIFF_MAX ->
  (forall o, threadpool_new nw cap block (true :: false :: o) = Fault Uninitialised) /\
  (forall o, (forall o', o <> true :: false :: o') ->
     wp (threadpool_new nw cap block) o (fun r _ =>
       r = None \/
       r = Some (new_pool (Z.to_nat nw) (Z.to_nat cap) block) /\
       (1 <= Z.to_nat nw)%nat /\ Z.of_nat (Z.to_nat cap) < 2 ^ 64)).
Proof.
  intros Hnw Hcap Hsz. split; intros o.
  - unfold threadpool_new, bind, lift, guard.
    by rewrite (proj2 (Z.ltb_lt _ _) Hnw), (proj2 (Z.ltb_lt _ _) Hcap).
  - intros Ho. unfold threadpool_new. wp.
    assert (Hrest : forall o', (forall o2, o' <> false :: o2) -> wp (bind (alloc_ok (nw * 8))
      (fun ok => if negb ok
         then let* _ := lift (free_mem cap (Some (Raw (Some None) None))) in ret None
         else new_queue nw cap block (replicate (Z.to_nat nw) None))) o' (fun r _ =>
       r = None \/
       r = Some (new_pool (Z.to_nat nw) (Z.to_nat cap) block) /\
       (1 <= Z.to_nat nw)%nat /\ Z.of_nat (Z.to_nat cap) < 2 ^ 64)).
    { intros o' Ho'. apply wp_bind. destruct o' as [|[] o']; [| |by destruct (Ho' o')].
      all: unfold wp at 1, alloc_ok; rewrite (proj2 (Z.leb_le _ _) Hsz); simpl.
      all: by apply new_queue_spec. }
    destruct o as [|[] o]; unfold wp at 1, alloc_ok at 1; simpl.
    + by apply Hrest.
    + apply Hrest. intros o2 ->. by destruct (Ho o2).
    + wp. by left.
Qed.

(** ** Schedules *)

(** [n] steps of thread [t] in which nothing fails. *)
Definition steps (t n : nat) : list (nat * choice) := replicate n (t, Go).

Definition job1 : job := Job 10 11 12 13 14 15.
Definition job2 : job := Job 20 21 0 0 0 0.

(** The owner is thread 0, then come the producers, then the workers. *)
Definition two_workers : config := initial (new_pool 2 3 true) 1.
Definition one_worker : config := initial (new_pool 1 1 true) 1.

(** The owner creates two workers, both go to sleep; thread 1 adds [job1],
    which wakes thread 2; that takes it and calls its [workfn]. *)
Definition start_job1 : list (nat * choice) :=
  (steps 0 4 ++ steps 2 2 ++ steps 3 2
   ++ [(1%nat, Call_add job1)] ++ steps 1 6 ++ [(1%nat, Pick 2)] ++ steps 1 3
   ++ steps 2 6 ++ [(2%nat, Init_returns success)] ++ steps 2 1)%list.

(** Thread 2 runs [job1] to its end, then everybody shuts down. *)
Definition finish_and_destroy : list (nat * choice) :=
  (start_job1 ++ steps 2 8
   ++ [(0%nat, Call_destroy true)] ++ steps 0 11
   ++ steps 2 4 ++ steps 3 4 ++ steps 0 4)%list.

(** The state a schedule leads to. *)
Definition outcome_of (s : list (nat * choice)) (c : config) : config :=
  match run s c with
  | Next c' => c'
  | _ => c
  end.

(** Thread 1 adds [job2] while [job1] runs. *)
Definition add_job2 : list (nat * choice) :=
  (start_job1 ++ [(1%nat, Call_add job2)] ++ steps 1 11)%list.

(** One worker runs [job2] in the only slot; thread 1 is about to wait for a
    free slot for [job1]. *)
Definition full_queue : list (nat * choice) :=
  (steps 0 3 ++ [(1%nat, Call_add job2)] ++ steps 1 10 ++ steps 2 8
   ++ [(1%nat, Call_add job1)] ++ steps 1 2)%list.

(** It waits; the owner destroys the pool, the worker finishes and leaves. *)
Definition destroy_under_producer : list (nat * choice) :=
  (full_queue ++ steps 1 1 ++ [(0%nat, Call_destroy false)] ++ steps 0 7
   ++ steps 2 6 ++ [(2%nat, Pick 0)] ++ steps 2 1 ++ steps 0 5 ++ steps 2 4 ++ steps 0 3)%list.

(** Its [pthread_cond_wait] fails; the worker finishes its job, the owner calls
    [threadpool_destroy]. *)
Definition failing_wait : list (nat * choice) :=
  (full_queue ++ [(1%nat, Err)] ++ steps 2 2 ++ [(0%nat, Call_destroy true)])%list.

Lemma outcome_states nw cap block np s :
  (1 <= nw)%nat -> Z.of_nat cap < 2 ^ 64 ->
  states nw cap block np (outcome_of s (initial (new_pool nw cap block) np)).
Proof.
  intros H1 H2. split; [done|]. split; [done|]. unfold outcome_of.
  destruct (run s _) as [c| |] eqn:E; [by eapply run_reachable|constructor..].
Qed.

(** [threadpool_add_work] signals [queue_not_empty] only when the queue was
    empty, and a running job counts as an entry.  So a job that is added while
    another one runs wakes nobody: here two workers serve the pool, one runs
    [job1], the other sleeps, [job2] waits in the queue, and the only steps
    left are those of the first worker, of a new call and of a spurious
    wake-up.  A [job1] that waits for [job2] waits for ever. *)
Theorem threadpool_idle_worker :
  let c := outcome_of add_job2 two_workers in
  states 2 3 true 1 c /\
  threads c !! 2%nat = Some (Worker (W_busy 0)) /\ threads c !! 3%nat = Some (Worker W_wait) /\
  queue (pool c) !! 1%nat = Some (Work SLOT_WAITING job2) /\ queue_lock (pool c) = false /\
  forall t cx c', exec t cx c = Next c' ->
    t = 2%nat \/ cx = Spurious \/ (exists j, cx = Call_add j) \/ exists f, cx = Call_destroy f.
Proof.
  intros c. split; [apply outcome_states; lia|].
  split; [by vm_compute|]. split; [by vm_compute|]. split; [by vm_compute|].
  split; [by vm_compute|].
  assert (Ht : threads c = [Idle true None; Idle false (Some R_success); Worker (W_busy 0);
    Worker W_wait]) by (by vm_compute).
  clearbody c. intros t cx c' H. destruct (exec_inv _ _ _ _ H) as (n & e & ts & Hn & _ & Hs & _).
  rewrite Ht in Hn. destruct t as [|[|[|[|t]]]]; simplify_eq/=; auto;
    destruct cx; simpl in Hs; try done; eauto.
Qed.

(** Nobody but the owner can step, and only into a failing lock. *)
Lemma stuck_behind_mutex c :
  threads c = [Destroy true D_lock; Add false job1 A_leaked; Worker (W_relock 0)] ->
  queue_lock (pool c) = true ->
  forall t cx c', exec t cx c = Next c' -> t = 0%nat /\ cx = Err.
Proof.
  intros Ht Hl t cx c' H.
  destruct (exec_inv _ _ _ _ H) as (n & e & ts & Hn & _ & Hs & _). rewrite Ht in Hn.
  destruct t as [|[|[|t]]]; simplify_eq/=; unfold acquire in Hs; rewrite Hl in Hs;
    destruct cx; done.
Qed.

(** Two schedules [threadpool_destroy] and [threadpool_add_work] do not
    survive.  A producer that waits for room is woken by the destruction, which
    joins the workers only: the pool is freed before the producer has the mutex
    again, and its next step is an access to freed memory.  And a failing
    [pthread_cond_wait] makes [threadpool_add_work] return with the mutex
    locked: whatever is chosen, the worker with its finished job and the owner
    in [threadpool_destroy] never get it. *)
Theorem threadpool_unsafe_schedules :
  (let c := outcome_of destroy_under_producer one_worker in
   states 1 1 true 1 c /\ threads c !! 0%nat = Some (Destroy false D_done) /\
   threads c !! 1%nat = Some (Add false job1 A_woken) /\
   exec 1 Go c = Crash OutOfBounds) /\
  (let c := outcome_of failing_wait one_worker in
   states 1 1 true 1 c /\
   threads c = [Destroy true D_lock; Add false job1 A_leaked; Worker (W_relock 0)] /\
   forall t cx c', exec t cx c = Next c' -> t = 0%nat /\ cx = Err).
Proof.
  split; cbv zeta.
  - split; [apply outcome_states; lia|]. split; [by vm_compute|]. split; by vm_compute.
  - split; [apply outcome_states; lia|]. split; [by vm_compute|].
    apply stuck_behind_mutex; by vm_compute.
Qed.

(** ** Witnesses *)

Lemma threadpool_progress_witness :
  exists t cx c', plain cx = true /\ exec t cx (outcome_of add_job2 two_workers) = Next c'.
Proof.
  destruct (threadpool_progress 2 3 true 1 (outcome_of add_job2 two_workers))
    as (t & n & cx & c' & _ & _ & H).
  - apply outcome_states; lia.
  - by vm_compute.
  - apply (Forall_lookup (fun n => leaked n = false)). vm_compute. by repeat constructor.
  - exists t, cx, c'. exact H.
Defined.


Lemma threadpool_exactly_once_witness :
  count_job job2 (added (outcome_of add_job2 two_workers)) = 1 /\
  pending job2 (outcome_of add_job2 two_workers) = 1 /\
  count_job job1 (added (outcome_of add_job2 two_workers))
  = sumZ (settles job1) (log (outcome_of add_job2 two_workers))
    + pending job1 (outcome_of add_job2 two_workers).
Proof.
  split; [by vm_compute|]. split; [by vm_compute|].
  exact (proj1 (threadpool_exactly_once 2 3 true 1 _ job1
    (outcome_states 2 3 true 1 add_job2 ltac:(lia) ltac:(lia)))).
Defined.

Lemma threadpool_destroy_complete_witness :
  settled (log (outcome_of finish_and_destroy two_workers)) ≡ₚ [job1].
Proof.
  apply (threadpool_destroy_complete 2 3 true 1 (outcome_of finish_and_destroy two_workers) true);
    [apply outcome_states; lia | by vm_compute].
Defined.

Lemma threadpool_new_outcomes_witness :
  threadpool_new 2 3 true [true; false] = Fault Uninitialised /\
  wp (threadpool_new 2 3 true) [] (fun r _ => r = None \/
    r = Some (new_pool 2 3 true) /\ (1 <= 2)%nat /\ 3 < 2 ^ 64).
Proof.
  split.
  - by apply (threadpool_new_outcomes 2 3 true).
  - by apply (threadpool_new_outcomes 2 3 true).
Defined.
