(* ===== verification/MetaMisc.v ===== *)
(** MetaMisc: the string helpers of meta/src/meta_misc.c and the two functions
    of http/src/internals.c that cut a header line.

    A [const char *] that is only read is the list of its characters; a buffer
    that is written is a block.  Each helper comes with the equation or the
    [wpr] statement its callers use. *)

From Stdlib Require Import ZArith Lia.
From stdpp Require Import base list numbers.
From S2P Require Import Prelude.

(** * Words *)

Definition SP : Z := 32.

(** The loops that move [str] over characters that satisfy [p]. *)
Fixpoint skip_while (p : Z -> bool) (s : list Z) : list Z :=
  match s with
  | [] => []
  | c :: s' => if p c then skip_while p s' else s
  end.

(** The body of the loop of [find_word]: to the next space, over the spaces. *)
Definition skip_word (s : list Z) : list Z :=
  skip_while (fun c => c =? SP) (skip_while (fun c => negb (c =? SP)) s).

Fixpoint skip_words (wordidx : nat) (s : list Z) : list Z :=
  match wordidx with
  | O => s
  | S n => skip_words n (skip_word s)
  end.

Definition find_word (s : list Z) (wordidx : nat) : Z :=
  match skip_words wordidx s with
  | [] => -1
  | str => i32 (zlen s - zlen str)
  end.

Fixpoint copy_word_loop (src : list Z) (d : block) (separator destsize i : Z) : res (block * Z) :=
  match src with
  | [] => Ret (d, i)
  | c :: src' =>
      if negb (c =? separator) && (i <? destsize)
      then let+ d := stc d i c in copy_word_loop src' d separator destsize (i + 1)
      else Ret (d, i)
  end.

(** The status, the [errno] a failure sets, the destination. *)
Definition copied : Type := option errno * block.

Definition copy_word (src : list Z) (d : block) (separator destsize : Z) : res copied :=
  r_assert (negb (separator =? 0));;
  r_assert (0 <? destsize);;
  let+ r := copy_word_loop src d separator destsize 0 in
  let '(d, i) := r in
  if i =? destsize then Ret (Some ENOSPC, d)
  else let+ d := stc d i 0 in Ret (None, d).

Definition get_word_from_string (src : list Z) (d : block) (destsize : Z) (wordidx : nat)
    : res copied :=
  r_assert (1 <? destsize);;
  let i := find_word src wordidx in
  if i =? -1 then Ret (Some ERANGE, d)
  else copy_word (drop (Z.to_nat i) src) d SP destsize.

(** * Trimming, lower case *)

Definition ltrim (s : list Z) : list Z := skip_while isspace s.

Fixpoint rtrim_loop (n : nat) (s : list Z) : list Z :=
  match n with
  | O => s
  | S n' =>
      match s !! n' with
      | Some c => if isspace c then rtrim_loop n' (take n' s) else s
      | None => s
      end
  end.

Definition rtrim (s : list Z) : list Z := rtrim_loop (length s) s.

Definition trim (s : list Z) : list Z := rtrim (ltrim s).

Definition remove_trailing_newline (s : list Z) : list Z :=
  match s !! (length s - 1)%nat with
  | Some c => if c =? 10 then take (length s - 1) s else s
  | None => s
  end.

Definition fs_lower (s : list Z) : list Z :=
  (fun c => if isupper c then tolower c else c) <$> s.

(** * File names *)

(** The loop of [get_extension]: [i] runs down in the destination, [left]
    counts the characters of the name not passed yet, the terminator included.
    The result is the destination, [i] and whether a dot was found. *)
Fixpoint extension_loop (left : nat) (src : block) (d : block) (i : Z) : res (block * Z * bool) :=
  match left with
  | O => Ret (d, i, false)
  | S n =>
      if 0 <? i then
        let+ c := ldc src (Z.of_nat n) in
        if c =? ch "." then Ret (d, i, true)
        else let+ d := stc d i c in extension_loop n src d (i - 1)
      else Ret (d, i, false)
  end.

Definition get_extension (src : list Z) (d : block) (destsize : Z) : res copied :=
  r_assert (1 <? destsize);;
  let i := destsize - 1 in
  let+ d := stc d i 0 in
  let+ r := extension_loop (S (length src)) (cstr src) d i in
  let '(d, i, found) := r in
  if i =? 0 then Ret (Some ENOSPC, d)
  else if found : bool
  then let+ ext := rd d (i + 1) (destsize - i) in
       let+ d := wr d 0 ext in Ret (None, d)
  else let+ d := stc d 0 0 in Ret (None, d).

Definition mime_map : list (list Z * list Z) :=
  [ (bytes "css", bytes "text/css"); (bytes "html", bytes "text/html");
    (bytes "htm", bytes "text/html"); (bytes "c", bytes "text/plain");
    (bytes "cpp", bytes "text/plain"); (bytes "cxx", bytes "text/plain");
    (bytes "h", bytes "text/plain"); (bytes "java", bytes "text/plain");
    (bytes "txt", bytes "text/plain"); (bytes "xml", bytes "text/xml");
    (bytes "rtf", bytes "text/rtf"); (bytes "sgml", bytes "text/sgml");
    (bytes "jpeg", bytes "image/jpeg"); (bytes "jpg", bytes "image/jpeg");
    (bytes "png", bytes "image/png"); (bytes "tiff", bytes "image/tiff");
    (bytes "gif", bytes "image/gif") ].

Fixpoint mime_lookup (m : list (list Z * list Z)) (ext : list Z) : list Z :=
  match m with
  | [] => bytes "application/octet-stream"
  | (e, mime) :: m' => if strcmp e ext =? 0 then mime else mime_lookup m' ext
  end.

(** [ext] is the local array and what the stack holds behind it. *)
Definition get_mime_type (filename : list Z) (ext : block) : res (list Z) :=
  let+ r := get_extension filename ext 100 in
  match r with
  | (None, d) => let+ e := str_at d in Ret (mime_lookup mime_map e)
  | (Some _, _) => Ret (bytes "application/octet-stream")
  end.

(** * Header lines *)

Definition COLON : Z := 58.

Definition get_field_name (src : list Z) (d : block) (destsize : Z) : res (status * block) :=
  r_assert (0 <? destsize);;
  match strchr src COLON with
  | None => Ret (failure, d)
  | Some span =>
      if destsize <=? Z.of_nat span + 1 then Ret (failure, d)
      else
        let+ d := wr d 0 (Some <$> take span src) in
        let+ d := stc d (Z.of_nat span) 0 in
        Ret (success, d)
  end.

Definition get_field_value (src : list Z) (d : block) (destsize : Z) : res (status * block) :=
  r_assert (0 <? destsize);;
  match strchr src COLON with
  | None => Ret (failure, d)
  | Some span =>
      let s := skip_while isspace (drop (S span) src) in
      if destsize <=? zlen s then Ret (failure, d)
      else let+ d := wr d 0 (cstr s) in Ret (success, d)
  end.

(** * Specifications *)

Definition until (sep : Z) (s : list Z) : list Z :=
  take (span_len (fun c => negb (c =? sep)) s) s.

Lemma until_cons sep c s :
  until sep (c :: s) = if c =? sep then [] else c :: until sep s.
Proof. unfold until. simpl. by destruct (c =? sep). Qed.

Lemma until_length sep s : (length (until sep s) <= length s)%nat.
Proof. unfold until. rewrite length_take. lia. Qed.

Lemma until_chars P sep s : Forall P s -> Forall P (until sep s).
Proof. intros H. by apply Forall_take. Qed.

Lemma until_no_sep sep s : Forall (fun c => c <> sep) (until sep s).
Proof.
  induction s as [|c s IH]; [constructor|]. rewrite until_cons.
  destruct (Z.eqb_spec c sep); constructor; auto.
Qed.

Lemma until_id sep s : Forall (fun c => c <> sep) s -> until sep s = s.
Proof.
  induction 1 as [|c s Hc _ IH]; [done|]. rewrite until_cons.
  destruct (Z.eqb_spec c sep); [done|by rewrite IH].
Qed.

Lemma until_app sep a b : Forall (fun c => c <> sep) a -> until sep (a ++ sep :: b) = a.
Proof.
  induction 1 as [|c a Hc _ IH]; cbn [app]; rewrite until_cons; [by rewrite Z.eqb_refl|].
  destruct (Z.eqb_spec c sep); [done|by rewrite IH].
Qed.

(** The buffer after a string was stored at its start. *)
Definition stored (d : block) (s : list Z) (d' : block) : Prop :=
  d' = cstr s ++ drop (S (length s)) d.

Lemma copy_word_loop_spec src pre post sep destsize :
  zlen pre + zlen post = destsize ->
  copy_word_loop src ((Some <$> pre) ++ post) sep destsize (zlen pre) =
  let w := take (length post) (until sep src) in
  Ret ((Some <$> pre ++ w) ++ drop (length w) post, zlen pre + zlen w).
Proof.
  revert pre post. induction src as [|c src IH]; intros pre post Hsz; cbn [copy_word_loop].
  - unfold until. simpl. rewrite take_nil, app_nil_r, zlen_nil, Z.add_0_r. done.
  - rewrite until_cons. destruct (Z.eqb_spec c sep) as [|Hc]; simpl.
    { rewrite take_nil, app_nil_r, zlen_nil, Z.add_0_r. done. }
    destruct (Z.ltb_spec (zlen pre) destsize) as [Hlt|Hge].
    + destruct post as [|x post]; [autorewrite with zlen in *; lia|].
      rewrite (stc_app (Some <$> pre) post x c) by (by rewrite zlen_fmap). simpl.
      specialize (IH (pre ++ [c]) post). rewrite fmap_app, <-app_assoc, zlen_app, zlen_cons, zlen_nil, Z.add_0_r in IH.
      simpl in IH. rewrite IH by zlia. f_equal. f_equal.
      * by rewrite <-app_assoc.
      * zlia.
    + destruct post as [|x post]; [|zlia]. simpl.
      rewrite !app_nil_r, zlen_nil, Z.add_0_r. done.
Qed.

(** [copy_word] stores the word when it fits with its terminator, and fails
    with [ENOSPC] and an unterminated destination when it does not. *)
Lemma copy_word_spec src d sep destsize :
  sep <> 0 -> 0 < destsize -> zlen d = destsize ->
  copy_word src d sep destsize =
  let w := until sep src in
  if zlen w <? destsize then Ret (None, cstr w ++ drop (S (length w)) d)
  else Ret (Some ENOSPC, Some <$> take (Z.to_nat destsize) w).
Proof.
  intros Hsep Hd Hl. unfold copy_word, guard.
  rewrite (proj2 (Z.eqb_neq _ _) Hsep), (proj2 (Z.ltb_lt _ _) Hd). simpl.
  pose proof (copy_word_loop_spec src [] d sep destsize) as HL.
  rewrite zlen_nil in HL. specialize (HL ltac:(lia)). simpl in HL. rewrite HL. simpl.
  set (w := until sep src).
  replace (length d) with (Z.to_nat destsize) by (unfold zlen in Hl; lia).
  destruct (Z.ltb_spec (zlen w) destsize) as [Hlt|Hge].
  - rewrite (take_ge w) by (unfold zlen in *; lia).
    rewrite (proj2 (Z.eqb_neq _ _)) by lia.
    assert (Hdrop : exists x r, drop (length w) d = x :: r).
    { destruct (drop (length w) d) as [|x r] eqn:E; [|by eauto].
      apply (f_equal length) in E. rewrite length_drop in E. unfold zlen in *. simpl in E. lia. }
    destruct Hdrop as (x & r & Hr). rewrite Hr.
    rewrite (stc_app (Some <$> w) r x 0) by (by rewrite zlen_fmap). simpl. do 2 f_equal.
    unfold cstr. rewrite <-app_assoc. simpl. do 2 f_equal.
    rewrite <-Nat.add_1_r, <-drop_drop, Hr. done.
  - rewrite zlen_take by (unfold zlen in *; lia). rewrite Z2Nat.id by lia.
    rewrite Z.eqb_refl. rewrite drop_ge, app_nil_r; [done|].
    rewrite length_take. unfold zlen in *. lia.
Qed.

Lemma skip_while_suffix p s : exists w, s = w ++ skip_while p s.
Proof.
  induction s as [|c s [w IH]]; [by exists []|]. simpl.
  destruct (p c); [|by exists []]. exists (c :: w). simpl. by rewrite <-IH.
Qed.

Lemma skip_words_suffix n s : exists w, s = w ++ skip_words n s.
Proof.
  revert s. induction n as [|n IH]; intros s; [by exists []|]. simpl.
  destruct (IH (skip_word s)) as [w Hw].
  destruct (skip_while_suffix (fun c => negb (c =? SP)) s) as [u Hu].
  destruct (skip_while_suffix (fun c => c =? SP) (skip_while (fun c => negb (c =? SP)) s)) as [v Hv].
  exists (u ++ v ++ w). unfold skip_word in *. rewrite <-!app_assoc, <-Hw, <-Hv. done.
Qed.

(** On strings that [int] offsets reach, [find_word] is the offset of the
    [wordidx]-th word, or -1. *)
Lemma find_word_spec n s :
  zlen s <= INT_MAX ->
  match skip_words n s with
  | [] => find_word s n = -1
  | str => 0 <= find_word s n /\ drop (Z.to_nat (find_word s n)) s = str
  end.
Proof.
  intros Hs. unfold find_word. destruct (skip_words n s) as [|c str] eqn:E; [done|].
  destruct (skip_words_suffix n s) as [w Hw]. rewrite E in Hw.
  assert (Hi : i32 (zlen s - zlen (c :: str)) = zlen w).
  { rewrite Hw, zlen_app. unfold i32, INT_MAX in *. rewrite Hw in Hs. zlen_facts.
    rewrite zlen_app in Hs. rewrite Z.mod_small; zlia. }
  rewrite Hi. split; [apply zlen_nonneg|]. rewrite Hw. unfold zlen. rewrite Nat2Z.id.
  apply drop_app_length.
Qed.

Lemma get_word_spec n s d destsize :
  zlen s <= INT_MAX -> 1 < destsize -> zlen d = destsize ->
  get_word_from_string s d destsize n =
  match skip_words n s with
  | [] => Ret (Some ERANGE, d)
  | str =>
      let w := until SP str in
      if zlen w <? destsize then Ret (None, cstr w ++ drop (S (length w)) d)
      else Ret (Some ENOSPC, Some <$> take (Z.to_nat destsize) w)
  end.
Proof.
  intros Hs Hd Hl. unfold get_word_from_string, guard.
  rewrite (proj2 (Z.ltb_lt _ _) Hd). simpl. pose proof (find_word_spec n s Hs) as Hf.
  destruct (skip_words n s) as [|c str]; [by rewrite Hf|]. destruct Hf as [H0 H1].
  rewrite (proj2 (Z.eqb_neq _ _)) by lia. rewrite H1. apply copy_word_spec; [done|lia|done].
Qed.

(** The two halves of a header line, when they fit with their terminators. *)
Lemma get_field_name_spec n rest d :
  Forall (fun c => c <> COLON) n -> zlen n + 1 < zlen d ->
  get_field_name (n ++ COLON :: rest) d (zlen d) = Ret (success, cstr n ++ drop (S (length n)) d).
Proof.
  intros Hn Hd. unfold get_field_name, guard. zlen_facts.
  rewrite (proj2 (Z.ltb_lt 0 (zlen d))) by lia. cbn [res_bind].
  rewrite strchr_app by done. fold (zlen n). rewrite (proj2 (Z.leb_gt _ _)) by lia.
  rewrite take_app_length.
  rewrite wr_head by (rewrite zlen_fmap; lia). cbn [res_bind]. rewrite length_fmap.
  destruct (drop (length n) d) as [|x b] eqn:Hx.
  { apply (f_equal zlen) in Hx. rewrite zlen_drop, zlen_nil in Hx by (unfold zlen in Hd; lia).
    unfold zlen in *. lia. }
  rewrite stc_app by (by rewrite zlen_fmap). cbn [res_bind].
  unfold cstr. rewrite <-app_assoc. do 3 f_equal. cbn [app]. f_equal.
  by rewrite <-Nat.add_1_r, <-drop_drop, Hx.
Qed.

Lemma get_field_value_spec n rest d :
  Forall (fun c => c <> COLON) n -> let s := skip_while isspace rest in zlen s < zlen d ->
  get_field_value (n ++ COLON :: rest) d (zlen d) = Ret (success, cstr s ++ drop (S (length s)) d).
Proof.
  intros Hn s Hd. unfold get_field_value, guard. zlen_facts.
  rewrite (proj2 (Z.ltb_lt 0 (zlen d))) by lia. cbn [res_bind].
  rewrite strchr_app by done.
  replace (drop (S (length n)) (n ++ COLON :: rest)) with rest
    by (by rewrite <-Nat.add_1_r, <-drop_drop, drop_app_length).
  fold s. rewrite (proj2 (Z.leb_gt _ _)) by lia.
  rewrite wr_head by (rewrite zlen_cstr; lia). cbn [res_bind]. do 3 f_equal.
  unfold cstr. rewrite length_app, length_fmap. simpl. f_equal. lia.
Qed.

(** ** The type of a file *)

Lemma stc_insert (d : block) i c :
  0 <= i < zlen d -> stc d i c = Ret (<[Z.to_nat i := Some c]> d).
Proof.
  intros Hi. unfold stc, wr. rewrite (proj2 (andb_true_iff _ _))
    by (split; apply Z.leb_le; rewrite ?zlen_cons, ?zlen_nil; lia).
  rewrite insert_take_drop by (unfold zlen in Hi; lia). simpl. repeat f_equal. lia.
Qed.

(** The characters behind [i] are stored, the last one a terminator. *)
Definition ended (d : block) (i : Z) : Prop :=
  d !! 99%nat = Some (Some 0) /\ forall j, i < Z.of_nat j <= 99 -> exists c, d !! j = Some (Some c).

Lemma str_at_ended (b : block) k :
  b !! k = Some (Some 0) -> (forall j, (j < k)%nat -> exists c, b !! j = Some (Some c)) ->
  exists s, str_at b = Ret s.
Proof.
  revert b. induction k as [|k IH]; intros [|x b] Hk Hj; try done.
  { injection Hk as ->. by exists []. }
  destruct (Hj 0%nat) as [c Hc]; [lia|]. injection Hc as ->. cbn [str_at].
  destruct (c =? 0); [by eexists|].
  destruct (IH b Hk) as [s ->]; [intros j Hlt; apply (Hj (S j)); lia|]. by eexists.
Qed.

Lemma ldc_cstr s n :
  (n <= length s)%nat ->
  exists c, ldc (cstr s) (Z.of_nat n) = Ret c /\ (n = length s -> c = 0).
Proof.
  intros Hn. unfold ldc. rewrite (proj2 (andb_true_iff _ _))
    by (split; [apply Z.leb_le; lia|apply Z.ltb_lt; rewrite zlen_cstr; unfold zlen; lia]).
  rewrite Nat2Z.id. unfold cstr. destruct (decide (n = length s)) as [->|Hne].
  - rewrite lookup_app_r by (by rewrite length_fmap). rewrite length_fmap, Nat.sub_diag. by exists 0.
  - rewrite lookup_app_l by (rewrite length_fmap; lia). rewrite list_lookup_fmap.
    destruct (lookup_lt_is_Some_2 s n) as [c ->]; [lia|]. by exists c.
Qed.

Lemma extension_loop_spec left src d i :
  (left <= S (length src))%nat -> (i = 99 -> left = S (length src)) ->
  0 <= i <= 99 -> 100 <= zlen d -> ended d i ->
  wpr (extension_loop left (cstr src) d i) (fun '(d', i', found) =>
    zlen d' = zlen d /\ 0 <= i' <= 99 /\ ended d' i' /\ (found = true -> i' < 99)).
Proof.
  revert d i. induction left as [|left IH]; intros d i Hl Hfirst Hi Hd He; cbn [extension_loop]; [by wp|].
  destruct (Z.ltb_spec 0 i); [|by wp]. destruct (ldc_cstr src left) as (c & Hc & Hlast); [lia|].
  wp. rewrite Hc. cbn [res_bind wpr]. destruct (Z.eqb_spec c (ch ".")) as [->|_].
  { wp. split_and!; try done; [lia|lia|]. intros _. destruct (Z.eqb_spec i 99) as [->|?]; [|lia].
    specialize (Hfirst eq_refl). assert (Hz : left = length src) by lia. discriminate (Hlast Hz). }
  wp. rewrite stc_insert by lia. cbn [res_bind wpr].
  assert (Hlen : zlen (<[Z.to_nat i := Some c]> d) = zlen d) by (unfold zlen; by rewrite length_insert).
  rewrite <-Hlen. apply IH; try lia. destruct He as [H99 Hj]. split.
  - destruct (decide (i = 99)) as [->|Hne].
    + specialize (Hfirst eq_refl). assert (Hz : left = length src) by lia. rewrite (Hlast Hz).
      change (Z.to_nat 99) with 99%nat. apply list_lookup_insert_eq. unfold zlen in Hd. lia.
    + rewrite list_lookup_insert_ne by lia. done.
  - intros j Hlt. destruct (decide (Z.to_nat i = j)) as [<-|Hne].
    + exists c. apply list_lookup_insert_eq. unfold zlen in Hd. lia.
    + rewrite list_lookup_insert_ne by done. apply Hj. lia.
Qed.

Lemma mime_lookup_valid ext : Forall is_char (mime_lookup mime_map ext) /\ zlen (mime_lookup mime_map ext) <= 30.
Proof.
  assert (Hall : forall m, Forall (fun r => Forall is_char r.2 /\ zlen r.2 <= 30) m ->
    Forall is_char (mime_lookup m ext) /\ zlen (mime_lookup m ext) <= 30).
  { induction 1 as [|[e mime] m Hm _ IH]; cbn [mime_lookup].
    - split; [decide_closed|done].
    - destruct (strcmp e ext =? 0); [exact Hm|exact IH]. }
  apply Hall. unfold mime_map. decide_closed.
Qed.

(** [get_mime_type] reads one byte behind its array, and finds a type. *)
Lemma get_mime_type_spec filename ext :
  101 <= zlen ext ->
  wpr (get_mime_type filename ext) (fun ct => Forall is_char ct /\ zlen ct <= 30).
Proof.
  intros Hext. unfold get_mime_type, get_extension. wp. rewrite stc_insert by lia. cbn [res_bind wpr].
  change (Z.to_nat (100 - 1)) with 99%nat. set (d0 := <[99%nat := Some 0]> ext).
  assert (Hlen0 : zlen d0 = zlen ext) by (unfold d0, zlen; by rewrite length_insert).
  assert (He0 : ended d0 99).
  { split; [apply list_lookup_insert_eq; unfold zlen in Hext; lia|]. intros j Hj. lia. }
  wp. eapply wpr_mono; [apply extension_loop_spec; [done|done|lia|lia|exact He0]|].
  intros [[d i] found] (Hlen & Hi & [H99 Hj] & Hfound). rewrite Hlen0 in Hlen.
  assert (Htype : forall s, wpr (Ret (mime_lookup mime_map s)) (fun ct => Forall is_char ct /\ zlen ct <= 30))
    by (intros s; apply mime_lookup_valid).
  destruct (Z.eqb_spec i 0) as [->|Hi0].
  { wp. split; [decide_closed|done]. }
  destruct found; wp.
  - unfold rd. rewrite !(proj2 (andb_true_iff _ _)) by
      (repeat split; try apply andb_true_iff; try split; apply Z.leb_le; specialize (Hfound eq_refl); lia).
    cbn [res_bind wpr]. wp. set (e := take _ _).
    assert (Hle : length e = Z.to_nat (100 - i)).
    { unfold e. rewrite length_take, length_drop. unfold zlen in *. lia. }
    rewrite wr_head by (unfold zlen in *; lia). cbn [res_bind wpr]. wp.
    specialize (Hfound eq_refl).
    assert (Hel : forall k, (k < Z.to_nat (100 - i))%nat -> e !! k = d !! (Z.to_nat (i + 1) + k)%nat).
    { intros k Hk. unfold e. by rewrite lookup_take_lt, lookup_drop by done. }
    destruct (str_at_ended (e ++ drop (length e) d) (Z.to_nat (98 - i))) as [s ->]; [..|apply Htype].
    + rewrite lookup_app_l by lia. rewrite Hel by lia.
      replace (Z.to_nat (i + 1) + Z.to_nat (98 - i))%nat with 99%nat by lia. done.
    + intros j Hlt. rewrite lookup_app_l by lia. rewrite Hel by lia. apply Hj. lia.
  - rewrite stc_insert by lia. cbn [res_bind wpr]. wp.
    destruct (str_at_ended (<[Z.to_nat 0 := Some 0]> d) 0) as [s ->]; [|lia|apply Htype].
    apply list_lookup_insert_eq. unfold zlen in *. lia.
Qed.
