(* ===== verification/Gensocket.v ===== *)
(** Gensocket: the TCP side of the sockets of meta/src/gensocket.c.

    The operating system is the environment.  What arrives on the wire is a
    list of [arrival]s, what becomes of what is sent a list of [departure]s;
    [poll], [read] and [write] consume them.  Beyond the end of the lists
    nothing arrives any more and everything that is sent is taken.  [errno] is a
    field of the socket, because the code looks at the value the last call left
    there, whichever call that was.

    [socket_read_spec] and [socket_write_spec] describe the two calls the
    buffered connection makes.  The TLS side calls OpenSSL and is not
    modelled. *)

From Stdlib Require Import ZArith Lia.
From stdpp Require Import base list numbers.
From S2P Require Import Prelude.

(** * The operating system *)

Definition POLLIN : Z := 1.
Definition POLLOUT : Z := 4.
Definition POLLERR : Z := 8.
Definition POLLHUP : Z := 16.
Definition POLLNVAL : Z := 32.

Inductive arrival : Set :=
| Arrives (bs : list Z)        (* bytes that wait in the receive buffer *)
| Quiet                        (* nothing before the timeout of [poll] *)
| In_hup | In_err | In_nval    (* what [poll] reports instead of data *)
| In_poll_fails (e : errno)    (* [poll] returns -1 *)
| Read_fails (e : errno)       (* readable, but [read] returns -1 *)
| Peer_closed.                 (* [read] returns 0, now and later *)

Inductive departure : Set :=
| Takes (n : nat)              (* [write] takes at most [n] bytes *)
| Full                         (* no room before the timeout of [poll] *)
| Out_hup | Out_err | Out_nval
| Out_poll_fails (e : errno)
| Write_fails (e : errno).

(** [gensocket_tag] and what is outside of the process. *)
Record socket : Set := Socket {
  fd : Z;
  s_errno : errno;
  inbox : list arrival;
  outbox : list Z;
  answers : list departure;
}.

Definition set_errno (e : errno) (s : socket) : socket :=
  Socket (fd s) e (inbox s) (outbox s) (answers s).
Definition set_inbox (l : list arrival) (s : socket) : socket :=
  Socket (fd s) (s_errno s) l (outbox s) (answers s).
Definition set_answers (l : list departure) (s : socket) : socket :=
  Socket (fd s) (s_errno s) (inbox s) (outbox s) l.
Definition sent (bs : list Z) (l : list departure) (s : socket) : socket :=
  Socket (fd s) (s_errno s) (inbox s) (outbox s ++ bs) l.
Definition set_fd (x : Z) (s : socket) : socket :=
  Socket x (s_errno s) (inbox s) (outbox s) (answers s).

(** The value returned, [revents], and the socket. *)
Definition poll_in (s : socket) : Z * Z * socket :=
  match inbox s with
  | [] => (0, 0, s)
  | Quiet :: r => (0, 0, set_inbox r s)
  | In_hup :: r => (1, POLLHUP, set_inbox r s)
  | In_err :: r => (1, POLLERR, set_inbox r s)
  | In_nval :: r => (1, POLLNVAL, set_inbox r s)
  | In_poll_fails e :: r => (-1, 0, set_errno e (set_inbox r s))
  | _ => (1, POLLIN, s)
  end.

Definition poll_out (s : socket) : Z * Z * socket :=
  match answers s with
  | Full :: r => (0, 0, set_answers r s)
  | Out_hup :: r => (1, POLLHUP, set_answers r s)
  | Out_err :: r => (1, POLLERR, set_answers r s)
  | Out_nval :: r => (1, POLLNVAL, set_answers r s)
  | Out_poll_fails e :: r => (-1, 0, set_errno e (set_answers r s))
  | _ => (1, POLLOUT, s)
  end.

Definition poll (s : socket) (events : Z) : Z * Z * socket :=
  if events =? POLLIN then poll_in s else poll_out s.

(** [read] on a descriptor that does not block. *)
Definition read (s : socket) (count : Z) : Z * list Z * socket :=
  match inbox s with
  | Arrives bs :: r =>
      if zlen bs <=? count then (zlen bs, bs, set_inbox r s)
      else (count, take (Z.to_nat count) bs,
            set_inbox (Arrives (drop (Z.to_nat count) bs) :: r) s)
  | Read_fails e :: r => (-1, [], set_errno e (set_inbox r s))
  | Peer_closed :: _ => (0, [], s)
  | _ => (-1, [], set_errno EAGAIN s)
  end.

Definition write (s : socket) (buf : list Z) : Z * socket :=
  match answers s with
  | [] => (zlen buf, sent buf [] s)
  | Takes n :: r =>
      if zlen buf <=? Z.of_nat n then (zlen buf, sent buf r s)
      else (Z.of_nat n, sent (take n buf) r s)
  | Write_fails e :: r => (-1, set_errno e (set_answers r s))
  | _ => (-1, set_errno EAGAIN s)
  end.

(** * The functions *)

Definition sizeof_socket : Z := 16.

Definition socket_new (inb : list arrival) (ans : list departure) : C (option socket) :=
  let* ok := alloc_ok sizeof_socket in
  ret (if ok : bool then Some (Socket (-1) EAGAIN inb [] ans) else None).

Definition socket_get_fd (s : socket) : Z := fd s.

Definition socket_poll_for (s : socket) (events : Z) : res (status * socket) :=
  r_assert (0 <=? fd s);;
  r_assert ((events =? POLLIN) || (events =? POLLOUT));;
  let '(rc, revents, s) := poll s events in
  if rc =? 1 then
    if negb (Z.land revents POLLHUP =? 0) then Ret (failure, set_errno EPIPE s)
    else if negb (Z.land revents POLLERR =? 0) then Ret (failure, set_errno EPIPE s)
    else if negb (Z.land revents POLLNVAL =? 0) then Ret (failure, set_errno EINVAL s)
    else if Z.land revents events =? events then Ret (success, s)
    else Ret (failure, s)
  else if rc =? 0 then Ret (failure, set_errno EAGAIN s)
  else Ret (failure, s).

Definition socket_wait_for_data (s : socket) : res (status * socket) :=
  socket_poll_for s POLLIN.

Definition would_block (s : socket) : bool := bool_decide (s_errno s = EAGAIN).

(** The body of the loop of [tcp_read]: the value returned, the bytes stored at
    [dest], the socket. *)
Definition tcp_read_round (s : socket) (count : Z)
    (retry : socket -> res (Z * list Z * socket)) : res (Z * list Z * socket) :=
  let+ (st, s) := socket_poll_for s POLLIN in
  match st with
  | failure => if would_block s then retry s else Ret (-1, [], s)
  | success =>
      let '(nread, bs, s) := read s count in
      if 0 <? nread then Ret (nread, bs, s)
      else if (nread =? -1) && negb (would_block s) then Ret (-1, [], s)
      else retry s
  end.

Fixpoint tcp_read (nretries : nat) (s : socket) (count : Z) : res (Z * list Z * socket) :=
  r_assert (0 <=? fd s);;
  tcp_read_round s count (fun s =>
    match nretries with
    | O => Ret (-1, [], s)
    | S n => tcp_read n s count
    end).

Definition tcp_write_end (s : socket) (buf : list Z) : res (status * socket) :=
  if negb (zlen buf =? 0) then Ret (failure, set_errno EAGAIN s) else Ret (success, s).

(** The body of the loop of [tcp_write], with what follows it. *)
Definition tcp_write_round (s : socket) (buf : list Z)
    (again : socket -> list Z -> res (status * socket)) : res (status * socket) :=
  let+ (st, s) := socket_poll_for s POLLOUT in
  match st with
  | failure => if negb (would_block s) then Ret (failure, s) else again s buf
  | success =>
      let (nwritten, s) := write s buf in
      if nwritten =? -1 then Ret (failure, s)
      else again s (drop (Z.to_nat nwritten) buf)
  end.

Fixpoint tcp_write (nretries : nat) (s : socket) (buf : list Z) : res (status * socket) :=
  r_assert (0 <=? fd s);;
  tcp_write_round s buf (fun s buf =>
    if 0 <? zlen buf then
      match nretries with
      | O => tcp_write_end s buf
      | S n => tcp_write n s buf
      end
    else tcp_write_end s buf).

Definition socket_read (s : socket) (count : Z) (retries : nat) : res (Z * list Z * socket) :=
  tcp_read retries s count.

Definition socket_write (s : socket) (src : list Z) (retries : nat) : res (status * socket) :=
  tcp_write retries s src.

(** [rc] is what [close] returns. *)
Definition socket_close (rc : Z) (s : socket) : status * socket :=
  if fd s =? -1 then (success, s)
  else (if rc =? 0 then success else failure, set_fd (-1) s).

Definition socket_free (s : socket) : res unit :=
  r_assert (fd s =? -1);; Ret tt.

(** * What will arrive *)

(** The bytes the wire delivers before a read fails, when each read may try
    [retries] times more and [left] attempts are left in this one. *)
Fixpoint deliver (retries left : nat) (l : list arrival) : list Z :=
  match l with
  | Arrives (b :: bs) :: r => (b :: bs) ++ deliver retries retries r
  | Arrives [] :: r | Quiet :: r
  | In_poll_fails EAGAIN :: r | Read_fails EAGAIN :: r =>
      match left with
      | O => []
      | S n => deliver retries n r
      end
  | _ => []
  end.

(** Nothing but the read side differs. *)
Definition same_out (s s' : socket) : Prop :=
  outbox s' = outbox s /\ answers s' = answers s /\ fd s' = fd s.

Lemma read_spec s count :
  0 < count ->
  match inbox s with
  | Arrives (b :: bs) :: _ =>
      exists got rest, read s count = (zlen got, got, rest) /\ same_out s rest /\
        0 < zlen got <= count /\ forall k n, deliver k n (inbox s) = got ++ deliver k k (inbox rest)
  | _ => True
  end.
Proof.
  intros Hc. unfold read. destruct (inbox s) as [|[[|b bs]| | | | | | |] r] eqn:E; try done.
  destruct (Z.leb_spec (zlen (b :: bs)) count) as [Hle|Hgt].
  - eexists _, _. split; [done|]. split; [by split_and!|].
    split; [rewrite zlen_cons in *; zlen_facts; lia|]. done.
  - set (got := take (Z.to_nat count) (b :: bs)).
    assert (Hg : zlen got = count) by (unfold got; rewrite zlen_take; unfold zlen in *; lia).
    eexists got, _. rewrite Hg at 1. split; [done|]. split; [by split_and!|]. split; [lia|].
    intros k n. simpl inbox. change (deliver k n (Arrives (b :: bs) :: r)) with
      ((b :: bs) ++ deliver k k r).
    rewrite <-(take_drop (Z.to_nat count) (b :: bs)) at 1. fold got. rewrite <-app_assoc. f_equal.
    destruct (drop (Z.to_nat count) (b :: bs)) as [|x xs] eqn:E2; [|done].
    apply (f_equal length) in E2. rewrite length_drop in E2. unfold zlen in *. simpl in *. lia.
Qed.

(** One round of the loop of [tcp_read]. *)
Inductive round (s : socket) (count : Z) (m : socket -> res (Z * list Z * socket))
    : res (Z * list Z * socket) -> Prop :=
| round_data got s' :
    same_out s s' -> 0 < zlen got <= count ->
    (forall k n, deliver k n (inbox s) = got ++ deliver k k (inbox s')) ->
    round s count m (Ret (zlen got, got, s'))
| round_stop s' :
    same_out s s' -> (forall k n, deliver k n (inbox s) = []) ->
    round s count m (Ret (-1, [], s'))
| round_retry s' :
    same_out s s' ->
    (forall k n, deliver k n (inbox s) =
       match n with O => [] | S n' => deliver k n' (inbox s') end) ->
    round s count m (m s').

Lemma tcp_read_rounds s count m :
  0 < count -> 0 <= fd s -> round s count m (tcp_read_round s count m).
Proof.
  intros Hc Hfd. pose proof (read_spec s count Hc) as Hrd.
  unfold tcp_read_round, socket_poll_for, guard. rewrite (proj2 (Z.leb_le _ _) Hfd). simpl.
  change (poll s POLLIN) with (poll_in s). unfold poll_in.
  destruct s as [f e0 [|a r] ob an]; simpl in *; [by apply round_retry; [|intros ? []]|].
  destruct a as [[|b bs]| | | | |e|e|]; try destruct e; simpl.
  2:{ destruct Hrd as (got & s' & -> & Ho & Hlen & Hd).
      rewrite (proj2 (Z.ltb_lt 0 (zlen got))) by lia. by apply round_data. }
  all: unfold read; simpl; rewrite ?zlen_nil, ?(proj2 (Z.leb_le 0 count)) by lia; simpl.
  all: first [by apply round_stop | by apply round_retry; [|intros ? []]].
Qed.

Lemma tcp_read_spec retries left s count :
  0 < count -> 0 <= fd s ->
  wpr (tcp_read left s count) (fun '(k, bs, s') =>
    same_out s s' /\
    ((0 < k <= count /\ k = zlen bs /\
      deliver retries left (inbox s) = bs ++ deliver retries retries (inbox s')) \/
     (k = -1 /\ bs = [] /\ deliver retries left (inbox s) = []))).
Proof.
  intros Hc. revert s. induction left as [|left IH]; intros s Hfd; simpl; wp.
  all: match goal with |- wpr (tcp_read_round _ _ ?m) _ =>
         destruct (tcp_read_rounds s count m Hc Hfd) as [got s' Ho Hl Hd|s' Ho Hd|s' Ho Hd] end.
  all: try (simpl; split; [done|]; first [by left | by right; rewrite Hd]).
  eapply wpr_mono; [apply IH; by destruct Ho as (_ & _ & ->)|].
  intros [[k bs] s2] (Ho2 & Hk). rewrite Hd. split; [|done].
  destruct Ho as (? & ? & ?), Ho2 as (? & ? & ?). split_and!; congruence.
Qed.

(** What a read of the socket does: at most [count] of the next bytes, at once
    even when they are fewer, or -1 and nothing. *)
Lemma socket_read_spec s count retries :
  0 < count -> 0 <= fd s ->
  wpr (socket_read s count retries) (fun '(k, bs, s') =>
    same_out s s' /\
    ((0 < k <= count /\ k = zlen bs /\
      deliver retries retries (inbox s) = bs ++ deliver retries retries (inbox s')) \/
     (k = -1 /\ bs = [] /\ deliver retries retries (inbox s) = []))).
Proof. apply tcp_read_spec. Qed.

(** * What is sent *)

(** One round of the loop of [tcp_write]. *)
Definition wrote (s : socket) (bs : list Z) (s' : socket) : Prop :=
  inbox s' = inbox s /\ fd s' = fd s /\ outbox s' = outbox s ++ bs /\
  (answers s = [] -> answers s' = []).

Inductive write_round (s : socket) (buf : list Z) (m : socket -> list Z -> res (status * socket))
    : res (status * socket) -> Prop :=
| wround_stop s' :
    wrote s [] s' -> answers s <> [] -> write_round s buf m (Ret (failure, s'))
| wround_again now later s' :
    buf = now ++ later -> wrote s now s' -> (answers s = [] -> later = []) ->
    write_round s buf m (m s' later).

Lemma tcp_write_rounds s buf m :
  0 <= fd s -> write_round s buf m (tcp_write_round s buf m).
Proof.
  intros Hfd. unfold tcp_write_round, socket_poll_for, guard.
  rewrite (proj2 (Z.leb_le _ _) Hfd). simpl.
  change (poll s POLLOUT) with (poll_out s). unfold poll_out.
  destruct s as [f e0 ib ob [|a r]]; simpl in *.
  { rewrite (proj2 (Z.eqb_neq (zlen buf) (-1))) by (zlen_facts; lia).
    rewrite drop_ge by (unfold zlen; lia). apply (wround_again _ _ _ buf []); [|done|done].
    by rewrite app_nil_r. }
  destruct a as [n| | | | |e|e]; try destruct e; simpl.
  1:{ unfold write. simpl. destruct (Z.leb_spec (zlen buf) (Z.of_nat n)).
      all: rewrite (proj2 (Z.eqb_neq _ (-1))) by (zlen_facts; lia).
      - rewrite drop_ge by (unfold zlen; lia). apply (wround_again _ _ _ buf []); [|done|done].
        by rewrite app_nil_r.
      - rewrite Nat2Z.id. apply (wround_again _ _ _ (take n buf)); [by rewrite take_drop|done|done]. }
  all: first [ by apply wround_stop; [split_and!; rewrite ?app_nil_r|]
             | by apply (wround_again _ _ _ []); [|split_and!; rewrite ?app_nil_r|] ].
Qed.

Lemma tcp_write_spec left s buf :
  0 <= fd s ->
  wpr (tcp_write left s buf) (fun '(st, s') =>
    inbox s' = inbox s /\ fd s' = fd s /\
    (answers s = [] -> st = success /\ answers s' = []) /\
    exists now later, buf = now ++ later /\ outbox s' = outbox s ++ now /\
      (st = success -> later = [])).
Proof.
  revert s buf. induction left as [|left IH]; intros s buf Hfd; simpl; wp.
  all: match goal with |- wpr (tcp_write_round _ _ ?m) _ =>
         destruct (tcp_write_rounds s buf m Hfd)
           as [s' (Hi & Hf & Ho & Ha) Hn|now later s' -> (Hi & Hf & Ho & Ha) Hn] end.
  all: try (simpl; split_and!; [done..|by exists [], buf]).
  all: unfold tcp_write_end; destruct (Z.ltb_spec 0 (zlen later)) as [Hl|Hl].
  - rewrite (proj2 (Z.eqb_neq (zlen later) 0)) by lia. simpl. split_and!; try done.
    + intros Hs. by rewrite (Hn Hs) in Hl.
    + by exists now, later.
  - assert (later = []) as -> by (apply zlen_0; zlen_facts; lia). simpl. split_and!; try done.
    + auto.
    + by exists now, [].
  - eapply wpr_mono; [apply IH; by rewrite Hf|].
    intros [st s2] (Hi2 & Hf2 & Ha2 & now2 & later2 & -> & Ho2 & Hst).
    split_and!; [congruence|congruence|auto|].
    exists (now ++ now2), later2. rewrite Ho2, Ho, <-!app_assoc. done.
  - assert (later = []) as -> by (apply zlen_0; zlen_facts; lia). simpl. split_and!; try done.
    + auto.
    + by exists now, [].
Qed.

(** A write of the socket sends all of [src] or fails after a part of it; it
    does not tell how large that part was. *)
Lemma socket_write_spec s src retries :
  0 <= fd s ->
  wpr (socket_write s src retries) (fun '(st, s') =>
    inbox s' = inbox s /\ fd s' = fd s /\
    (answers s = [] -> st = success /\ answers s' = []) /\
    (st = success -> outbox s' = outbox s ++ src) /\
    exists now later, src = now ++ later /\ outbox s' = outbox s ++ now).
Proof.
  intros Hfd. eapply wpr_mono; [by apply tcp_write_spec|].
  intros [st s'] (Hi & Hf & Ha & now & later & -> & Ho & Hst). split_and!; try done.
  - intros Hs. by rewrite (Hst Hs), app_nil_r.
  - by exists now, later.
Qed.
