(* ===== verification/Connection.v ===== *)
(** Connection: the buffered connection of meta/src/connection.c.

    A [connection] reads through one [membuf] and writes through another, above a
    socket of Gensocket.  The timeouts only reach [poll] and are left out.

    [incoming c] are the bytes the reader has not seen yet, in the read buffer
    or still on the wire; [outgoing c] are the bytes written so far, on the wire
    or in the write buffer.  Every operation is described by its effect on the
    two. *)

From Stdlib Require Import ZArith Lia.
From stdpp Require Import base list numbers.
From S2P Require Import Prelude Membuf Gensocket.

(** * Data *)

Record connection : Set := Conn {
  retries_reads : nat;
  retries_writes : nat;
  persistent : bool;
  cn_sock : socket;
  readbuf : option membuf;
  writebuf : option membuf;
  incoming_bytes : Z;
  outgoing_bytes : Z;
  conn_established : Z;
  request_started : Z;
}.

Definition set_sock (s : socket) (c : connection) : connection :=
  Conn (retries_reads c) (retries_writes c) (persistent c) s (readbuf c) (writebuf c) (incoming_bytes c) (outgoing_bytes c)
    (conn_established c) (request_started c).
Definition set_readbuf (mb : option membuf) (c : connection) : connection :=
  Conn (retries_reads c) (retries_writes c) (persistent c) (cn_sock c) mb (writebuf c) (incoming_bytes c) (outgoing_bytes c)
    (conn_established c) (request_started c).
Definition set_writebuf (mb : option membuf) (c : connection) : connection :=
  Conn (retries_reads c) (retries_writes c) (persistent c) (cn_sock c) (readbuf c) mb (incoming_bytes c) (outgoing_bytes c)
    (conn_established c) (request_started c).
Definition set_counts (i o : Z) (c : connection) : connection :=
  Conn (retries_reads c) (retries_writes c) (persistent c) (cn_sock c) (readbuf c) (writebuf c) i o
    (conn_established c) (request_started c).
Definition connection_set_persistent (val : bool) (c : connection) : connection :=
  Conn (retries_reads c) (retries_writes c) val (cn_sock c) (readbuf c) (writebuf c) (incoming_bytes c) (outgoing_bytes c)
    (conn_established c) (request_started c).

Definition connection_is_persistent (c : connection) : bool := persistent c.

(** A buffer that has to be there. *)
Definition the (mb : option membuf) : res membuf :=
  match mb with
  | Some mb => Ret mb
  | None => Fault AssertFailed
  end.

(** * Operations *)

Definition reset_counters (now : Z) (c : connection) : connection :=
  Conn (retries_reads c) (retries_writes c) (persistent c) (cn_sock c) (readbuf c) (writebuf c) 0 0 now now.

Definition sizeof_connection : Z := 256.

(** The wire behind the socket is [inb] and [ans]. *)
Definition connection_new (inb : list arrival) (ans : list departure)
    (retries_reads retries_writes : nat) (now : Z) : C (option connection) :=
  let* ok := alloc_ok sizeof_connection in
  if negb ok then ret None
  else
    let* s := socket_new inb ans in
    ret (match s with
         | None => None
         | Some s =>
             Some (reset_counters now (Conn retries_reads retries_writes false s None None 0 0 0 0))
         end).

Definition connection_reclaim_read_buffer (c : connection) : option membuf * connection :=
  (readbuf c, set_readbuf None c).
Definition connection_reclaim_write_buffer (c : connection) : option membuf * connection :=
  (writebuf c, set_writebuf None c).

Definition connection_assign_read_buffer (c : connection) (mb : membuf) : res connection :=
  match readbuf c with
  | None => Ret (set_readbuf (Some mb) c)
  | Some _ => Fault AssertFailed
  end.
Definition connection_assign_write_buffer (c : connection) (mb : membuf) : res connection :=
  match writebuf c with
  | None => Ret (set_writebuf (Some mb) c)
  | Some _ => Fault AssertFailed
  end.

Definition readbuf_empty (c : connection) : res bool :=
  let+ mb := the (readbuf c) in
  let+ n := membuf_canread mb in
  Ret (n =? 0).

(** The socket writes straight into the buffer's block. *)
Definition fill_read_buffer (c : connection) : res (status * connection) :=
  let+ mb := the (readbuf c) in
  let+ n := membuf_canread mb in
  r_assert (n =? 0);;
  let mb := membuf_reset mb in
  let+ (got, bs, s) := socket_read (cn_sock c) (membuf_size mb) (retries_reads c) in
  let+ d := wr (membuf_data mb) 0 (Some <$> bs) in
  let mb := mk_membuf (size mb) (nwritten mb) (nread mb) d in
  let c := set_sock s c in
  if 0 <? got
  then
    let c := set_counts (u64 (incoming_bytes c + got)) (outgoing_bytes c) c in
    let+ mb := membuf_set_written mb got in
    Ret (success, set_readbuf (Some mb) c)
  else Ret (failure, set_readbuf (Some mb) c).

Definition writebuf_has_room_for (c : connection) (count : Z) : res bool :=
  let+ mb := the (writebuf c) in
  Ret (count <=? membuf_canwrite mb).

(** The bytes [membuf_data] shows, [count] of them from the start. *)
Definition initialised (b : block) : res (list Z) :=
  match mapM id b with
  | Some bs => Ret bs
  | None => Fault Uninitialised
  end.

Definition connection_flush (c : connection) : res (status * connection) :=
  let+ mb := the (writebuf c) in
  let+ count := membuf_canread mb in
  if 0 <? count then
    let+ d := rd (membuf_data mb) 0 count in
    let+ bs := initialised d in
    let+ (rc, s) := socket_write (cn_sock c) bs (retries_writes c) in
    let c := set_sock s c in
    match rc with
    | success =>
        let c := set_counts (incoming_bytes c) (u64 (outgoing_bytes c + count)) c in
        Ret (success, set_writebuf (Some (membuf_reset mb)) c)
    | failure => Ret (failure, c)
    end
  else Ret (success, c).

(** [rc] is what [close] returns. *)
Definition connection_close (rc : Z) (c : connection) : res (status * connection) :=
  let+ r := connection_flush c in
  let (fs, c) := r in
  let (cs, s) := socket_close rc (cn_sock c) in
  let c := set_sock s c in
  r_assert (socket_get_fd s =? -1);;
  Ret (match fs, cs with success, success => success | _, _ => failure end, c).

Definition connection_getc (c : connection) : res (status * Z * connection) :=
  let+ e := readbuf_empty c in
  let+ r := (if e : bool then fill_read_buffer c else Ret (success, c)) in
  match r with
  | (failure, c) => Ret (failure, 0, c)
  | (success, c) =>
      let+ mb := the (readbuf c) in
      let+ x := membuf_read mb 1 in
      let '(n, cells, mb) := x in
      let c := set_readbuf (Some mb) c in
      if negb (n =? 1) then Ret (failure, 0, c)
      else match cells with
           | Some b :: _ => Ret (success, b, c)
           | _ => Fault Uninitialised
           end
  end.

Definition connection_ungetc (c : connection) : res (status * connection) :=
  let+ mb := the (readbuf c) in
  let (st, mb) := membuf_unget mb in
  Ret (st, set_readbuf (Some mb) c).

(** The end of [connection_write]: into the buffer when there is room, straight
    to the socket when there is not. *)
Definition write_or_send (c : connection) (buf : list Z) : res (status * connection) :=
  let count := zlen buf in
  let+ room := writebuf_has_room_for c count in
  if room : bool then
    let+ mb := the (writebuf c) in
    let+ x := membuf_write mb buf count in
    let (n, mb) := x in
    Ret (if n =? count then success else failure, set_writebuf (Some mb) c)
  else
    let+ (rc, s) := socket_write (cn_sock c) buf (retries_writes c) in
    let c := set_sock s c in
    match rc with
    | success =>
        Ret (success, set_counts (incoming_bytes c) (u64 (outgoing_bytes c + count)) c)
    | failure => Ret (failure, c)
    end.

Definition connection_write (c : connection) (buf : list Z) : res (status * connection) :=
  let+ room := writebuf_has_room_for c (zlen buf) in
  let+ r := (if room : bool then Ret (success, c) else connection_flush c) in
  match r with
  | (failure, c) => Ret (failure, c)
  | (success, c) => write_or_send c buf
  end.

(** [copy_from_readbuf] and what follows it; the result is the value returned
    and the bytes stored in the caller's buffer. *)
Definition connection_read (c : connection) (count : Z) : res (Z * list Z * connection) :=
  let+ mb := the (readbuf c) in
  let+ x := membuf_read mb count in
  let '(ncopied, cells, mb) := x in
  let+ bs := initialised cells in
  let c := set_readbuf (Some mb) c in
  if ncopied =? count then Ret (ncopied, bs, c)
  else
    let count := u64 (count - ncopied) in
    if membuf_size mb <? count then
      let+ e := readbuf_empty c in
      r_assert e;;
      let+ (nread, more, s) := socket_read (cn_sock c) count (retries_reads c) in
      let c := set_sock s c in
      if 0 <? nread
      then Ret (nread + ncopied, bs ++ more,
                set_counts (u64 (incoming_bytes c + nread)) (outgoing_bytes c) c)
      else if nread =? -1 then Ret (-1, bs, c)
      else Ret (nread + ncopied, bs, c)
    else
      let+ r := fill_read_buffer c in
      match r with
      | (failure, c) => Ret (-1, bs, c)
      | (success, c) =>
          let+ mb := the (readbuf c) in
          let+ x := membuf_read mb count in
          let '(nread, cells, mb) := x in
          let+ more := initialised cells in
          Ret (ncopied + nread, bs ++ more, set_readbuf (Some mb) c)
      end.

Definition connection_putc (c : connection) (x : Z) : res (status * connection) :=
  connection_write c [u8 x].

Definition connection_puts (c : connection) (s : list Z) : res (status * connection) :=
  let+ r := connection_write c s in
  match r with
  | (success, c) => connection_flush c
  | (failure, c) => Ret (failure, c)
  end.

(** [n] is the room left, [d] what was stored. *)
Fixpoint gets_loop (n : nat) (c : connection) (d : list Z) : res (status * list Z * connection) :=
  match n with
  | O => Ret (success, d, c)
  | S n' =>
      let+ r := connection_getc c in
      match r with
      | (failure, _, c) => Ret (failure, d, c)
      | (success, x, c) =>
          let d := d ++ [x] in
          if x =? 10 then Ret (success, d, c) else gets_loop n' c d
      end
  end.

(** The status, the bytes stored (the terminator included, when there is
    one), the connection. *)
Definition connection_gets (c : connection) (destsize : Z) : res (status * list Z * connection) :=
  r_assert (0 <? destsize);;
  let+ r := gets_loop (Z.to_nat destsize) c [] in
  let '(rc, d, c) := r in
  match rc with
  | success => Ret (success, if zlen d <? destsize then d ++ [0] else d, c)
  | failure => Ret (failure, d, c)
  end.

Definition connection_write_big_buffer (c : connection) (buf : list Z) (nretries : nat)
    : res (status * connection) :=
  r_assert (0 <? Z.of_nat nretries);;
  let+ r := connection_flush c in
  match r with
  | (failure, c) => Ret (failure, c)
  | (success, c) =>
      let+ (rc, s) := socket_write (cn_sock c) buf nretries in Ret (rc, set_sock s c)
  end.

(** Network byte order, [n] bytes. *)
Fixpoint to_bytes (n : nat) (v : Z) : list Z :=
  match n with
  | O => []
  | S n' => u8 (Z.shiftr v (8 * Z.of_nat n')) :: to_bytes n' v
  end.

Definition of_bytes (bs : list Z) : Z := fold_left (fun a b => a * 256 + b) bs 0.

Definition connection_write_uint (n : nat) (c : connection) (v : Z) : res (status * connection) :=
  connection_write c (to_bytes n v).

Definition connection_write_u16 := connection_write_uint 2.
Definition connection_write_u32 := connection_write_uint 4.
Definition connection_write_u64 := connection_write_uint 8.

Definition connection_read_uint (n : nat) (c : connection) : res (status * Z * connection) :=
  let+ r := connection_read c (Z.of_nat n) in
  let '(k, bs, c) := r in
  if k =? Z.of_nat n then Ret (success, of_bytes bs, c) else Ret (failure, 0, c).

Definition connection_read_u16 := connection_read_uint 2.
Definition connection_read_u32 := connection_read_uint 4.
Definition connection_read_u64 := connection_read_uint 8.

Definition connection_recycle (rc now : Z) (c : connection) : connection :=
  let (_, s) := socket_close rc (cn_sock c) in
  reset_counters now (connection_set_persistent false (set_sock s c)).

Definition connection_free (c : connection) : res unit := socket_free (cn_sock c).

Definition data_on_socket (c : connection) : res (bool * connection) :=
  let+ (st, s) := socket_wait_for_data (cn_sock c) in
  Ret (match st with success => true | failure => false end, set_sock s c).

Definition connection_set_params (now : Z) (c : connection) : connection := reset_counters now c.

(** * The two streams *)

(** What the wire delivers before a read fails. *)
Definition wire (c : connection) : list Z :=
  deliver (retries_reads c) (retries_reads c) (inbox (cn_sock c)).

(** [rep c inc out]: the reader of [c] will see [inc], the bytes [out] were
    written. *)
Definition rep (c : connection) (inc out : list Z) : Prop :=
  exists rb wb h q w,
    readbuf c = Some rb /\ view rb h q /\ writebuf c = Some wb /\ view wb [] w /\
    0 <= fd (cn_sock c) /\ inc = q ++ wire c /\ out = outbox (cn_sock c) ++ w.

(** A read leaves the writing side alone, and the other way round. *)
Definition reads (c c' : connection) : Prop :=
  persistent c' = persistent c /\ writebuf c' = writebuf c /\
  answers (cn_sock c') = answers (cn_sock c) /\ fd (cn_sock c') = fd (cn_sock c) /\
  retries_reads c' = retries_reads c /\ retries_writes c' = retries_writes c.
Definition flushes (c c' : connection) : Prop :=
  persistent c' = persistent c /\ readbuf c' = readbuf c /\
  inbox (cn_sock c') = inbox (cn_sock c) /\ fd (cn_sock c') = fd (cn_sock c) /\
  retries_reads c' = retries_reads c /\ retries_writes c' = retries_writes c.

(** What was written so far, on the wire and in the buffer, and the space left in
    the buffer. *)
Definition total (c : connection) : Z :=
  zlen (outbox (cn_sock c)) + match writebuf c with Some wb => nwritten wb | None => 0 end.
Definition room (c : connection) : Z :=
  match writebuf c with Some wb => size wb - nwritten wb | None => 0 end.

(** The socket takes everything. *)
Definition reliable (c : connection) : Prop := answers (cn_sock c) = [].

(** A write also leaves the socket alone as long as the buffer has room. *)
Definition writes (c c' : connection) : Prop :=
  flushes c c' /\
  (reliable c -> reliable c' /\ total c <= total c' /\
     (total c' - total c <= room c ->
        outbox (cn_sock c') = outbox (cn_sock c) /\ room c' = room c - (total c' - total c))).

#[export] Instance reads_preorder : PreOrder reads.
Proof.
  split; [by intros c|]. intros a b c (? & ? & ? & ? & ? & ?) (? & ? & ? & ? & ? & ?).
  split_and!; congruence.
Qed.
#[export] Instance flushes_preorder : PreOrder flushes.
Proof.
  split; [by intros c|]. intros a b c (? & ? & ? & ? & ? & ?) (? & ? & ? & ? & ? & ?).
  split_and!; congruence.
Qed.
#[export] Instance writes_preorder : PreOrder writes.
Proof.
  split.
  - intros c. split; [done|]. intros Hr. split; [done|]. split; [lia|]. intros _. split; [done|lia].
  - intros a b c [Hf1 H1] [Hf2 H2]. split; [by etrans|]. intros Hr.
    destruct (H1 Hr) as (Hr1 & Ht1 & Hl1). destruct (H2 Hr1) as (Hr2 & Ht2 & Hl2).
    split; [done|]. split; [lia|]. intros Hroom. destruct Hl1 as [Ho1 Hs1]; [lia|].
    destruct Hl2 as [Ho2 Hs2]; [lia|]. split; [congruence|lia].
Qed.

Lemma view_canread mb h q : view mb h q -> membuf_canread mb = Ret (zlen q).
Proof.
  intros (junk & Hd & Hsz & Hb & Hr & Hw & _). unfold membuf_canread. rewrite Hr, Hw.
  rewrite Hd in Hsz. autorewrite with zlen in Hsz. zlen_facts.
  unfold guard. rewrite (proj2 (Z.leb_le _ _)) by lia. simpl.
  rewrite (proj2 (Z.leb_le _ _)) by lia. simpl. f_equal. lia.
Qed.

Lemma initialised_bytes bs : initialised (Some <$> bs) = Ret bs.
Proof. unfold initialised. by rewrite mapM_Some. Qed.

Lemma view_filled mb h q bs :
  view mb h q -> zlen bs <= size mb ->
  exists d, wr (membuf_data (membuf_reset mb)) 0 (Some <$> bs) = Ret d /\
    (0 < zlen bs -> view (mk_membuf (size mb) (zlen bs) 0 d) [] bs) /\
    view (mk_membuf (size mb) 0 0 d) [] [].
Proof.
  intros (junk & Hd & Hsz & Hb & Hr & Hw & _) Hle.
  eexists. split; [apply wr_head; rewrite zlen_fmap; simpl; lia|].
  assert (Hlen : zlen ((Some <$> bs) ++ drop (length (Some <$> bs)) (data mb)) = size mb).
  { rewrite zlen_app, zlen_fmap, zlen_drop; simpl; rewrite ?length_fmap; unfold zlen in *; lia. }
  split.
  - intros Hpos. eexists. simpl. split; [done|]. split; [by rewrite Hlen|].
    split_and!; done || lia.
  - eexists. simpl. split; [reflexivity|]. split; [by rewrite Hlen|]. split_and!; done || lia.
Qed.

Lemma fill_read_buffer_spec c rb h wb w :
  readbuf c = Some rb -> view rb h [] -> writebuf c = Some wb -> view wb [] w ->
  0 <= fd (cn_sock c) ->
  wpr (fill_read_buffer c) (fun '(st, c') =>
    reads c c' /\ outbox (cn_sock c') = outbox (cn_sock c) /\
    exists rb' q, readbuf c' = Some rb' /\ view rb' [] q /\ size rb' = size rb /\
      match st with
      | success => 0 < zlen q /\
          wire c = q ++ wire c'
      | failure => q = [] /\ wire c = []
      end).
Proof.
  intros Hrb Hv Hwb Hvw Hfd. unfold fill_read_buffer. rewrite Hrb. simpl. wp.
  rewrite (view_canread _ _ _ Hv). wp. unfold membuf_size. simpl.
  assert (Hpos : 0 < size rb) by (destruct Hv as (? & _ & _ & ? & _); lia).
  wp. eapply wpr_mono; [by apply socket_read_spec|].
  intros [[k bs] s] ((Ho & Han & Hop) & Hcase).
  assert (Hle : zlen bs <= size rb).
  { destruct Hcase as [(? & -> & _)|(_ & -> & _)]; [|rewrite zlen_nil]; lia. }
  destruct (view_filled rb h [] bs Hv Hle) as (d & Hd & Hd1 & Hd2).
  wp. unfold membuf_reset, membuf_data in *. simpl in *. rewrite Hd. wp. simpl.
  destruct Hcase as [(Hk & -> & Hin)|(-> & -> & Hin)].
  - rewrite (proj2 (Z.ltb_lt 0 (zlen bs))) by lia. unfold membuf_set_written. simpl. wp. simpl.
    split; [by split_and!|]. split; [done|].
    eexists _, bs. by split_and!; [reflexivity|apply Hd1; lia| |lia|].
  - simpl. split; [by split_and!|]. split; [done|]. eexists _, []. by split_and!.
Qed.

Lemma connection_getc_spec c inc out :
  rep c inc out ->
  wpr (connection_getc c) (fun '(st, x, c') =>
    reads c c' /\
    match inc with
    | [] => st = failure /\ exists inc', rep c' inc' out
    | y :: inc' => st = success /\ x = y /\ rep c' inc' out
    end).
Proof.
  intros (rb & wb & h & q & w & Hrb & Hv & Hwb & Hvw & Hfd & -> & ->).
  unfold connection_getc, readbuf_empty. rewrite Hrb. simpl. wp.
  rewrite (view_canread _ _ _ Hv). wp. simpl.
  assert (Hread : forall c1 rb1 h1 y q1, reads c c1 -> readbuf c1 = Some rb1 ->
    view rb1 h1 (y :: q1) -> outbox (cn_sock c1) = outbox (cn_sock c) ->
    wpr (res_bind (the (readbuf c1)) (fun mb => res_bind (membuf_read mb 1) (fun '(n, cells, mb) =>
      if negb (n =? 1) then Ret (failure, 0, set_readbuf (Some mb) c1)
      else match cells with
           | Some b :: _ => Ret (success, b, set_readbuf (Some mb) c1)
           | _ => Fault Uninitialised
           end)))
      (fun '(st, x, c') => reads c c' /\ st = success /\ x = y /\
        rep c' (q1 ++ wire c1) (outbox (cn_sock c) ++ w))).
  { intros c1 rb1 h1 y q1 Hrd Hrb1 Hv1 Ho1. rewrite Hrb1. simpl. wp.
    eapply wpr_mono; [by apply membuf_read_spec|]. intros [[n cells] mb]. cbn [fst snd].
    intros (-> & -> & Hsz & Hview). rewrite zlen_cons in *. zlen_facts.
    replace (Z.min 1 (1 + zlen q1)) with 1 in * by lia.
    assert (Hview' : view mb [] [] /\ q1 = [] \/ view mb (h1 ++ [y]) q1).
    { destruct (Z.eqb_spec 1 (1 + zlen q1)) as [He|He]; [left|by right].
      split; [done|]. apply zlen_0. lia. }
    simpl in *.
    split; [etrans; [done|by split_and!]|]. split; [done|]. split; [done|].
    destruct Hrd as (_ & Hwb1 & _ & Hf1 & _).
    destruct Hview' as [[Hv2 ->]|Hv2].
    - exists mb, wb, [], [], w. simpl. rewrite Ho1, Hwb1, Hf1. by split_and!.
    - exists mb, wb, (h1 ++ [y]), q1, w. simpl. rewrite Ho1, Hwb1, Hf1.
      by split_and!. }
  destruct q as [|y q].
  - simpl. wp. eapply wpr_mono; [by eapply fill_read_buffer_spec|].
    intros [st c1] (Hrd & Ho & rb1 & q1 & Hrb1 & Hv1 & Hsz1 & Hst).
    destruct st.
    + destruct Hst as [-> Hin]. simpl in *. rewrite Hin. split; [done|]. split; [done|].
      eexists. exists rb1, wb, [], [], w. destruct Hrd as (_ & Hwb1 & _ & Hf1 & _).
      rewrite Hwb1, Ho, Hf1. by split_and!.
    + destruct Hst as [Hpos Hin]. destruct q1 as [|y q1]; [done|].
      rewrite Hin. simpl. eapply wpr_mono; [by eapply (Hread c1 rb1 [] y q1)|].
      intros [[st x] c'] H. done.
  - rewrite (proj2 (Z.eqb_neq (zlen (y :: q)) 0)) by (rewrite zlen_cons; zlen_facts; lia).
    simpl. eapply wpr_mono; [by eapply (Hread c rb h y q)|]. intros [[st x] c'] H. done.
Qed.

(** * Writing *)

Lemma total_rep c inc out : rep c inc out -> total c = zlen out.
Proof.
  intros (rb & wb & h & q & w & _ & _ & Hwb & (junk & _ & _ & _ & _ & Hw & _) & _ & _ & ->).
  unfold total. rewrite Hwb, Hw. rewrite zlen_app, zlen_nil. lia.
Qed.

Lemma room_canwrite c wb w :
  writebuf c = Some wb -> view wb [] w -> room c = membuf_canwrite wb /\ nwritten wb = zlen w.
Proof.
  intros Hwb Hv. destruct (membuf_canwrite_spec _ _ _ Hv) as [-> _].
  destruct Hv as (junk & _ & _ & _ & _ & Hw & _). unfold room. rewrite Hwb, Hw, zlen_nil. lia.
Qed.

Lemma connection_flush_spec c inc out :
  rep c inc out ->
  wpr (connection_flush c) (fun '(st, c') =>
    flushes c c' /\ (reliable c -> st = success /\ reliable c') /\
    (st = success -> rep c' inc out /\ outbox (cn_sock c') = out /\
      exists wb', writebuf c' = Some wb' /\ view wb' [] [] /\
        forall wb, writebuf c = Some wb -> size wb' = size wb)).
Proof.
  intros (rb & wb & h & q & w & Hrb & Hv & Hwb & Hvw & Hfd & -> & ->).
  unfold connection_flush. rewrite Hwb. simpl. wp. rewrite (view_canread _ _ _ Hvw). wp.
  destruct (Z.ltb_spec 0 (zlen w)) as [Hpos|Hz].
  - destruct (membuf_reset_spec _ _ _ Hvw) as [Hr Hrs].
    destruct Hvw as (junk & Hd & Hsz & Hb & Hrd & Hwr & Hq).
    unfold membuf_data. rewrite Hd. simpl.
    rewrite rd_head by (by rewrite zlen_fmap). wp. rewrite initialised_bytes. wp.
    eapply wpr_mono; [by apply socket_write_spec|]. intros [st s] (Hi & Hop & Hrel & Hout & _).
    destruct st; simpl; (split; [by split_and!|]); (split; [done|]); [done|].
    intros _. specialize (Hout eq_refl). split; [|split; [by rewrite Hout|]].
    + exists rb, (membuf_reset wb), h, q, []. unfold wire. simpl.
      rewrite Hi, Hout, Hop, app_nil_r. by split_and!.
    + eexists. split; [done|]. split; [done|]. intros wb0 [= <-]. done.
  - assert (w = []) as -> by (apply zlen_0; zlen_facts; lia). simpl.
    split; [by split_and!|]. split; [done|]. intros _. rewrite app_nil_r. split; [|split; [done|]].
    + exists rb, wb, h, q, []. rewrite app_nil_r. by split_and!.
    + exists wb. split; [done|]. split; [done|]. intros ? [= <-]. done.
Qed.

Lemma write_or_send_spec c inc out bs :
  rep c inc out ->
  wpr (write_or_send c bs) (fun '(st, c') =>
    writes c c' /\ (reliable c -> st = success /\ reliable c') /\
    ((writebuf_has_room_for c (zlen bs) = Ret true \/
      exists wb, writebuf c = Some wb /\ view wb [] []) ->
     st = success -> rep c' inc (out ++ bs))).
Proof.
  intros (rb & wb & h & q & w & Hrb & Hv & Hwb & Hvw & Hfd & -> & ->).
  unfold write_or_send, writebuf_has_room_for. rewrite Hwb. simpl. wp.
  destruct (Z.leb_spec (zlen bs) (membuf_canwrite wb)) as [Hle|Hgt].
  - wp. eapply wpr_mono; [by apply membuf_write_spec|]. intros [n mb]. cbn [fst snd].
    destruct (membuf_canwrite_spec _ _ _ Hvw) as [Hcw _]. rewrite zlen_nil, Z.sub_0_r in *.
    intros (-> & Hsz & Hview). rewrite Z.min_l in * by lia. rewrite Z.eqb_refl.
    rewrite take_ge in Hview by (unfold zlen; lia).
    destruct (room_canwrite _ _ _ Hwb Hvw) as [Hroom Hnw].
    assert (Hw' : writes c (set_writebuf (Some mb) c)).
    { split; [by split_and!|]. intros Hr. split; [done|]. unfold total, room. cbn.
      pose proof Hview as (j & _ & _ & _ & _ & Hn & _). rewrite Hwb, Hnw, Hsz, Hn.
      autorewrite with zlen. zlen_facts. split; [lia|]. intros _. split; [done|lia]. }
    split; [exact Hw'|]. split; [done|]. intros _ _.
    exists rb, mb, h, q, (w ++ bs). simpl. rewrite app_assoc. by split_and!.
  - wp. eapply wpr_mono; [by apply socket_write_spec|]. intros [st s] (Hi & Hop & Hrel & Hout & _).
    destruct (room_canwrite _ _ _ Hwb Hvw) as [Hroom _].
    assert (Hw' : forall i k, writes c (set_counts i k (set_sock s c)) /\ writes c (set_sock s c)).
    { intros i k. split; (split; [by split_and!|]); intros Hr; destruct (Hrel Hr) as [Hst Ha];
        specialize (Hout Hst); (split; [done|]); unfold total, room in *; cbn; rewrite Hout, Hwb, zlen_app in *;
        zlen_facts; (split; [lia|]); intros; lia. }
    destruct st; simpl; (split; [by apply (Hw' 0 0) || by apply Hw'|]); (split; [done|]).
    + done.
    + intros [[=]|(wb0 & [= <-] & Hv0)] _. specialize (Hout eq_refl).
      assert (w = []) as ->.
      { pose proof (view_canread _ _ _ Hvw) as E1. rewrite (view_canread _ _ _ Hv0) in E1.
        injection E1 as E1. by apply zlen_0. }
      exists rb, wb, h, q, []. unfold wire. simpl. rewrite Hi, Hout, Hop, !app_nil_r.
      by split_and!.
Qed.

Lemma connection_write_spec c inc out bs :
  rep c inc out ->
  wpr (connection_write c bs) (fun '(st, c') =>
    writes c c' /\ (reliable c -> st = success /\ reliable c') /\
    (st = success -> rep c' inc (out ++ bs))).
Proof.
  intros Hrep. unfold connection_write.
  assert (Hroom : exists b, writebuf_has_room_for c (zlen bs) = Ret b).
  { destruct Hrep as (rb & wb & h & q & w & _ & _ & Hwb & _). unfold writebuf_has_room_for.
    rewrite Hwb. by eexists. }
  destruct Hroom as [b Hb]. rewrite Hb. destruct b; simpl.
  - eapply wpr_mono; [by apply write_or_send_spec|]. intros [st c'] (H1 & H2 & H3). auto.
  - wp. eapply wpr_mono; [by apply connection_flush_spec|].
    intros [[] c1] (H1 & H2 & H3); simpl.
    + split; [split; [done|]|split; [|done]]; intros Hr; by destruct (H2 Hr).
    + destruct (H3 eq_refl) as (Hrep1 & Hob & wb1 & Hwb1 & Hv1 & _).
      eapply wpr_mono; [by apply write_or_send_spec|].
      intros [st c'] (K1 & K2 & K3).
      assert (K3' : st = success -> rep c' inc (out ++ bs)).
      { intros Hst. apply K3; [|done]. right. by exists wb1. }
      assert (Hlast : reliable c -> st = success /\ reliable c').
      { intros Hr. apply K2. by destruct (H2 Hr). }
      split; [|by split]. split; [by etrans; [exact H1|apply K1]|]. intros Hr.
      destruct (Hlast Hr) as [Hst Hr']. split; [done|].
      rewrite (total_rep _ _ _ (K3' Hst)), (total_rep _ _ _ Hrep), zlen_app. zlen_facts. split; [lia|].
      pose proof Hrep as (rb & wb & h & q & w & _ & _ & Hwb & Hvw & _).
      destruct (room_canwrite _ _ _ Hwb Hvw) as [Hroom _].
      unfold writebuf_has_room_for in Hb. rewrite Hwb in Hb. injection Hb as Hb.
      apply Z.leb_gt in Hb. intros ?. lia.
Qed.

(** * Reading many bytes *)

Lemma membuf_take c rb h q n :
  readbuf c = Some rb -> view rb h q -> 0 < n ->
  wpr (membuf_read rb n) (fun '(k, cells, mb) =>
    k = Z.min n (zlen q) /\ cells = Some <$> take (Z.to_nat k) q /\ size mb = size rb /\
    exists h', view mb h' (drop (Z.to_nat k) q)).
Proof.
  intros _ Hv Hn. eapply wpr_mono; [by apply membuf_read_spec|].
  intros [[k cells] mb]. cbn [fst snd]. intros (-> & -> & Hsz & Hview).
  split_and!; try done. destruct (Z.eqb_spec (Z.min n (zlen q)) (zlen q)) as [E|E].
  - exists []. rewrite E, drop_ge; [done|]. unfold zlen. lia.
  - by eexists.
Qed.

Lemma take_min {A} (l : list A) n :
  0 <= n -> zlen (take (Z.to_nat (Z.min n (zlen l))) l) = Z.min n (zlen l).
Proof. intros Hn. zlen_facts. rewrite zlen_take by (unfold zlen in *; lia). lia. Qed.

(** [connection_read] delivers a prefix of the stream, unless it returns -1:
    then the stream was too short, and the bytes it had copied from the buffer
    are lost. *)
Lemma connection_read_spec c inc out count :
  rep c inc out -> 0 < count < 2 ^ 64 ->
  wpr (connection_read c count) (fun '(k, bs, c') =>
    reads c c' /\ k <= count /\
    (0 <= k -> k = zlen bs /\ exists rest, inc = bs ++ rest /\ (rest <> [] -> rep c' rest out)) /\
    (k < count -> -1 <= k /\ exists inc', rep c' inc' out) /\
    (k = count -> exists rest, inc = bs ++ rest /\ rep c' rest out) /\
    k <> 0 /\ (k = -1 -> zlen inc < count)).
Proof.
  intros (rb & wb & h & q & w & Hrb & Hv & Hwb & Hvw & Hfd & -> & ->) Hc.
  unfold connection_read. rewrite Hrb. simpl. wp.
  eapply wpr_mono; [eapply (membuf_take c); [done|done|lia]|].
  intros [[k cells] mb] (Hk & -> & Hsz & h' & Hv'). cbn beta iota.
  assert (Hk0 : 0 <= k <= zlen q) by (zlen_facts; lia).
  assert (Hbs : zlen (take (Z.to_nat k) q) = k) by (rewrite Hk; apply take_min; lia).
  set (bs := take (Z.to_nat k) q) in *. rewrite initialised_bytes. wp.
  assert (Hq : q = bs ++ drop (Z.to_nat k) q) by (unfold bs; by rewrite take_drop).
  (* an exact prefix was read *)
  assert (Hexact : forall (c' : connection) bs' rest' k', reads c c' -> 0 < k' <= count ->
    k' = zlen bs' -> q ++ wire c = bs' ++ rest' ->
    rep c' rest' (outbox (cn_sock c) ++ w) ->
    reads c c' /\ k' <= count /\
    (0 <= k' -> k' = zlen bs' /\ exists rest,
       q ++ wire c = bs' ++ rest /\
       (rest <> [] -> rep c' rest (outbox (cn_sock c) ++ w))) /\
    (k' < count -> -1 <= k' /\ exists inc', rep c' inc' (outbox (cn_sock c) ++ w)) /\
    (k' = count -> exists rest, q ++ wire c = bs' ++ rest /\
       rep c' rest (outbox (cn_sock c) ++ w)) /\
    k' <> 0 /\ (k' = -1 -> zlen (q ++ wire c) < count)).
  { intros c' bs' rest' k' H1 H2 H3 H4 H5. split; [done|]. split; [lia|].
    split; [intros _; split; [done|by exists rest']|].
    split; [intros _; split; [lia|by exists rest']|]. split; [intros _; by exists rest'|].
    split; lia. }
  destruct (Z.eqb_spec k count) as [He|He].
  { eapply Hexact; [by split_and!|lia|done|by rewrite Hq, <-app_assoc at 1|].
    by exists mb, wb, h', (drop (Z.to_nat k) q), w. }
  assert (Hall : k = zlen q) by lia.
  rewrite drop_ge in Hv' by (unfold zlen in *; lia).
  assert (bs = q) as Hbq by (unfold bs; rewrite take_ge; [done|unfold zlen in *; lia]).
  rewrite Hbq in *. clear Hq. rewrite u64_small by lia. unfold membuf_size. rewrite Hsz.
  set (c1 := set_readbuf (Some mb) c).
  assert (Hr1 : reads c c1) by (by split_and!).
  destruct (Z.ltb_spec (size rb) (count - k)) as [Hlt|Hge].
  - unfold readbuf_empty. simpl. wp. rewrite (view_canread _ _ _ Hv'). wp.
    eapply wpr_mono; [by apply socket_read_spec; [lia|]|].
    intros [[n more] s] ((Ho & Han & Hop) & Hcase). simpl in Ho, Han, Hop.
    destruct Hcase as [(Hn & -> & Hin)|(-> & -> & Hin)].
    + rewrite (proj2 (Z.ltb_lt 0 (zlen more))) by lia.
      eapply Hexact; [by split_and!|zlen_facts; lia|rewrite zlen_app; lia|
        unfold wire; by rewrite Hin, app_assoc|].
      exists mb, wb, h', [], w. simpl. rewrite Ho, Hop. by split_and!.
    + simpl. split; [by split_and!|]. split; [lia|]. split; [lia|]. split.
      { intros _. split; [done|]. eexists. exists mb, wb, h', [], w. simpl. rewrite Ho, Hop.
        by split_and!. }
      split; [lia|]. split; [lia|]. intros _. unfold wire. rewrite Hin, app_nil_r. lia.
  - wp. eapply wpr_mono; [by eapply (fill_read_buffer_spec c1 mb h' wb w)|].
    intros [[] c2] (Hrd & Ho & rb2 & q2 & Hrb2 & Hv2 & Hsz2 & Hst); simpl in Ho.
    + destruct Hst as [-> Hin]. split; [by etrans|]. split; [lia|]. split; [lia|].
      split.
      { intros _. split; [done|]. eexists. exists rb2, wb, [], [], w.
        destruct Hrd as (_ & -> & _ & -> & _). rewrite Ho. by split_and!. }
      split; [lia|]. split; [lia|]. intros _. change (wire c1) with (wire c) in Hin.
      rewrite Hin, app_nil_r. lia.
    + destruct Hst as [Hpos Hin]. rewrite Hrb2. simpl. wp.
      eapply wpr_mono; [eapply (membuf_take c2); [done|done|lia]|].
      intros [[n cells] mb2] (Hn & -> & Hsz3 & h3 & Hv3). cbn beta iota.
      rewrite initialised_bytes. wp. simpl.
      assert (Hz : zlen (take (Z.to_nat n) q2) = n) by (rewrite Hn; apply take_min; lia).
      eapply Hexact; [etrans; [done|]; etrans; [done|by split_and!]|zlen_facts; lia|
        rewrite zlen_app; lia| |].
      { change (wire c1) with (wire c) in Hin. rewrite Hin, <-app_assoc, (app_assoc (take _ _)), take_drop. reflexivity. }
      exists mb2, wb, h3, (drop (Z.to_nat n) q2), w. simpl.
      destruct Hrd as (_ & -> & _ & -> & _). rewrite Ho. by split_and!.
Qed.

(** * Numbers *)

(** One read gives a piece of what is there, and not nothing. *)
Lemma connection_read_piece c data rest out :
  rep c (data ++ rest) out -> data <> [] -> zlen data < 2 ^ 63 ->
  wpr (connection_read c (zlen data)) (fun '(k, bs, c') => exists left,
    data = bs ++ left /\ bs <> [] /\ k = zlen bs /\ rep c' (left ++ rest) out).
Proof.
  intros Hrep Hne Hl. pose proof (zlen_nonneg data).
  assert (0 < zlen data) by (destruct data; [done|rewrite zlen_cons; pose proof (zlen_nonneg data); lia]).
  eapply wpr_mono; [apply (connection_read_spec c _ out (zlen data) Hrep); lia|].
  intros [[k bs] c1] (_ & Hk & Hok & Hshort & Hfull & Hk0 & Herr).
  assert (Hk1 : 0 < k).
  { destruct (Z.eq_dec k (-1)) as [->|]; [|destruct (Z.eq_dec k (zlen data)); [lia|]].
    - specialize (Herr eq_refl). rewrite zlen_app in Herr. pose proof (zlen_nonneg rest). lia.
    - destruct Hshort as [? _]; lia. }
  destruct (Hok ltac:(lia)) as (Hkb & rest' & Hsplit & Hrest).
  assert (Hle : (length bs <= length data)%nat) by (unfold zlen in *; lia).
  apply (f_equal (fun l => (take (length bs) l, drop (length bs) l))) in Hsplit as Hparts.
  rewrite take_app_length, drop_app_length, take_app_le, drop_app_le in Hparts by done.
  injection Hparts as Ht Hd. exists (drop (length bs) data).
  assert (Hdata : data = bs ++ drop (length bs) data)
    by (rewrite <-Ht at 1; by rewrite take_drop).
  split; [done|]. split; [by intros ->; rewrite zlen_nil in Hkb; lia|]. split; [done|].
  destruct (Z.eq_dec k (zlen data)) as [He|He].
  - destruct (Hfull He) as (rest'' & Hsplit' & Hrep'). rewrite Hsplit in Hsplit'.
    apply app_inv_head in Hsplit'. by rewrite Hd, Hsplit'.
  - rewrite Hd. apply Hrest. intros Hnil. rewrite Hnil in Hd. apply app_eq_nil in Hd as [Hd _].
    rewrite Hd, app_nil_r in Hdata. apply He. by rewrite Hdata.
Qed.

Lemma of_bytes_app a b : of_bytes (a ++ b) = of_bytes a * 256 ^ zlen b + of_bytes b.
Proof.
  unfold of_bytes. rewrite fold_left_app. generalize (fold_left (fun x y => x * 256 + y) a 0).
  induction b as [|x b IH]; intros v; simpl.
  - rewrite zlen_nil, Z.pow_0_r. lia.
  - rewrite (IH (v * 256 + x)), (IH (0 * 256 + x)), zlen_cons, Z.pow_add_r by (zlen_facts; lia). lia.
Qed.

Lemma to_bytes_spec n v :
  0 <= v -> of_bytes (to_bytes n v) = v mod 256 ^ Z.of_nat n /\ zlen (to_bytes n v) = Z.of_nat n.
Proof.
  intros Hv. induction n as [|n [IH IHl]]; [by rewrite Z.mod_1_r|].
  change (to_bytes (S n) v) with ([u8 (Z.shiftr v (8 * Z.of_nat n))] ++ to_bytes n v).
  rewrite of_bytes_app, zlen_app, IH, IHl. split; [|unfold zlen; simpl; lia].
  unfold of_bytes, u8. simpl. rewrite Z.shiftr_div_pow2 by lia.
  replace (2 ^ (8 * Z.of_nat n)) with (256 ^ Z.of_nat n)
    by (rewrite Z.pow_mul_r by lia; done).
  rewrite Nat2Z.inj_succ, Z.pow_succ_r by lia.
  rewrite (Z.mul_comm 256), Z.rem_mul_r by lia. lia.
Qed.

(** * Histories *)

Inductive op : Set :=
| Getc
| Read (count : Z)
| Put (bs : list Z)
| Put_uint (n : nat) (v : Z)
| Flush.

(** Runs the calls and logs the bytes received, the bytes sent and whether
    every call succeeded; a short read is not a success. *)
Fixpoint run (ops : list op) (c : connection) (rx tx : list Z) (ok : bool)
    : res (list Z * list Z * bool * connection) :=
  match ops with
  | [] => Ret (rx, tx, ok, c)
  | Getc :: ops =>
      let+ r := connection_getc c in
      let '(st, x, c) := r in
      match st with
      | success => run ops c (rx ++ [x]) tx ok
      | failure => run ops c rx tx false
      end
  | Read count :: ops =>
      let+ r := connection_read c count in
      let '(k, bs, c) := r in
      if k =? count then run ops c (rx ++ bs) tx ok else run ops c rx tx false
  | Put bs :: ops =>
      let+ r := connection_write c bs in
      let '(st, c) := r in
      match st with
      | success => run ops c rx (tx ++ bs) ok
      | failure => Ret (rx, tx, false, c)
      end
  | Put_uint n v :: ops =>
      let+ r := connection_write_uint n c v in
      let '(st, c) := r in
      match st with
      | success => run ops c rx (tx ++ to_bytes n v) ok
      | failure => Ret (rx, tx, false, c)
      end
  | Flush :: ops =>
      let+ r := connection_flush c in
      let '(st, c) := r in
      match st with
      | success => run ops c rx tx ok
      | failure => Ret (rx, tx, false, c)
      end
  end.

Definition op_ok (o : op) : Prop :=
  match o with
  | Read count => 0 < count < 2 ^ 63
  | _ => True
  end.

Lemma stream_run_spec ops c inc out rx tx ok :
  Forall op_ok ops -> rep c inc out ->
  wpr (run ops c rx tx ok) (fun '(rx', tx', ok', c') =>
    (ok' = true -> ok = true) /\
    (ok' = true -> exists r s, rx' = rx ++ r /\ tx' = tx ++ s /\
       exists inc', inc = r ++ inc' /\ rep c' inc' (out ++ s)) /\
    (reliable c -> exists s, tx' = tx ++ s /\ exists inc', rep c' inc' (out ++ s))).
Proof.
  intros Hops. revert c inc out rx tx ok.
  induction Hops as [|o ops Ho _ IH]; intros c inc out rx tx ok Hrep; simpl.
  { split; [done|]. split.
    - intros _. exists [], []. rewrite !app_nil_r. split_and!; try done. by exists inc.
    - intros _. exists []. rewrite !app_nil_r. split; [done|]. by exists inc. }
  (* the step read the bytes [r1] *)
  assert (Hrd : forall c1 r1 rest, reads c c1 -> inc = r1 ++ rest -> rep c1 rest out ->
    wpr (run ops c1 (rx ++ r1) tx ok) (fun '(rx', tx', ok', c') =>
      (ok' = true -> ok = true) /\
      (ok' = true -> exists r s, rx' = rx ++ r /\ tx' = tx ++ s /\
         exists inc', inc = r ++ inc' /\ rep c' inc' (out ++ s)) /\
      (reliable c -> exists s, tx' = tx ++ s /\ exists inc', rep c' inc' (out ++ s)))).
  { intros c1 r1 rest Hr -> Hrep1. eapply wpr_mono; [by eapply IH|].
    intros [[[rx' tx'] ok'] c'] (H1 & H2 & H3). split; [done|]. split.
    - intros Hk. destruct (H2 Hk) as (r & s & -> & -> & inc' & -> & Hrep').
      exists (r1 ++ r), s. rewrite !app_assoc. split_and!; try done. exists inc'.
      by rewrite <-!app_assoc.
    - intros Hrel. apply H3. unfold reliable in *. destruct Hr as (_ & _ & -> & _). done. }
  (* the step read nothing and failed *)
  assert (Hbad : forall c1 inc1, reads c c1 -> rep c1 inc1 out ->
    wpr (run ops c1 rx tx false) (fun '(rx', tx', ok', c') =>
      (ok' = true -> ok = true) /\
      (ok' = true -> exists r s, rx' = rx ++ r /\ tx' = tx ++ s /\
         exists inc', inc = r ++ inc' /\ rep c' inc' (out ++ s)) /\
      (reliable c -> exists s, tx' = tx ++ s /\ exists inc', rep c' inc' (out ++ s)))).
  { intros c1 inc1 Hr Hrep1. eapply wpr_mono; [by eapply IH|].
    intros [[[rx' tx'] ok'] c'] (H1 & H2 & H3).
    split; [intros Hk; by specialize (H1 Hk)|]. split; [intros Hk; by specialize (H1 Hk)|].
    intros Hrel. apply H3. unfold reliable in *. destruct Hr as (_ & _ & -> & _). done. }
  (* the step wrote the bytes [s1] *)
  assert (Hwr : forall (m : res (status * connection)) s1, wpr m (fun '(st, c') =>
      flushes c c' /\ (reliable c -> st = success /\ reliable c') /\
      (st = success -> rep c' inc (out ++ s1))) ->
    wpr (res_bind m (fun '(st, c) => match st with
      | success => run ops c rx (tx ++ s1) ok
      | failure => Ret (rx, tx, false, c)
      end)) (fun '(rx', tx', ok', c') =>
      (ok' = true -> ok = true) /\
      (ok' = true -> exists r s, rx' = rx ++ r /\ tx' = tx ++ s /\
         exists inc', inc = r ++ inc' /\ rep c' inc' (out ++ s)) /\
      (reliable c -> exists s, tx' = tx ++ s /\ exists inc', rep c' inc' (out ++ s)))).
  { intros m s1 Hm. wp. eapply wpr_mono; [exact Hm|]. intros [[] c1] (Hw & Hrel & Hrep1); simpl.
    - split; [done|]. split; [done|]. intros Hr. by destruct (Hrel Hr).
    - eapply wpr_mono; [by eapply IH; eauto|]. intros [[[rx' tx'] ok'] c'] (H1 & H2 & H3).
      split; [done|]. split.
      + intros Hk. destruct (H2 Hk) as (r & s & -> & -> & inc' & -> & Hrep').
        exists r, (s1 ++ s). rewrite !app_assoc in *. split_and!; try done. by exists inc'.
      + intros Hr. destruct (Hrel Hr) as [_ Hr1]. destruct (H3 Hr1) as (s & -> & inc' & Hrep').
        exists (s1 ++ s). rewrite !app_assoc in *. split; [done|]. by exists inc'. }
  destruct o as [|count|bs|n v|]; simpl in Ho.
  - wp. eapply wpr_mono; [by apply connection_getc_spec|]. intros [[st x] c1] (Hr & Hst).
    destruct inc as [|y inc].
    + destruct Hst as (-> & inc1 & Hrep1). by eapply Hbad.
    + destruct Hst as (-> & -> & Hrep1). by eapply (Hrd c1 [y]).
  - wp. eapply wpr_mono; [eapply connection_read_spec; [done|lia]|].
    intros [[k bs] c1] (Hr & Hk & _ & Hshort & Hfull & _). destruct (Z.eqb_spec k count) as [->|Hne].
    + destruct (Hfull eq_refl) as (rest & -> & Hrep1). by eapply (Hrd c1 bs).
    + destruct Hshort as [_ [inc1 Hrep1]]; [lia|]. by eapply Hbad.
  - apply Hwr. eapply wpr_mono; [by apply connection_write_spec|]. intros [st c'] ([H1 _] & H2). by split.
  - apply Hwr. eapply wpr_mono; [by apply connection_write_spec|]. intros [st c'] ([H1 _] & H2). by split.
  - specialize (Hwr (connection_flush c) []). rewrite !app_nil_r in Hwr. apply Hwr.
    eapply wpr_mono; [by apply connection_flush_spec|]. intros [st c'] (H1 & H2 & H3).
    split; [done|]. split; [done|]. intros Hst. apply H3, Hst.
Qed.

(** C7. Whatever calls are made on a connection, and however the socket cuts the
    stream into pieces, the calls return without a bad access.  When they all
    succeed, the bytes received are the first bytes of the incoming stream, in
    order and once each, with the rest still to come; and the bytes sent so far,
    on the wire and in the write buffer, are the bytes written, in order.  When
    the socket accepts everything, the writing side is exact whatever happens
    on the reading side, and a flush leaves nothing behind. *)
Theorem connection_stream ops c inc out :
  Forall op_ok ops -> rep c inc out ->
  wpr (run ops c [] [] true) (fun '(rx, tx, ok, c') =>
    (ok = true -> exists inc', inc = rx ++ inc' /\ rep c' inc' (out ++ tx)) /\
    (reliable c -> exists inc', rep c' inc' (out ++ tx))) /\
  wpr (connection_flush c) (fun '(st, c') => st = success -> outbox (cn_sock c') = out).
Proof.
  intros Hops Hrep. split.
  - eapply wpr_mono; [by eapply stream_run_spec|]. intros [[[rx tx] ok] c'] (_ & H2 & H3). split.
    + intros Hk. destruct (H2 Hk) as (r & s & -> & -> & inc' & -> & Hr). by exists inc'.
    + intros Hr. destruct (H3 Hr) as (s & -> & inc' & Hrep'). by exists inc'.
  - eapply wpr_mono; [by apply connection_flush_spec|]. intros [st c'] (_ & _ & H) Hst.
    by destruct (H Hst) as (_ & ? & _).
Qed.

(** A connection with empty buffers of [n] bytes on an open socket. *)
Definition fresh_conn (n retries : nat) (inb : list arrival) (ans : list departure) : connection :=
  let mb := mk_membuf (Z.of_nat n) 0 0 (replicate n None) in
  Conn retries retries false (Socket 5 EAGAIN inb [] ans) (Some mb) (Some mb) 0 0 0 0.

Lemma fresh_rep n retries inb ans :
  (0 < n)%nat -> Z.of_nat n <= PTRDIFF_MAX ->
  rep (fresh_conn n retries inb ans) (deliver retries retries inb) [].
Proof.
  intros Hn Hm. eexists _, _, [], [], []. simpl.
  assert (Hv : view (mk_membuf (Z.of_nat n) 0 0 (replicate n None)) [] []).
  { exists (replicate n None). simpl. rewrite zlen_replicate. split_and!; done || lia. }
  by split_and!.
Qed.

Definition sample_ops : list op :=
  [Read 2; Put (bytes "abcdef"); Getc; Put_uint 2 258; Read 3; Flush].

Definition sample_wire : list arrival :=
  [Arrives (bytes "HTT"); Quiet; Read_fails EAGAIN; Arrives (bytes "P/1.1"); In_hup].

Lemma connection_stream_witness :
  let c := fresh_conn 4 2 sample_wire [Takes 1; Full] in
  wpr (run sample_ops c [] [] true) (fun '(rx, tx, ok, c') =>
    rx = bytes "HTTP/1" /\ tx = bytes "abcdef" ++ [1; 2] /\ ok = true) /\
  wpr (run sample_ops c [] [] true) (fun '(rx, tx, ok, c') =>
    (ok = true -> exists inc', bytes "HTTP/1.1" = rx ++ inc' /\ rep c' inc' ([] ++ tx)) /\
    (reliable c -> exists inc', rep c' inc' ([] ++ tx))).
Proof.
  split; [by vm_compute|].
  assert (Hops : Forall op_ok sample_ops) by (repeat constructor; simpl; lia).
  exact (proj1 (connection_stream sample_ops _ _ _ Hops
    (fresh_rep 4 2 _ _ ltac:(lia) ltac:(unfold PTRDIFF_MAX; lia)))).
Defined.

(** * When a call fails *)

(** What a failed call leaves behind.  A flush that times out after the
    socket took [w1] of the buffered [w1 ++ w2] fails with the buffer as it was,
    so that the next flush, such as the one in [connection_close], sends [w1] a
    second time.  A read for more than the buffered bytes [q], when nothing more
    arrives, returns -1 with the buffer emptied: [q] is lost to the caller's next
    read, and so is how much of it was stored. *)
Theorem connection_failures_corrupt c rb wb h q w1 w2 count :
  readbuf c = Some rb -> view rb h q -> writebuf c = Some wb -> view wb [] (w1 ++ w2) ->
  0 <= fd (cn_sock c) -> w2 <> [] ->
  answers (cn_sock c) = [Takes (length w1)] -> retries_writes c = O ->
  wire c = [] -> zlen q < count <= size rb ->
  wpr (connection_flush c) (fun '(st, c') =>
    st = failure /\ outbox (cn_sock c') = outbox (cn_sock c) ++ w1 /\
    wpr (connection_flush c') (fun '(st, c'') =>
      st = success /\ outbox (cn_sock c'') = outbox (cn_sock c) ++ w1 ++ w1 ++ w2)) /\
  wpr (connection_read c count) (fun '(k, bs, c') =>
    k = -1 /\ bs = q /\ exists rb', readbuf c' = Some rb' /\ view rb' [] []).
Proof.
  intros Hrb Hv Hwb Hvw Hfd Hw2 Han Hret Hwire Hcount.
  assert (Hrep : rep c (q ++ wire c) (outbox (cn_sock c) ++ w1 ++ w2))
    by (exists rb, wb, h, q, (w1 ++ w2); by split_and!).
  split.
  - unfold connection_flush at 1. rewrite Hwb. simpl. wp. rewrite (view_canread _ _ _ Hvw). wp.
    assert (Hl2 : 0 < zlen w2) by (destruct w2; [done|]; rewrite zlen_cons; zlen_facts; lia).
    rewrite (proj2 (Z.ltb_lt 0 _)) by (rewrite zlen_app; zlen_facts; lia).
    pose proof Hvw as (junk & Hd & _). unfold membuf_data. rewrite Hd. simpl.
    rewrite rd_head by (by rewrite zlen_fmap). wp. rewrite initialised_bytes. wp.
    rewrite Hret. simpl. unfold socket_write, tcp_write, tcp_write_round, socket_poll_for. wp.
    change (poll (cn_sock c) POLLOUT) with (poll_out (cn_sock c)). unfold poll_out. rewrite Han.
    simpl. unfold write. rewrite Han.
    rewrite (proj2 (Z.leb_gt _ _)) by (rewrite zlen_app; unfold zlen in *; lia).
    rewrite (proj2 (Z.eqb_neq _ (-1))) by lia.
    rewrite Nat2Z.id, take_app_length, drop_app_length, (proj2 (Z.ltb_lt 0 _)) by done.
    unfold tcp_write_end. rewrite (proj2 (Z.eqb_neq _ 0)) by lia. simpl.
    split; [done|]. split; [done|].
    set (c' := set_sock _ c).
    assert (Hrep' : rep c' (q ++ wire c') (outbox (cn_sock c') ++ w1 ++ w2))
      by (exists rb, wb, h, q, (w1 ++ w2); by split_and!).
    eapply wpr_mono; [by eapply connection_flush_spec|]. intros [st c2] (_ & Hrel & Hst).
    destruct Hrel as [-> _]; [done|]. split; [done|]. destruct (Hst eq_refl) as (_ & -> & _).
    simpl. by rewrite <-app_assoc.
  - assert (Hb : 0 < size rb <= PTRDIFF_MAX) by (by destruct Hv as (? & _ & _ & ? & _)).
    unfold connection_read. rewrite Hrb. simpl. wp.
    eapply wpr_mono; [eapply (membuf_take c); [done|done|zlen_facts; lia]|].
    intros [[k cells] mb] (Hk & -> & Hsz & h' & Hv'). rewrite Z.min_r in Hk by lia. subst k.
    rewrite drop_ge in Hv' by (unfold zlen; lia). rewrite take_ge by (unfold zlen; lia).
    rewrite initialised_bytes. wp. rewrite (proj2 (Z.eqb_neq _ count)) by lia.
    unfold membuf_size. unfold PTRDIFF_MAX in Hb. zlen_facts.
    rewrite u64_small, Hsz, (proj2 (Z.ltb_ge _ _)) by lia. wp.
    eapply wpr_mono; [by eapply (fill_read_buffer_spec _ mb h' wb (w1 ++ w2))|].
    intros [[] c2] (_ & _ & rb2 & q2 & Hrb2 & Hv2 & _ & Hst).
    + destruct Hst as [-> _]. split; [done|]. split; [done|]. by exists rb2.
    + destruct Hst as [Hpos Hin]. change (wire c = q2 ++ wire c2) in Hin.
      rewrite Hwire in Hin. by destruct q2.
Qed.

(** Two bytes wait in each buffer; the socket takes one and nothing arrives. *)
Definition failing_conn : connection :=
  let mb := mk_membuf 4 2 0 [Some 97; Some 98; None; None] in
  Conn 0 0 false (Socket 5 EAGAIN [] [] [Takes 1]) (Some mb) (Some mb) 0 0 0 0.

Lemma connection_failures_corrupt_witness :
  wpr (connection_flush failing_conn) (fun '(st, c') =>
    st = failure /\ outbox (cn_sock c') = [] ++ [97] /\
    wpr (connection_flush c') (fun '(st, c'') =>
      st = success /\ outbox (cn_sock c'') = [] ++ [97] ++ [97] ++ [98])).
Proof.
  assert (Hv : view (mk_membuf 4 2 0 [Some 97; Some 98; None; None]) [] [97; 98]).
  { exists [None; None]. unfold zlen, PTRDIFF_MAX. simpl. split_and!; done || lia. }
  exact (proj1 (connection_failures_corrupt failing_conn _ _ [] [97; 98] [97] [98] 3
    eq_refl Hv eq_refl Hv ltac:(by vm_compute) ltac:(done) eq_refl eq_refl eq_refl
    ltac:(unfold zlen; simpl; lia))).
Defined.
