(* ===== verification/HttpBase.v ===== *)
(** HttpBase: what the HTTP components share.

    - [STRINGS] and [StringLaws]: the strings the header objects keep, as the
      operations they call and what they rely on.  The header components are
      proved against this interface; the strings of Cstring implement it.
    - [http_error]: the [error] object of meta/src/meta_error.c, and [let!], the
      sequence of calls that stops at the first one that reports an error.
    - [read_line] of http/src/http.c and the functions of http/src/internals.c
      that write to a connection. *)

From Stdlib Require Import ZArith Lia.
From stdpp Require Import base list numbers.
From S2P Require Import Prelude Convert Connection Cstring.

(** * Strings *)

Class STRINGS : Type := {
  str : Type;
  str_new : C (option str);
  str_set : str -> list Z -> C (status * str);
  str_concat : str -> list Z -> C (status * str);
  str_nset : str -> list Z -> Z -> C (status * str);
  str_charcat : str -> Z -> C (status * str);
  str_printf : str -> list Z -> C (status * str);
  str_pcat : str -> block -> Z -> C (status * str);
  str_recycle : str -> res str;
  str_text : str -> res (list Z);
  str_peek : str -> Z -> res (list Z);
}.

(** [str_rep s t]: [s] holds the characters [t]; [str_cap s] bytes are allocated
    for it. *)
Class StringLaws `{STRINGS} : Type := {
  str_rep : str -> list Z -> Prop;
  str_cap : str -> Z;
  str_new_law o :
    wp str_new o (fun r o' =>
      (forall s, r = Some s -> str_rep s [] /\ str_cap s <= 256) /\
      (o = [] -> o' = [] /\ is_Some r));
  str_set_law s t t' o :
    str_rep s t -> valid_str t' ->
    wp (str_set s t') o (fun '(st, s') o' =>
      str_rep s' (match st with success => t' | failure => [] end) /\
      str_cap s' <= Z.min (2 * str_cap s + zlen t') (Z.max (str_cap s) (3 * zlen t')) /\
      (o = [] -> o' = [] /\ (2 * str_cap s + zlen t' <= PTRDIFF_MAX -> st = success)));
  str_concat_law s t t' o :
    str_rep s t -> valid_str t' ->
    wp (str_concat s t') o (fun '(st, s') o' =>
      str_rep s' (match st with success => t ++ t' | failure => t end) /\
      str_cap s' <= Z.min (2 * str_cap s + zlen t') (Z.max (str_cap s) (3 * (zlen t + zlen t'))) /\
      (o = [] -> o' = [] /\ (2 * str_cap s + zlen t' <= PTRDIFF_MAX -> st = success)));
  str_nset_law s t t' n o :
    str_rep s t -> valid_str t' -> 0 <= n ->
    wp (str_nset s t' n) o (fun '(st, s') o' =>
      str_rep s' (match st with success => take (Z.to_nat n) t' | failure => [] end) /\
      str_cap s' <= 2 * str_cap s + Z.min n (zlen t') /\
      (o = [] -> o' = [] /\ (2 * str_cap s + Z.min n (zlen t') <= PTRDIFF_MAX -> st = success)));
  str_charcat_law s t x o :
    str_rep s t -> is_char x ->
    wp (str_charcat s x) o (fun '(st, s') o' =>
      str_rep s' (match st with success => t ++ [x] | failure => t end) /\
      str_cap s' <= Z.min (2 * str_cap s + 1) (Z.max (str_cap s) (3 * (zlen t + 1))) /\
      (o = [] -> o' = [] /\ (2 * str_cap s + 1 <= PTRDIFF_MAX -> st = success)));
  str_printf_law s t t' o :
    str_rep s t -> valid_str t' ->
    wp (str_printf s t') o (fun '(st, s') o' =>
      str_rep s' (match st with success => t ++ t' | failure => t end) /\
      str_cap s' <= Z.min (2 * str_cap s + (zlen t' + 1)) (Z.max (str_cap s) (3 * (zlen t + (zlen t' + 1)))) /\
      (o = [] -> o' = [] /\ (2 * str_cap s + (zlen t' + 1) <= PTRDIFF_MAX -> st = success)));
  str_pcat_law s t t' rest o :
    str_rep s t -> valid_str t' -> t' <> [] ->
    wp (str_pcat s ((Some <$> t') ++ rest) (zlen t')) o (fun '(st, s') o' =>
      str_rep s' (match st with success => t ++ t' | failure => t end) /\
      str_cap s' <= Z.min (2 * str_cap s + zlen t') (Z.max (str_cap s) (3 * (zlen t + zlen t'))) /\
      (o = [] -> o' = [] /\ (2 * str_cap s + zlen t' <= PTRDIFF_MAX -> st = success)));
  str_pcat_empty_law s src n o : n <= 0 -> str_pcat s src n o = Fault AssertFailed;
  str_recycle_law s t :
    str_rep s t -> wpr (str_recycle s) (fun s' => str_rep s' [] /\ str_cap s' = str_cap s);
  str_text_law s t : str_rep s t -> str_text s = Ret t /\ valid_str t;
  str_peek_law s t n : str_rep s t -> 0 <= n <= zlen t -> str_peek s n = Ret (take (Z.to_nat n) t);
}.

(** The first [n] bytes at [c_str]. *)
Definition cstring_peek (s : cstring) (n : Z) : res (list Z) :=
  let+ cells := rd (c_str s) 0 n in initialised cells.

(** [c_str] and [cstring_length] together. *)
Definition cstring_text (s : cstring) : res (list Z) :=
  let+ n := cstring_length s in str_at (c_str s).

#[export] Instance cstring_strings : STRINGS := {|
  str := cstring;
  str_new := cstring_new;
  str_set := cstring_set;
  str_concat := cstring_concat;
  str_nset := cstring_nset;
  str_charcat := cstring_charcat;
  str_printf := cstring_printf;
  str_pcat := cstring_pcat;
  str_recycle := cstring_recycle;
  str_text := cstring_text;
  str_peek := cstring_peek;
|}.

Lemma writes_law c n o sf s' (m : C (status * cstring)) :
  wp m o (writes c n o sf s') ->
  wp m o (fun '(st, c') o' =>
    rep c' (match st with success => s' | failure => sf end) /\
    size c' <= Z.min (2 * size c + n) (Z.max (size c) (3 * (zlen sf + n))) /\
    (o = [] -> o' = [] /\ (2 * size c + n <= PTRDIFF_MAX -> st = success))).
Proof.
  intros H. eapply wp_mono; [exact H|]. intros [st c'] o' (Hr & Hs & Ho). simpl in *.
  split; [done|]. split; [lia|done].
Qed.

Lemma writes_law_double c n o sf s' (m : C (status * cstring)) :
  wp m o (writes c n o sf s') ->
  wp m o (fun '(st, c') o' =>
    rep c' (match st with success => s' | failure => sf end) /\
    size c' <= 2 * size c + n /\
    (o = [] -> o' = [] /\ (2 * size c + n <= PTRDIFF_MAX -> st = success))).
Proof.
  intros H%writes_law. eapply wp_mono; [exact H|]. intros [st c'] o' (Hr & Hs & Ho).
  split; [done|]. split; [lia|done].
Qed.

#[export] Program Instance cstring_laws : StringLaws := {|
  str_rep := rep;
  str_cap := size;
|}.
Next Obligation.
  intros o. eapply wp_mono; [apply cstring_new_spec|]. intros r o' [H1 H2].
  split; [|done]. intros s Hs. destruct (H1 s Hs) as [? Hsz]. split; [done|]. by rewrite Hsz.
Qed.
Next Obligation. intros s t t' o Hr Ht. by eapply writes_law, cstring_set_spec. Qed.
Next Obligation. intros s t t' o Hr Ht. by eapply writes_law, cstring_concat_spec. Qed.
Next Obligation. intros s t t' n o Hr Ht Hn. by eapply writes_law_double, cstring_nset_spec. Qed.
Next Obligation.
  intros s t x o Hr Hx. assert (Hu : u8 x = x) by (apply Z.mod_small; unfold is_char in Hx; lia).
  pose proof (cstring_charcat_spec s t x o Hr ltac:(by rewrite Hu)) as Hc. rewrite Hu in Hc.
  by eapply writes_law.
Qed.
Next Obligation. intros s t t' o Hr Ht. by eapply writes_law, cstring_vprintf_spec. Qed.
Next Obligation. intros s t t' rest o Hr Ht Hne. by eapply writes_law, cstring_pcat_spec. Qed.
Next Obligation.
  intros s src n o Hn. simpl. unfold cstring_pcat, bind, lift, guard. by rewrite (proj2 (Z.ltb_ge 0 n)).
Qed.
Next Obligation. intros s t Hr. by apply (cstring_recycle_spec s t). Qed.
Next Obligation.
  intros s t Hr. split; [|by eapply rep_valid]. simpl. unfold cstring_text, cstring_length.
  destruct Hr as (junk & Hd & _ & Hl & _ & Hc). unfold c_str.
  rewrite Hd, strlen_cstr, Hl by done. simpl. rewrite Z.eqb_refl. simpl. by apply str_at_cstr.
Qed.
Next Obligation.
  intros s t n Hr Hn. simpl. unfold cstring_peek, c_str.
  destruct Hr as (junk & Hd & _). rewrite Hd.
  rewrite <-(take_drop (Z.to_nat n) t) at 1. unfold cstr. rewrite fmap_app, <-!app_assoc.
  rewrite rd_head; [cbn [res_bind]; apply initialised_bytes|].
  unfold zlen in *. rewrite length_fmap, length_take. lia.
Qed.

(** [cstring_multinew]: [n] strings, or none. *)
Fixpoint new_strings `{STRINGS} (n : nat) : C (option (list str)) :=
  match n with
  | O => ret (Some [])
  | S n =>
      let* s := str_new in
      match s with
      | None => ret None
      | Some s => let* r := new_strings n in ret (cons s <$> r)
      end
  end.

Lemma new_strings_spec `{StringLaws} n o :
  wp (new_strings n) o (fun r o' =>
    (forall l, r = Some l -> length l = n /\ Forall (fun s => str_rep s [] /\ str_cap s <= 256) l) /\
    (o = [] -> o' = [] /\ is_Some r)).
Proof.
  revert o. induction n as [|n IH]; intros o; simpl; wp.
  { split; [|done]. by intros l [= <-]. }
  eapply wp_mono; [apply str_new_law|]. intros [s|] o1 [Hs Ho]; wp.
  - eapply wp_mono; [apply IH|]. intros r o2 [Hr Ho2]. wp. split.
    + intros l Hl. destruct r as [l'|]; simplify_eq/=. destruct (Hr l' eq_refl) as [<- Hf].
      split; [done|]. constructor; [by apply Hs|done].
    + intros ->. destruct Ho as [-> _]; [done|]. destruct Ho2 as [-> [l ->]]; [done|]. by eauto.
  - split; [done|]. intros ->. destruct Ho as [_ [? ?]]; done.
Qed.

(** * Versions and errors *)

Inductive http_version : Set := VERSION_UNKNOWN | VERSION_09 | VERSION_10 | VERSION_11.

#[export] Instance http_version_eq_dec : EqDecision http_version.
Proof. solve_decision. Defined.

(** The group and the code of the [error] object. *)
Inductive http_error : Set :=
| Tcpip_error (e : errno)
| Http_error (code : Z)
| App_error (e : errno)
| Os_error (e : errno).

Definition HTTP_200_OK : Z := 200.
Definition HTTP_404_NOT_FOUND : Z := 404.
Definition HTTP_400_BAD_REQUEST : Z := 400.
Definition HTTP_411_LENGTH_REQUIRED : Z := 411.
Definition HTTP_414_REQUEST_URI_TOO_LARGE : Z := 414.
Definition HTTP_500_INTERNAL_SERVER_ERROR : Z := 500.
Definition HTTP_501_NOT_IMPLEMENTED : Z := 501.
Definition HTTP_503_SERVICE_UNAVAILABLE : Z := 503.
Definition HTTP_505_HTTP_VERSION_NOT_SUPPORTED : Z := 505.

(** A handler returns the error it reported, if any, and the object. *)
Definition handled (A : Type) : Type := option http_error * A.

Notation "'let!' p ':=' m 'in' k" :=
  (bind m (fun '(e, p) => match e with Some _ => ret (e, p) | None => k end))
  (at level 10, p pattern, m at level 100, k at level 200) : c_scope.

Definition done {A} (a : A) : C (handled A) := ret (None, a).
Definition reports {A} (e : http_error) (a : A) : C (handled A) := ret (Some e, a).

(** A search in one of the tables of header fields: the handler of the field. *)
Fixpoint find_handler {A} (l : list (list Z * A)) (name : list Z) : option A :=
  match l with
  | [] => None
  | (n, handler) :: l => if strcmp n name =? 0 then Some handler else find_handler l name
  end.

(** * Reading a line *)

(** [n] is the room left in [dest] from [i] on. *)
Fixpoint read_line_loop (n : nat) (c : connection) (dest : block) (i : Z)
    : res (option http_error * block * connection) :=
  match n with
  | O => Ret (Some (App_error ENOSPC), dest, c)
  | S n =>
      let+ (st, x, c) := connection_getc c in
      match st with
      | failure => Ret (Some (Tcpip_error (Gensocket.s_errno (cn_sock c))), dest, c)
      | success =>
          if x =? 13 then
            let+ dest := stc dest i 0 in
            let+ (st, x, c) := connection_getc c in
            match st with
            | failure => Ret (Some (Tcpip_error (Gensocket.s_errno (cn_sock c))), dest, c)
            | success =>
                if negb (x =? 10) then Ret (Some (Http_error HTTP_400_BAD_REQUEST), dest, c)
                else Ret (None, dest, c)
            end
          else
            let+ dest := stc dest i x in
            read_line_loop n c dest (i + 1)
      end
  end.

Definition read_line (c : connection) (dest : block) (destsize : Z)
    : res (option http_error * block * connection) :=
  read_line_loop (Z.to_nat destsize) c dest 0.

(** * Writing fields *)

(** A call that writes, and two of them where the second is made only when the
    first succeeds. *)
Definition writer : Type := connection -> res (status * connection).

Definition and_then (m1 m2 : writer) : writer := fun c =>
  let+ (st, c) := m1 c in
  match st with
  | failure => Ret (failure, c)
  | success => m2 c
  end.

Notation "m1 &&> m2" := (and_then m1 m2) (at level 60, right associativity) : c_scope.

Definition send_nothing : writer := fun c => Ret (success, c).

Definition CRLF : list Z := [13; 10].

Definition http_send_string (s : list Z) : writer := fun c => connection_write c s.

(** [snprintf] into 1000 bytes. *)
Definition http_send_number (name : list Z) (value : Z) : writer := fun c =>
  let val := name ++ decimal value in
  if 1000 <=? zlen val then Ret (failure, c) else connection_write c val.

Definition http_send_ulong := http_send_number.
Definition http_send_int := http_send_number.
Definition http_send_unsigned_int := http_send_number.

Definition http_send_field `{STRINGS} (name : list Z) (value : str) : writer := fun c =>
  (http_send_string name &&> (fun c =>
    let+ v := str_text value in connection_write c v) &&> http_send_string CRLF) c.

(** * Specifications *)

(** [sends m bs]: when [m] succeeds it wrote exactly [bs]; it fails only when the
    socket refuses. *)
Definition sends (m : writer) (bs : list Z) : Prop :=
  forall c inc out, Connection.rep c inc out ->
  wpr (m c) (fun '(st, c') =>
    Connection.writes c c' /\ (reliable c -> st = success /\ reliable c') /\
    (st = success -> Connection.rep c' inc (out ++ bs))).

Lemma sends_string s : sends (http_send_string s) s.
Proof. intros c inc out Hr. by apply connection_write_spec. Qed.

Lemma sends_nothing : sends send_nothing [].
Proof. intros c inc out Hr. simpl. rewrite app_nil_r. by split_and!. Qed.

Lemma sends_then m1 m2 a b : sends m1 a -> sends m2 b -> sends (m1 &&> m2) (a ++ b).
Proof.
  intros H1 H2 c inc out Hr. unfold and_then. wp. eapply wpr_mono; [by eapply H1|].
  intros [[] c1] (Hw & Hrel & Hrep).
  - simpl. split; [done|]. split; [|done]. intros Hc. by destruct (Hrel Hc).
  - eapply wpr_mono; [by eapply H2, Hrep|]. intros [st c2] (Hw2 & Hrel2 & Hrep2).
    split; [by etrans|]. split.
    + intros Hc. destruct (Hrel Hc) as [_ Hc1]. auto.
    + rewrite app_assoc. done.
Qed.

Lemma sends_number name v :
  zlen name + zlen (decimal v) < 1000 -> sends (http_send_number name v) (name ++ decimal v).
Proof.
  intros Hl c inc out Hr. unfold http_send_number.
  rewrite (proj2 (Z.leb_gt _ _)) by (rewrite zlen_app; lia). by apply connection_write_spec.
Qed.

Lemma sends_field `{StringLaws} name s t :
  str_rep s t -> sends (http_send_field name s) (name ++ t ++ CRLF).
Proof.
  intros Hs c inc out Hr. destruct (str_text_law s t Hs) as [Ht _].
  apply (sends_then _ _ name (t ++ CRLF)); [apply sends_string| |done].
  apply sends_then; [|apply sends_string].
  intros c1 inc1 out1 Hr1. rewrite Ht. simpl. by apply connection_write_spec.
Qed.

(** What [read_line] does with the stream: the line, or the error, and the
    stream that is left. *)
Fixpoint line_of (n : nat) (inc : list Z) : option (list Z * list Z) :=
  match n, inc with
  | S n, x :: inc =>
      if x =? 13 then
        match inc with
        | 10 :: rest => Some ([], rest)
        | _ => None
        end
      else (fun '(l, rest) => (x :: l, rest)) <$> line_of n inc
  | _, _ => None
  end.

Lemma read_line_loop_spec n c pre post inc out :
  Connection.rep c inc out -> (n <= length post)%nat ->
  wpr (read_line_loop n c ((Some <$> pre) ++ post) (zlen pre)) (fun '(e, d, c') =>
    reads c c' /\ (exists inc', Connection.rep c' inc' out) /\ zlen d = zlen pre + zlen post /\
    match line_of n inc with
    | Some (l, rest) =>
        e = None /\ Connection.rep c' rest out /\
        d = (Some <$> pre) ++ cstr l ++ drop (S (length l)) post
    | None => e <> None
    end).
Proof.
  revert c pre post inc. induction n as [|n IH]; intros c pre post inc Hrep Hn; simpl.
  { split; [done|]. split; [by exists inc|]. split; [|done]. by rewrite zlen_app, zlen_fmap. }
  destruct post as [|b post]; [simpl in Hn; lia|].
  assert (Hl : forall x, zlen ((Some <$> pre) ++ Some x :: post) = zlen pre + zlen (b :: post))
    by (intros x; by rewrite zlen_app, zlen_fmap, !zlen_cons).
  wp. eapply wpr_mono; [by apply connection_getc_spec|]. intros [[st x] c1] (Hrd & Hst).
  destruct inc as [|y inc].
  { destruct Hst as (-> & inc1 & Hr1). simpl. split; [done|]. split; [by exists inc1|].
    split; [|done]. by rewrite zlen_app, zlen_fmap. }
  destruct Hst as (-> & -> & Hr1).
  assert (Hz : zlen pre = zlen (Some <$> pre)) by (by rewrite zlen_fmap).
  destruct (Z.eqb_spec y 13) as [->|Hy].
  - rewrite (stc_app (Some <$> pre) post b 0 _ Hz). wp.
    eapply wpr_mono; [by apply connection_getc_spec|]. intros [[st x] c2] (Hrd2 & Hst).
    destruct inc as [|z inc].
    { destruct Hst as (-> & inc2 & Hr2). simpl. split; [by etrans|]. split; [by exists inc2|]. auto. }
    destruct Hst as (-> & -> & Hr2).
    destruct (Z.eqb_spec z 10) as [->|Hz10]; simpl.
    + split; [by etrans|]. split; [by exists inc|]. auto.
    + split; [by etrans|]. split; [by exists inc|]. split; [auto|].
      destruct z as [|p|]; try done. repeat (destruct p as [p|p|]; try done).
  - rewrite (stc_app (Some <$> pre) post b y _ Hz). wp.
    specialize (IH c1 (pre ++ [y]) post inc Hr1 ltac:(simpl in Hn; lia)).
    rewrite fmap_app, <-app_assoc, zlen_app, zlen_cons, zlen_nil, Z.add_0_r in IH.
    eapply wpr_mono; [exact IH|]. intros [[e d] c2] (Hrd2 & Hex & Hd & Hm).
    split; [by etrans|]. split; [done|]. split; [rewrite zlen_cons; lia|].
    destruct (line_of n inc) as [[l rest]|]; simpl; [|done].
    destruct Hm as (-> & Hr2 & ->). split; [done|]. split; [done|].
    unfold cstr. by rewrite <-!app_assoc.
Qed.

(** A line that fits is stored with its terminator and taken off the stream with
    its CRLF; what follows in [dest] is left.  Everything else is an error. *)
Lemma read_line_spec c dest destsize inc out :
  Connection.rep c inc out -> 0 <= destsize <= zlen dest ->
  wpr (read_line c dest destsize) (fun '(e, d, c') =>
    reads c c' /\ (exists inc', Connection.rep c' inc' out) /\ zlen d = zlen dest /\
    match line_of (Z.to_nat destsize) inc with
    | Some (l, rest) =>
        e = None /\ Connection.rep c' rest out /\ d = cstr l ++ drop (S (length l)) dest
    | None => e <> None
    end).
Proof.
  intros Hr Hd. apply (read_line_loop_spec _ c [] dest inc out Hr). unfold zlen in *. lia.
Qed.

(** The lines that come out whole. *)
Lemma line_of_crlf n l rest :
  Forall (fun x => x <> 13) l -> (length l < n)%nat -> line_of n (l ++ CRLF ++ rest) = Some (l, rest).
Proof.
  intros Hl. revert n. induction Hl as [|x l Hx _ IH]; intros n Hn.
  - destruct n; [lia|]. done.
  - destruct n as [|n]; [lia|]. simpl. rewrite (proj2 (Z.eqb_neq _ _) Hx).
    unfold CRLF in IH. simpl in IH. rewrite IH by (simpl in Hn; lia). done.
Qed.
