(* ===== verification/MetaError.v ===== *)
(** MetaError: the error object a caller passes down to learn why a call failed,
    from meta/src/meta_error.c: a group, a code and a message of bounded size.

    The files on HTTP do without the object and return an [http_error], the group
    and the code that were set; [report] says which call of this file that is.

    [error_ops_refine] shows that the object holds the last report and the last
    message, cut to the size of its array; [report_asks] that the group and the
    code are those the handlers of the protocol ask for. *)

From Stdlib Require Import ZArith Lia.
From stdpp Require Import base list numbers.
From S2P Require Import Prelude Cstring HttpBase.

Definition META_ERROR_MESSAGE_MAX : Z := 1024.

Inductive error_group : Set :=
  meg_unknown | meg_tcpip | meg_protocol | meg_app | meg_os | meg_db | meg_other.

#[export] Instance error_group_eq_dec : EqDecision error_group.
Proof. solve_decision. Defined.

Record error : Type := Error { group : error_group; code : Z; message : block }.

(** [calloc]: every member is zero. *)
Definition error_new : C (option error) :=
  let* ok := alloc_ok 1036 in
  ret (if ok : bool then Some (Error meg_unknown 0 (replicate (Z.to_nat (META_ERROR_MESSAGE_MAX + 1)) (Some 0))) else None).

(** Only the first of the setters asserts that there is an object. *)
Definition set_tcpip_error (e : option error) (val : Z) : res (status * option error) :=
  match e with
  | None => Fault AssertFailed
  | Some e => Ret (failure, Some (Error meg_tcpip val (message e)))
  end.

Definition set_error (g : error_group) (e : option error) (val : Z) : status * option error :=
  (failure, match e with Some e => Some (Error g val (message e)) | None => None end).

Definition set_http_error := set_error meg_protocol.
Definition set_app_error := set_error meg_app.
Definition set_os_error := set_error meg_os.
Definition set_db_error := set_error meg_db.
Definition set_other_error := set_error meg_other.

Definition is_error (g : error_group) (e : error) : bool := bool_decide (group e = g).

Definition is_tcpip_error := is_error meg_tcpip.
Definition is_db_error := is_error meg_db.
Definition is_protocol_error := is_error meg_protocol.
Definition is_app_error := is_error meg_app.
Definition is_os_error := is_error meg_os.
Definition is_other_error := is_error meg_other.

Definition get_error_code (e : error) : Z := code e.

(** [strncpy(dest, src, n)]: at most [n] characters, and zeros up to [n]. *)
Definition strncpy (dest : block) (src : list Z) (n : Z) : res block :=
  wr dest 0 (take (Z.to_nat n) ((Some <$> src) ++ replicate (Z.to_nat n) (Some 0))).

Definition set_error_message (e : option error) (msg : list Z) : res (option error) :=
  match e with
  | None => Ret None
  | Some e =>
      let+ m := strncpy (message e) msg (zlen (message e)) in
      let+ m := stc m (zlen m - 1) 0 in
      Ret (Some (Error (group e) (code e) m))
  end.

Definition has_error_message (e : error) : res bool :=
  let+ n := strlen (message e) in Ret (0 <? n).

(** The string that is returned, as its reader finds it. *)
Definition get_error_message (e : error) : res (list Z) := str_at (message e).

(** What the program logs before it ends: the first line names the group. *)
Definition die_lines (e : error) : res (option (list Z) * option (list Z) * option Z) :=
  let what :=
    if is_tcpip_error e then Some (bytes "A tcp/ip error has occured")
    else if is_protocol_error e then Some (bytes "A protocol error has occured")
    else if is_app_error e then Some (bytes "A application error has occured")
    else if is_os_error e then Some (bytes "A os error has occured")
    else if is_db_error e then Some (bytes "A database error has occured")
    else if is_other_error e then Some (bytes "An unknown error has occured")
    else None in
  let+ has := has_error_message e in
  if has : bool then let+ m := get_error_message e in Ret (what, Some m, None)
  else if negb (get_error_code e =? 0) then Ret (what, None, Some (get_error_code e))
  else Ret (what, None, None).

(** * The object holds the last report and the last message *)

(** The abstract object. *)
Record view : Type := View { v_group : error_group; v_code : Z; v_message : list Z }.

Definition cut (msg : list Z) : list Z := firstn (Z.to_nat META_ERROR_MESSAGE_MAX) msg.

(** The array holds the string and a terminator, and it is all initialised. *)
Definition holds (e : error) (v : view) : Prop :=
  group e = v_group v /\ code e = v_code v /\ Forall is_char (v_message v) /\
  exists k, message e = cstr (v_message v) ++ replicate k (Some 0) /\ zlen (message e) = META_ERROR_MESSAGE_MAX + 1.

Inductive call : Set :=
| Set_error (g : error_group) (val : Z)
| Set_message (msg : list Z).

Definition run (c : call) (e : option error) : res (status * option error) :=
  match c with
  | Set_error meg_tcpip val => set_tcpip_error e val
  | Set_error meg_protocol val => Ret (set_http_error e val)
  | Set_error meg_app val => Ret (set_app_error e val)
  | Set_error meg_os val => Ret (set_os_error e val)
  | Set_error meg_db val => Ret (set_db_error e val)
  | Set_error (meg_other | meg_unknown) val => Ret (set_other_error e val)
  | Set_message msg => let+ e := set_error_message e msg in Ret (success, e)
  end.

Definition run_spec (c : call) (v : view) : view :=
  match c with
  | Set_error meg_unknown val => View meg_other val (v_message v)
  | Set_error g val => View g val (v_message v)
  | Set_message msg => View (v_group v) (v_code v) (cut msg)
  end.

Fixpoint run_all (l : list call) (e : option error) : res (option error) :=
  match l with [] => Ret e | c :: l => let+ (_, e) := run c e in run_all l e end.

Definition call_ok (c : call) : Prop := match c with Set_error _ _ => True | Set_message msg => Forall is_char msg end.

Lemma take_zeros (s : list Z) n :
  take n ((Some <$> s) ++ replicate n (Some 0)) = (Some <$> firstn n s) ++ replicate (n - length s) (Some 0).
Proof.
  rewrite take_app, length_fmap, fmap_take, take_replicate. do 2 f_equal. lia.
Qed.

(** [strncpy] over a whole array, and the terminator that is stored after it: the
    string, cut, with zeros behind. *)
Lemma strncpy_ended (b : block) src :
  0 < zlen b ->
  let t := firstn (Z.to_nat (zlen b - 1)) src in
  exists k m, strncpy b src (zlen b) = Ret m /\ zlen m = zlen b /\
    stc m (zlen b - 1) 0 = Ret (cstr t ++ replicate k (Some 0)) /\
    zlen (cstr t ++ replicate k (Some 0)) = zlen b.
Proof.
  intros Hb t. unfold strncpy. destruct (length b) as [|n] eqn:Hl; [unfold zlen in Hb; lia|].
  assert (Hz : zlen b = Z.of_nat (S n)) by (unfold zlen; by rewrite Hl).
  assert (Ht : t = firstn n src) by (unfold t; f_equal; lia). clearbody t. subst t. rewrite Hz, Nat2Z.id. set (cs := take (S n) _). assert (Hcs : length cs = S n).
  { unfold cs. rewrite length_take, length_app, length_fmap, length_replicate. lia. }
  exists (n - length src)%nat, cs. split; [|split; [unfold zlen; lia|]].
  - unfold wr. rewrite (proj2 (Z.leb_le _ _)) by lia. unfold zlen. rewrite Hcs, Hl, (proj2 (Z.leb_le _ _)) by lia. cbn [andb].
    rewrite drop_ge by lia. by rewrite app_nil_r.
  - assert (Hm : exists x, cs = (Some <$> firstn n src) ++ replicate (n - length src) (Some 0) ++ [x]).
    { unfold cs. rewrite take_zeros. destruct (decide (length src <= n)%nat) as [Hs|Hs].
      - exists (Some 0). rewrite !take_ge by lia.
        replace (S n - length src)%nat with (n - length src + 1)%nat by lia. by rewrite replicate_add.
      - destruct (lookup_lt_is_Some_2 src n) as [x Hx]; [lia|]. exists (Some x).
        rewrite (take_S_r _ _ _ Hx), fmap_app.
        replace (S n - length src)%nat with 0%nat by lia. replace (n - length src)%nat with 0%nat by lia.
        cbn. by rewrite app_nil_r. }
    destruct Hm as [x Hm]. split.
    + rewrite Hm, app_assoc. set (a := (Some <$> _) ++ _).
      rewrite (stc_app a [] x)
        by (unfold a, zlen; rewrite length_app, length_fmap, length_take, length_replicate; lia).
      unfold a, cstr. rewrite <- !app_assoc. do 2 f_equal. by rewrite <- replicate_S_end.
    + unfold zlen, cstr. rewrite !length_app, length_fmap, length_take, length_replicate. cbn. lia.
Qed.

Lemma message_strings e v : holds e v -> str_at (message e) = Ret (v_message v) /\ strlen (message e) = Ret (zlen (v_message v)).
Proof.
  intros (_ & _ & Hv & k & -> & _). unfold cstr. rewrite <- app_assoc.
  split; [by apply str_at_cstr|by apply strlen_cstr].
Qed.

Lemma run_refines c e v :
  holds e v -> call_ok c ->
  exists st e', run c (Some e) = Ret (st, Some e') /\ holds e' (run_spec c v) /\
    (forall g val, c = Set_error g val -> st = failure).
Proof.
  intros (Hg & Hc & Hv & k & Hm & Hl) Hok. destruct c as [g val|msg].
  - exists failure. destruct g; eexists; (split; [done|]); (split; [|done]); (repeat split; [done..|]); by exists k.
  - destruct (strncpy_ended (message e) msg) as (k' & m & Hs & Hzm & Hst & Hz);
      [rewrite Hl; by unfold META_ERROR_MESSAGE_MAX|].
    rewrite Hl in Hst, Hz. fold (cut msg) in Hst, Hz. cbn [run set_error_message].
    rewrite Hs. cbn [res_bind]. rewrite Hzm, Hl. rewrite Hst. cbn [res_bind]. exists success. eexists. split; [done|]. split; [|done].
    repeat split; [done..| |].
    + by apply Forall_take.
    + cbn. by exists k'.
Qed.

(** After any sequence of reports and messages the object holds the last report
    and the last message, cut to 1024 characters, and its array is a string. *)
Theorem error_ops_refine l o e o' :
  Forall call_ok l -> error_new o = Ret (Some e, o') ->
  exists e', run_all l (Some e) = Ret (Some e') /\ holds e' (foldl (fun v c => run_spec c v) (View meg_unknown 0 []) l) /\
    let v := foldl (fun v c => run_spec c v) (View meg_unknown 0 []) l in
    get_error_message e' = Ret (v_message v) /\ has_error_message e' = Ret (0 <? zlen (v_message v)) /\
    get_error_code e' = v_code v /\ zlen (v_message v) <= META_ERROR_MESSAGE_MAX.
Proof.
  intros Hok He.
  assert (H0 : holds e (View meg_unknown 0 [])).
  { unfold error_new, bind, alloc_ok, ret in He. destruct o as [|b o]; cbn in He; [|destruct b; cbn in He]; try done;
      injection He as <- _; repeat split; [constructor| |constructor|]; by exists 1024%nat. }
  clear He. revert e H0. generalize (View meg_unknown 0 []). induction l as [|c l IH]; intros v e H0.
  - exists e. split; [done|]. split; [done|]. cbn. destruct (message_strings e v H0) as [H1 H2'].
    unfold get_error_message, has_error_message. rewrite H1, H2'. destruct H0 as (_ & Hc & _ & k & Hm & Hl).
    repeat split; [done|]. rewrite Hm in Hl. unfold zlen in *. rewrite length_app in Hl. unfold cstr in Hl.
    rewrite length_app, length_fmap in Hl. cbn in Hl. lia.
  - apply list.Forall_cons in Hok as [Hc Hok]. destruct (run_refines c e v H0 Hc) as (st & e1 & Hr & Hh & _).
    cbn [run_all foldl]. rewrite Hr. cbn [res_bind]. by apply IH.
Qed.

(** What a handler of the protocol reports. *)
Definition report (code_of : errno -> Z) (r : http_error) : call :=
  match r with
  | Tcpip_error e => Set_error meg_tcpip (code_of e)
  | Http_error c => Set_error meg_protocol c
  | App_error e => Set_error meg_app (code_of e)
  | Os_error e => Set_error meg_os (code_of e)
  end.

(** Asked for an error of the protocol, the object answers what the
    report says. *)
Theorem report_asks code_of r e e' :
  run (report code_of r) (Some e) = Ret (failure, Some e') ->
  is_protocol_error e' = (match r with Http_error _ => true | _ => false end) /\
  (forall c, r = Http_error c -> get_error_code e' = c) /\ message e' = message e.
Proof. destruct r; cbn; intros [= <-]; repeat split; try done; by intros ? [= ->]. Qed.
