(* ===== verification/HttpDate.v ===== *)
(** HttpDate: the dates of the HTTP headers, http/src/parse_time.c and
    [http_send_date] of http/src/internals.c.

    [gmtime_r] is the proleptic Gregorian calendar, computed on days since the
    epoch; [mktime] is its inverse in a time zone [zone] seconds east of
    Greenwich, linear in the day of the month, as the standard has it for days
    out of range.  The check of the calendar runs over the days of one cycle of
    400 years. *)

From Stdlib Require Import ZArith Lia.
From stdpp Require Import base list numbers.
From S2P Require Import Prelude Convert Connection HttpBase.

(** * Calendar *)

Record tm : Set := Tm {
  tm_sec : Z; tm_min : Z; tm_hour : Z; tm_mday : Z; tm_mon : Z; tm_year : Z;
}.

(** Days since 1970-01-01; years start in March, cycles of 146097 days. *)
Definition cycle_day (yoe mp d : Z) : Z :=
  365 * yoe + yoe / 4 - yoe / 100 + (153 * mp + 2) / 5 + d - 1.

Definition days_from_civil (y m d : Z) : Z :=
  let y := if m <=? 2 then y - 1 else y in
  let mp := if 2 <? m then m - 3 else m + 9 in
  y / 400 * 146097 + cycle_day (y mod 400) mp d - 719468.

Definition civil_from_cycle (doe : Z) : Z * Z * Z :=
  let yoe := (doe - doe / 1460 + doe / 36524 - doe / 146096) / 365 in
  let doy := doe - (365 * yoe + yoe / 4 - yoe / 100) in
  let mp := (5 * doy + 2) / 153 in
  (yoe, mp, doy - (153 * mp + 2) / 5 + 1).

Definition civil_from_days (z : Z) : Z * Z * Z :=
  let z := z + 719468 in
  let '(yoe, mp, d) := civil_from_cycle (z mod 146097) in
  let y := yoe + z / 146097 * 400 in
  let m := if mp <? 10 then mp + 3 else mp - 9 in
  (if m <=? 2 then y + 1 else y, m, d).

Definition gmtime (t : Z) : tm :=
  let '(y, m, d) := civil_from_days (t / 86400) in
  let s := t mod 86400 in
  Tm (s mod 60) (s / 60 mod 60) (s / 3600) d (m - 1) (y - 1900).

Definition weekday (t : Z) : Z := (t / 86400 + 4) mod 7.

Definition mktime (zone : Z) (t : tm) : Z :=
  (days_from_civil (tm_year t + 1900) (tm_mon t + 1) 1 + tm_mday t - 1) * 86400
  + tm_hour t * 3600 + tm_min t * 60 + tm_sec t - zone.

(** * Names *)

Definition wkday : list (list Z) :=
  [bytes "Sun"; bytes "Mon"; bytes "Tue"; bytes "Wed"; bytes "Thu"; bytes "Fri"; bytes "Sat"].

Definition month : list (list Z) :=
  [bytes "Jan"; bytes "Feb"; bytes "Mar"; bytes "Apr"; bytes "May"; bytes "Jun";
   bytes "Jul"; bytes "Aug"; bytes "Sep"; bytes "Oct"; bytes "Nov"; bytes "Dec"].

(** The first name [s] starts with. *)
Fixpoint find_name (names : list (list Z)) (s : list Z) : option Z :=
  match names with
  | [] => None
  | n :: names => if prefixb n s then Some 0 else (fun i => 1 + i) <$> find_name names s
  end.

(** * Sending *)

Definition two (n : Z) : list Z := [48 + n / 10; 48 + n mod 10].

Definition name_of (names : list (list Z)) (i : Z) : list Z := default [] (names !! Z.to_nat i).

(** [strftime] with "%a, %d %b %Y %H:%M:%S GMT". *)
Definition rfc822_text (t : Z) : list Z :=
  let g := gmtime t in
  name_of wkday (weekday t) ++ bytes ", " ++ two (tm_mday g) ++ bytes " " ++
  name_of month (tm_mon g) ++ bytes " " ++ decimal (tm_year g + 1900) ++ bytes " " ++
  two (tm_hour g) ++ bytes ":" ++ two (tm_min g) ++ bytes ":" ++ two (tm_sec g) ++ bytes " GMT".

Definition http_send_date (name : list Z) (value : Z) : writer :=
  http_send_string name &&> http_send_string (rfc822_text value ++ CRLF).

Lemma sends_date name t : sends (http_send_date name t) (name ++ rfc822_text t ++ CRLF).
Proof. apply sends_then; apply sends_string. Qed.

(** * Parsing *)

Definition at_ (s : list Z) (i : nat) : Z := default 0 (s !! i).

(** The value of a character as a digit, whatever it is. *)
Definition dig (s : list Z) (i : nat) : Z := schar (at_ s i) - 48.

Fixpoint year_loop (n : nat) (s : list Z) (year : Z) : res Z :=
  match n with
  | O => Ret year
  | S n =>
      r_assert (isdigit (at_ s 0));;
      year_loop n (drop 1 s) (year * 10 + dig s 0)
  end.

(** The rest of the string from the hour on. *)
Definition parse_clock (s : list Z) (mktime : tm -> Z) (mday mon year : Z) : res Z :=
  r_assert (isdigit (at_ s 0) && isdigit (at_ s 1));;
  let h := dig s 0 * 10 + dig s 1 in
  r_assert (at_ s 2 =? 58);;
  let m := dig s 3 * 10 + dig s 4 in
  r_assert (at_ s 5 =? 58);;
  let sec := dig s 6 * 10 + dig s 7 in
  r_assert (h <? 24);;
  r_assert (m <? 60);;
  r_assert (sec <? 60);;
  let s := drop 9 s in
  if negb (prefixb (bytes "GMT") s) then Ret (-1)
  else Ret (mktime (Tm sec m h mday mon (year - 1900))).

Definition parse_rfc822_date (mktime : tm -> Z) (s : list Z) : res Z :=
  if negb (zlen s =? 29) then Ret (-1)
  else
    match find_name wkday s with
    | None => Ret (-1)
    | Some _ =>
        let s := drop 5 s in
        r_assert (isdigit (at_ s 0) && isdigit (at_ s 1));;
        let day_of_month := dig s 0 * 10 + dig s 0 in
        let s := drop 3 s in
        r_assert (isalpha (at_ s 0) && isupper (at_ s 0));;
        match find_name month s with
        | None => Ret (-1)
        | Some imonth =>
            let s := drop 4 s in
            let+ year := year_loop 4 s 0 in
            parse_clock (drop 5 s) mktime day_of_month imonth year
        end
    end.

(** * The calendar is one *)

Fixpoint all_from (p : Z -> bool) (n : nat) (z : Z) : bool :=
  match n with
  | O => true
  | S n => if p z then all_from p n (z + 1) else false
  end.

Lemma all_from_spec p n z : all_from p n z = true -> forall x, z <= x < z + Z.of_nat n -> p x = true.
Proof.
  revert z. induction n as [|n IH]; intros z H x Hx; [lia|]. simpl in H.
  destruct (p z) eqn:E; [|done]. destruct (Z.eq_dec x z) as [->|]; [done|]. apply (IH (z + 1)); [done|lia].
Qed.

Definition year_of (doe : Z) : Z := (doe - doe / 1460 + doe / 36524 - doe / 146096) / 365.
Definition first_day (yoe : Z) : Z := 365 * yoe + yoe / 4 - yoe / 100.

Lemma year_of_mono a b : 0 <= a <= b -> b < 146096 -> year_of a <= year_of b.
Proof.
  intros Hab Hb. unfold year_of. apply Z.div_le_mono; [lia|].
  rewrite !(Z.div_small _ 146096) by lia. apply Z.sub_le_mono; [|lia].
  apply Z.add_le_mono; [|apply Z.div_le_mono; lia].
  pose proof (Z.div_mod a 1460). pose proof (Z.div_mod b 1460).
  pose proof (Z.mod_pos_bound a 1460). pose proof (Z.mod_pos_bound b 1460). lia.
Qed.

Definition year_ok (y : Z) : bool :=
  (year_of (first_day y) =? y) && (year_of (Z.min (first_day (y + 1) - 1) 146095) =? y) &&
  (first_day (y + 1) - first_day y <=? 366).

Definition day_ok (doy : Z) : bool :=
  let mp := (5 * doy + 2) / 153 in
  in_range 0 11 mp && in_range 1 31 (doy - (153 * mp + 2) / 5 + 1).

Lemma years_checked y : 0 <= y < 400 -> year_ok y = true.
Proof. apply (all_from_spec year_ok 400 0). by vm_compute. Qed.

Lemma days_checked doy : 0 <= doy < 366 -> day_ok doy = true.
Proof. apply (all_from_spec day_ok 366 0). by vm_compute. Qed.

Lemma first_day_le a b : 0 <= a <= b -> first_day a <= first_day b.
Proof.
  intros H. unfold first_day.
  pose proof (Z.div_mod a 100). pose proof (Z.div_mod b 100).
  pose proof (Z.mod_pos_bound a 100). pose proof (Z.mod_pos_bound b 100).
  pose proof (Z.div_le_mono a b 4). lia.
Qed.

(** The year of a day is the one whose days it lies between. *)
Lemma year_of_spec doe :
  0 <= doe < 146097 ->
  0 <= year_of doe < 400 /\ first_day (year_of doe) <= doe < first_day (year_of doe) + 366.
Proof.
  intros Hd. destruct (Z.eq_dec doe 146096) as [->|Hne]; [by vm_compute|].
  assert (Hy : 0 <= year_of doe < 400).
  { split; [change 0 with (year_of 0); apply year_of_mono; lia|].
    assert (year_of doe <= year_of 146095) by (apply year_of_mono; lia).
    change (year_of 146095) with 399 in *. lia. }
  split; [done|].
  pose proof (years_checked _ Hy) as E. unfold year_ok in E. zreflect.
  set (y := year_of doe) in *.
  assert (Hlo : first_day y <= doe).
  { destruct (Z.le_gt_cases (first_day y) doe) as [|Hgt]; [done|exfalso].
    destruct (Z.eq_dec y 0) as [Hz|]; [rewrite Hz in Hgt; change (first_day 0) with 0 in Hgt; lia|].
    pose proof (years_checked (y - 1) ltac:(lia)) as E. unfold year_ok in E.
    replace (y - 1 + 1) with y in E by lia. zreflect.
    assert (first_day y <= first_day 399) by (apply first_day_le; lia).
    change (first_day 399) with 145731 in *.
    assert (Hm : year_of doe <= year_of (Z.min (first_day y - 1) 146095)) by (apply year_of_mono; lia).
    fold y in Hm. lia. }
  assert (Hhi : doe < first_day (y + 1)); [|lia].
  destruct (Z.lt_ge_cases doe (first_day (y + 1))) as [|Hge]; [done|exfalso].
  destruct (Z.eq_dec y 399) as [Hz|].
  { rewrite Hz in Hge. change (first_day (399 + 1)) with 146096 in Hge. lia. }
  pose proof (years_checked (y + 1) ltac:(lia)) as E. unfold year_ok in E. zreflect.
  assert (0 <= first_day (y + 1)) by (change 0 with (first_day 0); apply first_day_le; lia).
  assert (Hm : year_of (first_day (y + 1)) <= year_of doe) by (apply year_of_mono; lia).
  fold y in Hm. lia.
Qed.

Lemma cycle_checked doe :
  0 <= doe < 146097 ->
  let '(yoe, mp, d) := civil_from_cycle doe in
  cycle_day yoe mp d = doe /\ 0 <= yoe < 400 /\ 0 <= mp <= 11 /\ 1 <= d <= 31.
Proof.
  intros Hd. destruct (year_of_spec doe Hd) as [Hy Hf]. unfold civil_from_cycle.
  change ((doe - doe / 1460 + doe / 36524 - doe / 146096) / 365) with (year_of doe).
  change (365 * year_of doe + year_of doe / 4 - year_of doe / 100) with (first_day (year_of doe)).
  pose proof (days_checked (doe - first_day (year_of doe)) ltac:(lia)) as E.
  unfold day_ok, in_range in E. zreflect. split; [|lia].
  unfold cycle_day. fold (first_day (year_of doe)). lia.
Qed.

Lemma days_from_civil_from_days z :
  let '(y, m, d) := civil_from_days z in
  days_from_civil y m d = z /\ 1 <= m <= 12 /\ 1 <= d <= 31.
Proof.
  unfold civil_from_days. set (w := z + 719468).
  pose proof (cycle_checked (w mod 146097) ltac:(by apply Z.mod_pos_bound)) as H.
  destruct (civil_from_cycle (w mod 146097)) as [[yoe mp] d]. destruct H as (H & Hy & Hmp & Hd).
  assert (Hm : 1 <= (if mp <? 10 then mp + 3 else mp - 9) <= 12) by (zcase; lia).
  split; [|lia].
  unfold days_from_civil.
  assert (E : (if (if mp <? 10 then mp + 3 else mp - 9) <=? 2
               then (if (if mp <? 10 then mp + 3 else mp - 9) <=? 2
                     then yoe + w / 146097 * 400 + 1 else yoe + w / 146097 * 400) - 1
               else (if (if mp <? 10 then mp + 3 else mp - 9) <=? 2
                     then yoe + w / 146097 * 400 + 1 else yoe + w / 146097 * 400))
              = yoe + w / 146097 * 400) by (destruct (_ <=? 2); lia).
  rewrite E, Z.div_add, Z.mod_add, Z.div_small, Z.mod_small by lia.
  replace (if 2 <? _ then _ else _) with mp by (repeat zcase; lia).
  pose proof (Z.div_mod w 146097). unfold w in *. lia.
Qed.

Lemma mktime_gmtime zone t mday :
  let g := gmtime t in
  mktime zone (Tm (tm_sec g) (tm_min g) (tm_hour g) mday (tm_mon g) (tm_year g)) =
  t - zone + (mday - tm_mday g) * 86400.
Proof.
  unfold gmtime. pose proof (days_from_civil_from_days (t / 86400)) as H.
  destruct (civil_from_days (t / 86400)) as [[y m] d]. destruct H as (H & _ & _).
  unfold mktime. simpl.
  replace (y - 1900 + 1900) with y by lia. replace (m - 1 + 1) with m by lia.
  assert (Hlin : days_from_civil y m 1 = days_from_civil y m d - d + 1)
    by (unfold days_from_civil, cycle_day; lia).
  rewrite Hlin, H. pose proof (Z.div_mod t 86400 ltac:(lia)).
  set (s := t mod 86400) in *.
  assert (s / 3600 * 3600 + s / 60 mod 60 * 60 + s mod 60 = s).
  { pose proof (Z.div_mod s 60). pose proof (Z.div_mod (s / 60) 60).
    rewrite Z.div_div in * by lia. change (60 * 60) with 3600 in *. lia. }
  lia.
Qed.

(** * Round trip *)

Lemma find_wkday i s :
  0 <= i < 7 ->
  find_name wkday (name_of wkday i ++ s) = Some i /\ exists a b c, name_of wkday i = [a; b; c].
Proof.
  intros Hi. assert (Hc : i = 0 \/ i = 1 \/ i = 2 \/ i = 3 \/ i = 4 \/ i = 5 \/ i = 6) by lia.
  destruct Hc as [->|[->|[->|[->|[->|[->| ->]]]]]]; (split; [done|by do 3 eexists]).
Qed.

Lemma find_month i s :
  0 <= i < 12 ->
  find_name month (name_of month i ++ s) = Some i /\
  exists a b c, name_of month i = [a; b; c] /\ isupper a = true.
Proof.
  intros Hi.
  assert (Hc : i = 0 \/ i = 1 \/ i = 2 \/ i = 3 \/ i = 4 \/ i = 5 \/ i = 6 \/ i = 7 \/ i = 8 \/
               i = 9 \/ i = 10 \/ i = 11) by lia.
  destruct Hc as [->|[->|[->|[->|[->|[->|[->|[->|[->|[->|[->| ->]]]]]]]]]]];
    (split; [done|by do 3 eexists]).
Qed.

Lemma mod10 n : 0 <= n mod 10 <= 9.
Proof. pose proof (Z.mod_pos_bound n 10). lia. Qed.

(** A four-digit year. *)
Lemma decimal_year y :
  1000 <= y <= 9999 ->
  decimal y = [48 + y / 1000; 48 + y / 100 mod 10; 48 + y / 10 mod 10; 48 + y mod 10].
Proof.
  intros Hy. unfold decimal, decimal_nat. rewrite (proj2 (Z.ltb_ge y 0)) by lia.
  assert (9 <= Z.log2 y) by (change 9 with (Z.log2 512); apply Z.log2_le_mono; lia).
  replace (Z.to_nat (Z.log2 y)) with (4 + (Z.to_nat (Z.log2 y) - 4))%nat by lia.
  assert (1 <= y / 1000 <= 9)
    by (split; [apply Z.div_le_lower_bound|apply Z.lt_succ_r, Z.div_lt_upper_bound]; lia).
  assert (E2 : y / 10 / 10 = y / 100) by (by rewrite Z.div_div).
  assert (E3 : y / 100 / 10 = y / 1000) by (by rewrite Z.div_div).
  pose proof (Z.div_mod (y / 100) 10). pose proof (Z.div_mod (y / 10) 10).
  pose proof (mod10 (y / 100)). pose proof (mod10 (y / 10)).
  simpl. rewrite (proj2 (Z.ltb_ge y 10)), (proj2 (Z.ltb_ge (y / 10) 10)) by lia.
  rewrite E2, (proj2 (Z.ltb_ge (y / 100) 10)), E3, (proj2 (Z.ltb_lt (y / 1000) 10)) by lia.
  by rewrite (Z.mod_small (y / 1000)) by lia.
Qed.

Lemma isdigit_48 n : 0 <= n <= 9 -> isdigit (48 + n) = true.
Proof. intros. unfold isdigit, in_range. bool_side. Qed.

Lemma schar_48 n : 0 <= n <= 9 -> schar (48 + n) - 48 = n.
Proof. intros. unfold schar. rewrite (proj2 (Z.ltb_lt _ _)) by lia. lia. Qed.

Lemma gmtime_ranges t :
  let g := gmtime t in
  0 <= tm_sec g < 60 /\ 0 <= tm_min g < 60 /\ 0 <= tm_hour g < 24 /\
  1 <= tm_mday g <= 31 /\ 0 <= tm_mon g < 12.
Proof.
  unfold gmtime. pose proof (days_from_civil_from_days (t / 86400)) as H.
  destruct (civil_from_days (t / 86400)) as [[y m] d]. destruct H as (_ & Hm & Hd). simpl.
  pose proof (Z.mod_pos_bound t 86400 ltac:(lia)).
  pose proof (Z.mod_pos_bound (t mod 86400) 60 ltac:(lia)).
  pose proof (Z.mod_pos_bound (t mod 86400 / 60) 60 ltac:(lia)).
  assert (0 <= t mod 86400 / 3600 < 24)
    by (split; [apply Z.div_pos; lia|apply Z.div_lt_upper_bound; lia]).
  lia.
Qed.

(** A two-digit field is read back. *)
Lemma two_digits n :
  0 <= n < 100 ->
  (0 <= n / 10 <= 9) /\ 0 <= n mod 10 <= 9 /\ n / 10 * 10 + n mod 10 = n.
Proof.
  intros Hn. pose proof (Z.div_mod n 10). pose proof (mod10 n).
  assert (0 <= n / 10) by (apply Z.div_pos; lia). lia.
Qed.

Lemma year_digits y :
  1000 <= y <= 9999 ->
  1 <= y / 1000 <= 9 /\
  ((y / 1000 * 10 + y / 100 mod 10) * 10 + y / 10 mod 10) * 10 + y mod 10 = y.
Proof.
  intros Hy.
  assert (1 <= y / 1000 <= 9)
    by (split; [apply Z.div_le_lower_bound|apply Z.lt_succ_r, Z.div_lt_upper_bound]; lia).
  split; [done|].
  pose proof (Z.div_mod y 10). pose proof (Z.div_mod (y / 10) 10).
  pose proof (Z.div_mod (y / 100) 10).
  assert (E2 : y / 10 / 10 = y / 100) by (by rewrite Z.div_div).
  assert (E3 : y / 100 / 10 = y / 1000) by (by rewrite Z.div_div).
  rewrite E2 in *. rewrite E3 in *. lia.
Qed.

Lemma clock_text mk h m s mday mon year :
  0 <= h < 24 -> 0 <= m < 60 -> 0 <= s < 60 ->
  parse_clock (two h ++ bytes ":" ++ two m ++ bytes ":" ++ two s ++ bytes " GMT") mk mday mon year
  = Ret (mk (Tm s m h mday mon (year - 1900))).
Proof.
  intros Hh Hm Hs.
  destruct (two_digits h) as (? & ? & Eh), (two_digits m) as (? & ? & Em),
    (two_digits s) as (? & ? & Es); try lia.
  unfold parse_clock, at_, dig, two, at_. simpl. rewrite !isdigit_48, !schar_48 by done. simpl.
  rewrite Eh, Em, Es, !(proj2 (Z.ltb_lt _ _)) by lia. done.
Qed.

Lemma year_text y s :
  1000 <= y <= 9999 ->
  year_loop 4 ([48 + y / 1000; 48 + y / 100 mod 10; 48 + y / 10 mod 10; 48 + y mod 10] ++ s) 0 = Ret y.
Proof.
  intros Hy. destruct (year_digits y Hy) as [H1 H2].
  cbn [year_loop app]. unfold at_, dig, at_. cbn [lookup list_lookup default drop]. unfold id.
  rewrite !isdigit_48, !schar_48 by (try apply mod10; lia). cbn [guard res_bind].
  by rewrite Z.mul_0_l, Z.add_0_l, H2.
Qed.

(** The parser gives [mktime] the broken-down time it was printed from, but for
    the day. *)
Lemma parse_text mk t :
  let g := gmtime t in
  1000 <= tm_year g + 1900 <= 9999 ->
  parse_rfc822_date mk (rfc822_text t) =
  Ret (mk (Tm (tm_sec g) (tm_min g) (tm_hour g) (11 * (tm_mday g / 10)) (tm_mon g) (tm_year g))).
Proof.
  intros g Hy. destruct (gmtime_ranges t) as (Hs & Hm & Hh & Hd & Hmo). fold g in Hs, Hm, Hh, Hd, Hmo.
  unfold rfc822_text. fold g. rewrite (decimal_year _ Hy).
  destruct (two_digits (tm_mday g) ltac:(lia)) as (Hd1 & Hd2 & Hd3).
  destruct (year_digits _ Hy) as [Hy1 Hy2]. set (y := tm_year g + 1900) in *.
  pose proof (clock_text mk (tm_hour g) (tm_min g) (tm_sec g) (11 * (tm_mday g / 10)) (tm_mon g) y
    Hh Hm Hs) as Hc.
  set (clock := two (tm_hour g) ++ _) in *.
  set (ys := [48 + y / 1000; _; _; _]).
  destruct (find_month (tm_mon g) (bytes " " ++ ys ++ bytes " " ++ clock) Hmo)
    as [Hmf (a & b & c & Hmn & Hup)].
  set (m := [a; b; c] ++ bytes " " ++ ys ++ bytes " " ++ clock) in *. rewrite Hmn in Hmf |- *.
  set (dm := two (tm_mday g) ++ bytes " " ++ m).
  destruct (find_wkday (weekday t) (bytes ", " ++ dm)) as [Hw (w1 & w2 & w3 & Hwn)];
    [by apply Z.mod_pos_bound|].
  fold m in Hmf |- *. fold dm. unfold parse_rfc822_date. rewrite Hw, Hwn. cbv zeta.
  rewrite (proj2 (Z.eqb_eq (zlen _) 29)) by done. cbn [negb].
  change (drop 5 ([w1; w2; w3] ++ bytes ", " ++ dm)) with dm.
  change (drop 3 dm) with m. change (drop 4 m) with (ys ++ bytes " " ++ clock).
  change (drop 5 (ys ++ bytes " " ++ clock)) with clock.
  change (at_ dm 0) with (48 + tm_mday g / 10). change (at_ dm 1) with (48 + tm_mday g mod 10).
  change (at_ m 0) with a.
  change (dig dm 0) with (schar (48 + tm_mday g / 10) - 48).
  unfold isalpha. rewrite Hmf, Hup, !isdigit_48, !schar_48 by done. cbn [orb andb guard res_bind].
  replace (tm_mday g / 10 * 10 + tm_mday g / 10) with (11 * (tm_mday g / 10)) by lia.
  rewrite (year_text y _ Hy). cbn [res_bind]. rewrite Hc. do 3 f_equal. unfold y. lia.
Qed.

(** The dates the library sends are not the dates it reads.  The parser takes
    the first digit of the day for both digits, and reads the time, which is GMT,
    as local time: what it makes of the text of [t] is off by the zone and by the
    days between the day of the month and eleven times its first digit.  So even
    in GMT only the 11th and the 22nd of a month are read back.  And a date whose
    day is not two digits, sent by anyone, fails an assertion. *)
Theorem rfc822_date_roundtrip zone t :
  let g := gmtime t in
  1000 <= tm_year g + 1900 <= 9999 ->
  let d := tm_mday g in
  parse_rfc822_date (mktime zone) (rfc822_text t)
    = Ret (t - zone + (11 * (d / 10) - d) * 86400) /\
  (parse_rfc822_date (mktime 0) (rfc822_text t) = Ret t <-> d = 11 \/ d = 22) /\
  forall s, zlen s = 29 -> is_Some (find_name wkday s) ->
    isdigit (at_ s 5) && isdigit (at_ s 6) = false ->
    parse_rfc822_date (mktime zone) s = Fault AssertFailed.
Proof.
  intros g Hy d.
  assert (Hparse : forall zone, parse_rfc822_date (mktime zone) (rfc822_text t)
    = Ret (t - zone + (11 * (d / 10) - d) * 86400)).
  { intros z. rewrite (parse_text _ _ Hy). f_equal. apply mktime_gmtime. }
  split; [apply Hparse|]. split.
  - rewrite Hparse. destruct (gmtime_ranges t) as (_ & _ & _ & Hd & _). fold g in Hd. fold d in Hd.
    destruct (two_digits d ltac:(lia)) as (H1 & H2 & H3). split.
    + intros [= H]. lia.
    + intros [-> | ->]; f_equal; simpl; lia.
  - intros s Hl [i Hi] Hdig. unfold parse_rfc822_date. rewrite Hl, Hi. cbv zeta.
    unfold at_ in *. rewrite !lookup_drop. cbn [Nat.add]. by rewrite Hdig.
Qed.

(** 2011-11-11 11:11:11 GMT. *)
Definition nov_11 : Z := 1321009871.

Lemma rfc822_date_roundtrip_witness :
  rfc822_text nov_11 = bytes "Fri, 11 Nov 2011 11:11:11 GMT" /\
  parse_rfc822_date (mktime 3600) (rfc822_text nov_11) = Ret (nov_11 - 3600) /\
  parse_rfc822_date (mktime 3600) (bytes "Sun,                      GMT") = Fault AssertFailed.
Proof.
  split; [by vm_compute|].
  assert (Hy : 1000 <= tm_year (gmtime nov_11) + 1900 <= 9999) by (by vm_compute).
  split.
  - exact (proj1 (rfc822_date_roundtrip 3600 nov_11 Hy)).
  - apply (proj2 (proj2 (rfc822_date_roundtrip 3600 nov_11 Hy))); [done|by eexists|done].
Defined.
