(* ===== verification/GeneralHeader.v ===== *)
(** GeneralHeader: the general header fields of http/src/general_header.c.

    The seven strings of the struct are a function from an enumeration of its
    members.  The flags are bits of an [unsigned long].  The component is
    parameterised by the strings ([STRINGS]) and by [mktime].

    A value that is parsed is the block it lies in, from the first character on:
    [parse_cache_control] looks behind the terminator. *)

From Stdlib Require Import ZArith Lia.
From stdpp Require Import base list numbers.
From S2P Require Import Prelude Convert Cstring Connection HttpBase HttpDate.

(** * Flags *)

Definition GENERAL_HEADER_DATE_SET : Z := 0x01.
Definition GENERAL_HEADER_TRAILER_SET : Z := 0x02.
Definition GENERAL_HEADER_TRANSFER_ENCODING_SET : Z := 0x04.
Definition GENERAL_HEADER_ONLY_IF_CACHED_SET : Z := 0x08.
Definition GENERAL_HEADER_UPGRADE_SET : Z := 0x10.
Definition GENERAL_HEADER_VIA_SET : Z := 0x20.
Definition GENERAL_HEADER_WARNING_SET : Z := 0x40.
Definition GENERAL_HEADER_CONNECTION_SET : Z := 0x80.
Definition GENERAL_HEADER_PRAGMA_SET : Z := 0x100.
Definition GENERAL_HEADER_NO_CACHE_SET : Z := 0x200.
Definition GENERAL_HEADER_NO_STORE_SET : Z := 0x400.
Definition GENERAL_HEADER_MAX_AGE_SET : Z := 0x800.
Definition GENERAL_HEADER_MAX_STALE_SET : Z := 0x1000.
Definition GENERAL_HEADER_MIN_FRESH_SET : Z := 0x2000.
Definition GENERAL_HEADER_NO_TRANSFORM_SET : Z := 0x4000.
Definition GENERAL_HEADER_PUBLIC_SET : Z := 0x8000.
Definition GENERAL_HEADER_PRIVATE_SET : Z := 0x10000.
Definition GENERAL_HEADER_MUST_REVALIDATE_SET : Z := 0x20000.
Definition GENERAL_HEADER_PROXY_REVALIDATE_SET : Z := 0x40000.
Definition GENERAL_HEADER_S_MAXAGE_SET : Z := 0x80000.
Definition GENERAL_HEADER_CACHE_EXTENSION_SET : Z := 0x100000.

Inductive gh_field : Set :=
| Gh_connection | Gh_pragma | Gh_trailer | Gh_transfer_encoding | Gh_upgrade | Gh_via | Gh_warning.

#[export] Instance gh_field_eq_dec : EqDecision gh_field.
Proof. solve_decision. Defined.

Section GeneralHeader.
Context `{STRINGS}.

(** * Data *)

Record general_header : Type := GH {
  gh_flags : Z;
  max_age : Z;
  s_maxage : Z;
  max_stale : Z;
  min_fresh : Z;
  date : Z;
  gh_str : gh_field -> str;
}.

Definition gh_with_flags (fl : Z) (gh : general_header) : general_header :=
  GH fl (max_age gh) (s_maxage gh) (max_stale gh) (min_fresh gh) (date gh) (gh_str gh).

Definition gh_with_str (f : gh_field) (s : str) (gh : general_header) : general_header :=
  GH (gh_flags gh) (max_age gh) (s_maxage gh) (max_stale gh) (min_fresh gh) (date gh)
    (fun g => if decide (g = f) then s else gh_str gh g).

Definition general_header_flag_is_set (gh : general_header) (flag : Z) : bool :=
  negb (Z.land (gh_flags gh) flag =? 0).

Definition general_header_set_flag (gh : general_header) (flag : Z) : general_header :=
  gh_with_flags (Z.lor (gh_flags gh) flag) gh.

Definition general_header_clear_flags (gh : general_header) : general_header := gh_with_flags 0 gh.

Definition general_header_recycle : general_header -> general_header := general_header_clear_flags.

Definition sizeof_general_header : Z := 88.

(** [cstring_multinew(arr, 7)] *)
Definition general_header_new : C (option general_header) :=
  let* ok := alloc_ok sizeof_general_header in
  if negb ok then ret None
  else
    let* arr := new_strings 7 in
    ret (match arr with
         | Some [c; p; t; te; u; v; w] =>
             Some (GH 0 0 0 0 0 0 (fun f =>
               match f with
               | Gh_connection => c
               | Gh_pragma => p
               | Gh_trailer => t
               | Gh_transfer_encoding => te
               | Gh_upgrade => u
               | Gh_via => v
               | Gh_warning => w
               end))
         | _ => None
         end).

(** * Setting *)

Definition set_string (f : gh_field) (flag : Z) (gh : general_header) (value : list Z)
    : C (status * general_header) :=
  let* (st, s) := str_set (gh_str gh f) value in
  let gh := gh_with_str f s gh in
  ret (match st with
       | failure => (failure, gh)
       | success => (success, general_header_set_flag gh flag)
       end).

Definition general_header_set_connection := set_string Gh_connection GENERAL_HEADER_CONNECTION_SET.
Definition general_header_set_pragma := set_string Gh_pragma GENERAL_HEADER_PRAGMA_SET.
Definition general_header_set_trailer := set_string Gh_trailer GENERAL_HEADER_TRAILER_SET.
Definition general_header_set_transfer_encoding :=
  set_string Gh_transfer_encoding GENERAL_HEADER_TRANSFER_ENCODING_SET.
Definition general_header_set_upgrade := set_string Gh_upgrade GENERAL_HEADER_UPGRADE_SET.
Definition general_header_set_via := set_string Gh_via GENERAL_HEADER_VIA_SET.
Definition general_header_set_warning := set_string Gh_warning GENERAL_HEADER_WARNING_SET.

Definition general_header_set_date (gh : general_header) (value : Z) : res general_header :=
  r_assert (negb (value =? -1));;
  Ret (general_header_set_flag
         (GH (gh_flags gh) (max_age gh) (s_maxage gh) (max_stale gh) (min_fresh gh) value (gh_str gh))
         GENERAL_HEADER_DATE_SET).

Definition general_header_set_no_cache (gh : general_header) :=
  general_header_set_flag gh GENERAL_HEADER_NO_CACHE_SET.
Definition general_header_set_no_store (gh : general_header) :=
  general_header_set_flag gh GENERAL_HEADER_NO_STORE_SET.
Definition general_header_set_no_transform (gh : general_header) :=
  general_header_set_flag gh GENERAL_HEADER_NO_TRANSFORM_SET.
Definition general_header_set_only_if_cached (gh : general_header) :=
  general_header_set_flag gh GENERAL_HEADER_ONLY_IF_CACHED_SET.
Definition general_header_set_public (gh : general_header) :=
  general_header_set_flag gh GENERAL_HEADER_PUBLIC_SET.
Definition general_header_set_private (gh : general_header) :=
  general_header_set_flag gh GENERAL_HEADER_PRIVATE_SET.
Definition general_header_set_must_revalidate (gh : general_header) :=
  general_header_set_flag gh GENERAL_HEADER_MUST_REVALIDATE_SET.
Definition general_header_set_proxy_revalidate (gh : general_header) :=
  general_header_set_flag gh GENERAL_HEADER_PROXY_REVALIDATE_SET.

Definition general_header_set_max_age (gh : general_header) (value : Z) :=
  general_header_set_flag
    (GH (gh_flags gh) value (s_maxage gh) (max_stale gh) (min_fresh gh) (date gh) (gh_str gh))
    GENERAL_HEADER_MAX_AGE_SET.
Definition general_header_set_s_maxage (gh : general_header) (value : Z) :=
  general_header_set_flag
    (GH (gh_flags gh) (max_age gh) value (max_stale gh) (min_fresh gh) (date gh) (gh_str gh))
    GENERAL_HEADER_S_MAXAGE_SET.
Definition general_header_set_max_stale (gh : general_header) (value : Z) :=
  general_header_set_flag
    (GH (gh_flags gh) (max_age gh) (s_maxage gh) value (min_fresh gh) (date gh) (gh_str gh))
    GENERAL_HEADER_MAX_STALE_SET.
Definition general_header_set_min_fresh (gh : general_header) (value : Z) :=
  general_header_set_flag
    (GH (gh_flags gh) (max_age gh) (s_maxage gh) (max_stale gh) value (date gh) (gh_str gh))
    GENERAL_HEADER_MIN_FRESH_SET.

(** * Getting *)

Definition get_number (member : general_header -> Z) (flag : Z) (gh : general_header) : res Z :=
  r_assert (general_header_flag_is_set gh flag);; Ret (member gh).

Definition general_header_get_max_age := get_number max_age GENERAL_HEADER_MAX_AGE_SET.
Definition general_header_get_s_maxage := get_number s_maxage GENERAL_HEADER_S_MAXAGE_SET.
Definition general_header_get_max_stale := get_number max_stale GENERAL_HEADER_MAX_STALE_SET.
Definition general_header_get_min_fresh := get_number min_fresh GENERAL_HEADER_MIN_FRESH_SET.
Definition general_header_get_date := get_number date GENERAL_HEADER_DATE_SET.

Definition get_string (f : gh_field) (flag : Z) (gh : general_header) : res (list Z) :=
  r_assert (general_header_flag_is_set gh flag);; str_text (gh_str gh f).

Definition general_header_get_trailer := get_string Gh_trailer GENERAL_HEADER_TRAILER_SET.
Definition general_header_get_transfer_encoding :=
  get_string Gh_transfer_encoding GENERAL_HEADER_TRANSFER_ENCODING_SET.
Definition general_header_get_upgrade := get_string Gh_upgrade GENERAL_HEADER_UPGRADE_SET.
Definition general_header_get_via := get_string Gh_via GENERAL_HEADER_VIA_SET.
Definition general_header_get_warning := get_string Gh_warning GENERAL_HEADER_WARNING_SET.

Definition general_header_get_connection (gh : general_header) : res (list Z) :=
  if negb (general_header_flag_is_set gh GENERAL_HEADER_CONNECTION_SET) then Ret []
  else str_text (gh_str gh Gh_connection).

Definition general_header_no_cache_isset (gh : general_header) : bool :=
  general_header_flag_is_set gh GENERAL_HEADER_NO_CACHE_SET.
Definition general_header_no_store_isset (gh : general_header) : bool :=
  general_header_flag_is_set gh GENERAL_HEADER_NO_STORE_SET.
Definition general_header_max_age_isset (gh : general_header) : bool :=
  general_header_flag_is_set gh GENERAL_HEADER_MAX_AGE_SET.
Definition general_header_connection_isset (gh : general_header) : bool :=
  general_header_flag_is_set gh GENERAL_HEADER_CONNECTION_SET.
Definition general_header_pragma_isset (gh : general_header) : bool :=
  general_header_flag_is_set gh GENERAL_HEADER_PRAGMA_SET.
Definition general_header_max_stale_isset (gh : general_header) : bool :=
  general_header_flag_is_set gh GENERAL_HEADER_MAX_STALE_SET.
Definition general_header_min_fresh_isset (gh : general_header) : bool :=
  general_header_flag_is_set gh GENERAL_HEADER_MIN_FRESH_SET.
Definition general_header_no_transform_isset (gh : general_header) : bool :=
  general_header_flag_is_set gh GENERAL_HEADER_NO_TRANSFORM_SET.
Definition general_header_only_if_cached_isset (gh : general_header) : bool :=
  general_header_flag_is_set gh GENERAL_HEADER_ONLY_IF_CACHED_SET.
Definition general_header_date_isset (gh : general_header) : bool :=
  general_header_flag_is_set gh GENERAL_HEADER_DATE_SET.
Definition general_header_trailer_isset (gh : general_header) : bool :=
  general_header_flag_is_set gh GENERAL_HEADER_TRAILER_SET.
Definition general_header_transfer_encoding_isset (gh : general_header) : bool :=
  general_header_flag_is_set gh GENERAL_HEADER_TRANSFER_ENCODING_SET.
Definition general_header_upgrade_isset (gh : general_header) : bool :=
  general_header_flag_is_set gh GENERAL_HEADER_UPGRADE_SET.
Definition general_header_via_isset (gh : general_header) : bool :=
  general_header_flag_is_set gh GENERAL_HEADER_VIA_SET.
Definition general_header_warning_isset (gh : general_header) : bool :=
  general_header_flag_is_set gh GENERAL_HEADER_WARNING_SET.
Definition general_header_get_no_cache (gh : general_header) : bool :=
  general_header_flag_is_set gh GENERAL_HEADER_NO_CACHE_SET.
Definition general_header_get_no_store (gh : general_header) : bool :=
  general_header_flag_is_set gh GENERAL_HEADER_NO_STORE_SET.
Definition general_header_get_public (gh : general_header) : bool :=
  general_header_flag_is_set gh GENERAL_HEADER_PUBLIC_SET.
Definition general_header_get_private (gh : general_header) : bool :=
  general_header_flag_is_set gh GENERAL_HEADER_PRIVATE_SET.
Definition general_header_get_must_revalidate (gh : general_header) : bool :=
  general_header_flag_is_set gh GENERAL_HEADER_MUST_REVALIDATE_SET.
Definition general_header_get_proxy_revalidate (gh : general_header) : bool :=
  general_header_flag_is_set gh GENERAL_HEADER_PROXY_REVALIDATE_SET.
Definition general_header_get_no_transform (gh : general_header) : bool :=
  general_header_flag_is_set gh GENERAL_HEADER_NO_TRANSFORM_SET.
Definition general_header_get_only_if_cached (gh : general_header) : bool :=
  general_header_flag_is_set gh GENERAL_HEADER_ONLY_IF_CACHED_SET.

Definition general_header_is_chunked_message (gh : general_header) : res bool :=
  if negb (general_header_transfer_encoding_isset gh) then Ret false
  else let+ t := str_text (gh_str gh Gh_transfer_encoding) in
       Ret (strcasecmp t (bytes "chunked") =? 0).

(** * Sending *)

(** The number of fields of the Cache-Control line that are set. *)
Definition cachecontrol_field_set (gh : general_header) : Z :=
  let n flag := if general_header_flag_is_set gh flag then 1 else 0 in
  n GENERAL_HEADER_NO_CACHE_SET + n GENERAL_HEADER_NO_STORE_SET + n GENERAL_HEADER_MAX_AGE_SET
  + n GENERAL_HEADER_MAX_STALE_SET + n GENERAL_HEADER_MIN_FRESH_SET
  + n GENERAL_HEADER_NO_TRANSFORM_SET + n GENERAL_HEADER_PUBLIC_SET + n GENERAL_HEADER_PRIVATE_SET
  + n GENERAL_HEADER_MUST_REVALIDATE_SET + n GENERAL_HEADER_PROXY_REVALIDATE_SET
  + n GENERAL_HEADER_S_MAXAGE_SET + n GENERAL_HEADER_CACHE_EXTENSION_SET.

(** One of the blocks of [send_cachecontrol]. *)
Definition send_directive (gh : general_header) (flag : Z) (send : writer)
    (rest : Z -> writer) (nfields : Z) : writer :=
  if general_header_flag_is_set gh flag
  then send &&> (if negb (nfields =? 0) then http_send_string (bytes ", ") else send_nothing)
       &&> rest (nfields - 1)
  else rest nfields.

Definition send_cachecontrol (gh : general_header) : writer :=
  let block flag name := send_directive gh flag (http_send_string name) in
  let number flag name v := send_directive gh flag (http_send_int name v) in
  http_send_string (bytes "Cache-Control: ") &&>
  ( block GENERAL_HEADER_NO_CACHE_SET (bytes "no-cache")
  ( block GENERAL_HEADER_NO_STORE_SET (bytes "no-store")
  ( number GENERAL_HEADER_MAX_AGE_SET (bytes "max-age=") (max_age gh)
  ( number GENERAL_HEADER_MAX_STALE_SET (bytes "max-stale=") (max_stale gh)
  ( number GENERAL_HEADER_MIN_FRESH_SET (bytes "min-fresh=") (min_fresh gh)
  ( block GENERAL_HEADER_NO_TRANSFORM_SET (bytes "no-transform")
  ( block GENERAL_HEADER_PUBLIC_SET (bytes "public")
  ( block GENERAL_HEADER_PRIVATE_SET (bytes "private")
  ( block GENERAL_HEADER_MUST_REVALIDATE_SET (bytes "must-revalidate")
  ( block GENERAL_HEADER_PROXY_REVALIDATE_SET (bytes "proxy-revalidate")
  ( number GENERAL_HEADER_S_MAXAGE_SET (bytes "s-maxage=") (s_maxage gh)
  ( fun nfields c => r_assert (nfields =? 0);; send_nothing c )))))))))))
    (cachecontrol_field_set gh)).

Definition send_pragma (gh : general_header) := http_send_field (bytes "Pragma: ") (gh_str gh Gh_pragma).
Definition send_date (gh : general_header) := http_send_date (bytes "Date: ") (date gh).
Definition send_connection (gh : general_header) :=
  http_send_field (bytes "Connection: ") (gh_str gh Gh_connection).
Definition send_trailer (gh : general_header) :=
  http_send_field (bytes "Trailer: ") (gh_str gh Gh_trailer).
Definition send_transfer_encoding (gh : general_header) :=
  http_send_field (bytes "Transfer-Encoding: ") (gh_str gh Gh_transfer_encoding).
Definition send_upgrade (gh : general_header) :=
  http_send_field (bytes "Upgrade: ") (gh_str gh Gh_upgrade).
Definition send_via (gh : general_header) := http_send_field (bytes "Via: ") (gh_str gh Gh_via).
Definition send_warning (gh : general_header) :=
  http_send_field (bytes "Warning: ") (gh_str gh Gh_warning).

(** The table [fields] of [general_header_send_fields]. *)
Definition gh_send_table : list (Z * (general_header -> writer)) :=
  [ (GENERAL_HEADER_PRAGMA_SET, send_pragma);
    (GENERAL_HEADER_DATE_SET, send_date);
    (GENERAL_HEADER_CONNECTION_SET, send_connection);
    (GENERAL_HEADER_TRAILER_SET, send_trailer);
    (GENERAL_HEADER_TRANSFER_ENCODING_SET, send_transfer_encoding);
    (GENERAL_HEADER_UPGRADE_SET, send_upgrade);
    (GENERAL_HEADER_VIA_SET, send_via);
    (GENERAL_HEADER_WARNING_SET, send_warning) ].

Fixpoint send_table (gh : general_header) (l : list (Z * (general_header -> writer))) : writer :=
  match l with
  | [] => send_nothing
  | (flag, sendfunc) :: l =>
      if general_header_flag_is_set gh flag then sendfunc gh &&> send_table gh l
      else send_table gh l
  end.

Definition general_header_send_fields (gh : general_header) : writer :=
  send_table gh gh_send_table &&>
  (if negb (cachecontrol_field_set gh =? 0) then send_cachecontrol gh else send_nothing).

(** * Parsing *)

Definition type1 : list (list Z * (general_header -> general_header)) :=
  [ (bytes "no-cache", general_header_set_no_cache);
    (bytes "no-store", general_header_set_no_store);
    (bytes "no-transform", general_header_set_no_transform);
    (bytes "only-if-cached", general_header_set_only_if_cached) ].

Definition type2 : list (list Z * (general_header -> Z -> general_header)) :=
  [ (bytes "max-age", general_header_set_max_age);
    (bytes "max-stale", general_header_set_max_stale);
    (bytes "min-fresh", general_header_set_min_fresh) ].

(** [strstr(s, directive) == s], the first one of the table. *)
Fixpoint find_directive {A} (l : list (list Z * A)) (s : list Z) : option A :=
  match l with
  | [] => None
  | (name, func) :: l => if prefixb name s then Some func else find_directive l s
  end.

Definition set_cache_control (gh : general_header) (s : list Z) : handled general_header :=
  match find_directive type1 s with
  | Some func => (None, func gh)
  | None =>
      match find_directive type2 s with
      | Some func =>
          match strchr s (ch "=") with
          | None => (Some (Http_error HTTP_400_BAD_REQUEST), gh)
          | Some i =>
              match toint (drop (S i) s) with
              | inl _ => (Some (Http_error HTTP_400_BAD_REQUEST), gh)
              | inr arg => (None, func gh arg)
              end
          end
      | None => (None, gh)
      end
  end.

(** The loop moves over the block; [fuel] is its size. *)
Fixpoint cache_control_loop (fuel : nat) (gh : general_header) (value : block)
    : res (handled general_header) :=
  match fuel with
  | O => Fault FuelOut
  | S fuel =>
      let+ v := str_at value in
      match strchr v 32 with
      | None => Ret (set_cache_control gh v)
      | Some i =>
          let s := drop (S i) value in
          let+ t := str_at s in
          match set_cache_control gh t with
          | (Some e, gh) => Ret (Some e, gh)
          | (None, gh) => cache_control_loop fuel gh (drop 1 s)
          end
      end
  end.

Definition parse_cache_control (gh : general_header) (value : block) : C (handled general_header) :=
  lift (cache_control_loop (S (length value)) gh value).

(** [if (!set(gh, value)) return set_os_error(e, errno);] *)
Definition parse_string (set : general_header -> list Z -> C (status * general_header))
    (gh : general_header) (value : block) : C (handled general_header) :=
  let* v := lift (str_at value) in
  let* (st, gh) := set gh v in
  match st with
  | failure => reports (Os_error ENOMEM) gh
  | success => done gh
  end.

Definition parse_transfer_encoding := parse_string general_header_set_transfer_encoding.
Definition parse_warning := parse_string general_header_set_warning.
Definition parse_trailer := parse_string general_header_set_trailer.
Definition parse_upgrade := parse_string general_header_set_upgrade.
Definition parse_via := parse_string general_header_set_via.

Definition parse_pragma (gh : general_header) (value : block) : C (handled general_header) :=
  let* v := lift (str_at value) in
  done (if prefixb (bytes "no-cache") v then general_header_set_no_cache gh else gh).

Definition parse_connection (gh : general_header) (value : block) : C (handled general_header) :=
  let* v := lift (str_at value) in
  let v := if negb (strcasecmp v (bytes "keep-alive") =? 0) then bytes "close" else v in
  let* (st, gh) := general_header_set_connection gh v in
  match st with
  | failure => reports (Os_error ENOMEM) gh
  | success => done gh
  end.

Definition parse_date (mktime : tm -> Z) (gh : general_header) (value : block)
    : C (handled general_header) :=
  let* v := lift (str_at value) in
  let* d := lift (parse_rfc822_date mktime v) in
  if d =? -1 then reports (Http_error HTTP_400_BAD_REQUEST) gh
  else let* gh := lift (general_header_set_date gh d) in done gh.

Definition general_header_fields (mktime : tm -> Z)
    : list (list Z * (general_header -> block -> C (handled general_header))) :=
  [ (bytes "cache-control", parse_cache_control);
    (bytes "date", parse_date mktime);
    (bytes "pragma", parse_pragma);
    (bytes "connection", parse_connection);
    (bytes "trailer", parse_trailer);
    (bytes "transfer-encoding", parse_transfer_encoding);
    (bytes "upgrade", parse_upgrade);
    (bytes "via", parse_via);
    (bytes "warning", parse_warning) ].

(** [find_general_header] followed by [parse_general_header]. *)
Definition find_general_header (mktime : tm -> Z) := find_handler (general_header_fields mktime).

End GeneralHeader.
