(* ===== verification/GeneralHeaderProps.v ===== *)
(** GeneralHeaderProps: what the general header stores, sends and parses.

    [represents gh v] says that the object holds the values [v], a map from the
    members to optional values.  [general_header_store] shows that every
    operation is an update of that map, [general_header_sends] which bytes go
    out, and [cache_control_parsed] which directives of a Cache-Control line are
    understood. *)

From Stdlib Require Import ZArith Lia.
From stdpp Require Import base list numbers functions.
From S2P Require Import Prelude Convert Cstring Connection HttpBase HttpDate GeneralHeader.

(** * Members *)

Inductive gh_num : Set := N_max_age | N_s_maxage | N_max_stale | N_min_fresh | N_date.

Inductive gh_bool : Set :=
| B_no_cache | B_no_store | B_no_transform | B_only_if_cached
| B_public | B_private | B_must_revalidate | B_proxy_revalidate.

Inductive key : Set :=
| Str (f : gh_field)
| Num (n : gh_num)
| Bool (b : gh_bool).

#[export] Instance gh_num_eq_dec : EqDecision gh_num.
Proof. solve_decision. Defined.
#[export] Instance gh_bool_eq_dec : EqDecision gh_bool.
Proof. solve_decision. Defined.
#[export] Instance key_eq_dec : EqDecision key.
Proof. solve_decision. Defined.

Definition flag_of (k : key) : Z :=
  match k with
  | Str Gh_connection => GENERAL_HEADER_CONNECTION_SET
  | Str Gh_pragma => GENERAL_HEADER_PRAGMA_SET
  | Str Gh_trailer => GENERAL_HEADER_TRAILER_SET
  | Str Gh_transfer_encoding => GENERAL_HEADER_TRANSFER_ENCODING_SET
  | Str Gh_upgrade => GENERAL_HEADER_UPGRADE_SET
  | Str Gh_via => GENERAL_HEADER_VIA_SET
  | Str Gh_warning => GENERAL_HEADER_WARNING_SET
  | Num N_max_age => GENERAL_HEADER_MAX_AGE_SET
  | Num N_s_maxage => GENERAL_HEADER_S_MAXAGE_SET
  | Num N_max_stale => GENERAL_HEADER_MAX_STALE_SET
  | Num N_min_fresh => GENERAL_HEADER_MIN_FRESH_SET
  | Num N_date => GENERAL_HEADER_DATE_SET
  | Bool B_no_cache => GENERAL_HEADER_NO_CACHE_SET
  | Bool B_no_store => GENERAL_HEADER_NO_STORE_SET
  | Bool B_no_transform => GENERAL_HEADER_NO_TRANSFORM_SET
  | Bool B_only_if_cached => GENERAL_HEADER_ONLY_IF_CACHED_SET
  | Bool B_public => GENERAL_HEADER_PUBLIC_SET
  | Bool B_private => GENERAL_HEADER_PRIVATE_SET
  | Bool B_must_revalidate => GENERAL_HEADER_MUST_REVALIDATE_SET
  | Bool B_proxy_revalidate => GENERAL_HEADER_PROXY_REVALIDATE_SET
  end.

(** No two members share a flag. *)
Lemma flags_disjoint a b :
  negb (Z.land (flag_of a) (flag_of b) =? 0) = bool_decide (a = b).
Proof.
  destruct a as [[]|[]|[]], b as [[]|[]|[]]; vm_compute; reflexivity.
Qed.

Section Props.
Context `{StringLaws}.

Definition has (gh : general_header) (k : key) : bool := general_header_flag_is_set gh (flag_of k).

Lemma has_set gh k k' :
  has (general_header_set_flag gh (flag_of k)) k' = has gh k' || bool_decide (k = k').
Proof.
  unfold has, general_header_flag_is_set, general_header_set_flag. simpl.
  rewrite <-flags_disjoint, Z.land_lor_distr_l.
  destruct (Z.eqb_spec (Z.land (gh_flags gh) (flag_of k')) 0) as [->|Hne]; simpl; [done|].
  apply negb_true_iff, Z.eqb_neq. by intros [? _]%Z.lor_eq_0_iff.
Qed.

(** * The store *)

Record view : Type := View {
  v_str : gh_field -> option (list Z);
  v_num : gh_num -> option Z;
  v_bool : gh_bool -> bool;
}.

Definition number (gh : general_header) (n : gh_num) : Z :=
  match n with
  | N_max_age => max_age gh
  | N_s_maxage => s_maxage gh
  | N_max_stale => max_stale gh
  | N_min_fresh => min_fresh gh
  | N_date => date gh
  end.

Definition represents (gh : general_header) (v : view) : Prop :=
  (forall f, exists t, str_rep (gh_str gh f) t /\
     v_str v f = if has gh (Str f) then Some t else None) /\
  (forall n, v_num v n = if has gh (Num n) then Some (number gh n) else None) /\
  (forall b, v_bool v b = has gh (Bool b)) /\
  Z.land (gh_flags gh) GENERAL_HEADER_CACHE_EXTENSION_SET = 0.

Inductive gh_op : Set :=
| Set_str (f : gh_field) (value : list Z)
| Set_num (n : gh_num) (value : Z)
| Set_bool (b : gh_bool)
| Recycle.

Definition setter (f : gh_field) : general_header -> list Z -> C (status * general_header) :=
  match f with
  | Gh_connection => general_header_set_connection
  | Gh_pragma => general_header_set_pragma
  | Gh_trailer => general_header_set_trailer
  | Gh_transfer_encoding => general_header_set_transfer_encoding
  | Gh_upgrade => general_header_set_upgrade
  | Gh_via => general_header_set_via
  | Gh_warning => general_header_set_warning
  end.

Definition run_op (o : gh_op) (gh : general_header) : C (status * general_header) :=
  match o with
  | Set_str f value => setter f gh value
  | Set_num N_max_age v => ret (success, general_header_set_max_age gh v)
  | Set_num N_s_maxage v => ret (success, general_header_set_s_maxage gh v)
  | Set_num N_max_stale v => ret (success, general_header_set_max_stale gh v)
  | Set_num N_min_fresh v => ret (success, general_header_set_min_fresh gh v)
  | Set_num N_date v => let* gh := lift (general_header_set_date gh v) in ret (success, gh)
  | Set_bool B_no_cache => ret (success, general_header_set_no_cache gh)
  | Set_bool B_no_store => ret (success, general_header_set_no_store gh)
  | Set_bool B_no_transform => ret (success, general_header_set_no_transform gh)
  | Set_bool B_only_if_cached => ret (success, general_header_set_only_if_cached gh)
  | Set_bool B_public => ret (success, general_header_set_public gh)
  | Set_bool B_private => ret (success, general_header_set_private gh)
  | Set_bool B_must_revalidate => ret (success, general_header_set_must_revalidate gh)
  | Set_bool B_proxy_revalidate => ret (success, general_header_set_proxy_revalidate gh)
  | Recycle => ret (success, general_header_recycle gh)
  end.

Definition op_ok (o : gh_op) : Prop :=
  match o with
  | Set_str _ value => valid_str value
  | Set_num N_date v => v <> -1
  | _ => True
  end.

(** The update an operation is; a string that could not be stored is left empty,
    and set if it was. *)
Definition apply_op (o : gh_op) (st : status) (v : view) : view :=
  match o, st with
  | Set_str f value, success => View (<[f := Some value]> (v_str v)) (v_num v) (v_bool v)
  | Set_str f _, failure => View (alter (fmap (fun _ => [])) f (v_str v)) (v_num v) (v_bool v)
  | Set_num n x, _ => View (v_str v) (<[n := Some x]> (v_num v)) (v_bool v)
  | Set_bool b, _ => View (v_str v) (v_num v) (<[b := true]> (v_bool v))
  | Recycle, _ => View (fun _ => None) (fun _ => None) (fun _ => false)
  end.

Lemma represents_flag gh v gh' k :
  represents gh v ->
  gh_flags gh' = Z.lor (gh_flags gh) (flag_of k) ->
  (forall k', has gh' k' = has gh k' || bool_decide (k = k')) /\
  Z.land (gh_flags gh') GENERAL_HEADER_CACHE_EXTENSION_SET = 0.
Proof.
  intros (_ & _ & _ & He) Hf. split.
  - intros k'. rewrite <-(has_set gh k k'). unfold has, general_header_flag_is_set. by rewrite Hf.
  - rewrite Hf, Z.land_lor_distr_l, He. by destruct k as [[]|[]|[]].
Qed.

Lemma set_string_spec f gh v value o :
  represents gh v -> valid_str value ->
  wp (setter f gh value) o (fun '(st, gh') o' =>
    represents gh' (apply_op (Set_str f value) st v) /\
    (forall g, str_cap (gh_str gh' g) <= Z.max (str_cap (gh_str gh g)) (3 * zlen value)) /\
    (o = [] -> o' = [] /\ (2 * str_cap (gh_str gh f) + zlen value <= PTRDIFF_MAX -> st = success))).
Proof.
  intros Hr Hv. pose proof Hr as (Hs & Hn & Hb & He).
  assert (E : setter f = set_string f (flag_of (Str f))) by (by destruct f). rewrite E.
  unfold set_string. destruct (Hs f) as (t & Ht & Hvf). wp.
  eapply wp_mono; [by apply (str_set_law _ t)|]. intros [st s] o' (Hrep & Hcap & Ho). wp.
  destruct st; cbn beta iota.
  - split.
    + split_and!; [|done|done|done].
      intros g. change (has (gh_with_str f s gh) (Str g)) with (has gh (Str g)).
      simpl. destruct (decide (g = f)) as [->|Hg].
      * exists []. split; [done|]. rewrite fn_lookup_alter, Hvf. by destruct (has gh (Str f)).
      * rewrite fn_lookup_alter_ne by done. apply Hs.
    + split; [|done]. intros g. simpl. case_decide; [subst|]; lia.
  - split.
    + destruct (represents_flag gh v
        (general_header_set_flag (gh_with_str f s gh) (flag_of (Str f))) _ Hr eq_refl) as [Hhas Hext].
      split_and!; [intros g; rewrite Hhas; simpl..|done].
      * destruct (decide (g = f)) as [->|Hg].
        -- exists value. split; [done|]. rewrite bool_decide_true, orb_true_r by done.
           by rewrite fn_lookup_insert.
        -- rewrite fn_lookup_insert_ne by done. rewrite bool_decide_false, orb_false_r by congruence.
           apply Hs.
      * rewrite orb_false_r, Hn. by destruct g.
      * rewrite orb_false_r. apply Hb.
    + split; [|done]. intros g. simpl. case_decide; [subst|]; lia.
Qed.

Lemma set_num_spec n x gh v gh' :
  represents gh v -> gh_str gh' = gh_str gh ->
  gh_flags gh' = Z.lor (gh_flags gh) (flag_of (Num n)) ->
  (forall m, number gh' m = if decide (m = n) then x else number gh m) ->
  represents gh' (apply_op (Set_num n x) success v).
Proof.
  intros Hr Hs Hf Hnum. destruct (represents_flag _ _ _ _ Hr Hf) as [Hhas Hext].
  destruct Hr as (Hr1 & Hr2 & Hr3 & _).
  split_and!; [intros g; rewrite Hhas, ?Hs, ?Hnum; simpl..|done].
  - rewrite orb_false_r. apply Hr1.
  - destruct (decide (g = n)) as [->|Hg].
    + by rewrite bool_decide_true, orb_true_r, fn_lookup_insert by done.
    + rewrite bool_decide_false, orb_false_r, fn_lookup_insert_ne by congruence. apply Hr2.
  - rewrite orb_false_r. apply Hr3.
Qed.

Lemma set_bool_spec b gh v :
  represents gh v ->
  represents (general_header_set_flag gh (flag_of (Bool b))) (apply_op (Set_bool b) success v).
Proof.
  intros Hr. destruct (represents_flag gh v (general_header_set_flag gh (flag_of (Bool b)))
    (Bool b) Hr eq_refl) as [Hhas Hext].
  destruct Hr as (Hr1 & Hr2 & Hr3 & _). split_and!; [intros g; rewrite Hhas; simpl..|done].
  - rewrite orb_false_r. apply Hr1.
  - rewrite orb_false_r. apply Hr2.
  - destruct (decide (g = b)) as [->|Hg].
    + by rewrite bool_decide_true, orb_true_r, fn_lookup_insert by done.
    + rewrite bool_decide_false, orb_false_r, fn_lookup_insert_ne by congruence. apply Hr3.
Qed.

Lemma recycle_spec gh v st :
  represents gh v -> represents (general_header_recycle gh) (apply_op Recycle st v).
Proof.
  intros (Hr1 & _ & _ & _).
  assert (Hno : forall k, has (general_header_recycle gh) k = false) by (intros k; done).
  split_and!; [intros g; rewrite Hno; try done..|done]. destruct (Hr1 g) as (t & Ht & _). by exists t.
Qed.

Lemma run_op_spec o gh v orc :
  op_ok o -> represents gh v ->
  wp (run_op o gh) orc (fun '(st, gh') _ => represents gh' (apply_op o st v)).
Proof.
  intros Hok Hr. destruct o as [f value|n x|b|].
  - eapply wp_mono; [by eapply set_string_spec|]. by intros [st gh'] o' [? _].
  - destruct n; cbn [run_op]; wp; unfold general_header_set_date; wp;
      try (eapply (set_num_spec _ _ gh v); [done..|by intros []]).
    simpl in Hok. apply wpr_guard; [by apply negb_true_iff, Z.eqb_neq|]. simpl.
    eapply (set_num_spec _ _ gh v); [done..|by intros []].
  - assert (E : run_op (Set_bool b) gh = ret (success, general_header_set_flag gh (flag_of (Bool b))))
      by (by destruct b).
    rewrite E. wp. by apply set_bool_spec.
  - cbn [run_op]. wp. by apply (recycle_spec gh v).
Qed.

Fixpoint run_ops (ops : list gh_op) (gh : general_header) (v : view) : C (general_header * view) :=
  match ops with
  | [] => ret (gh, v)
  | o :: ops =>
      let* (st, gh) := run_op o gh in
      run_ops ops gh (apply_op o st v)
  end.

(** The getters; those of unset members fail their assertion, but for the
    connection, which is then empty. *)
Definition shows (gh : general_header) (v : view) : Prop :=
  let text f := match v_str v f with Some t => Ret t | None => Fault AssertFailed end in
  let num n := match v_num v n with Some x => Ret x | None => Fault AssertFailed end in
  general_header_get_connection gh = Ret (default [] (v_str v Gh_connection)) /\
  general_header_get_trailer gh = text Gh_trailer /\
  general_header_get_transfer_encoding gh = text Gh_transfer_encoding /\
  general_header_get_upgrade gh = text Gh_upgrade /\
  general_header_get_via gh = text Gh_via /\
  general_header_get_warning gh = text Gh_warning /\
  general_header_pragma_isset gh = bool_decide (is_Some (v_str v Gh_pragma)) /\
  general_header_get_max_age gh = num N_max_age /\
  general_header_get_s_maxage gh = num N_s_maxage /\
  general_header_get_max_stale gh = num N_max_stale /\
  general_header_get_min_fresh gh = num N_min_fresh /\
  general_header_get_date gh = num N_date /\
  general_header_get_no_cache gh = v_bool v B_no_cache /\
  general_header_get_no_store gh = v_bool v B_no_store /\
  general_header_get_no_transform gh = v_bool v B_no_transform /\
  general_header_get_only_if_cached gh = v_bool v B_only_if_cached /\
  general_header_get_public gh = v_bool v B_public /\
  general_header_get_private gh = v_bool v B_private /\
  general_header_get_must_revalidate gh = v_bool v B_must_revalidate /\
  general_header_get_proxy_revalidate gh = v_bool v B_proxy_revalidate.

Lemma represents_shows gh v : represents gh v -> shows gh v.
Proof.
  intros (Hs & Hn & Hb & _).
  assert (Htext : forall f, get_string f (flag_of (Str f)) gh =
    match v_str v f with Some t => Ret t | None => Fault AssertFailed end).
  { intros f. destruct (Hs f) as (t & Ht & ->). unfold get_string, guard. fold (has gh (Str f)).
    destruct (has gh (Str f)); simpl; [|done]. by apply str_text_law. }
  assert (Hnum : forall n, get_number (fun gh => number gh n) (flag_of (Num n)) gh =
    match v_num v n with Some x => Ret x | None => Fault AssertFailed end).
  { intros n. rewrite Hn. unfold get_number, guard. fold (has gh (Num n)).
    by destruct (has gh (Num n)). }
  unfold shows. split_and!; try apply Htext; try apply (Hnum N_max_age); try apply (Hnum N_s_maxage);
    try apply (Hnum N_max_stale); try apply (Hnum N_min_fresh); try apply (Hnum N_date);
    try (symmetry; apply Hb).
  - unfold general_header_get_connection. change (general_header_flag_is_set gh _) with
      (has gh (Str Gh_connection)). destruct (Hs Gh_connection) as (t & Ht & ->).
    destruct (has gh (Str Gh_connection)); simpl; [|done]. by apply str_text_law.
  - change (general_header_pragma_isset gh) with (has gh (Str Gh_pragma)).
    destruct (Hs Gh_pragma) as (t & Ht & ->). by destruct (has gh (Str Gh_pragma)).
Qed.

(** A new header holds nothing. *)
Definition nothing : view := View (fun _ => None) (fun _ => None) (fun _ => false).

Lemma general_header_new_spec o :
  wp general_header_new o (fun r o' =>
    (forall gh, r = Some gh ->
       represents gh nothing /\ forall f, str_cap (gh_str gh f) <= 256) /\
    (o = [] -> o' = [] /\ is_Some r)).
Proof.
  unfold general_header_new. wp. apply wp_alloc_ok. intros b o1 _ Ho1. destruct b; cbn [negb]; wp.
  2:{ split; [done|]. intros ->. by destruct Ho1. }
  eapply wp_mono; [apply (new_strings_spec 7)|]. intros r o2 [Hr Ho2]. wp. split.
  - intros gh Hgh. destruct r as [l|]; [|done]. destruct (Hr l eq_refl) as [Hl Hf].
    do 7 (destruct l as [|? l]; [done|]). destruct l; [|done]. simplify_eq.
    repeat match goal with Hf : Forall _ (_ :: _) |- _ => apply Forall_cons_1 in Hf as [? ?] end.
    split; [|intros []; simpl; tauto].
    split_and!; try done. intros g. exists []. split; [|done]. destruct g; simpl; tauto.
  - intros ->. destruct Ho1 as [-> _]; [done|]. destruct Ho2 as [-> [l Hl]]; [done|]. subst r.
    destruct (Hr l eq_refl) as [Hlen _]. do 7 (destruct l as [|? l]; [done|]).
    destruct l; [|done]. by eauto.
Qed.

(** C18. The general header is a store of its members: after any sequence of
    setters and recycles, under any behaviour of the allocator, each getter
    returns what was last set, an unset member fails the getter's assertion (an
    unset connection reads as empty), and no operation touches another member;
    only a string whose setter failed is left empty. *)
Theorem general_header_store ops gh v o :
  Forall op_ok ops -> represents gh v ->
  wp (run_ops ops gh v) o (fun '(gh', v') _ => represents gh' v' /\ shows gh' v').
Proof.
  intros Hops. revert gh v o. induction Hops as [|op ops Hok _ IH]; intros gh v o Hr; simpl; wp.
  { split; [done|by apply represents_shows]. }
  eapply wp_mono; [by apply run_op_spec|]. intros [st gh'] o' Hr'. by apply IH.
Qed.

(** * What is sent *)

Definition bit (gh : general_header) (flag : Z) : Z :=
  if general_header_flag_is_set gh flag then 1 else 0.

Definition directive (gh : general_header) (flag : Z) (text : list Z) : list Z :=
  if general_header_flag_is_set gh flag then text ++ bytes ", " else [].

Lemma sends_directive gh flag send text rest rtext n m :
  sends send text -> 0 <= m -> n = bit gh flag + m -> sends (rest m) rtext ->
  sends (send_directive gh flag send rest n) (directive gh flag text ++ rtext).
Proof.
  intros Hs Hm -> Hr. unfold send_directive, directive, bit.
  destruct (general_header_flag_is_set gh flag); [|done].
  rewrite (proj2 (Z.eqb_neq (1 + m) 0)) by lia. cbn [negb].
  replace (1 + m - 1) with m by lia. rewrite <-app_assoc.
  apply sends_then; [done|]. apply sends_then; [apply sends_string|done].
Qed.

(** The Cache-Control line as it goes out: each directive is followed by a comma
    and a space, the last one too, and there is no end of line. *)
Definition cache_text (gh : general_header) : list Z :=
  bytes "Cache-Control: " ++
  directive gh GENERAL_HEADER_NO_CACHE_SET (bytes "no-cache") ++
  directive gh GENERAL_HEADER_NO_STORE_SET (bytes "no-store") ++
  directive gh GENERAL_HEADER_MAX_AGE_SET (bytes "max-age=" ++ decimal (max_age gh)) ++
  directive gh GENERAL_HEADER_MAX_STALE_SET (bytes "max-stale=" ++ decimal (max_stale gh)) ++
  directive gh GENERAL_HEADER_MIN_FRESH_SET (bytes "min-fresh=" ++ decimal (min_fresh gh)) ++
  directive gh GENERAL_HEADER_NO_TRANSFORM_SET (bytes "no-transform") ++
  directive gh GENERAL_HEADER_PUBLIC_SET (bytes "public") ++
  directive gh GENERAL_HEADER_PRIVATE_SET (bytes "private") ++
  directive gh GENERAL_HEADER_MUST_REVALIDATE_SET (bytes "must-revalidate") ++
  directive gh GENERAL_HEADER_PROXY_REVALIDATE_SET (bytes "proxy-revalidate") ++
  directive gh GENERAL_HEADER_S_MAXAGE_SET (bytes "s-maxage=" ++ decimal (s_maxage gh)).

Definition is_int (x : Z) : Prop := INT_MIN <= x <= INT_MAX.

Definition ints (gh : general_header) : Prop :=
  is_int (max_age gh) /\ is_int (s_maxage gh) /\ is_int (max_stale gh) /\ is_int (min_fresh gh).

Lemma sends_int name v :
  zlen name <= 900 -> is_int v -> sends (http_send_int name v) (name ++ decimal v).
Proof.
  intros Hn Hv. apply sends_number.
  assert (length (decimal v) <= 65)%nat; [|unfold zlen in *; lia].
  apply decimal_length. unfold is_int, INT_MIN, INT_MAX, LONG_MIN, LONG_MAX in *. lia.
Qed.

Lemma bit_range gh flag : 0 <= bit gh flag <= 1.
Proof. unfold bit. destruct (general_header_flag_is_set gh flag); lia. Qed.

Lemma sends_cachecontrol gh v :
  represents gh v -> ints gh -> sends (send_cachecontrol gh) (cache_text gh).
Proof.
  intros (_ & _ & _ & Hext) (H1 & H2 & H3 & H4).
  assert (He : bit gh GENERAL_HEADER_CACHE_EXTENSION_SET = 0)
    by (unfold bit, general_header_flag_is_set; by rewrite Hext).
  unfold send_cachecontrol, cache_text. apply sends_then; [apply sends_string|]. cbv zeta.
  rewrite <-(app_nil_r (directive gh GENERAL_HEADER_S_MAXAGE_SET _)).
  change (cachecontrol_field_set gh) with
    (bit gh GENERAL_HEADER_NO_CACHE_SET + bit gh GENERAL_HEADER_NO_STORE_SET
     + bit gh GENERAL_HEADER_MAX_AGE_SET + bit gh GENERAL_HEADER_MAX_STALE_SET
     + bit gh GENERAL_HEADER_MIN_FRESH_SET + bit gh GENERAL_HEADER_NO_TRANSFORM_SET
     + bit gh GENERAL_HEADER_PUBLIC_SET + bit gh GENERAL_HEADER_PRIVATE_SET
     + bit gh GENERAL_HEADER_MUST_REVALIDATE_SET + bit gh GENERAL_HEADER_PROXY_REVALIDATE_SET
     + bit gh GENERAL_HEADER_S_MAXAGE_SET + bit gh GENERAL_HEADER_CACHE_EXTENSION_SET).
  rewrite He, Z.add_0_r. repeat rewrite <-Z.add_assoc.
  pose proof (bit_range gh) as Hb.
  repeat match goal with
  | |- sends (send_directive gh ?flag _ _ (bit gh ?flag + ?m)) _ =>
      apply (sends_directive gh flag _ _ _ _ _ m);
      [first [apply sends_string | by apply sends_int] | repeat apply Z.add_nonneg_nonneg; apply Hb | done |]
  | |- sends (send_directive gh ?flag _ _ (bit gh ?flag)) _ =>
      apply (sends_directive gh flag _ _ _ _ _ 0);
      [by apply sends_int | done | by rewrite Z.add_0_r |]
  end.
  apply sends_nothing.
Qed.

(** A line of the table. *)
Definition line (gh : general_header) (k : key) (text : list Z) : list Z :=
  if has gh k then text ++ CRLF else [].

Definition header_text (gh : general_header) (v : view) : list Z :=
  let str f name := line gh (Str f) (name ++ default [] (v_str v f)) in
  str Gh_pragma (bytes "Pragma: ") ++
  line gh (Num N_date) (bytes "Date: " ++ rfc822_text (date gh)) ++
  str Gh_connection (bytes "Connection: ") ++
  str Gh_trailer (bytes "Trailer: ") ++
  str Gh_transfer_encoding (bytes "Transfer-Encoding: ") ++
  str Gh_upgrade (bytes "Upgrade: ") ++
  str Gh_via (bytes "Via: ") ++
  str Gh_warning (bytes "Warning: ") ++
  (if cachecontrol_field_set gh =? 0 then [] else cache_text gh).

Lemma sends_row gh k send text l ltext :
  (has gh k = true -> sends (send gh) (text ++ CRLF)) -> sends (send_table gh l) ltext ->
  sends (send_table gh ((flag_of k, send) :: l)) (line gh k text ++ ltext).
Proof.
  intros Hs Hl. cbn [send_table]. unfold line. fold (has gh k). destruct (has gh k); [|done].
  apply sends_then; auto.
Qed.

Lemma general_header_sends gh v :
  represents gh v -> ints gh -> sends (general_header_send_fields gh) (header_text gh v).
Proof.
  intros Hr Hi. unfold general_header_send_fields, header_text. cbv zeta.
  assert (Hstr : forall f name, has gh (Str f) = true ->
    sends (http_send_field name (gh_str gh f)) ((name ++ default [] (v_str v f)) ++ CRLF)).
  { intros f name Hf. destruct Hr as (Hs & _). destruct (Hs f) as (t & Ht & ->). rewrite Hf.
    rewrite <-app_assoc. by apply sends_field. }
  set (cc := if _ =? 0 then _ else _).
  set (rows := send_table gh gh_send_table).
  cut (forall l, sends l cc -> sends (rows &&> l) (header_text gh v)).
  - intros Hcut. apply Hcut. unfold cc. destruct (cachecontrol_field_set gh =? 0); simpl;
      [apply sends_nothing|by eapply sends_cachecontrol].
  - intros l Hl. unfold header_text. fold cc. cbv zeta. rewrite !app_assoc.
    apply sends_then; [|done]. rewrite <-!app_assoc.
    unfold rows, gh_send_table.
    repeat (first
      [ apply (sends_row gh (Str Gh_pragma))
      | apply (sends_row gh (Num N_date))
      | apply (sends_row gh (Str Gh_connection))
      | apply (sends_row gh (Str Gh_trailer))
      | apply (sends_row gh (Str Gh_transfer_encoding))
      | apply (sends_row gh (Str Gh_upgrade))
      | apply (sends_row gh (Str Gh_via)) ];
      [intros Hk; first [by apply Hstr | rewrite <-app_assoc; apply sends_date]|]).
    rewrite <-(app_nil_r (line gh (Str Gh_warning) _)).
    apply (sends_row gh (Str Gh_warning)); [by apply Hstr|apply sends_nothing].
Qed.

(** * Cache-Control *)

(** The four directives without an argument. *)
Definition plain (b : gh_bool) : option (list Z) :=
  match b with
  | B_no_cache => Some (bytes "no-cache")
  | B_no_store => Some (bytes "no-store")
  | B_no_transform => Some (bytes "no-transform")
  | B_only_if_cached => Some (bytes "only-if-cached")
  | _ => None
  end.

Definition plain_text (b : gh_bool) : list Z := default [] (plain b).

(** The directives of a line, after the first one. *)
Definition more (bs : list gh_bool) : list Z := concat ((fun b => bytes ", " ++ plain_text b) <$> bs).

Definition set_all (bs : list gh_bool) (gh : general_header) : general_header :=
  fold_left (fun gh b => general_header_set_flag gh (flag_of (Bool b))) bs gh.

(** A text without spaces, in memory. *)
Definition word (d : list Z) : Prop := Forall is_char d /\ Forall (fun c => c <> 32) d.

Lemma plain_word b : word (plain_text b) /\ word (drop 1 (plain_text b)).
Proof.
  assert (Hd : forall s, bool_decide (Forall is_char s /\ Forall (fun c => c <> 32) s) = true -> word s)
    by (intros s Hs; by apply bool_decide_eq_true in Hs).
  destruct b; (split; apply Hd; vm_compute; reflexivity).
Qed.

Lemma more_cons b bs : more (b :: bs) = [44; 32] ++ plain_text b ++ more bs.
Proof. done. Qed.

Lemma more_chars bs : Forall is_char (more bs).
Proof.
  induction bs as [|b bs IH]; [done|]. rewrite more_cons.
  apply Forall_app. split; [by decide_closed|]. apply Forall_app. split; [|done]. apply plain_word.
Qed.

Lemma set_plain gh b s :
  is_Some (plain b) ->
  set_cache_control gh (plain_text b ++ s) = (None, general_header_set_flag gh (flag_of (Bool b))) /\
  set_cache_control gh (drop 1 (plain_text b)) = (None, gh).
Proof. intros [d Hd]. by destruct b. Qed.

(** One turn of the loop: [pre] is skipped, [b] taken. *)
Lemma cache_control_turn fuel gh pre b bs junk :
  word pre -> is_Some (plain b) ->
  cache_control_loop (S fuel) gh (cstr (pre ++ more (b :: bs)) ++ junk) =
  cache_control_loop fuel (general_header_set_flag gh (flag_of (Bool b)))
    (cstr (drop 1 (plain_text b) ++ more bs) ++ junk).
Proof.
  intros [Hp1 Hp2] Hb. cbn [cache_control_loop].
  rewrite str_at_here by (apply Forall_app; split; [done|apply more_chars]). cbn [res_bind].
  rewrite more_cons.
  replace (pre ++ [44; 32] ++ plain_text b ++ more bs)
    with ((pre ++ [44]) ++ 32 :: (plain_text b ++ more bs)) by (by rewrite <-app_assoc).
  rewrite strchr_app by (apply Forall_app; split; [done|by apply Forall_singleton]).
  rewrite drop_cstr.
  rewrite str_at_here by (apply Forall_app; split; [apply plain_word|apply more_chars]). cbn [res_bind].
  destruct (set_plain gh b (more bs) Hb) as [-> _]. f_equal.
  destruct Hb as [d Hd]. by destruct b.
Qed.

Lemma cache_control_rest fuel gh pre bs junk :
  word pre -> (forall gh, set_cache_control gh pre = (None, gh)) -> Forall (fun b => is_Some (plain b)) bs ->
  (length bs < fuel)%nat ->
  cache_control_loop fuel gh (cstr (pre ++ more bs) ++ junk) = Ret (None, set_all bs gh).
Proof.
  intros Hw Hq Hbs. revert fuel gh pre Hw Hq.
  induction Hbs as [|b bs Hb _ IH]; intros fuel gh pre Hw Hq Hf.
  - destruct fuel as [|fuel]; [lia|]. unfold more. simpl. rewrite app_nil_r.
    rewrite str_at_here by apply Hw. cbn [res_bind]. rewrite strchr_none by apply Hw. by rewrite Hq.
  - destruct fuel as [|fuel]; [simpl in Hf; lia|].
    rewrite cache_control_turn by done. rewrite IH; [done|apply plain_word| |simpl in Hf; lia].
    intros gh'. by apply (set_plain gh' b []).
Qed.

Lemma decimal_word n : word (decimal n).
Proof.
  assert (Hd : forall m, 0 <= m -> word (decimal_nat m)).
  { intros m Hm. pose proof (decimal_nat_digits m Hm) as Hds. unfold digits, isdigit, in_range in Hds.
    split; (eapply Forall_impl; [|exact Hds]); intros c Hc; cbn beta in *; zreflect; unfold is_char; lia. }
  unfold decimal. destruct (Z.ltb_spec n 0); [|apply Hd; lia].
  destruct (Hd (- n) ltac:(lia)) as [Hc Hw]. split; (constructor; [|done]); done.
Qed.

Lemma number_no_comma s neg v : number_text s neg v -> Forall (fun c => c <> 44) s.
Proof.
  intros (ws & sg & ds & -> & Hws & Hsg & Hds & _ & _). rewrite !Forall_app. split_and!.
  - eapply Forall_impl; [|exact Hws]. by intros c Hc ->.
  - destruct Hsg; repeat constructor; done.
  - eapply Forall_impl; [|exact Hds]. by intros c Hc ->.
Qed.

Lemma toint_decimal n : is_int n -> toint (decimal n) = inr n.
Proof.
  intros Hn. unfold toint. apply narrow_iff. split; [|done]. apply tolong_iff.
  exists (n <? 0), (Z.abs n). split; [apply decimal_number|]. rewrite signed_abs. split; [done|].
  unfold is_int, INT_MIN, INT_MAX, LONG_MIN, LONG_MAX in *. lia.
Qed.

Lemma toint_comma s t : exists e, toint (s ++ 44 :: t) = inl e.
Proof.
  destruct (toint (s ++ 44 :: t)) as [e|v] eqn:E; [by exists e|exfalso].
  apply narrow_iff in E as [E _]. apply tolong_iff in E as (neg & a & Hn & _).
  apply number_no_comma, Forall_app in Hn as [_ Hn]. by inversion Hn.
Qed.

Definition age_text (n : Z) : list Z := bytes "max-age=" ++ decimal n.

Lemma set_age gh s :
  set_cache_control gh (bytes "max-age=" ++ s) =
  match toint s with
  | inl _ => (Some (Http_error HTTP_400_BAD_REQUEST), gh)
  | inr n => (None, general_header_set_max_age gh n)
  end.
Proof. reflexivity. Qed.

(** What is understood of a Cache-Control line.  A directive alone is taken.
    Of several directives the first one is dropped, whatever it is, and the rest
    are taken: "no-store, no-cache" does not set no-store.  A directive with an
    argument that is not the last one is an error, because the argument is read
    to the end of the line.  And a line that ends in a space makes the parser
    read on behind the terminator. *)
Theorem cache_control_parsed gh first b bs junk d n :
  word first -> is_Some (plain b) -> Forall (fun b => is_Some (plain b)) bs ->
  word d -> is_int n ->
  let parse s := parse_cache_control gh (cstr s ++ junk) [] in
  parse (plain_text b) = Ret ((None, set_all [b] gh), []) /\
  parse (first ++ more (b :: bs)) = Ret ((None, set_all (b :: bs) gh), []) /\
  parse (age_text n) = Ret ((None, general_header_set_max_age gh n), []) /\
  parse (first ++ bytes ", " ++ age_text n ++ bytes ", " ++ d)
    = Ret ((Some (Http_error HTTP_400_BAD_REQUEST), gh), []) /\
  parse_cache_control gh (cstr (first ++ [32])) [] = Fault OutOfBounds.
Proof.
  intros Hf Hb Hbs Hd Hn parse. unfold parse, parse_cache_control, lift.
  assert (Hword : forall s, word s -> cache_control_loop (S (length (cstr s ++ junk))) gh (cstr s ++ junk)
    = Ret (set_cache_control gh s)).
  { intros s [H1 H2]. cbn [cache_control_loop]. rewrite str_at_here by done. cbn [res_bind].
    by rewrite strchr_none. }
  assert (Hage : word (age_text n)).
  { destruct (decimal_word n) as [H1 H2]. unfold age_text.
    split; (apply Forall_app; split; [by decide_closed|done]). }
  split_and!.
  - rewrite Hword by apply plain_word. destruct (set_plain gh b [] Hb) as [E _].
    rewrite app_nil_r in E. by rewrite E.
  - rewrite cache_control_turn by done. rewrite cache_control_rest; [done|apply plain_word| |done|].
    + intros gh'. by apply (set_plain gh' b []).
    + unfold cstr. rewrite !length_app, !length_fmap, !length_app. rewrite more_cons, !length_app.
      assert (length bs <= length (more bs))%nat; [|simpl; lia].
      clear. induction bs as [|b bs IH]; [done|]. rewrite more_cons, !length_app. simpl in *. lia.
  - rewrite Hword by done. unfold age_text. by rewrite set_age, toint_decimal.
  - cbn [cache_control_loop].
    replace (first ++ bytes ", " ++ age_text n ++ bytes ", " ++ d)
      with ((first ++ [44]) ++ 32 :: (age_text n ++ bytes ", " ++ d)) by (by rewrite <-app_assoc).
    destruct Hf as [Hf1 Hf2], Hd as [Hd1 Hd2], Hage as [Ha1 Ha2].
    assert (Hrest : Forall is_char (age_text n ++ bytes ", " ++ d)).
    { rewrite !Forall_app. split_and!; [done|by decide_closed|done]. }
    rewrite str_at_here.
    2:{ rewrite Forall_app, Forall_cons_iff, Forall_app, Forall_singleton.
        split_and!; try done; unfold is_char; lia. }
    cbn [res_bind]. rewrite strchr_app by (apply Forall_app; split; [done|by apply Forall_singleton]).
    rewrite drop_cstr, str_at_here by done. cbn [res_bind]. unfold age_text. rewrite <-app_assoc.
    rewrite set_age. change (bytes ", " ++ d) with (44 :: 32 :: d).
    by destruct (toint_comma (decimal n) (32 :: d)) as [e ->].
  - destruct Hf as [Hf1 Hf2]. rewrite <-(app_nil_r (cstr (first ++ [32]))). cbn [cache_control_loop].
    rewrite str_at_here by (apply Forall_app; split; [done|by decide_closed]). cbn [res_bind].
    rewrite strchr_app, drop_cstr by done. destruct (length _) eqn:E; [|done].
    apply (f_equal Z.of_nat) in E. unfold cstr in E. rewrite !length_app in E. simpl in E. lia.
Qed.

End Props.

(** * Witnesses *)

Definition fresh_header : general_header := GH 0 0 0 0 0 0 (fun _ => Cstring.fresh).

Lemma fresh_header_represents : represents fresh_header nothing.
Proof. split_and!; try done. intros f. exists []. split; [apply rep_fresh|done]. Qed.

Definition sample_header_ops : list gh_op :=
  [Set_str Gh_via (bytes "a"); Set_num N_date 7; Set_bool B_public; Recycle;
   Set_num N_max_age 60; Set_str Gh_via (bytes "1.1 proxy"); Set_bool B_no_store].

Lemma general_header_store_witness :
  wp (run_ops sample_header_ops fresh_header nothing) [] (fun '(gh', v') _ =>
    represents gh' v' /\ shows gh' v').
Proof.
  apply general_header_store; [|apply fresh_header_represents].
  repeat constructor; simpl; try done; by decide_closed.
Defined.

Lemma cache_control_parsed_witness :
  let parse s := parse_cache_control fresh_header (cstr s ++ []) [] in
  parse (bytes "no-store, no-cache, no-transform")
    = Ret ((None, set_all [B_no_cache; B_no_transform] fresh_header), []) /\
  parse_cache_control fresh_header (cstr (bytes "no-store" ++ [32])) [] = Fault OutOfBounds.
Proof.
  assert (Hw : word (bytes "no-store")) by (split; decide_closed).
  assert (Hb : is_Some (plain B_no_cache)) by (by eexists).
  assert (Hbs : Forall (fun b => is_Some (plain b)) [B_no_transform])
    by (repeat constructor; by eexists).
  assert (Hn : is_int 5) by (unfold is_int, INT_MIN, INT_MAX; lia).
  pose proof (cache_control_parsed fresh_header (bytes "no-store") B_no_cache [B_no_transform] []
    (bytes "no-store") 5 Hw Hb Hbs Hw Hn) as (_ & H2 & _ & _ & H5).
  split; [exact H2|exact H5].
Defined.
