(* ===== verification/EntityHeader.v ===== *)
(** EntityHeader: the entity header fields of http/src/entity_header.c, modelled
    like the general header: flags, numbers, and the strings as a function from
    an enumeration of the members. *)

From Stdlib Require Import ZArith Lia.
From stdpp Require Import base list numbers.
From S2P Require Import Prelude Convert Cstring Connection HttpBase HttpDate.

Definition ENTITY_HEADER_ALLOW_SET : Z := 0x01.
Definition ENTITY_HEADER_CONTENT_ENCODING_SET : Z := 0x02.
Definition ENTITY_HEADER_CONTENT_LANGUAGE_SET : Z := 0x04.
Definition ENTITY_HEADER_CONTENT_LENGTH_SET : Z := 0x08.
Definition ENTITY_HEADER_CONTENT_LOCATION_SET : Z := 0x10.
Definition ENTITY_HEADER_CONTENT_MD5_SET : Z := 0x20.
Definition ENTITY_HEADER_CONTENT_RANGE_SET : Z := 0x40.
Definition ENTITY_HEADER_CONTENT_TYPE_SET : Z := 0x80.
Definition ENTITY_HEADER_EXPIRES_SET : Z := 0x100.
Definition ENTITY_HEADER_LAST_MODIFIED_SET : Z := 0x200.

Inductive eh_field : Set :=
| Eh_allow | Eh_content_encoding | Eh_content_language | Eh_content_location | Eh_content_md5
| Eh_content_type | Eh_content_range.

#[export] Instance eh_field_eq_dec : EqDecision eh_field.
Proof. solve_decision. Defined.

Section EntityHeader.
Context `{STRINGS}.

(** * Data *)

Record entity_header : Type := EH {
  eh_flags : Z;
  content_length : Z;
  expires : Z;
  last_modified : Z;
  eh_str : eh_field -> str;
}.

Definition eh_with_str (f : eh_field) (s : str) (eh : entity_header) : entity_header :=
  EH (eh_flags eh) (content_length eh) (expires eh) (last_modified eh)
    (fun g => if decide (g = f) then s else eh_str eh g).

Definition entity_header_flag_is_set (eh : entity_header) (flag : Z) : bool :=
  negb (Z.land (eh_flags eh) flag =? 0).

Definition entity_header_set_flag (eh : entity_header) (flag : Z) : entity_header :=
  EH (Z.lor (eh_flags eh) flag) (content_length eh) (expires eh) (last_modified eh) (eh_str eh).

Definition entity_header_clear_flags (eh : entity_header) : entity_header :=
  EH 0 (content_length eh) (expires eh) (last_modified eh) (eh_str eh).

Definition sizeof_entity_header : Z := 88.

Definition entity_header_new : C (option entity_header) :=
  let* ok := alloc_ok sizeof_entity_header in
  if negb ok then ret None
  else
    let* arr := new_strings 7 in
    ret (match arr with
         | Some [a; ce; cl; clo; md5; ct; cr] =>
             Some (EH 0 0 0 0 (fun f =>
               match f with
               | Eh_allow => a
               | Eh_content_encoding => ce
               | Eh_content_language => cl
               | Eh_content_location => clo
               | Eh_content_md5 => md5
               | Eh_content_type => ct
               | Eh_content_range => cr
               end))
         | _ => None
         end).

Definition entity_header_recycle (eh : entity_header) : res entity_header :=
  let eh := entity_header_clear_flags eh in
  let+ s := str_recycle (eh_str eh Eh_content_language) in
  Ret (eh_with_str Eh_content_language s eh).

(** * Setting and getting *)

Definition eh_set_string (f : eh_field) (flag : Z) (eh : entity_header) (value : list Z)
    : C (status * entity_header) :=
  let* (st, s) := str_set (eh_str eh f) value in
  let eh := eh_with_str f s eh in
  ret (match st with
       | failure => (failure, eh)
       | success => (success, entity_header_set_flag eh flag)
       end).

Definition entity_header_set_allow := eh_set_string Eh_allow ENTITY_HEADER_ALLOW_SET.
Definition entity_header_set_content_encoding :=
  eh_set_string Eh_content_encoding ENTITY_HEADER_CONTENT_ENCODING_SET.
Definition entity_header_set_content_type :=
  eh_set_string Eh_content_type ENTITY_HEADER_CONTENT_TYPE_SET.
Definition entity_header_set_content_md5 :=
  eh_set_string Eh_content_md5 ENTITY_HEADER_CONTENT_MD5_SET.
Definition entity_header_set_content_location :=
  eh_set_string Eh_content_location ENTITY_HEADER_CONTENT_LOCATION_SET.
Definition entity_header_set_content_range :=
  eh_set_string Eh_content_range ENTITY_HEADER_CONTENT_RANGE_SET.

(** The status and the error of a setter, as its callers report them. *)
Definition eh_reported (m : C (status * entity_header)) : C (handled entity_header) :=
  let* (st, eh) := m in
  match st with
  | failure => reports (Os_error ENOMEM) eh
  | success => done eh
  end.

Definition entity_header_set_content_language (eh : entity_header) (value : list Z)
    : C (handled entity_header) :=
  eh_reported (eh_set_string Eh_content_language ENTITY_HEADER_CONTENT_LANGUAGE_SET eh value).

Definition entity_header_set_content_length (eh : entity_header) (value : Z) : entity_header :=
  entity_header_set_flag (EH (eh_flags eh) value (expires eh) (last_modified eh) (eh_str eh))
    ENTITY_HEADER_CONTENT_LENGTH_SET.
Definition entity_header_set_expires (eh : entity_header) (value : Z) : entity_header :=
  entity_header_set_flag (EH (eh_flags eh) (content_length eh) value (last_modified eh) (eh_str eh))
    ENTITY_HEADER_EXPIRES_SET.
Definition entity_header_set_last_modified (eh : entity_header) (value : Z) : entity_header :=
  entity_header_set_flag (EH (eh_flags eh) (content_length eh) (expires eh) value (eh_str eh))
    ENTITY_HEADER_LAST_MODIFIED_SET.

Definition entity_header_content_type_is (eh : entity_header) (val : list Z) : res bool :=
  let+ t := str_text (eh_str eh Eh_content_type) in Ret (strcmp t val =? 0).

Definition entity_header_allow_isset (eh : entity_header) : bool :=
  entity_header_flag_is_set eh ENTITY_HEADER_ALLOW_SET.
Definition entity_header_content_encoding_isset (eh : entity_header) : bool :=
  entity_header_flag_is_set eh ENTITY_HEADER_CONTENT_ENCODING_SET.
Definition entity_header_content_language_isset (eh : entity_header) : bool :=
  entity_header_flag_is_set eh ENTITY_HEADER_CONTENT_LANGUAGE_SET.
Definition entity_header_content_length_isset (eh : entity_header) : bool :=
  entity_header_flag_is_set eh ENTITY_HEADER_CONTENT_LENGTH_SET.
Definition entity_header_content_location_isset (eh : entity_header) : bool :=
  entity_header_flag_is_set eh ENTITY_HEADER_CONTENT_LOCATION_SET.
Definition entity_header_content_md5_isset (eh : entity_header) : bool :=
  entity_header_flag_is_set eh ENTITY_HEADER_CONTENT_MD5_SET.
Definition entity_header_content_range_isset (eh : entity_header) : bool :=
  entity_header_flag_is_set eh ENTITY_HEADER_CONTENT_RANGE_SET.
Definition entity_header_content_type_isset (eh : entity_header) : bool :=
  entity_header_flag_is_set eh ENTITY_HEADER_CONTENT_TYPE_SET.
Definition entity_header_expires_isset (eh : entity_header) : bool :=
  entity_header_flag_is_set eh ENTITY_HEADER_EXPIRES_SET.
Definition entity_header_last_modified_isset (eh : entity_header) : bool :=
  entity_header_flag_is_set eh ENTITY_HEADER_LAST_MODIFIED_SET.

Definition eh_get_string (f : eh_field) (flag : Z) (eh : entity_header) : res (list Z) :=
  r_assert (entity_header_flag_is_set eh flag);; str_text (eh_str eh f).
Definition eh_get_number (member : entity_header -> Z) (flag : Z) (eh : entity_header) : res Z :=
  r_assert (entity_header_flag_is_set eh flag);; Ret (member eh).

Definition entity_header_get_allow := eh_get_string Eh_allow ENTITY_HEADER_ALLOW_SET.
Definition entity_header_get_content_encoding :=
  eh_get_string Eh_content_encoding ENTITY_HEADER_CONTENT_ENCODING_SET.
Definition entity_header_get_content_language :=
  eh_get_string Eh_content_language ENTITY_HEADER_CONTENT_LANGUAGE_SET.
Definition entity_header_get_content_location :=
  eh_get_string Eh_content_location ENTITY_HEADER_CONTENT_LOCATION_SET.
Definition entity_header_get_content_md5 :=
  eh_get_string Eh_content_md5 ENTITY_HEADER_CONTENT_MD5_SET.
Definition entity_header_get_content_range :=
  eh_get_string Eh_content_range ENTITY_HEADER_CONTENT_RANGE_SET.
Definition entity_header_get_content_type :=
  eh_get_string Eh_content_type ENTITY_HEADER_CONTENT_TYPE_SET.
Definition entity_header_get_content_length :=
  eh_get_number content_length ENTITY_HEADER_CONTENT_LENGTH_SET.
Definition entity_header_get_expires := eh_get_number expires ENTITY_HEADER_EXPIRES_SET.
Definition entity_header_get_last_modified :=
  eh_get_number last_modified ENTITY_HEADER_LAST_MODIFIED_SET.

(** * Sending *)

Definition send_allow (eh : entity_header) := http_send_field (bytes "Allow: ") (eh_str eh Eh_allow).
Definition send_content_encoding (eh : entity_header) :=
  http_send_field (bytes "Content-Encoding: ") (eh_str eh Eh_content_encoding).
Definition send_content_language (eh : entity_header) :=
  http_send_field (bytes "Content-Language: ") (eh_str eh Eh_content_language).
Definition send_content_location (eh : entity_header) :=
  http_send_field (bytes "Content-Location: ") (eh_str eh Eh_content_location).
Definition send_content_md5 (eh : entity_header) :=
  http_send_field (bytes "Content-MD5: ") (eh_str eh Eh_content_md5).
Definition send_content_range (eh : entity_header) :=
  http_send_field (bytes "Content-Range: ") (eh_str eh Eh_content_range).
Definition send_content_type (eh : entity_header) :=
  http_send_field (bytes "Content-Type: ") (eh_str eh Eh_content_type).
Definition send_expires (eh : entity_header) := http_send_date (bytes "Expires: ") (expires eh).
Definition send_last_modified (eh : entity_header) :=
  http_send_date (bytes "Last-Modified: ") (last_modified eh).

(** The buffer of 100 bytes holds every [unsigned long]. *)
Definition send_content_length (eh : entity_header) : writer := fun c =>
  let+ n := entity_header_get_content_length eh in
  connection_write c (bytes "Content-Length: " ++ decimal n ++ CRLF).

Definition eh_send_table : list (Z * (entity_header -> writer)) :=
  [ (ENTITY_HEADER_ALLOW_SET, send_allow);
    (ENTITY_HEADER_CONTENT_ENCODING_SET, send_content_encoding);
    (ENTITY_HEADER_CONTENT_LANGUAGE_SET, send_content_language);
    (ENTITY_HEADER_CONTENT_LENGTH_SET, send_content_length);
    (ENTITY_HEADER_CONTENT_LOCATION_SET, send_content_location);
    (ENTITY_HEADER_CONTENT_MD5_SET, send_content_md5);
    (ENTITY_HEADER_CONTENT_RANGE_SET, send_content_range);
    (ENTITY_HEADER_CONTENT_TYPE_SET, send_content_type);
    (ENTITY_HEADER_EXPIRES_SET, send_expires);
    (ENTITY_HEADER_LAST_MODIFIED_SET, send_last_modified) ].

Fixpoint eh_send (eh : entity_header) (l : list (Z * (entity_header -> writer))) : writer :=
  match l with
  | [] => send_nothing
  | (flag, func) :: l =>
      if entity_header_flag_is_set eh flag then func eh &&> eh_send eh l else eh_send eh l
  end.

Definition entity_header_send_fields (eh : entity_header) : writer := eh_send eh eh_send_table.

(** * Parsing *)

Definition eh_parse_string (set : entity_header -> list Z -> C (status * entity_header))
    (eh : entity_header) (value : block) : C (handled entity_header) :=
  let* v := lift (str_at value) in eh_reported (set eh v).

Definition parse_content_encoding := eh_parse_string entity_header_set_content_encoding.
Definition parse_allow := eh_parse_string entity_header_set_allow.
Definition parse_content_md5 := eh_parse_string entity_header_set_allow.
Definition parse_content_location := eh_parse_string entity_header_set_content_location.
Definition parse_content_range := eh_parse_string entity_header_set_content_range.
Definition parse_content_type := eh_parse_string entity_header_set_content_type.

Definition parse_content_length (eh : entity_header) (value : block) : C (handled entity_header) :=
  let* v := lift (str_at value) in
  match tosize_t v with
  | inl _ => reports (Http_error HTTP_400_BAD_REQUEST) eh
  | inr len => done (entity_header_set_content_length eh len)
  end.

(** The values between commas, those of 100 characters or more left out but for
    the last one. *)
Fixpoint multivalued {A} (fuel : nat) (set : A -> list Z -> C (handled A)) (a : A) (value : list Z)
    : C (handled A) :=
  match fuel with
  | O => lift (Fault FuelOut)
  | S fuel =>
      match strchr value (ch ",") with
      | None => set a value
      | Some span =>
          let next := drop (S span) value in
          if 100 <? Z.of_nat span + 1 then multivalued fuel set a next
          else let! a := set a (take span value) in multivalued fuel set a next
      end
  end.

Definition eh_parse_multivalued_fields (eh : entity_header) (value : list Z)
    (set : entity_header -> list Z -> C (handled entity_header)) : C (handled entity_header) :=
  multivalued (S (length value)) set eh value.

Definition parse_content_language (eh : entity_header) (value : block) : C (handled entity_header) :=
  let* v := lift (str_at value) in
  eh_parse_multivalued_fields eh v entity_header_set_content_language.

Definition eh_parse_date (mktime : tm -> Z) (set : entity_header -> Z -> entity_header)
    (eh : entity_header) (value : block) : C (handled entity_header) :=
  let* v := lift (str_at value) in
  let* t := lift (parse_rfc822_date mktime v) in
  if t =? -1 then reports (Http_error HTTP_400_BAD_REQUEST) eh else done (set eh t).

Definition parse_expires (mktime : tm -> Z) := eh_parse_date mktime entity_header_set_expires.
Definition parse_last_modified (mktime : tm -> Z) :=
  eh_parse_date mktime entity_header_set_last_modified.

Definition entity_header_fields (mktime : tm -> Z)
    : list (list Z * (entity_header -> block -> C (handled entity_header))) :=
  [ (bytes "allow", parse_allow);
    (bytes "content-encoding", parse_content_encoding);
    (bytes "content-language", parse_content_language);
    (bytes "content-length", parse_content_length);
    (bytes "content-location", parse_content_location);
    (bytes "content-md5", parse_content_md5);
    (bytes "content-range", parse_content_range);
    (bytes "content-type", parse_content_type);
    (bytes "expires", parse_expires mktime);
    (bytes "last-modified", parse_last_modified mktime) ].

Definition find_entity_header (mktime : tm -> Z) := find_handler (entity_header_fields mktime).

End EntityHeader.
