(* ===== verification/Pair.v ===== *)
(** Pair: the name/value map of meta/src/meta_pair.c and meta_pair.h.

    The used elements are a list; [nelem] is the number the array has room for.
    A name is never changed, a value is the block it was allocated in.  Above
    it the object is a finite map from names to values. *)

From Stdlib Require Import ZArith Lia.
From stdpp Require Import base list numbers gmap.
From S2P Require Import Prelude Cstring.

(** * Data *)

Record pair_element : Set := Element { e_name : list Z; e_value : block }.

Record pair : Set := Pair { element : list pair_element; nelem : Z }.

Definition used (p : pair) : Z := zlen (element p).

Definition sizeof_pair : Z := 24.
Definition sizeof_element : Z := 16.

Definition with_elements (l : list pair_element) (p : pair) : pair := Pair l (nelem p).

(** * Operations *)

Definition pair_new (n : Z) : C (option pair) :=
  c_assert (0 <? n);;
  let* ok := alloc_ok sizeof_pair in
  if negb ok then ret None
  else
    let* ok := alloc_ok (n * sizeof_element) in
    ret (if ok : bool then Some (Pair [] n) else None).

(** The index of the first element with the name, from [i] on. *)
Fixpoint pair_find (l : list pair_element) (name : list Z) : option nat :=
  match l with
  | [] => None
  | e :: l => if strcmp (e_name e) name =? 0 then Some 0%nat else S <$> pair_find l name
  end.

Definition pair_size (p : pair) : Z := used p.

Definition pair_extend (p : pair) (addcount : Z) : C (status * pair) :=
  let* ok := alloc_ok (u64 (sizeof_element * u64 (nelem p + addcount))) in
  ret (if ok : bool then (success, Pair (element p) (u64 (nelem p + addcount))) else (failure, p)).

Definition pair_add (p : pair) (name value : list Z) : C (status * pair) :=
  let* (st, p) := (if used p =? nelem p then pair_extend p (u64 (nelem p * 2))
                   else ret (success, p)) in
  match st with
  | failure => ret (failure, p)
  | success =>
      let* n := malloc (zlen name + 1) in
      match n with
      | None => ret (failure, p)
      | Some _ =>
          let* v := malloc (zlen value + 1) in
          match v with
          | None => ret (failure, p)
          | Some v =>
              let* v := lift (wr v 0 (cstr value)) in
              ret (success, with_elements (element p ++ [Element name v]) p)
          end
      end
  end.

Definition pair_set (p : pair) (name value : list Z) : C (status * pair) :=
  match pair_find (element p) name with
  | None => pair_add p name value
  | Some i =>
      let* e := lift (match element p !! i with Some e => Ret e | None => Fault OutOfBounds end) in
      let* oldlen := lift (strlen (e_value e)) in
      let newlen := zlen value in
      let* b := (if oldlen <? newlen then realloc (e_value e) (newlen + 1)
                 else ret (Some (e_value e))) in
      match b with
      | None => ret (failure, p)
      | Some b =>
          let* b := lift (wr b 0 (cstr value)) in
          ret (success, with_elements (<[i := Element (e_name e) b]> (element p)) p)
      end
  end.

Definition pair_get (p : pair) (name : list Z) : res (option (list Z)) :=
  match pair_find (element p) name with
  | None => Ret None
  | Some i =>
      match element p !! i with
      | Some e => let+ v := str_at (e_value e) in Ret (Some v)
      | None => Fault OutOfBounds
      end
  end.

Definition pair_get_name (p : pair) (idx : nat) : res (list Z) :=
  r_assert (Z.of_nat idx <? used p);;
  match element p !! idx with
  | Some e => Ret (e_name e)
  | None => Fault OutOfBounds
  end.

(** The guard lets [i] up to the room of the array through, where there is no
    value yet. *)
Definition pair_get_value_by_index (p : pair) (i : nat) : res (list Z) :=
  r_assert (Z.of_nat i <? nelem p);;
  match element p !! i with
  | Some e => str_at (e_value e)
  | None => Fault Uninitialised
  end.

(** * The map *)

Definition holds (e : pair_element) (nv : list Z * list Z) : Prop :=
  e_name e = nv.1 /\ valid_str nv.1 /\ valid_str nv.2 /\ exists junk, e_value e = cstr nv.2 ++ junk.

(** The array is at most three times as large as it had to be. *)
Definition pair_rep (p : pair) (m : gmap (list Z) (list Z)) : Prop :=
  0 < nelem p <= 2 ^ 40 + 3 * used p /\ used p <= nelem p /\
  exists l, Forall2 holds (element p) l /\ NoDup l.*1 /\ list_to_map l = m.

Lemma strcmp_eq a b : valid_str a -> valid_str b -> (strcmp a b =? 0) = bool_decide (a = b).
Proof.
  intros [Ha _] [Hb _]. destruct (Z.eqb_spec (strcmp a b) 0) as [E|E].
  - apply strcmp_0 in E; [|done..]. by rewrite bool_decide_true.
  - rewrite bool_decide_false; [done|]. intros ->. apply E. by apply strcmp_0.
Qed.

Lemma pair_find_spec els l name :
  Forall2 holds els l -> valid_str name ->
  match pair_find els name with
  | None => name ∉ l.*1
  | Some i => exists e v, els !! i = Some e /\ l !! i = Some (name, v) /\ holds e (name, v)
  end.
Proof.
  intros Hl Hn. induction Hl as [|e [n v] els l He Hl IH]; simpl; [apply not_elem_of_nil|].
  pose proof He as (Hen & Hvn & _). simpl in *. rewrite Hen, strcmp_eq by done.
  destruct (bool_decide_reflect (n = name)) as [->|Hne]; [by exists e, v|].
  destruct (pair_find els name) as [i|]; simpl; [done|]. apply not_elem_of_cons. by split.
Qed.

Lemma list_to_map_update (l : list (list Z * list Z)) i n v0 v :
  NoDup l.*1 -> l !! i = Some (n, v0) ->
  (list_to_map (<[i := (n, v)]> l) : gmap _ _) = <[n := v]> (list_to_map l) /\
  (<[i := (n, v)]> l).*1 = l.*1.
Proof.
  intros Hnd Hi. split.
  - apply take_drop_middle in Hi as Hl. pose proof (lookup_lt_Some _ _ _ Hi) as Hlt.
    rewrite insert_take_drop by done. rewrite <-Hl at 3.
    set (a := take i l) in *. set (b := drop (S i) l) in *.
    assert (Hn : forall x, list_to_map (a ++ (n, x) :: b) = <[n := x]> (list_to_map (a ++ b) : gmap _ (list Z))).
    { intros x. rewrite <-list_to_map_cons. symmetry. apply list_to_map_proper.
      - rewrite Permutation_middle. rewrite <-Hl in Hnd. by rewrite fmap_app, fmap_cons in *.
      - apply Permutation_middle. }
    by rewrite !Hn, insert_insert_eq.
  - rewrite list_fmap_insert. simpl. apply list_insert_id. by rewrite list_lookup_fmap, Hi.
Qed.

Lemma pair_new_spec n o :
  0 < n <= 2 ^ 40 ->
  wp (pair_new n) o (fun r o' =>
    (forall p, r = Some p -> pair_rep p ∅ /\ used p = 0) /\ (o = [] -> o' = [] /\ is_Some r)).
Proof.
  intros Hn. unfold pair_new. wp. apply wp_alloc_ok. intros b o1 _ Ho1. destruct b; cbn [negb]; wp.
  2:{ split; [done|]. intros ->. by destruct Ho1. }
  apply wp_alloc_ok. intros b o2 _ Ho2. wp. destruct b; simpl.
  - split.
    + intros p [= <-]. split; [|done]. unfold pair_rep. change (used _) with 0. cbn [nelem element].
      split; [lia|]. split; [lia|]. exists []. split; [constructor|]. split; [constructor|done].
    + intros ->. destruct Ho1 as [-> _]; [done|]. by destruct Ho2.
  - split; [done|]. intros ->. destruct Ho1 as [-> _]; [done|]. destruct Ho2 as [_ Hf]; [done|].
    symmetry in Hf. apply Z.leb_gt in Hf. unfold PTRDIFF_MAX, sizeof_element in Hf. lia.
Qed.

Definition sets (p : pair) (m : gmap (list Z) (list Z)) (name value : list Z) (o : oracle)
    (r : status * pair) (o' : oracle) : Prop :=
  pair_rep r.2 (match r.1 with success => <[name := value]> m | failure => m end) /\
  used r.2 <= used p + 1 /\
  (o = [] -> o' = [] /\ (zlen name < 2 ^ 40 -> zlen value < 2 ^ 40 -> r.1 = success)).

Lemma wr_exact (value : list Z) b : zlen b = zlen value + 1 -> wr b 0 (cstr value) = Ret (cstr value).
Proof.
  intros Hb. pose proof (zlen_cstr value). rewrite wr_head by lia.
  rewrite drop_ge, app_nil_r; [done|]. unfold zlen in *. lia.
Qed.

Lemma pair_add_spec p m name value o :
  pair_rep p m -> used p <= 2 ^ 40 -> valid_str name -> valid_str value -> m !! name = None ->
  wp (pair_add p name value) o (sets p m name value o).
Proof.
  intros Hrep Hu Hn Hv Hm. unfold pair_add.
  assert (Hgrow : wp (if used p =? nelem p then pair_extend p (u64 (nelem p * 2)) else ret (success, p)) o
    (fun '(st, p') o' => pair_rep p' m /\ element p' = element p /\
       (st = success -> used p < nelem p') /\ (o = [] -> o' = [] /\ st = success))).
  { destruct Hrep as (Hne & Hle & Hl). destruct (Z.eqb_spec (used p) (nelem p)) as [He|He]; wp.
    - unfold pair_extend. rewrite (u64_small (nelem p * 2)), (u64_small (nelem p + _)) by lia.
      unfold sizeof_element. rewrite u64_small by lia. wp. apply wp_alloc_ok. intros b o' _ Ho. wp.
      destruct b; simpl.
      + unfold pair_rep, used in *. simpl. split; [|split; [done|split; [lia|naive_solver]]].
        split; [lia|]. split; [lia|done].
      + split; [done|]. split; [done|]. split; [done|]. intros ->. destruct Ho as [_ Ho]; [done|].
        symmetry in Ho. apply Z.leb_gt in Ho. unfold PTRDIFF_MAX in Ho. lia.
    - split; [exact (conj Hne (conj Hle Hl))|]. split; [done|]. split; [lia|done]. }
  assert (Hfail : forall p1 o1, pair_rep p1 m -> element p1 = element p ->
    (o = [] -> o1 = [] /\ ~ (zlen name < 2 ^ 40 /\ zlen value < 2 ^ 40)) ->
    sets p m name value o (failure, p1) o1).
  { intros p1 o1 Hr1 He1 Ho1. split; [done|]. unfold used. simpl. rewrite He1. split; [lia|].
    intros H. destruct (Ho1 H) as [-> Hno]. split; [done|]. intros. exfalso. by apply Hno. }
  wp. eapply wp_mono; [exact Hgrow|]. intros [[] p1] o1 (Hr1 & He1 & Hroom & Ho1); wp.
  { apply Hfail; [done..|]. intros H. by destruct (Ho1 H). }
  apply wp_malloc; [intros o2 _ Ho2|intros o2 Ho2]; wp.
  2:{ apply Hfail; [done..|]. intros H. destruct (Ho1 H) as [-> _]. destruct (Ho2 eq_refl) as [-> Hbig].
      split; [done|]. unfold PTRDIFF_MAX in Hbig. lia. }
  apply wp_malloc; [intros o3 _ Ho3|intros o3 Ho3]; wp.
  2:{ apply Hfail; [done..|]. intros H. destruct (Ho1 H) as [-> _]. rewrite Ho2 in Ho3 by done.
      destruct (Ho3 eq_refl) as [-> Hbig]. split; [done|]. unfold PTRDIFF_MAX in Hbig. lia. }
  rewrite wr_exact by (rewrite zlen_replicate; zlen_facts; lia). wp.
  destruct Hr1 as (Hne & Hle & l & Hl & Hnd & Hlm). specialize (Hroom eq_refl).
  assert (Hnot : name ∉ l.*1) by (by apply not_elem_of_list_to_map; rewrite Hlm).
  split; [|split].
  - unfold pair_rep, used in *. simpl. rewrite zlen_app, He1 in *.
    change (zlen [Element name (cstr value)]) with 1. split; [lia|]. split; [lia|].
    exists (l ++ [(name, value)]). split_and!.
    + apply Forall2_app; [done|]. constructor; [|constructor].
      split; [done|]. split; [done|]. split; [done|]. exists []. by rewrite app_nil_r.
    + rewrite fmap_app. apply NoDup_app. split; [done|]. split; [|apply NoDup_singleton].
      intros x Hx Hx'. apply list_elem_of_singleton in Hx' as ->. done.
    + rewrite list_to_map_snoc by done. by rewrite Hlm.
  - unfold used. simpl. rewrite zlen_app, He1. change (zlen [_]) with 1. lia.
  - intros H. destruct (Ho1 H) as [-> _]. rewrite Ho3; [done|by apply Ho2].
Qed.

Lemma pair_set_spec p m name value o :
  pair_rep p m -> used p <= 2 ^ 40 -> valid_str name -> valid_str value ->
  wp (pair_set p name value) o (sets p m name value o).
Proof.
  intros Hrep Hu Hn Hv. pose proof Hrep as (Hne & Hle & l & Hl & Hnd & Hlm). unfold pair_set.
  pose proof (pair_find_spec _ _ _ Hl Hn) as Hf. destruct (pair_find (element p) name) as [i|].
  2:{ apply pair_add_spec; try done. rewrite <-Hlm. by apply not_elem_of_list_to_map. }
  destruct Hf as (e & v0 & He & Hi & Hen & _ & [Hv0 _] & junk & Hjunk). simpl in *.
  destruct (list_to_map_update l i name v0 value Hnd Hi) as [Hup Hk].
  assert (Hstore : forall b j o1, b = cstr value ++ j -> (o = [] -> o1 = []) ->
    sets p m name value o (success, with_elements (<[i := Element (e_name e) b]> (element p)) p) o1).
  { intros b j o1 -> Ho1. split; [|split]; [|unfold used; simpl|].
    - unfold pair_rep, used in *. simpl. unfold zlen in *. rewrite length_insert.
      split; [done|]. split; [done|]. exists (<[i := (name, value)]> l).
      split; [|split; [by rewrite Hk|by rewrite Hup, Hlm]].
      apply Forall2_insert; [done|]. split; [done|]. split; [done|]. split; [done|]. by exists j.
    - unfold zlen. rewrite length_insert. lia.
    - intros H. by rewrite Ho1. }
  rewrite He. wp. unfold cstr in Hjunk. rewrite <-app_assoc in Hjunk.
  cbn [app] in Hjunk. rewrite Hjunk, strlen_cstr by done. wp.
  destruct (Z.ltb_spec (zlen v0) (zlen value)) as [Hlt|Hge]; wp.
  - apply wp_realloc; [intros o1 _ Ho1|intros o1 Ho1]; wp.
    + set (b := take _ _ ++ _).
      assert (Hb : zlen value + 1 <= zlen b).
      { unfold b. rewrite zlen_app, zlen_replicate. unfold zlen. rewrite length_take. lia. }
      rewrite wr_head by (rewrite zlen_cstr; lia). wp.
      by eapply Hstore.
    + split; [done|]. split; [simpl; lia|]. intros H. destruct (Ho1 H) as [-> Hbig]. split; [done|].
      unfold PTRDIFF_MAX in Hbig. lia.
  - rewrite wr_head.
    2:{ rewrite zlen_cstr, zlen_app, zlen_fmap, zlen_cons. zlen_facts. lia. }
    wp. by eapply Hstore.
Qed.

Lemma pair_get_spec p m name :
  pair_rep p m -> valid_str name -> pair_get p name = Ret (m !! name).
Proof.
  intros (_ & _ & l & Hl & Hnd & <-) Hn. unfold pair_get.
  pose proof (pair_find_spec _ _ _ Hl Hn) as Hf. destruct (pair_find (element p) name) as [i|].
  - destruct Hf as (e & v & -> & Hi & _ & _ & [Hv _] & junk & ->). simpl. unfold cstr.
    rewrite <-app_assoc. cbn [app]. rewrite str_at_cstr by done. simpl. f_equal. symmetry.
    apply elem_of_list_to_map; [done|]. by eapply list_elem_of_lookup_2.
  - f_equal. symmetry. by apply not_elem_of_list_to_map.
Qed.

Lemma pair_size_spec p m : pair_rep p m -> pair_size p = Z.of_nat (base.size m).
Proof.
  intros (_ & _ & l & Hl & Hnd & <-). unfold pair_size, used, zlen.
  rewrite (Forall2_length _ _ _ Hl). f_equal.
  rewrite <-(length_fmap fst l), <-size_dom, dom_list_to_map_L, size_list_to_set by done. done.
Qed.

Fixpoint run_sets (sets : list (list Z * list Z)) (p : pair) (m : gmap (list Z) (list Z))
    : C (pair * gmap (list Z) (list Z)) :=
  match sets with
  | [] => ret (p, m)
  | (name, value) :: sets =>
      let* (st, p) := pair_set p name value in
      run_sets sets p (match st with success => <[name := value]> m | failure => m end)
  end.

(** C19. The object is a finite map: after any sequence of calls of [pair_set],
    under any behaviour of the allocator, each name has the value it was last
    set to, a call that failed changed nothing, and no name is stored twice. *)
Theorem pair_is_map sets n p m o :
  Forall (fun '(name, value) => valid_str name /\ valid_str value) sets ->
  pair_rep p m -> used p + zlen sets <= 2 ^ 40 ->
  wp (run_sets sets p m) o (fun '(p', m') _ =>
    pair_rep p' m' /\
    (valid_str n -> pair_get p' n = Ret (m' !! n)) /\
    pair_size p' = Z.of_nat (base.size m')).
Proof.
  intros Hs. revert p m o. induction Hs as [|[name value] sets [Hn Hv] _ IH]; intros p m o Hr Hu; simpl; wp.
  { split; [done|]. split; [by apply pair_get_spec|]. by apply pair_size_spec. }
  rewrite zlen_cons in Hu. zlen_facts.
  eapply wp_mono; [by apply pair_set_spec; [|lia| |]|]. intros [st p'] o' (Hr' & Hu' & _).
  simpl in *. apply IH; [done|lia].
Qed.

Lemma pair_is_map_witness :
  wp (run_sets [(bytes "a", bytes "1"); (bytes "b", bytes "2"); (bytes "a", bytes "345")]
        (Pair [] 1) ∅) [] (fun '(p', m') _ =>
    pair_rep p' m' /\
    (valid_str (bytes "a") -> pair_get p' (bytes "a") = Ret (m' !! bytes "a")) /\
    pair_size p' = Z.of_nat (base.size m')).
Proof.
  apply pair_is_map.
  - repeat constructor; decide_closed.
  - split; [done|]. split; [done|]. exists []. split; [constructor|]. split; [constructor|done].
  - by vm_compute.
Defined.
