(* ===== verification/Cookies.v ===== *)
(** Cookies: the cookies of http/src/cookies.c.

    The functions that read a cookie out of a header line return it; the
    request keeps it (Request).  [strcspn]-like loops are loops on the characters
    of the line. *)

From Stdlib Require Import ZArith Lia.
From stdpp Require Import base list numbers.
From S2P Require Import Prelude Convert Cstring Connection HttpBase.

Inductive ck_field : Set := Ck_name | Ck_value | Ck_domain | Ck_path | Ck_comment.

#[export] Instance ck_field_eq_dec : EqDecision ck_field.
Proof. solve_decision. Defined.

Section Cookies.
Context `{STRINGS}.

Record cookie : Type := Cookie {
  ck_str : ck_field -> str;
  ck_max_age : Z;
  ck_secure : Z;
  ck_version : Z;
}.

Definition MAX_AGE_NOT_SET : Z := -1.

Definition sizeof_cookie : Z := 56.

Definition cookie_new : C (option cookie) :=
  let* ok := alloc_ok sizeof_cookie in
  if negb ok then ret None
  else
    let* arr := new_strings 5 in
    ret (match arr with
         | Some [n; v; d; p; c] =>
             Some (Cookie (fun f =>
               match f with
               | Ck_name => n
               | Ck_value => v
               | Ck_domain => d
               | Ck_path => p
               | Ck_comment => c
               end) MAX_AGE_NOT_SET 0 1)
         | _ => None
         end).

Definition ck_set (f : ck_field) (c : cookie) (s : list Z) : C (status * cookie) :=
  let* (st, x) := str_set (ck_str c f) s in
  ret (st, Cookie (fun g => if decide (g = f) then x else ck_str c g)
             (ck_max_age c) (ck_secure c) (ck_version c)).

Definition cookie_set_name := ck_set Ck_name.
Definition cookie_set_value := ck_set Ck_value.
Definition cookie_set_comment := ck_set Ck_comment.
Definition cookie_set_domain := ck_set Ck_domain.
Definition cookie_set_path := ck_set Ck_path.

Definition cookie_set_version (c : cookie) (v : Z) : res cookie :=
  r_assert ((v =? 0) || (v =? 1));; Ret (Cookie (ck_str c) (ck_max_age c) (ck_secure c) v).
Definition cookie_set_secure (c : cookie) (v : Z) : res cookie :=
  r_assert ((v =? 0) || (v =? 1));; Ret (Cookie (ck_str c) (ck_max_age c) v (ck_version c)).
Definition cookie_set_max_age (c : cookie) (v : Z) : cookie :=
  Cookie (ck_str c) v (ck_secure c) (ck_version c).

Definition cookie_get_name (c : cookie) : res (list Z) := str_text (ck_str c Ck_name).
Definition cookie_get_value (c : cookie) : res (list Z) := str_text (ck_str c Ck_value).
Definition cookie_get_comment (c : cookie) : res (list Z) := str_text (ck_str c Ck_comment).
Definition cookie_get_domain (c : cookie) : res (list Z) := str_text (ck_str c Ck_domain).
Definition cookie_get_path (c : cookie) : res (list Z) := str_text (ck_str c Ck_path).
Definition cookie_get_version (c : cookie) : Z := ck_version c.
Definition cookie_get_secure (c : cookie) : Z := ck_secure c.
Definition cookie_get_max_age (c : cookie) : Z := ck_max_age c.

(** * Attributes *)

Definition QUOTE : Z := 34.

(** Appends up to the quotation mark; [true] when there was one. *)
Fixpoint copy_quoted (l : list Z) (value : str) : C (option bool * str) :=
  match l with
  | [] => ret (Some false, value)
  | c :: l =>
      if c =? QUOTE then ret (Some true, value)
      else
        let* (st, value) := str_charcat value c in
        match st with
        | failure => ret (None, value)
        | success => copy_quoted l value
        end
  end.

Definition get_cookie_attribute (s attribute : list Z) (value : str) : C (handled str) :=
  match strstr s attribute with
  | None => reports (Http_error HTTP_400_BAD_REQUEST) value
  | Some i =>
      let location := drop (i + length attribute) s in
      let n := strspn location [32; 9; 61; QUOTE] in
      if (n =? 0)%nat then reports (Http_error HTTP_400_BAD_REQUEST) value
      else
        let* (r, value) := copy_quoted (drop n location) value in
        match r with
        | None => reports (Os_error ENOMEM) value
        | Some false => reports (Http_error HTTP_400_BAD_REQUEST) value
        | Some true => done value
        end
  end.

(** The text of an attribute, in a string of its own. *)
Definition attribute_text (c : cookie) (input look_for : list Z)
    (use : list Z -> C (handled cookie)) : C (handled cookie) :=
  let* s := str_new in
  match s with
  | None => reports (Os_error ENOMEM) c
  | Some s =>
      let* (e, s) := get_cookie_attribute input look_for s in
      match e with
      | Some e => reports e c
      | None => let* t := lift (str_text s) in use t
      end
  end.

(** What [set_attr] returns is not looked at. *)
Definition parse_cookie_attr (c : cookie) (input look_for : list Z)
    (set_attr : cookie -> list Z -> C (status * cookie)) : C (handled cookie) :=
  attribute_text c input look_for (fun t => let* (_, c) := set_attr c t in done c).

Definition parse_new_cookie_domain (c : cookie) (value : list Z) : C (handled cookie) :=
  parse_cookie_attr c value (bytes "$Domain") cookie_set_domain.
Definition parse_new_cookie_path (c : cookie) (value : list Z) : C (handled cookie) :=
  parse_cookie_attr c value (bytes "$Path") cookie_set_path.

Definition parse_new_cookie_version (c : cookie) (value : list Z) : C (handled cookie) :=
  attribute_text c value (bytes "$Version") (fun t =>
    match toint t with
    | inl _ => reports (Http_error HTTP_400_BAD_REQUEST) c
    | inr v =>
        if negb (v =? 1) then reports (Http_error HTTP_400_BAD_REQUEST) c
        else let* c := lift (cookie_set_version c v) in done c
    end).

Definition parse_new_cookie_secure (c : cookie) (value : list Z) : C (handled cookie) :=
  attribute_text c value (bytes "$Secure") (fun t =>
    match toint t with
    | inl _ => reports (Http_error HTTP_400_BAD_REQUEST) c
    | inr v =>
        if negb (v =? 1) && negb (v =? 0) then reports (Http_error HTTP_400_BAD_REQUEST) c
        else let* c := lift (cookie_set_secure c v) in done c
    end).

Fixpoint find_first_non_space (s : list Z) : list Z :=
  match s with
  | c :: s' => if (c =? 32) || (c =? 9) then find_first_non_space s' else s
  | [] => []
  end.

(** The lengths given to [cstring_nset] are one too large: the name is stored
    with its '=' and the value with its ';'. *)
Definition parse_new_cookie_name (c : cookie) (input : list Z) : C (handled cookie) :=
  match strchr input (ch ";") with
  | None => reports (Http_error HTTP_400_BAD_REQUEST) c
  | Some i =>
      let s := find_first_non_space (drop (S i) input) in
      match strchr s (ch "=") with
      | None => reports (Http_error HTTP_400_BAD_REQUEST) c
      | Some n =>
          let* x := str_new in
          match x with
          | None => reports (Os_error ENOMEM) c
          | Some x =>
              let* (st, x) := str_nset x s (Z.of_nat n + 1) in
              match st with
              | failure => reports (Os_error ENOMEM) c
              | success =>
                  let* t := lift (str_text x) in
                  let* (st, c) := cookie_set_name c t in
                  match st with
                  | failure => reports (Os_error ENOMEM) c
                  | success =>
                      let s := drop (S n) s in
                      let* x := lift (str_recycle x) in
                      match strchr s (ch ";") with
                      | None => reports (Http_error HTTP_400_BAD_REQUEST) c
                      | Some n =>
                          let* (st, x) := str_nset x s (Z.of_nat n + 1) in
                          match st with
                          | failure => reports (Os_error ENOMEM) c
                          | success =>
                              let* t := lift (str_text x) in
                              let* (st, c) := cookie_set_value c t in
                              match st with
                              | failure => reports (Os_error ENOMEM) c
                              | success => done c
                              end
                          end
                      end
                  end
              end
          end
      end
  end.

(** The cookie [parse_new_cookie] makes, or the error. *)
Definition parse_new_cookie (value : list Z) : C (http_error + cookie) :=
  let* c := cookie_new in
  match c with
  | None => ret (inl (Os_error ENOMEM))
  | Some c =>
      let* (e, c) :=
        (let! c := parse_new_cookie_version c value in
         let! c := parse_new_cookie_name c value in
         let! c := parse_new_cookie_path c value in
         let! c := parse_new_cookie_domain c value in
         parse_new_cookie_secure c value) in
      ret (match e with Some e => inl e | None => inr c end)
  end.

(** Appends up to the '='; the rest from there, or [None] when there is no
    memory. *)
Fixpoint copy_name (input : list Z) (name : str) : C (option (list Z) * str) :=
  match input with
  | [] => ret (Some [], name)
  | c :: rest =>
      if c =? ch "=" then ret (Some input, name)
      else
        let* (st, name) := str_charcat name c in
        match st with
        | failure => ret (None, name)
        | success => copy_name rest name
        end
  end.

Definition memerr {A} : C (http_error + A) := ret (inl (Os_error ENOMEM)).

Definition parse_old_cookie (input : list Z) : C (http_error + cookie) :=
  let* name := str_new in
  match name with
  | None => memerr
  | Some name =>
      let* value := str_new in
      match value with
      | None => memerr
      | Some value =>
          let* (rest, name) := copy_name input name in
          match rest with
          | None => memerr
          | Some [] => ret (inl (Http_error HTTP_400_BAD_REQUEST))
          | Some (_ :: rest) =>
              let* (st, value) := str_set value rest in
              match st with
              | failure => memerr
              | success =>
                  let* c := cookie_new in
                  match c with
                  | None => memerr
                  | Some c =>
                      let* n := lift (str_text name) in
                      let* (st, c) := cookie_set_name c n in
                      match st with
                      | failure => memerr
                      | success =>
                          let* v := lift (str_text value) in
                          let* (st, c) := cookie_set_value c v in
                          match st with
                          | failure => memerr
                          | success =>
                              let* c := lift (cookie_set_version c 0) in ret (inr c)
                          end
                      end
                  end
              end
          end
      end
  end.

End Cookies.

(** A cookie as the standard writes it, and the name and value kept of it. *)
Example new_cookie_name_and_value :
  let line := [36] ++ bytes "Version=" ++ [34; 49; 34] ++ bytes "; id=42; " ++
    [36] ++ bytes "Path=" ++ [34; 47; 34] ++ bytes "; " ++ [36] ++ bytes "Domain=" ++
    [34; 100; 34] ++ bytes "; " ++ [36] ++ bytes "Secure=" ++ [34; 49; 34] in
  match parse_new_cookie line [] with
  | Ret (inr c, _) =>
      cookie_get_name c = Ret (bytes "id=") /\ cookie_get_value c = Ret (bytes "42;") /\
      cookie_get_path c = Ret (bytes "/") /\ cookie_get_secure c = 1
  | _ => False
  end.
Proof. by vm_compute. Qed.
