(* ===== verification/HeaderLines.v ===== *)
(** HeaderLines: reading the header of a message, as http/src/request.c and
    http/src/response.c do it.

    The loop over the lines and the cut of a line into name and value are the
    same in the two files; what is done with the value is a parameter. *)

From Stdlib Require Import ZArith Lia.
From stdpp Require Import base list numbers.
From S2P Require Import Prelude MetaMisc Connection HttpBase.

Definition CCH_FIELDNAME_MAX : Z := 64.
Definition CCH_FIELDVALUE_MAX : Z := 8192.
Definition HEADER_LINE : Z := CCH_FIELDNAME_MAX + CCH_FIELDVALUE_MAX + 10.

(** An array on the stack, before anything is stored in it. *)
Definition fresh_array (n : Z) : block := replicate (Z.to_nat n) None.

Section HeaderLines.
Context {A : Type}.

(** The message and the connection it arrives on. *)
Abbreviation session := (A * connection)%type.

(** A line read off the connection into an array with room for [n] bytes. *)
Definition get_line (n : Z) (array : block) (s : session)
    : C (option http_error * list Z * session) :=
  let (r, c) := s in
  let* (e, buf, c) := lift (read_line c array n) in
  match e with
  | Some e => ret (Some e, [], (r, c))
  | None => let* l := lift (str_at buf) in ret (None, l, (r, c))
  end.

(** [parse]: what the message does with the name and the value of a field. *)
Context (parse : list Z -> block -> session -> C (handled session)).

Definition parse_one_field (buf : list Z) (s : session) : C (handled session) :=
  let* (st, name) :=
    lift (get_field_name buf (fresh_array (CCH_FIELDNAME_MAX + 1)) (CCH_FIELDNAME_MAX + 1)) in
  match st with
  | failure => reports (Http_error HTTP_400_BAD_REQUEST) s
  | success =>
      let* (st, value) :=
        lift (get_field_value buf (fresh_array (CCH_FIELDVALUE_MAX + 1)) (CCH_FIELDVALUE_MAX + 1)) in
      match st with
      | failure => reports (Http_error HTTP_400_BAD_REQUEST) s
      | success =>
          let* n := lift (str_at name) in
          parse (fs_lower n) value s
      end
  end.

Fixpoint read_header_fields (fuel : nat) (s : session) : C (handled session) :=
  match fuel with
  | O => lift (Fault FuelOut)
  | S fuel =>
      let* (e, buf, s) := get_line HEADER_LINE (fresh_array HEADER_LINE) s in
      match e with
      | Some e => reports e s
      | None =>
          if zlen buf =? 0 then done s
          else let! s := parse_one_field buf s in read_header_fields fuel s
      end
  end.

End HeaderLines.

(** * A line *)

(** Characters that stay on one line. *)
Definition on_line (c : Z) : Prop := is_char c /\ c <> 13.

#[export] Instance on_line_dec c : Decision (on_line c).
Proof. unfold on_line. apply _. Defined.

Lemma on_line_chars l : Forall on_line l -> Forall is_char l.
Proof. apply Forall_impl. by intros ? []. Qed.

Lemma fresh_array_length n : 0 <= n -> zlen (fresh_array n) = n.
Proof. intros Hn. unfold fresh_array. rewrite zlen_replicate. lia. Qed.

Lemma get_line_spec {A} n array (r : A) c l rest out o :
  Connection.rep c (l ++ CRLF ++ rest) out -> Forall on_line l -> zlen l < n <= zlen array ->
  wp (get_line n array (r, c)) o (fun '(e, l', s') o' =>
    e = None /\ l' = l /\ o' = o /\
    exists c', s' = (r, c') /\ Connection.rep c' rest out /\ Connection.reads c c').
Proof.
  intros Hrep Hl Hn. unfold get_line. wp. zlen_facts.
  eapply wpr_mono; [eapply read_line_spec; [exact Hrep|lia]|].
  intros [[e d] c'] (Hrd & _ & _ & Hline).
  rewrite line_of_crlf in Hline.
  2: by eapply Forall_impl; [|exact Hl]; intros ? [].
  2: unfold zlen in *; lia.
  destruct Hline as (-> & Hrep' & ->). rewrite str_at_here by (by apply on_line_chars).
  wp. split_and!; [done..|]. exists c'. by split_and!.
Qed.
