(* ===== verification/Request.v ===== *)
(** Request: the HTTP request of http/src/request.c.

    The strings of the struct are a function from an enumeration of its members
    to pointers: [None] is the null pointer, which one member stays.  Buffers on
    the stack are blocks that hold nothing at first, except where the code
    clears them.  [mktime] and the value [errno] has from before a call that
    does not set it are parameters. *)

From Stdlib Require Import ZArith Lia.
From stdpp Require Import base list numbers.
From S2P Require Import Prelude Convert Cstring Rfc1738 MetaMisc Connection HttpBase HttpDate.
From S2P Require Import HeaderLines GeneralHeader EntityHeader Cookies Pair.

(** * Constants *)

Definition CCH_PARAMNAME_MAX : Z := 100.
Definition CCH_PARAMVALUE_MAX : Z := 500.
Definition CCH_METHOD_MAX : Z := 256.
Definition CCH_REQUESTLINE_MAX : Z := 10240.
Definition CCH_URI_MAX : Z := 10240.
Definition CCH_VERSION_MAX : Z := 20.
Definition CCH_LANGUAGE_MAX : Z := 100.

Definition REQUEST_URI_SET : Z := 0x002.
Definition REQUEST_ACCEPT_SET : Z := 0x004.
Definition REQUEST_ACCEPT_CHARSET_SET : Z := 0x008.
Definition REQUEST_ACCEPT_ENCODING_SET : Z := 0x010.
Definition REQUEST_ACCEPT_LANGUAGE_SET : Z := 0x020.
Definition REQUEST_AUTHORIZATION_SET : Z := 0x040.
Definition REQUEST_FROM_SET : Z := 0x080.
Definition REQUEST_REFERER_SET : Z := 0x200.
Definition REQUEST_USER_AGENT_SET : Z := 0x400.
Definition REQUEST_MAX_FORWARDS_SET : Z := 0x1000.
Definition REQUEST_MIME_VERSION_SET : Z := 0x2000.
Definition REQUEST_PROXY_AUTHORIZATION_SET : Z := 0x4000.
Definition REQUEST_RANGE_SET : Z := 0x8000.
Definition REQUEST_TE_SET : Z := 0x10000.
Definition REQUEST_EXPECT_SET : Z := 0x80000.
Definition REQUEST_HOST_SET : Z := 0x100000.
Definition REQUEST_IF_MATCH_SET : Z := 0x200000.
Definition REQUEST_IF_NONE_MATCH_SET : Z := 0x400000.
Definition REQUEST_IF_RANGE_SET : Z := 0x800000.
Definition REQUEST_IF_MODIFIED_SINCE_SET : Z := 0x1000000.
Definition REQUEST_IF_UNMODIFIED_SINCE_SET : Z := 0x2000000.

Inductive http_method : Set := METHOD_UNKNOWN | METHOD_GET | METHOD_HEAD | METHOD_POST.

Inductive rq_field : Set :=
| Rq_uri | Rq_accept | Rq_accept_charset | Rq_accept_encoding | Rq_accept_language
| Rq_authorization | Rq_from | Rq_referer | Rq_user_agent | Rq_link | Rq_range | Rq_te | Rq_title
| Rq_expect | Rq_host | Rq_if_match | Rq_if_none_match | Rq_if_range | Rq_proxy_authorization.

#[export] Instance http_method_eq_dec : EqDecision http_method.
Proof. solve_decision. Defined.
#[export] Instance rq_field_eq_dec : EqDecision rq_field.
Proof. solve_decision. Defined.

Section Request.
Context `{STRINGS}.
Variable mktime : tm -> Z.
Variable stale_errno : errno.

(** * Data *)

Record http_request : Type := Request {
  method : http_method;
  version : http_version;
  defered_read : bool;
  rq_general : general_header;
  rq_entity : entity_header;
  rq_flags : Z;
  rq_str : rq_field -> option str;
  params : option pair;
  cookies : option (list cookie);
  entity_buf : option block;
  if_modified_since : Z;
  if_unmodified_since : Z;
  max_forwards : Z;
}.

Definition with_general (gh : general_header) (r : http_request) : http_request :=
  Request (method r) (version r) (defered_read r) gh (rq_entity r) (rq_flags r) (rq_str r)
    (params r) (cookies r) (entity_buf r) (if_modified_since r) (if_unmodified_since r)
    (max_forwards r).
Definition with_entity (eh : entity_header) (r : http_request) : http_request :=
  Request (method r) (version r) (defered_read r) (rq_general r) eh (rq_flags r) (rq_str r)
    (params r) (cookies r) (entity_buf r) (if_modified_since r) (if_unmodified_since r)
    (max_forwards r).
Definition with_flags (fl : Z) (r : http_request) : http_request :=
  Request (method r) (version r) (defered_read r) (rq_general r) (rq_entity r) fl (rq_str r)
    (params r) (cookies r) (entity_buf r) (if_modified_since r) (if_unmodified_since r)
    (max_forwards r).
Definition with_str (f : rq_field) (s : str) (r : http_request) : http_request :=
  Request (method r) (version r) (defered_read r) (rq_general r) (rq_entity r) (rq_flags r)
    (fun g => if decide (g = f) then Some s else rq_str r g)
    (params r) (cookies r) (entity_buf r) (if_modified_since r) (if_unmodified_since r)
    (max_forwards r).
Definition with_params (p : option pair) (r : http_request) : http_request :=
  Request (method r) (version r) (defered_read r) (rq_general r) (rq_entity r) (rq_flags r)
    (rq_str r) p (cookies r) (entity_buf r) (if_modified_since r) (if_unmodified_since r)
    (max_forwards r).
Definition with_cookies (c : option (list cookie)) (r : http_request) : http_request :=
  Request (method r) (version r) (defered_read r) (rq_general r) (rq_entity r) (rq_flags r)
    (rq_str r) (params r) c (entity_buf r) (if_modified_since r) (if_unmodified_since r)
    (max_forwards r).
Definition with_entity_buf (b : option block) (r : http_request) : http_request :=
  Request (method r) (version r) (defered_read r) (rq_general r) (rq_entity r) (rq_flags r)
    (rq_str r) (params r) (cookies r) b (if_modified_since r) (if_unmodified_since r)
    (max_forwards r).
Definition with_numbers (ims ius mf : Z) (r : http_request) : http_request :=
  Request (method r) (version r) (defered_read r) (rq_general r) (rq_entity r) (rq_flags r)
    (rq_str r) (params r) (cookies r) (entity_buf r) ims ius mf.

Definition request_set_method (r : http_request) (m : http_method) : http_request :=
  Request m (version r) (defered_read r) (rq_general r) (rq_entity r) (rq_flags r) (rq_str r)
    (params r) (cookies r) (entity_buf r) (if_modified_since r) (if_unmodified_since r)
    (max_forwards r).
Definition request_set_version (r : http_request) (v : http_version) : http_request :=
  Request (method r) v (defered_read r) (rq_general r) (rq_entity r) (rq_flags r) (rq_str r)
    (params r) (cookies r) (entity_buf r) (if_modified_since r) (if_unmodified_since r)
    (max_forwards r).
Definition request_set_defered_read (r : http_request) (flag : bool) : http_request :=
  Request (method r) (version r) flag (rq_general r) (rq_entity r) (rq_flags r) (rq_str r)
    (params r) (cookies r) (entity_buf r) (if_modified_since r) (if_unmodified_since r)
    (max_forwards r).

Definition request_get_method (r : http_request) : http_method := method r.
Definition request_get_version (r : http_request) : http_version := version r.
Definition request_get_defered_read (r : http_request) : bool := defered_read r.
Definition request_get_general_header (r : http_request) : general_header := rq_general r.
Definition request_get_entity_header (r : http_request) : entity_header := rq_entity r.

Definition request_flag_is_set (r : http_request) (flag : Z) : bool :=
  negb (Z.land (rq_flags r) flag =? 0).
Definition request_set_flag (r : http_request) (flag : Z) : http_request :=
  with_flags (Z.lor (rq_flags r) flag) r.
Definition request_clear_flags (r : http_request) : http_request := with_flags 0 r.

Definition sizeof_request : Z := 320.

(** The result of [request_new]: the request, nothing, or, past a failed
    allocation, what the clean-up does with pointers that it has freed. *)
Definition request_new : C (option http_request) :=
  let* ok := alloc_ok sizeof_request in
  if negb ok then ret None
  else
    let* gh := general_header_new in
    match gh with
    | None => ret None
    | Some gh =>
        let* eh := entity_header_new in
        match eh with
        | None => lift (Fault OutOfBounds)
        | Some eh =>
            let* arr := new_strings 18 in
            match arr with
            | Some [uri; acc; accc; acce; accl; auth; from; refe; ua; link; range; te; title;
                    expect; host; ifm; ifnm; ifr] =>
                ret (Some (Request METHOD_UNKNOWN VERSION_UNKNOWN false gh eh 0 (fun f =>
                  match f with
                  | Rq_uri => Some uri
                  | Rq_accept => Some acc
                  | Rq_accept_charset => Some accc
                  | Rq_accept_encoding => Some acce
                  | Rq_accept_language => Some accl
                  | Rq_authorization => Some auth
                  | Rq_from => Some from
                  | Rq_referer => Some refe
                  | Rq_user_agent => Some ua
                  | Rq_link => Some link
                  | Rq_range => Some range
                  | Rq_te => Some te
                  | Rq_title => Some title
                  | Rq_expect => Some expect
                  | Rq_host => Some host
                  | Rq_if_match => Some ifm
                  | Rq_if_none_match => Some ifnm
                  | Rq_if_range => Some ifr
                  | Rq_proxy_authorization => None
                  end) None None None 0 0 0))
            | _ => lift (Fault OutOfBounds)
            end
        end
    end.

(** * Strings *)

(** [assert(dest != NULL)] in the functions of cstring.c. *)
Definition rq_string (r : http_request) (f : rq_field) : res str :=
  match rq_str r f with
  | Some s => Ret s
  | None => Fault AssertFailed
  end.

Definition rq_put (put : str -> list Z -> C (status * str)) (f : rq_field) (flag : Z)
    (r : http_request) (value : list Z) : C (status * http_request) :=
  let* s := lift (rq_string r f) in
  let* (st, s) := put s value in
  let r := with_str f s r in
  ret (match st with
       | failure => (failure, r)
       | success => (success, request_set_flag r flag)
       end).

Definition rq_set := rq_put str_set.

Definition rq_reported (m : C (status * http_request)) : C (handled http_request) :=
  let* (st, r) := m in
  match st with
  | failure => reports (Os_error ENOMEM) r
  | success => done r
  end.

Definition request_set_uri := rq_set Rq_uri REQUEST_URI_SET.
Definition request_set_authorization := rq_set Rq_authorization REQUEST_AUTHORIZATION_SET.
Definition request_set_from := rq_set Rq_from REQUEST_FROM_SET.
Definition request_set_referer := rq_set Rq_referer REQUEST_REFERER_SET.
Definition request_set_user_agent := rq_set Rq_user_agent REQUEST_USER_AGENT_SET.
Definition request_set_range := rq_set Rq_range REQUEST_RANGE_SET.
Definition request_set_expect := rq_set Rq_expect REQUEST_EXPECT_SET.
Definition request_set_if_match := rq_set Rq_if_match REQUEST_IF_MATCH_SET.
Definition request_set_if_none_match := rq_set Rq_if_none_match REQUEST_IF_NONE_MATCH_SET.
Definition request_set_if_range := rq_set Rq_if_range REQUEST_IF_RANGE_SET.
Definition request_set_proxy_authorization :=
  rq_set Rq_proxy_authorization REQUEST_PROXY_AUTHORIZATION_SET.

Definition request_set_host (r : http_request) (value : list Z) : C (status * http_request) :=
  c_assert (negb (request_flag_is_set r REQUEST_HOST_SET));;
  rq_set Rq_host REQUEST_HOST_SET r value.

Definition rq_append (f : rq_field) (flag : Z) (r : http_request) (value : list Z)
    : C (handled http_request) := rq_reported (rq_put str_concat f flag r value).

Definition request_set_accept := rq_append Rq_accept REQUEST_ACCEPT_SET.
Definition request_set_accept_charset := rq_append Rq_accept_charset REQUEST_ACCEPT_CHARSET_SET.
Definition request_set_accept_encoding := rq_append Rq_accept_encoding REQUEST_ACCEPT_ENCODING_SET.
Definition request_set_accept_language := rq_append Rq_accept_language REQUEST_ACCEPT_LANGUAGE_SET.
Definition request_set_te := rq_append Rq_te REQUEST_TE_SET.

Definition request_set_if_modified_since (r : http_request) (value : Z) : res http_request :=
  r_assert (negb (value =? -1));;
  Ret (request_set_flag (with_numbers value (if_unmodified_since r) (max_forwards r) r)
         REQUEST_IF_MODIFIED_SINCE_SET).
Definition request_set_if_unmodified_since (r : http_request) (value : Z) : res http_request :=
  r_assert (negb (value =? -1));;
  Ret (request_set_flag (with_numbers (if_modified_since r) value (max_forwards r) r)
         REQUEST_IF_UNMODIFIED_SINCE_SET).
Definition request_set_max_forwards (r : http_request) (value : Z) : http_request :=
  request_set_flag (with_numbers (if_modified_since r) (if_unmodified_since r) value r)
    REQUEST_MAX_FORWARDS_SET.
Definition request_set_mime_version (r : http_request) (major minor : Z) : res http_request :=
  r_assert ((major =? 1) && (minor =? 0));;
  Ret (request_set_flag r REQUEST_MIME_VERSION_SET).

(** The text of a member that is set, a default when it is not. *)
Definition rq_get (f : rq_field) (flag : Z) {A} (unset : A) (conv : list Z -> A) (r : http_request)
    : res A :=
  if request_flag_is_set r flag
  then let+ s := rq_string r f in let+ t := str_text s in Ret (conv t)
  else Ret unset.

Definition request_get_uri := rq_get Rq_uri REQUEST_URI_SET None Some.
Definition request_get_host := rq_get Rq_host REQUEST_HOST_SET None Some.
Definition request_get_referer := rq_get Rq_referer REQUEST_REFERER_SET [] id.
Definition request_get_user_agent := rq_get Rq_user_agent REQUEST_USER_AGENT_SET [] id.

Definition request_get_if_modified_since (r : http_request) : Z :=
  if request_flag_is_set r REQUEST_IF_MODIFIED_SINCE_SET then if_modified_since r else -1.

Definition request_accepts_media_type (r : http_request) (val : list Z) : res bool :=
  if negb (request_flag_is_set r REQUEST_ACCEPT_SET) then Ret true
  else
    let+ s := rq_string r Rq_accept in
    let+ t := str_text s in
    Ret (match strstr t val with None => false | Some _ => true end).

(** The loop over the words; the fuel is more than there are words. *)
Fixpoint accepts_loop (fuel : nat) (s val : list Z) (i : nat) : res bool :=
  match fuel with
  | O => Fault FuelOut
  | S fuel =>
      let+ (e, buf) :=
        get_word_from_string s (replicate (Z.to_nat (CCH_LANGUAGE_MAX + 1)) None)
          (CCH_LANGUAGE_MAX + 1) i in
      match e with
      | Some _ => Ret false
      | None =>
          let+ w := str_at buf in
          if strcmp w val =? 0 then Ret true else accepts_loop fuel s val (S i)
      end
  end.

Definition request_accepts_language (r : http_request) (val : list Z) : res bool :=
  let+ s := rq_string r Rq_accept_language in
  let+ t := str_text s in
  if negb (request_flag_is_set r REQUEST_ACCEPT_LANGUAGE_SET) then Ret true
  else accepts_loop (2 + length t) t val 0.

(** * Parameters and cookies *)

Definition request_add_param (r : http_request) (name value : list Z) : C (status * http_request) :=
  c_assert (0 <? zlen name);;
  let* p := match params r with
            | None => pair_new 20
            | Some p => ret (Some p)
            end in
  match p with
  | None => ret (failure, r)
  | Some p =>
      let* (st, p) := pair_set p name value in
      ret (st, with_params (Some p) r)
  end.

Definition request_get_parameter_count (r : http_request) : Z :=
  match params r with None => 0 | Some p => i32 (pair_size p) end.

Definition request_get_parameter_name (r : http_request) (i : nat) : res (list Z) :=
  match params r with None => Fault AssertFailed | Some p => pair_get_name p i end.

Definition request_get_parameter_value (r : http_request) (pname : list Z) : res (option (list Z)) :=
  match params r with None => Ret None | Some p => pair_get p pname end.

Definition sizeof_list_node : Z := 24.

Definition request_add_cookie (r : http_request) (c : cookie) : C (status * http_request) :=
  let* l := match cookies r with
            | None => let* ok := alloc_ok sizeof_list_node in
                      ret (if ok : bool then Some [] else None)
            | Some l => ret (Some l)
            end in
  match l with
  | None => ret (failure, r)
  | Some l =>
      let* ok := alloc_ok sizeof_list_node in
      ret (if ok : bool then (success, with_cookies (Some (l ++ [c])) r)
           else (failure, with_cookies (Some l) r))
  end.

Definition request_get_cookie_count (r : http_request) : Z :=
  match cookies r with None => 0 | Some l => zlen l end.

(** [list_get_item] asserts that there is a list and that it has the index. *)
Definition request_get_cookie (r : http_request) (i : nat) : res cookie :=
  match cookies r with
  | None => Fault AssertFailed
  | Some l => match l !! i with None => Fault AssertFailed | Some c => Ret c end
  end.

Definition parse_cookie (r : http_request) (value : block) : C (handled http_request) :=
  let* v := lift (str_at value) in
  if strcmp v [] =? 0 then done r
  else
    let* c := (match strstr v ([36] ++ bytes "Version") with
               | Some _ => parse_new_cookie v
               | None => parse_old_cookie v
               end) in
    match c with
    | inl e => reports e r
    | inr c => rq_reported (request_add_cookie r c)
    end.

(** * Recycling *)

Definition rq_recycle (f : rq_field) (r : http_request) : res http_request :=
  let+ s := rq_string r f in
  let+ s := str_recycle s in
  Ret (with_str f s r).

Definition request_recycle (r : http_request) : res http_request :=
  let r := with_cookies None (with_params None r) in
  let+ r := rq_recycle Rq_accept r in
  let+ r := rq_recycle Rq_accept_charset r in
  let+ r := rq_recycle Rq_accept_encoding r in
  let+ r := rq_recycle Rq_accept_language r in
  let+ r := rq_recycle Rq_te r in
  let r := with_general (general_header_recycle (rq_general r)) r in
  let+ eh := entity_header_recycle (rq_entity r) in
  Ret (with_entity_buf None (request_clear_flags (with_entity eh r))).

(** * The entity *)

Definition request_get_content_length (r : http_request) : res Z :=
  if negb (entity_header_content_length_isset (rq_entity r)) then Ret 0
  else entity_header_get_content_length (rq_entity r).

Definition request_set_entity (r : http_request) (entity : list Z) (cb : Z)
    : C (status * http_request) :=
  c_assert (entity_header_content_length_isset (rq_entity r));;
  let* n := lift (entity_header_get_content_length (rq_entity r)) in
  c_assert (cb =? n);;
  c_assert (0 <? cb);;
  c_assert (match entity_buf r with None => true | Some _ => false end);;
  let* b := malloc cb in
  match b with
  | None => ret (failure, r)
  | Some b =>
      let* b := lift (wr b 0 (Some <$> entity)) in
      ret (success, with_entity_buf (Some b) r)
  end.

Definition read_posted_content (max_post_content : Z) (c : connection) (r : http_request)
    : C (option http_error * connection * http_request) :=
  let* content_len := lift (request_get_content_length r) in
  if content_len =? 0 then ret (Some (Http_error HTTP_411_LENGTH_REQUIRED), c, r)
  else if max_post_content <? content_len
  then ret (Some (Http_error HTTP_400_BAD_REQUEST), c, r)
  else
    let* buf := malloc content_len in
    match buf with
    | None => ret (Some (Os_error ENOMEM), c, r)
    | Some _ =>
        let* (nread, bs, c) := lift (connection_read c content_len) in
        if nread =? -1
        then ret (Some (Tcpip_error (Gensocket.s_errno (cn_sock c))), c, r)
        else if negb (u64 nread =? content_len) then ret (Some (Tcpip_error EINVAL), c, r)
        else
          let* (st, r) := request_set_entity r bs nread in
          match st with
          | failure => ret (Some (Os_error ENOSPC), c, r)
          | success => ret (None, c, r)
          end
    end.

(** * Header fields *)

Definition req_parse_multivalued_fields (r : http_request) (value : block)
    (set_func : http_request -> list Z -> C (handled http_request)) : C (handled http_request) :=
  let* v := lift (str_at value) in
  multivalued (S (length v)) set_func r v.

Definition rq_parse_string (set : http_request -> list Z -> C (status * http_request))
    (r : http_request) (value : block) : C (handled http_request) :=
  let* v := lift (str_at value) in rq_reported (set r v).

Definition parse_authorization := rq_parse_string request_set_authorization.
Definition parse_expect := rq_parse_string request_set_expect.
Definition parse_if_match := rq_parse_string request_set_if_match.
Definition parse_if_none_match := rq_parse_string request_set_if_none_match.
Definition parse_if_range := rq_parse_string request_set_if_range.
Definition parse_proxy_authorization := rq_parse_string request_set_proxy_authorization.
Definition parse_range := rq_parse_string request_set_range.
Definition parse_referer := rq_parse_string request_set_referer.
Definition parse_host := rq_parse_string request_set_host.
Definition parse_from := rq_parse_string request_set_from.
Definition parse_user_agent := rq_parse_string request_set_user_agent.

Definition rq_parse_date (set : http_request -> Z -> res http_request)
    (r : http_request) (value : block) : C (handled http_request) :=
  let* v := lift (str_at value) in
  let* d := lift (parse_rfc822_date mktime v) in
  if d =? -1 then reports (Http_error HTTP_400_BAD_REQUEST) r
  else let* r := lift (set r d) in done r.

Definition parse_if_modified_since := rq_parse_date request_set_if_modified_since.
Definition parse_if_unmodified_since := rq_parse_date request_set_if_unmodified_since.

Definition parse_max_forwards (r : http_request) (value : block) : C (handled http_request) :=
  let* v := lift (str_at value) in
  match touint v with
  | inl _ => reports (Http_error HTTP_400_BAD_REQUEST) r
  | inr n => done (request_set_max_forwards r n)
  end.

Definition parse_te (r : http_request) (value : block) : C (handled http_request) :=
  req_parse_multivalued_fields r value request_set_te.
Definition parse_accept (r : http_request) (value : block) : C (handled http_request) :=
  req_parse_multivalued_fields r value request_set_accept.
Definition parse_accept_charset (r : http_request) (value : block) : C (handled http_request) :=
  req_parse_multivalued_fields r value request_set_accept_charset.
Definition parse_accept_encoding (r : http_request) (value : block) : C (handled http_request) :=
  req_parse_multivalued_fields r value request_set_accept_encoding.
Definition parse_accept_language (r : http_request) (value : block) : C (handled http_request) :=
  req_parse_multivalued_fields r value request_set_accept_language.

Definition parse_upgrade_insecure_requests (r : http_request) (value : block)
    : C (handled http_request) := done r.

(** A sum of digits in an [int]; overflow is undefined, a fault here. *)
Definition int_step (acc c : Z) : res Z :=
  let v := acc * 10 + (schar c - 48) in
  if (INT_MIN <=? v) && (v <=? INT_MAX) then Ret v else Fault OutOfBounds.

Fixpoint mime_digits (s : list Z) (stop : Z -> bool) (acc : Z) : res (Z * list Z) :=
  match s with
  | [] => Ret (acc, [])
  | c :: s' =>
      if stop c then Ret (acc, s)
      else let+ acc := int_step acc c in mime_digits s' stop acc
  end.

Definition parse_mime_version (r : http_request) (value : block) : C (handled http_request) :=
  let* v := lift (str_at value) in
  let* (major, rest) := lift (mime_digits v (fun c => c =? ch ".") 0) in
  match rest with
  | [] => reports (Http_error HTTP_400_BAD_REQUEST) r
  | _ :: rest =>
      let* (minor, _) := lift (mime_digits rest (fun _ => false) 0) in
      let* r := lift (request_set_mime_version r major minor) in done r
  end.

Definition request_header_fields
    : list (list Z * (http_request -> block -> C (handled http_request))) :=
  [ (bytes "user-agent", parse_user_agent);
    (bytes "cookie", parse_cookie);
    (bytes "host", parse_host);
    (bytes "from", parse_from);
    (bytes "accept", parse_accept);
    (bytes "accept-charset", parse_accept_charset);
    (bytes "accept-encoding", parse_accept_encoding);
    (bytes "accept-language", parse_accept_language);
    (bytes "mime-version", parse_mime_version);
    (bytes "authorization", parse_authorization);
    (bytes "expect", parse_expect);
    (bytes "if-match", parse_if_match);
    (bytes "if-modified-since", parse_if_modified_since);
    (bytes "if-none-match", parse_if_none_match);
    (bytes "if-range", parse_if_range);
    (bytes "if-unmodified-since", parse_if_unmodified_since);
    (bytes "max-forwards", parse_max_forwards);
    (bytes "proxy-authorization", parse_proxy_authorization);
    (bytes "range", parse_range);
    (bytes "referer", parse_referer);
    (bytes "te", parse_te);
    (bytes "upgrade-insecure-requests", parse_upgrade_insecure_requests) ].

Definition find_request_header : list Z -> option (http_request -> block -> C (handled http_request)) :=
  find_handler request_header_fields.

(** The request and the connection it arrives on. *)
Definition session : Type := http_request * connection.

(** [parse_connection] of this file. *)
Definition parse_connection_persistence (c : connection) (value : list Z) : connection :=
  let c := match strstr value (bytes "keep-alive") with
           | Some _ => connection_set_persistent true c
           | None => c
           end in
  match strstr value (bytes "close") with
  | Some _ => connection_set_persistent false c
  | None => c
  end.

Definition connection_map : list (list Z * (connection -> list Z -> connection)) :=
  [ (bytes "connection", parse_connection_persistence) ].

Definition parse_request_headerfield (name : list Z) (value : block) (s : session)
    : C (handled session) :=
  let (r, c) := s in
  match find_general_header mktime name with
  | Some handler =>
      let* (e, gh) := handler (rq_general r) value in ret (e, (with_general gh r, c))
  | None =>
      match find_entity_header mktime name with
      | Some handler =>
          let* (e, eh) := handler (rq_entity r) value in ret (e, (with_entity eh r, c))
      | None =>
          match find_handler connection_map name with
          | Some handler =>
              let* v := lift (str_at value) in done (r, handler c v)
          | None =>
              match find_request_header name with
              | Some handler => let* (e, r) := handler r value in ret (e, (r, c))
              | None => done s
              end
          end
      end
  end.

Definition read_request_header_fields : nat -> session -> C (handled session) :=
  read_header_fields parse_request_headerfield.

(** * The request line *)

Definition methods : list (list Z * http_method) :=
  [ (bytes "GET", METHOD_GET); (bytes "HEAD", METHOD_HEAD); (bytes "POST", METHOD_POST) ].
Definition versions : list (list Z * http_version) :=
  [ (bytes "HTTP/1.0", VERSION_10); (bytes "HTTP/1.1", VERSION_11) ].

Definition get_method (s : list Z) : http_method := default METHOD_UNKNOWN (find_handler methods s).
Definition get_version (s : list Z) : http_version :=
  default VERSION_UNKNOWN (find_handler versions s).

Definition parse_request_method (l : list Z) (r : http_request) : C (handled http_request) :=
  let* (e, d) :=
    lift (get_word_from_string l (fresh_array (CCH_METHOD_MAX + 1)) (CCH_METHOD_MAX + 1) 0) in
  match e with
  | Some _ => reports (Http_error HTTP_400_BAD_REQUEST) r
  | None =>
      let* w := lift (str_at d) in
      match get_method w with
      | METHOD_UNKNOWN => reports (Http_error HTTP_501_NOT_IMPLEMENTED) r
      | m => done (request_set_method r m)
      end
  end.

Definition more_uri_params_available (s : list Z) : res bool :=
  r_assert (negb (zlen s =? 0));;
  Ret (match strchr s (ch "=") with Some _ => true | None => false end).

Definition get_uri_param_name (src : list Z) (destsize : Z) : res (http_error + list Z) :=
  match strchr src (ch "=") with
  | None => Ret (inl (Http_error HTTP_400_BAD_REQUEST))
  | Some _ =>
      let+ (e, d) := copy_word src (fresh_array destsize) (ch "=") destsize in
      match e with
      | Some _ => Ret (inl (Http_error HTTP_414_REQUEST_URI_TOO_LARGE))
      | None => let+ w := str_at d in Ret (inr w)
      end
  end.

Definition get_uri_param_value (src : list Z) (destsize : Z) : res (http_error + list Z) :=
  match strchr src (ch "=") with
  | None => Ret (inl (Http_error HTTP_400_BAD_REQUEST))
  | Some i =>
      let+ (e, d) := copy_word (drop (S i) src) (fresh_array destsize) (ch "&") destsize in
      match e with
      | Some _ => Ret (inl (Http_error HTTP_414_REQUEST_URI_TOO_LARGE))
      | None => let+ w := str_at d in Ret (inr w)
      end
  end.

Definition locate_next_uri_param (s : list Z) : option (list Z) :=
  match strchr s (ch "&") with
  | Some i => Some (drop (S i) s)
  | None => None
  end.

Definition decode_uri_param_value (v : list Z) (cb : Z) : res (http_error + list Z) :=
  let+ r := rfc1738_decode (fresh_array cb) cb (cstr v) (zlen v) in
  if value r =? 0 then
    Ret (inl (if decide (default stale_errno (err r) = EINVAL)
              then Http_error HTTP_400_BAD_REQUEST
              else Os_error (default stale_errno (err r))))
  else let+ t := str_at (dest r) in Ret (inr t).

Definition set_one_uri_param (r : http_request) (s : list Z) : C (handled http_request) :=
  let* name := lift (get_uri_param_name s (CCH_PARAMNAME_MAX + 1)) in
  match name with
  | inl e => reports e r
  | inr name =>
      let* v := lift (get_uri_param_value s (CCH_PARAMVALUE_MAX + 1)) in
      match v with
      | inl e => reports e r
      | inr v =>
          let* t := lift (decode_uri_param_value v (CCH_PARAMVALUE_MAX + 1)) in
          match t with
          | inl e => reports e r
          | inr t => rq_reported (request_add_param r name t)
          end
      end
  end.

Fixpoint set_uri_params (fuel : nat) (r : http_request) (s : list Z) : C (handled http_request) :=
  match fuel with
  | O => lift (Fault FuelOut)
  | S fuel =>
      let* more := lift (more_uri_params_available s) in
      if negb more then done r
      else
        let! r := set_one_uri_param r s in
        match locate_next_uri_param s with
        | None => done r
        | Some s => set_uri_params fuel r s
        end
  end.

Definition uri_has_params (uri : list Z) : bool :=
  match strchr uri (ch "?") with Some _ => true | None => false end.

Definition set_uri_and_params (r : http_request) (uri : list Z) : C (handled http_request) :=
  match strchr uri (ch "?") with
  | None => lift (Fault AssertFailed)
  | Some i =>
      let! r := rq_reported (request_set_uri r (take i uri)) in
      let s := drop (S i) uri in
      if zlen s =? 0 then reports (Http_error HTTP_400_BAD_REQUEST) r
      else set_uri_params (S (length s)) r s
  end.

Definition parse_request_uri (l : list Z) (r : http_request) : C (handled http_request) :=
  if CCH_URI_MAX <=? zlen l then reports (Http_error HTTP_414_REQUEST_URI_TOO_LARGE) r
  else
    let* (e, d) := lift (get_word_from_string l (fresh_array (CCH_URI_MAX + 1)) (CCH_URI_MAX + 1) 1) in
    match e with
    | Some _ => reports (Http_error HTTP_400_BAD_REQUEST) r
    | None =>
        let* uri := lift (str_at d) in
        if uri_has_params uri then set_uri_and_params r uri
        else rq_reported (request_set_uri r uri)
    end.

Definition parse_request_version (l : list Z) (r : http_request) : C (handled http_request) :=
  let iword := find_word l 2 in
  if iword =? -1 then done (request_set_version r VERSION_09)
  else if CCH_VERSION_MAX <? zlen (drop (Z.to_nat iword) l)
  then reports (Http_error HTTP_400_BAD_REQUEST) r
  else
    let* (e, d) :=
      lift (get_word_from_string l (fresh_array (CCH_VERSION_MAX + 1)) (CCH_VERSION_MAX + 1) 2) in
    match e with
    | Some _ => reports (Http_error HTTP_400_BAD_REQUEST) r
    | None =>
        let* w := lift (str_at d) in
        match get_version w with
        | VERSION_UNKNOWN => reports (Http_error HTTP_505_HTTP_VERSION_NOT_SUPPORTED) r
        | v => done (request_set_version r v)
        end
    end.

Definition parse_request_line (l : list Z) (r : http_request) : C (handled http_request) :=
  let! r := parse_request_method l r in
  let! r := parse_request_uri l r in
  parse_request_version l r.

(** The array of the request line is cleared. *)
Definition read_request_line (s : session) : C (handled session) :=
  let* (e, l, s) :=
    get_line CCH_REQUESTLINE_MAX
      (replicate (Z.to_nat (CCH_REQUESTLINE_MAX + 1)) (Some 0)) s in
  match e with
  | None =>
      let (r, c) := s in
      let* (e, r) := parse_request_line l r in ret (e, (r, c))
  | Some (App_error ENOSPC) => reports (Http_error HTTP_414_REQUEST_URI_TOO_LARGE) s
  | Some e => reports e s
  end.

(** * Receiving *)

Definition request_receive (fuel : nat) (max_post_content : Z) (s : session) : C (handled session) :=
  let! (r, c) := read_request_line s in
  let c := match request_get_version r with
           | VERSION_11 => connection_set_persistent true c
           | _ => c
           end in
  let! (r, c) := read_request_header_fields fuel (r, c) in
  match request_get_method r with
  | METHOD_POST =>
      if request_get_defered_read r then done (r, c)
      else
        let* (e, c, r) := read_posted_content max_post_content c r in ret (e, (r, c))
  | _ => done (r, c)
  end.

(** * Sending *)

Definition method_text (m : http_method) : option (list Z) :=
  match m with
  | METHOD_HEAD => Some (bytes "HEAD ")
  | METHOD_GET => Some (bytes "GET ")
  | METHOD_POST => Some (bytes "POST ")
  | METHOD_UNKNOWN => None
  end.

Definition version_text (v : http_version) : option (list Z) :=
  match v with
  | VERSION_10 => Some (bytes " HTTP/1.0" ++ CRLF)
  | VERSION_11 => Some (bytes " HTTP/1.1" ++ CRLF)
  | _ => None
  end.

(** [if (!cstring_concat(s, ...))] *)
Definition add_text (s : str) (t : list Z) (e : http_error) (k : str -> C (handled connection))
    (c : connection) : C (handled connection) :=
  let* (st, s) := str_concat s t in
  match st with
  | failure => reports e c
  | success => k s
  end.

Definition send_request_line (r : http_request) (c : connection) : C (handled connection) :=
  let* s := str_new in
  match s with
  | None => reports (Os_error ENOMEM) c
  | Some s =>
      match method_text (request_get_method r) with
      | None => reports (Http_error HTTP_400_BAD_REQUEST) c
      | Some m =>
          add_text s m (Http_error HTTP_503_SERVICE_UNAVAILABLE) (fun s =>
            let* uri := lift (request_get_uri r) in
            match uri with
            | None => reports (Http_error HTTP_400_BAD_REQUEST) c
            | Some uri =>
                add_text s uri (Os_error ENOMEM) (fun s =>
                  match version_text (request_get_version r) with
                  | None => reports (Http_error HTTP_400_BAD_REQUEST) c
                  | Some v =>
                      add_text s v (Http_error HTTP_503_SERVICE_UNAVAILABLE) (fun s =>
                        let* t := lift (str_text s) in
                        let* (st, c) := lift (connection_write c t) in
                        match st with
                        | failure => reports (Os_error (Gensocket.s_errno (cn_sock c))) c
                        | success => done c
                        end) c
                  end) c
            end) c
      end
  end.

Definition send_rq (f : rq_field) (name : list Z) (r : http_request) : writer := fun c =>
  let+ s := rq_string r f in http_send_field name s c.

Definition send_accept := send_rq Rq_accept (bytes "Accept: ").
Definition send_accept_charset := send_rq Rq_accept_charset (bytes "Accept-Charset: ").
Definition send_accept_encoding := send_rq Rq_accept_encoding (bytes "Accept-Encoding: ").
Definition send_accept_language := send_rq Rq_accept_language (bytes "Accept-Language: ").
Definition send_authorization := send_rq Rq_authorization (bytes "Authorization: ").
Definition send_from := send_rq Rq_from (bytes "From: ").
Definition send_referer := send_rq Rq_referer (bytes "Referer: ").
Definition send_user_agent := send_rq Rq_user_agent (bytes "User-Agent: ").
Definition send_proxy_authorization :=
  send_rq Rq_proxy_authorization (bytes "Proxy-Authorization: ").
Definition send_range := send_rq Rq_range (bytes "Range: ").
Definition send_te := send_rq Rq_te (bytes "TE: ").
Definition send_expect := send_rq Rq_expect (bytes "Expect: ").
Definition send_host := send_rq Rq_host (bytes "Host: ").
Definition send_if_match := send_rq Rq_if_match (bytes "If-Match: ").
Definition send_if_none_match := send_rq Rq_if_none_match (bytes "If-None-Match: ").
Definition send_if_range := send_rq Rq_if_range (bytes "If-Range: ").
Definition send_max_forwards (r : http_request) : writer :=
  http_send_unsigned_int (bytes "Max-Forwards: ") (max_forwards r).
Definition send_if_modified_since (r : http_request) : writer :=
  http_send_date (bytes "If-Modified-Since: ") (if_modified_since r).
Definition send_if_unmodified_since (r : http_request) : writer :=
  http_send_date (bytes "If-Unmodified-Since: ") (if_unmodified_since r).

Definition rq_send_table : list (Z * (http_request -> writer)) :=
  [ (REQUEST_ACCEPT_SET, send_accept);
    (REQUEST_ACCEPT_CHARSET_SET, send_accept_charset);
    (REQUEST_ACCEPT_ENCODING_SET, send_accept_encoding);
    (REQUEST_ACCEPT_LANGUAGE_SET, send_accept_language);
    (REQUEST_AUTHORIZATION_SET, send_authorization);
    (REQUEST_EXPECT_SET, send_expect);
    (REQUEST_FROM_SET, send_from);
    (REQUEST_HOST_SET, send_host);
    (REQUEST_IF_MATCH_SET, send_if_match);
    (REQUEST_IF_NONE_MATCH_SET, send_if_none_match);
    (REQUEST_IF_RANGE_SET, send_if_range);
    (REQUEST_IF_MODIFIED_SINCE_SET, send_if_modified_since);
    (REQUEST_IF_UNMODIFIED_SINCE_SET, send_if_unmodified_since);
    (REQUEST_MAX_FORWARDS_SET, send_max_forwards);
    (REQUEST_PROXY_AUTHORIZATION_SET, send_proxy_authorization);
    (REQUEST_RANGE_SET, send_range);
    (REQUEST_REFERER_SET, send_referer);
    (REQUEST_TE_SET, send_te);
    (REQUEST_USER_AGENT_SET, send_user_agent) ].

Fixpoint rq_send (r : http_request) (l : list (Z * (http_request -> writer))) : writer :=
  match l with
  | [] => send_nothing
  | (flag, func) :: l =>
      if request_flag_is_set r flag then func r &&> rq_send r l else rq_send r l
  end.

Definition request_send_fields (r : http_request) : writer := rq_send r rq_send_table.

(** The failures after the request line leave the error object as it was. *)
Definition request_send (r : http_request) (c : connection)
    : C (status * option http_error * connection) :=
  let* (e, c) := send_request_line r c in
  match e with
  | Some e => ret (failure, Some e, c)
  | None =>
      let* (st, c) := lift
        ((general_header_send_fields (rq_general r) &&>
          entity_header_send_fields (rq_entity r) &&>
          request_send_fields r &&>
          http_send_string CRLF &&>
          connection_flush) c) in
      ret (st, None, c)
  end.

End Request.

(** A request as [request_new] leaves it, on the strings of Cstring. *)
Definition blank_request : http_request :=
  Request METHOD_UNKNOWN VERSION_UNKNOWN false
    (GH 0 0 0 0 0 0 (fun _ => Cstring.fresh)) (EH 0 0 0 0 (fun _ => Cstring.fresh)) 0
    (fun f => if decide (f = Rq_proxy_authorization) then None else Some Cstring.fresh)
    None None None 0 0 0.
