(* ===== verification/FormFields.v ===== *)
(** FormFields: the fields of a posted form, the functions of
    http/src/request.c that read them out of the entity of a request.

    A pointer into the entity is an offset.  The entity is the block that
    [read_posted_content] stored, which has no terminator.  [form_fields] shows
    that the functions return the fields the text was made of. *)

From Stdlib Require Import ZArith Lia.
From stdpp Require Import base list numbers.
From S2P Require Import Prelude Convert Cstring Rfc1738 MetaMisc HttpBase HeaderLines EntityHeader Request.

Definition AMP : Z := 38.
Definition EQUALS : Z := 61.
Definition PLUS : Z := 43.

Section Form.
Context `{STRINGS}.

(** * Operations *)

Definition request_get_content (r : http_request) : option block := entity_buf r.

(** [assert(request->entity_buf != NULL)] *)
Definition the_entity (r : http_request) : res block :=
  match entity_buf r with
  | None => Fault AssertFailed
  | Some b => Ret b
  end.

(** The pointer without the assertion: nothing can be read through a null one. *)
Definition entity_ptr (r : http_request) : block := default [] (entity_buf r).

(** The number of cells among the [n] from [i] on that hold an ampersand. *)
Fixpoint count_loop (n : nat) (b : block) (i nelem : Z) : res Z :=
  match n with
  | O => Ret nelem
  | S n =>
      let+ c := ldc b i in
      count_loop n b (i + 1) (if c =? AMP then nelem + 1 else nelem)
  end.

Definition request_get_field_count (r : http_request) : res Z :=
  r_assert (entity_header_content_length_isset (rq_entity r));;
  let+ b := the_entity r in
  let+ cb := request_get_content_length r in
  count_loop (Z.to_nat cb) b 0 (if 0 <? cb then 1 else 0).

(** [todo] counts down to [stop]. *)
Fixpoint field_start_loop (todo : nat) (b : block) (idx start : Z) : res Z :=
  match todo with
  | O => Ret start
  | S todo =>
      if 0 <? idx then
        let+ c := ldc b start in
        field_start_loop todo b (if c =? AMP then idx - 1 else idx) (start + 1)
      else Ret start
  end.

Definition get_field_start (content : block) (cb idx : Z) : res Z :=
  field_start_loop (Z.to_nat cb) content idx 0.

(** The characters from [start] up to [stop], and where they end: the first one
    that is [stop], or the end of the entity. *)
Fixpoint field_scan (todo : nat) (b : block) (stop start cb : Z) : res (Z * Z) :=
  match todo with
  | O => Ret (cb, start)
  | S todo =>
      let+ c := ldc b start in
      if c =? stop then Ret (cb, start) else field_scan todo b stop (start + 1) (cb + 1)
  end.

Definition request_get_field_namelen (r : http_request) (idx : Z) : res Z :=
  r_assert (entity_header_content_length_isset (rq_entity r));;
  let+ b := the_entity r in
  let+ fields := request_get_field_count r in
  r_assert (idx <? fields);;
  if fields <=? idx then Ret 0
  else
    let+ bufsiz := request_get_content_length r in
    let+ start := get_field_start b bufsiz idx in
    let+ (cb, start) := field_scan (Z.to_nat (bufsiz - start)) b EQUALS start 0 in
    if start =? bufsiz then Ret 0 else Ret cb.

Definition request_get_field_valuelen (r : http_request) (idx : Z) : res Z :=
  r_assert (entity_header_content_length_isset (rq_entity r));;
  let+ bufsiz := request_get_content_length r in
  let b := entity_ptr r in
  let+ start := get_field_start b bufsiz idx in
  let+ cb := request_get_field_namelen r idx in
  if cb =? 0 then Ret 0
  else
    let start := start + cb in
    let+ c := ldc b start in
    r_assert (c =? EQUALS);;
    let start := start + 1 in
    let+ (cb, _) := field_scan (Z.to_nat (bufsiz - start)) b AMP start 0 in
    Ret cb.

Fixpoint copy_loop (fieldlen : nat) (b : block) (start : Z) (d : block) (i : Z) : res (block * Z) :=
  match fieldlen with
  | O => Ret (d, i)
  | S fieldlen =>
      let+ c := ldc b start in
      let+ d := stc d i c in
      copy_loop fieldlen b (start + 1) d (i + 1)
  end.

Definition request_get_field_name (r : http_request) (i : Z) (d : block) (destsize : Z)
    : res (status * block) :=
  r_assert (entity_header_content_length_isset (rq_entity r));;
  let b := entity_ptr r in
  let+ bufsiz := request_get_content_length r in
  let+ start := get_field_start b bufsiz i in
  let+ fieldlen := request_get_field_namelen r i in
  if fieldlen =? 0 then Ret (failure, d)
  else
    let fieldlen := if destsize <? fieldlen then destsize else fieldlen in
    let+ (d, i) := copy_loop (Z.to_nat fieldlen) b start d 0 in
    let+ d := stc d i 0 in
    Ret (success, d).

Fixpoint plus_to_space (d : block) : res block :=
  match d with
  | [] => Fault OutOfBounds
  | None :: _ => Fault Uninitialised
  | Some c :: d' =>
      if c =? 0 then Ret d
      else let+ d' := plus_to_space d' in
           Ret (Some (if c =? PLUS then SP else c) :: d')
  end.

(** The result of [rfc1738_decode] is not looked at. *)
Definition request_get_field_value (r : http_request) (i : Z) (d : block) (destsize : Z)
    : res (status * block) :=
  r_assert (entity_header_content_length_isset (rq_entity r));;
  let b := entity_ptr r in
  let+ bufsiz := request_get_content_length r in
  let+ start := get_field_start b bufsiz i in
  let+ namelen := request_get_field_namelen r i in
  let+ valuelen := request_get_field_valuelen r i in
  if (namelen =? 0) || (valuelen =? 0) then Ret (failure, d)
  else
    let start := start + namelen in
    let+ c := ldc b start in
    r_assert (c =? EQUALS);;
    let start := start + 1 in
    let+ out := rfc1738_decode d destsize (drop (Z.to_nat start) b) valuelen in
    let+ d := plus_to_space (dest out) in
    Ret (success, d).

Definition NAME_BUFFER : Z := 10240.

(** [n] fields are todo from [i] on. *)
Fixpoint by_name_loop (n : nat) (r : http_request) (i : Z) (name : list Z) (d : block) (cb : Z)
    : res (status * block) :=
  match n with
  | O => Ret (failure, d)
  | S n =>
      let+ (st, sz) :=
        request_get_field_name r i (fresh_array NAME_BUFFER) (NAME_BUFFER - 1) in
      match st with
      | failure => Ret (failure, d)
      | success =>
          let+ w := str_at sz in
          if strcmp w name =? 0 then request_get_field_value r i d cb
          else by_name_loop n r (i + 1) name d cb
      end
  end.

Definition request_get_field_value_by_name (r : http_request) (name : list Z) (d : block) (cb : Z)
    : res (status * block) :=
  r_assert (negb (cb =? 0));;
  let+ fieldcount := request_get_field_count r in
  if fieldcount =? 0 then Ret (failure, d)
  else by_name_loop (Z.to_nat fieldcount) r 0 name d cb.

(** * Specification *)

(** A form as it is posted: [name=value&name=value...]. *)
Definition field_text (f : list Z * list Z) : list Z := f.1 ++ EQUALS :: f.2.

Fixpoint form_text (fs : list (list Z * list Z)) : list Z :=
  match fs with
  | [] => []
  | [f] => field_text f
  | f :: fs => field_text f ++ AMP :: form_text fs
  end.

Definition name_ok (n : list Z) : Prop :=
  n <> [] /\ Forall (fun c => is_char c /\ c <> EQUALS /\ c <> AMP) n.
Definition value_ok (v : list Z) : Prop := Forall (fun c => is_char c /\ c <> AMP) v.
Definition form_ok (fs : list (list Z * list Z)) : Prop :=
  Forall (fun f => name_ok f.1 /\ value_ok f.2) fs.

(** The request holds the form. *)
Definition posted (r : http_request) (fs : list (list Z * list Z)) : Prop :=
  entity_buf r = Some (Some <$> form_text fs) /\
  entity_header_content_length_isset (rq_entity r) = true /\
  entity_header_get_content_length (rq_entity r) = Ret (zlen (form_text fs)).

Definition amps (s : list Z) : Z := zlen (filter (fun c => c = AMP) s).

Definition spaced (t : list Z) : list Z := (fun c => if c =? PLUS then SP else c) <$> t.

(** ** The loops *)

Lemma ldc_chars (a s b : list Z) c :
  ldc (Some <$> a ++ c :: b) (zlen a) = Ret c.
Proof. rewrite fmap_app. cbn. apply ldc_app. by rewrite zlen_fmap. Qed.

Lemma amps_cons c s : amps (c :: s) = (if c =? AMP then 1 else 0) + amps s.
Proof.
  unfold amps. destruct (Z.eqb_spec c AMP) as [->|Hc].
  - rewrite filter_cons_True by done. zlia.
  - by rewrite filter_cons_False by done.
Qed.

Lemma amps_app a b : amps (a ++ b) = amps a + amps b.
Proof. unfold amps. by rewrite list.filter_app, zlen_app. Qed.

Lemma amps_nonneg s : 0 <= amps s.
Proof. apply zlen_nonneg. Qed.

Lemma count_loop_spec s pre post n :
  count_loop (length s) (Some <$> pre ++ s ++ post) (zlen pre) n = Ret (n + amps s).
Proof.
  revert pre n. induction s as [|c s IH]; intros pre n; cbn [length count_loop].
  { f_equal. unfold amps. rewrite filter_nil, zlen_nil. lia. }
  cbn [app]. rewrite (ldc_chars pre [] (s ++ post) c). cbn [res_bind].
  specialize (IH (pre ++ [c])). rewrite <-app_assoc, zlen_app, zlen_cons, zlen_nil, Z.add_0_r in IH.
  cbn [app] in IH. rewrite IH, amps_cons. f_equal. destruct (c =? AMP); lia.
Qed.

Lemma field_start_spec s pre post :
  s = [] \/ list.last s = Some AMP ->
  field_start_loop (length (s ++ post)) (Some <$> pre ++ s ++ post) (amps s) (zlen pre)
    = Ret (zlen pre + zlen s).
Proof.
  revert pre. induction s as [|c s IH]; intros pre Hs; cbn [app length field_start_loop].
  { replace (zlen pre + zlen []) with (zlen pre) by zlia. by destruct (length post). }
  assert (Hpos : 0 < amps (c :: s)).
  { destruct Hs as [|[l Hl]%last_Some]; [done|]. rewrite Hl, amps_app, amps_cons, Z.eqb_refl.
    pose proof (amps_nonneg l). pose proof (amps_nonneg []). lia. }
  rewrite (proj2 (Z.ltb_lt _ _) Hpos), (ldc_chars pre [] (s ++ post) c). cbn [res_bind].
  specialize (IH (pre ++ [c])). rewrite <-app_assoc, zlen_app, zlen_cons, zlen_nil, Z.add_0_r in IH.
  cbn [app] in IH.
  replace (if c =? AMP then amps (c :: s) - 1 else amps (c :: s)) with (amps s)
    by (rewrite amps_cons; destruct (c =? AMP); lia).
  rewrite IH; [f_equal; zlia|].
  destruct s as [|d s]; [by left|right]. destruct Hs as [Hs|Hs]; [done|]. by rewrite last_cons_cons in Hs.
Qed.

Lemma field_scan_spec s stop pre post cb :
  Forall (fun c => c <> stop) s -> post = [] \/ head post = Some stop ->
  field_scan (length (s ++ post)) (Some <$> pre ++ s ++ post) stop (zlen pre) cb
    = Ret (cb + zlen s, zlen pre + zlen s).
Proof.
  intros Hs Hpost. revert pre cb. induction Hs as [|c s Hc _ IH]; intros pre cb.
  - cbn [app]. rewrite zlen_nil, !Z.add_0_r.
    destruct post as [|x post]; [done|]. destruct Hpost as [|[= ->]]; [done|].
    cbn [length field_scan]. rewrite (ldc_chars pre [] post stop). cbn [res_bind].
    by rewrite Z.eqb_refl.
  - cbn [app length field_scan]. rewrite (ldc_chars pre [] (s ++ post) c). cbn [res_bind].
    rewrite (proj2 (Z.eqb_neq _ _) Hc).
    specialize (IH (pre ++ [c]) (cb + 1)).
    rewrite <-app_assoc, zlen_app, zlen_cons, zlen_nil, Z.add_0_r in IH. cbn [app] in IH.
    rewrite IH. f_equal. f_equal; zlia.
Qed.

Lemma copy_loop_spec s pre post d1 d2 :
  (length s <= length d2)%nat ->
  copy_loop (length s) (Some <$> pre ++ s ++ post) (zlen pre) ((Some <$> d1) ++ d2) (zlen d1)
    = Ret ((Some <$> d1 ++ s) ++ drop (length s) d2, zlen d1 + zlen s).
Proof.
  revert pre d1 d2. induction s as [|c s IH]; intros pre d1 d2 Hl; cbn [length copy_loop].
  { by rewrite app_nil_r, drop_0, zlen_nil, Z.add_0_r. }
  destruct d2 as [|x d2]; [simpl in Hl; lia|].
  cbn [app]. rewrite (ldc_chars pre [] (s ++ post) c). cbn [res_bind].
  rewrite (stc_app (Some <$> d1) d2 x c) by (by rewrite zlen_fmap). cbn [res_bind].
  specialize (IH (pre ++ [c]) (d1 ++ [c]) d2 ltac:(simpl in Hl; lia)).
  rewrite <-!app_assoc, !zlen_app, !zlen_cons, !zlen_nil, !Z.add_0_r in IH. cbn [app] in IH.
  replace ((Some <$> d1 ++ [c]) ++ d2) with ((Some <$> d1) ++ Some c :: d2) in IH
    by (by rewrite fmap_app, <-app_assoc).
  rewrite IH. cbn [drop]. do 2 f_equal. zlia.
Qed.

Lemma plus_to_space_spec t junk :
  Forall is_char t ->
  plus_to_space ((Some <$> t) ++ Some 0 :: junk) = Ret ((Some <$> spaced t) ++ Some 0 :: junk).
Proof.
  induction 1 as [|c t Hc _ IH]; [done|]. rewrite fmap_cons. cbn [app plus_to_space].
  rewrite is_char_nonzero by done. rewrite IH. done.
Qed.

Lemma amps_none s : Forall (fun c => c <> AMP) s -> amps s = 0.
Proof.
  induction 1 as [|c s Hc _ IH]; [done|]. rewrite amps_cons, (proj2 (Z.eqb_neq _ _) Hc), IH. done.
Qed.

Lemma amps_field f : name_ok f.1 -> value_ok f.2 -> amps (field_text f) = 0.
Proof.
  intros [_ Hn] Hv. apply amps_none, Forall_app. split; [|constructor; [done|]].
  - by eapply Forall_impl; [|exact Hn]; intros ? (_ & _ & ?).
  - by eapply Forall_impl; [|exact Hv]; intros ? [_ ?].
Qed.

(** ** One field *)

(** Field number [i] of a form, with the text in front of it and behind it. *)
Lemma form_split fs i n v :
  fs !! i = Some (n, v) -> form_ok fs ->
  exists pre post, form_text fs = pre ++ field_text (n, v) ++ post /\
    (pre = [] \/ list.last pre = Some AMP) /\ amps pre = Z.of_nat i /\
    (post = [] \/ head post = Some AMP).
Proof.
  intros Hi Hok. revert i Hi. induction Hok as [|f fs Hf Hok IH]; intros i Hi; [done|].
  destruct i as [|i].
  - injection Hi as ->. destruct fs as [|g fs].
    + exists [], []. rewrite app_nil_r. split_and!; auto.
    + exists [], (AMP :: form_text (g :: fs)). split_and!; auto.
  - destruct (IH i Hi) as (pre & post & Ht & Hp & Ha & Hq).
    exists (field_text f ++ AMP :: pre), post. destruct fs as [|g fs]; [done|].
    split; [|split; [|split; [|done]]].
    + change (form_text (f :: g :: fs)) with (field_text f ++ AMP :: form_text (g :: fs)).
      rewrite Ht, <-app_assoc. done.
    + right. destruct Hp as [->|Hp]; [by rewrite last_snoc|].
      rewrite last_app_cons. destruct pre; [done|]. by rewrite last_cons_cons.
    + rewrite amps_app, amps_cons, Ha, Z.eqb_refl.
      destruct Hf. rewrite amps_field by done. lia.
Qed.

Lemma form_count fs : form_ok fs -> fs <> [] -> 1 + amps (form_text fs) = zlen fs.
Proof.
  induction 1 as [|f fs [Hn Hv] Hok IH]; [done|]. intros _. destruct fs as [|g fs].
  - cbn [form_text]. rewrite amps_field by done. zlia.
  - change (form_text (f :: g :: fs)) with (field_text f ++ AMP :: form_text (g :: fs)).
    rewrite amps_app, amps_cons, amps_field, Z.eqb_refl by done.
    specialize (IH ltac:(done)). rewrite zlen_cons. lia.
Qed.

Section Field.
Variables (r : http_request) (fs : list (list Z * list Z)).
Hypotheses (Hposted : posted r fs) (Hok : form_ok fs).

Lemma form_length : request_get_content_length r = Ret (zlen (form_text fs)).
Proof.
  destruct Hposted as (_ & Hs & Hl). unfold request_get_content_length. by rewrite Hs.
Qed.

Lemma form_entity : entity_ptr r = Some <$> form_text fs.
Proof. destruct Hposted as (Hb & _). unfold entity_ptr. by rewrite Hb. Qed.

Lemma field_count : fs <> [] -> request_get_field_count r = Ret (zlen fs).
Proof.
  intros Hne. pose proof (form_count fs Hok Hne) as Hc. destruct Hposted as (Hb & Hs & _).
  unfold request_get_field_count, the_entity, guard. rewrite Hs, Hb, form_length. cbn [res_bind].
  assert (Hpos : 0 < zlen (form_text fs)).
  { destruct fs as [|f [|g gs]]; [done|..]; cbn [form_text]; unfold field_text;
      rewrite ?zlen_app, ?zlen_cons; zlen_facts; lia. }
  rewrite (proj2 (Z.ltb_lt _ _) Hpos). unfold zlen at 1. rewrite Nat2Z.id.
  pose proof (count_loop_spec (form_text fs) [] [] 1) as HL. rewrite app_nil_r in HL.
  cbn [app] in HL. change (zlen []) with 0 in HL. rewrite HL. f_equal. lia.
Qed.

Variables (i : nat) (n v pre post : list Z).
Hypotheses (Hi : fs !! i = Some (n, v)) (Hn : name_ok n) (Hv : value_ok v)
  (Htext : form_text fs = pre ++ field_text (n, v) ++ post)
  (Hpre : pre = [] \/ list.last pre = Some AMP) (Hamps : amps pre = Z.of_nat i)
  (Hpost : post = [] \/ head post = Some AMP).

Lemma field_start :
  get_field_start (Some <$> form_text fs) (zlen (form_text fs)) (Z.of_nat i) = Ret (zlen pre).
Proof.
  unfold get_field_start, zlen at 1. rewrite Nat2Z.id, Htext, <-Hamps.
  exact (field_start_spec pre [] (field_text (n, v) ++ post) Hpre).
Qed.

Lemma field_index : Z.of_nat i < zlen fs.
Proof. apply lookup_lt_Some in Hi. unfold zlen. lia. Qed.

Lemma field_namelen : request_get_field_namelen r (Z.of_nat i) = Ret (zlen n).
Proof.
  pose proof field_index as Hlt. destruct Hposted as (Hb & Hs & _).
  unfold request_get_field_namelen, the_entity, guard. rewrite Hs, Hb. cbn [res_bind].
  rewrite field_count by (by intros ->). cbn [res_bind].
  rewrite (proj2 (Z.ltb_lt _ _) Hlt), (proj2 (Z.leb_gt _ _) Hlt). cbn [res_bind].
  rewrite form_length. cbn [res_bind]. rewrite field_start. cbn [res_bind].
  rewrite Htext. unfold field_text. cbn [fst snd]. rewrite <-app_assoc. cbn [app].
  replace (Z.to_nat (zlen (pre ++ n ++ EQUALS :: v ++ post) - zlen pre))
    with (length (n ++ EQUALS :: v ++ post)) by (rewrite zlen_app; unfold zlen; lia).
  rewrite field_scan_spec; [|by eapply Forall_impl; [|exact (proj2 Hn)]; intros ? (_ & ? & _)|by right].
  cbn [res_bind]. rewrite (proj2 (Z.eqb_neq _ _)); [done|].
  rewrite !zlen_app, zlen_cons. zlen_facts. lia.
Qed.

Lemma name_pos : 0 < zlen n.
Proof. destruct Hn as [Hne _]. destruct n; [done|zlia]. Qed.

Lemma load_equals : ldc (Some <$> form_text fs) (zlen pre + zlen n) = Ret EQUALS.
Proof.
  rewrite Htext. unfold field_text. cbn [fst snd]. rewrite <-app_assoc. cbn [app].
  rewrite app_assoc, <-zlen_app. apply (ldc_chars (pre ++ n) []).
Qed.

(** The common start of the functions: the assertion and the offset of the
    field. *)
Ltac open_field f :=
  pose proof name_pos as Hpos; destruct Hposted as (_ & Hs & _);
  unfold f, guard; rewrite Hs, form_entity; cbn [res_bind];
  rewrite form_length; cbn [res_bind]; rewrite field_start; cbn [res_bind];
  rewrite field_namelen; cbn [res_bind].

Lemma field_valuelen : request_get_field_valuelen r (Z.of_nat i) = Ret (zlen v).
Proof.
  open_field request_get_field_valuelen. rewrite (proj2 (Z.eqb_neq (zlen n) 0)) by lia.
  cbv zeta. rewrite load_equals. cbn [res_bind]. rewrite Z.eqb_refl. cbn [res_bind].
  rewrite Htext. unfold field_text. cbn [fst snd]. rewrite <-app_assoc. cbn [app].
  replace (pre ++ n ++ EQUALS :: v ++ post) with ((pre ++ n ++ [EQUALS]) ++ v ++ post)
    by (by rewrite <-!app_assoc).
  replace (zlen pre + zlen n + 1) with (zlen (pre ++ n ++ [EQUALS])) by zlia.
  replace (Z.to_nat (zlen ((pre ++ n ++ [EQUALS]) ++ v ++ post) - zlen (pre ++ n ++ [EQUALS])))
    with (length (v ++ post)) by (rewrite (zlen_app (pre ++ n ++ [EQUALS])); unfold zlen; lia).
  rewrite field_scan_spec; [done| |done]. by eapply Forall_impl; [|exact Hv]; intros ? [_ ?].
Qed.

Lemma field_name d destsize :
  destsize <= zlen d ->
  zlen n < zlen d ->
  zlen n <= destsize ->
  request_get_field_name r (Z.of_nat i) d destsize
    = Ret (success, cstr n ++ drop (S (length n)) d).
Proof.
  intros Hd Hfit Hsz. open_field request_get_field_name. rewrite (proj2 (Z.eqb_neq (zlen n) 0)) by lia.
  rewrite (proj2 (Z.ltb_ge destsize (zlen n))) by lia.
  rewrite Htext. unfold field_text. cbn [fst snd]. rewrite <-app_assoc.
  unfold zlen at 1. rewrite Nat2Z.id.
  pose proof (copy_loop_spec n pre ((EQUALS :: v) ++ post) [] d) as HL. cbn [fmap list_fmap app] in HL.
  change (zlen []) with 0 in HL. cbn [app]. rewrite HL by (unfold zlen in *; lia). cbn [res_bind].
  destruct (drop (length n) d) as [|x d'] eqn:Hd'.
  { apply (f_equal length) in Hd'. rewrite length_drop in Hd'. unfold zlen in *. simpl in Hd'. lia. }
  rewrite Z.add_0_l, (stc_app (Some <$> n) d' x 0) by (by rewrite zlen_fmap). cbn [res_bind].
  unfold cstr. rewrite <-app_assoc. do 3 f_equal. cbn [app]. f_equal.
  rewrite <-Nat.add_1_r, <-drop_drop, Hd'. done.
Qed.

(** The destination that is filled to the last byte gets its terminator behind
    it. *)
Lemma field_name_overflow d :
  zlen d <= zlen n -> request_get_field_name r (Z.of_nat i) d (zlen d) = Fault OutOfBounds.
Proof.
  intros Hfit. open_field request_get_field_name. rewrite (proj2 (Z.eqb_neq (zlen n) 0)) by lia.
  replace (if zlen d <? zlen n then zlen d else zlen n) with (zlen d)
    by (destruct (Z.ltb_spec (zlen d) (zlen n)); lia).
  rewrite Htext. unfold field_text. cbn [fst snd].
  rewrite <-(take_drop (length d) n), <-!app_assoc.
  pose proof (copy_loop_spec (take (length d) n) pre (drop (length d) n ++ (EQUALS :: v) ++ post) [] d)
    as HL.
  assert (Hl : length (take (length d) n) = length d) by (rewrite length_take; unfold zlen in Hfit; lia).
  rewrite Hl in HL. cbn [fmap list_fmap app] in HL. change (zlen []) with 0 in HL.
  unfold zlen at 1. rewrite Nat2Z.id. cbn [app]. rewrite HL by done. cbn [res_bind].
  rewrite drop_all, app_nil_r. unfold stc, wr.
  rewrite (proj2 (Z.leb_gt (_ + zlen [_]) _)) by (rewrite zlen_fmap; zlia). by rewrite andb_false_r.
Qed.

Lemma field_value d t :
  v <> [] -> unescape v = Some t -> Forall is_char t -> zlen t < zlen d ->
  zlen v <= PTRDIFF_MAX ->
  request_get_field_value r (Z.of_nat i) d (zlen d)
    = Ret (success, cstr (spaced t) ++ drop (S (length t)) d).
Proof.
  intros Hne Ht Hc Hfit Hmax. open_field request_get_field_value. rewrite field_valuelen. cbn [res_bind].
  rewrite (proj2 (Z.eqb_neq (zlen n) 0)) by lia.
  rewrite (proj2 (Z.eqb_neq (zlen v) 0)) by (by intros ?%zlen_0). cbn [orb].
  cbv zeta. rewrite load_equals. cbn [res_bind]. rewrite Z.eqb_refl. cbn [res_bind].
  assert (Hdrop : drop (Z.to_nat (zlen pre + zlen n + 1)) (Some <$> form_text fs)
    = (Some <$> v) ++ (Some <$> post)).
  { rewrite Htext, <-fmap_drop, <-fmap_app. f_equal. unfold field_text. cbn [fst snd].
    replace (pre ++ (n ++ EQUALS :: v) ++ post) with ((pre ++ n ++ [EQUALS]) ++ v ++ post)
      by (by rewrite <-!app_assoc).
    rewrite drop_app_length'; [done|]. rewrite !length_app. unfold zlen. simpl. lia. }
  rewrite Hdrop, (rfc1738_decode_fits v t); [|by eapply Forall_impl; [|exact Hv]; intros ? []|done..].
  cbn [res_bind dest]. rewrite plus_to_space_spec by done. cbn [res_bind].
  unfold cstr. by rewrite <-app_assoc.
Qed.

Lemma field_value_empty d :
  v = [] -> request_get_field_value r (Z.of_nat i) d (zlen d) = Ret (failure, d).
Proof.
  intros Hv0. open_field request_get_field_value. rewrite field_valuelen, Hv0. cbn [res_bind].
  by rewrite orb_true_r.
Qed.

End Field.

(** ** The form *)

Lemma by_name_spec r fs name d m i :
  posted r fs -> form_ok fs -> Forall (fun f => zlen f.1 < NAME_BUFFER) fs -> Forall is_char name ->
  (i + m = length fs)%nat ->
  by_name_loop m r (Z.of_nat i) name d (zlen d) =
  match list_find (fun f => f.1 = name) (drop i fs) with
  | Some (k, _) => request_get_field_value r (Z.of_nat (i + k)) d (zlen d)
  | None => Ret (failure, d)
  end.
Proof.
  intros Hp Hok Hshort Hname. revert i. induction m as [|m IH]; intros i Hm.
  { by rewrite drop_ge by lia. }
  destruct (lookup_lt_is_Some_2 fs i ltac:(lia)) as [[n v] Hi].
  destruct (form_split fs i n v Hi Hok) as (pre & post & Ht & Hpre & Ha & Hpost).
  pose proof (Forall_lookup_1 _ _ _ _ Hok Hi) as [Hn Hv].
  pose proof (Forall_lookup_1 _ _ _ _ Hshort Hi) as Hlen. cbn [fst snd] in *.
  cbn [by_name_loop]. unfold NAME_BUFFER in *.
  rewrite (field_name r fs Hp Hok i n v pre post Hi Hn Ht Hpre Ha)
    by (unfold fresh_array; rewrite ?zlen_replicate; lia).
  cbn [res_bind]. rewrite str_at_here by (by eapply Forall_impl; [|exact (proj2 Hn)]; intros ? []).
  cbn [res_bind]. rewrite (drop_S fs (n, v) i Hi). cbn [list_find fst].
  destruct (decide (n = name)) as [->|Hne].
  - rewrite (proj2 (strcmp_0 name name Hname Hname) eq_refl). cbn. by rewrite Nat.add_0_r.
  - destruct (Z.eqb_spec (strcmp n name) 0) as [E|_].
    { apply strcmp_0 in E; [done| |done]. by eapply Forall_impl; [|exact (proj2 Hn)]; intros ? []. }
    replace (Z.of_nat i + 1) with (Z.of_nat (S i)) by lia. rewrite IH by lia.
    destruct (list_find _ (drop (S i) fs)) as [[k f]|]; cbn; [|done]. by rewrite Nat.add_succ_r.
Qed.

(** C16. The fields of a posted form are what the functions on the entity return:
    their number, each name, each value with its escapes decoded and its plus
    signs as spaces, and by name the first field that has it.  An empty value is
    reported as a failure.  A name that does not fit into the destination with
    its terminator is written past the end of it. *)
Theorem form_fields r fs :
  posted r fs -> form_ok fs -> fs <> [] -> zlen (form_text fs) <= PTRDIFF_MAX ->
  request_get_field_count r = Ret (zlen fs) /\
  (forall i n v, fs !! i = Some (n, v) ->
    (forall d, request_get_field_name r (Z.of_nat i) d (zlen d) =
       if zlen n <? zlen d then Ret (success, cstr n ++ drop (S (length n)) d)
       else Fault OutOfBounds) /\
    (forall d t, unescape v = Some t -> Forall is_char t -> zlen t < zlen d ->
       request_get_field_value r (Z.of_nat i) d (zlen d) =
       if decide (v = []) then Ret (failure, d)
       else Ret (success, cstr (spaced t) ++ drop (S (length t)) d))) /\
  (forall name d, Forall (fun f => zlen f.1 < NAME_BUFFER) fs -> Forall is_char name -> d <> [] ->
    request_get_field_value_by_name r name d (zlen d) =
    match list_find (fun f => f.1 = name) fs with
    | Some (i, _) => request_get_field_value r (Z.of_nat i) d (zlen d)
    | None => Ret (failure, d)
    end).
Proof.
  intros Hp Hok Hne Hmax. split; [by apply (field_count r fs)|]. split.
  - intros i n v Hi. destruct (form_split fs i n v Hi Hok) as (pre & post & Ht & Hpre & Ha & Hpost).
    pose proof (Forall_lookup_1 _ _ _ _ Hok Hi) as [Hn Hv]. cbn [fst snd] in *. split.
    + intros d. destruct (Z.ltb_spec (zlen n) (zlen d)).
      * by apply (field_name r fs Hp Hok i n v pre post Hi Hn Ht Hpre Ha); lia.
      * by apply (field_name_overflow r fs Hp Hok i n v pre post Hi Hn Ht Hpre Ha).
    + intros d t Hun Hc Hfit. destruct (decide (v = [])) as [E|Hv0].
      * by apply (field_value_empty r fs Hp Hok i n v pre post Hi Hn Hv Ht Hpre Ha Hpost).
      * apply (field_value r fs Hp Hok i n v pre post Hi Hn Hv Ht Hpre Ha Hpost); try done.
        rewrite Ht in Hmax. unfold field_text in Hmax. cbn [fst snd] in Hmax.
        rewrite !zlen_app, zlen_cons in Hmax. zlen_facts. lia.
  - intros name d Hs Hname Hd. unfold request_get_field_value_by_name, guard.
    rewrite (proj2 (Z.eqb_neq (zlen d) 0)) by (by intros ?%zlen_0). cbn [negb res_bind].
    rewrite (field_count r fs Hp Hok Hne). cbn [res_bind].
    rewrite (proj2 (Z.eqb_neq (zlen fs) 0)) by (by intros ?%zlen_0).
    unfold zlen at 1. rewrite Nat2Z.id. exact (by_name_spec r fs name d (length fs) 0 Hp Hok Hs Hname eq_refl).
Qed.

End Form.

(** A request whose entity is a text. *)
Definition posted_request (text : list Z) : http_request :=
  with_entity_buf (Some (Some <$> text))
    (with_entity (entity_header_set_content_length (rq_entity blank_request) (zlen text))
       blank_request).

(** Texts that are not forms: a field without a value takes the name of the next
    one along, and an escape that the end of the entity cuts short is read past
    the end of the entity. *)
Lemma form_malformed :
  request_get_field_name (posted_request (bytes "a&b=c")) 0 (replicate 9 None) 9
    = Ret (success, cstr (bytes "a&b") ++ replicate 5 None) /\
  request_get_field_value (posted_request (bytes "a=%")) 0 (replicate 9 None) 9 = Fault OutOfBounds.
Proof. split; vm_compute; reflexivity. Qed.

Definition sample_form : list (list Z * list Z) :=
  [(bytes "name", bytes "a+b"); (bytes "q", bytes "1%2B1"); (bytes "name", bytes "")].

Lemma form_fields_witness :
  request_get_field_count (posted_request (form_text sample_form)) = Ret 3 /\
  request_get_field_value (posted_request (form_text sample_form)) 1 (replicate 5 None) 5
    = Ret (success, cstr (bytes "1 1") ++ [None]) /\
  request_get_field_value_by_name (posted_request (form_text sample_form)) (bytes "name")
    (replicate 5 None) 5 = Ret (success, cstr (bytes "a b") ++ [None]).
Proof.
  destruct (form_fields (posted_request (form_text sample_form)) sample_form)
    as (Hc & Hf & Hn).
  - split_and!; reflexivity.
  - repeat (constructor; [split; [split; [done|]|]; decide_closed|]). constructor.
  - done.
  - done.
  - split; [exact Hc|]. split.
    + destruct (Hf 1%nat (bytes "q") (bytes "1%2B1") eq_refl) as [_ H2].
      apply (H2 (replicate 5 None) (bytes "1+1")); [reflexivity|decide_closed|done].
    + etrans; [apply (Hn (bytes "name") (replicate 5 None)); [decide_closed|decide_closed|done]|].
      destruct (Hf 0%nat (bytes "name") (bytes "a+b") eq_refl) as [_ H2].
      apply (H2 (replicate 5 None) (bytes "a+b")); [reflexivity|decide_closed|done].
Defined.
