(* ===== verification/HeaderProps.v ===== *)
(** HeaderProps: the header of a message that is sent is the header that is read.

    A message has the fields of a general header and of an entity header, and
    fields of its own, those of a request or of a response ([Own]).  The fields
    that have a value that is sent and read back are one map, [contents]: the
    strings, the dates and the length of the entity.  The file goes from the
    single field (how it is stored, sent and parsed) to the lines of a header. *)

From Stdlib Require Import ZArith Lia.
From stdpp Require Import base sets list numbers functions.
From S2P Require Import Prelude Convert Cstring MetaMisc Gensocket Connection HttpBase HttpDate.
From S2P Require Import HeaderLines GeneralHeader GeneralHeaderProps EntityHeader.

(** * Flags *)

Definition eh_flag (f : eh_field) : Z :=
  match f with
  | Eh_allow => ENTITY_HEADER_ALLOW_SET
  | Eh_content_encoding => ENTITY_HEADER_CONTENT_ENCODING_SET
  | Eh_content_language => ENTITY_HEADER_CONTENT_LANGUAGE_SET
  | Eh_content_location => ENTITY_HEADER_CONTENT_LOCATION_SET
  | Eh_content_md5 => ENTITY_HEADER_CONTENT_MD5_SET
  | Eh_content_type => ENTITY_HEADER_CONTENT_TYPE_SET
  | Eh_content_range => ENTITY_HEADER_CONTENT_RANGE_SET
  end.

Lemma eh_flags_disjoint a b : a <> b -> Z.land (eh_flag a) (eh_flag b) = 0.
Proof. by destruct a, b. Qed.

Lemma eh_dates_disjoint f :
  Z.land (eh_flag f) ENTITY_HEADER_EXPIRES_SET = 0 /\ Z.land (eh_flag f) ENTITY_HEADER_LAST_MODIFIED_SET = 0.
Proof. by destruct f. Qed.

Lemma eh_length_disjoint f : Z.land (eh_flag f) ENTITY_HEADER_CONTENT_LENGTH_SET = 0.
Proof. by destruct f. Qed.

Lemma lor_same fl x : Z.land (Z.lor fl x) x = x.
Proof.
  apply Z.bits_inj'. intros n _. rewrite Z.land_spec, Z.lor_spec.
  by destruct (Z.testbit fl n), (Z.testbit x n).
Qed.

Lemma lor_other fl x y : Z.land x y = 0 -> Z.land (Z.lor fl x) y = Z.land fl y.
Proof. intros H. by rewrite Z.land_lor_distr_l, H, Z.lor_0_r. Qed.

(** A mask that is clear has each of its flags clear. *)
Lemma land_part fl mask x : Z.land fl mask = 0 -> Z.land mask x = x -> Z.land fl x = 0.
Proof. intros Hm Hx. by rewrite <-Hx, Z.land_assoc, Hm, Z.land_0_l. Qed.

Lemma flag_set fl x : x <> 0 -> negb (Z.land (Z.lor fl x) x =? 0) = true.
Proof. intros Hx. rewrite lor_same. by apply negb_true_iff, Z.eqb_neq. Qed.

(** * The fields of a message *)

Definition name_ok (n : list Z) : Prop :=
  Forall (fun c => on_line c /\ c <> COLON) n /\ 1 <= zlen n <= 20.

#[export] Instance name_ok_dec n : Decision (name_ok n).
Proof. unfold name_ok. apply _. Defined.

(** The fields of the message itself: their names on the wire, whether values are
    appended to them, and the order they are sent in. *)
Class Own (own : Set) `{EqDecision own} : Type := {
  own_name : own -> option (list Z);
  own_multi : own -> bool;
  own_sent : list own;
  own_name_ok f n : own_name f = Some n -> name_ok n;
  own_sent_nodup : NoDup own_sent;
  own_sent_named f : f ∈ own_sent <-> is_Some (own_name f);
}.

Inductive fields_of (own : Set) : Set :=
| G (f : gh_field)
| E (f : eh_field)
| R (f : own)
| Date
| Length
| Expires
| Modified.

Arguments G {own}.
Arguments E {own}.
Arguments R {own}.
Arguments Date {own}.
Arguments Length {own}.
Arguments Expires {own}.
Arguments Modified {own}.

#[export] Instance field_eq_dec `{EqDecision own} : EqDecision (fields_of own).
Proof. solve_decision. Defined.

Section Fields.
Context `{Own own}.

Abbreviation field := (fields_of own).

Lemma own_or_header (F : field) : (exists f, F = R f) \/ forall f, F <> R f.
Proof. destruct F; first [left; by eexists|right; by intros ?]. Qed.

Abbreviation contents := (field -> option (list Z)).

Definition no_contents : contents := fun _ => None.

(** The fields that carry a value both ways, as they are sent. *)
Definition header_name (F : field) : option (list Z) :=
  match F with
  | G Gh_connection => Some (bytes "Connection")
  | G Gh_trailer => Some (bytes "Trailer")
  | G Gh_transfer_encoding => Some (bytes "Transfer-Encoding")
  | G Gh_upgrade => Some (bytes "Upgrade")
  | G Gh_via => Some (bytes "Via")
  | G Gh_warning => Some (bytes "Warning")
  | E Eh_allow => Some (bytes "Allow")
  | E Eh_content_encoding => Some (bytes "Content-Encoding")
  | E Eh_content_language => Some (bytes "Content-Language")
  | E Eh_content_location => Some (bytes "Content-Location")
  | E Eh_content_range => Some (bytes "Content-Range")
  | E Eh_content_type => Some (bytes "Content-Type")
  | R f => own_name f
  | Date => Some (bytes "Date")
  | Length => Some (bytes "Content-Length")
  | Expires => Some (bytes "Expires")
  | Modified => Some (bytes "Last-Modified")
  | _ => None
  end.

(** The fields whose value is cut at commas. *)
Definition multi (F : field) : bool :=
  match F with
  | E Eh_content_language => true
  | R f => own_multi f
  | _ => false
  end.

(** The values that come through unchanged, when dates are read by [mktime]. *)
Definition value_ok (mktime : tm -> Z) (F : field) (v : list Z) : Prop :=
  Forall on_line v /\ zlen v <= CCH_FIELDVALUE_MAX /\ skip_while isspace v = v /\
  (multi F = true -> Forall (fun c => c <> ch ",") v) /\
  match F with
  | G Gh_connection => v = bytes "close" \/ strcasecmp v (bytes "keep-alive") = 0
  | Date | Expires | Modified => exists d, parse_rfc822_date mktime v = Ret d /\ d <> -1
  | Length => exists n, v = decimal n /\ 0 <= n < 2 ^ 64
  | _ => True
  end.

Lemma value_chars mk F v : value_ok mk F v -> Forall is_char v.
Proof. intros [Hv _]. by apply on_line_chars. Qed.

Lemma value_valid mk F v : value_ok mk F v -> valid_str v /\ zlen v <= 2 ^ 38.
Proof.
  intros Hv. pose proof (value_chars mk F v Hv). destruct Hv as (_ & Hl & _).
  unfold CCH_FIELDVALUE_MAX, valid_str, PTRDIFF_MAX in *. split; [split|]; [done|lia..].
Qed.

Lemma name_facts F name : header_name F = Some name -> name_ok name.
Proof.
  assert (Hd : forall n, bool_decide (name_ok n) = true -> name_ok n)
    by (intros n Hn; by apply bool_decide_eq_true in Hn).
  destruct F as [[]|[]|f| | | |]; try (intros [= <-]; apply Hd; reflexivity); [done..|].
  apply own_name_ok.
Qed.

(** ** Lines *)

Definition line_text (l : field * list Z) : list Z :=
  default [] (header_name l.1) ++ bytes ": " ++ l.2.

Definition lines_text (ls : list (field * list Z)) : list Z :=
  concat ((fun l => line_text l ++ CRLF) <$> ls).

Definition store_all (ls : list (field * list Z)) (w : contents) : contents :=
  fold_left (fun w l => <[l.1 := Some l.2]> w) ls w.

Lemma line_text_named F name v : header_name F = Some name -> line_text (F, v) = name ++ bytes ": " ++ v.
Proof. unfold line_text. cbn [fst snd]. by intros ->. Qed.

Lemma line_facts mk F name v :
  header_name F = Some name -> value_ok mk F v ->
  Forall on_line (line_text (F, v)) /\ 0 < zlen (line_text (F, v)) < HEADER_LINE.
Proof.
  intros Hn Hv. destruct (name_facts F name Hn) as [Hf Hl]. rewrite (line_text_named F name v Hn). split.
  - apply Forall_app. split; [by eapply Forall_impl; [|exact Hf]; intros ? []|].
    apply Forall_app. split; [decide_closed|]. apply Hv.
  - destruct Hv as (_ & Hl' & _). rewrite !zlen_app.
    change (zlen (bytes ": ")) with 2. zlen_facts. unfold HEADER_LINE, CCH_FIELDVALUE_MAX, CCH_FIELDNAME_MAX in *. cbn in *. lia.
Qed.

Lemma lines_text_app a b : lines_text (a ++ b) = lines_text a ++ lines_text b.
Proof. unfold lines_text. by rewrite fmap_app, concat_app. Qed.

Lemma insert_inj_ne {A B} `{EqDecision A} (i : A) (x : B) (g : A -> B) j :
  (<[i := x]> g) j = if decide (j = i) then x else g j.
Proof. destruct (decide (j = i)) as [->|?]; [apply fn_lookup_insert|by apply fn_lookup_insert_ne]. Qed.

Lemma insert_field (w : contents) F x j : (<[F := x]> w) j = if decide (j = F) then x else w j.
Proof. exact (insert_inj_ne F x w j). Qed.

(** ** What is sent *)

(** The lines of the fields that are set. *)
Definition sent (w : contents) (Fs : list field) : list (field * list Z) :=
  omap (fun F => (fun v => (F, v)) <$> w F) Fs.

(** The rows of the tables of the general and the entity header. *)
Definition gh_rows : list (option field) :=
  [None; Some Date; Some (G Gh_connection); Some (G Gh_trailer); Some (G Gh_transfer_encoding);
   Some (G Gh_upgrade); Some (G Gh_via); Some (G Gh_warning)].
Definition eh_rows : list (option field) :=
  [Some (E Eh_allow); Some (E Eh_content_encoding); Some (E Eh_content_language); Some Length;
   Some (E Eh_content_location); None; Some (E Eh_content_range); Some (E Eh_content_type);
   Some Expires; Some Modified].

Definition fields : list field := omap id gh_rows ++ omap id eh_rows ++ (R <$> own_sent).

Lemma fields_named F : F ∈ fields <-> is_Some (header_name F).
Proof.
  unfold fields. rewrite app_assoc, elem_of_app.
  assert (Hown : F ∈ R <$> own_sent <-> exists f, F = R f /\ is_Some (own_name f)).
  { rewrite list_elem_of_fmap. split; intros (f & -> & Hf); exists f; (split; [done|]);
      by apply own_sent_named. }
  rewrite Hown. destruct F as [f|f|f| | | |].
  - transitivity (G f ∈ omap id gh_rows ++ omap id eh_rows); [naive_solver|].
    assert (Hd : bool_decide (G f ∈ omap id gh_rows ++ omap id eh_rows) = bool_decide (is_Some (header_name (G f))))
      by (by destruct f). by rewrite <-(bool_decide_spec (_ ∈ _)), Hd, bool_decide_spec.
  - transitivity (E f ∈ omap id gh_rows ++ omap id eh_rows); [naive_solver|].
    assert (Hd : bool_decide (E f ∈ omap id gh_rows ++ omap id eh_rows) = bool_decide (is_Some (header_name (E f))))
      by (by destruct f). by rewrite <-(bool_decide_spec (_ ∈ _)), Hd, bool_decide_spec.
  - assert (Hno : R f ∉ omap id gh_rows ++ omap id eh_rows) by (cbn; set_solver).
    split; [intros [?|(g & [= <-] & Hg)]; [done|exact Hg]|intros Hf; right; by exists f].
  - split; [by eexists|]. intros _. left. cbn. set_solver.
  - split; [by eexists|]. intros _. left. cbn. set_solver.
  - split; [by eexists|]. intros _. left. cbn. set_solver.
  - split; [by eexists|]. intros _. left. cbn. set_solver.
Qed.

Lemma fields_nodup : NoDup fields.
Proof.
  unfold fields. rewrite app_assoc. apply list.NoDup_app. split; [|split].
  - by apply (bool_decide_unpack _).
  - intros F HF (f & -> & _)%list_elem_of_fmap. revert HF. cbn. set_solver.
  - apply NoDup_fmap_2; [by intros ? ? [= ->]|apply own_sent_nodup].
Qed.

Lemma sent_app w a b : sent w (a ++ b) = sent w a ++ sent w b.
Proof. unfold sent. by rewrite omap_app. Qed.

Lemma sent_cons w F Fs :
  sent w (F :: Fs) = match w F with Some v => (F, v) :: sent w Fs | None => sent w Fs end.
Proof. unfold sent. cbn. by destruct (w F). Qed.

Lemma sent_elem w Fs l : l ∈ sent w Fs -> l.1 ∈ Fs /\ w l.1 = Some l.2.
Proof.
  induction Fs as [|F Fs IH]; [by intros ?%elem_of_nil|]. rewrite sent_cons.
  destruct (w F) as [v|] eqn:HF.
  - intros [->|Hl]%elem_of_cons; [split; [by left|done]|]. destruct (IH Hl). split; [by right|done].
  - intros Hl. destruct (IH Hl). split; [by right|done].
Qed.

Lemma sent_nodup w Fs : NoDup Fs -> NoDup (sent w Fs).*1.
Proof.
  induction 1 as [|F Fs HF _ IH]; [constructor|]. rewrite sent_cons. destruct (w F); [|done].
  cbn. constructor; [|done]. intros ([F' v'] & -> & Hl)%list_elem_of_fmap.
  by apply sent_elem in Hl as [? _].
Qed.

Lemma sent_length w Fs : (length (sent w Fs) <= length Fs)%nat.
Proof.
  induction Fs as [|F Fs IH]; [done|]. rewrite sent_cons. destruct (w F); simpl; lia.
Qed.

Lemma sent_ext w w' Fs : (forall F, F ∈ Fs -> w F = w' F) -> sent w Fs = sent w' Fs.
Proof.
  induction Fs as [|F Fs IH]; intros Heq; [done|]. rewrite !sent_cons, IH by (intros; apply Heq; by right).
  by rewrite Heq by (by left).
Qed.

Lemma store_sent w Fs w0 F :
  NoDup Fs -> store_all (sent w Fs) w0 F =
    if decide (F ∈ Fs) then match w F with Some v => Some v | None => w0 F end else w0 F.
Proof.
  intros Hnd. revert w0. induction Hnd as [|F' Fs HF _ IH]; intros w0.
  { rewrite decide_False by (by intros ?%elem_of_nil). done. }
  rewrite sent_cons. destruct (decide (F = F')) as [->|Hne].
  - rewrite (decide_True (P := F' ∈ F' :: Fs)) by (by left). destruct (w F') as [v|] eqn:Hv.
    + cbn [store_all fold_left]. fold (store_all (sent w Fs)).
      rewrite (IH (<[F' := Some v]> w0)), decide_False by done.
      by rewrite insert_field, decide_True.
    + by rewrite IH, decide_False.
  - assert (Hdec : forall A (a b : A), (if decide (F ∈ F' :: Fs) then a else b)
      = if decide (F ∈ Fs) then a else b).
    { intros A a b. destruct (decide (F ∈ Fs)) as [Hin|Hin].
      - by rewrite decide_True by (by right).
      - rewrite decide_False; [done|]. by intros [?|?]%elem_of_cons. }
    rewrite Hdec. destruct (w F') as [v|]; [|apply IH].
    change (store_all ((F', v) :: sent w Fs) w0) with (store_all (sent w Fs) (<[F' := Some v]> w0)).
    rewrite IH, insert_field. by rewrite (decide_False (P := F = F')) by done.
Qed.

End Fields.

Ltac insert_ext :=
  intros ?; cbn beta; rewrite ?insert_field, ?insert_inj_ne; cbn beta;
  repeat case_decide; congruence.

(** * What the headers hold *)

(** What a handler does when it stores: [ENOMEM], and only when the allocator
    refuses something, or the new contents. *)
Definition stores {A} (P : A -> Prop) (o : oracle) (res : handled A) (o' : oracle) : Prop :=
  match res with
  | (Some e, _) => e = Os_error ENOMEM /\ o <> []
  | (None, a) => P a
  end /\ (o = [] -> o' = []).

Lemma stores_mono {A} (P Q : A -> Prop) o r o' :
  (forall a, P a -> Q a) -> stores P o r o' -> stores Q o r o'.
Proof. intros HPQ. destruct r as [[e|] a]; intros [H1 H2]; split; auto. Qed.

Lemma wp_lift_ret {A B} (a : A) (k : A -> C B) o Q :
  wp (k a) o Q -> wp (bind (lift (Ret a)) k) o Q.
Proof. done. Qed.

(** The end of the handlers: the setter's status becomes an error. *)
Lemma wp_reported {A} (m : C (status * A)) (P : A -> Prop) o :
  wp m o (fun '(st, a) o' => (st = success -> P a) /\ (o = [] -> o' = [] /\ st = success)) ->
  wp (let* (st, a) := m in
      match st with failure => reports (Os_error ENOMEM) a | success => done a end) o (stores P o).
Proof.
  intros Hm. wp. eapply wp_mono; [exact Hm|]. intros [[] a] o' [HP Ho]; unfold reports, done; wp.
  - split; [split; [done|]|]; intros Hoo; by destruct (Ho Hoo).
  - split; [by apply HP|]. intros Hoo. by destruct (Ho Hoo).
Qed.

Section Holds.
Context `{StringLaws} `{Own own}.

Abbreviation field := (fields_of own).
Abbreviation contents := (field -> option (list Z)).

(** One string member: its text when it is set, in a block of moderate size.  A
    member that is not set is empty if values are appended to it. *)
Definition kept (appended isset : bool) (s : str) (v : option (list Z)) : Prop :=
  exists t, str_rep s t /\ v = (if isset then Some t else None) /\
    str_cap s <= 2 ^ 40 /\ (isset = false -> appended = true -> t = []).

(** How the text of a date belongs to the number: as it is sent, as it is read. *)
Definition sent_as (t : list Z) (d : Z) : Prop := t = rfc822_text d.
Definition read_as (mktime : tm -> Z) (t : list Z) (d : Z) : Prop :=
  parse_rfc822_date mktime t = Ret d.

Definition gh_holds (D : list Z -> Z -> Prop) (gh : general_header)
    (v : gh_field -> option (list Z)) (d : option (list Z)) : Prop :=
  (exists x, represents gh (View v (fun n => if decide (n = N_date) then x else None) (fun _ => false)) /\
     match d, x with
     | Some t, Some x => D t x
     | None, None => True
     | _, _ => False
     end) /\
  forall f, str_cap (gh_str gh f) <= 2 ^ 40.

(** A date that an entity header may have. *)
Definition dated_as (D : list Z -> Z -> Prop) (isset : bool) (d : Z) (v : option (list Z)) : Prop :=
  match v with
  | Some t => isset = true /\ D t d
  | None => isset = false
  end.

Definition eh_holds (D : list Z -> Z -> Prop) (eh : entity_header) (w : contents) : Prop :=
  (forall f, kept false (entity_header_flag_is_set eh (eh_flag f)) (eh_str eh f) (w (E f))) /\
  w Length = (if entity_header_content_length_isset eh then Some (decimal (content_length eh)) else None) /\
  dated_as D (entity_header_expires_isset eh) (expires eh) (w Expires) /\
  dated_as D (entity_header_last_modified_isset eh) (last_modified eh) (w Modified).

Lemma gh_holds_ext D gh v w d : (forall f, v f = w f) -> gh_holds D gh v d -> gh_holds D gh w d.
Proof.
  intros Heq [(x & (Hs & Hn & Hb & He) & Hd) Hc]. split.
  - exists x. split; [|done]. split_and!; [|done..]. intros f. destruct (Hs f) as (t & Ht & Hv). exists t.
    split; [done|]. cbn in *. by rewrite <-Heq.
  - exact Hc.
Qed.

Lemma eh_holds_ext D eh w w' :
  (forall f, w (E f) = w' (E f)) -> w Length = w' Length -> w Expires = w' Expires -> w Modified = w' Modified ->
  eh_holds D eh w -> eh_holds D eh w'.
Proof.
  intros He Hl Hx Hm (Hs & Hn & Hd). unfold eh_holds. rewrite <-Hl, <-Hx, <-Hm. split; [|done].
  intros f. rewrite <-He. apply Hs.
Qed.

(** ** Setting a member *)

Lemma set_kept (put : str -> list Z -> C (status * str)) appended isset s v t o :
  put = str_set \/ put = str_concat /\ appended = true /\ isset = false ->
  kept appended isset s v -> valid_str t -> zlen t <= 2 ^ 38 ->
  wp (put s t) o (fun '(st, s') o' =>
    (st = success -> kept appended true s' (Some t)) /\
    (o = [] -> o' = [] /\ st = success)).
Proof.
  intros Hput (t0 & Hs & Hv & Hcap & Happ) Ht Hlen.
  assert (Hmax : 2 * str_cap s + zlen t <= PTRDIFF_MAX) by (unfold PTRDIFF_MAX; lia).
  destruct Hput as [->|(-> & Ha & His)].
  - eapply wp_mono; [by apply (str_set_law s t0)|]. intros [st s'] o' (Hr & Hc & Ho).
    split; [intros ->; exists t; split_and!; (done || lia)|]. intros Hoo. destruct (Ho Hoo) as [? Hst]. auto.
  - eapply wp_mono; [by apply (str_concat_law s t0)|]. intros [st s'] o' (Hr & Hc & Ho).
    rewrite (Happ His Ha), zlen_nil in *.
    split; [intros ->; exists t; split_and!; (done || lia)|]. intros Hoo. destruct (Ho Hoo) as [? Hst]. auto.
Qed.

Lemma eh_set_spec D f eh w t o :
  eh_holds D eh w -> valid_str t -> zlen t <= 2 ^ 38 ->
  wp (eh_set_string f (eh_flag f) eh t) o (fun '(st, eh') o' =>
    (st = success -> eh_holds D eh' (<[E f := Some t]> w)) /\
    (o = [] -> o' = [] /\ st = success)).
Proof.
  intros (Hr & Hn & Hx & Hm) Ht Hlen. unfold eh_set_string. pose proof (Hr f) as Hk. wp.
  eapply wp_mono; [eapply set_kept; [by left|done..]|]. intros [st s'] o' [Hst Hoo]. wp.
  destruct st; cbn beta iota; split; try done. intros _. specialize (Hst eq_refl).
  destruct (eh_dates_disjoint f) as [Hd1 Hd2]. unfold eh_holds.
  rewrite !(insert_field _ (E f)), !(decide_False (P := _ = E f)) by done.
  unfold entity_header_content_length_isset, entity_header_expires_isset, entity_header_last_modified_isset,
    entity_header_flag_is_set in *. cbn.
  rewrite !lor_other by (apply eh_length_disjoint || done). split; [|done].
  intros g. rewrite insert_field. destruct (decide (g = f)) as [->|Hne].
  - rewrite !decide_True by done. by rewrite flag_set by (by destruct f).
  - rewrite !decide_False by congruence. rewrite lor_other by (by apply eh_flags_disjoint). apply Hr.
Qed.

(** The three numbers. *)
Lemma eh_set_length_spec D eh w k :
  eh_holds D eh w -> eh_holds D (entity_header_set_content_length eh k) (<[Length := Some (decimal k)]> w).
Proof.
  intros (Hr & Hn & Hx & Hm). unfold eh_holds. rewrite !insert_field.
  unfold entity_header_set_content_length, entity_header_content_length_isset, entity_header_expires_isset,
    entity_header_last_modified_isset, entity_header_flag_is_set in *. cbn.
  rewrite flag_set, !lor_other by done. split_and!; [|done..].
  intros f. rewrite insert_field. cbn. rewrite lor_other by (by destruct f). apply Hr.
Qed.

Lemma eh_set_expires_spec (D : list Z -> Z -> Prop) eh w t k :
  eh_holds D eh w -> D t k -> eh_holds D (entity_header_set_expires eh k) (<[Expires := Some t]> w).
Proof.
  intros (Hr & Hn & Hx & Hm) Ht. unfold eh_holds. rewrite !insert_field.
  unfold entity_header_set_expires, entity_header_content_length_isset, entity_header_expires_isset,
    entity_header_last_modified_isset, entity_header_flag_is_set in *. cbn.
  rewrite flag_set, !lor_other by done. split_and!; [|done..].
  intros f. rewrite insert_field. cbn. rewrite lor_other by (by destruct f). apply Hr.
Qed.

Lemma eh_set_modified_spec (D : list Z -> Z -> Prop) eh w t k :
  eh_holds D eh w -> D t k -> eh_holds D (entity_header_set_last_modified eh k) (<[Modified := Some t]> w).
Proof.
  intros (Hr & Hn & Hx & Hm) Ht. unfold eh_holds. rewrite !insert_field.
  unfold entity_header_set_last_modified, entity_header_content_length_isset, entity_header_expires_isset,
    entity_header_last_modified_isset, entity_header_flag_is_set in *. cbn.
  rewrite flag_set, !lor_other by done. split_and!; [|done..].
  intros f. rewrite insert_field. cbn. rewrite lor_other by (by destruct f). apply Hr.
Qed.

Lemma gh_set_spec D f gh v d t o :
  gh_holds D gh v d -> valid_str t -> zlen t <= 2 ^ 38 ->
  wp (setter f gh t) o (fun '(st, gh') o' =>
    (st = success -> gh_holds D gh' (<[f := Some t]> v) d) /\
    (o = [] -> o' = [] /\ st = success)).
Proof.
  intros [(x & Hr & Hd) Hc] Ht Hlen. eapply wp_mono; [by apply set_string_spec|].
  intros [st gh'] o' (Hr' & Hother & Ho). split.
  - intros ->. split; [by exists x|]. intros g. specialize (Hother g). specialize (Hc g). lia.
  - intros Hoo. destruct (Ho Hoo) as [? Hst]. split; [done|]. apply Hst.
    specialize (Hc f). unfold PTRDIFF_MAX. lia.
Qed.

Lemma gh_set_date_spec (D : list Z -> Z -> Prop) gh v d t k :
  gh_holds D gh v d -> k <> -1 -> D t k ->
  wpr (general_header_set_date gh k) (fun gh' => gh_holds D gh' v (Some t)).
Proof.
  intros [(x & Hr & Hd) Hc] Hk Ht. unfold general_header_set_date.
  rewrite (proj2 (Z.eqb_neq _ _) Hk). cbn [negb guard res_bind wpr]. split; [|done].
  exists (Some k). split; [|done].
  match goal with |- represents ?gh' _ =>
    pose proof (set_num_spec N_date k gh _ gh' Hr eq_refl eq_refl ltac:(by intros [])) as (Hs & Hn & Hb & He) end.
  split_and!; [done| |done|done]. intros n. specialize (Hn n). cbn in *. rewrite <-Hn.
  rewrite insert_inj_ne. by case_decide.
Qed.

(** * Parsing a field *)

Variable mktime : tm -> Z.

(** The handlers of the fields. *)
Lemma find_general f name :
  header_name (G f) = Some name -> f <> Gh_connection ->
  find_general_header mktime (fs_lower name) = Some (parse_string (setter f)).
Proof. by destruct f; intros [= <-]. Qed.

Lemma find_entity f name :
  header_name (E f) = Some name ->
  find_general_header mktime (fs_lower name) = None /\
  find_entity_header mktime (fs_lower name) =
    Some (if multi (E f) then parse_content_language
          else eh_parse_string (eh_set_string f (eh_flag f))).
Proof. by destruct f; intros [= <-]. Qed.

Lemma gh_handler D f gh v d t junk o :
  header_name (G f) <> None -> gh_holds D gh v d -> value_ok mktime (G f) t ->
  wp (match f with
      | Gh_connection => parse_connection gh (cstr t ++ junk)
      | _ => parse_string (setter f) gh (cstr t ++ junk)
      end) o (stores (fun gh' => gh_holds D gh' (<[f := Some t]> v) d) o).
Proof.
  intros Hn Hg Ht. pose proof (value_chars _ _ _ Ht) as Hc. destruct (value_valid _ _ _ Ht) as [Hval Hl].
  assert (Hset : wp (setter f gh t) o (fun '(st, gh') o' =>
    (st = success -> gh_holds D gh' (<[f := Some t]> v) d) /\ (o = [] -> o' = [] /\ st = success)))
    by (by apply gh_set_spec).
  destruct (decide (f = Gh_connection)) as [->|Hf].
  - unfold parse_connection. rewrite str_at_here by done. apply wp_lift_ret.
    assert (E' : (if negb (strcasecmp t (bytes "keep-alive") =? 0) then bytes "close" else t) = t).
    { destruct Ht as (_ & _ & _ & _ & [-> | ->]); done. }
    rewrite E'. by apply (wp_reported (setter Gh_connection gh t)).
  - assert (wp (parse_string (setter f) gh (cstr t ++ junk)) o
      (stores (fun gh' => gh_holds D gh' (<[f := Some t]> v) d) o)); [|by destruct f].
    unfold parse_string. rewrite str_at_here by done. apply wp_lift_ret. by apply (wp_reported (setter f gh t)).
Qed.

Lemma date_handler gh v d0 t junk o :
  gh_holds (read_as mktime) gh v d0 -> value_ok mktime Date t ->
  wp (parse_date mktime gh (cstr t ++ junk)) o
    (stores (fun gh' => gh_holds (read_as mktime) gh' v (Some t)) o).
Proof.
  intros Hg Ht. pose proof (value_chars _ _ _ Ht) as Hc. destruct Ht as (_ & _ & _ & _ & d & Hd & Hne).
  unfold parse_date. rewrite str_at_here by done. apply wp_lift_ret. rewrite Hd. apply wp_lift_ret.
  rewrite (proj2 (Z.eqb_neq _ _) Hne). wp. eapply wpr_mono; [by eapply (gh_set_date_spec (read_as mktime))|].
  intros gh' Hg'. unfold done. wp. by split.
Qed.

Lemma eh_handler D f eh w t junk o :
  eh_holds D eh w -> value_ok mktime (E f) t -> f <> Eh_content_md5 ->
  wp ((if multi (E f) then parse_content_language
       else eh_parse_string (eh_set_string f (eh_flag f))) eh (cstr t ++ junk)) o
    (stores (fun eh' => eh_holds D eh' (<[E f := Some t]> w)) o).
Proof.
  intros Hg Ht Hf. pose proof (value_chars _ _ _ Ht) as Hc. destruct (value_valid _ _ _ Ht) as [Hval Hl].
  destruct (multi (E f)) eqn:Hm.
  - assert (f = Eh_content_language) as -> by (by destruct f).
    unfold parse_content_language. rewrite str_at_here by done. apply wp_lift_ret.
    unfold eh_parse_multivalued_fields. cbn [multivalued].
    destruct Ht as (_ & _ & _ & Hcomma & _). rewrite strchr_none by (by apply Hcomma).
    by apply wp_reported, (eh_set_spec D Eh_content_language).
  - unfold eh_parse_string. rewrite str_at_here by done. apply wp_lift_ret. by apply wp_reported, eh_set_spec.
Qed.

Lemma length_handler D eh w t junk o :
  eh_holds D eh w -> value_ok mktime Length t ->
  wp (parse_content_length eh (cstr t ++ junk)) o
    (stores (fun eh' => eh_holds D eh' (<[Length := Some t]> w)) o).
Proof.
  intros Hg Ht. pose proof (value_chars _ _ _ Ht) as Hc. destruct Ht as (_ & _ & _ & _ & n & -> & Hn).
  unfold parse_content_length. rewrite str_at_here by done. apply wp_lift_ret.
  rewrite tosize_decimal by (unfold ULONG_MAX; lia). unfold done. wp. split; [|done]. by apply eh_set_length_spec.
Qed.

Lemma eh_date_handler F set eh w t junk o :
  (F = Expires /\ set = entity_header_set_expires \/ F = Modified /\ set = entity_header_set_last_modified) ->
  eh_holds (read_as mktime) eh w -> value_ok mktime F t ->
  wp (eh_parse_date mktime set eh (cstr t ++ junk)) o
    (stores (fun eh' => eh_holds (read_as mktime) eh' (<[F := Some t]> w)) o).
Proof.
  intros HF Hg Ht. pose proof (value_chars _ _ _ Ht) as Hc.
  assert (Hd : exists d, parse_rfc822_date mktime t = Ret d /\ d <> -1).
  { destruct Ht as (_ & _ & _ & _ & Ht). by destruct HF as [[-> _]|[-> _]]. }
  destruct Hd as (d & Hd & Hne). unfold eh_parse_date. rewrite str_at_here by done. apply wp_lift_ret.
  rewrite Hd. apply wp_lift_ret. rewrite (proj2 (Z.eqb_neq _ _) Hne). unfold done. wp. split; [|done].
  destruct HF as [[-> ->]|[-> ->]]; [by apply eh_set_expires_spec|by apply eh_set_modified_spec].
Qed.

(** The two headers that every message has. *)
Definition headers_hold (D : list Z -> Z -> Prop) (gh : general_header) (eh : entity_header)
    (w : contents) : Prop :=
  gh_holds D gh (fun f => w (G f)) (w Date) /\ eh_holds D eh w.

Lemma headers_hold_ext D gh eh w w' :
  (forall F, w F = w' F) -> headers_hold D gh eh w -> headers_hold D gh eh w'.
Proof.
  intros Heq [Hg He]. unfold headers_hold. rewrite <-Heq. split.
  - eapply gh_holds_ext; [|exact Hg]. intros f. apply Heq.
  - by eapply eh_holds_ext, He.
Qed.

(** A field the general header does not have, or the entity header. *)
Lemma gh_insert D gh (w : contents) d F x :
  (forall f, F <> G f) -> gh_holds D gh (fun f => w (G f)) d ->
  gh_holds D gh (fun f => (<[F := x]> w) (G f)) d.
Proof.
  intros HF Hg. eapply gh_holds_ext; [|exact Hg]. intros f. rewrite insert_field, decide_False; [done|].
  intros <-. by apply (HF f).
Qed.

Lemma eh_insert D eh (w : contents) F x :
  (forall f, F <> E f) -> F <> Length -> F <> Expires -> F <> Modified ->
  eh_holds D eh w -> eh_holds D eh (<[F := x]> w).
Proof.
  intros HF Hl Hx Hm He. eapply eh_holds_ext; [..|exact He]; intros; rewrite insert_field, decide_False; done.
Qed.

Lemma headers_hold_own D gh eh w f x :
  headers_hold D gh eh w -> headers_hold D gh eh (<[R f := x]> w).
Proof.
  intros [Hg He]. unfold headers_hold. rewrite insert_field, decide_False by done.
  split; [by apply gh_insert|by apply eh_insert].
Qed.

(** A member whose flag was cleared, its text kept or recycled. *)
Lemma kept_cleared b s v :
  kept b true s v \/ kept b false s v -> b = false -> kept b false s None.
Proof.
  intros Hk ->. destruct Hk as [(t & Hs & _ & Hc & _)|(t & Hs & _ & Hc & _)]; exists t; by split_and!.
Qed.

Lemma kept_recycled b isset s v :
  kept b isset s v -> wpr (str_recycle s) (fun s' => forall b', kept b' false s' None).
Proof.
  intros (t & Hs & _ & Hc & _). eapply wpr_mono; [by apply (str_recycle_law s t)|].
  intros s' [Hs' Hc'] b'. exists []. rewrite Hc'. by split_and!.
Qed.

Lemma headers_recycled D D' gh eh w :
  headers_hold D gh eh w ->
  wpr (entity_header_recycle eh) (fun eh' => headers_hold D' (general_header_recycle gh) eh' no_contents).
Proof.
  intros [[(x & Hrep & _) Hc] (Hk & Hl & _)].
  assert (Hg : gh_holds D' (general_header_recycle gh) (fun _ => None) None).
  { split; [|exact Hc]. exists None. split; [|done].
    destruct (recycle_spec gh _ success Hrep) as (Hs & Hn & Hb & He). split; [exact Hs|].
    split; [|by split]. intros n. specialize (Hn n). cbn in *. by case_decide. }
  unfold entity_header_recycle. wp. eapply wpr_mono; [by apply (kept_recycled _ _ _ _ (Hk Eh_content_language))|].
  intros s Hs. wp. split; [exact Hg|]. split; [|done]. intros f. cbn.
  destruct (decide (f = Eh_content_language)) as [->|Hne]; [apply Hs|].
  eapply kept_cleared; [|done]. specialize (Hk f). cbn in Hk.
  destruct (entity_header_flag_is_set eh (eh_flag f)); [by left|by right].
Qed.

(** The handler that a field of these headers finds stores it. *)
Lemma header_handler F name gh eh w v junk o :
  header_name F = Some name -> (forall f, F <> R f) -> value_ok mktime F v ->
  headers_hold (read_as mktime) gh eh w ->
  (exists h, find_general_header mktime (fs_lower name) = Some h /\
     wp (h gh (cstr v ++ junk)) o
       (stores (fun gh' => headers_hold (read_as mktime) gh' eh (<[F := Some v]> w)) o)) \/
  (find_general_header mktime (fs_lower name) = None /\
   exists h, find_entity_header mktime (fs_lower name) = Some h /\
     wp (h eh (cstr v ++ junk)) o
       (stores (fun eh' => headers_hold (read_as mktime) gh eh' (<[F := Some v]> w)) o)).
Proof.
  intros Hn Hown Hv [Hg He].
  assert (Hent : forall (m : C (handled entity_header)), (forall f, F <> G f) -> F <> Date ->
    wp m o (stores (fun eh' => eh_holds (read_as mktime) eh' (<[F := Some v]> w)) o) ->
    wp m o (stores (fun eh' => headers_hold (read_as mktime) gh eh' (<[F := Some v]> w)) o)).
  { intros m HG Hd Hm. eapply wp_mono; [exact Hm|]. intros r o'. apply stores_mono. intros eh' He'.
    unfold headers_hold. rewrite (insert_field w F _ Date), decide_False by (intros ?; by subst).
    split; [by apply gh_insert|done]. }
  destruct F as [f|f|f| | | |]; [left|right|by destruct (Hown f)|left|right|right|right].
  - assert (Hh : wp (match f with
        | Gh_connection => parse_connection gh (cstr v ++ junk)
        | _ => parse_string (setter f) gh (cstr v ++ junk)
        end) o (stores (fun gh' => headers_hold (read_as mktime) gh' eh (<[G f := Some v]> w)) o)).
    { eapply wp_mono; [apply (gh_handler (read_as mktime) f gh (fun f => w (G f)) (w Date) v junk o); [by rewrite Hn|done..]|].
      intros r o'. apply stores_mono. intros gh' Hg'. unfold headers_hold.
      rewrite insert_field, decide_False by done. split; [|by apply eh_insert].
      eapply gh_holds_ext; [|exact Hg']. insert_ext. }
    destruct (decide (f = Gh_connection)) as [->|Hc].
    + injection Hn as <-. eexists. split; [reflexivity|]. exact Hh.
    + exists (parse_string (setter f)). split; [by apply find_general|]. by destruct f.
  - destruct (find_entity f name Hn) as [Hnone Hfind]. split; [done|]. eexists. split; [exact Hfind|].
    apply Hent; [done|done|]. apply eh_handler; [done|done|]. by intros ->.
  - injection Hn as <-. eexists. split; [reflexivity|].
    eapply wp_mono; [by apply (date_handler gh _ _ v junk o Hg)|].
    intros r o'. apply stores_mono. intros gh' Hg'. unfold headers_hold.
    rewrite insert_field, decide_True by done. split; [|by apply eh_insert].
    eapply gh_holds_ext; [|exact Hg']. insert_ext.
  - injection Hn as <-. split; [reflexivity|]. eexists. split; [reflexivity|].
    apply Hent; [done|done|]. by apply length_handler.
  - injection Hn as <-. split; [reflexivity|]. eexists. split; [reflexivity|].
    apply Hent; [done|done|]. apply eh_date_handler; auto.
  - injection Hn as <-. split; [reflexivity|]. eexists. split; [reflexivity|].
    apply Hent; [done|done|]. apply eh_date_handler; auto.
Qed.

End Holds.

(** * Reading the header *)

Section Reading.
Context `{Own own} {A : Type} (mktime : tm -> Z).

Abbreviation contents := (fields_of own -> option (list Z)).
Context (parse : list Z -> block -> A * connection -> C (handled (A * connection))).
(** [holds a w]: the message holds the fields [w]; [same a a']: nothing else
    differs; [over]: a field that is set can be set again. *)
Context (holds : A -> contents -> Prop) (same : A -> A -> Prop) `{!PreOrder same} (over : bool).

Hypothesis parse_stores : forall F name v a c w junk o,
  header_name F = Some name -> value_ok mktime F v -> holds a w -> (over = false -> w F = None) ->
  wp (parse (fs_lower name) (cstr v ++ junk) (a, c)) o
    (stores (fun '(a', c') => c' = c /\ same a a' /\ holds a' (<[F := Some v]> w)) o).

Lemma parse_one_field_spec F name v r c w o :
  header_name F = Some name -> value_ok mktime F v -> holds r w -> (over = false -> w F = None) ->
  wp (parse_one_field parse (line_text (F, v)) (r, c)) o
    (stores (fun '(r', c') => c' = c /\ same r r' /\ holds r' (<[F := Some v]> w)) o).
Proof.
  intros Hn Hv Hr Hw. destruct (name_facts F name Hn) as [Hf Hl].
  assert (Hcol : Forall (fun c => c <> COLON) name) by (by eapply Forall_impl; [|exact Hf]; intros ? []).
  assert (Hskip : skip_while isspace (32 :: v) = v) by (cbn; apply Hv).
  assert (Hch : Forall is_char name) by (by eapply Forall_impl; [|exact Hf]; intros ? [[] _]).
  unfold parse_one_field. rewrite (line_text_named F name v Hn).
  change (bytes ": " ++ v) with (COLON :: 32 :: v).
  pose proof (get_field_name_spec name (32 :: v) (fresh_array (CCH_FIELDNAME_MAX + 1)) Hcol) as H1.
  pose proof (get_field_value_spec name (32 :: v) (fresh_array (CCH_FIELDVALUE_MAX + 1)) Hcol) as H2.
  cbv zeta in H2. rewrite Hskip in H2. rewrite fresh_array_length in H1, H2 by done.
  rewrite H1, H2; [|destruct Hv as (_ & ? & _); lia|unfold CCH_FIELDNAME_MAX; lia].
  apply wp_lift_ret. cbn beta iota. apply wp_lift_ret. cbn beta iota.
  rewrite str_at_here by done. apply wp_lift_ret. by apply parse_stores.
Qed.

Lemma read_fields_spec ls fuel r c w rest out o :
  Connection.rep c (lines_text ls ++ CRLF ++ rest) out -> holds r w ->
  Forall (fun l => is_Some (header_name l.1) /\ value_ok mktime l.1 l.2) ls ->
  NoDup ls.*1 -> (over = false -> forall F, F ∈ ls.*1 -> w F = None) -> (length ls < fuel)%nat ->
  wp (read_header_fields parse fuel (r, c)) o
    (stores (fun '(r', c') => same r r' /\ holds r' (store_all ls w) /\
       Connection.rep c' rest out /\ Connection.reads c c') o).
Proof.
  revert fuel r c w o. induction ls as [|[F v] ls IH]; intros fuel r c w o Hrep Hr Hls Hnd Hw Hfuel;
    (destruct fuel as [|fuel]; [simpl in Hfuel; lia|]); cbn [read_header_fields]; wp.
  - eapply wp_mono; [apply (get_line_spec _ _ r c [] rest out o Hrep); [constructor|done]|].
    intros [[e l] s] o' (-> & -> & -> & c' & -> & Hrep' & Hp). cbn. split; [|done].
    split; [done|]. split; [done|]. by split.
  - apply Forall_cons_1 in Hls as [[[name Hn] Hv] Hls]. cbn [fst snd] in *.
    destruct (line_facts mktime F name v Hn Hv) as [Hon Hlen].
    change (lines_text ((F, v) :: ls)) with ((line_text (F, v) ++ CRLF) ++ lines_text ls) in Hrep.
    rewrite <-!app_assoc in Hrep.
    eapply wp_mono; [apply (get_line_spec HEADER_LINE _ r c _ _ out o Hrep Hon); split; [lia|done]|].
    intros [[e l] s] o' (-> & -> & -> & c' & -> & Hrep' & Hp). cbn beta iota.
    rewrite (proj2 (Z.eqb_neq _ _)) by lia. wp.
    eapply wp_mono; [apply (parse_one_field_spec F name v r c' w); [done..|]; intros Ho; apply (Hw Ho); by left|].
    intros [[e|] [r1 c1]] o1 [Hst Ho].
    + unfold ret. simpl. split; [done|done].
    + destruct Hst as (-> & Hsame & Hr1). cbn in Hnd. apply list.NoDup_cons in Hnd as [HF Hnd].
      eapply wp_mono; [apply (IH fuel r1 c' (<[F := Some v]> w)); try done|].
      * intros Hover F' HF'. rewrite insert_field. case_decide as Hd; [by subst|]. apply (Hw Hover). by right.
      * simpl in Hfuel. lia.
      * intros [[e|] [r2 c2]] o2 [Hst2 Ho2]; (split; [|by auto]).
        -- destruct Hst2 as [-> Hne]. split; [done|]. intros Hoo. apply Hne. auto.
        -- destruct Hst2 as (Hs2 & Hh2 & Hrep2 & Hp2). split; [by etrans|]. split; [done|].
           split; [done|]. by etrans.
Qed.

End Reading.

(** * Sending the header *)

Section Sending.
Context `{StringLaws} `{Own own}.

Abbreviation field := (fields_of own).
Abbreviation contents := (field -> option (list Z)).

(** A row sends the line of its field when its flag is set. *)
Definition row_ok {A} (x : A) (isset : Z -> bool) (w : contents)
    (row : Z * (A -> writer)) (F : option field) : Prop :=
  match F with
  | None => isset row.1 = false
  | Some F =>
      if isset row.1
      then exists v, w F = Some v /\ sends (row.2 x) (line_text (F, v) ++ CRLF)
      else w F = None
  end.

Lemma sends_rows {A} (x : A) (isset : Z -> bool) w (send : list (Z * (A -> writer)) -> writer) rows Fs :
  send [] = send_nothing ->
  (forall flag f l, send ((flag, f) :: l) = if isset flag then f x &&> send l else send l) ->
  Forall2 (row_ok x isset w) rows Fs ->
  sends (send rows) (lines_text (sent w (omap id Fs))).
Proof.
  intros Hnil Hcons Hrows. induction Hrows as [|[flag f] F rows Fs Hrow _ IH].
  { rewrite Hnil. apply sends_nothing. }
  rewrite Hcons. destruct F as [F|]; cbn in Hrow |- *; [|by rewrite Hrow].
  destruct (isset flag); [|by rewrite Hrow].
  destruct Hrow as (v & Hv & Hs). unfold sent. cbn. rewrite Hv. cbn.
  change (lines_text ((F, v) :: sent w (omap id Fs))) with
    ((line_text (F, v) ++ CRLF) ++ lines_text (sent w (omap id Fs))).
  by apply sends_then.
Qed.

Lemma sends_line F name s v :
  header_name F = Some name -> str_rep s v ->
  sends (http_send_field (name ++ bytes ": ") s) (line_text (F, v) ++ CRLF).
Proof.
  intros Hn Hs. rewrite (line_text_named F name v Hn), <-!app_assoc, (app_assoc name). by apply sends_field.
Qed.

Lemma gh_row D gh w f name :
  gh_holds D gh (fun f => w (G f)) (w Date) -> header_name (G f) = Some name ->
  row_ok gh (general_header_flag_is_set gh) w
    (flag_of (Str f), fun gh => http_send_field (name ++ bytes ": ") (gh_str gh f)) (Some (G f)).
Proof.
  intros [(x & (Hs & _) & _) _] Hn. unfold row_ok. cbn [fst snd]. destruct (Hs f) as (t & Ht & Hv).
  cbn in Hv. fold (has gh (Str f)). rewrite Hv. destruct (has gh (Str f)); [|done].
  exists t. split; [done|]. by apply sends_line.
Qed.

Lemma date_row gh w :
  gh_holds sent_as gh (fun f => w (G f)) (w Date) ->
  row_ok gh (general_header_flag_is_set gh) w (flag_of (Num N_date), GeneralHeader.send_date) (Some Date).
Proof.
  intros [(x & (_ & Hn & _) & Hd) _]. specialize (Hn N_date). cbn in Hn.
  rewrite decide_True in Hn by done. unfold row_ok. cbn [fst snd].
  fold (has gh (Num N_date)). destruct (has gh (Num N_date)); subst x; destruct (w Date) as [t|]; try done.
  exists t. split; [done|]. unfold sent_as in Hd. subst t. rewrite (line_text_named _ (bytes "Date")) by done.
  rewrite <-!app_assoc, (app_assoc (bytes "Date")). apply sends_date.
Qed.

Lemma kept_row {A} (x : A) isset w flag F name b (s : A -> str) :
  kept b (isset flag) (s x) (w F) -> header_name F = Some name ->
  row_ok x isset w (flag, fun x => http_send_field (name ++ bytes ": ") (s x)) (Some F).
Proof.
  intros (t & Ht & Hv & _) Hn. unfold row_ok. cbn [fst snd]. rewrite Hv.
  destruct (isset flag); [|done]. exists t. split; [done|]. by apply sends_line.
Qed.

Lemma length_row D eh w :
  eh_holds D eh w ->
  row_ok eh (entity_header_flag_is_set eh) w (ENTITY_HEADER_CONTENT_LENGTH_SET, send_content_length)
    (Some Length).
Proof.
  intros (_ & Hn & _). unfold row_ok. cbn [fst snd]. unfold entity_header_content_length_isset in Hn.
  rewrite Hn. destruct (entity_header_flag_is_set eh ENTITY_HEADER_CONTENT_LENGTH_SET) eqn:Hf; [|done].
  eexists. split; [done|]. rewrite (line_text_named _ (bytes "Content-Length")) by done.
  intros c inc out Hrep. unfold send_content_length, entity_header_get_content_length, eh_get_number.
  rewrite Hf. cbn [guard res_bind]. rewrite <-!app_assoc, (app_assoc (bytes "Content-Length")).
  by apply connection_write_spec.
Qed.

Lemma eh_date_row (eh : entity_header) (w : contents) F flag name (member : entity_header -> Z) :
  dated_as sent_as (entity_header_flag_is_set eh flag) (member eh) (w F) -> header_name F = Some name ->
  row_ok eh (entity_header_flag_is_set eh) w (flag, fun eh => http_send_date (name ++ bytes ": ") (member eh)) (Some F).
Proof.
  intros Hd Hn. unfold row_ok. cbn [fst snd]. unfold dated_as, sent_as in Hd. destruct (w F) as [t|].
  - destruct Hd as [-> ->]. eexists. split; [done|]. rewrite (line_text_named _ name) by done.
    rewrite <-!app_assoc, (app_assoc name). apply sends_date.
  - by rewrite Hd.
Qed.

Lemma sends_general gh w :
  gh_holds sent_as gh (fun f => w (G f)) (w Date) -> w (G Gh_pragma) = None ->
  sends (general_header_send_fields gh) (lines_text (sent w (omap id gh_rows))).
Proof.
  intros Hh Hp. pose proof Hh as [(x & (Hs & Hn & Hb & He) & _) _].
  assert (Hnum : forall n, n <> N_date -> has gh (Num n) = false).
  { intros n Hne. specialize (Hn n). cbn in Hn. rewrite decide_False in Hn by done. by destruct (has gh (Num n)). }
  assert (Hbool : forall b, has gh (Bool b) = false) by (intros b; by rewrite <-Hb).
  unfold general_header_send_fields.
  assert (Hcc : cachecontrol_field_set gh = 0).
  { pose proof (Hbool B_no_cache). pose proof (Hbool B_no_store). pose proof (Hbool B_no_transform).
    pose proof (Hbool B_public). pose proof (Hbool B_private). pose proof (Hbool B_must_revalidate).
    pose proof (Hbool B_proxy_revalidate). pose proof (Hnum N_max_age ltac:(done)).
    pose proof (Hnum N_s_maxage ltac:(done)). pose proof (Hnum N_max_stale ltac:(done)).
    pose proof (Hnum N_min_fresh ltac:(done)).
    unfold has, flag_of in *. unfold cachecontrol_field_set.
    unfold general_header_flag_is_set in *. rewrite He.
    repeat match goal with H : negb _ = false |- _ => apply negb_false_iff in H; rewrite H; clear H end.
    done. }
  rewrite Hcc. cbn [Z.eqb negb].
  rewrite <-(app_nil_r (lines_text _)). apply sends_then; [|apply sends_nothing].
  apply (sends_rows gh (general_header_flag_is_set gh)); [done|done|].
  assert (Hpr : has gh (Str Gh_pragma) = false).
  { destruct (Hs Gh_pragma) as (t & _ & Ht). cbn in Ht. rewrite Hp in Ht.
    by destruct (has gh (Str Gh_pragma)). }
  unfold gh_send_table, gh_rows.
  constructor; [exact Hpr|]. constructor; [by apply date_row|].
  repeat (constructor; [match goal with |- row_ok _ _ _ _ (Some (G ?f)) =>
    exact (gh_row _ gh w f _ Hh eq_refl) end|]).
  constructor.
Qed.

Lemma sends_entity eh w :
  eh_holds sent_as eh w -> w (E Eh_content_md5) = None ->
  sends (entity_header_send_fields eh) (lines_text (sent w (omap id eh_rows))).
Proof.
  intros Hh Hm. pose proof Hh as (Hk & _ & Hx & Hl).
  apply (sends_rows eh (entity_header_flag_is_set eh)); [done|done|].
  unfold eh_send_table, eh_rows.
  repeat (constructor; [match goal with
    | |- row_ok _ _ _ _ (Some (E ?f)) =>
        exact (kept_row eh _ w (eh_flag f) (E f) _ false (fun eh => eh_str eh f) (Hk f) eq_refl)
    | |- row_ok _ _ _ _ (Some Length) => by eapply length_row
    | |- row_ok _ _ _ _ (Some Expires) => exact (eh_date_row eh w Expires _ _ expires Hx eq_refl)
    | |- row_ok _ _ _ _ (Some Modified) => exact (eh_date_row eh w Modified _ _ last_modified Hl eq_refl)
    | |- row_ok _ _ _ _ None => idtac
    end|]); [|constructor].
  destruct (Hk Eh_content_md5) as (t & _ & Ht & _). rewrite Hm in Ht. cbn in *.
  by destruct (entity_header_flag_is_set eh ENTITY_HEADER_CONTENT_MD5_SET).
Qed.

Lemma and_then_assoc (m1 m2 m3 : writer) c :
  (m1 &&> m2 &&> m3) c = ((m1 &&> m2) &&> m3) c.
Proof.
  unfold and_then. destruct (m1 c) as [[[] c1]|f]; [done| |done]. cbn [res_bind].
  by destruct (m2 c1) as [[[] c2]|f].
Qed.

Lemma and_then_ext (m1 m2 m3 : writer) c :
  (forall c, m2 c = m3 c) -> (m1 &&> m2) c = (m1 &&> m3) c.
Proof. intros Heq. unfold and_then. destruct (m1 c) as [[[] c1]|f]; [done|cbn; apply Heq|done]. Qed.

End Sending.

(** * Strings for examples *)

Definition string_with (t : list Z) : cstring :=
  mk_cstring (zlen t + 257) (zlen t) (cstr t ++ replicate 256 None).

Lemma string_with_rep t :
  bool_decide (Forall is_char t /\ zlen t <= 1000) = true -> Cstring.rep (string_with t) t.
Proof.
  intros [Hc Hl]%bool_decide_eq_true. exists (replicate 256 None). unfold string_with, cstr. cbn [data size len].
  zlen_facts. rewrite <-app_assoc. split; [done|].
  rewrite !zlen_app, zlen_fmap, zlen_replicate. change (zlen [Some 0]) with 1.
  unfold CSTRING_INITIAL_SIZE, PTRDIFF_MAX. repeat (split; [lia|]). done.
Qed.
