(* ===== verification/RequestProps.v ===== *)
(** RequestProps: a request that is sent is the request that is received.

    The fields of a request are those of the two header objects and its own
    ([request_own]); [request_roundtrip] composes the sender and the receiver
    over two connections, on the lemmas of HeaderProps. *)

From Stdlib Require Import ZArith Lia.
From stdpp Require Import base sets list numbers functions.
From S2P Require Import Prelude Convert Cstring MetaMisc Gensocket Connection HttpBase HeaderLines.
From S2P Require Import HttpDate GeneralHeader GeneralHeaderProps EntityHeader HeaderProps Pair Request.

(** * The fields of a request *)

Definition rq_name (f : rq_field) : option (list Z) :=
  match f with
  | Rq_accept => Some (bytes "Accept")
  | Rq_accept_charset => Some (bytes "Accept-Charset")
  | Rq_accept_encoding => Some (bytes "Accept-Encoding")
  | Rq_accept_language => Some (bytes "Accept-Language")
  | Rq_authorization => Some (bytes "Authorization")
  | Rq_expect => Some (bytes "Expect")
  | Rq_from => Some (bytes "From")
  | Rq_host => Some (bytes "Host")
  | Rq_if_match => Some (bytes "If-Match")
  | Rq_if_none_match => Some (bytes "If-None-Match")
  | Rq_if_range => Some (bytes "If-Range")
  | Rq_range => Some (bytes "Range")
  | Rq_referer => Some (bytes "Referer")
  | Rq_te => Some (bytes "TE")
  | Rq_user_agent => Some (bytes "User-Agent")
  | _ => None
  end.

Definition appends (f : rq_field) : bool :=
  match f with
  | Rq_accept | Rq_accept_charset | Rq_accept_encoding | Rq_accept_language | Rq_te => true
  | _ => false
  end.

(** The rows of the table of the request; the last members are not strings. *)
Definition rq_rows : list (option rq_field) :=
  [Some Rq_accept; Some Rq_accept_charset; Some Rq_accept_encoding;
   Some Rq_accept_language; Some Rq_authorization; Some Rq_expect; Some Rq_from;
   Some Rq_host; Some Rq_if_match; Some Rq_if_none_match; Some Rq_if_range;
   None; None; None; None; Some Rq_range; Some Rq_referer; Some Rq_te;
   Some Rq_user_agent].

#[export] Program Instance request_own : Own rq_field := {|
  own_name := rq_name;
  own_multi := appends;
  own_sent := omap id rq_rows;
|}.
Next Obligation.
  assert (Hd : forall n, bool_decide (name_ok n) = true -> name_ok n)
    by (intros n Hn; by apply bool_decide_eq_true in Hn).
  intros f n Hn. apply Hd. by destruct f; first [discriminate Hn|injection Hn as <-].
Qed.
Next Obligation. by apply (bool_decide_unpack _). Qed.
Next Obligation.
  intros f. assert (Hd : bool_decide (f ∈ omap id rq_rows) = bool_decide (is_Some (rq_name f)))
    by (by destruct f). by rewrite <-(bool_decide_spec (f ∈ _)), Hd, bool_decide_spec.
Qed.

(** Two members have no flag and the proxy authorization no string. *)
Definition rq_flag (f : rq_field) : option Z :=
  match f with
  | Rq_uri => Some REQUEST_URI_SET
  | Rq_accept => Some REQUEST_ACCEPT_SET
  | Rq_accept_charset => Some REQUEST_ACCEPT_CHARSET_SET
  | Rq_accept_encoding => Some REQUEST_ACCEPT_ENCODING_SET
  | Rq_accept_language => Some REQUEST_ACCEPT_LANGUAGE_SET
  | Rq_authorization => Some REQUEST_AUTHORIZATION_SET
  | Rq_from => Some REQUEST_FROM_SET
  | Rq_referer => Some REQUEST_REFERER_SET
  | Rq_user_agent => Some REQUEST_USER_AGENT_SET
  | Rq_range => Some REQUEST_RANGE_SET
  | Rq_te => Some REQUEST_TE_SET
  | Rq_expect => Some REQUEST_EXPECT_SET
  | Rq_host => Some REQUEST_HOST_SET
  | Rq_if_match => Some REQUEST_IF_MATCH_SET
  | Rq_if_none_match => Some REQUEST_IF_NONE_MATCH_SET
  | Rq_if_range => Some REQUEST_IF_RANGE_SET
  | Rq_link | Rq_title | Rq_proxy_authorization => None
  end.

(** The flags of members that are not strings. *)
Definition rq_other : Z :=
  Z.lor REQUEST_MAX_FORWARDS_SET (Z.lor REQUEST_MIME_VERSION_SET
    (Z.lor REQUEST_PROXY_AUTHORIZATION_SET
      (Z.lor REQUEST_IF_MODIFIED_SINCE_SET REQUEST_IF_UNMODIFIED_SINCE_SET))).

Lemma rq_flags_disjoint a b x y :
  rq_flag a = Some x -> rq_flag b = Some y -> a <> b -> Z.land x y = 0.
Proof. destruct a; intros [= <-]; destruct b; intros [= <-]; done. Qed.

Lemma rq_other_disjoint f x : rq_flag f = Some x -> Z.land x rq_other = 0 /\ x <> 0.
Proof. by destruct f; intros [= <-]. Qed.

Abbreviation field := (fields_of rq_field).
Abbreviation contents := (field -> option (list Z)).

Section Props.
Context `{StringLaws}.
Variables (zone : Z) (stale_errno : errno).

Let mktime := HttpDate.mktime zone.

(** * What the object holds *)

Definition rq_holds (r : http_request) (v : rq_field -> option (list Z)) : Prop :=
  (forall f,
    match rq_flag f with
    | Some x => exists s, rq_str r f = Some s /\ kept (appends f) (request_flag_is_set r x) s (v f)
    | None => v f = None
    end) /\
  Z.land (rq_flags r) rq_other = 0.

(** [D]: how the date that is kept belongs to its text. *)
Definition holds (D : list Z -> Z -> Prop) (r : http_request) (w : contents) : Prop :=
  headers_hold D (rq_general r) (rq_entity r) w /\ rq_holds r (fun f => w (R f)).

(** The members the header fields do not touch. *)
Definition same (r r' : http_request) : Prop :=
  method r' = method r /\ version r' = version r /\ defered_read r' = defered_read r /\
  params r' = params r /\ cookies r' = cookies r /\ entity_buf r' = entity_buf r.

#[local] Instance same_preorder : PreOrder same.
Proof.
  split; [by intros r|]. intros a b c (? & ? & ? & ? & ? & ?) (? & ? & ? & ? & ? & ?).
  split_and!; congruence.
Qed.

Lemma rq_put_spec put f x r v t o :
  put = str_set \/ put = str_concat /\ appends f = true -> rq_flag f = Some x ->
  rq_holds r v -> v f = None -> valid_str t -> zlen t <= 2 ^ 38 ->
  wp (rq_put put f x r t) o (fun '(st, r') o' =>
    (st = success -> rq_holds r' (<[f := Some t]> v) /\ same r r' /\
       rq_general r' = rq_general r /\ rq_entity r' = rq_entity r) /\
    (o = [] -> o' = [] /\ st = success)).
Proof.
  intros Hput Hx [Hr Ho] Hv Ht Hlen. pose proof (Hr f) as Hf. rewrite Hx in Hf.
  destruct Hf as (s & Hs & Hk). unfold rq_put, rq_string. rewrite Hs. wp.
  assert (His : request_flag_is_set r x = false).
  { destruct Hk as (t0 & _ & Hv0 & _). rewrite Hv in Hv0. by destruct (request_flag_is_set r x). }
  eapply wp_mono; [eapply set_kept; [naive_solver|done..]|]. intros [st s'] o' [Hst Hoo]. wp.
  destruct st; cbn beta iota; split; try done. intros _. specialize (Hst eq_refl).
  destruct (rq_other_disjoint f x Hx) as [Hox Hx0]. split; [|done]. split.
  - intros g. pose proof (Hr g) as Hg. destruct (rq_flag g) as [y|] eqn:Hy.
    + destruct (decide (g = f)) as [->|Hne].
      * rewrite Hx in Hy. injection Hy as <-. exists s'. cbn. rewrite decide_True by done.
        split; [done|]. rewrite fn_lookup_insert. unfold request_flag_is_set. cbn. by rewrite flag_set.
      * destruct Hg as (s1 & Hs1 & Hk1). exists s1. cbn. rewrite decide_False by done.
        split; [done|]. rewrite fn_lookup_insert_ne by done. unfold request_flag_is_set. cbn.
        by rewrite lor_other by (by eapply rq_flags_disjoint).
    + rewrite fn_lookup_insert_ne; [done|]. intros <-. by rewrite Hx in Hy.
  - cbn. by rewrite lor_other.
Qed.

(** * Parsing a field *)

Lemma find_request f name :
  header_name (R f) = Some name ->
  find_general_header mktime (fs_lower name) = None /\
  find_entity_header mktime (fs_lower name) = None /\
  find_handler connection_map (fs_lower name) = None /\
  exists x, rq_flag f = Some x /\
    find_request_header mktime (fs_lower name) =
    Some (if appends f then fun r value => req_parse_multivalued_fields r value (rq_append f x)
          else if decide (f = Rq_host) then parse_host else rq_parse_string (rq_set f x)).
Proof. destruct f; intros [= <-]; split_and!; try done; by eexists. Qed.

Lemma rq_handler f x r v t junk o :
  rq_flag f = Some x -> rq_holds r v -> v f = None -> value_ok mktime (R f) t ->
  wp ((if appends f then fun r value => req_parse_multivalued_fields r value (rq_append f x)
       else if decide (f = Rq_host) then parse_host else rq_parse_string (rq_set f x))
        r (cstr t ++ junk)) o
    (stores (fun r' => rq_holds r' (<[f := Some t]> v) /\ same r r' /\
       rq_general r' = rq_general r /\ rq_entity r' = rq_entity r) o).
Proof.
  intros Hx Hg Hv Ht. pose proof (value_chars _ _ _ Ht) as Hc. destruct (value_valid _ _ _ Ht) as [Hval Hl].
  destruct (appends f) eqn:Hm.
  - unfold req_parse_multivalued_fields. rewrite str_at_here by done. apply wp_lift_ret. cbn [multivalued].
    destruct Ht as (_ & _ & _ & Hcomma & _). rewrite strchr_none by (by apply Hcomma).
    apply wp_reported, rq_put_spec; auto.
  - destruct (decide (f = Rq_host)) as [->|Hf].
    + unfold parse_host, rq_parse_string. rewrite str_at_here by done. apply wp_lift_ret.
      unfold request_set_host, rq_reported. injection Hx as <-.
      destruct Hg as [Hr Hother]. pose proof (Hr Rq_host) as (s & Hs & t0 & _ & Hv0 & _).
      rewrite Hv in Hv0. destruct (request_flag_is_set r REQUEST_HOST_SET) eqn:His; [done|]. cbn [negb].
      apply (wp_reported (rq_set Rq_host REQUEST_HOST_SET r t)), rq_put_spec; auto. by split.
    + unfold rq_parse_string. rewrite str_at_here by done. apply wp_lift_ret. apply wp_reported, rq_put_spec; auto.
Qed.

Lemma rq_holds_ext r v w : (forall f, v f = w f) -> rq_holds r v -> rq_holds r w.
Proof. intros Heq [Hs Ho]. split; [|done]. intros f. rewrite <-Heq. apply Hs. Qed.

Lemma rq_holds_frame r r' v :
  rq_flags r' = rq_flags r -> rq_str r' = rq_str r -> rq_holds r v -> rq_holds r' v.
Proof. unfold rq_holds, request_flag_is_set. by intros -> ->. Qed.

(** A line of the header, as the handler gets its value, is stored. *)
Lemma handle_field F name v r c w junk o :
  header_name F = Some name -> value_ok mktime F v -> holds (read_as mktime) r w -> w F = None ->
  wp (parse_request_headerfield mktime (fs_lower name) (cstr v ++ junk) (r, c)) o
    (stores (fun '(r', c') => c' = c /\ same r r' /\ holds (read_as mktime) r' (<[F := Some v]> w)) o).
Proof.
  intros Hn Hv [Hh Hr] Hw. unfold parse_request_headerfield.
  destruct (own_or_header F) as [[f ->]|Hown].
  - destruct (find_request f name Hn) as (-> & -> & -> & x & Hx & ->).
    pose proof (rq_handler f x r _ v junk o Hx Hr Hw Hv) as Hrq.
    wp. eapply wp_mono; [exact Hrq|]. intros [e r'] o' Hst. wp.
    destruct e as [e|]; [done|]. destruct Hst as [(Hst & Hsame & Hg' & He') Ho].
    split; [|done]. split; [done|]. split; [done|]. split.
    + rewrite Hg', He'. by apply headers_hold_own.
    + eapply rq_holds_ext; [|exact Hst]. insert_ext.
  - destruct (header_handler mktime F name (rq_general r) (rq_entity r) w v junk o Hn)
      as [(h & -> & Hw1)|(-> & h & -> & Hw1)]; try done.
    1,2: wp; (eapply wp_mono; [exact Hw1|]); intros [e hd] o' Hst; wp; (destruct e as [e|]; [done|]);
      destruct Hst as [Hst Ho]; (split; [|done]); (split; [done|]); (split; [done|]); split; [exact Hst|];
      (eapply rq_holds_ext; [|by eapply rq_holds_frame, Hr]); intros f; rewrite insert_field, decide_False;
      [done|]; intros <-; by apply (Hown f).
Qed.

(** * The request line *)

Definition method_word (m : http_method) : list Z :=
  match m with
  | METHOD_GET => bytes "GET"
  | METHOD_HEAD => bytes "HEAD"
  | METHOD_POST => bytes "POST"
  | METHOD_UNKNOWN => []
  end.

Definition version_word (v : http_version) : list Z :=
  match v with
  | VERSION_10 => bytes "HTTP/1.0"
  | VERSION_11 => bytes "HTTP/1.1"
  | _ => []
  end.

Definition request_line (m : http_method) (u : list Z) (v : http_version) : list Z :=
  method_word m ++ SP :: u ++ SP :: version_word v.

(** The URIs that come through unchanged. *)
Definition uri_ok (u : list Z) : Prop :=
  Forall (fun c => on_line c /\ c <> SP /\ c <> ch "?") u /\ u <> [] /\ zlen u <= 10220.

Lemma method_facts m :
  m <> METHOD_UNKNOWN ->
  Forall (fun c => on_line c /\ c <> SP) (method_word m) /\ method_word m <> [] /\
  zlen (method_word m) <= 4 /\ get_method (method_word m) = m.
Proof.
  assert (Hd : forall w, bool_decide (Forall (fun c => (is_char c /\ c <> 13) /\ c <> SP) w) = true ->
    Forall (fun c => on_line c /\ c <> SP) w) by (intros w Hw; by apply bool_decide_eq_true in Hw).
  destruct m; [done|..]; intros _; (split; [by apply Hd|]); done.
Qed.

Lemma version_facts v :
  v = VERSION_10 \/ v = VERSION_11 ->
  Forall (fun c => on_line c /\ c <> SP) (version_word v) /\ zlen (version_word v) = 8 /\
  get_version (version_word v) = v.
Proof.
  assert (Hd : forall w, bool_decide (Forall (fun c => (is_char c /\ c <> 13) /\ c <> SP) w) = true ->
    Forall (fun c => on_line c /\ c <> SP) w) by (intros w Hw; by apply bool_decide_eq_true in Hw).
  intros [-> | ->]; (split; [by apply Hd|]); done.
Qed.

Lemma skip_while_app p a b :
  Forall (fun c => p c = true) a -> skip_while p (a ++ b) = skip_while p b.
Proof. induction 1 as [|c a Hc _ IH]; [done|]. cbn. by rewrite Hc. Qed.

Lemma skip_word_app w rest :
  Forall (fun c => c <> SP) w -> head rest <> Some SP -> skip_word (w ++ SP :: rest) = rest.
Proof.
  intros Hw Hr. unfold skip_word. rewrite skip_while_app.
  - cbn. destruct rest as [|c rest]; [done|]. cbn. destruct (Z.eqb_spec c SP); [by subst|done].
  - eapply Forall_impl; [|exact Hw]. intros c Hc. by apply negb_true_iff, Z.eqb_neq.
Qed.

(** Setting the method and the version does not touch the contents. *)
Lemma holds_frame D r r' w :
  rq_flags r' = rq_flags r -> rq_str r' = rq_str r -> rq_general r' = rq_general r ->
  rq_entity r' = rq_entity r -> holds D r w -> holds D r' w.
Proof.
  intros Hf Hs Hg He [Hh Hr]. unfold holds. rewrite Hg, He. split; [done|]. by eapply rq_holds_frame.
Qed.

Section Line.
Variables (m : http_method) (u : list Z) (v : http_version).
Hypotheses (Hm : m <> METHOD_UNKNOWN) (Hu : uri_ok u) (Hv : v = VERSION_10 \/ v = VERSION_11).

Let l := request_line m u v.

Lemma uri_no_space : Forall (fun c => c <> SP) u.
Proof. destruct Hu as (Hc & _). by eapply Forall_impl; [|exact Hc]; intros ? (_ & ? & _). Qed.

Lemma line_length : 0 < zlen l < CCH_URI_MAX.
Proof.
  destruct (method_facts m Hm) as (_ & Hne & Hl & _). destruct (version_facts v Hv) as (_ & Hl' & _).
  destruct Hu as (_ & _ & Hul). unfold l, request_line.
  rewrite zlen_app, zlen_cons, zlen_app, zlen_cons. zlen_facts. unfold CCH_URI_MAX. lia.
Qed.

Lemma line_chars : Forall on_line l.
Proof.
  destruct (method_facts m Hm) as (Hmw & _). destruct (version_facts v Hv) as (Hvw & _).
  destruct Hu as (Huc & _). unfold l, request_line.
  assert (on_line SP) by (unfold on_line; decide_closed).
  apply Forall_app. split; [by eapply Forall_impl; [|exact Hmw]; intros ? []|].
  constructor; [done|]. apply Forall_app. split; [by eapply Forall_impl; [|exact Huc]; intros ? []|].
  constructor; [done|]. by eapply Forall_impl; [|exact Hvw]; intros ? [].
Qed.

Lemma line_words :
  skip_words 0 l = l /\ skip_words 1 l = u ++ SP :: version_word v /\
  skip_words 2 l = version_word v.
Proof.
  destruct (method_facts m Hm) as (Hmw & _). destruct (version_facts v Hv) as (Hvw & _).
  assert (H1 : skip_words 1 l = u ++ SP :: version_word v).
  { unfold l, request_line. cbn [skip_words]. apply skip_word_app.
    - by eapply Forall_impl; [|exact Hmw]; intros ? [].
    - destruct Hu as (Huc & Hne & _). destruct u as [|c u']; [done|]. cbn. intros [= ->].
      by apply Forall_cons_1 in Huc as [(_ & ? & _) _]. }
  split; [done|]. split; [done|].
  change (skip_words 2 l) with (skip_word (skip_words 1 l)). rewrite H1.
  apply skip_word_app; [apply uri_no_space|]. by destruct Hv as [-> | ->].
Qed.

(** A word of the line that fits its array. *)
Lemma line_word k w rest n :
  skip_words k l = w ++ rest -> w <> [] -> rest = [] \/ head rest = Some SP ->
  Forall (fun c => on_line c /\ c <> SP) w -> zlen w < n -> 1 < n ->
  exists junk, get_word_from_string l (fresh_array n) n k = Ret (None, cstr w ++ junk) /\
    str_at (cstr w ++ junk) = Ret w.
Proof.
  intros Hk Hne Hrest Hw Hfit Hn. pose proof line_length as Hl. unfold CCH_URI_MAX in Hl.
  exists (drop (S (length w)) (fresh_array n)).
  rewrite get_word_spec by (try apply fresh_array_length; unfold INT_MAX; lia). rewrite Hk.
  assert (Hsp : Forall (fun c => c <> SP) w) by (by eapply Forall_impl; [|exact Hw]; intros ? []).
  assert (Hun : until SP (w ++ rest) = w).
  { destruct Hrest as [->|Hrest]; [rewrite app_nil_r; by apply until_id|].
    destruct rest as [|c rest]; [done|]. injection Hrest as ->. by apply until_app. }
  split; [|by apply str_at_here; eapply Forall_impl; [|exact Hw]; intros ? [[] _]].
  destruct (w ++ rest) as [|c s] eqn:Hs; [by destruct w|]. cbv zeta. rewrite Hun.
  by rewrite (proj2 (Z.ltb_lt _ _) Hfit).
Qed.

Lemma parse_request_method_spec r o :
  wp (parse_request_method l r) o (fun a o' => a = (None, request_set_method r m) /\ o' = o).
Proof.
  destruct (method_facts m Hm) as (Hmw & Hmne & Hml & Hmg). destruct line_words as (W0 & _).
  unfold parse_request_method.
  destruct (line_word 0 (method_word m) (SP :: u ++ SP :: version_word v) (CCH_METHOD_MAX + 1))
    as (j & G0 & S0); [done|done|by right|done|unfold CCH_METHOD_MAX; lia|done|].
  rewrite G0. apply wp_lift_ret. cbn beta iota. rewrite S0. apply wp_lift_ret. rewrite Hmg.
  by destruct m.
Qed.

Lemma parse_request_uri_spec r w o :
  holds (read_as mktime) r w -> w (R Rq_uri) = None ->
  wp (parse_request_uri stale_errno l r) o
    (stores (fun r' => same r r' /\ holds (read_as mktime) r' (<[R Rq_uri := Some u]> w)) o).
Proof.
  intros [Hh Hrq] Hw. pose proof line_length as Hl. destruct line_words as (_ & W1 & _).
  destruct Hu as (Huc & Hune & Hul). unfold parse_request_uri. rewrite (proj2 (Z.leb_gt _ _)) by lia.
  destruct (line_word 1 u (SP :: version_word v) (CCH_URI_MAX + 1))
    as (j & G1 & S1); [done|done|by right| |unfold CCH_URI_MAX; lia|done|].
  { by eapply Forall_impl; [|exact Huc]; intros ? (? & ? & _). }
  rewrite G1. apply wp_lift_ret. cbn beta iota. rewrite S1. apply wp_lift_ret.
  assert (Hq : uri_has_params u = false).
  { unfold uri_has_params. rewrite strchr_none; [done|].
    by eapply Forall_impl; [|exact Huc]; intros ? (_ & _ & ?). }
  rewrite Hq. assert (Huv : valid_str u).
  { split; [by eapply Forall_impl; [|exact Huc]; intros ? [[? _] _]|]. unfold PTRDIFF_MAX. lia. }
  eapply wp_mono; [apply wp_reported, (rq_put_spec str_set Rq_uri REQUEST_URI_SET r (fun f => w (R f)) u o); auto; lia|].
  intros a o'. apply stores_mono. intros r1 (Hrq1 & Hs & Hg1 & He1). split; [done|].
  split.
  - rewrite Hg1, He1. by apply headers_hold_own.
  - eapply rq_holds_ext; [|exact Hrq1]. insert_ext.
Qed.

Lemma parse_request_version_spec r o :
  wp (parse_request_version l r) o (fun a o' => a = (None, request_set_version r v) /\ o' = o).
Proof.
  destruct (version_facts v Hv) as (Hvw & Hvl & Hvg). destruct line_words as (_ & _ & W2).
  assert (Hne : version_word v <> []) by (by destruct Hv as [-> | ->]).
  unfold parse_request_version. pose proof (find_word_spec 2 l) as Hf. rewrite W2 in Hf.
  pose proof line_length as Hl. unfold CCH_URI_MAX in Hl. specialize (Hf ltac:(unfold INT_MAX; lia)).
  assert (Hf' : 0 <= find_word l 2 /\ drop (Z.to_nat (find_word l 2)) l = version_word v)
    by (by destruct Hv as [-> | ->]).
  destruct Hf' as [Hf0 Hf1]. rewrite (proj2 (Z.eqb_neq _ _)) by lia. rewrite Hf1.
  rewrite (proj2 (Z.ltb_ge _ _)) by (unfold CCH_VERSION_MAX; lia).
  destruct (line_word 2 (version_word v) [] (CCH_VERSION_MAX + 1))
    as (j & G2 & S2); [by rewrite app_nil_r|done|by left|done|unfold CCH_VERSION_MAX; lia|done|].
  rewrite G2. apply wp_lift_ret. cbn beta iota. rewrite S2. apply wp_lift_ret. rewrite Hvg.
  by destruct Hv as [-> | ->].
Qed.

Lemma parse_request_line_spec r w o :
  holds (read_as mktime) r w -> w (R Rq_uri) = None ->
  wp (parse_request_line stale_errno l r) o
    (stores (fun r' => method r' = m /\ version r' = v /\ defered_read r' = defered_read r /\
       holds (read_as mktime) r' (<[R Rq_uri := Some u]> w)) o).
Proof.
  intros Hr Hw. unfold parse_request_line. wp.
  eapply wp_mono; [apply parse_request_method_spec|]. intros a o' [-> ->]. wp.
  eapply wp_mono; [by apply parse_request_uri_spec; [eapply holds_frame, Hr|]|].
  intros [[e|] r1] o1 [Hst Ho]; [by split|]. destruct Hst as [(Hs1 & _ & Hs3 & _) Hr1].
  eapply wp_mono; [apply parse_request_version_spec|]. intros a o2 [-> ->]. split; [|done].
  split; [done|]. split; [done|]. split; [done|]. by eapply holds_frame, Hr1.
Qed.

End Line.

(** * Sending *)

Lemma rq_row r w f x name :
  rq_holds r (fun f => w (R f)) -> rq_flag f = Some x -> header_name (R f) = Some name ->
  row_ok r (request_flag_is_set r) w (x, send_rq f (name ++ bytes ": ")) (Some (R f)).
Proof.
  intros [Hr _] Hx Hn. pose proof (Hr f) as Hf. rewrite Hx in Hf.
  destruct Hf as (s & Hs & t & Ht & Hv & _). unfold row_ok. cbn [fst snd]. rewrite Hv.
  destruct (request_flag_is_set r x); [|done]. exists t. split; [done|].
  intros c inc out Hrep. unfold send_rq, rq_string. rewrite Hs. by apply (sends_line (R f) name s t).
Qed.

(** What can be sent: fields that carry a string both ways, with values that
    come through. *)
Definition sendable (w : contents) : Prop :=
  forall F v, w F = Some v -> F = R Rq_uri \/ is_Some (header_name F) /\ value_ok mktime F v.

Lemma sends_request r w :
  rq_holds r (fun f => w (R f)) ->
  sends (request_send_fields r) (lines_text (sent w (R <$> own_sent))).
Proof.
  intros Hh. pose proof Hh as [_ Ho].
  assert (Hoff : forall x, Z.land rq_other x = x -> request_flag_is_set r x = false).
  { intros x Hx. unfold request_flag_is_set. by rewrite (land_part _ rq_other). }
  change (R <$> own_sent) with (omap id (fmap R <$> rq_rows)).
  apply (sends_rows r (request_flag_is_set r)); [done|done|]. unfold rq_send_table.
  repeat (constructor; [match goal with
    | |- row_ok _ _ _ _ (fmap _ (Some ?f)) => exact (rq_row r w f _ _ Hh eq_refl eq_refl)
    | |- row_ok _ _ _ _ (fmap _ None) => by apply Hoff
    end|]).
  constructor.
Qed.

(** * Sending the request line *)

(** A text is appended within the capacity, or [ENOMEM]-like errors only when
    the allocator refuses. *)
Lemma add_text_spec s t0 t e k c o (Q : handled connection -> oracle -> Prop) :
  str_rep s t0 -> valid_str t -> zlen t <= 2 ^ 40 -> str_cap s <= 2 ^ 50 ->
  (forall s' o', str_rep s' (t0 ++ t) -> str_cap s' <= 2 * str_cap s + zlen t ->
     (o = [] -> o' = []) -> wp (k s') o' Q) ->
  (forall o', o <> [] -> Q (Some e, c) o') ->
  wp (add_text s t e k c) o Q.
Proof.
  intros Hs Ht Hl Hcap Hk He. unfold add_text. wp.
  eapply wp_mono; [by apply (str_concat_law s t0)|]. intros [st s'] o' (Hr & Hc & Ho).
  destruct st; cbn beta iota.
  - unfold reports. wp. apply He. intros Hoo. destruct (Ho Hoo) as [_ Hst].
    specialize (Hst ltac:(unfold PTRDIFF_MAX; lia)). done.
  - apply Hk; [done|lia|]. intros Hoo. by destruct (Ho Hoo).
Qed.

Lemma holds_uri D r w u : holds D r w -> w (R Rq_uri) = Some u -> request_get_uri r = Ret (Some u).
Proof.
  intros (_ & Hr & _) Hu. pose proof (Hr Rq_uri) as (s & Hs & t & Ht & Hv & _).
  unfold request_get_uri, rq_get. rewrite Hu in Hv.
  destruct (request_flag_is_set r REQUEST_URI_SET); [|done]. injection Hv as <-.
  unfold rq_string. rewrite Hs. cbn [res_bind].
  destruct (str_text_law s u Ht) as [Htx _]. by rewrite Htx.
Qed.

(** The three texts the line is made of. *)
Lemma request_line_pieces m u v :
  m <> METHOD_UNKNOWN -> v = VERSION_10 \/ v = VERSION_11 -> uri_ok u ->
  exists a b, method_text m = Some a /\ version_text v = Some b /\
    valid_str a /\ zlen a <= 5 /\ valid_str u /\ zlen u <= 10220 /\ valid_str b /\ zlen b = 11 /\
    request_line m u v ++ CRLF = (([] ++ a) ++ u) ++ b.
Proof.
  intros Hm Hv (Huc & _ & Hul).
  destruct (method_facts m Hm) as (Hmw & _ & Hml & _). destruct (version_facts v Hv) as (Hvw & Hvl & _).
  exists (method_word m ++ [SP]), ((SP :: version_word v) ++ CRLF).
  assert (is_char SP) by decide_closed.
  assert (Hval : forall t, Forall is_char t -> zlen t <= 20000 -> valid_str t)
    by (intros t ? ?; split; [done|unfold PTRDIFF_MAX; lia]).
  assert (Hb : zlen ((SP :: version_word v) ++ CRLF) = 11)
    by (rewrite zlen_app, zlen_cons, Hvl; done).
  split; [by destruct m|]. split; [by destruct Hv as [-> | ->]|].
  split; [|split; [zlia|split; [|split; [done|split; [|split; [done|]]]]]].
  - apply Hval; [|zlia]. apply Forall_app. split; [|by constructor].
    by eapply Forall_impl; [|exact Hmw]; intros ? [[] _].
  - apply Hval; [|lia]. by eapply Forall_impl; [|exact Huc]; intros ? [[] _].
  - apply Hval; [|lia]. apply Forall_app. split; [|decide_closed]. constructor; [done|].
    by eapply Forall_impl; [|exact Hvw]; intros ? [[] _].
  - unfold request_line. cbn [app]. rewrite <-!app_assoc. cbn [app]. by rewrite <-app_assoc.
Qed.

Lemma send_request_line_spec r w u c inc out o :
  holds sent_as r w -> w (R Rq_uri) = Some u -> method r <> METHOD_UNKNOWN ->
  (version r = VERSION_10 \/ version r = VERSION_11) -> uri_ok u ->
  Connection.rep c inc out -> reliable c ->
  wp (send_request_line r c) o (fun '(e, c') o' =>
    (e = None -> reliable c' /\
       Connection.rep c' inc (out ++ request_line (method r) u (version r) ++ CRLF)) /\
    (o = [] -> o' = [] /\ e = None)).
Proof.
  intros Hr Hu Hm Hv Huok Hrep Hrel. unfold send_request_line. wp.
  eapply wp_mono; [apply str_new_law|]. intros [s|] o1 [Hnew Ho1].
  2:{ unfold reports. wp. split; [done|]. intros ->. by destruct Ho1 as [_ [? ?]]. }
  destruct (Hnew s eq_refl) as [Hs0 Hcap0].
  destruct (request_line_pieces _ u _ Hm Hv Huok) as (a & b & Ha & Hb & Va & La & Vu & Lu & Vb & Lb & ->).
  unfold request_get_method, request_get_version. rewrite Ha, Hb.
  apply (add_text_spec s []); [done|done|lia|lia| |].
  2:{ intros o' Hne. split; [done|]. intros ->. by destruct Ho1. }
  intros s1 o2 Hs1 Hcap1 Ho2. rewrite (holds_uri sent_as r w u Hr Hu). apply wp_lift_ret.
  apply (add_text_spec s1 ([] ++ a)); [done|done|lia|lia| |].
  2:{ intros o' Hne. split; [done|]. intros ->. by destruct Hne; apply Ho2; destruct Ho1. }
  intros s2 o3 Hs2 Hcap2 Ho3.
  apply (add_text_spec s2 (([] ++ a) ++ u)); [done|done|lia|lia| |].
  2:{ intros o' Hne. split; [done|]. intros ->. by destruct Hne; apply Ho3, Ho2; destruct Ho1. }
  intros s3 o4 Hs3 Hcap3 Ho4. destruct (str_text_law s3 _ Hs3) as [-> _]. apply wp_lift_ret. wp.
  eapply wpr_mono; [by apply connection_write_spec|]. intros [st c1] (_ & Hrel1 & Hrep1).
  destruct (Hrel1 Hrel) as [-> Hrel2]. unfold done. wp. split.
  - intros _. split; [done|]. by apply Hrep1.
  - intros Hoo. split; [|done]. destruct (Ho1 Hoo) as [H1 _]. auto.
Qed.

(** * The round trip *)

Definition request_text (m : http_method) (u : list Z) (v : http_version) (w : contents) : list Z :=
  request_line m u v ++ CRLF ++ lines_text (sent w fields) ++ CRLF.

Lemma sendable_unset w F : sendable w -> header_name F = None -> F <> R Rq_uri -> w F = None.
Proof.
  intros Hw Hn Hu. destruct (w F) as [v|] eqn:HF; [|done].
  destruct (Hw F v HF) as [?|[[? ?] _]]; congruence.
Qed.

Lemma request_send_spec r w u c inc out o :
  holds sent_as r w -> sendable w -> w (R Rq_uri) = Some u -> uri_ok u -> method r <> METHOD_UNKNOWN ->
  (version r = VERSION_10 \/ version r = VERSION_11) -> Connection.rep c inc out -> reliable c ->
  wp (request_send r c) o (fun '(st, e, c') o' =>
    (st = success -> Gensocket.outbox (cn_sock c') = out ++ request_text (method r) u (version r) w /\
       Connection.rep c' inc (out ++ request_text (method r) u (version r) w)) /\
    (o = [] -> o' = [] /\ st = success)).
Proof.
  intros Hr Hw Hu Huok Hm Hv Hrep Hrel. unfold request_send. wp.
  eapply wp_mono; [by eapply send_request_line_spec|]. intros [[e|] c1] o1 [Hline Ho1]; wp.
  { split; [done|]. intros Hoo. by destruct (Ho1 Hoo). }
  destruct (Hline eq_refl) as [Hrel1 Hrep1]. pose proof Hr as [[Hg He] Hrq].
  assert (Hfields : sends (general_header_send_fields (rq_general r) &&>
      entity_header_send_fields (rq_entity r) &&> request_send_fields r &&> http_send_string CRLF)
      (lines_text (sent w fields) ++ CRLF)).
  { unfold fields. rewrite !sent_app, !lines_text_app, <-!app_assoc.
    apply sends_then; [by apply sends_general, sendable_unset|].
    apply sends_then; [by apply sends_entity, sendable_unset|].
    apply sends_then; [by apply sends_request|apply sends_string]. }
  rewrite (and_then_ext _ _ ((entity_header_send_fields (rq_entity r) &&> request_send_fields r &&>
    http_send_string CRLF) &&> connection_flush)), and_then_assoc.
  2:{ intros c0. rewrite <-and_then_assoc. apply and_then_ext. intros c2.
      rewrite <-and_then_assoc. done. }
  unfold and_then at 1. wp.
  eapply wpr_mono; [by apply Hfields|]. intros [st c2] (_ & Hrel2 & Hrep2).
  destruct (Hrel2 Hrel1) as [-> Hrel3]. specialize (Hrep2 eq_refl). cbn beta iota.
  eapply wpr_mono; [by apply connection_flush_spec|]. intros [st c3] (_ & Hrel4 & Hflush).
  destruct (Hrel4 Hrel3) as [-> _]. destruct (Hflush eq_refl) as (Hrep3 & Hout & _). wp.
  split; [|intros Hoo; by destruct (Ho1 Hoo)]. intros _. rewrite Hout. unfold request_text. rewrite <-!app_assoc in *. by split.
Qed.

Lemma holds_ext D r w w' : (forall F, w F = w' F) -> holds D r w -> holds D r w'.
Proof.
  intros Heq [Hh Hr]. split; [by eapply headers_hold_ext|].
  eapply rq_holds_ext; [|exact Hr]. intros f. apply Heq.
Qed.

(** Everything the receiver stores is what the sender had. *)
Lemma stored_contents w u F :
  sendable w -> w (R Rq_uri) = Some u ->
  store_all (sent w fields) (<[R Rq_uri := Some u]> no_contents) F = w F.
Proof.
  intros Hw Hu. rewrite store_sent, insert_field by apply fields_nodup.
  destruct (decide (F ∈ fields)) as [Hin|Hin].
  - destruct (w F); [done|]. rewrite decide_False; [done|]. intros ->.
    by apply fields_named in Hin as [? ?].
  - destruct (decide (F = R Rq_uri)) as [->|Hne]; [done|]. symmetry. apply sendable_unset; try done.
    destruct (header_name F) eqn:HF; [|done]. destruct Hin. apply fields_named. by eexists.
Qed.

Lemma read_request_line_spec m u v r c w rest out o :
  m <> METHOD_UNKNOWN -> uri_ok u -> v = VERSION_10 \/ v = VERSION_11 ->
  holds (read_as mktime) r w -> w (R Rq_uri) = None ->
  Connection.rep c (request_line m u v ++ CRLF ++ rest) out ->
  wp (read_request_line stale_errno (r, c)) o
    (stores (fun '(r', c') => method r' = m /\ version r' = v /\ defered_read r' = defered_read r /\
       holds (read_as mktime) r' (<[R Rq_uri := Some u]> w) /\ Connection.rep c' rest out /\
       Connection.reads c c') o).
Proof.
  intros Hm Hu Hv Hr Hw Hrep. unfold read_request_line. wp.
  pose proof (line_length m u v Hm Hu Hv) as Hl. unfold CCH_URI_MAX in Hl.
  eapply wp_mono; [apply (get_line_spec CCH_REQUESTLINE_MAX _ r c _ _ out o Hrep);
    [by apply line_chars|unfold CCH_REQUESTLINE_MAX; rewrite zlen_replicate; lia]|].
  intros [[e l] s] o' (-> & -> & -> & c' & -> & Hrep' & Hp). cbn beta iota. wp.
  eapply wp_mono; [by apply (parse_request_line_spec m u v Hm Hu Hv r w)|].
  intros [[e|] r1] o1 [Hst Ho]; wp; [by split|]. split; [|done].
  destruct Hst as (? & ? & ? & ?). repeat (split; [done|]). done.
Qed.

(** What receiving does to the connection besides reading. *)
Definition listened (v : http_version) (c c' : connection) : Prop :=
  persistent c' = bool_decide (v = VERSION_11) || persistent c /\
  writebuf c' = writebuf c /\ Gensocket.answers (cn_sock c') = Gensocket.answers (cn_sock c).

Lemma request_receive_spec m u v w r c rest out fuel max o :
  m <> METHOD_UNKNOWN -> v = VERSION_10 \/ v = VERSION_11 -> uri_ok u ->
  sendable w -> w (R Rq_uri) = Some u ->
  holds (read_as mktime) r no_contents -> Connection.rep c (request_text m u v w ++ rest) out ->
  (m = METHOD_POST -> defered_read r = true) -> (length fields < fuel)%nat ->
  wp (request_receive mktime stale_errno fuel max (r, c)) o
    (stores (fun '(r', c') => method r' = m /\ version r' = v /\ holds (read_as mktime) r' w /\
       Connection.rep c' rest out /\ listened v c c') o).
Proof.
  intros Hm Hv Huok Hw Hu Hr Hrep Hdef Hfuel. unfold request_receive. wp.
  unfold request_text in Hrep. rewrite <-!app_assoc in Hrep.
  eapply wp_mono; [by apply (read_request_line_spec m u v r c no_contents)|].
  intros [[e|] [r1 c1]] o1 [Hst Ho1]; [by split|].
  destruct Hst as (Hm1 & Hv1 & Hd1 & Hr1 & Hrep1 & Hp1). wp.
  set (c2 := match request_get_version r1 with
    | VERSION_11 => connection_set_persistent true c1 | _ => c1 end).
  assert (Hc2 : Connection.rep c2 (lines_text (sent w fields) ++ CRLF ++ rest) out /\
    listened v c c2).
  { unfold c2, request_get_version, listened. rewrite Hv1. destruct Hp1 as (Hp1 & Hw1 & Ha1 & _).
    by destruct Hv as [-> | ->]. }
  destruct Hc2 as [Hrep2 Hp2].
  eapply wp_mono; [apply (read_fields_spec mktime (parse_request_headerfield mktime) (holds (read_as mktime)) same false)
    with (w := <[R Rq_uri := Some u]> no_contents) (ls := sent w fields) (rest := rest) (out := out); try done|].
  - intros. apply handle_field; auto.
  - apply list.Forall_forall. intros l [Hin Hl]%sent_elem. apply fields_named in Hin.
    split; [done|]. destruct (Hw l.1 l.2 Hl) as [Huri|[_ ?]]; [|done].
    rewrite Huri in Hin. by destruct Hin.
  - apply sent_nodup, fields_nodup.
  - intros _ F ([F' v'] & -> & Hl)%list_elem_of_fmap. apply sent_elem in Hl as [Hin _].
    apply fields_named in Hin. rewrite insert_field, decide_False; [done|].
    intros Heq. rewrite Heq in Hin. by destruct Hin.
  - pose proof (sent_length w fields). lia.
  - intros [[e|] [r2 c3]] o2 [Hst Ho2].
    { wp. split; [|auto]. destruct Hst as [-> Hne]. split; [done|]. intros Hoo. apply Hne. auto. }
    destruct Hst as ((Hm2 & Hv2 & Hd2 & _) & Hr2 & Hrep3 & Hp3). wp.
    assert (Hfin : stores (fun '(r', c') => method r' = m /\ version r' = v /\ holds (read_as mktime) r' w /\
      Connection.rep c' rest out /\ listened v c c') o
      (None, (r2, c3)) o2).
    { split; [|by auto]. split; [congruence|]. split; [congruence|].
      destruct Hp2 as (Hp2 & Hw2 & Ha2), Hp3 as (Hp3 & Hw3 & Ha3 & _).
      split; [|split; [done|by split_and!; etrans]].
      eapply holds_ext; [|exact Hr2]. intros F. by apply stored_contents. }
    unfold request_get_method, request_get_defered_read. rewrite Hm2, Hm1, Hd2, Hd1.
    destruct m; try exact Hfin. by rewrite (Hdef eq_refl).
Qed.

(** * Recycling *)

(** The members, whether they are set or not. *)
Definition rq_kept (r : http_request) : Prop :=
  forall f, rq_flag f <> None -> exists s isset v, rq_str r f = Some s /\ kept false isset s v.

Lemma rq_recycle_spec f r :
  rq_kept r -> rq_flag f <> None ->
  wpr (rq_recycle f r) (fun r' => rq_kept r' /\ rq_general r' = rq_general r /\ rq_entity r' = rq_entity r /\
    (exists s, rq_str r' f = Some s /\ forall b, kept b false s None) /\
    forall g, g <> f -> rq_str r' g = rq_str r g).
Proof.
  intros Hk Hf. destruct (Hk f Hf) as (s & isset & v & Hs & Hkept).
  unfold rq_recycle, rq_string. rewrite Hs. wp. eapply wpr_mono; [by eapply kept_recycled|].
  intros s' Hs'. wp. split; [|split; [done|split; [done|split]]].
  - intros g Hg. cbn. case_decide; [by exists s', false, None|by apply Hk].
  - exists s'. cbn. by rewrite decide_True.
  - intros g Hg. cbn. by rewrite decide_False.
Qed.

Lemma request_recycle_spec D D' r w :
  holds D r w -> wpr (request_recycle r) (fun r' => holds D' r' no_contents).
Proof.
  intros [Hh [Hr Ho]].
  assert (Hk0 : rq_kept (with_cookies None (with_params None r))).
  { intros f Hf. specialize (Hr f). destruct (rq_flag f) as [x|]; [|done].
    destruct Hr as (s & Hs & t & Ht & _ & Hc & _). exists s, true, (Some t). split; [done|]. exists t. by split_and!. }
  assert (Hplain : forall f x, rq_flag f = Some x -> appends f = false ->
    exists s, rq_str (with_cookies None (with_params None r)) f = Some s /\ kept false false s None).
  { intros f x Hx Ha. specialize (Hr f). rewrite Hx in Hr. destruct Hr as (s & Hs & Hkept). exists s.
    split; [done|]. rewrite Ha in Hkept. eapply kept_cleared; [|done].
    destruct (request_flag_is_set r x); [by left|by right]. }
  assert (Hh0 : headers_hold D (rq_general (with_cookies None (with_params None r)))
    (rq_entity (with_cookies None (with_params None r))) w) by done.
  unfold request_recycle. revert Hk0 Hplain Hh0. generalize (with_cookies None (with_params None r)). clear r Hh Hr Ho.
  intros r Hk Hplain Hh.
  wp. eapply wpr_mono; [by apply rq_recycle_spec|]. intros r1 (Hk1 & Hg1 & He1 & Ha1 & Ho1).
  wp. eapply wpr_mono; [by apply rq_recycle_spec|]. intros r2 (Hk2 & Hg2 & He2 & Ha2 & Ho2).
  wp. eapply wpr_mono; [by apply rq_recycle_spec|]. intros r3 (Hk3 & Hg3 & He3 & Ha3 & Ho3).
  wp. eapply wpr_mono; [by apply rq_recycle_spec|]. intros r4 (Hk4 & Hg4 & He4 & Ha4 & Ho4).
  wp. eapply wpr_mono; [by apply rq_recycle_spec|]. intros r5 (Hk5 & Hg5 & He5 & Ha5 & Ho5).
  wp. cbn [rq_general rq_entity with_general].
  rewrite Hg5, Hg4, Hg3, Hg2, Hg1, He5, He4, He3, He2, He1.
  eapply wpr_mono; [exact (headers_recycled D D' _ _ w Hh)|]. intros eh' Hh'. wp.
  split; [exact Hh'|]. split; [|done]. intros f.
  change (rq_str _ f) with (rq_str r5 f).
  destruct (rq_flag f) as [x|] eqn:Hx; [|done].
  change (request_flag_is_set _ x) with false.
  destruct (appends f) eqn:Ha.
  - destruct f; try discriminate Ha.
    + rewrite Ho5, Ho4, Ho3, Ho2 by done. destruct Ha1 as (s & -> & Hs). by exists s.
    + rewrite Ho5, Ho4, Ho3 by done. destruct Ha2 as (s & -> & Hs). by exists s.
    + rewrite Ho5, Ho4 by done. destruct Ha3 as (s & -> & Hs). by exists s.
    + rewrite Ho5 by done. destruct Ha4 as (s & -> & Hs). by exists s.
    + destruct Ha5 as (s & -> & Hs). by exists s.
  - rewrite Ho5, Ho4, Ho3, Ho2, Ho1 by (by intros ->). by eapply Hplain.
Qed.

(** C1. A request that is sent arrives: for every method and version, every URI
    without parameters and every set of string fields whose values come through
    (no carriage return, no leading space, no comma in the fields that are
    lists), under any behaviour of the allocator on either side, what
    [request_send] puts on the wire is the text of the request, and from a
    stream that starts with it [request_receive] makes a request with the same
    method, version, URI and fields and leaves the rest of the stream.  The only
    error is [ENOMEM], and there is none when the allocator does not refuse. *)
Theorem request_roundtrip m u v w r1 c1 inc1 out1 r2 c2 rest out2 fuel max o :
  m <> METHOD_UNKNOWN -> v = VERSION_10 \/ v = VERSION_11 -> uri_ok u ->
  sendable w -> w (R Rq_uri) = Some u ->
  holds sent_as r1 w -> method r1 = m -> version r1 = v -> Connection.rep c1 inc1 out1 -> reliable c1 ->
  holds (read_as mktime) r2 no_contents -> Connection.rep c2 (request_text m u v w ++ rest) out2 ->
  (m = METHOD_POST -> defered_read r2 = true) -> (length fields < fuel)%nat ->
  wp (request_send r1 c1) o (fun '(st, _, c1') _ =>
    (st = success -> Gensocket.outbox (cn_sock c1') = out1 ++ request_text m u v w) /\
    (o = [] -> st = success)) /\
  wp (request_receive mktime stale_errno fuel max (r2, c2)) o (fun '(e, (r2', c2')) _ =>
    match e with
    | Some e => e = Os_error ENOMEM /\ o <> []
    | None => method r2' = m /\ version r2' = v /\ holds (read_as mktime) r2' w /\
        Connection.rep c2' rest out2 /\
        persistent c2' = bool_decide (v = VERSION_11) || persistent c2
    end).
Proof.
  intros Hm Hv Hu Hw Hwu Hr1 <- <- Hrep1 Hrel Hr2 Hrep2 Hdef Hfuel. split.
  - eapply wp_mono; [by eapply request_send_spec|]. intros [[st e] c'] o' [Hst Ho].
    split; [|intros Hoo; by destruct (Ho Hoo)]. intros Hs. by apply Hst.
  - eapply wp_mono; [by eapply request_receive_spec|]. intros [[e|] [r' c']] o' [H1 _]; [done|].
    destruct H1 as (? & ? & ? & ? & ? & _). by split_and!.
Qed.

End Props.

(** * Witness *)

Definition sample_contents : contents := fun F =>
  match F with
  | R Rq_uri => Some (bytes "/index.html")
  | R Rq_host => Some (bytes "example.org")
  | R Rq_accept => Some (bytes "text/html")
  | G Gh_via => Some (bytes "1.1 proxy")
  | Date => Some (rfc822_text nov_11)
  | E Eh_content_type => Some (bytes "text/plain")
  | _ => None
  end.

Definition sample_string (F : field) : cstring :=
  match sample_contents F with Some t => string_with t | None => Cstring.fresh end.

Definition sample_request : http_request :=
  Request METHOD_GET VERSION_11 false
    (GH (Z.lor GENERAL_HEADER_VIA_SET GENERAL_HEADER_DATE_SET) 0 0 0 0 nov_11 (fun f => sample_string (G f)))
    (EH ENTITY_HEADER_CONTENT_TYPE_SET 0 0 0 (fun f => sample_string (E f)))
    (Z.lor REQUEST_URI_SET (Z.lor REQUEST_HOST_SET REQUEST_ACCEPT_SET))
    (fun f => if decide (f = Rq_proxy_authorization) then None else Some (sample_string (R f)))
    None None None 0 0 0.

Lemma sample_string_rep F : Cstring.rep (sample_string F) (default [] (sample_contents F)).
Proof.
  destruct F as [[]|[]|[]| | | |]; first [exact rep_fresh | apply string_with_rep; reflexivity].
Qed.

Lemma sample_holds : holds sent_as sample_request sample_contents.
Proof.
  split; [split|].
  - split; [|by intros []]. exists (Some nov_11). split; [|reflexivity].
    split; [|by split; [intros []|split; [intros []|]]].
    intros f. exists (default [] (sample_contents (G f))).
    split; [exact (sample_string_rep (G f))|by destruct f].
  - split; [|done]. intros f. exists (default [] (sample_contents (E f))).
    split; [exact (sample_string_rep (E f))|]. split; [by destruct f|].
    split; [by destruct f|done].
  - split; [|done]. intros f. destruct (rq_flag f) as [x|] eqn:Hx; [|by destruct f].
    exists (sample_string (R f)). split; [by destruct f|]. exists (default [] (sample_contents (R f))).
    split; [exact (sample_string_rep (R f))|].
    by destruct f; (discriminate Hx || injection Hx as <-).
Qed.

Lemma sample_sendable : sendable 0 sample_contents.
Proof.
  intros F v HF. destruct F as [[]|[]|[]| | | |]; try discriminate HF; injection HF as <-;
    first [by left | right; split; [by eexists|]; split; [decide_closed|]];
    (split; [done|]; split; [done|]; split; [first [discriminate|intros; decide_closed]|]);
    first [exact I | eexists; split; [vm_compute; reflexivity|discriminate]].
Qed.

Lemma blank_holds D : holds D blank_request no_contents.
Proof.
  split; [split|].
  - split; [|done]. exists None. split; [|done]. split; [|by split; [intros []|split; [intros []|]]].
    intros f. exists []. by split; [exact rep_fresh|destruct f].
  - split; [|done]. intros f. exists []. split; [exact rep_fresh|]. by destruct f.
  - split; [|done]. intros f. destruct (rq_flag f) as [x|] eqn:Hx; [|done].
    exists Cstring.fresh. split; [by destruct f|]. exists []. split; [exact rep_fresh|].
    by destruct f; (discriminate Hx || injection Hx as <-).
Qed.

Definition sample_text : list Z :=
  request_text METHOD_GET (bytes "/index.html") VERSION_11 sample_contents.

Lemma request_roundtrip_witness :
  wp (request_send sample_request (fresh_conn 4096 1 [] [])) [] (fun '(st, _, c1') _ =>
    (st = success -> Gensocket.outbox (cn_sock c1') = [] ++ sample_text) /\
    (([] : oracle) = [] -> st = success)) /\
  wp (request_receive (HttpDate.mktime 0) EIO 50 0
        (blank_request, fresh_conn 4096 1 [Arrives sample_text] [])) []
    (fun '(e, (r2', c2')) _ =>
      match e with
      | Some e => e = Os_error ENOMEM /\ ([] : oracle) <> []
      | None => method r2' = METHOD_GET /\ version r2' = VERSION_11 /\ holds (read_as (HttpDate.mktime 0)) r2' sample_contents /\
          Connection.rep c2' [] [] /\
          persistent c2' = bool_decide (VERSION_11 = VERSION_11) || false
      end).
Proof.
  apply (request_roundtrip 0 EIO METHOD_GET (bytes "/index.html") VERSION_11 sample_contents
    sample_request (fresh_conn 4096 1 [] []) [] []
    blank_request (fresh_conn 4096 1 [Arrives sample_text] []) [] [] 50 0 []).
  - done.
  - by right.
  - split; [unfold on_line; decide_closed|]. split; [done|]. unfold zlen. simpl. lia.
  - apply sample_sendable.
  - done.
  - apply sample_holds.
  - done.
  - done.
  - apply (fresh_rep 4096 1 [] []); [lia|done].
  - done.
  - apply blank_holds.
  - rewrite app_nil_r. apply (fresh_rep 4096 1 [Arrives sample_text] []); [lia|done].
  - done.
  - apply Nat.ltb_lt. vm_compute. reflexivity.
Defined.
