(* ===== verification/Response.v ===== *)
(** Response: the HTTP response of http/src/response.c and the status lines of
    http/src/send_status_code.c.

    The strings of the struct are a function from an enumeration of its members.
    The buffer a page sets is a block of memory.  The clock, [mktime] and the file
    system are parameters: what [stat] says of a file, and what the calls of
    [read] return one after the other, up to the first that returns nothing.
    Failures that leave the error object alone are a failure without an error. *)

From Stdlib Require Import ZArith Lia.
From stdpp Require Import base list numbers.
From S2P Require Import Prelude Convert Cstring MetaMisc Connection HttpBase HttpDate HeaderLines.
From S2P Require Import GeneralHeader EntityHeader Cookies.

(** * Constants *)

Definition CCH_STATUSLINE_MAX : Z := 256.

Definition ACCEPT_RANGES : Z := 0x1.
Definition AGE : Z := 0x2.
Definition CONTENT_LENGTH : Z := 0x80.
Definition ETAG : Z := 0x2000.
Definition LOCATION : Z := 0x10000.
Definition PROXY_AUTHENTICATE : Z := 0x40000.
Definition RETRY_AFTER : Z := 0x80000.
Definition SERVER : Z := 0x100000.
Definition VARY : Z := 0x1000000.
Definition WWW_AUTHENTICATE : Z := 0x2000000.

Inductive rs_field : Set :=
| Rs_server | Rs_entity | Rs_etag | Rs_location | Rs_proxy_authenticate | Rs_vary
| Rs_www_authenticate | Rs_path.

#[export] Instance rs_field_eq_dec : EqDecision rs_field.
Proof. solve_decision. Defined.

(** * Status lines *)

Definition status10 (code : Z) (text : list Z) : Z * list Z := (code, bytes "HTTP/1.0 " ++ text ++ CRLF).
Definition status11 (code : Z) (text : list Z) : Z * list Z := (code, bytes "HTTP/1.1 " ++ text ++ CRLF).

Definition m_http_status10 : list (Z * list Z) :=
  [ status10 200 (bytes "200 OK");
    status10 201 (bytes "201 Created");
    status10 202 (bytes "202 Accepted");
    status10 204 (bytes "204 No Content");
    status10 205 (bytes "205 Reset Content");
    status10 206 (bytes "206 Partial Content");
    status10 301 (bytes "301 Moved Permanently");
    status10 302 (bytes "302 Found");
    status10 304 (bytes "304 Not Modified");
    status10 400 (bytes "400 Bad Request");
    status10 401 (bytes "401 Unauthorized");
    status10 403 (bytes "403 Forbidden");
    status10 404 (bytes "404 Not Found");
    status10 500 (bytes "500 Internal Server Error");
    status10 501 (bytes "501 Not Implemented");
    status10 502 (bytes "502 Bad Gateway");
    status10 503 (bytes "503 Service Unavailable") ].

Definition m_http_status11 : list (Z * list Z) :=
  [ status11 100 (bytes "100 Continue");
    status11 101 (bytes "101 Switching Protocols");
    status11 200 (bytes "200 OK");
    status11 201 (bytes "201 Created");
    status11 202 (bytes "202 Accepted");
    status11 203 (bytes "203 Non-Authorative Information");
    status11 204 (bytes "204 No Content");
    status11 205 (bytes "205 Reset Content");
    status11 206 (bytes "206 Partial Content");
    status11 300 (bytes "300 Multiple Choices");
    status11 301 (bytes "301 Moved Permanently");
    status11 302 (bytes "302 Found");
    status11 303 (bytes "303 See Other");
    status11 304 (bytes "304 Not Modified");
    status11 305 (bytes "305 Use Proxy");
    status11 307 (bytes "307 Temporary Redirect");
    status11 400 (bytes "400 Bad Request");
    status11 401 (bytes "401 Unauthorized");
    status11 402 (bytes "402 Payment Required");
    status11 403 (bytes "403 Forbidden");
    status11 404 (bytes "404 Not Found");
    status11 405 (bytes "405 Method Not Allowed");
    status11 406 (bytes "406 Not Acceptable");
    status11 407 (bytes "407 Proxy Authentication Required");
    status11 408 (bytes "408 Request Time-out");
    status11 409 (bytes "409 Conflict");
    status11 410 (bytes "410 Gone");
    status11 411 (bytes "411 Length Required");
    status11 412 (bytes "412 Precondition Failed");
    status11 413 (bytes "413 Request Entity Too Large");
    status11 414 (bytes "414 Request-URI Too Large");
    status11 415 (bytes "415 Unsupported Media Type");
    status11 416 (bytes "416 Requested range not satisfiable");
    status11 417 (bytes "417 Expectation Failed");
    status11 500 (bytes "500 Internal Server Error");
    status11 501 (bytes "501 Not Implemented");
    status11 502 (bytes "502 Bad Gateway");
    status11 503 (bytes "503 Service Unavailable");
    status11 504 (bytes "504 Gateway time-out");
    status11 505 (bytes "505 HTTP Version not supported") ].

Fixpoint find_status (l : list (Z * list Z)) (status_code : Z) : option (list Z) :=
  match l with
  | [] => None
  | (code, text) :: l => if code =? status_code then Some text else find_status l status_code
  end.

Definition send_status_code (status_code : Z) (version : http_version) : writer := fun c =>
  let pstatus := if decide (version = VERSION_10) then m_http_status10 else m_http_status11 in
  match find_status pstatus status_code with
  | Some text => connection_write c text
  | None => Ret (failure, c)
  end.

Section Response.
Context `{STRINGS}.
Variable mktime : tm -> Z.
(** What [time] returns. *)
Variable now : Z.
(** The size [stat] finds; what the calls of [read] return. *)
Variable file_size : list Z -> option Z.
Variable file_reads : list Z -> option (list (list Z)).

(** * Data *)

Record http_response : Type := Response {
  rs_version : http_version;
  rs_status : Z;
  rs_general : general_header;
  rs_entity_header : entity_header;
  rs_flags : Z;
  rs_str : rs_field -> str;
  age : Z;
  accept_ranges : Z;
  retry_after : Z;
  rs_cookies : option (list cookie);
  content_buffer : option block;
  content_buffer_in_use : bool;
  content_free_when_done : bool;
  send_file : bool;
}.

Definition rs_with_general (gh : general_header) (r : http_response) : http_response :=
  Response (rs_version r) (rs_status r) gh (rs_entity_header r) (rs_flags r) (rs_str r) (age r)
    (accept_ranges r) (retry_after r) (rs_cookies r) (content_buffer r) (content_buffer_in_use r)
    (content_free_when_done r) (send_file r).
Definition rs_with_entity (eh : entity_header) (r : http_response) : http_response :=
  Response (rs_version r) (rs_status r) (rs_general r) eh (rs_flags r) (rs_str r) (age r)
    (accept_ranges r) (retry_after r) (rs_cookies r) (content_buffer r) (content_buffer_in_use r)
    (content_free_when_done r) (send_file r).
Definition rs_with_flags (fl : Z) (r : http_response) : http_response :=
  Response (rs_version r) (rs_status r) (rs_general r) (rs_entity_header r) fl (rs_str r) (age r)
    (accept_ranges r) (retry_after r) (rs_cookies r) (content_buffer r) (content_buffer_in_use r)
    (content_free_when_done r) (send_file r).
Definition rs_with_str (f : rs_field) (s : str) (r : http_response) : http_response :=
  Response (rs_version r) (rs_status r) (rs_general r) (rs_entity_header r) (rs_flags r)
    (fun g => if decide (g = f) then s else rs_str r g) (age r)
    (accept_ranges r) (retry_after r) (rs_cookies r) (content_buffer r) (content_buffer_in_use r)
    (content_free_when_done r) (send_file r).
Definition rs_with_numbers (a ranges retry : Z) (r : http_response) : http_response :=
  Response (rs_version r) (rs_status r) (rs_general r) (rs_entity_header r) (rs_flags r) (rs_str r) a
    ranges retry (rs_cookies r) (content_buffer r) (content_buffer_in_use r)
    (content_free_when_done r) (send_file r).
Definition rs_with_cookies (l : option (list cookie)) (r : http_response) : http_response :=
  Response (rs_version r) (rs_status r) (rs_general r) (rs_entity_header r) (rs_flags r) (rs_str r) (age r)
    (accept_ranges r) (retry_after r) l (content_buffer r) (content_buffer_in_use r)
    (content_free_when_done r) (send_file r).
Definition rs_with_buffer (b : option block) (in_use free_when_done : bool) (r : http_response)
    : http_response :=
  Response (rs_version r) (rs_status r) (rs_general r) (rs_entity_header r) (rs_flags r) (rs_str r) (age r)
    (accept_ranges r) (retry_after r) (rs_cookies r) b in_use free_when_done (send_file r).
Definition rs_with_file (flag : bool) (r : http_response) : http_response :=
  Response (rs_version r) (rs_status r) (rs_general r) (rs_entity_header r) (rs_flags r) (rs_str r) (age r)
    (accept_ranges r) (retry_after r) (rs_cookies r) (content_buffer r) (content_buffer_in_use r)
    (content_free_when_done r) flag.

Definition response_set_version (r : http_response) (v : http_version) : http_response :=
  Response v (rs_status r) (rs_general r) (rs_entity_header r) (rs_flags r) (rs_str r) (age r)
    (accept_ranges r) (retry_after r) (rs_cookies r) (content_buffer r) (content_buffer_in_use r)
    (content_free_when_done r) (send_file r).
Definition response_set_status (r : http_response) (status : Z) : http_response :=
  Response (rs_version r) status (rs_general r) (rs_entity_header r) (rs_flags r) (rs_str r) (age r)
    (accept_ranges r) (retry_after r) (rs_cookies r) (content_buffer r) (content_buffer_in_use r)
    (content_free_when_done r) (send_file r).

Definition response_set_flag (r : http_response) (flag : Z) : http_response :=
  rs_with_flags (Z.lor (rs_flags r) flag) r.
Definition response_flag_isset (r : http_response) (flag : Z) : bool :=
  negb (Z.land (rs_flags r) flag =? 0).
Definition response_clear_flags (r : http_response) : http_response := rs_with_flags 0 r.

Definition response_get_general_header (r : http_response) : general_header := rs_general r.
Definition response_get_entity_header (r : http_response) : entity_header := rs_entity_header r.
Definition response_get_status (r : http_response) : Z := rs_status r.

(** * Strings *)

Definition rs_set (f : rs_field) (flag : Z) (r : http_response) (value : list Z)
    : C (status * http_response) :=
  let* (st, s) := str_set (rs_str r f) value in
  let r := rs_with_str f s r in
  ret (match st with
       | failure => (failure, r)
       | success => (success, response_set_flag r flag)
       end).

Definition response_set_etag := rs_set Rs_etag ETAG.
Definition response_set_location := rs_set Rs_location LOCATION.
Definition response_set_proxy_authenticate := rs_set Rs_proxy_authenticate PROXY_AUTHENTICATE.
Definition response_set_server := rs_set Rs_server SERVER.
Definition response_set_vary := rs_set Rs_vary VARY.
Definition response_set_www_authenticate := rs_set Rs_www_authenticate WWW_AUTHENTICATE.

(** A call on one of the two headers. *)
Definition on_general (set : general_header -> list Z -> C (status * general_header))
    (r : http_response) (value : list Z) : C (status * http_response) :=
  let* (st, gh) := set (rs_general r) value in ret (st, rs_with_general gh r).
Definition on_entity (set : entity_header -> list Z -> C (status * entity_header))
    (r : http_response) (value : list Z) : C (status * http_response) :=
  let* (st, eh) := set (rs_entity_header r) value in ret (st, rs_with_entity eh r).

Definition response_set_connection := on_general general_header_set_connection.
Definition response_set_pragma := on_general general_header_set_pragma.
Definition response_set_trailer := on_general general_header_set_trailer.
Definition response_set_transfer_encoding := on_general general_header_set_transfer_encoding.
Definition response_set_upgrade := on_general general_header_set_upgrade.
Definition response_set_via := on_general general_header_set_via.
Definition response_set_warning := on_general general_header_set_warning.

Definition response_set_allow := on_entity entity_header_set_allow.
Definition response_set_content_encoding := on_entity entity_header_set_content_encoding.
Definition response_set_content_type := on_entity entity_header_set_content_type.
Definition response_set_content_location := on_entity entity_header_set_content_location.
Definition response_set_content_md5 := on_entity entity_header_set_content_md5.
Definition response_set_content_range := on_entity entity_header_set_content_range.
Definition response_set_content_language (r : http_response) (value : list Z)
    : C (handled http_response) :=
  let* (e, eh) := entity_header_set_content_language (rs_entity_header r) value in
  ret (e, rs_with_entity eh r).

Definition response_get_connection (r : http_response) : res (list Z) :=
  general_header_get_connection (rs_general r).

(** * Numbers and flags *)

Definition response_set_age (r : http_response) (value : Z) : http_response :=
  response_set_flag (rs_with_numbers value (accept_ranges r) (retry_after r) r) AGE.
Definition response_set_accept_ranges (r : http_response) (value : Z) : res http_response :=
  r_assert ((value =? 0) || (value =? 1));;
  Ret (response_set_flag (rs_with_numbers (age r) value (retry_after r) r) ACCEPT_RANGES).
Definition response_set_retry_after (r : http_response) (value : Z) : res http_response :=
  r_assert (negb (value =? 0));;
  Ret (response_set_flag (rs_with_numbers (age r) (accept_ranges r) value r) RETRY_AFTER).

Definition response_set_date (r : http_response) (value : Z) : res http_response :=
  let+ gh := general_header_set_date (rs_general r) value in Ret (rs_with_general gh r).

Definition response_set_cachecontrol_public (r : http_response) : http_response :=
  rs_with_general (general_header_set_public (rs_general r)) r.
Definition response_set_cachecontrol_private (r : http_response) : http_response :=
  rs_with_general (general_header_set_private (rs_general r)) r.
Definition response_set_cachecontrol_no_cache (r : http_response) : http_response :=
  rs_with_general (general_header_set_no_cache (rs_general r)) r.
Definition response_set_cachecontrol_no_store (r : http_response) : http_response :=
  rs_with_general (general_header_set_no_store (rs_general r)) r.
Definition response_set_cachecontrol_no_transform (r : http_response) : http_response :=
  rs_with_general (general_header_set_no_transform (rs_general r)) r.
Definition response_set_cachecontrol_must_revalidate (r : http_response) : http_response :=
  rs_with_general (general_header_set_must_revalidate (rs_general r)) r.
Definition response_set_cachecontrol_proxy_revalidate (r : http_response) : http_response :=
  rs_with_general (general_header_set_proxy_revalidate (rs_general r)) r.
Definition response_set_cachecontrol_max_age (r : http_response) (value : Z) : http_response :=
  rs_with_general (general_header_set_max_age (rs_general r) value) r.
Definition response_set_cachecontrol_s_maxage (r : http_response) (value : Z) : http_response :=
  rs_with_general (general_header_set_s_maxage (rs_general r) value) r.

Definition response_set_content_length (r : http_response) (value : Z) : http_response :=
  rs_with_entity (entity_header_set_content_length (rs_entity_header r) value) r.
Definition response_set_expires (r : http_response) (value : Z) : http_response :=
  rs_with_entity (entity_header_set_expires (rs_entity_header r) value) r.
Definition response_set_last_modified (r : http_response) (value : Z) : http_response :=
  rs_with_entity (entity_header_set_last_modified (rs_entity_header r) value) r.

(** * Construction *)

Definition sizeof_response : Z := 152.
Definition sizeof_list_header : Z := 24.

(** [list_new] *)
Definition new_cookies : C (option (list cookie)) :=
  let* ok := alloc_ok sizeof_list_header in ret (if ok : bool then Some [] else None).

(** The two defaults at the end of [response_new]. *)
Definition set_defaults (r : http_response) : C (option http_response) :=
  let* (st, r) := response_set_content_type r (bytes "text/html") in
  match st with
  | failure => ret None
  | success =>
      let* (st, r) := response_set_server r (bytes "chopped") in
      ret (match st with failure => None | success => Some r end)
  end.

Definition response_new : C (option http_response) :=
  let* ok := alloc_ok sizeof_response in
  if negb ok then ret None
  else
    let* gh := general_header_new in
    match gh with
    | None => ret None
    | Some gh =>
        let* eh := entity_header_new in
        match eh with
        | None => ret None
        | Some eh =>
            let* strings := new_strings 8 in
            match strings with
            | Some [etag; location; proxy_authenticate; server; vary; www_authenticate; entity; path] =>
                let* l := new_cookies in
                match l with
                | None => ret None
                | Some l =>
                    set_defaults (Response VERSION_UNKNOWN 0 gh eh 0 (fun f =>
                      match f with
                      | Rs_etag => etag
                      | Rs_location => location
                      | Rs_proxy_authenticate => proxy_authenticate
                      | Rs_server => server
                      | Rs_vary => vary
                      | Rs_www_authenticate => www_authenticate
                      | Rs_entity => entity
                      | Rs_path => path
                      end) 0 0 (-1) (Some l) None false false false)
                end
            | _ => ret None
            end
        end
    end.

Definition rs_recycle (f : rs_field) (r : http_response) : res http_response :=
  let+ s := str_recycle (rs_str r f) in Ret (rs_with_str f s r).

(** A failure to set the content type is only logged. *)
Definition response_recycle (r : http_response) : C http_response :=
  let r := rs_with_general (general_header_recycle (rs_general r)) r in
  let* eh := lift (entity_header_recycle (rs_entity_header r)) in
  let r := rs_with_entity eh r in
  let* r := (match rs_cookies r with
             | None => ret r
             | Some _ => let* l := new_cookies in ret (rs_with_cookies l r)
             end) in
  let* r := lift (rs_recycle Rs_entity r) in
  let* r := lift (rs_recycle Rs_path r) in
  let* r := lift (rs_recycle Rs_etag r) in
  let* r := lift (rs_recycle Rs_location r) in
  let* r := lift (rs_recycle Rs_proxy_authenticate r) in
  let* r := lift (rs_recycle Rs_server r) in
  let* r := lift (rs_recycle Rs_vary r) in
  let* r := lift (rs_recycle Rs_www_authenticate r) in
  let r := response_clear_flags r in
  let* (_, r) := response_set_content_type r (bytes "text/html") in
  ret (rs_with_file false (rs_with_buffer (content_buffer r) false false r)).

(** * The entity *)

Definition on_page (put : str -> C (status * str)) (r : http_response) : C (status * http_response) :=
  let* (st, s) := put (rs_str r Rs_entity) in ret (st, rs_with_str Rs_entity s r).

(** A call and, when it succeeds, the next. *)
Definition and_put (m : C (status * str)) (k : str -> C (status * str)) : C (status * str) :=
  let* (st, s) := m in
  match st with failure => ret (failure, s) | success => k s end.

(** [cstring_concat2] and [cstring_concat3]. *)
Definition str_concat2 (s : str) (s1 s2 : list Z) : C (status * str) :=
  and_put (str_concat s s1) (fun s => str_concat s s2).
Definition str_concat3 (s : str) (s1 s2 s3 : list Z) : C (status * str) :=
  and_put (str_concat s s1) (fun s => and_put (str_concat s s2) (fun s => str_concat s s3)).

Definition response_add (r : http_response) (value : list Z) := on_page (fun s => str_concat s value) r.
Definition response_add_char (r : http_response) (c : Z) := on_page (fun s => str_charcat s c) r.
(** [start]: the memory up to [end_]; [n]: its length. *)
Definition response_add_end (r : http_response) (start : block) (n : Z) :=
  on_page (fun s => str_pcat s start n) r.
(** [out]: the text of the format and its arguments. *)
Definition response_printf (r : http_response) (out : list Z) := on_page (fun s => str_printf s out) r.

Definition enclosed (before after : list Z) (r : http_response) (text : list Z) :=
  on_page (fun s => str_concat3 s before text after) r.

Definition response_td := enclosed (bytes "<td>") (bytes "</td>" ++ [10]).
Definition response_p := enclosed (bytes "<p>") (bytes "</p>" ++ [10]).
Definition response_h1 := enclosed (bytes "<h1>") (bytes "</h1>" ++ [10]).
Definition response_h2 := enclosed (bytes "<h2>") (bytes "</h2>" ++ [10]).
Definition response_h3 := enclosed (bytes "<h3>") (bytes "</h3>" ++ [10]).
Definition response_h4 := enclosed (bytes "<h4>") (bytes "</h4>" ++ [10]).
Definition response_h5 := enclosed (bytes "<h5>") (bytes "</h5>" ++ [10]).
Definition response_h6 := enclosed (bytes "<h6>") (bytes "</h6>" ++ [10]).
Definition response_h7 := enclosed (bytes "<h7>") (bytes "</h7>" ++ [10]).
Definition response_h8 := enclosed (bytes "<h8>") (bytes "</h8>" ++ [10]).
Definition response_h9 := enclosed (bytes "<h9>") (bytes "</h9>" ++ [10]).
Definition response_js_messagebox :=
  enclosed (bytes "<script language=" ++ [34] ++ bytes "javascript" ++ [34] ++ bytes ">" ++ [10] ++
            bytes "alert(" ++ [34])
           ([34] ++ bytes ");" ++ [10] ++ bytes "</script>" ++ [10]).
Definition response_br (r : http_response) := on_page (fun s => str_concat s (bytes "<br>")) r.
Definition response_hr (r : http_response) := on_page (fun s => str_concat s (bytes "<hr>")) r.
Definition response_href (r : http_response) (ref text : list Z) :=
  on_page (fun s => str_printf s (bytes "<a href=" ++ [34] ++ ref ++ [34] ++ bytes ">" ++ text ++ bytes "</a>")) r.

Definition response_get_content_length (r : http_response) : res Z :=
  if entity_header_content_length_isset (rs_entity_header r)
  then entity_header_get_content_length (rs_entity_header r)
  else let+ t := str_text (rs_str r Rs_entity) in Ret (zlen t).

(** What is at the address [response_get_entity] returns: [n] bytes of it. *)
Definition response_get_entity (r : http_response) (n : Z) : res (list Z) :=
  if content_buffer_in_use r then
    match content_buffer r with
    | None => Fault OutOfBounds
    | Some b => let+ cells := rd b 0 n in initialised cells
    end
  else str_peek (rs_str r Rs_entity) n.

Definition response_set_content_buffer (r : http_response) (data : block) (cb : Z) : http_response :=
  let r := response_set_flag r CONTENT_LENGTH in
  response_set_content_length (rs_with_buffer (Some data) true (content_free_when_done r) r) cb.
Definition response_set_allocated_content_buffer (r : http_response) (src : block) (n : Z) : http_response :=
  let r := response_set_flag r CONTENT_LENGTH in
  response_set_content_length (rs_with_buffer (Some src) true true r) n.

Definition response_send_file (r : http_response) (path ctype : list Z)
    : C (status * option http_error * http_response) :=
  match file_size path with
  | None => ret (failure, None, r)
  | Some st_size =>
      let* (st, r) := response_set_content_type r ctype in
      match st with
      | failure => ret (failure, Some (Os_error ENOMEM), r)
      | success =>
          let r := response_set_content_length r st_size in
          let* (st, s) := str_set (rs_str r Rs_path) path in
          let r := rs_with_str Rs_path s r in
          ret (match st with
               | success => (success, None, rs_with_file true r)
               | failure => (failure, Some (Os_error ENOMEM), r)
               end)
      end
  end.

(** * Cookies *)

(** [isalnum] *)
Definition need_quote (s : list Z) : bool :=
  existsb (fun c => negb (isalpha c || isdigit c) && negb (c =? ch "_")) s.

Definition APOSTROPHE : Z := 39.
Definition BACKSLASH : Z := 92.

Fixpoint quoted_loop (dest : str) (s : list Z) : C (status * str) :=
  match s with
  | [] => ret (success, dest)
  | c :: s =>
      and_put (if c =? APOSTROPHE then str_charcat dest BACKSLASH else ret (success, dest)) (fun dest =>
      and_put (str_charcat dest c) (fun dest => quoted_loop dest s))
  end.

Definition strcat_quoted (dest : str) (s : list Z) : C (status * str) :=
  and_put (str_charcat dest APOSTROPHE) (fun dest =>
  and_put (quoted_loop dest s) (fun dest => str_charcat dest APOSTROPHE)).

Definition create_cookie_string (c : cookie) (s : str) : C (status * str) :=
  let* name := lift (cookie_get_name c) in
  and_put (str_set s (bytes "Set-Cookie: ")) (fun s =>
  and_put (str_concat s name) (fun s =>
  let* value := lift (cookie_get_value c) in
  and_put (str_charcat s (ch "=")) (fun s =>
  let* t := lift (str_text s) in
  and_put (if need_quote t then strcat_quoted s value else ret (success, s)) (fun s =>
  and_put (str_concat s value) (fun s =>
  and_put (str_printf s (bytes ";Version=" ++ decimal (cookie_get_version c))) (fun s =>
  and_put (if negb (cookie_get_max_age c =? MAX_AGE_NOT_SET)
           then str_printf s (bytes ";Max-Age=" ++ decimal (cookie_get_max_age c))
           else ret (success, s)) (fun s =>
  and_put (str_printf s (bytes ";Secure=" ++ decimal (cookie_get_secure c))) (fun s =>
  let* domain := lift (cookie_get_domain c) in
  and_put (str_concat2 s (bytes ";Domain=") domain) (fun s =>
  let* comment := lift (cookie_get_comment c) in
  and_put (str_concat2 s (bytes ";Comment=") comment) (fun s =>
  let* path := lift (cookie_get_path c) in
  and_put (str_concat2 s (bytes ";Path=") path) (fun s =>
  str_concat s CRLF))))))))))).

Definition socket_errno (c : connection) : errno := Gensocket.s_errno (cn_sock c).

Definition send_cookie (ck : cookie) (c : connection) : C (handled connection) :=
  let* s := str_new in
  match s with
  | None => reports (Os_error ENOMEM) c
  | Some s =>
      let* (st, s) := create_cookie_string ck s in
      match st with
      | failure => reports (Os_error ENOMEM) c
      | success =>
          let* t := lift (str_text s) in
          let* (st, c) := lift (connection_write c t) in
          match st with
          | failure => reports (Tcpip_error (socket_errno c)) c
          | success => done c
          end
      end
  end.

Fixpoint send_all_cookies (l : list cookie) (c : connection) : C (handled connection) :=
  match l with
  | [] => done c
  | ck :: l => let! c := send_cookie ck c in send_all_cookies l c
  end.

(** [list_first] asserts that there is a list. *)
Definition response_send_cookies (r : http_response) (c : connection) : C (handled connection) :=
  match rs_cookies r with
  | None => lift (Fault AssertFailed)
  | Some l => send_all_cookies l c
  end.

Definition sizeof_list_node : Z := 24.

Fixpoint has_cookie (name : list Z) (l : list cookie) : res bool :=
  match l with
  | [] => Ret false
  | c :: l => let+ old := cookie_get_name c in
              if strcmp name old =? 0 then Ret true else has_cookie name l
  end.

(** Failure with the [errno] that is set; [malloc] sets [ENOMEM]. *)
Definition response_set_cookie (r : http_response) (new_cookie : cookie)
    : C (option errno * http_response) :=
  let* name := lift (cookie_get_name new_cookie) in
  match rs_cookies r with
  | None => lift (Fault AssertFailed)
  | Some l =>
      let* dup := lift (has_cookie name l) in
      if dup : bool then ret (Some EINVAL, r)
      else
        let* ok := alloc_ok sizeof_list_node in
        ret (if ok : bool then (None, rs_with_cookies (Some (l ++ [new_cookie])) r)
             else (Some ENOMEM, r))
  end.

(** * Sending *)

Definition send_rs (f : rs_field) (name : list Z) (r : http_response) : writer :=
  http_send_field name (rs_str r f).

Definition send_age (r : http_response) : writer := http_send_ulong (bytes "Age: ") (age r).
Definition send_etag := send_rs Rs_etag (bytes "ETag: ").
Definition send_location := send_rs Rs_location (bytes "Location: ").
Definition send_proxy_authenticate := send_rs Rs_proxy_authenticate (bytes "Proxy-Authenticate: ").
Definition send_server := send_rs Rs_server (bytes "Server: ").
Definition send_vary := send_rs Rs_vary (bytes "Vary: ").
Definition send_www_authenticate := send_rs Rs_www_authenticate (bytes "WWW-Authenticate: ").
Definition send_retry_after (r : http_response) : writer :=
  http_send_date (bytes "Retry-After: ") (retry_after r).
Definition send_accept_ranges (r : http_response) : writer := fun c =>
  connection_write c (bytes "Accept-Ranges: " ++
    (if accept_ranges r =? 1 then bytes "bytes" else bytes "none") ++ CRLF).

Definition rs_send_table : list (Z * (http_response -> writer)) :=
  [ (AGE, send_age);
    (ETAG, send_etag);
    (LOCATION, send_location);
    (PROXY_AUTHENTICATE, send_proxy_authenticate);
    (SERVER, send_server);
    (VARY, send_vary);
    (WWW_AUTHENTICATE, send_www_authenticate);
    (ACCEPT_RANGES, send_accept_ranges);
    (RETRY_AFTER, send_retry_after) ].

Fixpoint rs_send (r : http_response) (l : list (Z * (http_response -> writer))) : writer :=
  match l with
  | [] => send_nothing
  | (flag, func) :: l =>
      if response_flag_isset r flag then func r &&> rs_send r l else rs_send r l
  end.

Definition response_send_header_fields (r : http_response) (c : connection)
    : res (status * http_response * connection) :=
  let+ r := (if general_header_date_isset (rs_general r) then Ret r else response_set_date r now) in
  let+ (st, c) :=
    (general_header_send_fields (rs_general r) &&>
     entity_header_send_fields (rs_entity_header r) &&>
     rs_send r rs_send_table) c in
  Ret (st, r, c).

(** A status, the error that was reported, and what is left. *)
Definition outcome (A : Type) : Type := status * option http_error * A.

Definition response_send_header (r : http_response) (c : connection)
    : C (outcome (http_response * connection)) :=
  if decide (rs_version r = VERSION_09) then ret (failure, None, (r, c))
  else
    let* (st, r) := (if connection_is_persistent c && bool_decide (rs_version r = VERSION_10)
                     then response_set_connection r (bytes "Keep-Alive")
                     else ret (success, r)) in
    match st with
    | failure => ret (failure, Some (Os_error ENOMEM), (r, c))
    | success =>
        let* (st, r, c) := lift (response_send_header_fields r c) in
        match st with
        | failure => ret (failure, Some (Tcpip_error (socket_errno c)), (r, c))
        | success =>
            let* (e, c) := (match rs_cookies r with
                            | None => done c
                            | Some _ => response_send_cookies r c
                            end) in
            match e with
            | Some e => ret (failure, Some e, (r, c))
            | None =>
                let* (st, c) := lift (connection_write c CRLF) in
                ret (match st with
                     | failure => (failure, Some (Tcpip_error (socket_errno c)), (r, c))
                     | success => (success, None, (r, c))
                     end)
            end
        end
    end.

(** The reads end with one that returns nothing, or fails. *)
Fixpoint file_loop (reads : list (list Z)) (c : connection) (pcb : Z) : res (status * Z * connection) :=
  match reads with
  | [] | [] :: _ => Ret (success, pcb, c)
  | buf :: reads =>
      let pcb := pcb + zlen buf in
      let+ (st, c) := ((fun c => connection_write c buf) &&> connection_flush) c in
      match st with
      | failure => Ret (failure, pcb, c)
      | success => file_loop reads c pcb
      end
  end.

(** [None]: [*pcb] is not set. *)
Definition send_entire_file (c : connection) (path : list Z) : res (status * option Z * connection) :=
  match file_reads path with
  | None => Ret (failure, None, c)
  | Some reads => let+ (st, pcb, c) := file_loop reads c 0 in Ret (st, Some pcb, c)
  end.

Definition BIG_BUFFER : Z := 64 * 1024.

Definition response_send_entity (r : http_response) (c : connection)
    : res (status * option Z * http_response * connection) :=
  if content_buffer_in_use r then
    let+ cb := response_get_content_length r in
    let+ buf := response_get_entity r cb in
    let+ (rc, c) :=
      (if BIG_BUFFER <? cb
       then connection_write_big_buffer c buf (Z.to_nat ((cb / 1024) mod 2 ^ 32))
       else connection_write c buf) in
    let r := if content_free_when_done r
             then rs_with_buffer None (content_buffer_in_use r) (content_free_when_done r) r
             else r in
    Ret (rc, Some cb, r, c)
  else if send_file r then
    let+ path := str_text (rs_str r Rs_path) in
    let+ (st, pcb, c) := send_entire_file c path in
    Ret (st, pcb, r, c)
  else
    let+ cb := response_get_content_length r in
    let+ entity := response_get_entity r cb in
    let+ (st, c) := connection_write c entity in
    Ret (st, Some cb, r, c).

(** The bytes of the entity, where they are set, the response and the connection
    are left. *)
Definition response_send (r : http_response) (c : connection)
    : C (outcome (option Z * http_response * connection)) :=
  let* r := lift (if entity_header_content_length_isset (rs_entity_header r) then Ret r
                  else let+ t := str_text (rs_str r Rs_entity) in
                       Ret (response_set_content_length r (zlen t))) in
  let* (st, c) := lift (send_status_code (rs_status r) (rs_version r) c) in
  match st with
  | failure => ret (failure, Some (Tcpip_error (socket_errno c)), (None, r, c))
  | success =>
      let* (st, e, (r, c)) := response_send_header r c in
      if negb (rs_status r =? HTTP_200_OK) && negb (rs_status r =? HTTP_404_NOT_FOUND)
      then ret (failure, e, (None, r, c))
      else
        match st with
        | failure => ret (failure, e, (None, r, c))
        | success =>
            let* (st, pcb, r, c) := lift (response_send_entity r c) in
            ret (match st with
                 | failure => (failure, Some (Tcpip_error (socket_errno c)), (pcb, r, c))
                 | success => (success, None, (pcb, r, c))
                 end)
        end
  end.

(** * Parsing *)

Definition rs_reported (m : C (status * http_response)) : C (handled http_response) :=
  let* (st, r) := m in
  match st with
  | failure => reports (Os_error ENOMEM) r
  | success => done r
  end.

Definition rs_parse_string (set : http_response -> list Z -> C (status * http_response))
    (r : http_response) (value : block) : C (handled http_response) :=
  let* v := lift (str_at value) in rs_reported (set r v).

Definition parse_etag := rs_parse_string response_set_etag.
Definition parse_location := rs_parse_string response_set_location.
Definition parse_www_authenticate := rs_parse_string response_set_www_authenticate.
Definition parse_server := rs_parse_string response_set_server.
Definition parse_proxy_authenticate := rs_parse_string response_set_proxy_authenticate.
Definition parse_vary := rs_parse_string response_set_vary.

Definition parse_age (r : http_response) (value : block) : C (handled http_response) :=
  let* v := lift (str_at value) in
  match toulong v with
  | inl _ => reports (Http_error HTTP_400_BAD_REQUEST) r
  | inr n => done (response_set_age r n)
  end.

Definition parse_accept_ranges (r : http_response) (value : block) : C (handled http_response) :=
  let* v := lift (str_at value) in
  if strcmp v (bytes "bytes") =? 0 then let* r := lift (response_set_accept_ranges r 1) in done r
  else if strcmp v (bytes "none") =? 0 then let* r := lift (response_set_accept_ranges r 0) in done r
  else done r.

(** [atol] is [strtol] without the checks. *)
Definition parse_retry_after (r : http_response) (value : block) : C (handled http_response) :=
  let* v := lift (str_at value) in
  let* t := lift (parse_rfc822_date mktime v) in
  if negb (t =? -1) then let* r := lift (response_set_retry_after r t) in done r
  else
    let delta := (strtol 10 v).1.1 in
    if delta <=? 0 then reports (Http_error HTTP_400_BAD_REQUEST) r
    else let* r := lift (response_set_retry_after r delta) in done r.

Definition response_header_fields : list (list Z * (http_response -> block -> C (handled http_response))) :=
  [ (bytes "accept-ranges", parse_accept_ranges);
    (bytes "age", parse_age);
    (bytes "etag", parse_etag);
    (bytes "location", parse_location);
    (bytes "proxy-authenticate", parse_proxy_authenticate);
    (bytes "retry-after", parse_retry_after);
    (bytes "server", parse_server);
    (bytes "vary", parse_vary);
    (bytes "www-authenticate", parse_www_authenticate) ].

Definition find_response_header : list Z -> option (http_response -> block -> C (handled http_response)) :=
  find_handler response_header_fields.

Abbreviation arriving := (http_response * connection)%type.

Definition parse_response_headerfield (name : list Z) (value : block) (s : arriving)
    : C (handled arriving) :=
  let (r, c) := s in
  match find_general_header mktime name with
  | Some handler =>
      let* (e, gh) := handler (rs_general r) value in ret (e, (rs_with_general gh r, c))
  | None =>
      match find_entity_header mktime name with
      | Some handler =>
          let* (e, eh) := handler (rs_entity_header r) value in ret (e, (rs_with_entity eh r, c))
      | None =>
          match find_response_header name with
          | Some handler => let* (e, r) := handler r value in ret (e, (r, c))
          | None => done s
          end
      end
  end.

Definition read_response_header_fields : nat -> arriving -> C (handled arriving) :=
  read_header_fields parse_response_headerfield.

(** * Receiving *)

Definition parse_status_line (l : list Z) (r : http_response) : C (handled http_response) :=
  let bad := reports (Http_error HTTP_400_BAD_REQUEST) r in
  let version :=
    match strstr l (bytes "HTTP/1.0 ") with
    | Some O => Some VERSION_10
    | _ => match strstr l (bytes "HTTP/1.1 ") with
           | Some O => Some VERSION_11
           | _ => None
           end
    end in
  match version with
  | None => bad
  | Some version =>
      let s := drop 9 l in
      if negb (isdigit (at_ s 0) && isdigit (at_ s 1) && isdigit (at_ s 2) && isspace (at_ s 3)) then bad
      else
        let status_code := dig s 0 * 100 + dig s 1 * 10 + dig s 2 * 1 in
        match drop 4 s with
        | [] => bad
        | _ => done (response_set_version (response_set_status r status_code) version)
        end
  end.

Definition read_response_status_line (s : arriving) : C (handled arriving) :=
  let* (e, l, s) := get_line CCH_STATUSLINE_MAX (fresh_array (CCH_STATUSLINE_MAX + 1)) s in
  match e with
  | Some e => reports e s
  | None =>
      let (r, c) := s in
      let* (e, r) := parse_status_line l r in ret (e, (r, c))
  end.

Definition allws (s : list Z) : bool := forallb isspace s.

(** A line into the array [buf]. *)
Definition gets_into (c : connection) (buf : block) : res (status * block * connection) :=
  let+ (st, d, c) := connection_gets c (zlen buf) in
  let+ buf := wr buf 0 (Some <$> d) in Ret (st, buf, c).

Definition get_chunklen (c : connection) : res (option Z * connection) :=
  let+ (st, buf, c) := gets_into c (fresh_array 1024) in
  match st with
  | failure => Ret (None, c)
  | success =>
      let+ l := str_at buf in
      let+ (st, buf, c) := (if allws l then gets_into c buf else Ret (success, buf, c)) in
      match st with
      | failure => Ret (None, c)
      | success =>
          let+ l := str_at buf in
          Ret (match hextosize_t (rtrim (ltrim l)) with
               | inl _ => None
               | inr len => Some len
               end, c)
      end
  end.

(** Reads until [chunklen] bytes have come; [None] when a read fails. *)
Fixpoint read_chunk (fuel : nat) (c : connection) (content : block) (ntotal chunklen : Z)
    : res (option (block * Z) * connection) :=
  match fuel with
  | O => Fault FuelOut
  | S fuel =>
      let+ (nread, bs, c) := connection_read c chunklen in
      let+ content := wr content ntotal (Some <$> bs) in
      if nread <? 0 then Ret (None, c)
      else
        let ntotal := u64 (ntotal + nread) in
        let chunklen := u64 (chunklen - nread) in
        if chunklen =? 0 then Ret (Some (content, ntotal), c)
        else read_chunk fuel c content ntotal chunklen
  end.

(** [realloc]; at size 0 it frees the block and returns NULL, and the block is
    freed a second time. *)
Definition grow (content : option block) (n : Z) : C (option block) :=
  match content with
  | None => malloc n
  | Some b => if n =? 0 then lift (Fault OutOfBounds) else realloc b n
  end.

Fixpoint chunked_loop (fuel : nat) (r : http_response) (c : connection) (max_contentlen : Z)
    (content : option block) (ntotal : Z) : C (outcome arriving) :=
  match fuel with
  | O => lift (Fault FuelOut)
  | S fuel =>
      let* (len, c) := lift (get_chunklen c) in
      match len with
      | None => ret (failure, None, (r, c))
      | Some chunklen =>
          if chunklen =? 0 then
            ret (match content with
                 | None => (failure, None, (r, c))
                 | Some b => (success, None, (response_set_allocated_content_buffer r b ntotal, c))
                 end)
          else if max_contentlen <? u64 (ntotal + chunklen)
          then ret (failure, Some (App_error ENOSPC), (r, c))
          else
            let* tmp := grow content (u64 (ntotal + chunklen)) in
            match tmp with
            | None => ret (failure, Some (Os_error ENOSPC), (r, c))
            | Some b =>
                let* (p, c) := lift (read_chunk fuel c b ntotal chunklen) in
                match p with
                | None => ret (failure, None, (r, c))
                | Some (b, ntotal) => chunked_loop fuel r c max_contentlen (Some b) ntotal
                end
            end
      end
  end.

Definition read_chunked_response (fuel : nat) (r : http_response) (c : connection) (max_contentlen : Z)
    : C (outcome arriving) := chunked_loop fuel r c max_contentlen None 0.

(** The statuses that have no entity. *)
Definition no_entity (status : Z) : bool :=
  (status =? 204) || (status =? 301) || (status =? 302) || (status =? 304).

(** The end of [response_receive]: one read into a block of [contentlen + 1]
    bytes. *)
Definition receive_content (r : http_response) (c : connection) (contentlen : Z) : C (outcome arriving) :=
  let* content := malloc (u64 (contentlen + 1)) in
  match content with
  | None => ret (failure, Some (Os_error ENOMEM), (r, c))
  | Some content =>
      let* content := lift (stc content contentlen 0) in
      let* (nread, bs, c) := lift (connection_read c contentlen) in
      let* content := lift (wr content 0 (Some <$> bs)) in
      ret (if nread =? -1 then (failure, Some (Os_error (socket_errno c)), (r, c))
           else (success, None, (response_set_allocated_content_buffer r content nread, c)))
  end.

Definition response_receive (fuel : nat) (max_contentlen : Z) (s : arriving) : C (outcome arriving) :=
  let* (e, s) := read_response_status_line s in
  match e with
  | Some e => ret (failure, Some e, s)
  | None =>
      let* (e, (r, c)) := read_response_header_fields fuel s in
      match e with
      | Some e => ret (failure, Some e, (r, c))
      | None =>
          if no_entity (response_get_status r) then ret (success, None, (r, c))
          else if entity_header_content_length_isset (rs_entity_header r) then
            let* contentlen := lift (entity_header_get_content_length (rs_entity_header r)) in
            if contentlen =? 0 then ret (success, None, (r, c))
            else if max_contentlen <? contentlen then ret (failure, Some (App_error ENOSPC), (r, c))
            else receive_content r c contentlen
          else
            let* chunked := lift (general_header_is_chunked_message (rs_general r)) in
            if chunked : bool then read_chunked_response fuel r c max_contentlen
            else receive_content r c max_contentlen
      end
  end.

End Response.
