(* ===== verification/ResponseProps.v ===== *)
(** ResponseProps: a response that is sent is the response that is received.

    The fields of a response are those of the two header objects and its own
    ([response_own]); [response_roundtrip] composes the sender and the receiver
    over two connections, on the lemmas of HeaderProps. *)

From Stdlib Require Import ZArith Lia.
From stdpp Require Import base sets list numbers functions.
From S2P Require Import Prelude Convert Cstring MetaMisc Gensocket Connection HttpBase HeaderLines.
From S2P Require Import HttpDate GeneralHeader GeneralHeaderProps EntityHeader HeaderProps Cookies Response.

(** * The fields of a response *)

Definition rs_name (f : rs_field) : option (list Z) :=
  match f with
  | Rs_etag => Some (bytes "ETag")
  | Rs_location => Some (bytes "Location")
  | Rs_proxy_authenticate => Some (bytes "Proxy-Authenticate")
  | Rs_server => Some (bytes "Server")
  | Rs_vary => Some (bytes "Vary")
  | Rs_www_authenticate => Some (bytes "WWW-Authenticate")
  | _ => None
  end.

(** The rows of the table of the response; three members are not strings. *)
Definition rs_rows : list (option rs_field) :=
  [None; Some Rs_etag; Some Rs_location; Some Rs_proxy_authenticate; Some Rs_server;
   Some Rs_vary; Some Rs_www_authenticate; None; None].

#[export] Program Instance response_own : Own rs_field := {|
  own_name := rs_name;
  own_multi _ := false;
  own_sent := omap id rs_rows;
|}.
Next Obligation.
  assert (Hd : forall n, bool_decide (name_ok n) = true -> name_ok n)
    by (intros n Hn; by apply bool_decide_eq_true in Hn).
  intros f n Hn. apply Hd. by destruct f; first [discriminate Hn|injection Hn as <-].
Qed.
Next Obligation. by apply (bool_decide_unpack _). Qed.
Next Obligation.
  intros f. assert (Hd : bool_decide (f ∈ omap id rs_rows) = bool_decide (is_Some (rs_name f)))
    by (by destruct f). by rewrite <-(bool_decide_spec (f ∈ _)), Hd, bool_decide_spec.
Qed.

Definition rs_flag (f : rs_field) : option Z :=
  match f with
  | Rs_etag => Some ETAG
  | Rs_location => Some LOCATION
  | Rs_proxy_authenticate => Some PROXY_AUTHENTICATE
  | Rs_server => Some SERVER
  | Rs_vary => Some VARY
  | Rs_www_authenticate => Some WWW_AUTHENTICATE
  | Rs_entity | Rs_path => None
  end.

(** The flags of members that are not strings. *)
Definition rs_other : Z := Z.lor AGE (Z.lor ACCEPT_RANGES RETRY_AFTER).

Lemma rs_flags_disjoint a b x y :
  rs_flag a = Some x -> rs_flag b = Some y -> a <> b -> Z.land x y = 0.
Proof. destruct a; intros [= <-]; destruct b; intros [= <-]; done. Qed.

Lemma rs_other_disjoint f x : rs_flag f = Some x -> Z.land x rs_other = 0 /\ x <> 0.
Proof. by destruct f; intros [= <-]. Qed.

Abbreviation field := (fields_of rs_field).
Abbreviation contents := (field -> option (list Z)).

Section Props.
Context `{StringLaws}.
Variable zone : Z.
(** What the calls of [read] on a file return. *)
Variable file_reads : list Z -> option (list (list Z)).

Let mktime := HttpDate.mktime zone.

(** * What the object holds *)

Definition rs_holds (r : http_response) (v : rs_field -> option (list Z)) : Prop :=
  (forall f,
    match rs_flag f with
    | Some x => kept false (response_flag_isset r x) (rs_str r f) (v f)
    | None => v f = None
    end) /\
  Z.land (rs_flags r) rs_other = 0.

Definition holds (D : list Z -> Z -> Prop) (r : http_response) (w : contents) : Prop :=
  headers_hold D (rs_general r) (rs_entity_header r) w /\ rs_holds r (fun f => w (R f)).

(** The members the header fields do not touch. *)
Definition same (r r' : http_response) : Prop :=
  rs_version r' = rs_version r /\ rs_status r' = rs_status r /\ rs_cookies r' = rs_cookies r /\
  content_buffer r' = content_buffer r /\ content_buffer_in_use r' = content_buffer_in_use r /\
  send_file r' = send_file r /\ rs_str r' Rs_entity = rs_str r Rs_entity /\
  rs_str r' Rs_path = rs_str r Rs_path.

#[export] Instance same_preorder : PreOrder same.
Proof.
  split; [by intros r|]. intros a b c (? & ? & ? & ? & ? & ? & ? & ?) (? & ? & ? & ? & ? & ? & ? & ?).
  split_and!; congruence.
Qed.

Lemma rs_set_spec f x r v t o :
  rs_flag f = Some x -> rs_holds r v -> valid_str t -> zlen t <= 2 ^ 38 ->
  wp (rs_set f x r t) o (fun '(st, r') o' =>
    (st = success -> rs_holds r' (<[f := Some t]> v) /\ same r r' /\
       rs_general r' = rs_general r /\ rs_entity_header r' = rs_entity_header r) /\
    (o = [] -> o' = [] /\ st = success)).
Proof.
  intros Hx [Hr Ho] Ht Hlen. pose proof (Hr f) as Hk. rewrite Hx in Hk. unfold rs_set. wp.
  eapply wp_mono; [eapply set_kept; [by left|done..]|]. intros [st s'] o' [Hst Hoo]. wp.
  destruct st; cbn beta iota; split; try done. intros _. specialize (Hst eq_refl).
  destruct (rs_other_disjoint f x Hx) as [Hox Hx0].
  assert (Hne : f <> Rs_entity /\ f <> Rs_path) by (by split; intros ->). destruct Hne. split; [split|].
  - intros g. pose proof (Hr g) as Hg. destruct (rs_flag g) as [y|] eqn:Hy.
    + unfold response_flag_isset in *. cbn. rewrite insert_inj_ne. case_decide as Hd.
      * subst g. rewrite Hx in Hy. injection Hy as <-. by rewrite flag_set.
      * by rewrite lor_other by (by eapply rs_flags_disjoint).
    + rewrite fn_lookup_insert_ne; [done|]. intros <-. by rewrite Hx in Hy.
  - cbn. by rewrite lor_other.
  - split; [|done]. split_and!; try done; cbn; by rewrite decide_False.
Qed.

Lemma rs_holds_ext r v w : (forall f, v f = w f) -> rs_holds r v -> rs_holds r w.
Proof. intros Heq [Hs Ho]. split; [|done]. intros f. rewrite <-Heq. apply Hs. Qed.

Lemma rs_holds_frame r r' v :
  rs_flags r' = rs_flags r -> rs_str r' = rs_str r -> rs_holds r v -> rs_holds r' v.
Proof. unfold rs_holds, response_flag_isset. by intros -> ->. Qed.

Lemma response_holds_ext D r w w' : (forall F, w F = w' F) -> holds D r w -> holds D r w'.
Proof.
  intros Heq [Hh Hr]. split; [by eapply headers_hold_ext|].
  eapply rs_holds_ext; [|exact Hr]. intros f. apply Heq.
Qed.

(** * Parsing a field *)

Lemma find_response f name :
  header_name (R f) = Some name ->
  find_general_header mktime (fs_lower name) = None /\
  find_entity_header mktime (fs_lower name) = None /\
  exists x, rs_flag f = Some x /\
    find_response_header mktime (fs_lower name) = Some (rs_parse_string (rs_set f x)).
Proof. destruct f; intros [= <-]; split_and!; try done; by eexists. Qed.

Lemma rs_handler f x r v t junk o :
  rs_flag f = Some x -> rs_holds r v -> value_ok mktime (R f) t ->
  wp (rs_parse_string (rs_set f x) r (cstr t ++ junk)) o
    (stores (fun r' => rs_holds r' (<[f := Some t]> v) /\ same r r' /\
       rs_general r' = rs_general r /\ rs_entity_header r' = rs_entity_header r) o).
Proof.
  intros Hx Hr Ht. pose proof (value_chars _ _ _ Ht) as Hc. destruct (value_valid _ _ _ Ht).
  unfold rs_parse_string. rewrite str_at_here by done. apply wp_lift_ret. by apply wp_reported, rs_set_spec.
Qed.

(** A line of the header, as the handler gets its value, is stored. *)
Lemma handle_response_field F name v r c w junk o :
  header_name F = Some name -> value_ok mktime F v -> holds (read_as mktime) r w ->
  wp (parse_response_headerfield mktime (fs_lower name) (cstr v ++ junk) (r, c)) o
    (stores (fun '(r', c') => c' = c /\ same r r' /\ holds (read_as mktime) r' (<[F := Some v]> w)) o).
Proof.
  intros Hn Hv [Hh Hr]. unfold parse_response_headerfield.
  destruct (own_or_header F) as [[f ->]|Hown].
  - destruct (find_response f name Hn) as (-> & -> & x & Hx & ->).
    pose proof (rs_handler f x r _ v junk o Hx Hr Hv) as Hrs.
    wp. eapply wp_mono; [exact Hrs|]. intros [e r'] o' Hst. wp.
    destruct e as [e|]; [done|]. destruct Hst as [(Hst & Hsame & Hg' & He') Ho].
    split; [|done]. split; [done|]. split; [done|]. split.
    + rewrite Hg', He'. by apply headers_hold_own.
    + eapply rs_holds_ext; [|exact Hst]. insert_ext.
  - destruct (header_handler mktime F name (rs_general r) (rs_entity_header r) w v junk o Hn)
      as [(h & -> & Hw1)|(-> & h & -> & Hw1)]; try done.
    1,2: wp; (eapply wp_mono; [exact Hw1|]); intros [e hd] o' Hst; wp; (destruct e as [e|]; [done|]);
      destruct Hst as [Hst Ho]; (split; [|done]); (split; [done|]); (split; [done|]); split; [exact Hst|];
      (eapply rs_holds_ext; [|by eapply rs_holds_frame, Hr]); intros f; rewrite insert_field, decide_False;
      [done|]; intros <-; by apply (Hown f).
Qed.


(** * Sending *)

Lemma rs_row r w f x name :
  rs_holds r (fun f => w (R f)) -> rs_flag f = Some x -> header_name (R f) = Some name ->
  row_ok r (response_flag_isset r) w (x, send_rs f (name ++ bytes ": ")) (Some (R f)).
Proof.
  intros [Hr _] Hx Hn. pose proof (Hr f) as Hf. rewrite Hx in Hf.
  by apply (kept_row r (response_flag_isset r) w x (R f) name false (fun r => rs_str r f)).
Qed.

(** The fields that are not sent have no value. *)
Definition named (w : contents) : Prop := forall F, header_name F = None -> w F = None.

Lemma named_insert w F v : named w -> header_name F <> None -> named (<[F := v]> w).
Proof. intros Hw HF F' Hn. rewrite insert_field, decide_False; [by apply Hw|]. by intros <-. Qed.

Lemma sends_response r w :
  rs_holds r (fun f => w (R f)) ->
  sends (rs_send r rs_send_table) (lines_text (sent w (R <$> own_sent))).
Proof.
  intros Hh. pose proof Hh as [_ Ho].
  assert (Hoff : forall x, Z.land rs_other x = x -> response_flag_isset r x = false).
  { intros x Hx. unfold response_flag_isset. by rewrite (land_part _ rs_other). }
  change (R <$> own_sent) with (omap id (fmap R <$> rs_rows)).
  apply (sends_rows r (response_flag_isset r)); [done|done|]. unfold rs_send_table.
  repeat (constructor; [match goal with
    | |- row_ok _ _ _ _ (fmap _ (Some ?f)) => exact (rs_row r w f _ _ Hh eq_refl eq_refl)
    | |- row_ok _ _ _ _ (fmap _ None) => by apply Hoff
    end|]).
  constructor.
Qed.

(** What the sender adds: the length of the entity, the wish to keep the
    connection, the date. *)
Definition measured (n : Z) (w : contents) : contents :=
  match w Length with Some _ => w | None => <[Length := Some (decimal n)]> w end.
Definition kept_alive (keep : bool) (w : contents) : contents :=
  if keep then <[G Gh_connection := Some (bytes "Keep-Alive")]> w else w.
Definition dated (now : Z) (w : contents) : contents :=
  match w Date with Some _ => w | None => <[Date := Some (rfc822_text now)]> w end.

Definition complete (now : Z) (keep : bool) (n : Z) (w : contents) : contents :=
  dated now (kept_alive keep (measured n w)).

Lemma complete_named now keep n w : named w -> named (complete now keep n w).
Proof.
  intros Hw. unfold complete, dated, kept_alive, measured.
  destruct keep, (w Length); repeat case_match; repeat (apply named_insert; [|done]); done.
Qed.

Lemma complete_length now keep n w :
  w Length = None \/ w Length = Some (decimal n) -> complete now keep n w Length = Some (decimal n).
Proof.
  intros Hw. assert (Hm : measured n w Length = Some (decimal n)).
  { unfold measured. destruct (w Length) eqn:HL; [by destruct Hw; congruence|].
    by rewrite insert_field, decide_True. }
  unfold complete, dated, kept_alive. destruct keep; case_match;
    rewrite ?insert_field, ?decide_False by done; exact Hm.
Qed.

Section Send.
Variables (now : Z) (Hnow : now <> -1).

Lemma send_fields_spec r w c inc out :
  holds sent_as r w -> named w -> Connection.rep c inc out ->
  wpr (response_send_header_fields now r c) (fun '(st, r', c') =>
    holds sent_as r' (dated now w) /\ same r r' /\ Connection.writes c c' /\
    (reliable c -> st = success /\ reliable c') /\
    (st = success -> Connection.rep c' inc (out ++ lines_text (sent (dated now w) fields)))).
Proof.
  intros Hr Hw Hrep. unfold response_send_header_fields.
  assert (Hdate : wpr (if general_header_date_isset (rs_general r) then Ret r else response_set_date r now)
    (fun r' => holds sent_as r' (dated now w) /\ same r r')).
  { pose proof Hr as [[[(x & (_ & Hn & _) & Hd) Hcap] He] Hrs]. specialize (Hn N_date). cbn in Hn.
    rewrite decide_True in Hn by done.
    change (general_header_date_isset (rs_general r)) with (has (rs_general r) (Num N_date)).
    unfold dated. destruct (has (rs_general r) (Num N_date)); subst x; destruct (w Date) eqn:HD; try done.
    unfold response_set_date. wp. eapply wpr_mono.
    { eapply (gh_set_date_spec sent_as _ (fun f => w (G f)) _ _ now); [apply Hr|done|done]. }
    intros gh Hgh. wp. split; [|done]. split; [split|].
    - cbn [rs_general rs_with_general]. rewrite insert_field, decide_True by done.
      eapply gh_holds_ext; [|exact Hgh]. insert_ext.
    - by apply eh_insert.
    - eapply rs_holds_ext; [|by eapply rs_holds_frame, Hrs]. insert_ext. }
  wp. eapply wpr_mono; [exact Hdate|]. clear Hr Hdate. intros r1 [Hr Hsame].
  assert (Hn : named (dated now w)).
  { unfold dated. destruct (w Date); [done|]. by apply named_insert. }
  pose proof Hr as [[Hg He] Hrs]. wp. eapply wpr_mono.
  { refine (_ : wpr _ (fun '(st, c') => Connection.writes c c' /\ (reliable c -> st = success /\ reliable c') /\
      (st = success -> Connection.rep c' inc (out ++ lines_text (sent (dated now w) fields))))).
    unfold fields. rewrite !sent_app, !lines_text_app.
    assert (Hall : sends (general_header_send_fields (rs_general r1) &&>
        entity_header_send_fields (rs_entity_header r1) &&> rs_send r1 rs_send_table)
      (lines_text (sent (dated now w) (omap id gh_rows)) ++ lines_text (sent (dated now w) (omap id eh_rows)) ++
       lines_text (sent (dated now w) (R <$> own_sent)))); [|by apply Hall].
    apply sends_then; [by apply sends_general; [|apply Hn]|].
    apply sends_then; [by apply sends_entity; [|apply Hn]|by apply sends_response]. }
  intros [st c1] H1. exact (conj Hr (conj Hsame H1)).
Qed.

Lemma keep_alive_spec keep r w o :
  holds sent_as r w ->
  wp (if keep : bool then response_set_connection r (bytes "Keep-Alive") else ret (success, r)) o
    (fun '(st, r') o' =>
      (st = success -> holds sent_as r' (kept_alive keep w) /\ same r r') /\
      (o = [] -> o' = [] /\ st = success)).
Proof.
  intros Hr. destruct keep; [|by wp]. pose proof Hr as [[Hg He] Hrs].
  unfold response_set_connection, on_general. wp.
  eapply wp_mono.
  { apply (gh_set_spec sent_as Gh_connection _ _ _ (bytes "Keep-Alive") o Hg).
    - split; [decide_closed|done].
    - done. }
  intros [st gh] o' [Hst Ho]. wp. split; [|done]. intros Hs. specialize (Hst Hs). split; [|done].
  unfold kept_alive. split; [split|].
  - cbn [rs_general rs_with_general]. rewrite insert_field, decide_False by done.
    eapply gh_holds_ext; [|exact Hst]. insert_ext.
  - by apply eh_insert.
  - eapply rs_holds_ext; [|by eapply rs_holds_frame, Hrs]. insert_ext.
Qed.

Lemma kept_alive_named keep w : named w -> named (kept_alive keep w).
Proof. intros Hw. destruct keep; [by apply named_insert|done]. Qed.

(** The fields of the header are in the response that is left. *)
Lemma send_header_spec r w c inc out o :
  holds sent_as r w -> named w -> rs_version r = VERSION_10 \/ rs_version r = VERSION_11 ->
  rs_cookies r = None \/ rs_cookies r = Some [] -> Connection.rep c inc out -> reliable c ->
  let w' := dated now (kept_alive (persistent c && bool_decide (rs_version r = VERSION_10)) w) in
  wp (response_send_header now r c) o (fun '(st, e, (r', c')) o' =>
    (st = success -> holds sent_as r' w' /\ same r r' /\ reliable c' /\ Connection.writes c c' /\
       Connection.rep c' inc (out ++ lines_text (sent w' fields) ++ CRLF)) /\
    (o = [] -> o' = [] /\ st = success)).
Proof.
  intros Hr Hw Hv Hck Hrep Hrel w'. unfold response_send_header.
  rewrite decide_False by (by destruct Hv as [-> | ->]). unfold connection_is_persistent.
  apply wp_bind. eapply wp_mono; [by apply (keep_alive_spec _ r w)|]. intros [st r1] o1 [Hst Ho1].
  destruct st; [wp; split; [done|]; intros Hoo; by destruct (Ho1 Hoo)|].
  destruct (Hst eq_refl) as [Hr1 Hs1]. clear Hst.
  apply wp_bind, wp_lift. eapply wpr_mono; [by apply (send_fields_spec r1 _ c inc out Hr1); [apply kept_alive_named|]|].
  fold w'. intros [[st r2] c2] (Hr2 & Hs2 & Hw2 & Hrel2 & Hrep2). destruct (Hrel2 Hrel) as [-> Hrel2'].
  specialize (Hrep2 eq_refl). assert (Hs : same r r2) by (by etrans).
  assert (Hck2 : wp (match rs_cookies r2 with None => done c2 | Some _ => response_send_cookies r2 c2 end) o1
    (fun a o' => a = (None, c2) /\ o' = o1)).
  { destruct Hs as (_ & _ & Hc & _). unfold response_send_cookies.
    by destruct Hck as [Hck|Hck]; rewrite Hck in Hc; rewrite Hc. }
  apply wp_bind. eapply wp_mono; [exact Hck2|]. intros a o' [-> ->]. cbn beta iota.
  apply wp_bind, wp_lift. eapply wpr_mono; [by apply connection_write_spec|].
  intros [st c3] (Hw3 & Hrel3 & Hrep3). destruct (Hrel3 Hrel2') as [-> Hrel4].
  apply wp_ret. split; [|intros Hoo; by destruct (Ho1 Hoo)].
  intros _. rewrite app_assoc. split; [exact Hr2|]. split; [exact Hs|]. split; [exact Hrel4|].
  split; [by etrans|auto].
Qed.

(** * The entity *)

(** [body] is what the response sends: its page, or the buffer it was given. *)
Definition entity_held (r : http_response) (body : list Z) : Prop :=
  content_buffer_in_use r = false /\ send_file r = false /\ str_rep (rs_str r Rs_entity) body \/
  content_buffer_in_use r = true /\ zlen body <= BIG_BUFFER /\
  exists junk, content_buffer r = Some ((Some <$> body) ++ junk).

Lemma entity_same r r' body : same r r' -> entity_held r body -> entity_held r' body.
Proof. intros (_ & _ & _ & Hb & Hu & Hf & Hs & _). unfold entity_held. by rewrite Hb, Hu, Hf, Hs. Qed.

Lemma length_held D eh (w : contents) n :
  eh_holds D eh w -> w Length = Some (decimal n) ->
  entity_header_content_length_isset eh = true /\ content_length eh = n.
Proof.
  intros (_ & Hn & _) Hw. rewrite Hw in Hn. destruct (entity_header_content_length_isset eh); [|done].
  split; [done|]. injection Hn as Hn. by apply decimal_inj in Hn.
Qed.

Lemma get_length r D w n :
  holds D r w -> w Length = Some (decimal n) -> response_get_content_length r = Ret n.
Proof.
  intros [[_ He] _] Hn. destruct (length_held _ _ _ _ He Hn) as [Hset Hl].
  unfold response_get_content_length, entity_header_get_content_length, eh_get_number. rewrite Hset.
  unfold entity_header_content_length_isset in Hset. rewrite Hset. cbn. by rewrite Hl.
Qed.

(** The buffer may have been freed. *)
Definition after_send (r r' : http_response) : Prop :=
  rs_general r' = rs_general r /\ rs_entity_header r' = rs_entity_header r /\ rs_flags r' = rs_flags r /\
  rs_str r' = rs_str r /\ rs_status r' = rs_status r /\ rs_cookies r' = rs_cookies r.

Lemma after_send_holds D r r' w : after_send r r' -> holds D r w -> holds D r' w.
Proof.
  intros (Hg & He & Hf & Hs & _) [Hh Hr]. split; [by rewrite Hg, He|]. by eapply rs_holds_frame.
Qed.

Lemma send_entity_spec r w body c inc out :
  holds sent_as r w -> w Length = Some (decimal (zlen body)) -> entity_held r body ->
  Connection.rep c inc out ->
  wpr (response_send_entity file_reads r c) (fun '(st, pcb, r', c') =>
    pcb = Some (zlen body) /\ after_send r r' /\ Connection.writes c c' /\ (reliable c -> st = success) /\
    (st = success -> Connection.rep c' inc (out ++ body))).
Proof.
  intros Hr Hw Hbody Hrep. unfold response_send_entity.
  rewrite (get_length r sent_as w (zlen body)) by done. unfold response_get_entity.
  destruct Hbody as [(-> & -> & Hs)|(-> & Hl & junk & ->)].
  - destruct (str_text_law _ _ Hs) as [_ _]. cbn [res_bind].
    rewrite (str_peek_law _ _ _ Hs) by (pose proof (zlen_nonneg body); lia).
    cbn [res_bind]. unfold zlen. rewrite Nat2Z.id, take_ge by done. wp.
    eapply wpr_mono; [by apply connection_write_spec|]. intros [st c1] (Hw1 & Hrel & Hst). wp.
    split; [done|]. split; [done|]. split; [done|]. split; [|done]. intros Hc. by destruct (Hrel Hc).
  - cbn [res_bind]. rewrite rd_head by (by rewrite zlen_fmap). cbn [res_bind].
    rewrite initialised_bytes. cbn [res_bind]. rewrite (proj2 (Z.ltb_ge _ _)) by done. wp.
    eapply wpr_mono; [by apply connection_write_spec|]. intros [st c1] (Hw1 & Hrel & Hst). wp.
    split; [done|]. split; [by destruct (content_free_when_done r)|]. split; [done|].
    split; [|done]. intros Hc. by destruct (Hrel Hc).
Qed.

End Send.

(** * Status lines *)

Definition status_table (v : http_version) : list (Z * list Z) :=
  if decide (v = VERSION_10) then m_http_status10 else m_http_status11.

Definition status_line (v : http_version) (code : Z) : list Z :=
  default [] (find_status (status_table v) code).

Definition line_reads (v : http_version) (row : Z * list Z) : Prop :=
  exists l, row.2 = l ++ CRLF /\ Forall on_line l /\ zlen l < CCH_STATUSLINE_MAX /\
    forall r, parse_status_line l r = done (response_set_version (response_set_status r row.1) v).

Lemma table_reads v : v = VERSION_10 \/ v = VERSION_11 -> Forall (line_reads v) (status_table v).
Proof.
  assert (Hon : forall l, bool_decide (Forall (fun c => is_char c /\ c <> 13) l) = true -> Forall on_line l)
    by (intros l Hl; by apply bool_decide_eq_true in Hl).
  assert (Hrow : forall v' code l, bool_decide (Forall (fun c => is_char c /\ c <> 13) l) = true ->
    (zlen l <? CCH_STATUSLINE_MAX) = true ->
    (forall r, parse_status_line l r = done (response_set_version (response_set_status r code) v')) ->
    line_reads v' (code, l ++ CRLF)).
  { intros v' code l H1 H2%Z.ltb_lt H3. exists l. split; [done|]. split; [by apply Hon|]. by split. }
  intros [-> | ->];
    [change (status_table VERSION_10) with m_http_status10|change (status_table VERSION_11) with m_http_status11];
    unfold m_http_status10, m_http_status11, status10, status11;
    repeat (constructor; [rewrite (app_assoc (bytes "HTTP/1.0 ")) || rewrite (app_assoc (bytes "HTTP/1.1 "));
      by apply Hrow|]); constructor.
Qed.

Lemma find_status_row l code text : find_status l code = Some text -> (code, text) ∈ l.
Proof.
  induction l as [|[k t] l IH]; [done|]. cbn. destruct (Z.eqb_spec k code) as [->|_].
  - intros [= ->]. by left.
  - intros Hf. right. by apply IH.
Qed.

Definition response_text (v : http_version) (code : Z) (w : contents) (body : list Z) : list Z :=
  status_line v code ++ lines_text (sent w fields) ++ CRLF ++ body.

(** The statuses whose entity is sent. *)
Definition has_entity (code : Z) : Prop := code = HTTP_200_OK \/ code = HTTP_404_NOT_FOUND.

Lemma entity_status v code :
  v = VERSION_10 \/ v = VERSION_11 -> has_entity code ->
  find_status (status_table v) code = Some (status_line v code).
Proof. by intros [-> | ->] [-> | ->]. Qed.

(** The length of the entity is not set, or set to that of the entity. *)
Definition measures (r : http_response) (w : contents) (body : list Z) : Prop :=
  w Length = Some (decimal (zlen body)) \/ w Length = None /\ content_buffer_in_use r = false.

Lemma measured_spec r w body :
  holds sent_as r w -> measures r w body -> entity_held r body ->
  wpr (if entity_header_content_length_isset (rs_entity_header r) then Ret r
       else let+ t := str_text (rs_str r Rs_entity) in Ret (response_set_content_length r (zlen t)))
    (fun r' => holds sent_as r' (measured (zlen body) w) /\ same r r').
Proof.
  intros Hr Hm Hbody. pose proof Hr as [[Hg He] Hrs]. pose proof He as (_ & Hn & _). unfold measured.
  destruct (entity_header_content_length_isset (rs_entity_header r)); rewrite Hn; [done|].
  destruct Hm as [Hm|[_ Huse]]; [congruence|].
  destruct Hbody as [(_ & _ & Hs)|(Hu & _)]; [|congruence].
  destruct (str_text_law _ _ Hs) as [-> _]. wp. split; [|done]. split; [split|].
  - rewrite insert_field, decide_False by done. eapply gh_holds_ext; [|exact Hg]. insert_ext.
  - by apply eh_set_length_spec.
  - eapply rs_holds_ext; [|by eapply rs_holds_frame, Hrs]. insert_ext.
Qed.

Lemma response_send_spec now r w v code body c inc out o :
  now <> -1 -> holds sent_as r w -> named w -> rs_version r = v -> rs_status r = code ->
  v = VERSION_10 \/ v = VERSION_11 -> has_entity code -> measures r w body -> entity_held r body ->
  rs_cookies r = None \/ rs_cookies r = Some [] -> Connection.rep c inc out -> reliable c ->
  let w' := complete now (persistent c && bool_decide (v = VERSION_10)) (zlen body) w in
  wp (response_send now file_reads r c) o (fun '(st, e, (pcb, r', c')) o' =>
    (st = success -> pcb = Some (zlen body) /\ Connection.writes c c' /\ reliable c' /\
       holds sent_as r' w' /\ rs_status r' = code /\ rs_cookies r' = rs_cookies r /\
       rs_str r' Rs_entity = rs_str r Rs_entity /\ rs_str r' Rs_path = rs_str r Rs_path /\
       Connection.rep c' inc (out ++ response_text v code w' body)) /\
    (o = [] -> o' = [] /\ st = success)).
Proof.
  intros Hnow Hr Hw <- <- Hv Hcode Hm Hbody Hck Hrep Hrel w'. unfold response_send.
  assert (Hlen : complete now (persistent c && bool_decide (rs_version r = VERSION_10)) (zlen body) w Length
    = Some (decimal (zlen body))) by (apply complete_length; unfold measures in *; tauto).
  apply wp_bind, wp_lift. eapply wpr_mono; [by apply measured_spec|]. intros r1 [Hr1 Hs1].
  assert (Hw1 : named (measured (zlen body) w)).
  { unfold measured. destruct (w Length); [done|]. by apply named_insert. }
  pose proof Hs1 as (Ev & Es & Ec & _).
  assert (Hstatus : wpr (send_status_code (rs_status r1) (rs_version r1) c) (fun '(st, c') =>
    st = success /\ Connection.writes c c' /\ reliable c' /\
    Connection.rep c' inc (out ++ status_line (rs_version r) (rs_status r)))).
  { unfold send_status_code. fold (status_table (rs_version r1)). rewrite Ev, Es, entity_status by done.
    eapply wpr_mono; [by apply connection_write_spec|]. intros [st c1] (Hp & Hrel1 & Hst).
    destruct (Hrel1 Hrel) as [-> Hrel2]. split; [done|]. split; [exact Hp|]. split; [exact Hrel2|auto]. }
  apply wp_bind, wp_lift. eapply wpr_mono; [exact Hstatus|]. intros [st c1] (-> & Hwr1 & Hrel1 & Hrep1).
  assert (Hp1 : persistent c1 = persistent c) by apply Hwr1.
  cbn beta iota. apply wp_bind.
  eapply wp_mono; [eapply (send_header_spec now Hnow r1 _ c1 inc _ o Hr1 Hw1);
    [by rewrite Ev|by rewrite Ec|exact Hrep1|done]|].
  rewrite Hp1, Ev. intros [[st e] [r2 c2]] o2 [Hst Ho2]. destruct st.
  { match goal with |- wp (if ?b then _ else _) _ _ => destruct b end;
      apply wp_ret; (split; [done|]; intros Hoo; by destruct (Ho2 Hoo)). }
  destruct (Hst eq_refl) as (Hr2 & Hs2 & Hrel2 & Hwr2 & Hrep2).
  pose proof Hs2 as (_ & Es2 & Ec2 & _ & _ & _ & En2 & Ep2). pose proof Hs1 as (_ & _ & _ & _ & _ & _ & En1 & Ep1).
  assert (Hc : negb (rs_status r2 =? HTTP_200_OK) && negb (rs_status r2 =? HTTP_404_NOT_FOUND) = false).
  { rewrite Es2, Es. by destruct Hcode as [-> | ->]. }
  rewrite Hc.
  apply wp_bind, wp_lift. eapply wpr_mono.
  { eapply (send_entity_spec r2 w' body c2 inc _ Hr2 Hlen); [|exact Hrep2].
    eapply entity_same, entity_same, Hbody; [exact Hs2|exact Hs1]. }
  intros [[[st pcb] r3] c3] (-> & Ha & Hwr3 & Hrel3 & Hrep3). rewrite (Hrel3 Hrel2) in *.
  apply wp_ret. split; [|intros Hoo; by destruct (Ho2 Hoo)]. intros _. split; [done|]. specialize (Hrep3 eq_refl).
  pose proof (after_send_holds _ _ _ _ Ha Hr2) as Hr3. destruct Ha as (_ & _ & _ & Hstr & Hst3 & Hck3).
  split; [by etrans; [exact Hwr1|etrans; [exact Hwr2|exact Hwr3]]|].
  split; [by apply (proj2 Hwr3)|]. split; [exact Hr3|]. split; [congruence|]. split; [congruence|].
  split; [congruence|]. split; [congruence|].
  unfold response_text. rewrite <-!app_assoc in *. exact Hrep3.
Qed.

(** * Receiving *)

Lemma read_status_line_spec v code text r c w rest out o :
  v = VERSION_10 \/ v = VERSION_11 -> find_status (status_table v) code = Some text ->
  holds (read_as mktime) r w -> Connection.rep c (text ++ rest) out ->
  wp (read_response_status_line (r, c)) o
    (stores (fun '(r', c') => rs_version r' = v /\ rs_status r' = code /\
       holds (read_as mktime) r' w /\ Connection.rep c' rest out) o).
Proof.
  intros Hv Hf Hr Hrep. apply find_status_row in Hf.
  pose proof (proj1 (list.Forall_forall _ _) (table_reads v Hv) _ Hf) as (l & Ht & Hon & Hl & Hparse).
  cbn [fst snd] in *. subst text. rewrite <-app_assoc in Hrep. unfold read_response_status_line.
  apply wp_bind. eapply wp_mono; [apply (get_line_spec CCH_STATUSLINE_MAX _ r c l rest out o Hrep Hon)|].
  { rewrite fresh_array_length by done. unfold CCH_STATUSLINE_MAX in *. lia. }
  intros [[e l'] s] o' (-> & -> & -> & c' & -> & Hrep' & _). cbn beta iota. rewrite Hparse.
  unfold done. wp. split; [|done]. split; [done|]. split; [done|]. by split.
Qed.

(** What a receiver has of an entity. *)
Definition received (r : http_response) (got : list Z) : Prop :=
  content_buffer_in_use r = true /\ exists junk, content_buffer r = Some ((Some <$> got) ++ junk).

Lemma holds_received r w b n :
  holds (read_as mktime) r w ->
  holds (read_as mktime) (response_set_allocated_content_buffer r b n)
    (<[Length := Some (decimal n)]> w).
Proof.
  intros [[Hg He] [Hs Ho]]. split; [split|split].
  - rewrite insert_field, decide_False by done. eapply gh_holds_ext; [|exact Hg]. insert_ext.
  - by apply eh_set_length_spec.
  - intros f. specialize (Hs f). rewrite insert_field, decide_False by done.
    destruct (rs_flag f) as [x|] eqn:Hx; [|done]. unfold response_flag_isset in *. cbn.
    rewrite lor_other; [done|]. by destruct f; first [discriminate Hx|injection Hx as <-].
  - cbn. by rewrite lor_other.
Qed.

Lemma receive_content_spec r w c body rest out o :
  holds (read_as mktime) r w -> body <> [] -> zlen body < PTRDIFF_MAX ->
  Connection.rep c (body ++ rest) out ->
  wp (receive_content r c (zlen body)) o (fun '(st, e, (r', c')) o' =>
    match st with
    | failure => e = Some (Os_error ENOMEM) /\ o <> []
    | success => exists got left, body = got ++ left /\ got <> [] /\
        rs_version r' = rs_version r /\ rs_status r' = rs_status r /\ received r' got /\
        holds (read_as mktime) r' (<[Length := Some (decimal (zlen got))]> w) /\
        Connection.rep c' (left ++ rest) out
    end).
Proof.
  intros Hr Hne Hlen Hrep. pose proof (zlen_nonneg body) as H0'.
  assert (Hpos : 0 < zlen body) by (destruct body; [done|rewrite zlen_cons; pose proof (zlen_nonneg body); lia]).
  unfold receive_content, PTRDIFF_MAX in *. rewrite u64_small by lia. apply wp_bind, wp_malloc.
  2:{ intros o' Ho. apply wp_ret. split; [done|]. intros Hoo. destruct (Ho Hoo). unfold PTRDIFF_MAX in *. lia. }
  intros o' _ _. cbn beta iota.
  assert (Hblock : replicate (Z.to_nat (zlen body + 1)) (None : cell) = replicate (length body) None ++ [None]).
  { replace (Z.to_nat (zlen body + 1)) with (length body + 1)%nat by (unfold zlen; lia).
    by rewrite replicate_add. }
  rewrite Hblock. apply wp_bind, wp_lift.
  rewrite (stc_app (replicate (length body) None) []) by (by rewrite zlen_replicate). cbn [wpr].
  apply wp_bind, wp_lift.
  eapply wpr_mono; [apply (connection_read_piece c body rest out Hrep Hne); lia|].
  intros [[k bs] c1] (left & -> & Hbs & -> & Hrep1). cbn beta iota. pose proof (zlen_nonneg bs).
  apply wp_bind, wp_lift. rewrite wr_head.
  2:{ rewrite zlen_fmap, zlen_app, zlen_replicate, zlen_cons, length_app. unfold zlen. lia. }
  cbn [wpr]. rewrite (proj2 (Z.eqb_neq (zlen bs) (-1))) by lia. apply wp_ret.
  exists bs, left. split; [done|]. split; [done|]. split; [done|]. split; [done|].
  split; [split; [done|by eexists]|]. split; [by apply holds_received|done].
Qed.

(** What can arrive: fields that carry a string both ways, with values that come
    through. *)
Definition sendable (w : contents) : Prop :=
  forall F v, w F = Some v -> is_Some (header_name F) /\ value_ok mktime F v.

Lemma sendable_named w : sendable w -> named w.
Proof. intros Hw F Hn. destruct (w F) as [v|] eqn:HF; [|done]. destruct (Hw F v HF) as [[? ?] _]. congruence. Qed.

(** The fields of [w] over those of [w0]. *)
Definition overlay (w w0 : contents) : contents :=
  fun F => match w F with Some v => Some v | None => w0 F end.

Lemma stored_overlay w w0 F : named w -> store_all (sent w fields) w0 F = overlay w w0 F.
Proof.
  intros Hw. rewrite store_sent by apply fields_nodup. unfold overlay.
  destruct (decide (F ∈ fields)) as [Hin|Hin]; [done|]. rewrite Hw; [done|].
  destruct (header_name F) eqn:HF; [|done]. destruct Hin. apply fields_named. by eexists.
Qed.

(** What the receiver makes of a stream that starts with a response. *)
Definition arrived (v : http_version) (code : Z) (w : contents) (body rest out : list Z)
    (r' : http_response) (c' : connection) : Prop :=
  rs_version r' = v /\ rs_status r' = code /\
  exists got left, body = got ++ left /\ (body <> [] -> got <> [] /\ received r' got) /\
    holds (read_as mktime) r' (<[Length := Some (decimal (zlen got))]> w) /\
    Connection.rep c' (left ++ rest) out.

Lemma response_receive_spec v code w w0 body r c rest out fuel max o :
  v = VERSION_10 \/ v = VERSION_11 -> has_entity code -> sendable w ->
  w Length = Some (decimal (zlen body)) -> zlen body <= max -> zlen body < PTRDIFF_MAX ->
  holds (read_as mktime) r w0 -> Connection.rep c (response_text v code w body ++ rest) out ->
  (length fields < fuel)%nat ->
  wp (response_receive mktime fuel max (r, c)) o (fun '(st, e, (r', c')) o' =>
    match st with
    | failure => e = Some (Os_error ENOMEM) /\ o <> []
    | success => arrived v code (overlay w w0) body rest out r' c'
    end).
Proof.
  intros Hv Hcode Hw Hlen Hmax Hbig Hr Hrep Hfuel. unfold response_receive.
  pose proof (sendable_named w Hw) as Hn. unfold response_text in Hrep. rewrite <-!app_assoc in Hrep.
  apply wp_bind. eapply wp_mono.
  { eapply (read_status_line_spec v code); [done|by apply entity_status|exact Hr|exact Hrep]. }
  intros [[e|] [r1 c1]] o1 [Hst Ho1].
  { apply wp_ret. destruct Hst as [-> Hne]. by split. }
  destruct Hst as (Hv1 & Hc1 & Hr1 & Hrep1). cbn beta iota. apply wp_bind.
  eapply wp_mono; [apply (read_fields_spec mktime (parse_response_headerfield mktime) (holds (read_as mktime)) same true)
    with (w := w0) (ls := sent w fields) (rest := body ++ rest) (out := out); try done|].
  - intros. by apply handle_response_field.
  - apply list.Forall_forall. intros l [Hin Hl]%sent_elem. by apply Hw.
  - apply sent_nodup, fields_nodup.
  - pose proof (sent_length w fields). lia.
  - intros [[e|] [r2 c2]] o2 [Hst Ho2].
    { apply wp_ret. destruct Hst as [-> Hne]. split; [done|]. auto. }
    destruct Hst as ((Hv2 & Hc2 & _) & Hr2 & Hrep2 & _). cbn beta iota.
    assert (Hr3 : holds (read_as mktime) r2 (overlay w w0)).
    { eapply response_holds_ext; [|exact Hr2]. intros F. by apply stored_overlay. }
    unfold response_get_status. rewrite Hc2, Hc1.
    assert (Hno : no_entity code = false) by (by destruct Hcode as [-> | ->]). rewrite Hno.
    assert (Hlen3 : overlay w w0 Length = Some (decimal (zlen body))) by (unfold overlay; by rewrite Hlen).
    pose proof Hr3 as [[_ He] _]. destruct (length_held _ _ _ _ He Hlen3) as [Hset Hl].
    rewrite Hset. unfold entity_header_get_content_length, eh_get_number.
    unfold entity_header_content_length_isset in Hset. rewrite Hset. apply wp_bind, wp_lift. cbn [guard res_bind wpr].
    rewrite Hl. destruct (Z.eqb_spec (zlen body) 0) as [H0'|H0'].
    + apply zlen_0 in H0'. subst body. apply wp_ret. split; [congruence|]. split; [congruence|].
      exists [], []. split; [done|]. split; [done|]. split; [|done].
      eapply response_holds_ext; [|exact Hr3]. intros F. rewrite insert_field. case_decide; [by subst|done].
    + rewrite (proj2 (Z.ltb_ge _ _)) by done.
      assert (Hne : body <> []) by (intros ->; by rewrite zlen_nil in H0').
      eapply wp_mono; [by apply (receive_content_spec r2 (overlay w w0) c2 body rest out o2)|].
      intros [[st e] [r3 c3]] o3 Hres. destruct st.
      * destruct Hres as [-> Hoo]. split; [done|]. auto.
      * destruct Hres as (got & left & Hb & Hg & Hv3 & Hc3 & Hrec & Hh & Hrep3).
        split; [congruence|]. split; [congruence|]. exists got, left. by split_and!.
Qed.

(** * Recycling *)

(** The strings of the object. *)
Definition rs_strings (r : http_response) : Prop :=
  forall f, exists t, str_rep (rs_str r f) t /\ (rs_flag f <> None -> str_cap (rs_str r f) <= 2 ^ 40).

(** Nothing to send yet. *)
Definition blank_page (r : http_response) : Prop :=
  content_buffer_in_use r = false /\ send_file r = false /\ str_rep (rs_str r Rs_entity) [] /\
  (exists p, str_rep (rs_str r Rs_path) p) /\ (rs_cookies r = None \/ rs_cookies r = Some []).

Lemma holds_strings D r w t p :
  holds D r w -> str_rep (rs_str r Rs_entity) t -> str_rep (rs_str r Rs_path) p -> rs_strings r.
Proof.
  intros [_ [Hr _]] Ht Hp f. specialize (Hr f). destruct (rs_flag f) as [x|] eqn:Hx.
  - destruct Hr as (t1 & Hs & _ & Hc & _). by exists t1.
  - destruct f; try discriminate Hx; by eexists.
Qed.

(** [l]: those that were recycled before. *)
Definition rs_emptied (l : list rs_field) (r : http_response) : Prop :=
  rs_strings r /\ forall f, f ∈ l -> str_rep (rs_str r f) [].

Lemma rs_recycle_spec f l r :
  rs_emptied l r ->
  wpr (rs_recycle f r) (fun r' => rs_emptied (f :: l) r' /\ rs_general r' = rs_general r /\
    rs_entity_header r' = rs_entity_header r /\ rs_cookies r' = rs_cookies r).
Proof.
  intros [Hs Hl]. destruct (Hs f) as (t & Ht & Hc). unfold rs_recycle. wp.
  eapply wpr_mono; [by apply (str_recycle_law _ t)|]. intros s' [Hs' Hc']. wp. split; [|done]. split.
  - intros g. cbn. case_decide as Hd; [|apply Hs]. subst g. exists []. split; [done|]. by rewrite Hc'.
  - intros g [->|Hg]%elem_of_cons; cbn; [by rewrite decide_True|]. case_decide; [done|by apply Hl].
Qed.

Lemma eh_set_fails f eh t o (w : contents) D :
  eh_holds D eh w -> w (E f) = None -> valid_str t -> zlen t <= 2 ^ 38 ->
  wp (eh_set_string f (eh_flag f) eh t) o (fun '(st, eh') o' =>
    eh_holds D eh' (match st with success => <[E f := Some t]> w | failure => w end) /\
    (o = [] -> o' = [] /\ st = success)).
Proof.
  intros He Hw Ht Hl. pose proof He as (Hk & Hrest). destruct (Hk f) as (t0 & Hs & Hv & Hcap & _).
  assert (Hset : wp (eh_set_string f (eh_flag f) eh t) o (fun '(st, eh') o' =>
    (st = success -> eh_holds D eh' (<[E f := Some t]> w)) /\ (o = [] -> o' = [] /\ st = success)))
    by (by apply eh_set_spec).
  unfold eh_set_string, wp, bind in *. pose proof (str_set_law (eh_str eh f) t0 t o Hs Ht) as Hlaw. unfold wp in Hlaw.
  destruct (str_set (eh_str eh f) t o) as [[[st s'] o']|]; [|done]. unfold ret in *.
  cbn beta iota zeta in Hset |- *. destruct st; cbn beta iota zeta in Hset |- *; destruct Hset as [Hset Ho];
    [|split; [by apply Hset|done]].
  destruct Hlaw as (Hs' & Hcap' & _). split; [|done]. split; [|exact Hrest].
  intros g. unfold entity_header_flag_is_set. cbn. destruct (decide (g = f)) as [->|Hne]; [|apply Hk].
  exists []. split; [done|]. rewrite Hw in Hv. unfold entity_header_flag_is_set in Hv. rewrite Hw.
  destruct (negb (Z.land (eh_flags eh) (eh_flag f) =? 0)); [done|]. split; [done|]. split; [lia|done].
Qed.

Definition html : contents := <[E Eh_content_type := Some (bytes "text/html")]> no_contents.

Lemma response_recycle_spec D D' r w t p o :
  holds D r w -> str_rep (rs_str r Rs_entity) t -> str_rep (rs_str r Rs_path) p ->
  wp (response_recycle r) o (fun r' o' =>
    (holds D' r' html \/ holds D' r' no_contents /\ o <> []) /\ blank_page r' /\ (o = [] -> o' = [])).
Proof.
  intros Hr Ht Hp. pose proof Hr as [Hh _]. pose proof (holds_strings _ _ _ _ _ Hr Ht Hp) as Hs0.
  unfold response_recycle. cbn [rs_entity_header rs_with_general]. wp.
  eapply wpr_mono; [exact (headers_recycled D D' _ _ w Hh)|]. intros eh' Hh'. wp.
  set (r0 := rs_with_entity eh' _).
  assert (Hck : wp (match rs_cookies r0 with None => ret r0
      | Some _ => let* l := new_cookies in ret (rs_with_cookies l r0) end) o
    (fun r1 o1 => rs_emptied [] r1 /\ rs_general r1 = general_header_recycle (rs_general r) /\
      rs_entity_header r1 = eh' /\ (rs_cookies r1 = None \/ rs_cookies r1 = Some []) /\ (o = [] -> o1 = []))).
  { assert (Hem : forall l, rs_emptied [] (rs_with_cookies l r0)).
    { intros l. split; [exact Hs0|]. by intros f ?%elem_of_nil. }
    destruct (rs_cookies r0) eqn:Ec.
    - unfold new_cookies. wp. apply wp_alloc_ok. intros b o1 _ Hb. wp. split; [apply Hem|]. split; [done|].
      split; [done|]. split; [destruct b; [by right|by left]|]. intros Ho. by destruct (Hb Ho).
    - wp. split; [by specialize (Hem (rs_cookies r0))|]. split; [done|]. split; [done|]. split; [by left|done]. }
  eapply wp_mono; [exact Hck|]. clear Hck. intros r1 o1 (Hm1 & Hg1 & He1 & Hc1 & Ho1).
  wp. eapply wpr_mono; [by apply (rs_recycle_spec _ _ _ Hm1)|]. clear Hm1. intros r2 (Hm2 & Hg2 & He2 & Hc2).
  wp. eapply wpr_mono; [by apply (rs_recycle_spec _ _ _ Hm2)|]. clear Hm2. intros r3 (Hm3 & Hg3 & He3 & Hc3).
  wp. eapply wpr_mono; [by apply (rs_recycle_spec _ _ _ Hm3)|]. clear Hm3. intros r4 (Hm4 & Hg4 & He4 & Hc4).
  wp. eapply wpr_mono; [by apply (rs_recycle_spec _ _ _ Hm4)|]. clear Hm4. intros r5 (Hm5 & Hg5 & He5 & Hc5).
  wp. eapply wpr_mono; [by apply (rs_recycle_spec _ _ _ Hm5)|]. clear Hm5. intros r6 (Hm6 & Hg6 & He6 & Hc6).
  wp. eapply wpr_mono; [by apply (rs_recycle_spec _ _ _ Hm6)|]. clear Hm6. intros r7 (Hm7 & Hg7 & He7 & Hc7).
  wp. eapply wpr_mono; [by apply (rs_recycle_spec _ _ _ Hm7)|]. clear Hm7. intros r8 (Hm8 & Hg8 & He8 & Hc8).
  wp. eapply wpr_mono; [by apply (rs_recycle_spec _ _ _ Hm8)|]. clear Hm8. intros r9 (Hm9 & Hg9 & He9 & Hc9).
  assert (Hgen : rs_general r9 = general_header_recycle (rs_general r)) by congruence.
  assert (Hent : rs_entity_header r9 = eh') by congruence.
  assert (Hcks : rs_cookies r9 = None \/ rs_cookies r9 = Some []).
  { rewrite Hc9, Hc8, Hc7, Hc6, Hc5, Hc4, Hc3, Hc2. exact Hc1. }
  clear -H0 Hm9 Hgen Hent Hcks Hh' Ho1.
  unfold response_set_content_type, on_entity. cbn [rs_entity_header response_clear_flags rs_with_flags].
  rewrite Hent. destruct Hh' as [Hg' He']. destruct Hm9 as [Hs Hem]. wp.
  eapply wp_mono; [apply (eh_set_fails Eh_content_type eh' (bytes "text/html") o1 no_contents D' He');
    [done|split; [decide_closed|done]|done]|].
  intros [st eh2] o2 [He2 Ho2]. wp. split; [|split].
  - assert (Hrs : rs_holds (rs_with_file false (rs_with_buffer (content_buffer r9) false false
        (rs_with_entity eh2 (response_clear_flags r9)))) (fun _ => None)).
    { split; [|done]. intros f. destruct (rs_flag f) as [x|] eqn:Hx; [|done]. destruct (Hs f) as (t & Ht & Hc).
      exists t. split; [exact Ht|]. split; [done|]. split; [|done]. apply Hc. by rewrite Hx. }
    destruct st; [right; split; [|intros Hoo; by destruct (Ho2 (Ho1 Hoo))]|left].
    + split; [split; [by rewrite <-Hgen in Hg'|exact He2]|exact Hrs].
    + split; [split|].
      * unfold html. rewrite insert_field, decide_False by done. cbn. rewrite Hgen.
        eapply gh_holds_ext; [|exact Hg']. done.
      * exact He2.
      * eapply rs_holds_ext; [|exact Hrs]. done.
  - split; [done|]. split; [done|]. split; [|split].
    + apply Hem. set_solver.
    + exists []. apply Hem. set_solver.
    + exact Hcks.
  - intros Hoo. by destruct (Ho2 (Ho1 Hoo)).
Qed.

(** C4. A response that is sent arrives: for both versions, the statuses whose
    entity is sent, every set of string fields whose values come through, and a
    page or a buffer as the entity, under any behaviour of the allocator,
    [response_send] writes the status line, the fields with the length of the
    entity, the date and the wish to keep the connection added, and the entity.
    From a stream that starts with that, [response_receive], on a response with
    any fields set, makes a response with the same status, version and fields;
    its entity is what one call of [connection_read] gave it: a prefix of the
    entity, not empty unless the entity is, whose length replaces the one that
    was announced, while the rest stays in the stream.  The only error is
    [ENOMEM], and there is none when the allocator does not refuse. *)
Theorem response_roundtrip now v code w w0 body r1 c1 inc1 out1 r2 c2 rest out2 fuel max o :
  let w' := complete now (persistent c1 && bool_decide (v = VERSION_10)) (zlen body) w in
  v = VERSION_10 \/ v = VERSION_11 -> has_entity code -> now <> -1 ->
  sendable w' -> named w -> holds sent_as r1 w -> rs_version r1 = v -> rs_status r1 = code ->
  measures r1 w body -> entity_held r1 body -> rs_cookies r1 = None \/ rs_cookies r1 = Some [] ->
  Connection.rep c1 inc1 out1 -> reliable c1 ->
  holds (read_as mktime) r2 w0 -> Connection.rep c2 (response_text v code w' body ++ rest) out2 ->
  zlen body <= max -> zlen body < PTRDIFF_MAX -> (length fields < fuel)%nat ->
  wp (response_send now file_reads r1 c1) o (fun '(st, e, (pcb, _, c1')) _ =>
    (st = success -> pcb = Some (zlen body) /\
       Connection.rep c1' inc1 (out1 ++ response_text v code w' body)) /\
    (o = [] -> st = success)) /\
  wp (response_receive mktime fuel max (r2, c2)) o (fun '(st, e, (r2', c2')) _ =>
    match st with
    | failure => e = Some (Os_error ENOMEM) /\ o <> []
    | success => arrived v code (overlay w' w0) body rest out2 r2' c2'
    end).
Proof.
  intros w' Hv Hcode Hnow Hw' Hn Hr1 Hv1 Hs1 Hm Hbody Hck Hrep1 Hrel Hr2 Hrep2 Hmax Hbig Hfuel. split.
  - eapply wp_mono; [by apply (response_send_spec now r1 w v code body c1 inc1 out1)|].
    intros [[st e] [[pcb r1'] c1']] o' [Hst Ho]. split; [|intros Hoo; by destruct (Ho Hoo)].
    intros Hs. destruct (Hst Hs) as (Hp & _ & _ & _ & _ & _ & _ & _ & Hrep'). by split.
  - apply response_receive_spec; try done. apply complete_length. unfold measures in Hm. tauto.
Qed.

End Props.

(** * Witness *)

Definition sample_contents : contents := fun F =>
  match F with
  | R Rs_server => Some (bytes "chopped")
  | R Rs_etag => Some (bytes "v1")
  | E Eh_content_type => Some (bytes "text/html")
  | _ => None
  end.

Definition sample_string (F : field) : cstring :=
  match sample_contents F with Some t => string_with t | None => Cstring.fresh end.

Definition sample_body : list Z := bytes "<p>Hello</p>".

(** A response with these fields and the page [body]. *)
Definition sample_response (body : list Z) : http_response :=
  Response VERSION_11 200
    (GH 0 0 0 0 0 0 (fun f => sample_string (G f)))
    (EH ENTITY_HEADER_CONTENT_TYPE_SET 0 0 0 (fun f => sample_string (E f)))
    (Z.lor SERVER ETAG)
    (fun f => if decide (f = Rs_entity) then string_with body else sample_string (R f))
    0 0 (-1) (Some []) None false false false.

Lemma sample_member_rep F : Cstring.rep (sample_string F) (default [] (sample_contents F)).
Proof.
  destruct F as [[]|[]|[]| | | |]; first [exact rep_fresh | apply string_with_rep; reflexivity].
Qed.

Lemma sample_response_holds D body : holds D (sample_response body) sample_contents.
Proof.
  split; [split|].
  - split; [|by intros []]. exists None. split; [|done].
    split; [|by split; [intros []|split; [intros []|]]].
    intros f. exists (default [] (sample_contents (G f))).
    split; [exact (sample_member_rep (G f))|by destruct f].
  - split; [|done]. intros f. exists (default [] (sample_contents (E f))).
    split; [exact (sample_member_rep (E f))|]. split; [by destruct f|]. split; [by destruct f|done].
  - split; [|done]. intros f. destruct (rs_flag f) as [x|] eqn:Hx; [|by destruct f].
    exists (default [] (sample_contents (R f))). pose proof (sample_member_rep (R f)) as Hs.
    by destruct f; (discriminate Hx || injection Hx as <-); (split; [exact Hs|]).
Qed.

Definition sample_complete : contents := complete nov_11 false (zlen sample_body) sample_contents.

Definition sample_text : list Z := response_text VERSION_11 200 sample_complete sample_body.

(** The wire delivers the response in two pieces. *)
Definition sample_arrivals : list arrival := [Arrives (take 150 sample_text); Arrives (drop 150 sample_text)].

Lemma response_roundtrip_witness :
  let c1 := fresh_conn 4096 1 [] [] in
  let c2 := fresh_conn 4096 1 sample_arrivals [] in
  wp (response_send nov_11 (fun _ => None) (sample_response sample_body) c1) []
    (fun '(st, e, (pcb, _, c1')) _ =>
    (st = success -> pcb = Some (zlen sample_body) /\
       Connection.rep c1' [] ([] ++ response_text VERSION_11 200 sample_complete sample_body)) /\
    (([] : oracle) = [] -> st = success)) /\
  wp (response_receive (HttpDate.mktime 0) 50 1000 (sample_response [], c2)) []
    (fun '(st, e, (r2', c2')) _ =>
    match st with
    | failure => e = Some (Os_error ENOMEM) /\ ([] : oracle) <> []
    | success => arrived 0 VERSION_11 200 (overlay sample_complete sample_contents) sample_body [] [] r2' c2'
    end).
Proof.
  apply (response_roundtrip 0 (fun _ => None) nov_11 VERSION_11 200 sample_contents sample_contents sample_body
    (sample_response sample_body) (fresh_conn 4096 1 [] []) [] []
    (sample_response []) (fresh_conn 4096 1 sample_arrivals []) [] [] 50 1000 []).
  - by right.
  - by left.
  - done.
  - intros F v HF. destruct F as [[]|[]|[]| | | |]; try discriminate HF; injection HF as <-;
      (split; [by eexists|]); (split; [unfold on_line; decide_closed|]);
      (split; [by vm_compute|]); (split; [by vm_compute|]); (split; [discriminate|]);
      match goal with
      | |- True => exact I
      | |- exists d, parse_rfc822_date _ _ = _ /\ _ =>
          eexists; split; [vm_compute; reflexivity|discriminate]
      | |- _ => by exists (zlen sample_body)
      end.
  - intros F HF. by destruct F as [[]|[]|[]| | | |].
  - apply sample_response_holds.
  - done.
  - done.
  - by right.
  - left. split; [done|]. split; [done|]. by apply string_with_rep.
  - by right.
  - apply (fresh_rep 4096 1 [] []); [lia|done].
  - done.
  - apply sample_response_holds.
  - rewrite app_nil_r. apply (fresh_rep 4096 1 sample_arrivals []); [lia|done].
  - done.
  - done.
  - apply Nat.ltb_lt. vm_compute. reflexivity.
Defined.
