(* ===== verification/Puts.v ===== *)
(** Puts: the contract of the functions that append to a string.

    [fills t0 m t]: on an object whose string holds [t0], [m] appends [t]; when it
    fails it has appended a part of the text, and it fails only when the allocator
    refuses; of the rest of the object it keeps what [same] says.  [puts_at] is
    the contract for the strings themselves.  The rules follow the shape of the
    code, a chain of appends that stops at the first failure ([and_then],
    [and_put]). *)

From Stdlib Require Import ZArith Lia.
From stdpp Require Import base list numbers.
From S2P Require Import Prelude Cstring HttpBase Response.

(** A call and, when it succeeds, the next. *)
Definition and_then {X} (m : C (status * X)) (k : X -> C (status * X)) : C (status * X) :=
  let* (st, x) := m in
  match st with failure => ret (failure, x) | success => k x end.

Section Fills.
Context `{StringLaws} {X : Type} (field : X -> str) (same : relation X) `{!PreOrder same}.

(** Texts of a length that the allocator can hold, in blocks that it can
    double. *)
Definition fills (t0 : list Z) (m : X -> C (status * X)) (t : list Z) : Prop :=
  zlen (t0 ++ t) <= 2 ^ 38 -> forall x o, str_rep (field x) t0 -> str_cap (field x) <= 2 ^ 40 ->
  wp (m x) o (fun '(st, x') o' => same x x' /\
    (exists p, p `prefix_of` t /\ str_rep (field x') (t0 ++ p) /\ str_cap (field x') <= 2 ^ 40 /\ (st = success -> p = t)) /\
    (o = [] -> o' = [] /\ st = success)).

Lemma fills_nothing t0 : fills t0 (fun x => ret (success, x)) [].
Proof. intros _ x o Hx Hc. wp. split; [done|]. split; [|done]. exists []. by rewrite app_nil_r. Qed.

Lemma fills_then t0 m1 m2 a b :
  fills t0 m1 a -> fills (t0 ++ a) m2 b -> fills t0 (fun x => and_then (m1 x) m2) (a ++ b).
Proof.
  intros H1' H2' Hl x o Hx Hc. rewrite app_assoc in *. unfold and_then. wp.
  eapply wp_mono; [apply H1'; [|done..]|].
  { rewrite zlen_app in Hl. pose proof (zlen_nonneg b). lia. }
  intros [[] x1] o1 (Hsame & (p & Hpre & Hx1 & Hc1 & Hp) & Ho); cbn beta iota.
  - wp. split; [done|]. split; [|intros Hoo; by destruct (Ho Hoo)]. exists p. split; [by apply prefix_app_r|]. done.
  - rewrite (Hp eq_refl) in Hx1. eapply wp_mono; [by apply H2'|].
    intros [st x2] o2 (Hsame2 & (q & Hpre2 & Hx2 & Hc2 & Hq) & Ho2). split; [by etransitivity|].
    split; [|intros Hoo; apply Ho2; by destruct (Ho Hoo)].
    exists (a ++ q). rewrite app_assoc. split; [by apply prefix_app|]. split; [done|]. split; [done|].
    intros Hst. by rewrite (Hq Hst).
Qed.

Lemma fills_eq t0 m t t' : t = t' -> fills t0 m t -> fills t0 m t'.
Proof. by intros ->. Qed.

(** The assertions of a function on its arguments. *)
Lemma fills_assert t0 (c : bool) m t :
  c = true -> fills t0 m t -> fills t0 (fun x => c_assert c;; m x) t.
Proof. intros -> Hm Hl x o Hx Hc. apply wp_bind, wp_lift, wpr_guard; [done|]. by apply Hm. Qed.

(** With memory to spare. *)
Lemma fills_run t0 m t x :
  fills t0 m t -> zlen (t0 ++ t) <= 2 ^ 38 -> str_rep (field x) t0 -> str_cap (field x) <= 2 ^ 40 ->
  exists x', m x [] = Ret ((success, x'), []) /\ str_rep (field x') (t0 ++ t) /\ str_cap (field x') <= 2 ^ 40.
Proof.
  intros Hm Hl Hx Hc. destruct (wp_eq _ _ _ (Hm Hl x [] Hx Hc)) as ([st x'] & o' & E & _ & (p & _ & Hr & Hc' & Hp) & Ho).
  destruct (Ho eq_refl) as [-> ->]. rewrite (Hp eq_refl) in Hr. by exists x'.
Qed.

(** With memory to spare an assertion fails once [t] was appended. *)
Definition aborts (t0 : list Z) (m : X -> C (status * X)) (t : list Z) : Prop :=
  zlen (t0 ++ t) <= 2 ^ 38 -> forall x, str_rep (field x) t0 -> str_cap (field x) <= 2 ^ 40 ->
  m x [] = Fault AssertFailed.

Definition comes_to (t0 : list Z) (m : X -> C (status * X)) (t : list Z * bool) : Prop :=
  if t.2 then fills t0 m t.1 else aborts t0 m t.1.

Lemma comes_to_then t0 m1 m2 a t :
  fills t0 m1 a -> comes_to (t0 ++ a) m2 t -> comes_to t0 (fun x => and_then (m1 x) m2) (a ++ t.1, t.2).
Proof.
  destruct t as [t []]; unfold comes_to; cbn [fst snd]; [apply fills_then|]. intros H1' H2' Hl x Hx Hc.
  rewrite app_assoc in Hl. destruct (fills_run t0 m1 a x H1') as (x' & E & Hx' & Hc'); try done.
  { rewrite zlen_app in Hl. pose proof (zlen_nonneg t). lia. }
  unfold and_then, bind. rewrite E. by apply H2'.
Qed.

End Fills.

Section Puts.
Context `{StringLaws}.

Definition puts_at : list Z -> (str -> C (status * str)) -> list Z -> Prop := fills (fun s => s) (fun _ _ => True).

Lemma puts_done t0 m t s o :
  puts_at t0 m t -> zlen (t0 ++ t) <= 2 ^ 38 -> str_rep s t0 -> str_cap s <= 2 ^ 40 ->
  wp (m s) o (fun '(st, s') o' =>
    (st = success -> str_rep s' (t0 ++ t) /\ str_cap s' <= 2 ^ 40) /\ (o = [] -> o' = [] /\ st = success)).
Proof.
  intros Hm Hl Hs Hc. eapply wp_mono; [by apply Hm|]. intros [st s'] o' (_ & (p & _ & Hr & Hc' & Hp) & Ho).
  split; [|done]. intros Hst. by rewrite <-(Hp Hst).
Qed.

(** An append that does all or nothing. *)
Lemma puts_whole t0 (m : str -> C (status * str)) t :
  (forall s o, str_rep s t0 -> zlen (t0 ++ t) <= 2 ^ 38 ->
     wp (m s) o (fun '(st, s') o' =>
       str_rep s' (match st with success => t0 ++ t | failure => t0 end) /\
       str_cap s' <= Z.max (str_cap s) (3 * (zlen t0 + (zlen t + 1))) /\
       (o = [] -> o' = [] /\ (2 * str_cap s + (zlen t + 1) <= PTRDIFF_MAX -> st = success)))) ->
  puts_at t0 m t.
Proof.
  intros Hm Hl s o Hs Hc. eapply wp_mono; [by apply Hm|]. intros [st s'] o' (Hr & Hcap & Ho).
  rewrite zlen_app in Hl. zlen_facts. split; [done|]. split.
  - destruct st; [exists []|exists t]; rewrite ?app_nil_r.
    + split; [apply prefix_nil|]. split; [done|]. split; [lia|done].
    + split; [done|]. split; [done|]. split; [lia|done].
  - intros Hoo. destruct (Ho Hoo) as [? Hst]. split; [done|]. apply Hst. unfold PTRDIFF_MAX. lia.
Qed.

Lemma puts_nothing t0 : puts_at t0 (fun s => ret (success, s)) [].
Proof. by apply fills_nothing. Qed.

Lemma puts_then t0 m1 m2 a b :
  puts_at t0 m1 a -> puts_at (t0 ++ a) m2 b ->
  puts_at t0 (fun s => and_put (m1 s) m2) (a ++ b).
Proof. by apply fills_then. Qed.

Lemma puts_if t0 (b : bool) m t :
  puts_at t0 m t -> puts_at t0 (fun s => if b then m s else ret (success, s)) (if b then t else []).
Proof. intros Hm. destruct b; [done|apply puts_nothing]. Qed.

(** What is read of other objects on the way. *)
Lemma puts_lift {A} t0 (r : res A) a (k : A -> str -> C (status * str)) t :
  r = Ret a -> puts_at t0 (k a) t -> puts_at t0 (fun s => let* x := lift r in k x s) t.
Proof. by intros ->. Qed.

Lemma puts_peek t0 (k : list Z -> str -> C (status * str)) t :
  puts_at t0 (k t0) t -> puts_at t0 (fun s => let* x := lift (str_text s) in k x s) t.
Proof. intros Hk Hl s o Hs Hc. destruct (str_text_law s t0 Hs) as [-> _]. by apply Hk. Qed.

Lemma short_valid t0 t : Forall is_char t -> zlen (t0 ++ t) <= 2 ^ 38 -> valid_str t.
Proof.
  intros Ht Hl. rewrite zlen_app in Hl. zlen_facts. unfold valid_str, PTRDIFF_MAX. split; [done|lia].
Qed.

Lemma puts_concat t0 t : Forall is_char t -> puts_at t0 (fun s => str_concat s t) t.
Proof.
  intros Ht. apply puts_whole. intros s o Hs Hl.
  eapply wp_mono; [by apply (str_concat_law s t0); [|by eapply short_valid]|]. intros [st s'] o' (Hr & Hcap & Ho).
  zlen_facts. split; [done|]. split; [lia|]. intros Hoo. destruct (Ho Hoo) as [? Hst]. split; [done|].
  intros ?. apply Hst. lia.
Qed.

(** The first [zlen t] bytes of the memory at a pointer. *)
Lemma puts_pcat t0 t rest :
  Forall is_char t -> t <> [] -> puts_at t0 (fun s => str_pcat s ((Some <$> t) ++ rest) (zlen t)) t.
Proof.
  intros Ht Hne. apply puts_whole. intros s o Hs Hl.
  eapply wp_mono; [by apply (str_pcat_law s t0); [|by eapply short_valid|]|]. intros [st s'] o' (Hr & Hcap & Ho).
  zlen_facts. split; [done|]. split; [lia|]. intros Hoo. destruct (Ho Hoo) as [? Hst]. split; [done|].
  intros ?. apply Hst. lia.
Qed.

(** Setting an empty string. *)
Lemma puts_set t : Forall is_char t -> puts_at [] (fun s => str_set s t) t.
Proof.
  intros Ht. apply puts_whole. intros s o Hs Hl.
  eapply wp_mono; [by apply (str_set_law s []); [|by eapply (short_valid [])]|]. intros [st s'] o' (Hr & Hcap & Ho).
  zlen_facts. split; [done|]. split; [rewrite zlen_nil; lia|]. intros Hoo. destruct (Ho Hoo) as [? Hst]. split; [done|].
  intros ?. apply Hst. lia.
Qed.

Lemma puts_char t0 x : is_char x -> puts_at t0 (fun s => str_charcat s x) [x].
Proof.
  intros Hx. apply puts_whole. intros s o Hs Hl. change (zlen [x]) with 1.
  eapply wp_mono; [by apply (str_charcat_law s t0)|]. intros [st s'] o' (Hr & Hcap & Ho).
  zlen_facts. split; [done|]. split; [lia|]. intros Hoo. destruct (Ho Hoo) as [? Hst]. split; [done|].
  intros ?. apply Hst. lia.
Qed.

Lemma puts_printf t0 t : Forall is_char t -> puts_at t0 (fun s => str_printf s t) t.
Proof.
  intros Ht. apply puts_whole. intros s o Hs Hl.
  eapply wp_mono; [by apply (str_printf_law s t0); [|by eapply short_valid]|]. intros [st s'] o' (Hr & Hcap & Ho).
  zlen_facts. split; [done|]. split; [lia|]. intros Hoo. destruct (Ho Hoo) as [? Hst]. split; [done|].
  intros ?. apply Hst. lia.
Qed.

Lemma puts_concat2 t0 a b :
  Forall is_char a -> Forall is_char b -> puts_at t0 (fun s => str_concat2 s a b) (a ++ b).
Proof. intros Ha Hb. unfold str_concat2. apply puts_then; by apply puts_concat. Qed.

Lemma puts_concat3 t0 a b c :
  Forall is_char a -> Forall is_char b -> Forall is_char c ->
  puts_at t0 (fun s => str_concat3 s a b c) (a ++ b ++ c).
Proof. intros Ha Hb Hc. unfold str_concat3. apply puts_then; [|apply puts_then]; by apply puts_concat. Qed.

(** The same on a member of an object. *)
Lemma puts_fills {X} (field : X -> str) (same : relation X) (set : str -> X -> X) t0 put t :
  (forall s x, field (set s x) = s /\ same x (set s x)) -> puts_at t0 put t ->
  fills field same t0 (fun x => let* (st, s) := put (field x) in ret (st, set s x)) t.
Proof.
  intros Hset Hp Hl x o Hx Hc. wp. eapply wp_mono; [by apply Hp|]. intros [st s] o' (_ & H2). wp.
  destruct (Hset s x) as [-> Hsame]. by split.
Qed.

End Puts.
