(* ===== verification/SetCookie.v ===== *)
(** SetCookie: the Set-Cookie fields that a response sends, from
    http/src/response.c; the proofs use the rules for appending of Puts. *)

From Stdlib Require Import ZArith Lia.
From stdpp Require Import base list numbers.
From S2P Require Import Prelude Convert Cstring Gensocket Connection HttpBase GeneralHeader EntityHeader HeaderProps Cookies Response Puts.

(** * The line of a cookie *)

Definition escaped (v : list Z) : list Z :=
  v ≫= fun c => if c =? APOSTROPHE then [BACKSLASH; c] else [c].

Definition quoted (v : list Z) : list Z := [APOSTROPHE] ++ escaped v ++ [APOSTROPHE].

Record cookie_texts : Type := Texts {
  name_of : list Z;
  value_of : list Z;
  domain_of : list Z;
  comment_of : list Z;
  path_of : list Z;
}.

Definition set_cookie_line (t : cookie_texts) (version max_age secure : Z) : list Z :=
  bytes "Set-Cookie: " ++ name_of t ++ bytes "=" ++ quoted (value_of t) ++ value_of t ++
  (bytes ";Version=" ++ decimal version) ++
  (if negb (max_age =? MAX_AGE_NOT_SET) then bytes ";Max-Age=" ++ decimal max_age else []) ++
  (bytes ";Secure=" ++ decimal secure) ++
  (bytes ";Domain=" ++ domain_of t) ++ (bytes ";Comment=" ++ comment_of t) ++
  (bytes ";Path=" ++ path_of t) ++ CRLF.

Section Cookies.
Context `{StringLaws}.

(** The texts of the members of a cookie. *)
Definition has_texts (c : cookie) (t : cookie_texts) : Prop :=
  str_rep (ck_str c Ck_name) (name_of t) /\ str_rep (ck_str c Ck_value) (value_of t) /\
  str_rep (ck_str c Ck_domain) (domain_of t) /\ str_rep (ck_str c Ck_comment) (comment_of t) /\
  str_rep (ck_str c Ck_path) (path_of t).

Definition line_of (c : cookie) (t : cookie_texts) : list Z :=
  set_cookie_line t (ck_version c) (ck_max_age c) (ck_secure c).

Lemma puts_quoted_loop t0 v : Forall is_char v -> puts_at t0 (fun s => quoted_loop s v) (escaped v).
Proof.
  revert t0. induction v as [|c v IH]; intros t0 Hv; [apply puts_nothing|].
  apply Forall_cons_1 in Hv as [Hc Hv]. cbn [quoted_loop].
  change (escaped (c :: v)) with ((if c =? APOSTROPHE then [BACKSLASH; c] else [c]) ++ escaped v).
  replace ((if c =? APOSTROPHE then [BACKSLASH; c] else [c]) ++ escaped v)
    with ((if c =? APOSTROPHE then [BACKSLASH] else []) ++ [c] ++ escaped v) by (by destruct (c =? APOSTROPHE)).
  apply puts_then; [by apply puts_if, puts_char; unfold is_char, BACKSLASH; lia|].
  apply puts_then; [by apply puts_char|by apply IH].
Qed.

Lemma puts_quoted t0 v : Forall is_char v -> puts_at t0 (fun s => strcat_quoted s v) (quoted v).
Proof.
  intros Hv. unfold strcat_quoted, quoted.
  assert (is_char APOSTROPHE) by (unfold is_char, APOSTROPHE; lia).
  apply puts_then; [by apply puts_char|]. apply puts_then; [by apply puts_quoted_loop|by apply puts_char].
Qed.

Lemma decimal_chars n : Forall is_char (decimal n).
Proof.
  assert (Hd : forall ds, digits ds -> Forall is_char ds).
  { intros ds. apply Forall_impl. intros c Hc. unfold isdigit, in_range in Hc. unfold is_char. zreflect. lia. }
  unfold decimal. zcase; [constructor; [decide_closed|]|]; apply Hd, decimal_nat_digits; lia.
Qed.

Lemma create_spec c t :
  has_texts c t -> puts_at [] (create_cookie_string c) (line_of c t).
Proof.
  intros (Hn & Hv & Hd & Hc & Hp).
  assert (Htext : forall f u, str_rep (ck_str c f) u -> str_text (ck_str c f) = Ret u /\ Forall is_char u).
  { intros f u Hu. destruct (str_text_law _ _ Hu) as [? [? _]]. done. }
  apply Htext in Hn as [En Hn]. apply Htext in Hv as [Ev Hv]. apply Htext in Hd as [Ed Hd].
  apply Htext in Hc as [Ec Hc]. apply Htext in Hp as [Ep Hp].
  assert (Hnum : forall l n, bool_decide (Forall is_char l) = true -> Forall is_char (l ++ decimal n)).
  { intros l n Hl%bool_decide_eq_true. apply Forall_app. split; [done|apply decimal_chars]. }
  assert (Hlit : forall l, bool_decide (Forall is_char l) = true -> Forall is_char l)
    by (intros l Hl; by apply bool_decide_eq_true in Hl).
  unfold line_of, set_cookie_line, create_cookie_string.
  apply (puts_lift _ _ _ _ _ En). apply puts_then; [by apply puts_set, Hlit|].
  apply puts_then; [by apply puts_concat|]. apply (puts_lift _ _ _ _ _ Ev).
  apply puts_then; [by apply puts_char; decide_closed|]. apply puts_peek.
  assert (Hq : need_quote ((([] ++ bytes "Set-Cookie: ") ++ name_of t) ++ bytes "=") = true) by reflexivity.
  rewrite Hq. apply puts_then; [by apply puts_quoted|]. apply puts_then; [by apply puts_concat|].
  apply puts_then; [by apply puts_printf, Hnum|].
  apply puts_then; [by apply puts_if, puts_printf, Hnum|].
  apply puts_then; [by apply puts_printf, Hnum|].
  apply (puts_lift _ _ _ _ _ Ed), puts_then; [by apply puts_concat2; [apply Hlit|]|].
  apply (puts_lift _ _ _ _ _ Ec), puts_then; [by apply puts_concat2; [apply Hlit|]|].
  apply (puts_lift _ _ _ _ _ Ep), puts_then; [by apply puts_concat2; [apply Hlit|]|].
  by apply puts_concat, Hlit.
Qed.

Lemma send_cookie_spec ck t c inc out o :
  has_texts ck t -> zlen (line_of ck t) <= 2 ^ 38 -> Connection.rep c inc out -> reliable c ->
  wp (send_cookie ck c) o (fun '(e, c') o' =>
    (e = None -> Connection.rep c' inc (out ++ line_of ck t) /\ reliable c') /\
    (o = [] -> o' = [] /\ e = None)).
Proof.
  intros Ht Hl Hrep Hrel. unfold send_cookie. wp.
  eapply wp_mono; [apply str_new_law|]. intros [s|] o1 [Hnew Ho1].
  2:{ unfold reports. wp. split; [done|]. intros ->. by destruct Ho1 as [_ [? ?]]. }
  destruct (Hnew s eq_refl) as [Hs Hcap]. wp.
  eapply wp_mono; [apply (puts_done [] _ _ s o1 (create_spec ck t Ht) Hl Hs); lia|]. intros [[] s1] o2 [Hst Ho2].
  { unfold reports. wp. split; [done|]. intros Hoo. destruct (Ho1 Hoo) as [Hoo1 _]. by destruct (Ho2 Hoo1). }
  destruct (Hst eq_refl) as [Hs1 _]. destruct (str_text_law s1 _ Hs1) as [-> _]. apply wp_lift_ret. wp.
  eapply wpr_mono; [by apply connection_write_spec|]. intros [st c1] (_ & Hrel1 & Hrep1).
  destruct (Hrel1 Hrel) as [-> Hrel2]. unfold done. wp. split; [by split; [apply Hrep1|]|].
  intros Hoo. destruct (Ho1 Hoo) as [Hoo1 _]. by destruct (Ho2 Hoo1).
Qed.

Definition lines_of (l : list (cookie * cookie_texts)) : list Z := concat (uncurry line_of <$> l).

(** What response_send_cookies writes: for every list of cookies, under any
    behaviour of the allocator, one line for each cookie, in the order they were
    set.  In each line the value is there twice: quoted, since the test for
    characters that need quotes is made on the text so far, which has a colon
    and a space, and again as it is.  Attributes that are not set are sent with
    no value.  The only failure is that of the allocator. *)
Theorem set_cookie_lines r l c inc out o :
  rs_cookies r = Some l.*1 -> Forall (fun ct => has_texts ct.1 ct.2 /\ zlen (line_of ct.1 ct.2) <= 2 ^ 38) l ->
  Connection.rep c inc out -> reliable c ->
  wp (response_send_cookies r c) o (fun '(e, c') o' =>
    (e = None -> Connection.rep c' inc (out ++ lines_of l)) /\
    (o = [] -> o' = [] /\ e = None)).
Proof.
  intros Hr Hl Hrep Hrel. unfold response_send_cookies. rewrite Hr. clear Hr.
  revert c out o Hrep Hrel. induction Hl as [|[ck t] l [Ht Hlen] _ IH]; intros c out o Hrep Hrel.
  { unfold done. cbn [fmap list_fmap send_all_cookies]. unfold done. wp. unfold lines_of. cbn.
    by rewrite app_nil_r. }
  cbn [fmap list_fmap fst send_all_cookies]. cbn [fst snd] in *. wp.
  eapply wp_mono; [by apply (send_cookie_spec ck t c inc out o)|]. intros [[e|] c1] o1 [Hst Ho].
  - wp. split; [done|]. intros Hoo. by destruct (Ho Hoo).
  - destruct (Hst eq_refl) as [Hrep1 Hrel1]. eapply wp_mono; [by apply IH|].
    intros [e c2] o2 [Hst2 Ho2]. change (lines_of ((ck, t) :: l)) with (line_of ck t ++ lines_of l).
    rewrite app_assoc. split; [done|]. intros Hoo. apply Ho2. by destruct (Ho Hoo).
Qed.

End Cookies.

(** * Witness *)

Definition sample_cookie : cookie :=
  Cookie (fun f => match f with
    | Ck_name => string_with (bytes "id")
    | Ck_value => string_with (bytes "a1")
    | Ck_path => string_with (bytes "/")
    | _ => Cstring.fresh
    end) MAX_AGE_NOT_SET 0 1.

Definition sample_texts : cookie_texts := Texts (bytes "id") (bytes "a1") [] [] (bytes "/").

Definition sample_jar : http_response :=
  Response VERSION_11 200 (GH 0 0 0 0 0 0 (fun _ => Cstring.fresh)) (EH 0 0 0 0 (fun _ => Cstring.fresh))
    0 (fun _ => Cstring.fresh) 0 0 (-1) (Some [sample_cookie]) None false false false.

Lemma set_cookie_lines_witness :
  let c := fresh_conn 4096 1 [] [] in
  lines_of [(sample_cookie, sample_texts)] =
    bytes "Set-Cookie: id='a1'a1;Version=1;Secure=0;Domain=;Comment=;Path=/" ++ CRLF /\
  wp (response_send_cookies sample_jar c) [] (fun '(e, c') o' =>
    (e = None -> Connection.rep c' [] ([] ++ lines_of [(sample_cookie, sample_texts)])) /\
    (([] : oracle) = [] -> o' = [] /\ e = None)).
Proof.
  split; [by vm_compute|].
  apply (set_cookie_lines sample_jar [(sample_cookie, sample_texts)] (fresh_conn 4096 1 [] []) [] [] []).
  - done.
  - constructor; [|constructor]. split; [|by vm_compute].
    split; [by apply string_with_rep|]. split; [by apply string_with_rep|].
    split; [exact rep_fresh|]. split; [exact rep_fresh|by apply string_with_rep].
  - apply (fresh_rep 4096 1 [] []); [lia|done].
  - done.
Defined.
