(* ===== verification/Chunked.v ===== *)
(** Chunked: the entities that come in chunks.

    A chunk is a line with its length in hexadecimal, its bytes and the end of a
    line; a chunk of length 0 ends the entity.  [read_chunked_response] is
    composed of [get_chunklen], [grow] and [read_chunk]; the lemmas go through
    them in this order. *)

From Stdlib Require Import ZArith Lia.
From stdpp Require Import base list numbers.
From S2P Require Import Prelude Convert Cstring MetaMisc Gensocket Connection HttpBase HeaderLines.
From S2P Require Import GeneralHeader EntityHeader HeaderProps Response ResponseProps.

(** * A line of a connection *)

Lemma gets_loop_spec l n c d rest out :
  Connection.rep c (l ++ 10 :: rest) out -> Forall (fun x => x <> 10) l -> (length l < n)%nat ->
  wpr (gets_loop n c d) (fun '(st, d', c') =>
    st = success /\ d' = d ++ l ++ [10] /\ Connection.rep c' rest out).
Proof.
  revert n c d. induction l as [|x l IH]; intros n c d Hrep Hl Hn; (destruct n as [|n]; [simpl in Hn; lia|]);
    cbn [gets_loop]; wp; (eapply wpr_mono; [by apply connection_getc_spec|]);
    intros [[st y] c1] (_ & Hst); cbn [app] in Hst; destruct Hst as (-> & -> & Hrep1); cbn beta iota.
  - wp. split_and!; [done|by rewrite ?app_nil_l|done].
  - apply Forall_cons_1 in Hl as [Hx Hl]. rewrite (proj2 (Z.eqb_neq _ _)) by done.
    eapply wpr_mono; [apply (IH n c1 (d ++ [x])); [done|done|simpl in Hn; lia]|].
    intros [[st d'] c2] (-> & -> & Hrep2). split_and!; [done|by rewrite <-app_assoc|done].
Qed.

(** A line that fits its array with its terminator, at the start of it. *)
Lemma gets_into_spec l c buf rest out :
  Connection.rep c (l ++ 10 :: rest) out -> Forall (fun x => x <> 10) l -> zlen l + 2 <= zlen buf ->
  wpr (gets_into c buf) (fun '(st, buf', c') =>
    st = success /\ Connection.rep c' rest out /\ zlen buf' = zlen buf /\
    exists junk, buf' = cstr (l ++ [10]) ++ junk).
Proof.
  intros Hrep Hl Hfit. pose proof (zlen_nonneg l). unfold gets_into, connection_gets.
  rewrite (proj2 (Z.ltb_lt _ _)) by lia. cbn [guard res_bind]. wp.
  eapply wpr_mono; [apply (gets_loop_spec l _ c [] rest out Hrep Hl); unfold zlen in *; lia|].
  intros [[st d] c1] (-> & -> & Hrep1). cbn [app]. cbn beta iota.
  assert (Hd : zlen (l ++ [10]) = zlen l + 1) by (rewrite zlen_app; done).
  rewrite Hd, (proj2 (Z.ltb_lt _ _)) by lia. cbn [wpr].
  assert (Hc : Some <$> ((l ++ [10]) ++ [0]) = cstr (l ++ [10])) by (unfold cstr; by rewrite fmap_app).
  rewrite Hc. wp. rewrite wr_head by (rewrite zlen_cstr; lia). wp. split; [done|]. split; [done|].
  split; [|by eexists]. pose proof (zlen_cstr (l ++ [10])) as Hz. set (text := cstr (l ++ [10])) in *.
  assert (length text <= length buf)%nat by (unfold zlen in *; lia).
  rewrite zlen_app, zlen_drop by done. unfold zlen. lia.
Qed.

(** * The length of a chunk *)

Lemma rtrim_loop_spaces a ws n :
  Forall (fun c => isspace c = true) ws -> (forall c, list.last a = Some c -> isspace c = false) ->
  n = length (a ++ ws) -> rtrim_loop n (a ++ ws) = a.
Proof.
  revert n. induction ws as [|c ws IH] using rev_ind; intros n Hws Ha ->.
  - rewrite app_nil_r. destruct a as [|c a _] using rev_ind; [done|].
    rewrite length_app. cbn [length]. rewrite Nat.add_1_r. cbn [rtrim_loop].
    rewrite list_lookup_middle by done. rewrite Ha; [done|]. by rewrite list.last_snoc.
  - apply Forall_app in Hws as [Hws Hc]. apply Forall_cons_1 in Hc as [Hc _].
    rewrite app_assoc, length_app. cbn [length]. rewrite Nat.add_1_r. cbn [rtrim_loop].
    rewrite list_lookup_middle by done. rewrite Hc, take_app_length. by apply IH.
Qed.

(** The text of a number without the white space around it. *)
Definition size_text (h : list Z) (n : Z) : Prop :=
  hextosize_t h = inr n /\ Forall (fun c => is_char c /\ isspace c = false) h /\ zlen h <= 1000.

#[export] Instance size_text_dec h n : Decision (size_text h n).
Proof. unfold size_text. apply _. Defined.

Lemma size_text_ne h n : size_text h n -> h <> [].
Proof. by intros [Hh _] ->. Qed.

Lemma size_text_trim h n :
  size_text h n -> rtrim (ltrim (h ++ [13; 10])) = h /\ allws (h ++ [13; 10]) = false.
Proof.
  intros Hh. pose proof (size_text_ne h n Hh). destruct Hh as (_ & Hc & _). destruct h as [|c h]; [done|].
  pose proof (Forall_inv Hc) as [_ Hsp]. split.
  - unfold ltrim. cbn [app skip_while]. rewrite Hsp. unfold rtrim.
    change (c :: h ++ [13; 10]) with ((c :: h) ++ [13; 10]).
    apply rtrim_loop_spaces; [by repeat constructor| |done].
    intros x Hx. apply list.last_Some_elem_of in Hx.
    by pose proof (proj1 (list.Forall_forall _ _) Hc x Hx) as [_ ?].
  - unfold allws. cbn. by rewrite Hsp.
Qed.

(** The line of the length, behind the end of the chunk before it. *)
Lemma get_chunklen_spec pre h n c rest out :
  pre = [] \/ pre = CRLF -> size_text h n -> Connection.rep c (pre ++ h ++ CRLF ++ rest) out ->
  wpr (get_chunklen c) (fun '(len, c') => len = Some n /\ Connection.rep c' rest out).
Proof.
  intros Hpre Hh Hrep. destruct (size_text_trim h n Hh) as [Htrim Hws]. destruct Hh as (Hhex & Hc & Hl).
  assert (Hline : forall buf c0, zlen buf = 1024 -> Connection.rep c0 (h ++ CRLF ++ rest) out ->
    wpr (gets_into c0 buf) (fun '(st, buf', c') => st = success /\ Connection.rep c' rest out /\
      exists junk, buf' = cstr (h ++ [13; 10]) ++ junk)).
  { intros buf c0 Hbuf Hrep0. change CRLF with ([13] ++ [10]) in Hrep0. rewrite <-app_assoc, (app_assoc h) in Hrep0.
    eapply wpr_mono; [apply (gets_into_spec (h ++ [13]) c0 buf rest out Hrep0)|].
    - apply Forall_app. split; [|by repeat constructor]. eapply Forall_impl; [|exact Hc]. by intros x [_ Hx] ->.
    - rewrite zlen_app. change (zlen [13]) with 1. lia.
    - intros [[st buf'] c'] (-> & Hrep' & _ & junk & ->). split; [done|]. split; [done|].
      exists junk. by rewrite <-app_assoc. }
  assert (Hchars : Forall is_char (h ++ [13; 10])).
  { apply Forall_app. split; [|decide_closed]. by eapply Forall_impl; [|exact Hc]; intros ? []. }
  assert (Hlen : zlen (fresh_array 1024) = 1024) by (by rewrite fresh_array_length).
  unfold get_chunklen. wp. destruct Hpre as [-> | ->].
  - eapply wpr_mono; [by apply (Hline _ c)|]. intros [[st buf] c1] (-> & Hrep1 & junk & ->). cbn beta iota.
    rewrite str_at_here by done. cbn [res_bind wpr]. rewrite Hws. wp. rewrite str_at_here by done. wp.
    by rewrite Htrim, Hhex.
  - change (CRLF ++ h ++ CRLF ++ rest) with ([13] ++ 10 :: (h ++ CRLF ++ rest)) in Hrep.
    eapply wpr_mono; [apply (gets_into_spec [13] c _ _ out Hrep); [by repeat constructor|by rewrite Hlen]|].
    intros [[st buf] c1] (-> & Hrep1 & Hb & junk & ->). cbn beta iota.
    rewrite str_at_here by decide_closed. cbn [res_bind wpr]. change (allws ([13] ++ [10])) with true. cbn beta iota. wp.
    eapply wpr_mono; [apply (Hline _ c1); [congruence|done]|].
    intros [[st buf] c2] (-> & Hrep2 & junk' & ->). cbn beta iota. rewrite str_at_here by done. wp.
    by rewrite Htrim, Hhex.
Qed.

(** * The bytes of a chunk *)

Lemma read_chunk_spec fuel c got data rest out :
  Connection.rep c (data ++ rest) out -> data <> [] -> zlen got + zlen data < 2 ^ 63 ->
  (length data <= fuel)%nat ->
  wpr (read_chunk fuel c ((Some <$> got) ++ replicate (length data) None) (zlen got) (zlen data))
    (fun '(p, c') => p = Some (Some <$> (got ++ data), zlen (got ++ data)) /\ Connection.rep c' rest out).
Proof.
  revert c got data. induction fuel as [|fuel IH]; intros c got data Hrep Hne Hl Hfuel;
    pose proof (zlen_nonneg got); pose proof (zlen_nonneg data).
  { destruct data; [done|simpl in Hfuel; lia]. }
  cbn [read_chunk]. wp. eapply wpr_mono; [apply (connection_read_piece c data rest out Hrep Hne); lia|].
  intros [[k bs] c1] (left & -> & Hbs & -> & Hrep1). cbn beta iota.
  rewrite wr_tail by (rewrite ?zlen_fmap, ?zlen_replicate, ?length_app; unfold zlen; lia). wp.
  pose proof (zlen_nonneg bs). pose proof (zlen_nonneg left). rewrite zlen_app in *.
  rewrite (proj2 (Z.ltb_ge _ _)) by lia. rewrite !u64_small by lia.
  assert (Hblock : (Some <$> got) ++ (Some <$> bs) ++ drop (length (Some <$> bs)) (replicate (length (bs ++ left)) None)
    = (Some <$> (got ++ bs)) ++ replicate (length left) (None : cell)).
  { rewrite fmap_app, <-app_assoc. do 2 f_equal. rewrite drop_replicate, length_fmap, length_app. f_equal. lia. }
  rewrite Hblock. replace (zlen bs + zlen left - zlen bs) with (zlen left) by lia.
  rewrite <-zlen_app. destruct (Z.eqb_spec (zlen left) 0) as [H0'|H0'].
  - apply zlen_0 in H0'. subst left. wp. rewrite !app_nil_r in *. by split.
  - assert (left <> []) by (by intros ->). eapply wpr_mono.
    + apply (IH c1 (got ++ bs) left Hrep1); [done|rewrite zlen_app; lia|].
      rewrite length_app in Hfuel. destruct bs; [done|]. simpl in Hfuel. lia.
    + by rewrite <-!app_assoc.
Qed.

(** * The entity *)

(** A chunk: the text of its length, and its bytes. *)
Abbreviation chunk := (list Z * list Z)%type.

Definition chunk_ok (k : chunk) : Prop := size_text k.1 (zlen k.2) /\ k.2 <> [].

Definition chunk_text (k : chunk) : list Z := k.1 ++ CRLF ++ k.2 ++ CRLF.

Definition entity_of (ks : list chunk) : list Z := concat ks.*2.

(** What is received of an entity in chunks: up to the line with the length 0. *)
Definition chunked_text (ks : list chunk) (last : list Z) : list Z :=
  concat (chunk_text <$> ks) ++ last ++ CRLF.

(** The block while chunks are read. *)
Definition content_of (got : list Z) (content : option block) : Prop :=
  match content with
  | None => got = []
  | Some b => got <> [] /\ b = Some <$> got
  end.

Section Decode.
Context `{StringLaws}.
Variable max : Z.

Lemma grow_spec content got n o :
  content_of got content -> 0 < n -> zlen got + n < 2 ^ 63 ->
  wp (grow content (u64 (zlen got + n))) o (fun b o' =>
    match b with
    | Some b => b = (Some <$> got) ++ replicate (Z.to_nat n) None
    | None => o <> []
    end /\ (o = [] -> o' = [])).
Proof.
  intros Hc Hn Hl. pose proof (zlen_nonneg got). rewrite u64_small by lia. unfold grow.
  destruct content as [b|]; cbn in Hc.
  - destruct Hc as [Hne ->]. rewrite (proj2 (Z.eqb_neq _ _)) by lia. apply wp_realloc.
    + intros o' _ Ho. split; [|done]. rewrite take_ge by (rewrite length_fmap; unfold zlen; lia).
      do 2 f_equal. rewrite length_fmap. unfold zlen. lia.
    + intros o' Ho. split; intros Hoo; destruct (Ho Hoo); [unfold PTRDIFF_MAX in *; lia|done].
  - subst got. rewrite zlen_nil, Z.add_0_l in *. apply wp_malloc.
    + intros o' _ Ho. by split.
    + intros o' Ho. split; intros Hoo; destruct (Ho Hoo); [unfold PTRDIFF_MAX in *; lia|done].
Qed.

Lemma chunked_loop_spec ks last fuel r c pre content got rest out o :
  pre = [] \/ pre = CRLF -> Forall chunk_ok ks -> size_text last 0 -> content_of got content ->
  Connection.rep c (pre ++ chunked_text ks last ++ rest) out ->
  zlen (got ++ entity_of ks) <= max -> zlen (got ++ entity_of ks) < 2 ^ 63 ->
  (length ks + length (entity_of ks) < fuel)%nat ->
  wp (chunked_loop fuel r c max content (zlen got)) o (fun '(st, e, (r', c')) _ =>
    match st with
    | success => got ++ entity_of ks <> [] /\ Connection.rep c' rest out /\
        r' = response_set_allocated_content_buffer r (Some <$> (got ++ entity_of ks)) (zlen (got ++ entity_of ks))
    | failure => r' = r /\
        (e = Some (Os_error ENOSPC) /\ o <> [] \/
         e = None /\ got ++ entity_of ks = [] /\ Connection.rep c' rest out)
    end).
Proof.
  intros Hpre Hks Hlast. revert fuel c pre content got o Hpre.
  induction Hks as [|[h data] ks [Hh Hd] _ IH]; intros fuel c pre content got o Hpre Hcont Hrep Hmax Hbig Hfuel;
    (destruct fuel as [|fuel]; [lia|]); cbn [chunked_loop]; apply wp_bind, wp_lift.
  - unfold chunked_text in Hrep. cbn in Hrep. rewrite <-app_assoc in Hrep.
    eapply wpr_mono; [by apply (get_chunklen_spec pre last 0)|]. intros [len c1] [-> Hrep1]. cbn.
    rewrite app_nil_r in *. destruct content as [b|]; cbn in Hcont |- *.
    + destruct Hcont as [Hne ->]. by split.
    + subst got. split; [done|]. by right.
  - cbn [fst snd] in *. change (entity_of ((h, data) :: ks)) with (data ++ entity_of ks) in *.
    change (chunked_text ((h, data) :: ks) last) with ((chunk_text (h, data) ++ concat (chunk_text <$> ks)) ++ last ++ CRLF) in Hrep.
    assert (Hpos : 0 < zlen data) by (destruct data; [done|rewrite zlen_cons; pose proof (zlen_nonneg data); lia]).
    pose proof (zlen_nonneg got). pose proof (zlen_nonneg (entity_of ks)). rewrite !zlen_app in Hmax, Hbig.
    unfold chunk_text in Hrep at 1. cbn [fst snd] in Hrep.
    eapply wpr_mono; [apply (get_chunklen_spec pre h (zlen data) c (data ++ CRLF ++ chunked_text ks last ++ rest) out Hpre Hh)|].
    { unfold chunked_text. rewrite <-!app_assoc in *. exact Hrep. }
    intros [len c1] [-> Hrep1]. cbn beta iota. rewrite (proj2 (Z.eqb_neq _ _)) by lia.
    rewrite (proj2 (Z.ltb_ge _ _)) by (rewrite u64_small; lia). apply wp_bind.
    eapply wp_mono; [apply (grow_spec content got (zlen data) o Hcont); lia|].
    intros [b|] o1 [Hb Ho1]; cbn beta iota; [|apply wp_ret; split; [done|by left]].
    subst b. replace (Z.to_nat (zlen data)) with (length data) by (unfold zlen; lia).
    apply wp_bind, wp_lift. rewrite length_app in Hfuel. cbn [length] in Hfuel. eapply wpr_mono.
    { apply (read_chunk_spec fuel c1 got data _ out Hrep1 Hd); lia. }
    intros [p c2] [-> Hrep2]. cbn beta iota.
    eapply wp_mono; [apply (IH fuel c2 CRLF (Some (Some <$> (got ++ data))) (got ++ data) o1)|].
    + by right.
    + split; [|done]. destruct got; [by destruct data|done].
    + exact Hrep2.
    + rewrite !zlen_app. lia.
    + rewrite !zlen_app. lia.
    + lia.
    + rewrite <-!app_assoc. intros [[[] e] [r' c']] o'; [|done].
      intros [-> [[He Ho]|(_ & Hnil & _)]]; (split; [done|]); [left; split; [done|]; auto|].
      destruct got; [by destruct data|done].
Qed.

(** C17. An entity in chunks is put together: from a stream that starts with
    chunks, whatever the texts of their lengths, a line with the length 0 behind
    them, and that arrives in pieces of any size, [read_chunked_response] makes
    the bytes of the chunks, in order, the content of the response, in a block of
    their number, and stops behind the line with the length 0; under any
    behaviour of the allocator the only error is [ENOSPC], and there is none when
    the allocator does not refuse.  The empty line that ends the message is left
    in the stream.  Without any chunk the call fails, with no error. *)
Theorem chunked_decoded ks last fuel r c rest out o :
  Forall chunk_ok ks -> size_text last 0 -> Connection.rep c (chunked_text ks last ++ rest) out ->
  zlen (entity_of ks) <= max -> zlen (entity_of ks) < 2 ^ 63 ->
  (length ks + length (entity_of ks) < fuel)%nat ->
  wp (read_chunked_response fuel r c max) o (fun '(st, e, (r', c')) _ =>
    match st with
    | success => ks <> [] /\ Connection.rep c' rest out /\
        r' = response_set_allocated_content_buffer r (Some <$> entity_of ks) (zlen (entity_of ks))
    | failure => r' = r /\
        (e = Some (Os_error ENOSPC) /\ o <> [] \/ e = None /\ ks = [] /\ Connection.rep c' rest out)
    end).
Proof.
  intros Hks Hlast Hrep Hmax Hbig Hfuel. unfold read_chunked_response.
  eapply wp_mono; [apply (chunked_loop_spec ks last fuel r c [] None [] rest out o); [by left|done..]|].
  cbn [app]. intros [[[] e] [r' c']] _.
  - intros [-> [[He Ho]|(He & Hnil & Hr)]]; (split; [done|]); [by left|]. right. split; [done|]. split; [|done].
    destruct Hks as [|k ks [_ Hk] _]; [done|]. cbn in Hnil. by apply app_eq_nil in Hnil as [? _].
  - intros (Hne & Hr & Hres). split; [|done]. by intros ->.
Qed.

Lemma bind_run {A B} (m : C A) (k : A -> C B) o a o' : m o = Ret (a, o') -> bind m k o = k a o'.
Proof. unfold bind. by intros ->. Qed.
Lemma bind_lift_run {A B} (m : res A) (k : A -> C B) o a : m = Ret a -> bind (lift m) k o = k a o.
Proof. by intros ->. Qed.

(** The chunks before the one that is looked at, when memory lasts. *)
Lemma chunked_loop_prefix ks fuel r c pre content got rest out :
  pre = [] \/ pre = CRLF -> Forall chunk_ok ks -> content_of got content ->
  Connection.rep c (pre ++ concat (chunk_text <$> ks) ++ rest) out ->
  zlen (got ++ entity_of ks) <= max -> zlen (got ++ entity_of ks) <= PTRDIFF_MAX ->
  (length ks + length (entity_of ks) < fuel)%nat ->
  exists fuel' c' pre' content',
    chunked_loop fuel r c max content (zlen got) [] =
      chunked_loop (Datatypes.S fuel') r c' max content' (zlen (got ++ entity_of ks)) [] /\
    content_of (got ++ entity_of ks) content' /\ (pre' = [] \/ pre' = CRLF) /\ Connection.rep c' (pre' ++ rest) out /\
    (fuel <= Datatypes.S fuel' + length ks)%nat.
Proof.
  intros Hpre Hks. revert fuel c pre content got Hpre.
  induction Hks as [|[h data] ks [Hh Hd] _ IH]; intros fuel c pre content got Hpre Hcont Hrep Hmax Hbig Hfuel;
    (destruct fuel as [|fuel]; [lia|]).
  { exists fuel, c, pre, content. change (entity_of []) with ([] : list Z). rewrite app_nil_r.
    split; [done|]. split; [done|]. split; [done|]. split; [done|cbn; lia]. }
  cbn [fst snd] in *. change (entity_of ((h, data) :: ks)) with (data ++ entity_of ks) in *.
  cbn [fmap list_fmap concat] in Hrep. unfold chunk_text in Hrep at 1. cbn [fst snd] in Hrep.
  assert (Hpos : 0 < zlen data) by (destruct data; [done|rewrite zlen_cons; pose proof (zlen_nonneg data); lia]).
  pose proof (zlen_nonneg got). pose proof (zlen_nonneg (entity_of ks)). rewrite !zlen_app in Hmax, Hbig.
  unfold PTRDIFF_MAX in Hbig. rewrite <-!app_assoc in Hrep.
  destruct (wpr_eq _ _ (get_chunklen_spec pre h (zlen data) c _ out Hpre Hh Hrep)) as ([len c1] & E1 & -> & Hrep1).
  destruct (wp_eq _ _ _ (grow_spec content got (zlen data) [] Hcont Hpos ltac:(lia))) as (b & o1 & E2 & Hb & Ho1).
  rewrite (Ho1 eq_refl) in E2. destruct b as [b|]; [|done]. subst b.
  replace (Z.to_nat (zlen data)) with (length data) in E2 by (unfold zlen; lia).
  rewrite length_app in Hfuel. cbn [length] in Hfuel.
  destruct (wpr_eq _ _ (read_chunk_spec fuel c1 got data _ out Hrep1 Hd ltac:(lia) ltac:(lia))) as ([p c2] & E3 & -> & Hrep2).
  destruct (IH fuel c2 CRLF (Some (Some <$> (got ++ data))) (got ++ data)) as (fuel' & c' & pre' & content' & E & P1 & P2 & P3 & P4).
  { by right. }
  { split; [|done]. destruct got; [by destruct data|done]. }
  { exact Hrep2. }
  { rewrite !zlen_app. lia. }
  { rewrite !zlen_app. unfold PTRDIFF_MAX. lia. }
  { lia. }
  rewrite <-app_assoc in E, P1. exists fuel', c', pre', content'. split; [|cbn [length]; split_and!; try done; lia].
  cbn [chunked_loop]. rewrite (bind_lift_run _ _ _ _ E1). cbn beta iota. rewrite (proj2 (Z.eqb_neq _ _)) by lia.
  rewrite (proj2 (Z.ltb_ge _ _)) by (rewrite u64_small; lia).
  rewrite (bind_run _ _ _ _ _ E2). cbn beta iota. rewrite (bind_lift_run _ _ _ _ E3). exact E.
Qed.

(** * The limit *)

(** A chunk that is given an address behind the block. *)
Lemma read_chunk_outside fuel c b ntotal n inc out :
  Connection.rep c inc out -> 0 < n < 2 ^ 64 -> zlen b < ntotal ->
  read_chunk (Datatypes.S fuel) c b ntotal n = Fault OutOfBounds.
Proof.
  intros Hrep Hn Hb. cbn [read_chunk].
  destruct (wpr_eq _ _ (connection_read_spec c inc out n Hrep Hn)) as ([[k bs] c1] & -> & _). cbn [res_bind].
  unfold wr. pose proof (zlen_nonneg (Some <$> bs : block)).
  rewrite (proj2 (Z.leb_gt (ntotal + zlen (Some <$> bs : block)) (zlen b))) by lia. by rewrite andb_false_r.
Qed.

(** C40. What the check of [max_contentlen] holds back.  Behind chunks that are
    within the limit comes a line that announces [n] bytes more.  When the sum is
    above the limit and below [2^64] the response is refused with [ENOSPC] before any of these bytes is
    read.  When the sum is [2^64] or more it wraps around; if it then is within
    the limit, [realloc] cuts the block to the wrapped size (or frees it, at size 0) and what
    arrives is written to an address behind its end.  For any chunks, connection, limit
    and response; memory lasts. *)
Theorem chunked_limit ks h n more fuel r c out :
  Forall chunk_ok ks -> ks <> [] -> size_text h n -> 0 < n < 2 ^ 64 ->
  Connection.rep c (concat (chunk_text <$> ks) ++ h ++ CRLF ++ more) out ->
  zlen (entity_of ks) <= max -> zlen (entity_of ks) <= PTRDIFF_MAX ->
  (S (length ks + length (entity_of ks)) < fuel)%nat ->
  (max < zlen (entity_of ks) + n < 2 ^ 64 ->
     exists c', read_chunked_response fuel r c max [] = Ret ((failure, Some (App_error ENOSPC), (r, c')), []) /\
       Connection.rep c' more out) /\
  (2 ^ 64 <= zlen (entity_of ks) + n <= 2 ^ 64 + max ->
     read_chunked_response fuel r c max [] = Fault OutOfBounds).
Proof.
  intros Hks Hne Hh Hn Hrep Hmax Hbig Hfuel. unfold read_chunked_response.
  destruct (chunked_loop_prefix ks fuel r c [] None [] (h ++ CRLF ++ more) out) as (fuel' & c1 & pre & content & E & Hcont & Hpre & Hrep1 & Hf);
    [by left|done..|lia|]. cbn [app] in *. change (zlen []) with 0 in E. rewrite E. clear E.
  destruct (wpr_eq _ _ (get_chunklen_spec pre h n c1 more out Hpre Hh Hrep1)) as ([len c2] & E1 & -> & Hrep2).
  cbn [chunked_loop]. rewrite (bind_lift_run _ _ _ _ E1). cbn beta iota. rewrite (proj2 (Z.eqb_neq n 0)) by lia.
  pose proof (zlen_nonneg (entity_of ks)). split.
  - intros Hover. rewrite u64_small by lia. rewrite (proj2 (Z.ltb_lt _ _)) by lia. by exists c2.
  - intros Hwrap. set (total := zlen (entity_of ks)) in *.
    assert (total < 2 ^ 63) by (unfold PTRDIFF_MAX in Hbig; lia).
    assert (Hu : u64 (total + n) = total + n - 2 ^ 64).
    { unfold u64. symmetry. apply (Z.mod_unique_pos _ _ 1); lia. }
    rewrite Hu, (proj2 (Z.ltb_ge _ _)) by lia.
    destruct content as [b|]; cbn in Hcont.
    2:{ destruct Hks as [|k ks' [_ Hk] _]; [done|]. cbn in Hcont. by apply app_eq_nil in Hcont as [? _]. }
    destruct Hcont as [_ ->]. unfold grow. destruct (Z.eqb_spec (total + n - 2 ^ 64) 0) as [H0'|H0']; [done|].
    destruct (wp_eq (realloc (Some <$> entity_of ks) (total + n - 2 ^ 64)) []
      (fun b o => exists b', b = Some b' /\ zlen b' = total + n - 2 ^ 64 /\ o = [])) as (b & o1 & E2 & b' & -> & Hb & ->).
    { apply wp_realloc; [|intros o Ho; by destruct (Ho eq_refl); unfold PTRDIFF_MAX in *; lia].
      intros o _ ->; [|done]. eexists. split; [done|]. split; [|done].
      rewrite zlen_app, zlen_replicate. unfold zlen in *. rewrite length_take, length_fmap. lia. }
    rewrite (bind_run _ _ _ _ _ E2). cbn beta iota. destruct fuel' as [|fuel']; [lia|].
    unfold bind, lift. by rewrite (read_chunk_outside fuel' c2 b' total n more out Hrep2 Hn) by lia.
Qed.

End Decode.

Definition blank_response : http_response :=
  Response VERSION_11 200 (GH 0 0 0 0 0 0 (fun _ => Cstring.fresh)) (EH 0 0 0 0 (fun _ => Cstring.fresh))
    0 (fun _ => Cstring.fresh) 0 0 (-1) (Some []) None false false false.

(** * Witnesses *)

Definition sample_chunks : list chunk := [(bytes "6", bytes "Hello "); (bytes "5", bytes "world")].

Definition sample_chunked : list Z := chunked_text sample_chunks (bytes "0").

Lemma chunked_decoded_witness :
  let c := fresh_conn 4096 1 [Arrives (take 7 sample_chunked); Arrives (drop 7 sample_chunked ++ CRLF)] [] in
  entity_of sample_chunks = bytes "Hello world" /\
  wp (read_chunked_response 50 blank_response c 100) [] (fun '(st, e, (r', c')) _ =>
    match st with
    | success => sample_chunks <> [] /\ Connection.rep c' CRLF [] /\
        r' = response_set_allocated_content_buffer blank_response (Some <$> entity_of sample_chunks)
               (zlen (entity_of sample_chunks))
    | failure => r' = blank_response /\
        (e = Some (Os_error ENOSPC) /\ ([] : oracle) <> [] \/
         e = None /\ sample_chunks = [] /\ Connection.rep c' CRLF [])
    end).
Proof.
  split; [done|].
  apply (chunked_decoded 100 sample_chunks (bytes "0") 50 blank_response _ CRLF [] []).
  - repeat constructor; try discriminate; decide_closed.
  - decide_closed.
  - apply (fresh_rep 4096 1 [Arrives (take 7 sample_chunked); Arrives (drop 7 sample_chunked ++ CRLF)] []); [lia|done].
  - done.
  - done.
  - apply Nat.ltb_lt. by vm_compute.
Defined.

(** A chunk of four bytes, then the length [h] of one more. *)
Definition limit_text (h : list Z) : list Z :=
  bytes "4" ++ CRLF ++ bytes "abcd" ++ CRLF ++ h ++ CRLF ++ bytes "efgh".
Definition limit_conn (h : list Z) : connection := fresh_conn 4096 1 [Arrives (limit_text h)] [].
Definition limit_chunks : list chunk := [(bytes "4", bytes "abcd")].

(** With a limit of 100, 255 bytes more are refused, and [2^64 - 3] are not. *)
Lemma chunked_limit_witness :
  (exists c', read_chunked_response 50 blank_response (limit_conn (bytes "FF")) 100 [] =
       Ret ((failure, Some (App_error ENOSPC), (blank_response, c')), []) /\
     Connection.rep c' (bytes "efgh") []) /\
  read_chunked_response 50 blank_response (limit_conn (bytes "FFFFFFFFFFFFFFFD")) 100 [] = Fault OutOfBounds.
Proof.
  assert (Hks : Forall chunk_ok limit_chunks) by (repeat constructor; try discriminate; decide_closed).
  split.
  - apply (chunked_limit 100 limit_chunks (bytes "FF") 255 (bytes "efgh") 50 blank_response _ []);
      [done|discriminate|decide_closed|done| |done|done| |done].
    { apply (fresh_rep 4096 1 [Arrives (limit_text (bytes "FF"))] []); [lia|done]. }
    apply Nat.ltb_lt. by vm_compute.
  - apply (chunked_limit 100 limit_chunks (bytes "FFFFFFFFFFFFFFFD") (2 ^ 64 - 3) (bytes "efgh") 50 blank_response _ []);
      [done|discriminate|decide_closed|done| |done|done| |done].
    { apply (fresh_rep 4096 1 [Arrives (limit_text (bytes "FFFFFFFFFFFFFFFD"))] []); [lia|done]. }
    apply Nat.ltb_lt. by vm_compute.
Defined.
