(* ===== verification/Pool.v ===== *)
(** Pool: the pool of resources of meta/src/meta_pool.c.

    The array [pdata] is a list of optional resources, [None] being the null
    pointer.  A function is one step: the mutex makes its critical section
    atomic.  What [pthread_mutex_lock] and [pthread_mutex_unlock] return is a
    parameter, [None] for 0.  The clients of a pool are a step relation, and
    [pool_conserves] is its invariant. *)

From Stdlib Require Import ZArith Lia.
From stdpp Require Import base list numbers relations.
From S2P Require Import Prelude.

Section Pool.
Context {A : Type}.

Record pool : Type := mk_pool {
  pdata : list (option A);
  psize : Z;
  pnelem : Z;
}.

Definition sizeof_pool : Z := 64.

Definition pool_new (size : Z) : C (option pool) :=
  c_assert (0 <? size);;
  let* ok := alloc_ok sizeof_pool in
  if negb ok then ret None
  else
    let* ok := alloc_ok (size * 8) in
    ret (if ok : bool then Some (mk_pool (replicate (Z.to_nat size) None) size 0) else None).

(** The destructor's arguments, in order; nothing without a destructor. *)
Definition pool_free (dtor : bool) (lock unlock : option errno) (this : pool) : res (list A) :=
  if negb dtor then Ret []
  else match lock, unlock with
       | None, None => Ret (omap id (take (Z.to_nat (pnelem this)) (pdata this)))
       | _, _ => Fault Died
       end.

Definition pool_add (lock unlock : option errno) (this : pool) (resource : A)
    : res (option errno * pool) :=
  r_assert (pnelem this <? psize this);;
  match lock with
  | Some error => Ret (Some error, this)
  | None =>
      let this := mk_pool (<[Z.to_nat (pnelem this) := Some resource]> (pdata this))
                    (psize this) (pnelem this + 1) in
      Ret (unlock, this)
  end.

(** The first resource among the [n] first cells, and the array without it. *)
Fixpoint get_loop (n : nat) (l : list (option A)) : option (A * list (option A)) :=
  match n, l with
  | S n, Some x :: l => Some (x, None :: l)
  | S n, None :: l => (fun '(x, l) => (x, None :: l)) <$> get_loop n l
  | _, _ => None
  end.

Definition pool_get (lock unlock : option errno) (this : pool) : (errno + A) * pool :=
  match lock with
  | Some error => (inl error, this)
  | None =>
      let r := get_loop (Z.to_nat (pnelem this)) (pdata this) in
      let this := mk_pool (match r with Some (_, l) => l | None => pdata this end)
                    (psize this) (pnelem this) in
      match unlock with
      | Some error => (inl error, this)
      | None =>
          (match r with
           | Some (x, _) => inr x
           | None => inl ENOSPC
           end, this)
      end
  end.

(** The first empty cell among the [n] first, filled. *)
Fixpoint recycle_loop (n : nat) (l : list (option A)) (x : A) : option (list (option A)) :=
  match n, l with
  | S n, None :: l => Some (Some x :: l)
  | S n, c :: l => cons c <$> recycle_loop n l x
  | _, _ => None
  end.

Definition pool_recycle (lock unlock : option errno) (this : pool) (resource : A)
    : res (option errno * pool) :=
  match lock with
  | Some error => Ret (Some error, this)
  | None =>
      let r := recycle_loop (Z.to_nat (pnelem this)) (pdata this) resource in
      let this := mk_pool (default (pdata this) r) (psize this) (pnelem this) in
      match unlock with
      | Some error => Ret (Some error, this)
      | None =>
          match r with
          | None => Fault Died
          | Some _ => Ret (None, this)
          end
      end
  end.

(** * The clients *)

(** The resources in the pool. *)
Definition available (p : pool) : list A := omap id (pdata p).

(** The pool is consistent: everything behind the elements is null. *)
Definition pool_ok (p : pool) : Prop :=
  zlen (pdata p) = psize p /\ 0 <= pnelem p <= psize p /\
  Forall (fun c => c = None) (drop (Z.to_nat (pnelem p)) (pdata p)).

(** The pool and what each client holds, a client being a number. *)
Record system : Type := Sys { the_pool : pool; held : list (nat * A) }.

(** A client gets a resource, fails to get one, or gives back one it holds; the
    mutex works. *)
Inductive step : system -> system -> Prop :=
| step_get c x p p' h :
    pool_get None None p = (inr x, p') -> step (Sys p h) (Sys p' ((c, x) :: h))
| step_none e p p' h :
    pool_get None None p = (inl e, p') -> step (Sys p h) (Sys p' h)
| step_recycle c x p p' h1 h2 :
    pool_recycle None None p x = Ret (None, p') ->
    step (Sys p (h1 ++ (c, x) :: h2)) (Sys p' (h1 ++ h2)).

(** A pool after [pool_add] of each resource. *)
Fixpoint fill (p : pool) (l : list A) : res pool :=
  match l with
  | [] => Ret p
  | x :: l =>
      let+ (e, p) := pool_add None None p x in
      match e with Some _ => Ret p | None => fill p l end
  end.

Definition empty_pool (size : Z) : pool := mk_pool (replicate (Z.to_nat size) None) size 0.

(** ** The loops *)

Lemma omap_none (l : list (option A)) : Forall (fun c => c = None) l -> omap id l = [].
Proof. induction 1 as [|c l Hc _ IH]; [done|]. by rewrite Hc. Qed.

Lemma get_loop_spec n l :
  Forall (fun c => c = None) (drop n l) ->
  match get_loop n l with
  | Some (x, l') =>
      x :: omap id l' ≡ₚ omap id l /\ length l' = length l /\ drop n l' = drop n l /\
      None ∈ take n l'
  | None => omap id l = []
  end.
Proof.
  revert l. induction n as [|n IH]; intros l Hl.
  { destruct l; by apply omap_none. }
  destruct l as [|[x|] l]; [done| |].
  - cbn. split_and!; try done. by left.
  - cbn in Hl |- *. specialize (IH l Hl). destruct (get_loop n l) as [[x l']|]; cbn; [|done].
    destruct IH as (? & ? & ? & ?). split_and!; try done; [by f_equal|]. by right.
Qed.

Lemma recycle_loop_spec n l x :
  None ∈ take n l ->
  exists l', recycle_loop n l x = Some l' /\ omap id l' ≡ₚ x :: omap id l /\
    length l' = length l /\ drop n l' = drop n l.
Proof.
  revert l. induction n as [|n IH]; intros l Hin; [by apply elem_of_nil in Hin|].
  destruct l as [|[y|] l]; [by apply elem_of_nil in Hin| |].
  - cbn in Hin. apply elem_of_cons in Hin as [|Hin]; [done|].
    destruct (IH l Hin) as (l' & Hr & Hp & Hl & Hd). exists (Some y :: l'). cbn. rewrite Hr.
    split; [done|]. split; [rewrite Hp; by constructor|]. split; [by f_equal|done].
  - eexists. split; [reflexivity|]. done.
Qed.

(** A used cell is empty when a resource is missing. *)
Lemma omap_short (l : list (option A)) : (length (omap id l) < length l)%nat -> None ∈ l.
Proof.
  induction l as [|[x|] l IH]; cbn; intros Hl; [lia| |by left]. right. apply IH. lia.
Qed.

Lemma empty_cell p :
  pool_ok p -> (length (available p) < Z.to_nat (pnelem p))%nat ->
  None ∈ take (Z.to_nat (pnelem p)) (pdata p).
Proof.
  intros (Hl & Hn & Hd) Hlt. apply omap_short. rewrite length_take.
  unfold available in Hlt. rewrite <-(take_drop (Z.to_nat (pnelem p)) (pdata p)) in Hlt.
  rewrite omap_app, (omap_none _ Hd), app_nil_r in Hlt. unfold zlen in Hl. lia.
Qed.

(** ** The operations *)

Lemma pool_get_spec p :
  pool_ok p ->
  match pool_get None None p with
  | (inr x, p') =>
      x :: available p' ≡ₚ available p /\ pool_ok p' /\ pnelem p' = pnelem p /\ psize p' = psize p
  | (inl e, p') => e = ENOSPC /\ available p = [] /\ p' = p
  end.
Proof.
  intros (Hl & Hn & Hd). unfold pool_get. pose proof (get_loop_spec _ _ Hd) as Hg.
  destruct (get_loop _ _) as [[x l']|].
  - destruct Hg as (Hp & Hlen & Hdrop & _). split; [done|]. split; [|done].
    split; [cbn; unfold zlen in *; lia|]. split; [done|]. cbn. by rewrite Hdrop.
  - split; [done|]. split; [done|]. by destruct p.
Qed.

Lemma pool_recycle_spec p x :
  pool_ok p -> (length (available p) < Z.to_nat (pnelem p))%nat ->
  exists p', pool_recycle None None p x = Ret (None, p') /\
    available p' ≡ₚ x :: available p /\ pool_ok p' /\ pnelem p' = pnelem p /\ psize p' = psize p.
Proof.
  intros Hok Hlt. destruct (recycle_loop_spec _ _ x (empty_cell p Hok Hlt)) as (l' & Hr & Hp & Hlen & Hd).
  destruct Hok as (Hl & Hn & Hdn). unfold pool_recycle. rewrite Hr. eexists. split; [reflexivity|].
  split; [done|]. split; [|done]. split; [cbn; unfold zlen in *; lia|]. split; [done|]. cbn. by rewrite Hd.
Qed.

Lemma omap_insert_fresh (l : list (option A)) n x :
  (n < length l)%nat -> Forall (fun c => c = None) (drop n l) ->
  omap id (<[n := Some x]> l) ≡ₚ x :: omap id l /\
  Forall (fun c => c = None) (drop (S n) (<[n := Some x]> l)).
Proof.
  intros Hn Hd. rewrite insert_take_drop by done. split.
  - rewrite <-(take_drop n l) at 3. rewrite !omap_app. cbn.
    rewrite (omap_none _ Hd), (omap_none (drop (S n) l)) by (rewrite <-Nat.add_1_r, <-drop_drop; by apply Forall_drop).
    rewrite app_nil_r. symmetry. apply Permutation_cons_append.
  - rewrite drop_app_ge by (rewrite length_take; lia). rewrite length_take.
    replace (S n - n `min` length l)%nat with 1%nat by lia. cbn. rewrite drop_0.
    rewrite <-Nat.add_1_r, <-drop_drop. by apply Forall_drop.
Qed.

Lemma fill_spec l p :
  pool_ok p -> pnelem p + zlen l <= psize p ->
  exists p', fill p l = Ret p' /\ pool_ok p' /\ available p' ≡ₚ available p ++ l /\
    pnelem p' = pnelem p + zlen l.
Proof.
  revert p. induction l as [|x l IH]; intros p Hok Hsz.
  { exists p. rewrite app_nil_r. split; [done|]. split; [done|]. split; [done|]. unfold zlen. simpl. lia. }
  rewrite zlen_cons in *. zlen_facts. destruct Hok as (Hl & Hn & Hd).
  cbn [fill]. unfold pool_add, guard. rewrite (proj2 (Z.ltb_lt _ _)) by lia. cbn [res_bind].
  assert (Hlt : (Z.to_nat (pnelem p) < length (pdata p))%nat) by (unfold zlen in *; lia).
  destruct (omap_insert_fresh (pdata p) _ x Hlt Hd) as [Hp Hd'].
  set (p1 := mk_pool _ _ _). destruct (IH p1) as (p' & Hf & Hok' & Hav & Hne).
  - split; [cbn; unfold zlen in *; rewrite length_insert; lia|]. split; [cbn; lia|]. cbn.
    by replace (Z.to_nat (pnelem p + 1)) with (S (Z.to_nat (pnelem p))) by lia.
  - cbn. lia.
  - exists p'. split; [done|]. split; [done|]. split; [|cbn in Hne; lia].
    rewrite Hav. change (available p1) with (omap id (pdata p1)). cbn. rewrite Hp.
    apply (Permutation_middle (available p) l x).
Qed.

Lemma empty_pool_ok size : 0 < size -> pool_ok (empty_pool size).
Proof.
  intros Hs. split; [|split]; cbn; [rewrite zlen_replicate; lia|lia|].
  rewrite drop_0. apply Forall_replicate, eq_refl.
Qed.

(** ** The invariant *)

Definition conserved (l : list A) (s : system) : Prop :=
  pool_ok (the_pool s) /\ pnelem (the_pool s) = zlen l /\
  available (the_pool s) ++ (held s).*2 ≡ₚ l.

Lemma step_conserved l s s' : conserved l s -> step s s' -> conserved l s'.
Proof.
  intros (Hok & Hn & Hp) Hstep. destruct Hstep as [c x p p' h Hg|e p p' h Hg|c x p p' h1 h2 Hr];
    cbn [the_pool held] in *.
  - pose proof (pool_get_spec p Hok) as Hs. rewrite Hg in Hs. destruct Hs as (Ha & Hok' & Hn' & _).
    split; [done|]. split; [cbn; by rewrite Hn'|]. cbn.
    rewrite <-Hp, <-Ha. symmetry. apply (Permutation_middle (available p') h.*2 x).
  - pose proof (pool_get_spec p Hok) as Hs. rewrite Hg in Hs. by destruct Hs as (_ & _ & ->).
  - rewrite fmap_app in Hp. cbn in Hp.
    assert (Hlt : (length (available p) < Z.to_nat (pnelem p))%nat).
    { rewrite Hn. apply Permutation_length in Hp. rewrite !length_app in Hp. simpl in Hp.
      unfold zlen. lia. }
    destruct (pool_recycle_spec p x Hok Hlt) as (p1 & Hr' & Ha & Hok' & Hn' & _).
    rewrite Hr in Hr'. injection Hr' as ->. split; [done|]. split; [cbn; by rewrite Hn'|].
    cbn. rewrite fmap_app, Ha, <-Hp. cbn. rewrite app_assoc.
    rewrite (app_assoc _ h1.*2 (x :: h2.*2)). apply Permutation_middle.
Qed.

(** C27. Whatever the clients of a pool do, in whatever order: the resources in
    the pool and those that are held are those that were added, so that no
    resource is held twice; a client that asks gets one as long as there is one
    and [ENOSPC] when there is none; and [pool_recycle] never finds the pool
    full, which would end the program, for a resource that is held. *)
Theorem pool_conserves size l p s :
  0 < size -> zlen l <= size -> fill (empty_pool size) l = Ret p ->
  rtc step (Sys p []) s ->
  available (the_pool s) ++ (held s).*2 ≡ₚ l /\
  (NoDup l -> NoDup (held s).*2) /\
  (available (the_pool s) <> [] ->
    exists x p', pool_get None None (the_pool s) = (inr x, p') /\ x ∈ available (the_pool s)) /\
  (available (the_pool s) = [] -> exists p', pool_get None None (the_pool s) = (inl ENOSPC, p')) /\
  (forall c x, (c, x) ∈ held s ->
    exists p', pool_recycle None None (the_pool s) x = Ret (None, p')).
Proof.
  intros Hs Hl Hf Hsteps.
  destruct (fill_spec l (empty_pool size) (empty_pool_ok size Hs)) as (p' & Hf' & Hok & Ha & Hn);
    [cbn; lia|]. rewrite Hf in Hf'. injection Hf' as <-.
  assert (Hinv : conserved l s).
  { assert (H0 : conserved l (Sys p [])).
    { split; [done|]. split; [cbn in *; lia|]. cbn. rewrite app_nil_r, Ha. cbn.
      unfold available. cbn. by rewrite omap_none by (apply Forall_replicate, eq_refl). }
    clear -H0 Hsteps. induction Hsteps as [|s1 s2 s3 Hst _ IH]; [done|].
    by eapply IH, step_conserved. }
  destruct Hinv as (Hok' & Hn' & Hp). pose proof (pool_get_spec _ Hok') as Hg.
  split; [done|]. split.
  { intros Hnd. rewrite <-Hp in Hnd. by apply NoDup_app in Hnd as (_ & _ & ?). }
  split; [|split].
  - intros Hne. destruct (pool_get None None (the_pool s)) as [[e|x] p1].
    + by destruct Hg as (_ & ? & _).
    + exists x, p1. split; [done|]. destruct Hg as [Hg _]. rewrite <-Hg. by left.
  - intros He. destruct (pool_get None None (the_pool s)) as [[e|x] p1].
    + destruct Hg as (-> & _). by eexists.
    + destruct Hg as [Hg _]. rewrite He in Hg. by apply Permutation_nil_r in Hg.
  - intros c x Hx. destruct (pool_recycle_spec (the_pool s) x Hok') as (p1 & Hr & _); [|by eexists].
    rewrite Hn'. apply Permutation_length in Hp. rewrite length_app, length_fmap in Hp.
    destruct (held s) as [|? ?]; [by apply elem_of_nil in Hx|]. simpl in Hp. unfold zlen. lia.
Qed.

(** A resource is lost when the mutex cannot be unlocked: it is out of the pool
    and nobody has it. *)
Lemma pool_get_unlock_fails e p x p' :
  pool_get None None p = (inr x, p') -> pool_get None (Some e) p = (inl e, p').
Proof.
  unfold pool_get. destruct (get_loop _ _) as [[y l]|]; [|done]. by intros [= _ <-].
Qed.

End Pool.

Lemma pool_conserves_witness :
  let s := Sys (mk_pool [Some 7; None; None] 3 2) [(1%nat, 8)] in
  available (the_pool s) ++ (held s).*2 ≡ₚ [7; 8] /\
  exists p', pool_recycle None None (the_pool s) 8 = Ret (None, p').
Proof.
  destruct (pool_conserves 3 [7; 8] (mk_pool [Some 7; Some 8; None] 3 2)
    (Sys (mk_pool [Some 7; None; None] 3 2) [(1%nat, 8)])) as (H1 & _ & _ & _ & H5).
  - done.
  - done.
  - reflexivity.
  - apply (rtc_l _ _ (Sys (mk_pool [None; Some 8; None] 3 2) [(0%nat, 7)])); [by apply step_get|].
    apply (rtc_l _ _ (Sys (mk_pool [None; None; None] 3 2) [(1%nat, 8); (0%nat, 7)]));
      [by apply step_get|].
    eapply rtc_l; [by apply (step_recycle 0 7 _ (mk_pool [Some 7; None; None] 3 2) [(1%nat, 8)] [])|].
    apply rtc_refl.
  - split; [exact H1|]. apply (H5 1%nat 8). by left.
Defined.
