(* ===== verification/TcpServer.v ===== *)
(** TcpServer: the server of meta/src/tcp_server.c.

    One thread accepts connections and stores them in the queue of the thread
    pool; the workers take them, lend them two buffers, serve them and give
    everything back.  The numbers and the texts of the struct are functions from
    enumerations of its members.  The work queue is the [threadpool] with the
    connections it holds, those that wait and those that a worker serves; that
    each is served once, between its two callbacks, is the theorem of
    ThreadpoolProps.  The pools are those of Pool.

    The mutexes work.  TLS is left out: a socket of the type SOCKTYPE_SSL is not
    accepted from here.  What accept4 and setsockopt return, and the client at
    the other end, are parameters of a round of the accept loop. *)

From Stdlib Require Import ZArith Lia.
From stdpp Require Import base list numbers relations.
From S2P Require Import Prelude Threadpool Membuf Gensocket Connection HttpBase Pool.

(** * Data *)

Inductive tcp_num : Set :=
| Port | Timeout_reads | Timeout_writes | Timeout_accepts | Retries_reads | Retries_writes
| Readbuf_size | Writebuf_size | Nthreads | Queue_size
| Sum_poll_intr | Sum_poll_again | Sum_accept_failed | Sum_denied_clients.

Inductive tcp_text : Set := Host | Private_key | Cadir | Cert_chain_file.

#[export] Instance tcp_num_eq_dec : EqDecision tcp_num.
Proof. solve_decision. Defined.
#[export] Instance tcp_text_eq_dec : EqDecision tcp_text.
Proof. solve_decision. Defined.

Inductive socktype : Set := SOCKTYPE_TCP | SOCKTYPE_SSL.

Section TcpServer.
Context `{STRINGS}.
(** The function that serves a connection, with its argument. *)
Context {service : Type}.

Record tcp_server : Type := Tcp {
  tc_num : tcp_num -> Z;
  tc_text : tcp_text -> option str;
  tc_socktype : socktype;
  tc_service : option service;
  listener : socket;
  tc_block_when_full : bool;
  pattern_compiled : bool;
  tc_shutting_down : bool;
  tc_queue : option threadpool;
  waiting : list connection;
  running : list connection;
  connections : option (pool (A := connection));
  read_buffers : option (pool (A := membuf));
  write_buffers : option (pool (A := membuf));
}.

Definition tc_with_num (f : tcp_num) (v : Z) (s : tcp_server) : tcp_server :=
  Tcp (fun g => if decide (g = f) then v else tc_num s g) (tc_text s) (tc_socktype s) (tc_service s) (listener s)
    (tc_block_when_full s) (pattern_compiled s) (tc_shutting_down s) (tc_queue s) (waiting s) (running s)
    (connections s) (read_buffers s) (write_buffers s).
Definition tc_with_text (f : tcp_text) (t : option str) (s : tcp_server) : tcp_server :=
  Tcp (tc_num s) (fun g => if decide (g = f) then t else tc_text s g) (tc_socktype s) (tc_service s) (listener s)
    (tc_block_when_full s) (pattern_compiled s) (tc_shutting_down s) (tc_queue s) (waiting s) (running s)
    (connections s) (read_buffers s) (write_buffers s).
Definition tc_with_flags (block compiled down : bool) (s : tcp_server) : tcp_server :=
  Tcp (tc_num s) (tc_text s) (tc_socktype s) (tc_service s) (listener s)
    block compiled down (tc_queue s) (waiting s) (running s)
    (connections s) (read_buffers s) (write_buffers s).
Definition tc_with_listener (l : socket) (s : tcp_server) : tcp_server :=
  Tcp (tc_num s) (tc_text s) (tc_socktype s) (tc_service s) l
    (tc_block_when_full s) (pattern_compiled s) (tc_shutting_down s) (tc_queue s) (waiting s) (running s)
    (connections s) (read_buffers s) (write_buffers s).
Definition tc_with_queue (q : option threadpool) (w r : list connection) (s : tcp_server) : tcp_server :=
  Tcp (tc_num s) (tc_text s) (tc_socktype s) (tc_service s) (listener s)
    (tc_block_when_full s) (pattern_compiled s) (tc_shutting_down s) q w r
    (connections s) (read_buffers s) (write_buffers s).
Definition tc_with_pools (c : option pool) (rb wb : option pool) (s : tcp_server) : tcp_server :=
  Tcp (tc_num s) (tc_text s) (tc_socktype s) (tc_service s) (listener s)
    (tc_block_when_full s) (pattern_compiled s) (tc_shutting_down s) (tc_queue s) (waiting s) (running s)
    c rb wb.

(** * Configuration *)

Definition sizeof_tcp_server : Z := 512.

Definition defaults (f : tcp_num) : Z :=
  match f with
  | Timeout_reads => 100
  | Timeout_writes => 100
  | Timeout_accepts => 800
  | Retries_writes => 10
  | Queue_size => 100
  | Nthreads => 10
  | Port => 2000
  | Readbuf_size => 1024 * 4
  | Writebuf_size => 1024 * 64
  | _ => 0
  end.

(** [inb]: what will happen at the listener. *)
Definition tcp_server_new (inb : list arrival) (type : socktype) : C (option tcp_server) :=
  let* ok := alloc_ok sizeof_tcp_server in
  if negb ok then ret None
  else
    let* l := socket_new inb [] in
    ret (match l with
         | None => None
         | Some l =>
             Some (Tcp defaults (fun _ => None) type None l false false false None [] [] None None None)
         end).

Definition tcp_server_set_readbuf_size (s : tcp_server) (size : Z) : res tcp_server :=
  r_assert (negb (size =? 0));; Ret (tc_with_num Readbuf_size size s).
Definition tcp_server_set_writebuf_size (s : tcp_server) (size : Z) : res tcp_server :=
  r_assert (negb (size =? 0));; Ret (tc_with_num Writebuf_size size s).
Definition tcp_server_set_port (s : tcp_server) (port : Z) : tcp_server := tc_with_num Port port s.
Definition tcp_server_set_queue_size (s : tcp_server) (size : Z) : tcp_server := tc_with_num Queue_size size s.
Definition tcp_server_set_block_when_full (s : tcp_server) (b : bool) : tcp_server :=
  tc_with_flags b (pattern_compiled s) (tc_shutting_down s) s.
Definition tcp_server_set_worker_threads (s : tcp_server) (count : Z) : tcp_server := tc_with_num Nthreads count s.
Definition tcp_server_set_timeout (s : tcp_server) (reads writes accepts : Z) : tcp_server :=
  tc_with_num Timeout_accepts accepts (tc_with_num Timeout_reads reads (tc_with_num Timeout_writes writes s)).
Definition tcp_server_set_retries (s : tcp_server) (reads writes : Z) : tcp_server :=
  tc_with_num Retries_reads reads (tc_with_num Retries_writes writes s).
Definition tcp_server_set_service_function (s : tcp_server) (f : service) : tcp_server :=
  Tcp (tc_num s) (tc_text s) (tc_socktype s) (Some f) (listener s)
    (tc_block_when_full s) (pattern_compiled s) (tc_shutting_down s) (tc_queue s) (waiting s) (running s)
    (connections s) (read_buffers s) (write_buffers s).

(** [cstring_dup] *)
Definition str_dup (src : list Z) : C (option str) :=
  let* r := str_new in
  match r with
  | None => ret None
  | Some s =>
      let* (st, s) := str_set s src in
      ret (match st with success => Some s | failure => None end)
  end.

Definition tcp_server_set_hostname (s : tcp_server) (host : option (list Z)) : C (status * tcp_server) :=
  match host with
  | None => ret (success, tc_with_text Host None s)
  | Some host =>
      let* r := str_dup host in
      ret (match r with None => failure | Some _ => success end, tc_with_text Host r s)
  end.

Definition set_path (f : tcp_text) (s : tcp_server) (path : list Z) : C (status * tcp_server) :=
  c_assert (0 <? zlen path);;
  let* r := (match tc_text s f with
             | None => str_new
             | Some t => ret (Some t)
             end) in
  match r with
  | None => ret (failure, s)
  | Some t => let* (st, t) := str_set t path in ret (st, tc_with_text f (Some t) s)
  end.

Definition tcp_server_set_private_key := set_path Private_key.
Definition tcp_server_set_cert_chain_file := set_path Cert_chain_file.
Definition tcp_server_set_ca_directory := set_path Cadir.

(** [err]: what [regcomp] returns. *)
Definition tcp_server_clear_client_filter (s : tcp_server) : tcp_server :=
  if pattern_compiled s then tc_with_flags (tc_block_when_full s) false (tc_shutting_down s) s else s.
Definition tcp_server_allow_clients (err : option errno) (s : tcp_server) (filter : list Z)
    : res (option errno * tcp_server) :=
  r_assert (0 <? zlen filter);;
  let s := tcp_server_clear_client_filter s in
  Ret (match err with
       | Some e => (Some e, s)
       | None => (None, tc_with_flags (tc_block_when_full s) true (tc_shutting_down s) s)
       end).

Definition tcp_server_shutdown (s : tcp_server) : status * tcp_server :=
  (success, tc_with_flags (tc_block_when_full s) (pattern_compiled s) true s).
Definition tcp_server_shutting_down (s : tcp_server) : bool := tc_shutting_down s.

Definition the_queue (s : tcp_server) : res threadpool :=
  match tc_queue s with Some q => Ret q | None => Fault AssertFailed end.
Definition tcp_server_sum_blocked (s : tcp_server) : res Z :=
  let+ q := the_queue s in Ret (threadpool_sum_blocked q).
Definition tcp_server_sum_discarded (s : tcp_server) : res Z :=
  let+ q := the_queue s in Ret (threadpool_sum_discarded q).
Definition tcp_server_sum_added (s : tcp_server) : res Z :=
  let+ q := the_queue s in Ret (threadpool_sum_added q).
Definition tcp_server_sum_poll_intr (s : tcp_server) : Z := tc_num s Sum_poll_intr.
Definition tcp_server_sum_poll_again (s : tcp_server) : Z := tc_num s Sum_poll_again.
Definition tcp_server_sum_accept_failed (s : tcp_server) : Z := tc_num s Sum_accept_failed.
Definition tcp_server_sum_denied_clients (s : tcp_server) : Z := tc_num s Sum_denied_clients.

(** * Initialisation *)

(** [pool_add] into a pool that has room by construction. *)
Definition add_or_die {A} (p : pool (A := A)) (x : A) : res (pool (A := A)) :=
  let+ (e, p) := pool_add None None p x in
  match e with None => Ret p | Some _ => Fault Died end.

Fixpoint init_connections_loop (n : nat) (s : tcp_server) (now : Z) (p : pool (A := connection))
    : C (option (pool (A := connection))) :=
  match n with
  | O => ret (Some p)
  | S n =>
      let* conn := connection_new [] [] (Z.to_nat (tc_num s Retries_reads))
                     (Z.to_nat (tc_num s Retries_writes)) now in
      match conn with
      | None => ret None
      | Some conn => let* p := lift (add_or_die p conn) in init_connections_loop n s now p
      end
  end.

Definition _init_connections (s : tcp_server) (now : Z) : C (option (pool (A := connection))) :=
  let count := u64 (tc_num s Queue_size + tc_num s Nthreads + 1) in
  let* p := pool_new count in
  match p with
  | None => ret None
  | Some p => init_connections_loop (Z.to_nat count) s now p
  end.

Fixpoint init_buffers_loop (n : nat) (s : tcp_server) (rbs wbs : pool (A := membuf))
    : C (option (pool (A := membuf) * pool (A := membuf))) :=
  match n with
  | O => ret (Some (rbs, wbs))
  | S n =>
      let* rb := membuf_new (tc_num s Readbuf_size) in
      match rb with
      | None => ret None
      | Some rb =>
          let* wb := membuf_new (tc_num s Writebuf_size) in
          match wb with
          | None => ret None
          | Some wb =>
              let* rbs := lift (add_or_die rbs rb) in
              let* wbs := lift (add_or_die wbs wb) in
              init_buffers_loop n s rbs wbs
          end
      end
  end.

(** When something is refused, the members are null again. *)
Definition tcp_server_init (s : tcp_server) (now : Z) : C (status * tcp_server) :=
  c_assert (match tc_queue s, connections s, read_buffers s, write_buffers s with
            | None, None, None, None => true
            | _, _, _, _ => false
            end);;
  let* q := threadpool_new (tc_num s Nthreads) (tc_num s Queue_size) (tc_block_when_full s) in
  match q with
  | None => ret (failure, s)
  | Some q =>
      let* conns := _init_connections s now in
      match conns with
      | None => ret (failure, s)
      | Some conns =>
          let* rbs := pool_new (tc_num s Nthreads) in
          match rbs with
          | None => ret (failure, s)
          | Some rbs =>
              let* wbs := pool_new (tc_num s Nthreads) in
              match wbs with
              | None => ret (failure, s)
              | Some wbs =>
                  let* bufs := init_buffers_loop (Z.to_nat (tc_num s Nthreads)) s rbs wbs in
                  ret (match bufs with
                       | None => (failure, s)
                       | Some (rbs, wbs) =>
                           (success, tc_with_queue (Some q) [] [] (tc_with_pools (Some conns) (Some rbs) (Some wbs) s))
                       end)
              end
          end
      end
  end.

(** * Connections *)

Definition the_pool_of {A} (p : option (pool (A := A))) : res (pool (A := A)) :=
  match p with Some p => Ret p | None => Fault AssertFailed end.

(** [rc]: what [close] returns. *)
Definition tcp_server_recycle_connection (rc now : Z) (srv : tcp_server) (conn : connection)
    : res tcp_server :=
  let (rb, conn) := connection_reclaim_read_buffer conn in
  let (wb, conn) := connection_reclaim_write_buffer conn in
  let+ rbs := (match rb with
               | None => Ret (read_buffers srv)
               | Some rb =>
                   let+ p := the_pool_of (read_buffers srv) in
                   let+ (_, p) := pool_recycle None None p (membuf_reset rb) in Ret (Some p)
               end) in
  let+ wbs := (match wb with
               | None => Ret (write_buffers srv)
               | Some wb =>
                   let+ p := the_pool_of (write_buffers srv) in
                   let+ (_, p) := pool_recycle None None p (membuf_reset wb) in Ret (Some p)
               end) in
  let conn := connection_recycle rc now conn in
  let+ p := the_pool_of (connections srv) in
  let+ (_, p) := pool_recycle None None p conn in
  Ret (tc_with_pools (Some p) rbs wbs srv).

Definition assign_rw_buffers (srv : tcp_server) (conn : connection)
    : res (status * tcp_server * connection) :=
  let+ rbs := the_pool_of (read_buffers srv) in
  let+ wbs := the_pool_of (write_buffers srv) in
  let (rb, rbs) := pool_get None None rbs in
  let srv := tc_with_pools (connections srv) (Some rbs) (Some wbs) srv in
  match rb with
  | inl _ => Ret (failure, srv, conn)
  | inr rb =>
      let (wb, wbs) := pool_get None None wbs in
      let srv := tc_with_pools (connections srv) (Some rbs) (Some wbs) srv in
      match wb with
      | inl _ => Ret (failure, srv, conn)
      | inr wb =>
          let+ conn := connection_assign_read_buffer conn rb in
          let+ conn := connection_assign_write_buffer conn wb in
          Ret (success, srv, conn)
      end
  end.

Definition tcp_server_get_connection (srv : tcp_server) : res (option connection * tcp_server) :=
  let+ p := the_pool_of (connections srv) in
  let (r, p) := pool_get None None p in
  Ret (match r with inl _ => None | inr c => Some c end,
       tc_with_pools (Some p) (read_buffers srv) (write_buffers srv) srv).

(** * Accepting *)

(** What accept4 does: the descriptor and the wire behind it, or the error; then
    the error of [setsockopt], [None] when it succeeds. *)
Inductive accepted : Set :=
| Accepts (fd : Z) (inb : list arrival) (ans : list departure) (nodelay : option errno)
| Refuses (e : errno).

Definition tcp_accept (a : accepted) (listener client : socket) : res (status * errno * socket) :=
  r_assert (0 <=? fd listener);;
  Ret (match a with
       | Refuses e => (failure, e, Socket (-1) e (inbox client) (outbox client) (answers client))
       | Accepts fd inb ans nodelay =>
           match nodelay with
           | None => (success, s_errno client, Socket fd (s_errno client) inb [] ans)
           | Some e => (failure, e, Socket fd e inb [] ans)
           end
       end).

Definition counted (e : errno) : bool :=
  match e with
  | EPROTO | ENONET | ENOTCONN | EAGAIN | ENETDOWN | ENOPROTOOPT | EHOSTDOWN | EHOSTUNREACH
  | EOPNOTSUPP | ENETUNREACH => true
  | _ => false
  end.

Definition count (f : tcp_num) (s : tcp_server) : tcp_server := tc_with_num f (u64 (tc_num s f + 1)) s.

(** The queue as [threadpool_add_work] sees it: [None] is a thread that waits
    for room, a full queue that does not block discards, a closed one refuses. *)
Definition add_work (srv : tcp_server) (conn : connection) : res (option (status * tcp_server)) :=
  let+ q := the_queue srv in
  let refused d := tc_with_queue (Some (set_counters (sum_work_added q) (sum_blocked q) d q))
                     (waiting srv) (running srv) srv in
  Ret (if queue_full q && negb (block_when_full q)
       then Some (failure, refused (u64 (sum_discarded q + 1)))
       else if queue_full q && negb (shutting_down q) && negb (queue_closed q) then None
       else if shutting_down q || queue_closed q then Some (failure, refused (sum_discarded q))
       else Some (success, tc_with_queue (Some (set_counters (u64 (sum_work_added q + 1)) (sum_blocked q)
              (sum_discarded q) (set_nentries (u64 (nentries q + 1)) q)))
              (waiting srv ++ [conn]) (running srv) srv)).

(** The filter is not consulted: the body that would is compiled out. *)
Definition client_can_connect (srv : tcp_server) : bool := true.

(** The accept loop up to the client: it ends, polls again, has been refused by
    accept4 or refuses the client, or has a client.  [down]: [tcp_server_shutdown] was called while it
    polled. *)
Inductive taken : Type := Ends (st : status) | Polls_again | Refused | Client (conn : connection).

Definition accept_client (a : accepted) (down : bool) (now : Z) (srv : tcp_server)
    : res (taken * tcp_server) :=
  if tc_shutting_down srv then Ret (Ends success, srv)
  else
    let+ (st, l) := socket_poll_for (listener srv) POLLIN in
    let srv := tc_with_listener l srv in
    let srv := if down : bool then snd (tcp_server_shutdown srv) else srv in
    match st with
    | failure =>
        Ret (match s_errno l with
             | EINTR => (Polls_again, count Sum_poll_intr srv)
             | EAGAIN => (Polls_again, count Sum_poll_again srv)
             | _ => (Ends failure, srv)
             end)
    | success =>
        if tc_shutting_down srv then Ret (Ends success, srv)
        else
          let+ (conn, srv) := tcp_server_get_connection srv in
          match conn with
          | None => Ret (Ends failure, srv)
          | Some conn =>
              let+ (st, e, sock) := tcp_accept a (listener srv) (cn_sock conn) in
              let srv := tc_with_listener (set_inbox (tail (inbox (listener srv))) (listener srv)) srv in
              Ret (match st with
                   | failure => (Refused, if counted e then count Sum_accept_failed srv else srv)
                   | success =>
                       if client_can_connect srv
                       then (Client (connection_set_params now (set_sock sock conn)), srv)
                       else (Refused, count Sum_denied_clients srv)
                   end)
          end
    end.

(** The rest of the round, [None] while the thread waits for the queue. *)
Definition hand_over (rc now : Z) (conn : connection) (srv : tcp_server) : res (option tcp_server) :=
  let+ r := add_work srv conn in
  match r with
  | None => Ret None
  | Some (success, srv) => Ret (Some srv)
  | Some (failure, srv) => let+ srv := tcp_server_recycle_connection rc now srv conn in Ret (Some srv)
  end.

(** The loop when the other threads stand still, for as many rounds as there are
    answers of accept4: what it returns, [None] when it is still running. *)
Fixpoint accept_new_connections (l : list accepted) (rc now : Z) (srv : tcp_server)
    : res (option status * tcp_server) :=
  match l with
  | [] => Ret (None, srv)
  | a :: l =>
      let+ (r, srv) := accept_client a false now srv in
      match r with
      | Ends st => Ret (Some st, srv)
      | Polls_again | Refused => accept_new_connections l rc now srv
      | Client conn =>
          let+ r := hand_over rc now conn srv in
          match r with
          | None => Ret (None, srv)
          | Some srv => accept_new_connections l rc now srv
          end
      end
  end.

(** * Serving *)

(** A worker takes the connection at [i] among those that wait; when the buffers
    cannot be assigned, neither the service nor the cleanup is called. *)
Definition worker_starts (i : nat) (srv : tcp_server) : res tcp_server :=
  match waiting srv !! i with
  | None => Ret srv
  | Some conn =>
      let w := delete i (waiting srv) in
      let+ (st, srv, conn) := assign_rw_buffers srv conn in
      Ret (tc_with_queue (tc_queue srv) w
             (match st with success => running srv ++ [conn] | failure => running srv end) srv)
  end.

(** The service left the connection at [i] as [conn]; its cleanup function is
    called. *)
Definition worker_ends (rc now : Z) (i : nat) (conn : connection) (srv : tcp_server) : res tcp_server :=
  let+ srv := tcp_server_recycle_connection rc now srv conn in
  Ret (tc_with_queue (tc_queue srv) (waiting srv) (delete i (running srv)) srv).

(** The worker gives its entry of the queue back. *)
Definition worker_leaves (srv : tcp_server) : res tcp_server :=
  let+ q := the_queue srv in
  Ret (tc_with_queue (Some (set_nentries (u64 (nentries q - 1)) q)) (waiting srv) (running srv) srv).

(** * The end *)

(** [connection_free] of those in the pool, in order. *)
Fixpoint free_connections (l : list connection) : res unit :=
  match l with
  | [] => Ret tt
  | c :: l => let+ _ := connection_free c in free_connections l
  end.

(** [rc]: what [close] of the listener returns.  The work of the queue is
    done; whether [threadpool_destroy] succeeds only makes a warning. *)
Definition tcp_server_free (rc : Z) (this : option tcp_server) : res unit :=
  match this with
  | None => Ret tt
  | Some this =>
      let+ l := (match connections this with
                 | None => Ret []
                 | Some p => pool_free true None None p
                 end) in
      let+ _ := free_connections l in
      socket_free (snd (socket_close rc (listener this)))
  end.

Definition tcp_server_free_root_resources (rc : Z) (this : tcp_server) : status * tcp_server :=
  let (st, l) := socket_close rc (listener this) in (st, tc_with_listener l this).

End TcpServer.
