(* ===== verification/TcpServerProps.v ===== *)
(** TcpServerProps: what the server keeps.

    [tstep] is the accept thread and the worker threads, one critical section at
    a step.  [sane] counts: a connection is in its pool, waits in the queue, is
    served, is in the hand of the accept thread, or was lost.  The loop loses one
    each time accept4 refuses, and [tcp_server_starves] is what that leads to. *)

From Stdlib Require Import ZArith Lia.
From stdpp Require Import base list numbers relations.
From S2P Require Import Prelude Threadpool Membuf Gensocket Connection HttpBase Pool TcpServer.

(** * Pools that are filled *)

#[local] Arguments pool_get : simpl never.
#[local] Arguments pool_recycle : simpl never.
#[local] Arguments connection_recycle : simpl never.

Section Pools.
Context {A : Type}.
Implicit Types p : pool (A := A).

(** A pool of [k] elements of which some are available. *)
Definition stocked (k : Z) (P : A -> Prop) p : Prop :=
  pool_ok p /\ pnelem p = k /\ Forall P (available p).

Lemma add_or_die_spec p x :
  pool_ok p -> pnelem p < psize p ->
  exists p', add_or_die p x = Ret p' /\ pool_ok p' /\ available p' ≡ₚ x :: available p /\
    pnelem p' = pnelem p + 1 /\ psize p' = psize p.
Proof.
  intros Hok Hlt. destruct (fill_spec [x] p Hok) as (p' & Hf & Hok' & Ha & Hn).
  { unfold zlen. simpl. lia. }
  unfold add_or_die. unfold fill in Hf. unfold pool_add, guard in *.
  rewrite (proj2 (Z.ltb_lt _ _) Hlt) in *. cbn in *. injection Hf as <-.
  eexists. split; [reflexivity|]. split; [done|]. split; [|done].
  rewrite Ha. symmetry. apply Permutation_cons_append.
Qed.

Lemma stocked_get k P p :
  stocked k P p -> available p <> [] ->
  exists x p', pool_get None None p = (inr x, p') /\ P x /\ stocked k P p' /\
    length (available p) = S (length (available p')).
Proof.
  intros (Hok & Hk & HP) Hne. pose proof (pool_get_spec p Hok) as Hg.
  destruct (pool_get None None p) as [[e|x] p']; [by destruct Hg as (_ & ? & _)|].
  destruct Hg as (Hp & Hok' & Hn & _). exists x, p'. rewrite <-Hp in HP. apply Forall_cons in HP as [Hx HP].
  split; [done|]. split; [done|]. split; [by split_and!; [|congruence|]|]. by rewrite <-Hp.
Qed.

Lemma stocked_empty p : available p = [] -> pool_ok p -> pool_get None None p = (inl ENOSPC, p).
Proof.
  intros He Hok. pose proof (pool_get_spec p Hok) as Hg.
  destruct (pool_get None None p) as [[e|x] p'].
  - by destruct Hg as (-> & _ & ->).
  - destruct Hg as [Hp _]. rewrite He in Hp. by apply Permutation_nil_r in Hp.
Qed.

Lemma stocked_recycle k P p x :
  stocked k P p -> P x -> Z.of_nat (length (available p)) < k ->
  exists p', pool_recycle None None p x = Ret (None, p') /\ stocked k P p' /\
    length (available p') = S (length (available p)).
Proof.
  intros (Hok & Hk & HP) Hx Hlt. destruct (pool_recycle_spec p x Hok) as (p' & Hr & Hp & Hok' & Hn & _);
    [lia|].
  exists p'. split; [done|]. split; [|by rewrite Hp]. split; [done|]. split; [congruence|].
  rewrite Hp. by constructor.
Qed.

End Pools.

(** * What a function returns, when it returns *)

Definition after {A} (m : C A) (Q : A -> Prop) : Prop := forall o a o', m o = Ret (a, o') -> Q a.

Lemma after_ret {A} (a : A) (Q : A -> Prop) : Q a -> after (ret a) Q.
Proof. intros HQ o b o' [= <- _]. done. Qed.

Lemma after_any {A} (m : C A) : after m (fun _ => True).
Proof. done. Qed.

Lemma after_lift {A} (m : res A) (Q : A -> Prop) : (forall a, m = Ret a -> Q a) -> after (lift m) Q.
Proof. intros HQ o a o'. unfold lift. destruct m; [|done]. intros [= <- _]. by apply HQ. Qed.

Lemma after_guard b (Q : unit -> Prop) : (b = true -> Q tt) -> after (lift (guard b)) Q.
Proof. intros HQ. apply after_lift. intros []. destruct b; [by intros _; apply HQ|done]. Qed.

Lemma after_bind {A B} (m : C A) (k : A -> C B) (P : A -> Prop) (Q : B -> Prop) :
  after m P -> (forall a, P a -> after (k a) Q) -> after (bind m k) Q.
Proof.
  intros Hm Hk o b o'. unfold bind. destruct (m o) as [[a o1]|] eqn:E; [|done].
  apply (Hk a). by eapply Hm.
Qed.

(** [bind] after something nothing is known of. *)
Lemma after_skip {A B} (m : C A) (k : A -> C B) (Q : B -> Prop) :
  (forall a, after (k a) Q) -> after (bind m k) Q.
Proof. intros Hk. eapply after_bind; [apply after_any|]. auto. Qed.

Lemma threadpool_new_after nw cap block :
  after (threadpool_new nw cap block) (fun r => forall p, r = Some p ->
    0 < nw /\ 0 < cap /\ capacity p = cap /\ nentries p = 0).
Proof.
  unfold threadpool_new, new_queue.
  eapply after_bind; [apply (after_guard _ (fun _ => 0 < nw)); intros; by zreflect|]. intros [] Hnw.
  eapply after_bind; [apply (after_guard _ (fun _ => 0 < cap)); intros; by zreflect|]. intros [] Hcap.
  assert (Hnone : forall m : C unit, after (let* _ := m in ret (None : option threadpool)) (fun r =>
    forall p, r = Some p -> 0 < nw /\ 0 < cap /\ capacity p = cap /\ nentries p = 0)).
  { intros m. apply after_skip. intros _. by apply after_ret. }
  apply after_skip. intros [|]; [|apply Hnone]. cbn [negb].
  apply after_skip. intros [|]; [|apply Hnone]. cbn [negb].
  apply after_skip. intros [|]; [|apply Hnone]. cbn [negb].
  apply after_skip. intros [[|] sl]; [|apply Hnone]. cbn [negb].
  apply after_skip. intros [|]; [|apply Hnone]. cbn [negb].
  apply after_ret. intros p [= <-]. split_and!; try done. cbn. lia.
Qed.

Lemma pool_new_after {A} sz :
  after (pool_new (A := A) sz) (fun r => forall p, r = Some p -> 0 < sz /\ p = empty_pool sz).
Proof.
  unfold pool_new.
  eapply after_bind; [apply (after_guard _ (fun _ => 0 < sz)); intros; by zreflect|]. intros [] Hsz.
  apply after_skip. intros [|]; cbn [negb]; [|by apply after_ret].
  apply after_skip. intros [|]; apply after_ret; [by intros p [= <-]|done].
Qed.

(** [k] more elements were added to [p]. *)
Definition grown {A} (P : A -> Prop) (k : nat) (p p' : pool (A := A)) : Prop :=
  pool_ok p' /\ pnelem p' = pnelem p + Z.of_nat k /\ psize p' = psize p /\
  length (available p') = (length (available p) + k)%nat /\
  (Forall P (available p) -> Forall P (available p')).

Lemma grown_none {A} (P : A -> Prop) p : pool_ok p -> grown P 0 p p.
Proof. intros Hp. unfold grown. split_and!; try done; lia. Qed.

Lemma grown_add {A} (P : A -> Prop) p x :
  pool_ok p -> pnelem p < psize p -> P x -> forall p', add_or_die p x = Ret p' -> grown P 1 p p'.
Proof.
  intros Hp Hlt Hx p' Ha. destruct (add_or_die_spec p x Hp Hlt) as (p1 & Ha' & Hok & Hav & Hn & Hs).
  rewrite Ha in Ha'. injection Ha' as <-. unfold grown. rewrite Hav. split_and!; try done; try lia.
  - simpl. lia.
  - intros HP. by constructor.
Qed.

Lemma grown_trans {A} (P : A -> Prop) j k p1 p2 p3 :
  grown P j p1 p2 -> grown P k p2 p3 -> grown P (j + k) p1 p3.
Proof.
  intros (H1 & H2 & H3 & H4 & H5) (K1 & K2 & K3 & K4 & K5). unfold grown. split_and!; try done; try lia. auto.
Qed.

Section TcpServerProps.
Context `{STRINGS}.
Context {service : Type}.
Notation tcp_server := (tcp_server (service := service)).

(** Worker threads and entries of the queue. *)
Context (n q : Z).

Definition bare (c : connection) : Prop := readbuf c = None /\ writebuf c = None.
Definition lent (c : connection) : Prop := is_Some (readbuf c) /\ is_Some (writebuf c).

(** The three pools, with the number of available elements of each. *)
Definition pools_ok (s : tcp_server) (c b : nat) : Prop :=
  exists cp rp wp,
    connections s = Some cp /\ read_buffers s = Some rp /\ write_buffers s = Some wp /\
    stocked (q + n + 1) bare cp /\ stocked n (fun _ => True) rp /\ stocked n (fun _ => True) wp /\
    length (available cp) = c /\ length (available rp) = b /\ length (available wp) = b.

Definition queue_ok (s : tcp_server) : Prop :=
  exists tp, tc_queue s = Some tp /\ capacity tp = q /\
    Z.of_nat (length (waiting s) + length (running s)) <= nentries tp <= q.

(** [hand]: the connection the accept thread holds; [lost]: those nobody has. *)
Definition sane (s : tcp_server) (hand : option connection) (lost : nat) : Prop :=
  0 < n /\ 0 < q /\ q + n + 1 < 2 ^ 64 /\
  queue_ok s /\ 0 <= fd (listener s) /\
  Forall bare (waiting s) /\ Forall lent (running s) /\ (forall c, hand = Some c -> bare c) /\
  Z.of_nat (length (running s)) <= n /\
  exists c b, pools_ok s c b /\
    Z.of_nat (c + length (waiting s) + length (running s) + lost) + (if hand then 1 else 0) = q + n + 1 /\
    Z.of_nat (b + length (running s)) = n.

(** ** Each operation *)

Definition stripped (rc now : Z) (c : connection) : connection :=
  connection_recycle rc now (set_writebuf None (set_readbuf None c)).

Lemma stripped_bare rc now c : bare (stripped rc now c).
Proof.
  destruct c as [? ? ? s ? ? ? ? ? ?]. unfold stripped, connection_recycle, bare. cbn.
  by destruct (socket_close rc s).
Qed.

(** A connection without buffers goes back. *)
Lemma recycle_bare_spec rc now s conn c b :
  bare conn -> pools_ok s c b -> Z.of_nat c < q + n + 1 ->
  exists cp, tcp_server_recycle_connection rc now s conn =
      Ret (tc_with_pools (Some cp) (read_buffers s) (write_buffers s) s) /\
    pools_ok (tc_with_pools (Some cp) (read_buffers s) (write_buffers s) s) (S c) b.
Proof.
  intros [Hb1 Hb2] (cp & rp & wp & Hc & Hr & Hw & Sc & Sr & Sw & <- & <- & Lw) Hlt.
  destruct (stocked_recycle (q + n + 1) bare cp (stripped rc now conn) Sc) as (cp' & Hrec & Sc' & Hl);
    [by apply stripped_bare|done|].
  exists cp'. unfold tcp_server_recycle_connection. cbn.
  rewrite Hb1, Hb2. cbn. rewrite Hc. cbn. unfold stripped in Hrec. rewrite Hrec. cbn. split; [done|].
  exists cp', rp, wp. cbn. by split_and!.
Qed.

(** One that a worker served, whatever the service did with the buffers' contents. *)
Lemma recycle_lent_spec rc now s conn c b :
  lent conn -> pools_ok s c b -> Z.of_nat c < q + n + 1 -> Z.of_nat b < n ->
  exists cp rp wp, tcp_server_recycle_connection rc now s conn =
      Ret (tc_with_pools (Some cp) (Some rp) (Some wp) s) /\
    pools_ok (tc_with_pools (Some cp) (Some rp) (Some wp) s) (S c) (S b).
Proof.
  intros [[rbuf Hb1] [wbuf Hb2]] (cp & rp & wp & Hc & Hr & Hw & Sc & Sr & Sw & <- & Lr & Lw) Hlt Hltb.
  destruct (stocked_recycle n _ rp (membuf_reset rbuf) Sr) as (rp' & Hrr & Sr' & Hrl); [done|by rewrite Lr|].
  destruct (stocked_recycle n _ wp (membuf_reset wbuf) Sw) as (wp' & Hwr & Sw' & Hwl); [done|by rewrite Lw|].
  destruct (stocked_recycle (q + n + 1) bare cp (stripped rc now conn) Sc) as (cp' & Hrec & Sc' & Hl);
    [by apply stripped_bare|done|].
  exists cp', rp', wp'. unfold tcp_server_recycle_connection. cbn.
  rewrite Hb1, Hb2, Hr, Hw. cbn. rewrite Hrr. cbn. rewrite Hwr. cbn.
  rewrite Hc. cbn. unfold stripped in Hrec. rewrite Hrec. cbn. split; [done|].
  exists cp', rp', wp'. cbn. by split_and!; try congruence.
Qed.

Lemma assign_rw_buffers_spec s conn c b :
  bare conn -> pools_ok s c (S b) ->
  exists rp wp conn', assign_rw_buffers s conn =
      Ret (success, tc_with_pools (connections s) (Some rp) (Some wp) s, conn') /\ lent conn' /\
    pools_ok (tc_with_pools (connections s) (Some rp) (Some wp) s) c b.
Proof.
  intros [Hb1 Hb2] (cp & rp & wp & Hc & Hr & Hw & Sc & Sr & Sw & <- & Lr & Lw).
  destruct (stocked_get n _ rp Sr) as (rb & rp' & Hrg & _ & Sr' & Hrl); [by intros He; rewrite He in Lr|].
  destruct (stocked_get n _ wp Sw) as (wb & wp' & Hwg & _ & Sw' & Hwl); [by intros He; rewrite He in Lw|].
  unfold assign_rw_buffers. rewrite Hr, Hw. cbn. rewrite Hrg, Hwg. cbn.
  unfold connection_assign_read_buffer, connection_assign_write_buffer. rewrite Hb1. cbn. rewrite Hb2. cbn.
  eexists rp', wp', _. split; [reflexivity|]. split; [by split; eexists|].
  exists cp, rp', wp'. cbn. by split_and!; try lia.
Qed.

Lemma get_connection_spec s c b :
  pools_ok s (S c) b ->
  exists conn cp, tcp_server_get_connection s =
      Ret (Some conn, tc_with_pools (Some cp) (read_buffers s) (write_buffers s) s) /\ bare conn /\
    pools_ok (tc_with_pools (Some cp) (read_buffers s) (write_buffers s) s) c b.
Proof.
  intros (cp & rp & wp & Hc & Hr & Hw & Sc & Sr & Sw & Lc & Lr & Lw).
  destruct (stocked_get _ _ cp Sc) as (conn & cp' & Hg & Hb & Sc' & Hl); [by intros He; rewrite He in Lc|].
  exists conn, cp'. unfold tcp_server_get_connection. rewrite Hc. cbn. rewrite Hg. split; [done|].
  split; [done|]. exists cp', rp, wp. cbn. split_and!; try done. lia.
Qed.

Lemma get_connection_none s b :
  pools_ok s 0 b -> tcp_server_get_connection s = Ret (None, s).
Proof.
  intros (cp & rp & wp & Hc & Hr & Hw & (Hok & _) & _ & _ & Lc & _).
  apply nil_length_inv in Lc. unfold tcp_server_get_connection. rewrite Hc. cbn.
  rewrite (stocked_empty cp Lc Hok). cbn. destruct s. cbn in *. by rewrite Hc.
Qed.

(** ** Each step *)

(** Nothing that [sane] looks at differs. *)
Definition alike (s s' : tcp_server) : Prop :=
  tc_queue s' = tc_queue s /\ waiting s' = waiting s /\ running s' = running s /\
  fd (listener s') = fd (listener s) /\ connections s' = connections s /\
  read_buffers s' = read_buffers s /\ write_buffers s' = write_buffers s.

Lemma sane_alike s s' hand lost : alike s s' -> sane s hand lost -> sane s' hand lost.
Proof.
  intros (Hq & Hw & Hr & Hf & Hc & Hrb & Hwb). unfold sane, queue_ok, pools_ok.
  by rewrite Hq, Hw, Hr, Hf, Hc, Hrb, Hwb.
Qed.

Lemma alike_count f s : alike s (count f s).
Proof. done. Qed.

Lemma poll_fd s :
  0 <= fd s -> wpr (socket_poll_for s POLLIN) (fun '(_, s') => fd s' = fd s).
Proof.
  intros Hfd. unfold socket_poll_for, guard. rewrite (proj2 (Z.leb_le _ _) Hfd). cbn.
  unfold poll_in. destruct s as [f e0 ib ob an]. cbn. destruct ib as [|[] r]; by cbn.
Qed.

Lemma accept_client_sane a down now s lost :
  sane s None lost ->
  wpr (accept_client a down now s) (fun '(r, s') =>
    match r with
    | Refused => sane s' None (S lost)
    | Client c => sane s' (Some c) lost
    | _ => sane s' None lost
    end).
Proof.
  intros Hs. unfold accept_client. destruct (tc_shutting_down s) eqn:Ed; [done|]. wp.
  assert (Hfd : 0 <= fd (listener s)) by apply Hs.
  eapply wpr_mono; [apply (poll_fd _ Hfd)|]. intros [st l] Hl. clear Ed Hfd.
  assert (Ha : alike s (if down then snd (tcp_server_shutdown (tc_with_listener l s)) else tc_with_listener l s))
    by (by destruct down).
  apply (sane_alike _ _ _ _ Ha) in Hs. clear Ha. revert Hs.
  generalize (if down then snd (tcp_server_shutdown (tc_with_listener l s)) else tc_with_listener l s).
  intros s1 Hs. destruct st.
  { destruct (s_errno l); cbn; try done; by apply (sane_alike _ _ _ _ (alike_count _ _)). }
  destruct (tc_shutting_down s1); [done|].
  destruct Hs as (Hn & Hq & H64 & Hqu & Hfd1 & Hw & Hr & Hh & Hrn & c & b & Hp & Hc & Hb). wp.
  destruct c as [|c].
  { rewrite (get_connection_none _ _ Hp). cbn. unfold sane. split_and!; try done. by exists 0%nat, b. }
  destruct (get_connection_spec _ _ _ Hp) as (conn & cp & -> & Hbare & Hp'). cbn.
  unfold tcp_accept, guard. cbn. rewrite (proj2 (Z.leb_le _ _) Hfd1). cbn.
  assert (Hrest : forall s2 hand k, alike (tc_with_pools (Some cp) (read_buffers s1) (write_buffers s1) s1) s2 ->
    (forall c, hand = Some c -> bare c) -> (if hand then 1 else 0) + Z.of_nat k = 1 + Z.of_nat lost ->
    sane s2 hand k).
  { intros s2 hand k Hal Hha Hk. apply (sane_alike _ _ _ _ Hal). unfold sane, queue_ok in *. cbn.
    split_and!; try done. exists c, b. split; [done|]. lia. }
  destruct a as [fd0 inb ans [e|]|e]; cbn; [destruct (counted e)| |destruct (counted e)].
  3: apply Hrest; [done|by intros ? [= <-]|lia].
  all: apply Hrest; [done|done|lia].
Qed.

(** What a sane server can always do. *)
Lemma sane_free s hand lost :
  sane s hand lost -> Z.of_nat lost + (if hand then 1 else 0) <= n ->
  exists c b, pools_ok s (S c) b.
Proof.
  intros (_ & _ & _ & (tp & _ & _ & Hen) & _ & _ & _ & _ & _ & c & b & Hp & Hc & _) Hl.
  destruct c as [|c]; [|by exists c, b]. destruct hand; lia.
Qed.

(** It ends with a failure only for a failed poll, unless the pool is empty. *)
Lemma accept_client_ends a down now s lost :
  sane s None lost ->
  match accept_client a down now s with
  | Ret (r, _) => r = Ends failure -> Z.of_nat lost <= n ->
      exists l', socket_poll_for (listener s) POLLIN = Ret (failure, l')
  | Fault _ => True
  end.
Proof.
  intros Hs. unfold accept_client. destruct (tc_shutting_down s); [done|].
  assert (Hfd : 0 <= fd (listener s)) by apply Hs.
  assert (Hp := poll_fd _ Hfd). destruct (socket_poll_for (listener s) POLLIN) as [[[] l]|]; [|clear Hfd|done].
  { cbn. destruct (s_errno l); cbn; by eauto. }
  cbn. cbn in Hp. set (s1 := if down then _ else _).
  assert (Ha : alike s s1) by (unfold s1; by destruct down). clearbody s1.
  apply (sane_alike _ _ _ _ Ha) in Hs. destruct (tc_shutting_down s1); [done|].
  destruct (tcp_server_get_connection s1) as [[[conn|] s2]|] eqn:Eg; cbn; [|intros _ Hl|done].
  - unfold tcp_accept, guard. destruct (0 <=? fd (listener s2)); [cbn|done].
    destruct a as [fd0 inb ans [e|]|e]; cbn; by try (destruct (counted e)).
  - destruct (sane_free _ _ _ Hs) as (c & b & Hpo); [lia|].
    destruct (get_connection_spec _ _ _ Hpo) as (? & ? & Hg & _). rewrite Hg in Eg. done.
Qed.

Lemma hand_over_sane rc now conn s lost :
  sane s (Some conn) lost ->
  wpr (hand_over rc now conn s) (fun r => match r with None => True | Some s' => sane s' None lost end).
Proof.
  intros (Hn & Hq & H64 & (tp & Htp & Hcap & Hen) & Hfd & Hw & Hr & Hh & Hrn & c & b & Hp & Hc & Hb).
  unfold hand_over, add_work, the_queue. rewrite Htp. cbn.
  assert (Hback : forall tp', capacity tp' = q -> nentries tp' = nentries tp ->
    wpr (let+ srv := tcp_server_recycle_connection rc now
           (tc_with_queue (Some tp') (waiting s) (running s) s) conn in Ret (Some srv))
      (fun r => match r with None => True | Some s' => sane s' None lost end)).
  { intros tp' Hcap' Hen'.
    destruct (recycle_bare_spec rc now (tc_with_queue (Some tp') (waiting s) (running s) s) conn c b)
      as (cp & -> & Hp'); [by apply Hh|done|lia|]. cbn.
    unfold sane, queue_ok. cbn. split_and!; try done.
    - exists tp'. split_and!; [done|done|lia|lia].
    - exists (S c), b. split; [done|]. lia. }
  unfold queue_full.
  destruct (Z.eqb_spec (nentries tp) (capacity tp)) as [Hf|Hf]; cbn.
  - destruct (block_when_full tp); cbn; [|by apply Hback].
    destruct (shutting_down tp), (queue_closed tp); cbn; by try apply Hback.
  - destruct (shutting_down tp || queue_closed tp); cbn; [by apply Hback|].
    unfold sane, queue_ok. cbn. split_and!; try done.
    + eexists. split; [done|]. cbn. rewrite length_app. cbn. split; [done|]. rewrite u64_small by lia. lia.
    + apply Forall_app. split; [done|]. constructor; [by apply Hh|done].
    + exists c, b. split; [done|]. rewrite length_app. cbn. lia.
Qed.

Lemma worker_starts_sane i s hand lost :
  sane s hand lost -> Z.of_nat (length (running s)) < n ->
  wpr (worker_starts i s) (fun s' => sane s' hand lost /\
    (is_Some (waiting s !! i) -> length (running s') = S (length (running s)))).
Proof.
  intros Hs Hlt. unfold worker_starts. destruct (waiting s !! i) as [conn|] eqn:Ei; cbn.
  2:{ split; [done|]. by intros [? ?]. }
  destruct Hs as (Hn & Hq & H64 & (tp & Htp & Hcap & Hen) & Hfd & Hw & Hr & Hh & Hrn & c & b & Hp & Hc & Hb).
  destruct b as [|b]; [lia|].
  assert (Hbare : bare conn) by (eapply Forall_lookup_1; eassumption).
  destruct (assign_rw_buffers_spec s conn c b Hbare Hp) as (rp & wp & conn' & -> & Hl & Hp'). cbn.
  assert (Hlen : length (waiting s) = S (length (delete i (waiting s)))).
  { rewrite length_delete by done. apply lookup_lt_Some in Ei. lia. }
  split; [|rewrite length_app; cbn; lia].
  unfold sane, queue_ok. cbn. rewrite length_app. cbn. split_and!; try done; try lia.
  - exists tp. split_and!; [done..|lia|lia].
  - by apply Forall_delete.
  - apply Forall_app. by split; [|constructor].
  - exists c, b. split; [done|]. lia.
Qed.

Lemma worker_ends_sane rc now i conn s hand lost :
  sane s hand lost -> is_Some (running s !! i) -> lent conn ->
  wpr (worker_ends rc now i conn s) (fun s' => sane s' hand lost).
Proof.
  intros (Hn & Hq & H64 & (tp & Htp & Hcap & Hen) & Hfd & Hw & Hr & Hh & Hrn & c & b & Hp & Hc & Hb) [x Hx] Hl.
  assert (Hlen : length (running s) = S (length (delete i (running s)))).
  { rewrite length_delete by done. apply lookup_lt_Some in Hx. lia. }
  unfold worker_ends.
  destruct (recycle_lent_spec rc now s conn c b Hl Hp) as (cp & rp & wp & -> & Hp'); [destruct hand; lia|lia|].
  cbn. unfold sane, queue_ok. cbn. split_and!; try done; try lia.
  - exists tp. split_and!; [done..|lia|lia].
  - by apply Forall_delete.
  - exists (S c), (S b). split; [done|]. lia.
Qed.

Lemma worker_leaves_sane s hand lost tp :
  sane s hand lost -> tc_queue s = Some tp ->
  Z.of_nat (length (waiting s) + length (running s)) < nentries tp ->
  wpr (worker_leaves s) (fun s' => sane s' hand lost).
Proof.
  intros (Hn & Hq & H64 & (tp' & Htp & Hcap & Hen) & Hfd & Hw & Hr & Hh & Hrn & c & b & Hp & Hc & Hb) Htp' Hlt.
  rewrite Htp in Htp'. injection Htp' as ->. unfold worker_leaves, the_queue. rewrite Htp. cbn.
  unfold sane, queue_ok. cbn. split_and!; try done.
  - eexists. split; [done|]. cbn. rewrite u64_small by lia. lia.
  - by exists c, b.
Qed.

(** ** Initialisation *)

Lemma connection_new_after inb ans rr rw now :
  after (connection_new inb ans rr rw now) (fun r => forall c, r = Some c -> bare c).
Proof.
  unfold connection_new. apply after_skip. intros [|]; cbn [negb]; [|by apply after_ret].
  apply after_skip. intros [so|]; apply after_ret; [|done]. by intros c [= <-].
Qed.

Lemma init_connections_loop_after k (s : tcp_server) now p :
  pool_ok p -> pnelem p + Z.of_nat k <= psize p ->
  after (init_connections_loop k s now p) (fun r => forall p', r = Some p' -> grown bare k p p').
Proof.
  revert p. induction k as [|k IH]; intros p Hp Hk; cbn [init_connections_loop].
  { apply after_ret. intros p' [= <-]. by apply grown_none. }
  eapply after_bind; [apply connection_new_after|]. intros [conn|] Hc; [|by apply after_ret].
  eapply after_bind.
  { apply after_lift. intros p1. apply (grown_add bare p conn); [done|lia|by apply Hc]. }
  intros p1 Hg. assert (Hg' := Hg). destruct Hg' as (Hok & Hn & Hs & _).
  intros o r o' Hr p' Hp'. apply (grown_trans bare 1 k _ p1); [done|].
  eapply IH; [done|lia|exact Hr|done].
Qed.

Lemma init_buffers_loop_after k (s : tcp_server) rbs wbs :
  pool_ok rbs -> pnelem rbs + Z.of_nat k <= psize rbs ->
  pool_ok wbs -> pnelem wbs + Z.of_nat k <= psize wbs ->
  after (init_buffers_loop k s rbs wbs) (fun r => forall rp wp, r = Some (rp, wp) ->
    grown (fun _ => True) k rbs rp /\ grown (fun _ => True) k wbs wp).
Proof.
  revert rbs wbs. induction k as [|k IH]; intros rbs wbs Hr Hrk Hw Hwk; cbn [init_buffers_loop].
  { apply after_ret. intros rp wp [= <- <-]. split; by apply grown_none. }
  apply after_skip. intros [rb|]; [|by apply after_ret].
  apply after_skip. intros [wb|]; [|by apply after_ret].
  eapply after_bind.
  { apply after_lift. intros p1. apply (grown_add (fun _ => True) rbs rb); [done|lia|done]. }
  intros rp1 Hg1. assert (Hg1' := Hg1). destruct Hg1' as (? & ? & ? & _).
  eapply after_bind.
  { apply after_lift. intros p1. apply (grown_add (fun _ => True) wbs wb); [done|lia|done]. }
  intros wp1 Hg2. assert (Hg2' := Hg2). destruct Hg2' as (? & ? & ? & _).
  intros o r o' Hres rp wp Hp'.
  destruct (IH rp1 wp1 ltac:(done) ltac:(lia) ltac:(done) ltac:(lia) o r o' Hres rp wp Hp').
  split; by eapply (grown_trans _ 1 k).
Qed.

Lemma grown_empty {A} (P : A -> Prop) k p :
  0 < k -> grown P (Z.to_nat k) (empty_pool k) p -> stocked k P p /\ Z.of_nat (length (available p)) = k.
Proof.
  intros Hk (Hok & Hn & _ & Hl & HP). unfold available in *. cbn in Hl, HP, Hn.
  rewrite (omap_none (replicate _ _)) in Hl, HP by (apply Forall_replicate, eq_refl). cbn in Hl.
  split; [|lia]. split_and!; [done|lia|by apply HP].
Qed.

Lemma tcp_server_init_after (s : tcp_server) now :
  tc_num s Nthreads = n -> tc_num s Queue_size = q -> q + n + 1 < 2 ^ 64 ->
  after (tcp_server_init s now) (fun '(st, s1) =>
    st = success -> forall l, 0 <= fd l -> sane (tc_with_listener l s1) None 0).
Proof.
  intros Hn Hq H64. unfold tcp_server_init. apply after_skip. intros _.
  eapply after_bind; [apply threadpool_new_after|]. rewrite Hn, Hq.
  intros [tp|] Htp; [|by apply after_ret]. destruct (Htp tp eq_refl) as (Hn0 & Hq0 & Hcap & Hen).
  eapply (after_bind _ _ (fun r => forall p, r = Some p -> grown bare (Z.to_nat (q + n + 1)) (empty_pool (q + n + 1)) p)).
  { unfold _init_connections. rewrite Hn, Hq, u64_small by lia.
    eapply after_bind; [apply pool_new_after|]. intros [p|] Hp; [|by apply after_ret].
    destruct (Hp p eq_refl) as [_ ->]. apply init_connections_loop_after; [apply empty_pool_ok; lia|cbn; lia]. }
  intros [cp|] Hcp; [|by apply after_ret]. specialize (Hcp cp eq_refl).
  eapply after_bind; [apply pool_new_after|]. intros [p1|] Hp1; [|by apply after_ret].
  eapply after_bind; [apply pool_new_after|]. intros [p2|] Hp2; [|by apply after_ret].
  destruct (Hp1 p1 eq_refl) as [_ ->], (Hp2 p2 eq_refl) as [_ ->].
  eapply after_bind; [apply init_buffers_loop_after; [by apply empty_pool_ok|cbn; lia|by apply empty_pool_ok|cbn; lia]|].
  intros [[rp wp]|] Hb; apply after_ret; [|done]. intros _ l Hfd. destruct (Hb rp wp eq_refl) as [Hrp Hwp].
  apply grown_empty in Hcp as [Sc Lc]; [|lia]. apply grown_empty in Hrp as [Sr Lr]; [|lia].
  apply grown_empty in Hwp as [Sw Lw]; [|lia].
  unfold sane, queue_ok, pools_ok. cbn. split_and!; try done; try lia.
  - exists tp. split_and!; [done|done|lia|lia].
  - exists (length (available cp)), (length (available rp)). split; [|lia].
    exists cp, rp, wp. split_and!; try done. lia.
Qed.

Lemma tcp_server_init_idle (s : tcp_server) now o s1 o' :
  tcp_server_init s now o = Ret (success, s1, o') -> waiting s1 = [] /\ running s1 = [].
Proof.
  revert o s1 o'. assert (Ha : after (tcp_server_init s now) (fun '(st, s1) =>
    st = success -> waiting s1 = [] /\ running s1 = [])).
  { unfold tcp_server_init. do 2 (apply after_skip; intros ?).
    case_match; [|by apply after_ret]. apply after_skip. intros ?. case_match; [|by apply after_ret].
    apply after_skip. intros ?. case_match; [|by apply after_ret].
    apply after_skip. intros ?. case_match; [|by apply after_ret].
    apply after_skip. intros [[rp wp]|]; by apply after_ret. }
  intros o s1 o' Hi. by apply (Ha _ _ _ Hi).
Qed.

(** ** The threads *)

(** The server, what the accept thread holds, and the connections lost so far. *)
Record world : Type := World { w_srv : tcp_server; w_hand : option connection; w_lost : nat }.

Inductive tstep : world -> world -> Prop :=
| t_client a down now s k s' c :
    accept_client a down now s = Ret (Client c, s') -> tstep (World s None k) (World s' (Some c) k)
| t_refused a down now s k s' :
    accept_client a down now s = Ret (Refused, s') -> tstep (World s None k) (World s' None (S k))
| t_again a down now s k s' :
    accept_client a down now s = Ret (Polls_again, s') -> tstep (World s None k) (World s' None k)
| t_hand_over rc now c s k s' :
    hand_over rc now c s = Ret (Some s') -> tstep (World s (Some c) k) (World s' None k)
| t_starts i s h k s' :
    Z.of_nat (length (running s)) < n -> worker_starts i s = Ret s' -> tstep (World s h k) (World s' h k)
| t_ends rc now i c s h k s' :
    is_Some (running s !! i) -> lent c -> worker_ends rc now i c s = Ret s' ->
    tstep (World s h k) (World s' h k)
| t_leaves s h k s' tp :
    tc_queue s = Some tp -> Z.of_nat (length (waiting s) + length (running s)) < nentries tp ->
    worker_leaves s = Ret s' -> tstep (World s h k) (World s' h k)
| t_shutdown s h k : tstep (World s h k) (World (snd (tcp_server_shutdown s)) h k).

Definition world_sane (w : world) : Prop := sane (w_srv w) (w_hand w) (w_lost w).

Lemma wpr_ret {A} (m : res A) Q a : wpr m Q -> m = Ret a -> Q a.
Proof. by intros Hm ->. Qed.

Lemma tstep_sane w w' : world_sane w -> tstep w w' -> world_sane w'.
Proof.
  unfold world_sane. intros Hs Hst. destruct Hst; cbn in *.
  - exact (wpr_ret _ _ _ (accept_client_sane _ _ _ _ _ Hs) H0).
  - exact (wpr_ret _ _ _ (accept_client_sane _ _ _ _ _ Hs) H0).
  - exact (wpr_ret _ _ _ (accept_client_sane _ _ _ _ _ Hs) H0).
  - exact (wpr_ret _ _ _ (hand_over_sane _ _ _ _ _ Hs) H0).
  - exact (proj1 (wpr_ret _ _ _ (worker_starts_sane _ _ _ _ Hs H0) H1)).
  - exact (wpr_ret _ _ _ (worker_ends_sane _ _ _ _ _ _ _ Hs H0 H1) H2).
  - exact (wpr_ret _ _ _ (worker_leaves_sane _ _ _ _ Hs H0 H1) H2).
  - eapply sane_alike; [|exact Hs]. done.
Qed.

Lemma tsteps_sane w w' : world_sane w -> rtc tstep w w' -> world_sane w'.
Proof. intros Hs. induction 1 as [|w1 w2 w3 Hst _ IH]; [done|]. by eapply IH, tstep_sane. Qed.

(** ** Refused accepts *)

(** A client at the listener, and the loop is not to end. *)
Definition at_listener (s : tcp_server) (k : nat) : Prop :=
  0 <= fd (listener s) /\ tc_shutting_down s = false /\
  inbox (listener s) = replicate k (Arrives []).

Lemma poll_arrives s k :
  0 <= fd s -> inbox s = replicate (S k) (Arrives []) -> socket_poll_for s POLLIN = Ret (success, s).
Proof.
  intros Hfd Hi. unfold socket_poll_for, guard. rewrite (proj2 (Z.leb_le _ _) Hfd). cbn.
  unfold poll_in. by rewrite Hi.
Qed.

Lemma accept_refused e now s k c b :
  at_listener s (S k) -> pools_ok s (S c) b ->
  exists s', accept_client (Refuses e) false now s = Ret (Refused, s') /\
    at_listener s' k /\ pools_ok s' c b /\ waiting s' = waiting s /\ running s' = running s.
Proof.
  intros (Hfd & Hd & Hi) Hp. unfold accept_client. rewrite Hd, (poll_arrives _ k) by done. cbn. rewrite Hd.
  assert (Hp' : pools_ok (tc_with_listener (listener s) s) (S c) b) by done.
  destruct (get_connection_spec _ _ _ Hp') as (conn & cp & -> & _ & Hp2). cbn.
  unfold tcp_accept, guard. cbn. rewrite (proj2 (Z.leb_le _ _) Hfd). cbn.
  eexists. split; [reflexivity|]. rewrite Hi. destruct (counted e); by cbn.
Qed.

Lemma accept_starved a now s k b :
  at_listener s (S k) -> pools_ok s 0 b ->
  exists s', accept_client a false now s = Ret (Ends failure, s') /\
    waiting s' = waiting s /\ running s' = running s.
Proof.
  intros (Hfd & Hd & Hi) Hp. unfold accept_client. rewrite Hd, (poll_arrives _ k) by done. cbn. rewrite Hd.
  assert (Hp' : pools_ok (tc_with_listener (listener s) s) 0 b) by done.
  rewrite (get_connection_none _ _ Hp'). cbn. eexists. by split; [reflexivity|].
Qed.

Lemma refused_starves e a rc now k c b s :
  (c <= k)%nat -> at_listener s (S k) -> pools_ok s c b ->
  exists s', accept_new_connections (replicate c (Refuses e) ++ [a]) rc now s = Ret (Some failure, s') /\
    waiting s' = waiting s /\ running s' = running s.
Proof.
  revert k s. induction c as [|c IH]; intros k s Hk Hl Hp; cbn [replicate app accept_new_connections].
  - destruct (accept_starved a now s k b Hl Hp) as (s' & -> & Hw & Hr). cbn. by exists s'.
  - destruct (accept_refused e now s k c b Hl Hp) as (s' & -> & Hl' & Hp' & Hw & Hr). cbn.
    destruct k as [|k]; [lia|]. destruct (IH k s') as (s2 & -> & Hw2 & Hr2); [lia|done|done|].
    exists s2. by rewrite Hw2, Hr2.
Qed.

(** ** The properties *)

(** C5. From a server that [tcp_server_init] has set up, whatever the accept
    thread and the workers do, in whatever order, and whatever the clients do:
    no step faults.  A connection is available, waits, is served, is held by the
    accept thread, or is one of those lost to refused accepts.  While those are
    no more than the workers, there always is one for the next client; a worker
    that takes a connection always finds the two buffers; and neither a worker
    nor the accept thread, when the queue is full, finds a pool that cannot take
    a connection back. *)
Theorem tcp_server_conserves (s0 : tcp_server) now o (s1 : tcp_server) o' l (s : tcp_server) h k :
  tc_num s0 Nthreads = n -> tc_num s0 Queue_size = q -> q + n + 1 < 2 ^ 64 ->
  tcp_server_init s0 now o = Ret (success, s1, o') -> 0 <= fd l ->
  rtc tstep (World (tc_with_listener l s1) None 0) (World s h k) ->
  (exists cp, connections s = Some cp /\
    Z.of_nat (length (available cp) + length (waiting s) + length (running s) + k) + (if h then 1 else 0)
      = q + n + 1) /\
  (forall a down now, h = None -> wpr (accept_client a down now s) (fun '(r, _) =>
     r = Ends failure -> Z.of_nat k <= n ->
     exists l', socket_poll_for (listener s) POLLIN = Ret (failure, l'))) /\
  (forall rc now c, h = Some c -> wpr (hand_over rc now c s) (fun _ => True)) /\
  (forall i, Z.of_nat (length (running s)) < n -> is_Some (waiting s !! i) ->
     wpr (worker_starts i s) (fun s' => length (running s') = S (length (running s)))) /\
  (forall rc now i c, is_Some (running s !! i) -> lent c ->
     wpr (worker_ends rc now i c s) (fun _ => True)).
Proof.
  intros Hn Hq H64 Hinit Hfd Hsteps.
  assert (Hs : sane s h k).
  { refine (tsteps_sane _ (World s h k) _ Hsteps).
    exact (tcp_server_init_after s0 now Hn Hq H64 _ _ _ Hinit eq_refl l Hfd). }
  split_and!.
  - destruct Hs as (_ & _ & _ & _ & _ & _ & _ & _ & _ & c & b & (cp & _ & _ & Hc & _ & _ & _ & _ & _ & <- & _) & Hcnt & _).
    by exists cp.
  - intros a down now' ->. assert (Hw := accept_client_sane a down now' s k Hs).
    assert (Hends := accept_client_ends a down now' s k Hs). by destruct (accept_client a down now' s) as [[r s']|].
  - intros rc now' c ->. eapply wpr_mono; [by apply hand_over_sane|]. done.
  - intros i Hlt Hi. eapply wpr_mono; [by apply worker_starts_sane|]. intros s' [_ Hl]. by apply Hl.
  - intros rc now' i c Hi Hl. eapply wpr_mono; [by apply (worker_ends_sane _ _ _ _ _ _ _ Hs)|]. done.
Qed.

(** Every accept4 that is refused costs a connection object: a server that
    serves nobody stops accepting, with a failure, once it was refused as often
    as it has connections, although a client is at the listener. *)
Theorem tcp_server_starves (s0 : tcp_server) now o (s1 : tcp_server) o' l e a rc :
  tc_num s0 Nthreads = n -> tc_num s0 Queue_size = q -> q + n + 1 < 2 ^ 64 ->
  tcp_server_init s0 now o = Ret (success, s1, o') ->
  tc_shutting_down s1 = false -> 0 <= fd l ->
  inbox l = replicate (Z.to_nat (q + n + 2)) (Arrives []) ->
  exists s2,
    accept_new_connections (replicate (Z.to_nat (q + n + 1)) (Refuses e) ++ [a]) rc now (tc_with_listener l s1)
      = Ret (Some failure, s2) /\ waiting s2 = [] /\ running s2 = [].
Proof.
  intros Hn Hq H64 Hinit Hd Hfd Hi.
  pose proof (tcp_server_init_after s0 now Hn Hq H64 _ _ _ Hinit eq_refl l Hfd) as Hs.
  pose proof (tcp_server_init_idle _ _ _ _ _ Hinit) as Hidle.
  destruct Hs as (Hn0 & Hq0 & _ & _ & _ & _ & _ & _ & _ & c & b & Hp & Hc & _). cbn in Hc.
  destruct Hidle as [Hw Hr]. rewrite Hw, Hr in Hc. cbn in Hc.
  replace (Z.to_nat (q + n + 1)) with c by lia.
  replace (Z.to_nat (q + n + 2)) with (S c) in Hi by lia.
  destruct (refused_starves e a rc now c c b (tc_with_listener l s1)) as (s2 & Hrun & Hw2 & Hr2);
    [lia| |done|].
  { by split_and!. }
  exists s2. cbn in Hw2, Hr2. rewrite Hw2, Hr2. done.
Qed.

End TcpServerProps.

(** A server of one worker and one entry, with a listener that has clients. *)
Definition sample_config : tcp_server (service := unit) :=
  Tcp (fun f => match f with Nthreads | Queue_size => 1 | Readbuf_size | Writebuf_size => 16 | _ => 0 end)
    (fun _ => None) SOCKTYPE_TCP None (Socket (-1) EAGAIN [] [] []) false false false None [] [] None None None.
Definition sample_server : tcp_server (service := unit) :=
  match tcp_server_init sample_config 0 [] with
  | Ret (_, s, _) => s
  | Fault _ => sample_config
  end.
Definition sample_listener : socket := Socket 3 EAGAIN (replicate 4 (Arrives [])) [] [].

(** After a client was accepted and handed over, and the worker has started. *)
Definition sample_accept := accept_client (Accepts 4 [] [] None) false 7 (tc_with_listener sample_listener sample_server).
Definition sample_client : connection :=
  match sample_accept with Ret (Client c, _) => c | _ => Conn 0 0 false sample_listener None None 0 0 0 0 end.
Definition sample_accepted := match sample_accept with Ret (_, s) => s | Fault _ => sample_server end.
Definition sample_queued :=
  match hand_over 0 7 sample_client sample_accepted with Ret (Some s) => s | _ => sample_server end.
Definition sample_serving :=
  match worker_starts 0 sample_queued with Ret s => s | Fault _ => sample_server end.

Lemma tcp_server_conserves_witness :
  length (running sample_serving) = 1%nat /\
  exists cp, connections sample_serving = Some cp /\
    Z.of_nat (length (available cp) + length (waiting sample_serving) + length (running sample_serving) + 0) + 0 = 3.
Proof.
  split; [reflexivity|].
  refine (proj1 (tcp_server_conserves 1 1 sample_config 0 [] sample_server [] sample_listener sample_serving None 0
    _ _ _ _ _ _)); [reflexivity|reflexivity|lia|reflexivity|cbn; lia|].
  apply (rtc_l _ _ (World sample_accepted (Some sample_client) 0)).
  { apply (t_client 1 (Accepts 4 [] [] None) false 7). reflexivity. }
  apply (rtc_l _ _ (World sample_queued None 0)).
  { apply (t_hand_over 1 0 7). reflexivity. }
  apply (rtc_l _ _ (World sample_serving None 0)); [|apply rtc_refl].
  apply (t_starts 1 0); reflexivity.
Defined.

Lemma tcp_server_starves_witness :
  exists s2, accept_new_connections (replicate 3 (Refuses EAGAIN) ++ [Accepts 4 [] [] None]) 0 0
      (tc_with_listener sample_listener sample_server) = Ret (Some failure, s2) /\
    waiting s2 = [] /\ running s2 = [].
Proof.
  apply (tcp_server_starves 1 1 sample_config 0 [] sample_server [] sample_listener EAGAIN);
    [reflexivity|reflexivity|lia|reflexivity|reflexivity|cbn; lia|reflexivity].
Defined.
