(* ===== verification/HttpServer.v ===== *)
(** HttpServer: the server object of http/src/http_server.c, its pages
    (dynamic_page.c) and their attributes (page_attribute, attribute.c).

    The numbers of the struct are a function from an enumeration of its members.
    A page handler is a function of the request and the response that may
    allocate.  The FILE of the log is a [stream]: what becomes of the pointer is
    part of the state, so that closing it twice or printing to it after it was
    closed is a fault; what the calls of the standard library return is a
    parameter of the call, [log_calls].

    [http_server_configure] reads its values from a configuration file and is
    not modelled, nor is the process object. *)

From Stdlib Require Import ZArith Lia.
From stdpp Require Import base list numbers.
From S2P Require Import Prelude Convert Cstring Membuf Gensocket Connection HttpBase Request Response.
From S2P Require Import Threadpool Pool TcpServer.

(** * Constants *)

Definition HTTP_STATUS_MIN : Z := 100.
Definition HTTP_STATUS_MAX : Z := 505.
Definition LOGFILE_MAX : Z := 10240.
Definition DOCUMENTROOT_MAX : Z := 10240.

Inductive at_field : Set := At_media_type | At_language | At_charset | At_encoding.

#[export] Instance at_field_eq_dec : EqDecision at_field.
Proof. solve_decision. Defined.

Inductive hs_field : Set :=
| Hs_defered_read | Hs_max_pages | Hs_timeout_read | Hs_timeout_write | Hs_timeout_accept
| Hs_retries_read | Hs_retries_write | Hs_port | Hs_worker_threads | Hs_queue_size | Hs_block_when_full
| Hs_logrotate | Hs_logfile_entries | Hs_logging | Hs_can_read_files | Hs_post_limit | Hs_tracelevel.

#[export] Instance hs_field_eq_dec : EqDecision hs_field.
Proof. solve_decision. Defined.

Section HttpServer.
Context `{STRINGS}.

(** * Page attributes *)

Record page_attribute : Type := Attribute { at_str : at_field -> str }.

Definition sizeof_attribute : Z := 32.

Definition attribute_new : C (option page_attribute) :=
  let* ok := alloc_ok sizeof_attribute in
  if negb ok then ret None
  else
    let* arr := new_strings 4 in
    ret (match arr with
         | Some [m; l; c; e] =>
             Some (Attribute (fun f => match f with
               | At_media_type => m | At_language => l | At_charset => c | At_encoding => e end))
         | _ => None
         end).

Definition at_set (f : at_field) (a : page_attribute) (value : list Z) : C (status * page_attribute) :=
  let* (st, s) := str_set (at_str a f) value in
  ret (st, Attribute (fun g => if decide (g = f) then s else at_str a g)).

Definition attribute_set_media_type := at_set At_media_type.
Definition attribute_set_language := at_set At_language.
Definition attribute_set_charset := at_set At_charset.
Definition attribute_set_encoding := at_set At_encoding.
Definition attribute_set_authorization (a : page_attribute) (value : list Z) : status * page_attribute :=
  (success, a).

Definition at_get (f : at_field) (a : page_attribute) : res (list Z) := str_text (at_str a f).
Definition attribute_get_media_type := at_get At_media_type.
Definition attribute_get_language := at_get At_language.
Definition attribute_get_charset := at_get At_charset.
Definition attribute_get_encoding := at_get At_encoding.

(** The copies, up to the first that fails. *)
Fixpoint at_copy (l : list at_field) (a p : page_attribute) : C (option page_attribute) :=
  match l with
  | [] => ret (Some p)
  | f :: l =>
      let* t := lift (at_get f a) in
      let* (st, p) := at_set f p t in
      match st with failure => ret None | success => at_copy l a p end
  end.

Definition attribute_dup (a : page_attribute) : C (option page_attribute) :=
  let* p := attribute_new in
  match p with
  | None => ret None
  | Some p => at_copy [At_language; At_charset; At_encoding; At_media_type] a p
  end.

(** * Pages *)

Definition handler : Type := http_request -> http_response -> C (Z * http_request * http_response).

Record dynamic_page : Type := Page {
  dp_uri : str;
  handlerfn : handler;
  dp_attr : option page_attribute;
}.

Definition sizeof_page : Z := 24.

Definition dynamic_new (uri : list Z) (handlerfn : handler) (a : option page_attribute)
    : C (option dynamic_page) :=
  let* ok := alloc_ok sizeof_page in
  if negb ok then ret None
  else
    let* u := str_dup uri in
    match u with
    | None => ret None
    | Some u =>
        match a with
        | None => ret (Some (Page u handlerfn None))
        | Some a =>
            let* d := attribute_dup a in
            ret (match d with None => None | Some d => Some (Page u handlerfn (Some d)) end)
        end
    end.

Definition dynamic_get_uri (p : dynamic_page) : res (list Z) := str_text (dp_uri p).
Definition dynamic_set_uri (p : dynamic_page) (value : list Z) : C (status * dynamic_page) :=
  let* (st, s) := str_set (dp_uri p) value in ret (st, Page s (handlerfn p) (dp_attr p)).
Definition dynamic_set_handler (p : dynamic_page) (f : handler) : dynamic_page := Page (dp_uri p) f (dp_attr p).
Definition dynamic_run (p : dynamic_page) (req : http_request) (response : http_response)
    : C (Z * http_request * http_response) := handlerfn p req response.
Definition dynamic_set_attributes (p : dynamic_page) (a : page_attribute) : C (status * dynamic_page) :=
  let* d := attribute_dup a in
  ret (match d with None => failure | Some _ => success end, Page (dp_uri p) (handlerfn p) d).
Definition dynamic_get_attributes (p : dynamic_page) : option page_attribute := dp_attr p.

(** * The server *)

(** The array of pages: not allocated, allocated with what each element points
    to, freed. *)
Inductive page_array : Type := No_pages | Pages (l : list (option dynamic_page)) | Freed_pages.

(** The pointer to the log: null, an open stream, or one that was closed. *)
Inductive stream : Set := Null | Open | Closed.

Record http_server : Type := Server {
  tcpsrv : tcp_server (service := unit);
  hs_num : hs_field -> Z;
  npages : nat;
  pages : page_array;
  default_attributes : option page_attribute;
  hs_shutting_down : bool;
  requests : option (pool (A := http_request));
  responses : option (pool (A := http_response));
  host : option (list Z);
  logfile : stream;
  logfile_name : list Z;
  (* what the log has received since it was opened *)
  log_lines : list (list Z);
  documentroot : list Z;
  default_handler : option handler;
}.

Definition hs_with_tcp (t : tcp_server (service := unit)) (s : http_server) : http_server :=
  Server t (hs_num s) (npages s) (pages s) (default_attributes s) (hs_shutting_down s) (requests s)
    (responses s) (host s) (logfile s) (logfile_name s) (log_lines s) (documentroot s) (default_handler s).
Definition hs_with_num (f : hs_field) (v : Z) (s : http_server) : http_server :=
  Server (tcpsrv s) (fun g => if decide (g = f) then v else hs_num s g) (npages s) (pages s)
    (default_attributes s) (hs_shutting_down s) (requests s) (responses s) (host s) (logfile s)
    (logfile_name s) (log_lines s) (documentroot s) (default_handler s).
Definition hs_with_pages (n : nat) (l : page_array) (s : http_server) : http_server :=
  Server (tcpsrv s) (hs_num s) n l (default_attributes s) (hs_shutting_down s) (requests s)
    (responses s) (host s) (logfile s) (logfile_name s) (log_lines s) (documentroot s) (default_handler s).
Definition hs_with_attributes (a : option page_attribute) (s : http_server) : http_server :=
  Server (tcpsrv s) (hs_num s) (npages s) (pages s) a (hs_shutting_down s) (requests s)
    (responses s) (host s) (logfile s) (logfile_name s) (log_lines s) (documentroot s) (default_handler s).
Definition hs_with_pools (rq : option (pool (A := http_request))) (rs : option (pool (A := http_response)))
    (s : http_server) : http_server :=
  Server (tcpsrv s) (hs_num s) (npages s) (pages s) (default_attributes s) (hs_shutting_down s) rq rs
    (host s) (logfile s) (logfile_name s) (log_lines s) (documentroot s) (default_handler s).
Definition hs_with_texts (h : option (list Z)) (name root : list Z) (s : http_server) : http_server :=
  Server (tcpsrv s) (hs_num s) (npages s) (pages s) (default_attributes s) (hs_shutting_down s) (requests s)
    (responses s) h (logfile s) name (log_lines s) root (default_handler s).
Definition hs_with_log (f : stream) (l : list (list Z)) (s : http_server) : http_server :=
  Server (tcpsrv s) (hs_num s) (npages s) (pages s) (default_attributes s) (hs_shutting_down s) (requests s)
    (responses s) (host s) f (logfile_name s) l (documentroot s) (default_handler s).

Definition sizeof_server : Z := 20744.

Definition server_defaults (f : hs_field) : Z :=
  match f with
  | Hs_timeout_read => 1000
  | Hs_timeout_write => 500
  | Hs_timeout_accept => 1000
  | Hs_max_pages => 100
  | Hs_port => 80
  | Hs_worker_threads => 8
  | Hs_queue_size => 100
  | Hs_retries_write => 3
  | Hs_post_limit => 102400
  | _ => 0
  end.

Definition http_server_new (inb : list arrival) (type : socktype) : C (option http_server) :=
  let* ok := alloc_ok sizeof_server in
  if negb ok then ret None
  else
    let* t := tcp_server_new inb type in
    ret (match t with
         | None => None
         | Some t => Some (Server t server_defaults 0 No_pages None false None None None Null [] [] (bytes "./") None)
         end).

(** ** Setters and getters *)

Definition http_server_set_post_limit (s : http_server) (cb : Z) := hs_with_num Hs_post_limit cb s.
Definition http_server_get_post_limit (s : http_server) : Z := hs_num s Hs_post_limit.
Definition http_server_set_defered_read (s : http_server) (flag : Z) := hs_with_num Hs_defered_read flag s.
Definition http_server_get_defered_read (s : http_server) : Z := hs_num s Hs_defered_read.
Definition http_server_trace (s : http_server) (level : Z) := hs_with_num Hs_tracelevel level s.
Definition http_server_set_can_read_files (s : http_server) (val : Z) := hs_with_num Hs_can_read_files val s.
Definition http_server_can_read_files (s : http_server) : Z := hs_num s Hs_can_read_files.
Definition http_server_set_logrotate (s : http_server) (logrotate : Z) : res http_server :=
  r_assert (0 <=? logrotate);; Ret (hs_with_num Hs_logrotate logrotate s).
Definition http_server_set_timeout_read (s : http_server) (n : Z) := hs_with_num Hs_timeout_read n s.
Definition http_server_set_timeout_write (s : http_server) (n : Z) := hs_with_num Hs_timeout_write n s.
Definition http_server_set_timeout_accept (s : http_server) (n : Z) := hs_with_num Hs_timeout_accept n s.
Definition http_server_get_timeout_read (s : http_server) : Z := hs_num s Hs_timeout_read.
Definition http_server_get_timeout_write (s : http_server) : Z := hs_num s Hs_timeout_write.
Definition http_server_get_timeout_accept (s : http_server) : Z := hs_num s Hs_timeout_accept.
Definition http_server_set_retries_read (s : http_server) (n : Z) := hs_with_num Hs_retries_read n s.
Definition http_server_set_retries_write (s : http_server) (n : Z) := hs_with_num Hs_retries_write n s.
Definition http_server_set_max_pages (s : http_server) (n : Z) := hs_with_num Hs_max_pages n s.
Definition http_server_get_max_pages (s : http_server) : Z := hs_num s Hs_max_pages.
Definition http_server_set_port (s : http_server) (n : Z) := hs_with_num Hs_port n s.
Definition http_server_get_port (s : http_server) : Z := hs_num s Hs_port.
Definition http_server_set_worker_threads (s : http_server) (n : Z) := hs_with_num Hs_worker_threads n s.
Definition http_server_get_worker_threads (s : http_server) : Z := hs_num s Hs_worker_threads.
Definition http_server_set_queue_size (s : http_server) (n : Z) := hs_with_num Hs_queue_size n s.
Definition http_server_get_queue_size (s : http_server) : Z := hs_num s Hs_queue_size.
Definition http_server_set_block_when_full (s : http_server) (n : Z) := hs_with_num Hs_block_when_full n s.
Definition http_server_get_block_when_full (s : http_server) : Z := hs_num s Hs_block_when_full.
Definition http_server_shutting_down (s : http_server) : bool := hs_shutting_down s.

Definition http_server_set_documentroot (s : http_server) (docroot : list Z)
    : option errno * http_server :=
  if DOCUMENTROOT_MAX + 1 <? zlen docroot + 1 then (Some ENOSPC, s)
  else (None, hs_with_texts (host s) (logfile_name s) docroot s).
Definition http_server_get_documentroot (s : http_server) : list Z := documentroot s.

Definition http_server_set_default_page_handler (s : http_server) (pf : option handler) : http_server :=
  Server (tcpsrv s) (hs_num s) (npages s) (pages s) (default_attributes s) (hs_shutting_down s) (requests s)
    (responses s) (host s) (logfile s) (logfile_name s) (log_lines s) (documentroot s) pf.
Definition http_server_has_default_page_handler (s : http_server) : bool :=
  match default_handler s with Some _ => true | None => false end.

Definition http_server_set_host (s : http_server) (h : list Z) : C (status * http_server) :=
  let* ok := alloc_ok (zlen h + 1) in
  ret (if ok : bool then (success, hs_with_texts (Some h) (logfile_name s) (documentroot s) s)
       else (failure, hs_with_texts None (logfile_name s) (documentroot s) s)).

Definition http_server_set_logfile (s : http_server) (name : list Z) : res (option errno * http_server) :=
  r_assert (match logfile s with Null => true | _ => false end);;
  if LOGFILE_MAX + 1 <? zlen name + 1 then Ret (Some ENOSPC, s)
  else Ret (None, hs_with_num Hs_logging 1 (hs_with_texts (host s) name (documentroot s) s)).

Definition http_server_set_default_page_attributes (s : http_server) (a : page_attribute)
    : C (status * http_server) :=
  let* d := attribute_dup a in
  ret (match d with None => failure | Some _ => success end, hs_with_attributes d s).
Definition http_server_get_default_attributes (s : http_server) : option page_attribute :=
  default_attributes s.

Definition http_server_shutdown (s : http_server) : status * http_server :=
  (success,
   Server (snd (tcp_server_shutdown (tcpsrv s))) (hs_num s) (npages s) (pages s) (default_attributes s) true
     (requests s) (responses s) (host s) (logfile s) (logfile_name s) (log_lines s) (documentroot s)
     (default_handler s)).

Definition http_server_sum_blocked (s : http_server) : res Z := tcp_server_sum_blocked (tcpsrv s).
Definition http_server_sum_discarded (s : http_server) : res Z := tcp_server_sum_discarded (tcpsrv s).
Definition http_server_sum_added (s : http_server) : res Z := tcp_server_sum_added (tcpsrv s).
Definition http_server_sum_poll_intr (s : http_server) : Z := tcp_server_sum_poll_intr (tcpsrv s).
Definition http_server_sum_poll_again (s : http_server) : Z := tcp_server_sum_poll_again (tcpsrv s).
Definition http_server_sum_accept_failed (s : http_server) : Z := tcp_server_sum_accept_failed (tcpsrv s).
Definition http_server_sum_denied_clients (s : http_server) : Z := tcp_server_sum_denied_clients (tcpsrv s).

(** A call on the TCP server. *)
Definition on_tcp {A} (f : tcp_server -> C (A * tcp_server)) (s : http_server) : C (A * http_server) :=
  let* (a, t) := f (tcpsrv s) in ret (a, hs_with_tcp t s).
Definition http_server_set_server_cert_chain_file (s : http_server) (path : list Z) : C (status * http_server) :=
  on_tcp (fun t => tcp_server_set_cert_chain_file t path) s.
Definition http_server_set_private_key (s : http_server) (path : list Z) : C (status * http_server) :=
  on_tcp (fun t => tcp_server_set_private_key t path) s.
Definition http_server_set_ca_directory (s : http_server) (path : list Z) : C (status * http_server) :=
  on_tcp (fun t => tcp_server_set_ca_directory t path) s.

(** ** Allocation *)

Fixpoint alloc_pool_loop {A} (new : C (option A)) (n : nat) (p : pool (A := A)) : C (option (pool (A := A))) :=
  match n with
  | O => ret (Some p)
  | S n =>
      let* r := new in
      match r with
      | None => ret None
      | Some r =>
          let* (e, p) := lift (pool_add None None p r) in
          match e with Some _ => ret None | None => alloc_pool_loop new n p end
      end
  end.

(** [http_server_alloc_request_pool] and [http_server_alloc_response_pool]: the
    pool, or nothing. *)
Definition alloc_pool {A} (new : C (option A)) (count : Z) : C (option (pool (A := A))) :=
  let* p := pool_new count in
  match p with
  | None => ret None
  | Some p => alloc_pool_loop new (Z.to_nat count) p
  end.

Definition is_none {A} (o : option A) : bool := match o with None => true | Some _ => false end.

Definition http_server_alloc_request_pool (s : http_server) : C (status * http_server) :=
  c_assert (is_none (requests s));;
  let* p := alloc_pool request_new (hs_num s Hs_worker_threads) in
  ret (if is_none p then failure else success, hs_with_pools p (responses s) s).

Definition http_server_alloc_response_pool (s : http_server) : C (status * http_server) :=
  c_assert (is_none (responses s));;
  let* p := alloc_pool response_new (hs_num s Hs_worker_threads) in
  ret (if is_none p then failure else success, hs_with_pools (requests s) p s).

Definition http_server_alloc_page_structs (s : http_server) : C (status * http_server) :=
  let n := hs_num s Hs_max_pages in
  let* ok := alloc_ok (n * 8) in
  ret (if ok : bool then (success, hs_with_pages (npages s) (Pages (replicate (Z.to_nat n) None)) s)
       else (failure, hs_with_pages (npages s) No_pages s)).

(** The loop of [dynamic_free], then [free]. *)
Definition http_server_free_page_structs (s : http_server) : res http_server :=
  match pages s with
  | Freed_pages => Fault OutOfBounds
  | No_pages => match npages s with O => Ret s | S _ => Fault OutOfBounds end
  | Pages l =>
      if (npages s <=? length l)%nat then
        if forallb (fun p => negb (is_none p)) (take (npages s) l)
        then Ret (hs_with_pages (npages s) Freed_pages s)
        else Fault AssertFailed
      else Fault OutOfBounds
  end.

Definition http_server_alloc (s : http_server) : C (status * http_server) :=
  let* (st, s) := http_server_alloc_page_structs s in
  match st with
  | failure => ret (failure, s)
  | success =>
      let* (st, s) := http_server_alloc_request_pool s in
      match st with
      | failure => let* s := lift (http_server_free_page_structs s) in ret (failure, s)
      | success =>
          let* (st, s) := http_server_alloc_response_pool s in
          match st with
          | failure =>
              let s := hs_with_pools None (responses s) s in
              let* s := lift (http_server_free_page_structs s) in ret (failure, s)
          | success => ret (success, s)
          end
      end
  end.

(** [rc]: what [close] of the listener returns; the log's [fclose] is only legal
    for an open stream. *)
Definition http_server_free (rc : Z) (this : option http_server) : res unit :=
  match this with
  | None => Ret tt
  | Some s =>
      let+ _ := tcp_server_free rc (Some (tcpsrv s)) in
      let+ _ := http_server_free_page_structs s in
      match logfile s with Closed => Fault OutOfBounds | _ => Ret tt end
  end.

(** ** Configuring and starting *)

Definition configure_tcp_server (s : http_server) : C (status * http_server) :=
  let* (st, t) := tcp_server_set_hostname (tcpsrv s) (host s) in
  match st with
  | failure => ret (failure, hs_with_tcp t s)
  | success =>
      let t := tcp_server_set_port t (hs_num s Hs_port) in
      let t := tcp_server_set_timeout t (hs_num s Hs_timeout_read) (hs_num s Hs_timeout_write)
                 (hs_num s Hs_timeout_accept) in
      let t := tcp_server_set_retries t (hs_num s Hs_retries_read) (hs_num s Hs_retries_write) in
      let t := tcp_server_set_queue_size t (hs_num s Hs_queue_size) in
      let t := tcp_server_set_block_when_full t (negb (hs_num s Hs_block_when_full =? 0)) in
      let t := tcp_server_set_worker_threads t (hs_num s Hs_worker_threads) in
      let t := tcp_server_set_service_function t tt in
      ret (success, hs_with_tcp t s)
  end.

Definition http_server_free_root_resources (rc : Z) (s : http_server) : status * http_server :=
  let (st, t) := tcp_server_free_root_resources rc (tcpsrv s) in (st, hs_with_tcp t s).

(** [l]: the answers of accept4; [None]: still running. *)
Definition http_server_start (l : list accepted) (rc now : Z) (s : http_server)
    : C (option status * http_server) :=
  let* (st, t) := tcp_server_init (tcpsrv s) now in
  match st with
  | failure => ret (Some failure, hs_with_tcp t s)
  | success => let* (r, t) := lift (accept_new_connections l rc now t) in ret (r, hs_with_tcp t s)
  end.

(** ** Pages *)

Definition http_server_add_page (s : http_server) (uri : list Z) (func : handler) (attr : option page_attribute)
    : C (status * http_server) :=
  c_assert (Z.of_nat (npages s) <? hs_num s Hs_max_pages);;
  let* dp := dynamic_new uri func attr in
  match dp with
  | None => ret (failure, s)
  | Some dp =>
      match pages s with
      | Pages l =>
          if (npages s <? length l)%nat
          then ret (success, hs_with_pages (S (npages s)) (Pages (<[npages s := Some dp]> l)) s)
          else lift (Fault OutOfBounds)
      | _ => lift (Fault OutOfBounds)
      end
  end.

Fixpoint lookup_loop (n : nat) (l : list (option dynamic_page)) (uri : list Z) : res (option dynamic_page) :=
  match n, l with
  | O, _ => Ret None
  | S n, Some p :: l =>
      let+ u := dynamic_get_uri p in
      if strcmp uri u =? 0 then Ret (Some p) else lookup_loop n l uri
  | S _, None :: _ => Fault AssertFailed
  | S _, [] => Fault OutOfBounds
  end.

Definition http_server_lookup (s : http_server) (request : http_request) : res (option dynamic_page) :=
  let+ uri := request_get_uri request in
  match uri with
  | None => Fault AssertFailed
  | Some uri =>
      match pages s with
      | Pages l => lookup_loop (npages s) l uri
      | _ => match npages s with O => Ret None | S _ => Fault OutOfBounds end
      end
  end.

(** ** Requests and responses *)

Definition get_or_die {A} (p : option (pool (A := A))) : res (A * pool (A := A)) :=
  let+ p := the_pool_of p in
  let (r, p) := pool_get None None p in
  match r with inl _ => Fault AssertFailed | inr x => Ret (x, p) end.

Definition http_server_get_request (s : http_server) : res (http_request * http_server) :=
  let+ (r, p) := get_or_die (requests s) in Ret (r, hs_with_pools (Some p) (responses s) s).

Definition http_server_get_response (s : http_server) : res (http_response * http_server) :=
  r_assert (negb (is_none (requests s)));;
  let+ (r, p) := get_or_die (responses s) in Ret (r, hs_with_pools (requests s) (Some p) s).

Definition http_server_recycle_request (s : http_server) (request : http_request) : res http_server :=
  let+ request := request_recycle request in
  let+ p := the_pool_of (requests s) in
  let+ (_, p) := pool_recycle None None p request in
  Ret (hs_with_pools (Some p) (responses s) s).

Definition http_server_recycle_response (s : http_server) (response : http_response) : C http_server :=
  let* response := response_recycle response in
  let* p := lift (the_pool_of (responses s)) in
  let* (_, p) := lift (pool_recycle None None p response) in
  ret (hs_with_pools (requests s) (Some p) s).

(** ** The log *)

(** Whether the mutex is had, what fopen, the clock (twice), fclose, rename,
    fopen and fprintf do; the address of the client and the date as text. *)
Record log_calls : Set := Calls {
  lc_locks : bool;
  lc_opens : bool;
  lc_rotate_time : bool;
  lc_closes : bool;
  lc_renames : bool;
  lc_reopens : bool;
  lc_ip : list Z;
  lc_date : option (list Z);
  lc_prints : bool;
}.

Definition set_logging (v : Z) (s : http_server) : http_server := hs_with_num Hs_logging v s.

Definition rotate_if_needed (l : log_calls) (s : http_server) : res (status * http_server) :=
  r_assert (match logfile s with Null => false | _ => true end);;
  if hs_num s Hs_logrotate =? 0 then Ret (success, s)
  else if hs_num s Hs_logfile_entries <? hs_num s Hs_logrotate then Ret (success, s)
  else if negb (lc_rotate_time l) then Ret (failure, s)
  else
    match logfile s with
    | Open =>
        let s := hs_with_log Closed (log_lines s) s in
        if negb (lc_closes l) then Ret (failure, s)
        else if negb (lc_renames l) then Ret (failure, s)
        else if negb (lc_reopens l) then Ret (failure, hs_with_log Null (log_lines s) s)
        else Ret (success, hs_with_num Hs_logfile_entries 0 (hs_with_log Open [] s))
    | _ => Fault OutOfBounds
    end.

Definition method_name (m : http_method) : list Z :=
  match m with
  | METHOD_GET => bytes "GET"
  | METHOD_HEAD => bytes "HEAD"
  | METHOD_POST => bytes "POST"
  | METHOD_UNKNOWN => bytes "unknown"
  end.

(** The common log format. *)
Definition log_line (ip date : list Z) (m : http_method) (uri : list Z) (status_code bytes_sent : Z) : list Z :=
  ip ++ bytes " - - [" ++ date ++ bytes "] " ++ [34] ++ method_name m ++ [32] ++ uri ++ [34; 32] ++
  decimal status_code ++ [32] ++ decimal bytes_sent ++ [10].

Definition write_log (l : log_calls) (s : http_server) (line : list Z) : res http_server :=
  match logfile s with
  | Open =>
      Ret (if lc_prints l
           then hs_with_num Hs_logfile_entries (hs_num s Hs_logfile_entries + 1)
                  (hs_with_log Open (log_lines s ++ [line]) s)
           else hs_with_log Closed (log_lines s) (set_logging 0 s))
  | _ => Fault OutOfBounds
  end.

Definition http_server_add_logentry (l : log_calls) (s : http_server) (request : http_request)
    (status_code bytes_sent : Z) : res http_server :=
  r_assert (negb (status_code =? 0));;
  if hs_num s Hs_logging =? 0 then Ret s
  else if negb (lc_locks l) then Ret s
  else
    match (match logfile s with
           | Null => if lc_opens l then Some (hs_with_log Open [] s) else None
           | _ => Some s
           end) with
    | None => Ret (set_logging 0 s)
    | Some s =>
        let+ (st, s) := rotate_if_needed l s in
        match st with
        | failure => Ret (set_logging 0 s)
        | success =>
            match lc_date l with
            | None => Ret s
            | Some date =>
                let+ uri := request_get_uri request in
                match uri with
                | None => Fault OutOfBounds
                | Some uri =>
                    write_log l s (log_line (lc_ip l) date (request_get_method request) uri status_code bytes_sent)
                end
            end
        end
    end.

End HttpServer.
