(* ===== verification/Service.v ===== *)
(** Service: how a connection is served, http/src/highlander.c.

    A worker gets a request and a response from the pools of the server and
    handles one request after the other until one fails, the client or the page
    wants the connection closed, or the server shuts down.  The page comes from a
    handler, from a file, or from the default handler.

    [stat] is a parameter, as are the clock, [mktime] and the reads of a file;
    the connection and its socket are those of Connection and Gensocket.  The
    path of a file is built in a block of the size of the array, whose bounds
    are checked. *)

From Stdlib Require Import ZArith Lia.
From stdpp Require Import base list numbers.
From S2P Require Import Prelude Convert Cstring MetaMisc Membuf Gensocket Connection HttpBase.
From S2P Require Import HttpDate GeneralHeader EntityHeader Request Response Threadpool Pool TcpServer HttpServer.

Definition HTTP_406_NOT_ACCEPTABLE : Z := 406.

(** What [stat] finds. *)
Inductive file_kind : Set := Missing | Regular | Directory | Other.

Definition SIZEOF_FILENAME : Z := CCH_URI_MAX + DOCUMENTROOT_MAX + 2 + 11.

(** [strcpy] and [strcat] into a block. *)
Definition strcpy (b : block) (src : list Z) : res block := wr b 0 (cstr src).
Definition strcat (b : block) (src : list Z) : res block :=
  let+ n := strlen b in wr b n (cstr src).

(** The error object; [None] is one that was not set. *)
Definition is_protocol_error (e : option http_error) : bool :=
  match e with Some (Http_error _) => true | _ => false end.
Definition get_error_code (e : option http_error) : Z :=
  match e with Some (Http_error code) => code | _ => 0 end.

Section Service.
Context `{STRINGS}.
Variable mktime : tm -> Z.
Variable stale_errno : errno.
Variable now : Z.
Variable file_size : list Z -> option Z.
Variable file_reads : list Z -> option (list (list Z)).
Variable stat : list Z -> file_kind.
(** What the stack holds behind the array of the extension, of which
    [get_extension] reads a byte. *)
Variable behind : block.

(** * Attributes *)

Definition check_attributes (request : http_request) (a : page_attribute) : res bool :=
  let+ page_val := attribute_get_media_type a in
  request_accepts_media_type request page_val.

Definition fs_can_run (srv : http_server) (request : http_request) (p : dynamic_page) : res bool :=
  match (match dynamic_get_attributes p with
         | Some a => Some a
         | None => http_server_get_default_attributes srv
         end) with
  | None => Ret true
  | Some a => check_attributes request a
  end.

(** * Files *)

Definition docroot_ok (docroot : list Z) : bool :=
  let i := zlen docroot in
  negb ((i <? 1)
    || ((i =? 1) && negb (prefixb [ch "/"] docroot))
    || ((i =? 2) && negb (strcmp docroot (bytes "./") =? 0))
    || prefixb (bytes "..") docroot
    || (match strstr docroot (bytes "..") with Some _ => true | None => false end)).

Definition uri_fit (uri : list Z) : bool :=
  negb ((zlen uri =? 0) || (match strstr uri (bytes "..") with Some _ => true | None => false end)).

(** The path in the array, and what [stat] finds there: the error, or the file. *)
Definition find_file (docroot uri : list Z) : res (Z + block) :=
  let filename := replicate (Z.to_nat SIZEOF_FILENAME) None in
  let+ filename := strcpy filename docroot in
  let+ filename := strcat filename (bytes "/") in
  let+ filename := strcat filename uri in
  let+ path := str_at filename in
  match stat path with
  | Missing => Ret (inl HTTP_404_NOT_FOUND)
  | Regular => Ret (inr filename)
  | Directory =>
      let+ filename := strcat filename (bytes "/index.html") in
      let+ path := str_at filename in
      Ret (match stat path with
           | Missing => inl HTTP_404_NOT_FOUND
           | Regular => inr filename
           | _ => inl HTTP_400_BAD_REQUEST
           end)
  | Other => Ret (inl HTTP_400_BAD_REQUEST)
  end.

Definition send_disk_file (srv : http_server) (req : http_request) (response : http_response)
    : C (status * option http_error * http_response) :=
  let fail code := ret (failure, Some (Http_error code), response) in
  let* uri := lift (request_get_uri req) in
  match uri with
  | None => fail HTTP_400_BAD_REQUEST
  | Some uri =>
      if negb (uri_fit uri) then fail HTTP_400_BAD_REQUEST
      else
        let docroot := http_server_get_documentroot srv in
        if negb (docroot_ok docroot) then fail HTTP_400_BAD_REQUEST
        else if SIZEOF_FILENAME <=? zlen docroot + (zlen uri + 2) then fail HTTP_400_BAD_REQUEST
        else
          let* f := lift (find_file docroot uri) in
          match f with
          | inl code => fail code
          | inr filename =>
              let* accepted := lift (match http_server_get_default_attributes srv with
                                     | None => Ret true
                                     | Some a => check_attributes req a
                                     end) in
              if negb accepted
              then ret (failure, Some (Http_error HTTP_406_NOT_ACCEPTABLE),
                        response_set_status response HTTP_406_NOT_ACCEPTABLE)
              else
                let* path := lift (str_at filename) in
                let* content_type := lift (get_mime_type path (replicate 100 None ++ behind)) in
                let* (st, e, response) := response_send_file file_size response path content_type in
                match st with
                | failure => ret (failure, e, response)
                | success => ret (success, e, response_set_status response HTTP_200_OK)
                end
          end
  end.

(** * Handlers *)

Definition is_http_status_code (iserror : Z) : bool :=
  (HTTP_STATUS_MIN <=? iserror) && (iserror <=? HTTP_STATUS_MAX).

(** The status, the error, and the two objects. *)
Definition handled_page : Type := status * option http_error * http_request * http_response.

Definition handle_dynamic (srv : http_server) (p : dynamic_page) (req : http_request) (response : http_response)
    : C handled_page :=
  let version := request_get_version req in
  let* can := lift (fs_can_run srv req p) in
  if negb can
  then ret (failure, Some (Http_error HTTP_406_NOT_ACCEPTABLE), req,
            response_set_status response HTTP_406_NOT_ACCEPTABLE)
  else
    let response := response_set_last_modified (response_set_version response version) now in
    let* (status, req, response) := dynamic_run p req response in
    let status := if status =? 0 then HTTP_200_OK
                  else if is_http_status_code status then status else HTTP_500_INTERNAL_SERVER_ERROR in
    ret (success, None, req, response_set_status response status).

Definition http_server_run_default_page_handler (srv : http_server) (request : http_request)
    (response : http_response) : C handled_page :=
  let* uri := lift (request_get_uri request) in
  match uri, default_handler srv with
  | Some uri, Some f =>
      let* p := dynamic_new uri f None in
      match p with
      | None => ret (failure, Some (Os_error ENOMEM), request, response)
      | Some p => handle_dynamic srv p request response
      end
  | _, _ => lift (Fault OutOfBounds)
  end.

(** The page of a request that was received. *)
Definition find_page (srv : http_server) (request : http_request) (response : http_response)
    : C handled_page :=
  let* dp := lift (http_server_lookup srv request) in
  match dp with
  | Some dp => handle_dynamic srv dp request response
  | None =>
      if negb (http_server_can_read_files srv =? 0)
      then let* (st, e, response) := send_disk_file srv request response in ret (st, e, request, response)
      else if http_server_has_default_page_handler srv
      then http_server_run_default_page_handler srv request response
      else ret (failure, Some (Http_error HTTP_404_NOT_FOUND), request, response)
  end.

(** * The connection *)

(** What a worker works on. *)
Record serving : Type := Serving {
  sv_srv : http_server;
  sv_conn : connection;
  sv_request : http_request;
  sv_response : http_response;
}.

(** The round ends the loop, with a status, or not. *)
Inductive round_end : Set := Returns (st : status) | Continues.

Definition sent_bytes (pcb : option Z) : res Z :=
  match pcb with Some n => Ret n | None => Fault Uninitialised end.

(** A protocol error is told to the client. *)
Definition send_error (l : log_calls) (e : option http_error) (s : serving) : C (round_end * serving) :=
  let '(Serving srv conn request response) := s in
  if negb (is_protocol_error e) then ret (Returns failure, s)
  else
    let status := get_error_code e in
    let response := response_set_status response status in
    let* (st, response) := response_set_connection response (bytes "close") in
    match st with
    | failure => ret (Returns failure, Serving srv conn request response)
    | success =>
        let* (st, _, (pcb, response, conn)) := response_send now file_reads response conn in
        match st with
        | failure => ret (Returns failure, Serving srv conn request response)
        | success =>
            let* n := lift (sent_bytes pcb) in
            let* srv := lift (http_server_add_logentry l srv request status n) in
            ret (Returns failure, Serving srv conn request response)
        end
    end.

(** What is sent and done when there is a page. *)
Definition send_page (l : log_calls) (s : serving) : C (round_end * serving) :=
  let '(Serving srv conn request response) := s in
  let* t := lift (response_get_connection response) in
  let* (st, response) :=
    (if bool_decide (request_get_version request <> VERSION_11) && negb (connection_is_persistent conn)
        && (zlen t =? 0)
     then response_set_connection response (bytes "close")
     else ret (success, response)) in
  match st with
  | failure => ret (Returns failure, Serving srv conn request response)
  | success =>
      let* (st, _, (pcb, response, conn)) := response_send now file_reads response conn in
      match st with
      | failure => ret (Returns failure, Serving srv conn request response)
      | success =>
          let* n := lift (sent_bytes pcb) in
          let* srv := lift (http_server_add_logentry l srv request (response_get_status response) n) in
          let* t := lift (response_get_connection response) in
          if (strcmp t (bytes "close") =? 0) || negb (connection_is_persistent conn)
          then ret (Returns success, Serving srv conn request response)
          else
            let* (_, conn) := lift (connection_flush conn) in
            let* request := lift (request_recycle request) in
            let* response := response_recycle response in
            ret (Continues, Serving srv conn request response)
      end
  end.

(** [fuel]: as [request_receive] has it, more than the lines of the header. *)
Definition service_round (fuel : nat) (l : log_calls) (s : serving) : C (round_end * serving) :=
  let '(Serving srv conn request response) := s in
  let* (data, conn) := lift (data_on_socket conn) in
  if negb data then ret (Returns failure, Serving srv conn request response)
  else
    let* (e, (request, conn)) :=
      request_receive mktime stale_errno fuel (http_server_get_post_limit srv) (request, conn) in
    match e with
    | Some e => send_error l (Some e) (Serving srv conn request response)
    | None =>
        let* (st, e, request, response) := find_page srv request response in
        match st with
        | failure => send_error l e (Serving srv conn request response)
        | success => send_page l (Serving srv conn request response)
        end
    end.

(** A round of the loop for each element of the list: what the log does in it
    and whether [http_server_shutdown] was called before it.  [Continues]: the
    loop is still running. *)
Fixpoint serviceConnection2 (fuel : nat) (rounds : list (log_calls * bool)) (s : serving)
    : C (round_end * serving) :=
  match rounds with
  | [] => ret (Continues, s)
  | (l, down) :: rounds =>
      let s := if down : bool
               then Serving (snd (http_server_shutdown (sv_srv s))) (sv_conn s) (sv_request s) (sv_response s)
               else s in
      if http_server_shutting_down (sv_srv s) then ret (Returns success, s)
      else
        let* (r, s) := service_round fuel l s in
        match r with
        | Returns st => ret (Returns st, s)
        | Continues => serviceConnection2 fuel rounds s
        end
  end.

Definition sizeof_error : Z := 1036.

(** The status, the server and the connection, which is not closed here. *)
Definition serviceConnection (fuel : nat) (rounds : list (log_calls * bool)) (srv : http_server) (conn : connection)
    : C (round_end * http_server * connection) :=
  let* ok := alloc_ok sizeof_error in
  if negb ok then ret (Returns failure, srv, conn)
  else
    let* (request, srv) := lift (http_server_get_request srv) in
    let request := request_set_defered_read request (negb (http_server_get_defered_read srv =? 0)) in
    let* (response, srv) := lift (http_server_get_response srv) in
    let* (r, s) := serviceConnection2 fuel rounds (Serving srv conn request response) in
    match r with
    | Continues => ret (Continues, sv_srv s, sv_conn s)
    | Returns st =>
        let* srv := lift (http_server_recycle_request (sv_srv s) (sv_request s)) in
        let* srv := http_server_recycle_response srv (sv_response s) in
        ret (Returns st, srv, sv_conn s)
    end.

End Service.
