(* ===== verification/ServiceProps.v ===== *)
(** ServiceProps: what the server promises to its client, over Service.

    A file that is sent lies under the document root ([disk_file_confined]); a
    request that arrives in full is answered in full ([service_answers]); and a
    response on a connection that is not persistent stays in the buffer when it
    fits there ([unflushed_lost]). *)

From Stdlib Require Import ZArith Lia.
From stdpp Require Import base sets list numbers functions.
From S2P Require Import TcpServerProps.
From S2P Require Import Prelude Convert Cstring MetaMisc Membuf Gensocket Connection HttpBase HeaderLines.
From S2P Require Import HttpDate GeneralHeader GeneralHeaderProps EntityHeader HeaderProps Request RequestProps.
From S2P Require Import Response ResponseProps Threadpool Pool TcpServer HttpServer Service.

(** * Strings in a block *)

Lemma strcpy_spec (b : block) t :
  zlen t < zlen b -> strcpy b t = Ret (cstr t ++ drop (S (length t)) b).
Proof.
  intros Hb. unfold strcpy. rewrite wr_head by (rewrite zlen_cstr; lia).
  unfold cstr. by rewrite length_app, length_fmap, Nat.add_1_r.
Qed.

Lemma strcat_spec t s junk :
  Forall is_char t -> zlen s <= zlen junk ->
  strcat (cstr t ++ junk) s = Ret (cstr (t ++ s) ++ drop (length s) junk).
Proof.
  intros Ht Hs. unfold strcat. change (cstr t ++ junk) with (((Some <$> t) ++ [Some 0]) ++ junk).
  rewrite <-app_assoc. simpl ([Some 0] ++ junk). rewrite strlen_cstr by done. cbn [res_bind].
  rewrite wr_tail; [|by rewrite zlen_fmap|rewrite zlen_cstr, zlen_cons; lia].
  unfold cstr. rewrite fmap_app, <-!app_assoc. by rewrite length_app, length_fmap, Nat.add_1_r.
Qed.

(** Two names without a pair of dots have none when a slash joins them. *)
Lemma strstr_joined a b :
  strstr a (bytes "..") = None -> strstr b (bytes "..") = None ->
  strstr (a ++ bytes "/" ++ b) (bytes "..") = None.
Proof.
  intros Ha Hb. induction a as [|x a IH]; [by cbn in *; rewrite Hb|].
  change (bytes "..") with [46; 46] in *. cbn [strstr prefixb app] in Ha |- *.
  destruct a as [|y a]; cbn [strstr prefixb app] in Ha, IH |- *.
  - rewrite IH by done. by destruct (46 =? x).
  - destruct ((46 =? x) && _) eqn:Hxy; [done|].
    rewrite IH; [done|]. by apply fmap_None in Ha.
Qed.

(** * Files *)

Section Files.
Context `{StringLaws}.
Variables (file_size : list Z -> option Z) (stat : list Z -> file_kind) (behind : block).
Hypothesis Hbehind : 1 <= zlen behind.

(** The files of a URI. *)
Definition file_of (docroot uri path : list Z) : Prop :=
  path = docroot ++ bytes "/" ++ uri /\ stat path = Regular \/
  path = docroot ++ bytes "/" ++ uri ++ bytes "/index.html" /\
    stat (docroot ++ bytes "/" ++ uri) = Directory /\ stat path = Regular.

(** The array has room for the longest root, the longest URI, and the index. *)
Lemma find_file_spec docroot uri :
  Forall is_char docroot -> zlen docroot <= DOCUMENTROOT_MAX ->
  Forall is_char uri -> zlen uri <= CCH_URI_MAX ->
  wpr (find_file stat docroot uri) (fun f =>
    match f with
    | inl code => ~ (exists path, file_of docroot uri path) /\ (code = HTTP_400_BAD_REQUEST \/ code = HTTP_404_NOT_FOUND)
    | inr b => exists path junk, b = cstr path ++ junk /\ Forall is_char path /\ file_of docroot uri path
    end).
Proof.
  intros Hd Hdl Hu Hul. unfold find_file. zlen_facts.
  assert (Hsize : zlen (replicate (Z.to_nat SIZEOF_FILENAME) (None (A := Z))) = SIZEOF_FILENAME)
    by (by rewrite zlen_replicate).
  unfold DOCUMENTROOT_MAX, CCH_URI_MAX in *. change SIZEOF_FILENAME with 20493 in *.
  set (b := replicate _ _) in *. clearbody b.
  rewrite strcpy_spec by lia. cbn [res_bind].
  assert (Hj : zlen (drop (S (length docroot)) b) = 20492 - zlen docroot)
    by (unfold zlen in *; rewrite length_drop; lia).
  set (j := drop _ _) in *. clearbody j. clear b Hsize.
  rewrite strcat_spec by (done || (change (zlen (bytes "/")) with 1; lia)). cbn [res_bind].
  assert (Hj1 : zlen (drop (length (bytes "/")) j) = 20491 - zlen docroot)
    by (unfold zlen in *; rewrite length_drop; simpl; lia).
  set (j1 := drop _ _) in *. clearbody j1. clear j Hj.
  assert (Hc1 : Forall is_char (docroot ++ bytes "/")) by (apply Forall_app; split; [done|decide_closed]).
  rewrite strcat_spec by (done || lia). cbn [res_bind]. rewrite <-app_assoc.
  assert (Hj2 : zlen (drop (length uri) j1) = 20491 - zlen docroot - zlen uri)
    by (unfold zlen in *; rewrite length_drop; lia).
  set (j2 := drop _ _) in *. clearbody j2. clear j1 Hj1.
  assert (Hc2 : Forall is_char (docroot ++ bytes "/" ++ uri)) by (rewrite app_assoc; by apply Forall_app).
  rewrite str_at_here by done. cbn [res_bind].
  destruct (stat (docroot ++ bytes "/" ++ uri)) eqn:Hs; cbn [wpr].
  - split; [|by right]. intros (path & [[-> Hp]|(_ & Hp & _)]); congruence.
  - eexists _, _. split; [done|]. split; [done|]. by left.
  - rewrite strcat_spec by (done || (change (zlen (bytes "/index.html")) with 11; lia)). cbn [res_bind].
    assert (Hc3 : Forall is_char ((docroot ++ bytes "/" ++ uri) ++ bytes "/index.html"))
      by (apply Forall_app; split; [done|decide_closed]).
    rewrite str_at_here by done. cbn [res_bind wpr].
    assert (Heq : (docroot ++ bytes "/" ++ uri) ++ bytes "/index.html" = docroot ++ bytes "/" ++ uri ++ bytes "/index.html")
      by (by rewrite <-!app_assoc).
    rewrite Heq in *. destruct (stat (docroot ++ bytes "/" ++ uri ++ bytes "/index.html")) eqn:Hi.
    2: { eexists _, _. split; [done|]. split; [done|]. by right. }
    all: (split; [|by (left + right)]); intros (path & [[-> Hp]|(-> & _ & Hp)]); congruence.
  - split; [|by left]. intros (path & [[-> Hp]|(_ & Hp & _)]); congruence.
Qed.

(** A field of the entity header is set in the response. *)
Lemma holds_with_entity D r w eh F t :
  (forall f, F <> G f) -> (forall f, F <> R f) -> F <> Date ->
  ResponseProps.holds D r w -> eh_holds D eh (<[F := Some t]> w) ->
  ResponseProps.holds D (rs_with_entity eh r) (<[F := Some t]> w).
Proof.
  intros HG HR HD [[Hg _] Hr] He. split; [split|]; [|exact He|].
  - cbn [rs_general rs_with_entity]. rewrite insert_field, decide_False by done. by apply gh_insert.
  - eapply rs_holds_ext; [|by eapply rs_holds_frame, Hr]. intros f.
    rewrite insert_field, decide_False; [done|]. intros <-. by apply (HR f).
Qed.

Definition typed (ct : list Z) (w : ResponseProps.contents) : ResponseProps.contents :=
  <[E Eh_content_type := Some ct]> w.

(** The response for a file of [n] bytes. *)
Lemma response_send_file_spec D r w p path ct n o :
  ResponseProps.holds D r w -> str_rep (rs_str r Rs_path) p -> str_cap (rs_str r Rs_path) <= 2 ^ 40 ->
  valid_str path -> zlen path <= 2 ^ 38 -> valid_str ct -> zlen ct <= 2 ^ 38 -> file_size path = Some n ->
  wp (response_send_file file_size r path ct) o (fun '(st, e, r') o' =>
    (st = success -> ResponseProps.holds D r' (<[Length := Some (decimal n)]> (typed ct w)) /\
       send_file r' = true /\ str_rep (rs_str r' Rs_path) path /\ rs_version r' = rs_version r) /\
    (forall code, e <> Some (Http_error code)) /\
    (o = [] -> o' = [] /\ st = success)).
Proof.
  intros Hr Hp Hcap Hpath Hlen Hct Hctl Hsize. unfold response_send_file. rewrite Hsize.
  unfold response_set_content_type, on_entity. pose proof Hr as [[_ He] _].
  apply wp_bind, wp_bind. eapply wp_mono; [by apply (eh_set_spec D Eh_content_type _ w ct)|].
  intros [st eh] o1 [Hst Ho]. apply wp_ret. destruct st; [apply wp_ret; split; [done|];
    split; [done|]; intros Hoo; by destruct (Ho Hoo)|]. specialize (Hst eq_refl).
  apply wp_bind. eapply wp_mono; [by apply (str_set_law _ p)|]. intros [st s] o2 (Hs & _ & Ho2).
  apply wp_ret. destruct st; cbn beta iota in Hs |- *.
  - split; [done|]. split; [done|]. intros Hoo. destruct (Ho Hoo) as [-> _]. destruct (Ho2 eq_refl) as [_ Hf].
    cbn in Hf. unfold PTRDIFF_MAX in Hf. assert (failure = success) by (apply Hf; lia). done.
  - split; [|split; [done|intros Hoo; destruct (Ho Hoo) as [-> _]; by destruct (Ho2 eq_refl)]]. intros _.
    split; [|split; [done|split; [|done]]].
    + assert (Hset : ResponseProps.holds D
        (response_set_content_length (rs_with_entity eh r) n) (<[Length := Some (decimal n)]> (typed ct w))).
      { apply (holds_with_entity D (rs_with_entity eh r)); try done.
        - by apply holds_with_entity.
        - by apply eh_set_length_spec. }
      destruct Hset as [Hh [Hrs Hfl]]. split; [exact Hh|]. split; [|exact Hfl]. intros f.
      specialize (Hrs f). destruct (rs_flag f) eqn:Hf; [|exact Hrs]. cbn in Hrs |- *.
      rewrite decide_False by (by intros ->). exact Hrs.
    + cbn. by rewrite decide_True.
Qed.

(** The attributes of the server ask for a type the client takes, or not. *)
Definition accepts (srv : http_server) (req : http_request) (b : bool) : Prop :=
  match default_attributes srv with
  | None => b = true
  | Some a => check_attributes req a = Ret b
  end.

Definition opened (r : http_response) (w : ResponseProps.contents) (path : list Z) (n : Z) : Prop :=
  (exists ct, ResponseProps.holds sent_as r (<[Length := Some (decimal n)]> (typed ct w))) /\
  send_file r = true /\ str_rep (rs_str r Rs_path) path /\ rs_status r = HTTP_200_OK.

Definition confined (srv : http_server) (uri : list Z) (w : ResponseProps.contents) (b : bool) (o : oracle)
    (res : status * option http_error * http_response) : Prop :=
  let '(st, e, r') := res in
  let root := documentroot srv in
  (st = success -> exists path n,
     file_of root uri path /\ strstr path (bytes "..") = None /\ file_size path = Some n /\ opened r' w path n) /\
  (forall code, e = Some (Http_error code) -> st = failure /\ code ∈ [400; 404; 406]) /\
  (o = [] -> uri_fit uri = true -> docroot_ok root = true -> b = true ->
     (exists path, file_of root uri path) -> st = success).

Lemma refused srv uri w b o code r :
  code ∈ [400; 404; 406] ->
  (uri_fit uri = true -> docroot_ok (documentroot srv) = true -> b = true ->
     ~ exists path, file_of (documentroot srv) uri path) ->
  wp (ret (failure, Some (Http_error code), r)) o (fun res _ => confined srv uri w b o res).
Proof.
  intros Hc Hno. apply wp_ret. split; [done|]. split; [by intros c [= <-]|].
  intros _ H1 H2 H3 H4. by destruct (Hno H1 H2 H3).
Qed.

Lemma path_bounds docroot uri path :
  file_of docroot uri path -> zlen path <= zlen docroot + zlen uri + 12 /\ stat path = Regular.
Proof.
  intros [[-> Hs]|(-> & _ & Hs)]; (split; [|exact Hs]); rewrite !zlen_app.
  - change (zlen (bytes "/")) with 1. lia.
  - change (zlen (bytes "/")) with 1. change (zlen (bytes "/index.html")) with 11. lia.
Qed.

Lemma no_dots docroot uri path :
  uri_fit uri = true -> docroot_ok docroot = true -> file_of docroot uri path ->
  strstr path (bytes "..") = None.
Proof.
  unfold uri_fit, docroot_ok. rewrite !negb_true_iff, !orb_false_iff. intros [_ Hu] [_ Hd].
  destruct (strstr uri _) eqn:Hu'; [done|]. destruct (strstr docroot _) eqn:Hd'; [done|].
  intros [[-> _]|(-> & _)]; apply strstr_joined; try done. by apply strstr_joined.
Qed.

(** C6. Whatever a client asks for, the array the path of a file is built in does
    not overflow, and a file that is opened for it is a regular file under the
    document root, named by the URI or the index of the directory the URI names,
    on a path without a pair of dots.  Every other URI is refused with 400, 404
    or 406; and a file that is there is opened. *)
Theorem disk_file_confined srv req response w p uri b o :
  request_get_uri req = Ret (Some uri) -> Forall is_char uri -> zlen uri <= CCH_URI_MAX ->
  Forall is_char (documentroot srv) -> zlen (documentroot srv) <= DOCUMENTROOT_MAX -> accepts srv req b ->
  (forall path, stat path = Regular -> is_Some (file_size path)) ->
  ResponseProps.holds sent_as response w -> str_rep (rs_str response Rs_path) p ->
  str_cap (rs_str response Rs_path) <= 2 ^ 40 ->
  wp (send_disk_file file_size stat behind srv req response) o (fun res o' => confined srv uri w b o res).
Proof.
  intros Huri Hu Hul Hd Hdl Hb Hfile Hr Hp Hcap. unfold send_disk_file. zlen_facts.
  apply wp_bind, wp_lift. rewrite Huri. cbn [wpr]. unfold http_server_get_documentroot.
  destruct (uri_fit uri) eqn:Huf; cbn [negb]; [|apply refused; [decide_closed|congruence]].
  destruct (docroot_ok (documentroot srv)) eqn:Hdo; cbn [negb]; [|apply refused; [decide_closed|congruence]].
  unfold DOCUMENTROOT_MAX, CCH_URI_MAX in *. rewrite (proj2 (Z.leb_gt _ _)) by (change SIZEOF_FILENAME with 20493; lia).
  apply wp_bind, wp_lift. eapply wpr_mono; [by apply find_file_spec|].
  intros [code|file]; [intros [Hno Hc]|intros (path & junk & -> & Hpc & Hof)].
  { apply refused; [destruct Hc as [-> | ->]; decide_closed|]. intros _ _ _ He. by destruct Hno. }
  apply wp_bind, wp_lift. unfold accepts in Hb. unfold http_server_get_default_attributes.
  assert (Ha : wpr (match default_attributes srv with Some a => check_attributes req a | None => Ret true end)
    (fun x => x = b)) by (destruct (default_attributes srv); [by rewrite Hb|by rewrite Hb]).
  eapply wpr_mono; [exact Ha|]. intros ? ->. destruct b; cbn [negb]; [|apply refused; [decide_closed|congruence]].
  apply wp_bind, wp_lift. rewrite str_at_here by done. cbn [wpr].
  apply wp_bind, wp_lift. eapply wpr_mono.
  { apply get_mime_type_spec. rewrite zlen_app, zlen_replicate. lia. }
  intros ct [Hct Hctl]. destruct (path_bounds _ _ _ Hof) as [Hpl Hpr].
  destruct (Hfile path Hpr) as [n Hn].
  apply wp_bind. eapply wp_mono; [apply (response_send_file_spec sent_as response w p path ct n); try done|].
  { split; [done|]. unfold PTRDIFF_MAX. lia. }
  { lia. }
  { split; [done|]. unfold PTRDIFF_MAX. lia. }
  { lia. }
  intros [[st e] r1] o1 (Hs & He & Ho). destruct st; apply wp_ret.
  - split; [done|]. split; [by intros c Hc; destruct (He c)|]. intros Hoo. by destruct (Ho Hoo).
  - destruct (Hs eq_refl) as (Hh & Hsf & Hsp & _). split; [|split; [by intros c Hc; destruct (He c)|done]].
    intros _. exists path, n. split; [done|]. split; [by eapply no_dots|]. split; [done|].
    split; [|done]. exists ct. destruct Hh as [Hh1 Hh2]. split; [exact Hh1|].
    by eapply rs_holds_frame, Hh2.
Qed.

End Files.

(** * A round *)

Section Round.
Context `{StringLaws}.
Variable zone : Z.
Variables (stale_errno : errno) (now : Z).
Variables (file_size : list Z -> option Z) (file_reads : list Z -> option (list (list Z))).
Variables (stat : list Z -> file_kind) (behind : block).
Hypothesis Hnow : now <> -1.

Let mktime := HttpDate.mktime zone.

(** ** The log *)

(** The server writes to its log only while it is open. *)
Definition log_ok (srv : http_server) : Prop := hs_num srv Hs_logging = 0 \/ logfile srv <> Closed.

(** All but the log. *)
Definition unlogged (srv srv' : http_server) : Prop :=
  tcpsrv srv' = tcpsrv srv /\ npages srv' = npages srv /\ pages srv' = pages srv /\
  default_attributes srv' = default_attributes srv /\ hs_shutting_down srv' = hs_shutting_down srv /\
  requests srv' = requests srv /\ responses srv' = responses srv /\ documentroot srv' = documentroot srv /\
  default_handler srv' = default_handler srv /\
  forall f, f <> Hs_logging -> f <> Hs_logfile_entries -> hs_num srv' f = hs_num srv f.

#[export] Instance unlogged_preorder : PreOrder unlogged.
Proof.
  split; [by intros s; split_and!|].
  intros a b c (? & ? & ? & ? & ? & ? & ? & ? & ? & Hab) (? & ? & ? & ? & ? & ? & ? & ? & ? & Hbc).
  split_and!; try congruence. intros f Hx Hy. by rewrite Hbc, Hab.
Qed.

Lemma unlogged_log f l srv : unlogged srv (hs_with_log f l srv).
Proof. by split_and!. Qed.
Lemma unlogged_num f v srv : f = Hs_logging \/ f = Hs_logfile_entries -> unlogged srv (hs_with_num f v srv).
Proof. intros Hf. split_and!; try done. intros g H1 H2. cbn. rewrite decide_False; [done|]. destruct Hf as [-> | ->]; congruence. Qed.
Hint Resolve unlogged_log unlogged_num : core.

Lemma log_off srv : log_ok (set_logging 0 srv).
Proof. left. unfold set_logging. cbn. by rewrite decide_True. Qed.
Hint Resolve log_off : core.

Lemma rotate_spec l srv :
  logfile srv = Open ->
  wpr (rotate_if_needed l srv) (fun '(st, srv') =>
    unlogged srv srv' /\ (st = success -> logfile srv' = Open)).
Proof.
  intros Ho. unfold rotate_if_needed. rewrite Ho. wp.
  repeat match goal with |- context [if ?b then _ else _] => destruct b end; wp; (split; [|done]);
    first [done | apply unlogged_log | by etrans; [apply unlogged_log|apply unlogged_log]
          | by etrans; [apply unlogged_log|]; etrans; [apply unlogged_log|]; apply unlogged_num; right].
Qed.

Lemma add_logentry_spec l srv req u code n :
  log_ok srv -> code <> 0 -> request_get_uri req = Ret (Some u) ->
  wpr (http_server_add_logentry l srv req code n) (fun srv' => log_ok srv' /\ unlogged srv srv').
Proof.
  intros Hlog Hcode Hu. unfold http_server_add_logentry. rewrite (proj2 (Z.eqb_neq _ _) Hcode). wp.
  destruct (Z.eqb_spec (hs_num srv Hs_logging) 0); [by wp|].
  destruct (lc_locks l); [|by wp]. cbn [negb].
  assert (Hopen : forall s1, unlogged srv s1 -> logfile s1 = Open ->
    wpr (let+ (st, s) := rotate_if_needed l s1 in
      match st with
      | failure => Ret (set_logging 0 s)
      | success => match lc_date l with None => Ret s | Some date =>
          let+ uri := request_get_uri req in
          match uri with
          | None => Fault OutOfBounds
          | Some uri => write_log l s (log_line (lc_ip l) date (request_get_method req) uri code n)
          end end
      end) (fun srv' => log_ok srv' /\ unlogged srv srv')).
  { intros s1 H1 Ho. wp. eapply wpr_mono; [by apply rotate_spec|]. intros [st s2] [H2 Ho2].
    assert (H3 : unlogged srv s2) by (by etrans). destruct st; wp.
    { split; [apply log_off|]. etrans; [exact H3|]. apply unlogged_num. by left. }
    specialize (Ho2 eq_refl). destruct (lc_date l); wp; [|split; [right; congruence|done]].
    rewrite Hu. cbn [res_bind wpr]. unfold write_log. rewrite Ho2. cbn [wpr]. destruct (lc_prints l).
    - split; [by right|]. etrans; [exact H3|]. etrans; [apply unlogged_log|]. apply unlogged_num. by right.
    - split; [left; cbn; by rewrite decide_True|]. etrans; [exact H3|].
      etrans; [apply (unlogged_num Hs_logging 0); by left|]. apply unlogged_log. }
  destruct (logfile srv) eqn:Hf; [destruct (lc_opens l)|by apply Hopen|by destruct Hlog].
  - by apply Hopen.
  - wp. split; [apply log_off|]. apply unlogged_num. by left.
Qed.

(** ** Pages *)

(** What a page answers: the status, what the handler adds to the fields, the
    entity. *)
Record reply : Type := Reply {
  rp_code : Z;
  rp_fields : ResponseProps.contents -> ResponseProps.contents;
  rp_body : list Z;
}.

(** The fields of a response object that is used for the first time, or again. *)
Definition unused (w : ResponseProps.contents) : Prop :=
  w = html \/ w = <[R Rs_server := Some (bytes "chopped")]> html.

Definition modified (w : ResponseProps.contents) : ResponseProps.contents :=
  <[Modified := Some (rfc822_text now)]> w.

Definition reply_ok (r : reply) : Prop :=
  has_entity (rp_code r) /\ forall w0, unused w0 ->
    named (rp_fields r (modified w0)) /\ rp_fields r (modified w0) (G Gh_connection) = None.

(** The status the handler of a page returned, as it is sent. *)
Definition status_of (n : Z) : Z :=
  if n =? 0 then HTTP_200_OK
  else if is_http_status_code n then n else HTTP_500_INTERNAL_SERVER_ERROR.

Definition cookieless (r : http_response) : Prop := rs_cookies r = None \/ rs_cookies r = Some [].

(** A response that a page has filled in. *)
Definition filled (r : http_response) (w : ResponseProps.contents) (body : list Z) : Prop :=
  ResponseProps.holds sent_as r w /\ measures r w body /\ entity_held r body /\ cookieless r /\
  (exists t, str_rep (rs_str r Rs_entity) t) /\ (exists p, str_rep (rs_str r Rs_path) p).

(** What is asked of a handler: for a request with the fields [w] it makes the
    reply, when the allocator refuses nothing, and keeps the request. *)
Definition page_answers (srv : http_server) (p : dynamic_page) (v : http_version)
    (w : RequestProps.contents) (r : reply) : Prop :=
  forall req resp w0,
    RequestProps.holds (read_as mktime) req w -> version req = v ->
    unused w0 -> ResponseProps.holds sent_as resp (modified w0) -> blank_page resp -> rs_version resp = v ->
    fs_can_run srv req p = Ret true /\
    wp (dynamic_run p req resp) [] (fun '(n, req', resp') o' =>
      o' = [] /\ status_of n = rp_code r /\ RequestProps.holds (read_as mktime) req' w /\ version req' = v /\
      rs_version resp' = v /\ filled resp' (rp_fields r (modified w0)) (rp_body r)).

(** The page of a URI. *)
Definition finds (srv : http_server) (u : list Z) (p : dynamic_page) : Prop :=
  exists l, pages srv = Pages l /\ lookup_loop (npages srv) l u = Ret (Some p).

Lemma filled_status r w body code : filled r w body -> filled (response_set_status r code) w body.
Proof.
  intros (Hr & Hm & He & Hc & Ht & Hp). split; [|by split_and!]. destruct Hr as [Hh Hrs]. split; [exact Hh|].
  by eapply rs_holds_frame, Hrs.
Qed.

Lemma find_page_spec srv req resp u p v w w0 r :
  finds srv u p -> page_answers srv p v w r -> w (R Rq_uri) = Some u ->
  RequestProps.holds (read_as mktime) req w -> version req = v ->
  unused w0 -> ResponseProps.holds sent_as resp w0 -> blank_page resp ->
  wp (find_page now file_size stat behind srv req resp) [] (fun '(st, e, req', resp') o' =>
    st = success /\ o' = [] /\ RequestProps.holds (read_as mktime) req' w /\ version req' = v /\
    rs_version resp' = v /\ rs_status resp' = rp_code r /\ filled resp' (rp_fields r (modified w0)) (rp_body r)).
Proof.
  intros (l & Hpages & Hl) Hp Hu Hreq Hv Hw0 Hresp Hblank. unfold find_page, http_server_lookup.
  apply wp_bind, wp_lift. rewrite (holds_uri _ _ _ _ Hreq Hu). cbn [res_bind]. rewrite Hpages, Hl. cbn [wpr].
  unfold handle_dynamic, request_get_version. rewrite Hv.
  set (resp1 := response_set_last_modified (response_set_version resp v) now).
  assert (Hresp1 : ResponseProps.holds sent_as resp1 (modified w0)).
  { apply (holds_with_entity sent_as (response_set_version resp v)); [done..|exact Hresp|].
    apply eh_set_modified_spec; [exact (proj2 (proj1 Hresp))|done]. }
  destruct (Hp req resp1 w0) as [Hcan Hrun]; try done.
  apply wp_bind, wp_lift. rewrite Hcan. cbn [wpr negb].
  apply wp_bind. eapply wp_mono; [exact Hrun|].
  intros [[n req'] resp'] o' (-> & Hn & Hreq' & Hv' & Hrv & Hf). apply wp_ret.
  split; [done|]. split; [done|]. split; [done|]. split; [done|]. split; [done|]. split; [exact Hn|].
  by apply filled_status.
Qed.

(** ** The connection *)

Lemma connection_text r w :
  ResponseProps.holds sent_as r w ->
  response_get_connection r = Ret (default [] (w (G Gh_connection))).
Proof.
  intros [[[(x & (Hs & _) & _) _] _] _]. destruct (Hs Gh_connection) as (t & Ht & Hv). cbn in Hv.
  unfold response_get_connection, general_header_get_connection. rewrite Hv.
  change (has (rs_general r) (Str Gh_connection))
    with (general_header_flag_is_set (rs_general r) GENERAL_HEADER_CONNECTION_SET).
  destruct (general_header_flag_is_set _ _); [|done]. cbn [negb]. by apply str_text_law.
Qed.

(** A server in the loop: the request and the response are as good as new, all
    that was written is on the wire, and the socket takes what is written. *)
Definition ready (s : serving) (inc out : list Z) : Prop :=
  RequestProps.holds (read_as mktime) (sv_request s) no_contents /\
  (exists w0, unused w0 /\ ResponseProps.holds sent_as (sv_response s) w0) /\ blank_page (sv_response s) /\
  Connection.rep (sv_conn s) inc out /\ reliable (sv_conn s) /\ outbox (cn_sock (sv_conn s)) = out /\
  log_ok (sv_srv s).

(** [poll] reports bytes that have not been read. *)
Definition polled (c : connection) : Prop := exists bs l, inbox (cn_sock c) = Arrives bs :: l.

Lemma data_on_socket_spec c inc out :
  Connection.rep c inc out -> polled c -> data_on_socket c = Ret (true, c).
Proof.
  intros (rb & wb & h & q & w & Hrb & Hv & Hwb & Hvw & Hfd & _) (bs & l & Hin).
  unfold data_on_socket, socket_wait_for_data, socket_poll_for. rewrite (proj2 (Z.leb_le 0 _)) by done.
  assert (Hpoll : poll (cn_sock c) POLLIN = (1, POLLIN, cn_sock c)) by (cbn; unfold poll_in; by rewrite Hin).
  rewrite Hpoll. by destruct c.
Qed.

Lemma complete_connection keep n w :
  complete now keep n w (G Gh_connection) = if keep then Some (bytes "Keep-Alive") else w (G Gh_connection).
Proof.
  unfold complete, dated, kept_alive, measured.
  destruct keep; repeat case_match; rewrite ?insert_field, ?decide_False by done; try rewrite decide_True by done; done.
Qed.

(** ** Sending a page *)

(** What was sent, with the connection header field [t] of the response. *)
Definition sent_page (keep : bool) (v : http_version) (code : Z) (w : ResponseProps.contents) (body : list Z) : list Z :=
  response_text v code (complete now keep (zlen body) w) body.

(** The request and the connection of a page that is about to be sent. *)
Definition pending (s : serving) (v : http_version) (code : Z) (w : ResponseProps.contents) (body inc out : list Z) : Prop :=
  (exists wr u, RequestProps.holds (read_as mktime) (sv_request s) wr /\ wr (R Rq_uri) = Some u) /\
  version (sv_request s) = v /\ rs_version (sv_response s) = v /\ rs_status (sv_response s) = code /\
  has_entity code /\ named w /\ filled (sv_response s) w body /\
  Connection.rep (sv_conn s) inc out /\ reliable (sv_conn s) /\ log_ok (sv_srv s).

Lemma entity_status_set code : has_entity code -> code <> 0.
Proof. by intros [-> | ->]. Qed.

Lemma close_spec r w o :
  ResponseProps.holds sent_as r w ->
  wp (response_set_connection r (bytes "close")) o (fun '(st, r') o' =>
    (st = success -> ResponseProps.holds sent_as r' (<[G Gh_connection := Some (bytes "close")]> w) /\
       ResponseProps.same r r') /\
    (o = [] -> o' = [] /\ st = success)).
Proof.
  intros [[Hg He] Hrs]. unfold response_set_connection, on_general. apply wp_bind. eapply wp_mono.
  { apply (gh_set_spec sent_as Gh_connection _ _ _ (bytes "close") o Hg); [split; [decide_closed|done]|done]. }
  intros [st gh] o' [Hst Ho]. apply wp_ret. split; [|done]. intros Hs. specialize (Hst Hs). split; [|done].
  split; [split|].
  - cbn [rs_general rs_with_general]. rewrite insert_field, decide_False by done.
    eapply gh_holds_ext; [|exact Hst]. insert_ext.
  - by apply eh_insert.
  - eapply rs_holds_ext; [|by eapply rs_holds_frame, Hrs]. insert_ext.
Qed.

(** A persistent connection is flushed, and everything is as it was. *)
Lemma send_page_spec l s code w body inc out :
  pending s VERSION_11 code w body inc out -> w (G Gh_connection) = None -> persistent (sv_conn s) = true ->
  wp (send_page now file_reads l s) [] (fun '(e, s') o' =>
    e = Continues /\ o' = [] /\ ready s' inc (out ++ sent_page false VERSION_11 code w body) /\
    unlogged (sv_srv s) (sv_srv s')).
Proof.
  destruct s as [srv conn req resp]. unfold pending, sent_page. cbn [sv_request sv_response sv_conn sv_srv].
  intros ((wr & u & Hreq & Hu) & Hv & Hrv & Hcode & Hent & Hn & (Hr & Hm & He & Hc & (t & Ht) & (p & Hp)) & Hrep & Hrel & Hlog)
    Hconn Hpers.
  unfold send_page. apply wp_bind, wp_lift. rewrite (connection_text _ _ Hr), Hconn. cbn [wpr default].
  unfold request_get_version. rewrite Hv. rewrite bool_decide_false by (intros Hne; by destruct Hne).
  cbn [andb]. apply wp_bind, wp_ret, wp_bind. eapply wp_mono.
  { eapply (response_send_spec file_reads now resp w VERSION_11 code body conn inc out []); try done. by right. }
  intros [[st e] [[pcb resp'] conn']] o' [Hst Ho]. destruct (Ho eq_refl) as [-> ->]. clear Ho.
  destruct (Hst eq_refl) as (-> & Hwr & Hrel' & Hr' & Hs' & Hck' & Hent' & Hpath' & Hrep'). clear Hst.
  rewrite Hpers in Hr', Hrep'. cbn [andb] in Hr', Hrep'. rewrite (bool_decide_false (_ = VERSION_10)) in Hr', Hrep' by done.
  cbn [sent_bytes]. apply wp_bind, wp_lift. cbn [wpr].
  apply wp_bind, wp_lift. eapply wpr_mono; [eapply (add_logentry_spec _ _ _ u); [done| |by eapply holds_uri]|].
  { unfold response_get_status. rewrite Hs'. by apply entity_status_set. }
  intros srv' [Hlog' Hun]. apply wp_bind, wp_lift. rewrite (connection_text _ _ Hr'), complete_connection, Hconn.
  cbn [wpr default]. unfold connection_is_persistent.
  assert (Hp' : persistent conn' = true) by (rewrite <-Hpers; apply Hwr). rewrite Hp'.
  change ((strcmp [] (bytes "close") =? 0) || negb true) with false. cbn iota.
  apply wp_bind, wp_lift. eapply wpr_mono; [by apply connection_flush_spec|].
  intros [st conn2] (Hfl & Hrel2 & Hrep2). destruct (Hrel2 Hrel') as [-> Hrel3].
  destruct (Hrep2 eq_refl) as (Hrep3 & Hout & _).
  apply wp_bind, wp_lift. eapply wpr_mono; [exact (request_recycle_spec _ (read_as mktime) _ _ Hreq)|]. intros req' Hreq'.
  apply wp_bind. eapply wp_mono.
  { apply (response_recycle_spec sent_as sent_as resp' _ t p [] Hr'); [by rewrite Hent'|by rewrite Hpath']. }
  intros resp2 o2 (Hres & Hblank & Ho2). specialize (Ho2 eq_refl). subst o2. apply wp_ret.
  split; [done|]. split; [done|]. split; [|exact Hun].
  split; [exact Hreq'|]. split; [|split; [exact Hblank|]; split; [exact Hrep3|]; by split_and!].
  exists html. split; [by left|]. by destruct Hres as [?|[_ ?]].
Qed.

(** Another one is not, and what was written may still be in the buffer. *)
Lemma send_last_page_spec l s code w body inc out :
  pending s VERSION_10 code w body inc out -> w (G Gh_connection) = None -> persistent (sv_conn s) = false ->
  let w' := <[G Gh_connection := Some (bytes "close")]> w in
  wp (send_page now file_reads l s) [] (fun '(e, s') o' =>
    e = Returns success /\ o' = [] /\ Connection.writes (sv_conn s) (sv_conn s') /\
    Connection.rep (sv_conn s') inc (out ++ sent_page false VERSION_10 code w' body) /\
    unlogged (sv_srv s) (sv_srv s')).
Proof.
  destruct s as [srv conn req resp]. unfold pending, sent_page. cbn [sv_request sv_response sv_conn sv_srv].
  intros ((wr & u & Hreq & Hu) & Hv & Hrv & Hcode & Hent & Hn & (Hr & Hm & He & Hc & (t & Ht) & (p & Hp)) & Hrep & Hrel & Hlog)
    Hconn Hpers. set (w' := <[G Gh_connection := Some (bytes "close")]> w).
  unfold send_page. apply wp_bind, wp_lift. rewrite (connection_text _ _ Hr), Hconn. cbn [wpr default].
  unfold request_get_version, connection_is_persistent. rewrite Hv, Hpers, bool_decide_true by done.
  change (true && negb false && (zlen ([] : list Z) =? 0)) with true. cbn iota.
  apply wp_bind. eapply wp_mono; [by apply close_spec|]. intros [st resp1] o1 [Hst Ho].
  destruct (Ho eq_refl) as [-> ->]. destruct (Hst eq_refl) as [Hr1 Hs1]. clear Hst Ho. fold w' in Hr1.
  pose proof Hs1 as (Ev & Es & Ec & _).
  apply wp_bind. eapply wp_mono.
  { eapply (response_send_spec file_reads now resp1 w' VERSION_10 code body conn inc out []); try done; try congruence.
    - by apply named_insert.
    - by left.
    - unfold measures, w' in *. destruct Hs1 as (_ & _ & _ & _ & -> & _).
      by rewrite insert_field, decide_False by done.
    - by eapply entity_same, He.
    - rewrite Ec. exact Hc. }
  intros [[st e] [[pcb resp'] conn']] o' [Hst Ho]. destruct (Ho eq_refl) as [-> ->]. clear Ho.
  destruct (Hst eq_refl) as (-> & Hwr & Hrel' & Hr' & Hs' & Hck' & Hent' & Hpath' & Hrep'). clear Hst.
  rewrite Hpers in Hr', Hrep'. cbn [andb] in Hr', Hrep'.
  cbn [sent_bytes]. apply wp_bind, wp_lift. cbn [wpr].
  apply wp_bind, wp_lift. eapply wpr_mono; [eapply (add_logentry_spec _ _ _ u); [done| |by eapply holds_uri]|].
  { unfold response_get_status. rewrite Hs'. by apply entity_status_set. }
  intros srv' [Hlog' Hun]. apply wp_bind, wp_lift. rewrite (connection_text _ _ Hr'), complete_connection.
  unfold w'. rewrite insert_field, decide_True by done. cbn [wpr default].
  apply wp_ret. by split_and!.
Qed.

(** The same buffer, empty before, has nothing of what was written. *)
Lemma unbuffered c c' inc inc' out :
  Connection.rep c inc out -> Connection.rep c' inc' out -> writebuf c' = writebuf c ->
  outbox (cn_sock c) = out -> outbox (cn_sock c') = out.
Proof.
  intros (rb & wb & h & q & x & _ & _ & Hwb & Hv & _ & _ & Ho) (rb' & wb' & h' & q' & x' & _ & _ & Hwb' & Hv' & _ & _ & Ho')
    Heq Hout.
  assert (x = []) as -> by (apply (app_inv_head out); rewrite Hout in Ho; by rewrite app_nil_r).
  rewrite Heq, Hwb in Hwb'. injection Hwb' as <-.
  destruct (room_canwrite _ _ _ Hwb Hv) as [_ H1].
  assert (H2 : nwritten wb = zlen x') by (apply (room_canwrite c'); congruence).
  assert (x' = []) as -> by (apply zlen_0; by rewrite <-H2, H1). by rewrite app_nil_r in Ho'.
Qed.

(** ** A request and its page *)

(** The request at the start of what will be read, and the page it is for. *)
Record asked (s : serving) (m : http_method) (u : list Z) (v : http_version) (w : RequestProps.contents)
    (p : dynamic_page) (r : reply) : Prop := {
  asked_method : m <> METHOD_UNKNOWN;
  asked_version : v = VERSION_10 \/ v = VERSION_11;
  asked_uri : uri_ok u;
  asked_sendable : RequestProps.sendable zone w;
  asked_has_uri : w (R Rq_uri) = Some u;
  asked_post : m = METHOD_POST -> defered_read (sv_request s) = true;
  asked_page : finds (sv_srv s) u p;
  asked_answer : page_answers (sv_srv s) p v w r;
  asked_reply : reply_ok r;
}.

Lemma service_round_spec fuel l s m u v w p r rest out (Q : round_end * serving -> oracle -> Prop) :
  ready s (request_text m u v w ++ rest) out -> polled (sv_conn s) -> asked s m u v w p r ->
  (length (HeaderProps.fields : list RequestProps.field) < fuel)%nat ->
  (forall s' w0, unused w0 -> sv_srv s' = sv_srv s -> listened v (sv_conn s) (sv_conn s') ->
     pending s' v (rp_code r) (rp_fields r (modified w0)) (rp_body r) rest out ->
     wp (send_page now file_reads l s') [] Q) ->
  wp (service_round mktime stale_errno now file_size file_reads stat behind fuel l s) [] Q.
Proof.
  destruct s as [srv conn req resp]. unfold ready. cbn [sv_request sv_response sv_conn sv_srv].
  intros (Hreq & (w0 & Hw0 & Hresp) & Hblank & Hrep & Hrel & Hout & Hlog) Hpoll [Hm Hv Huok Hsend Hu Hpost Hfind Hans Hok]
    Hfuel HQ.
  unfold service_round. apply wp_bind, wp_lift. rewrite (data_on_socket_spec _ _ _ Hrep Hpoll). cbn [wpr negb].
  apply wp_bind. eapply wp_mono; [by eapply request_receive_spec|].
  intros [[e|] [req1 conn1]] o1 [Hst Ho1]; [by destruct Hst|]. specialize (Ho1 eq_refl). subst o1.
  destruct Hst as (Hm1 & Hv1 & Hreq1 & Hrep1 & Hl).
  apply wp_bind. eapply wp_mono; [by eapply (find_page_spec srv req1 resp u p v w w0 r)|].
  intros [[[st e] req2] resp2] o2 (-> & -> & Hreq2 & Hv2 & Hrv2 & Hs2 & Hf2).
  destruct Hok as [Hent Hnamed]. destruct (Hnamed _ Hw0) as [Hn Hc].
  apply (HQ (Serving srv conn1 req2 resp2) w0); [done|done|exact Hl|].
  split; [by exists w, u|]. do 6 (split; [done|]). split; [done|]. split; [|done].
  cbn. unfold reliable. by rewrite (proj2 (proj2 Hl)).
Qed.

Lemma service_answers_spec fuel l s m u w p r rest out :
  ready s (request_text m u VERSION_11 w ++ rest) out -> polled (sv_conn s) ->
  asked s m u VERSION_11 w p r -> (length (HeaderProps.fields : list RequestProps.field) < fuel)%nat ->
  wp (service_round mktime stale_errno now file_size file_reads stat behind fuel l s) [] (fun '(e, s') o' =>
    e = Continues /\ o' = [] /\ unlogged (sv_srv s) (sv_srv s') /\
    exists w0, unused w0 /\
      ready s' rest (out ++ sent_page false VERSION_11 (rp_code r) (rp_fields r (modified w0)) (rp_body r))).
Proof.
  intros Hready Hpoll Hasked Hfuel. eapply service_round_spec; [done..|].
  intros s' w0 Hw0 Hsrv (Hp & _) Hpend. rewrite <-Hsrv. destruct (asked_reply _ _ _ _ _ _ _ Hasked) as [_ Hn].
  eapply wp_mono; [apply send_page_spec; [exact Hpend|by apply Hn|by rewrite Hp]|].
  intros [e s2] o2 (-> & -> & Hready2 & Hun). split; [done|]. split; [done|]. split; [exact Hun|]. by exists w0.
Qed.

(** C3. A server in its loop answers a request that a page is registered for: from
    a stream that starts with the text of a request it reads just that, and the
    status line, the fields the page has set with the length and the date, and
    the entity are on the wire when it comes back to the head of the loop, with a
    request and a response that keep nothing of this exchange, ready for the next
    one. *)
Theorem service_answers fuel l s m u w p r rest out :
  ready s (request_text m u VERSION_11 w ++ rest) out -> polled (sv_conn s) ->
  asked s m u VERSION_11 w p r -> (length (HeaderProps.fields : list RequestProps.field) < fuel)%nat ->
  wp (service_round mktime stale_errno now file_size file_reads stat behind fuel l s) [] (fun '(e, s') o' =>
    e = Continues /\ o' = [] /\ unlogged (sv_srv s) (sv_srv s') /\
    exists w0, unused w0 /\
      ready s' rest (out ++ sent_page false VERSION_11 (rp_code r) (rp_fields r (modified w0)) (rp_body r))).
Proof. apply service_answers_spec. Qed.

(** A client that speaks HTTP/1.0 gets no answer when the answer is small: on
    a connection that is not persistent the round ends without [connection_flush],
    with the connection's bytes in the write buffer if they fit there, and the
    buffer is emptied when the connection is recycled. *)
Theorem unflushed_lost fuel l s m u w p r rest out :
  ready s (request_text m u VERSION_10 w ++ rest) out -> polled (sv_conn s) ->
  asked s m u VERSION_10 w p r -> (length (HeaderProps.fields : list RequestProps.field) < fuel)%nat -> persistent (sv_conn s) = false ->
  wp (service_round mktime stale_errno now file_size file_reads stat behind fuel l s) [] (fun '(e, s') o' =>
    e = Returns success /\ o' = [] /\
    exists w0, unused w0 /\
      let w1 := <[G Gh_connection := Some (bytes "close")]> (rp_fields r (modified w0)) in
      let answer := sent_page false VERSION_10 (rp_code r) w1 (rp_body r) in
      Connection.rep (sv_conn s') rest (out ++ answer) /\
      (zlen answer <= room (sv_conn s) -> forall rc t,
         outbox (cn_sock (connection_recycle rc t (snd (connection_reclaim_write_buffer (sv_conn s'))))) = out)).
Proof.
  intros Hready Hpoll Hasked Hfuel Hpers. eapply service_round_spec; [done..|].
  intros s' w0 Hw0 Hsrv (Hp & Hwb & Han) Hpend. destruct (asked_reply _ _ _ _ _ _ _ Hasked) as [_ Hn].
  pose proof Hpend as (_ & _ & _ & _ & _ & _ & _ & Hrep1 & Hrel1 & _).
  eapply wp_mono; [apply send_last_page_spec; [exact Hpend|by apply Hn|by rewrite Hp, Hpers]|].
  intros [e s2] o2 (-> & -> & [_ Hwr] & Hrep & _). split; [done|]. split; [done|]. exists w0. split; [done|].
  cbn zeta. split; [exact Hrep|]. intros Hroom rc t. destruct (Hwr Hrel1) as (_ & Htot & Hlazy).
  pose proof Hready as (_ & _ & _ & Hrep0 & _ & Hout & _).
  rewrite (total_rep _ _ _ Hrep), (total_rep _ _ _ Hrep1), zlen_app in Hlazy.
  assert (Hroom' : room (sv_conn s') = room (sv_conn s)) by (unfold room; by rewrite Hwb).
  destruct Hlazy as [Hbox _]; [lia|].
  assert (Hbox1 : outbox (cn_sock (sv_conn s')) = out) by (by eapply unbuffered).
  trans (outbox (cn_sock (sv_conn s2))); [|congruence].
  unfold connection_recycle, connection_reclaim_write_buffer, socket_close. cbn.
  by destruct (fd (cn_sock (sv_conn s2)) =? -1).
Qed.

End Round.

(** * A site *)

Definition site : http_server :=
  Server sample_config server_defaults 0 No_pages None false None None None Null [] [] (bytes "./") None.
Definition site_stat (path : list Z) : file_kind :=
  if decide (path = bytes ".///index.html") then Regular else Missing.
Definition site_size (path : list Z) : option Z := Some 12.

Lemma disk_file_confined_witness :
  wp (send_disk_file site_size site_stat [None] site sample_request (sample_response [])) []
    (fun res _ => confined site_size site_stat site (bytes "/index.html") ResponseProps.sample_contents true [] res).
Proof.
  apply (disk_file_confined site_size site_stat [None]) with (p := []).
  - done.
  - apply (holds_uri sent_as _ RequestProps.sample_contents); [apply sample_holds|done].
  - decide_closed.
  - done.
  - decide_closed.
  - done.
  - done.
  - by eexists.
  - apply sample_response_holds.
  - apply (sample_member_rep (R Rs_path)).
  - done.
Defined.

(** A page that answers with the text [sample_body]. *)
Definition hello : handler := fun req resp =>
  ret (0, req, response_set_content_buffer resp (Some <$> sample_body) (zlen sample_body)).
Definition hello_page : dynamic_page := Page (string_with (bytes "/index.html")) hello None.
Definition hello_site : http_server :=
  Server sample_config server_defaults 1 (Pages [Some hello_page]) None false None None None Null [] [] (bytes "./") None.
Definition hello_reply : reply :=
  Reply 200 (fun w => <[Length := Some (decimal (zlen sample_body))]> w) sample_body.

(** The response object after [response_recycle]. *)
Definition html_response : http_response :=
  Response VERSION_11 200 (GH 0 0 0 0 0 0 (fun _ => Cstring.fresh))
    (EH ENTITY_HEADER_CONTENT_TYPE_SET 0 0 0
       (fun f => if decide (f = Eh_content_type) then string_with (bytes "text/html") else Cstring.fresh))
    0 (fun _ => Cstring.fresh) 0 0 (-1) None None false false false.

Lemma html_holds : ResponseProps.holds sent_as html_response html.
Proof.
  split; [split|].
  - split; [|done]. exists None. split; [|done]. split; [|by split; [intros []|split; [intros []|]]].
    intros f. exists []. by split; [exact rep_fresh|destruct f].
  - split; [|done]. intros f. destruct (decide (f = Eh_content_type)) as [->|Hf].
    + exists (bytes "text/html"). split; [by apply string_with_rep|done].
    + exists []. unfold html_response. cbn. rewrite decide_False by done.
      split; [exact rep_fresh|]. by destruct f.
  - split; [|done]. intros f. destruct (rs_flag f) as [x|] eqn:Hx; [|by destruct f].
    exists []. split; [exact rep_fresh|]. by destruct f; (discriminate Hx || injection Hx as <-).
Qed.

Lemma hello_answers v w : page_answers 0 nov_11 hello_site hello_page v w hello_reply.
Proof.
  intros req resp w0 Hreq Hv Hw0 Hresp (Hb & Hf & He & Hp & Hc) Hrv. split; [done|].
  unfold dynamic_run, hello_page, hello. cbn [handlerfn]. apply wp_ret.
  split; [done|]. split; [done|]. split; [done|]. split; [done|]. split; [done|].
  split; [|split; [left; cbn [rp_fields hello_reply]; by rewrite insert_field, decide_True|]].
  - apply (holds_with_entity sent_as (response_set_flag (rs_with_buffer (Some (Some <$> sample_body)) true
      (content_free_when_done resp) resp) CONTENT_LENGTH)); [done..| |].
    + destruct Hresp as [Hh [Hrs Ho]]. split; [exact Hh|]. split.
      * intros f. specialize (Hrs f). unfold response_flag_isset in *. cbn.
        destruct (rs_flag f) as [x|] eqn:Hx; [|exact Hrs]. rewrite Z.land_lor_distr_l.
        assert (Hoff : Z.land CONTENT_LENGTH x = 0) by (by destruct f; (discriminate Hx || injection Hx as <-)).
        by rewrite Hoff, Z.lor_0_r.
      * cbn. rewrite Z.land_lor_distr_l, Ho. done.
    + apply eh_set_length_spec. exact (proj2 (proj1 Hresp)).
  - split; [right; split; [done|split; [done|exists []; by rewrite app_nil_r]]|].
    split; [exact Hc|]. split; [by exists []|exact Hp].
Qed.

Definition sample_serving (v : http_version) (n : nat) : serving :=
  Serving hello_site
    (fresh_conn n 1 [Arrives (request_text METHOD_GET (bytes "/index.html") v RequestProps.sample_contents)] [])
    blank_request html_response.

Lemma sample_ready v n :
  (0 < n)%nat -> Z.of_nat n <= PTRDIFF_MAX ->
  ready 0 (sample_serving v n)
    (request_text METHOD_GET (bytes "/index.html") v RequestProps.sample_contents ++ []) [].
Proof.
  intros H1 H2. split; [apply blank_holds|]. split; [exists html; split; [by left|apply html_holds]|].
  split; [by repeat split; [exact rep_fresh|by exists []; exact rep_fresh|left]|].
  split; [by apply (fresh_rep n 1)|]. split; [done|]. split; [done|]. by left.
Qed.

Lemma hello_reply_ok w0 :
  unused w0 ->
  named (rp_fields hello_reply (modified nov_11 w0)) /\
  rp_fields hello_reply (modified nov_11 w0) (G Gh_connection) = None.
Proof.
  intros Hw0. cbn [hello_reply rp_fields]. split.
  - repeat apply named_insert; try done. destruct Hw0 as [-> | ->]; repeat apply named_insert; done.
  - unfold modified. rewrite !insert_field, !decide_False by done. destruct Hw0 as [-> | ->]; done.
Qed.

Lemma sample_asked v :
  v = VERSION_10 \/ v = VERSION_11 ->
  asked 0 nov_11 (sample_serving v 4096) METHOD_GET (bytes "/index.html") v RequestProps.sample_contents hello_page hello_reply.
Proof.
  intros Hv. split.
  - done.
  - done.
  - split; [unfold on_line; decide_closed|]. split; [done|]. unfold zlen. simpl. lia.
  - apply sample_sendable.
  - done.
  - done.
  - eexists. split; [done|]. reflexivity.
  - apply hello_answers.
  - split; [by left|apply hello_reply_ok].
Qed.

Lemma service_answers_witness :
  let s := sample_serving VERSION_11 4096 in
  let l := Calls true true true true true true [] None true in
  wp (service_round (HttpDate.mktime 0) EIO nov_11 site_size (fun _ => None) site_stat [None] 50 l s) [] (fun '(e, s') o' =>
    e = Continues /\ o' = [] /\ unlogged (sv_srv s) (sv_srv s') /\
    exists w0, unused w0 /\
      ready 0 s' [] ([] ++ sent_page nov_11 false VERSION_11 200 (rp_fields hello_reply (modified nov_11 w0)) sample_body)).
Proof.
  intros s l.
  apply (service_answers 0 EIO nov_11 site_size (fun _ => None) site_stat [None]) with
    (m := METHOD_GET) (u := bytes "/index.html") (w := RequestProps.sample_contents) (p := hello_page) (r := hello_reply).
  - discriminate.
  - apply (sample_ready VERSION_11 4096); [lia|done].
  - by eexists _, _.
  - apply sample_asked. by right.
  - apply Nat.ltb_lt. vm_compute. reflexivity.
Defined.

Lemma unflushed_lost_witness :
  let s := sample_serving VERSION_10 4096 in
  let l := Calls true true true true true true [] None true in
  wp (service_round (HttpDate.mktime 0) EIO nov_11 site_size (fun _ => None) site_stat [None] 50 l s) [] (fun '(e, s') o' =>
    e = Returns success /\ o' = [] /\
    exists w0, unused w0 /\
      let w1 := <[G Gh_connection := Some (bytes "close")]> (rp_fields hello_reply (modified nov_11 w0)) in
      let answer := sent_page nov_11 false VERSION_10 200 w1 sample_body in
      Connection.rep (sv_conn s') [] ([] ++ answer) /\
      (zlen answer <= 4096 -> forall rc t,
         outbox (cn_sock (connection_recycle rc t (snd (connection_reclaim_write_buffer (sv_conn s'))))) = [])).
Proof.
  intros s l.
  apply (unflushed_lost 0 EIO nov_11 site_size (fun _ => None) site_stat [None]) with
    (m := METHOD_GET) (u := bytes "/index.html") (w := RequestProps.sample_contents) (p := hello_page) (r := hello_reply).
  - discriminate.
  - apply (sample_ready VERSION_10 4096); [lia|done].
  - by eexists _, _.
  - apply sample_asked. by left.
  - apply Nat.ltb_lt. vm_compute. reflexivity.
  - done.
Defined.
