(* ===== verification/Cbuf.v ===== *)
(** Cbuf: values on a connection, apps/beep/cbuf.c.

    A value is sent as a byte that tells its type and its bytes in network order;
    a string or a blob is preceded by its length.  [encode] is this format.
    [cbuf_roundtrip] shows that what one side writes the other side reads, when it
    has arrived in the read buffer; [cbuf_empty_aborts] that an empty string fails
    an assertion in the reader. *)

From Stdlib Require Import ZArith Lia.
From stdpp Require Import base list numbers.
From S2P Require Import Prelude Membuf Gensocket Connection.

(** [int16_t] and the like: [x] as a signed number of [w] bits. *)
Definition signed (w x : Z) : Z := (x + 2 ^ (w - 1)) mod 2 ^ w - 2 ^ (w - 1).
Definition unsigned (w x : Z) : Z := x mod 2 ^ w.

(** [if (!f(conn, ...)) return failure;] of a function that writes. *)
Definition wrote (m : res (status * connection)) (k : connection -> res (status * connection))
    : res (status * connection) :=
  let+ (st, c) := m in match st with failure => Ret (failure, c) | success => k c end.
Notation "'let!' c ':=' m 'in' k" := (wrote m (fun c => k)) (at level 10, c name, m at level 100, k at level 200) : c_scope.

(** * Writing *)

Definition writebuf_int8 (c : connection) (val : Z) :=
  let! c := connection_putc c (ch "c") in connection_putc c val.
Definition writebuf_uint8 (c : connection) (val : Z) :=
  let! c := connection_putc c (ch "C") in connection_putc c val.
Definition writebuf_int16 (c : connection) (val : Z) :=
  let! c := connection_putc c (ch "h") in connection_write_u16 c (unsigned 16 val).
Definition writebuf_uint16 (c : connection) (val : Z) :=
  let! c := connection_putc c (ch "H") in connection_write_u16 c val.
Definition writebuf_int32 (c : connection) (val : Z) :=
  let! c := connection_putc c (ch "i") in connection_write_u32 c (unsigned 32 val).
Definition writebuf_uint32 (c : connection) (val : Z) :=
  let! c := connection_putc c (ch "I") in connection_write_u32 c (unsigned 32 val).
Definition writebuf_int64 (c : connection) (val : Z) :=
  let! c := connection_putc c (ch "l") in connection_write_u64 c (unsigned 64 val).
Definition writebuf_uint64 (c : connection) (val : Z) :=
  let! c := connection_putc c (ch "L") in connection_write_u64 c (unsigned 64 val).

Record beep_header : Set := Header { hd_version : Z; hd_request : Z }.
Record beep_reply : Set := Reply { rp_version : Z; rp_request : Z; rp_status : Z }.

Definition writebuf_header (c : connection) (h : beep_header) :=
  let! c := connection_write_u16 c (hd_version h) in
  let! c := connection_write_u16 c (hd_request h) in
  Ret (success, c).
Definition writebuf_reply (c : connection) (r : beep_reply) :=
  let! c := connection_write_u16 c (rp_version r) in
  let! c := connection_write_u16 c (rp_request r) in
  let! c := connection_write_u16 c (rp_status r) in
  connection_flush c.

(** A [float] and a [double] are their bytes in memory. *)
Definition writebuf_float (c : connection) (val : list Z) :=
  let! c := connection_putc c (ch "f") in connection_write c val.
Definition writebuf_double (c : connection) (val : list Z) :=
  let! c := connection_putc c (ch "d") in connection_write c val.
Definition writebuf_datetime (c : connection) (val : Z) :=
  let! c := connection_putc c (ch "D") in connection_write_u64 c (unsigned 64 val).
Definition writebuf_bool (c : connection) (val : bool) :=
  let! c := connection_putc c (ch "b") in connection_putc c (if val then ch "t" else ch "f").
Definition writebuf_null (c : connection) := connection_putc c (ch "Z").

Definition writebuf_string (c : connection) (src : list Z) :=
  let! c := connection_putc c (ch "Q") in
  let! c := connection_write_u32 c (unsigned 32 (zlen src)) in
  connection_write c src.
Definition writebuf_blob (c : connection) (buf : list Z) :=
  let! c := connection_putc c (ch "X") in
  let! c := connection_write_u32 c (unsigned 32 (zlen buf)) in
  connection_write c buf.

Definition writebuf_array_start (c : connection) := connection_putc c (ch "[").
Definition writebuf_array_end (c : connection) := connection_putc c (ch "]").
Definition writebuf_object_start (c : connection) := connection_putc c (ch "{").
Definition writebuf_object_end (c : connection) := connection_putc c (ch "}").

(** * Reading *)

(** The value stored is [None] when the function fails. *)
Definition reader (A : Type) : Type := res (option A * connection).
Definition readn {A B} (m : reader A) (k : A -> connection -> reader B) : reader B :=
  let+ (r, c) := m in match r with None => Ret (None, c) | Some x => k x c end.
Notation "'let?' p c ':=' m 'in' k" := (readn m (fun p c => k))
  (at level 10, p pattern, c name, m at level 100, k at level 200) : c_scope.

Definition stored {A} (f : Z -> A) (m : res (status * Z * connection)) : reader A :=
  let+ (st, x, c) := m in Ret (match st with failure => None | success => Some (f x) end, c).

Definition expect (c : connection) (val : Z) : res (bool * connection) :=
  let+ (st, x, c) := connection_getc c in
  match st with
  | failure => Ret (false, c)
  | success =>
      if schar x =? val then Ret (true, c)
      else let+ (_, c) := connection_ungetc c in Ret (false, c)
  end.
(** [if (!expect(conn, val)) return failure;] *)
Definition expected {A} (c : connection) (val : Z) (k : connection -> reader A) : reader A :=
  let+ (ok, c) := expect c val in if ok : bool then k c else Ret (None, c).

Definition readbuf_header (c : connection) : reader beep_header :=
  let? v c := stored id (connection_read_u16 c) in
  let? r c := stored id (connection_read_u16 c) in
  Ret (Some (Header v r), c).
Definition readbuf_reply (c : connection) : reader beep_reply :=
  let? v c := stored id (connection_read_u16 c) in
  let? r c := stored id (connection_read_u16 c) in
  let? s c := stored id (connection_read_u16 c) in
  Ret (Some (Reply v r s), c).

Definition readbuf_int8 (c : connection) : reader Z :=
  expected c (ch "c") (fun c => stored schar (connection_getc c)).
Definition readbuf_uint8 (c : connection) : reader Z :=
  expected c (ch "C") (fun c => stored id (connection_getc c)).
Definition readbuf_int16 (c : connection) : reader Z :=
  expected c (ch "h") (fun c => stored (signed 16) (connection_read_u16 c)).
Definition readbuf_uint16 (c : connection) : reader Z :=
  expected c (ch "H") (fun c => stored id (connection_read_u16 c)).
Definition readbuf_int32 (c : connection) : reader Z :=
  expected c (ch "i") (fun c => stored (signed 32) (connection_read_u32 c)).
Definition readbuf_uint32 (c : connection) : reader Z :=
  expected c (ch "I") (fun c => stored id (connection_read_u32 c)).
Definition readbuf_int64 (c : connection) : reader Z :=
  expected c (ch "l") (fun c => stored (signed 64) (connection_read_u64 c)).
Definition readbuf_uint64 (c : connection) : reader Z :=
  expected c (ch "L") (fun c => stored id (connection_read_u64 c)).

Definition read_cells (c : connection) (n : Z) : reader (list Z) :=
  let+ (nread, bs, c) := connection_read c n in
  Ret (if (nread <=? 0) || negb (nread =? n) then None else Some bs, c).
Definition readbuf_float (c : connection) : reader (list Z) := expected c (ch "f") (fun c => read_cells c 4).
Definition readbuf_double (c : connection) : reader (list Z) := expected c (ch "d") (fun c => read_cells c 8).
Definition readbuf_datetime (c : connection) : reader Z :=
  expected c (ch "D") (fun c => stored (signed 64) (connection_read_u64 c)).

Definition readbuf_bool (c : connection) : reader bool :=
  expected c (ch "b") (fun c =>
  let? x c := stored schar (connection_getc c) in
  Ret (if x =? ch "t" then Some true else if x =? ch "f" then Some false else None, c)).

Definition tag_only (c : connection) (val : Z) : reader unit := expected c val (fun c => Ret (Some tt, c)).
Definition readbuf_null (c : connection) : reader unit := tag_only c (ch "Z").
Definition readbuf_array_start (c : connection) : reader unit := tag_only c (ch "[").
Definition readbuf_array_end (c : connection) : reader unit := tag_only c (ch "]").
Definition readbuf_object_start (c : connection) : reader unit := tag_only c (ch "{").
Definition readbuf_object_end (c : connection) : reader unit := tag_only c (ch "}").

(** [destsize]: the size of the array; the string that is stored ends with a 0. *)
Definition readbuf_string (c : connection) (destsize : Z) : reader (list Z) :=
  expected c (ch "Q") (fun c =>
  let? len c := stored id (connection_read_u32 c) in
  if destsize <=? len then Ret (None, c)
  else
    let+ (nread, bs, c) := connection_read c len in
    if (nread <? 0) || negb (nread =? len) then Ret (None, c) else Ret (Some bs, c)).
Definition readbuf_blob (c : connection) (destsize : Z) : reader (list Z) :=
  expected c (ch "X") (fun c =>
  let? len c := stored id (connection_read_u32 c) in
  if destsize <? len then Ret (None, c)
  else
    let+ (nread, bs, c) := connection_read c len in
    if negb (nread =? len) then Ret (None, c) else Ret (Some bs, c)).

(** * Values *)

Inductive value : Set :=
| V_int8 (v : Z) | V_uint8 (v : Z) | V_int16 (v : Z) | V_uint16 (v : Z)
| V_int32 (v : Z) | V_uint32 (v : Z) | V_int64 (v : Z) | V_uint64 (v : Z)
| V_float (v : list Z) | V_double (v : list Z) | V_datetime (v : Z) | V_bool (v : bool) | V_null
| V_string (v : list Z) | V_blob (v : list Z)
| V_array_start | V_array_end | V_object_start | V_object_end
| V_header (h : beep_header) | V_reply (r : beep_reply).

(** What a reader asks for; the sizes are those of its arrays. *)
Inductive wanted : Set :=
| W_int8 | W_uint8 | W_int16 | W_uint16 | W_int32 | W_uint32 | W_int64 | W_uint64
| W_float | W_double | W_datetime | W_bool | W_null | W_string (destsize : Z) | W_blob (destsize : Z)
| W_array_start | W_array_end | W_object_start | W_object_end | W_header | W_reply.

Definition write_value (c : connection) (v : value) : res (status * connection) :=
  match v with
  | V_int8 x => writebuf_int8 c x | V_uint8 x => writebuf_uint8 c x
  | V_int16 x => writebuf_int16 c x | V_uint16 x => writebuf_uint16 c x
  | V_int32 x => writebuf_int32 c x | V_uint32 x => writebuf_uint32 c x
  | V_int64 x => writebuf_int64 c x | V_uint64 x => writebuf_uint64 c x
  | V_float x => writebuf_float c x | V_double x => writebuf_double c x
  | V_datetime x => writebuf_datetime c x | V_bool x => writebuf_bool c x | V_null => writebuf_null c
  | V_string x => writebuf_string c x | V_blob x => writebuf_blob c x
  | V_array_start => writebuf_array_start c | V_array_end => writebuf_array_end c
  | V_object_start => writebuf_object_start c | V_object_end => writebuf_object_end c
  | V_header h => writebuf_header c h | V_reply r => writebuf_reply c r
  end.

Definition as_value {A} (f : A -> value) (m : reader A) : reader value :=
  let+ (r, c) := m in Ret (f <$> r, c).
Definition read_value (c : connection) (w : wanted) : reader value :=
  match w with
  | W_int8 => as_value V_int8 (readbuf_int8 c) | W_uint8 => as_value V_uint8 (readbuf_uint8 c)
  | W_int16 => as_value V_int16 (readbuf_int16 c) | W_uint16 => as_value V_uint16 (readbuf_uint16 c)
  | W_int32 => as_value V_int32 (readbuf_int32 c) | W_uint32 => as_value V_uint32 (readbuf_uint32 c)
  | W_int64 => as_value V_int64 (readbuf_int64 c) | W_uint64 => as_value V_uint64 (readbuf_uint64 c)
  | W_float => as_value V_float (readbuf_float c) | W_double => as_value V_double (readbuf_double c)
  | W_datetime => as_value V_datetime (readbuf_datetime c) | W_bool => as_value V_bool (readbuf_bool c)
  | W_null => as_value (fun _ => V_null) (readbuf_null c)
  | W_string n => as_value V_string (readbuf_string c n) | W_blob n => as_value V_blob (readbuf_blob c n)
  | W_array_start => as_value (fun _ => V_array_start) (readbuf_array_start c)
  | W_array_end => as_value (fun _ => V_array_end) (readbuf_array_end c)
  | W_object_start => as_value (fun _ => V_object_start) (readbuf_object_start c)
  | W_object_end => as_value (fun _ => V_object_end) (readbuf_object_end c)
  | W_header => as_value V_header (readbuf_header c) | W_reply => as_value V_reply (readbuf_reply c)
  end.

(** Several values, one after the other. *)
Fixpoint write_all (c : connection) (vs : list value) : res (status * connection) :=
  match vs with [] => Ret (success, c) | v :: vs => let! c := write_value c v in write_all c vs end.
Fixpoint read_all (c : connection) (ws : list wanted) : reader (list value) :=
  match ws with
  | [] => Ret (Some [], c)
  | w :: ws => let? v c := read_value c w in let? vs c := read_all c ws in Ret (Some (v :: vs), c)
  end.

(** * The format *)

Definition tag (v : value) : option Z :=
  match v with
  | V_int8 _ => Some (ch "c") | V_uint8 _ => Some (ch "C") | V_int16 _ => Some (ch "h") | V_uint16 _ => Some (ch "H")
  | V_int32 _ => Some (ch "i") | V_uint32 _ => Some (ch "I") | V_int64 _ => Some (ch "l") | V_uint64 _ => Some (ch "L")
  | V_float _ => Some (ch "f") | V_double _ => Some (ch "d") | V_datetime _ => Some (ch "D") | V_bool _ => Some (ch "b")
  | V_null => Some (ch "Z") | V_string _ => Some (ch "Q") | V_blob _ => Some (ch "X")
  | V_array_start => Some (ch "[") | V_array_end => Some (ch "]")
  | V_object_start => Some (ch "{") | V_object_end => Some (ch "}")
  | V_header _ | V_reply _ => None
  end.

Definition payload (v : value) : list Z :=
  match v with
  | V_int8 x | V_uint8 x => [u8 x]
  | V_int16 x | V_uint16 x => to_bytes 2 (unsigned 16 x)
  | V_int32 x | V_uint32 x => to_bytes 4 (unsigned 32 x)
  | V_int64 x | V_uint64 x | V_datetime x => to_bytes 8 (unsigned 64 x)
  | V_float bs | V_double bs => bs
  | V_bool b => [if b then ch "t" else ch "f"]
  | V_string bs | V_blob bs => to_bytes 4 (zlen bs) ++ bs
  | V_header h => to_bytes 2 (hd_version h) ++ to_bytes 2 (hd_request h)
  | V_reply r => to_bytes 2 (rp_version r) ++ to_bytes 2 (rp_request r) ++ to_bytes 2 (rp_status r)
  | _ => []
  end.

Definition encode (v : value) : list Z := match tag v with Some t => t :: payload v | None => payload v end.
Definition encode_all (vs : list value) : list Z := concat (encode <$> vs).

Definition int_range (w x : Z) : Prop := - 2 ^ (w - 1) <= x < 2 ^ (w - 1).
Definition uint_range (w x : Z) : Prop := 0 <= x < 2 ^ w.

(** The values of the types; a string that is sent is not empty, which the reader
    does not survive. *)
Definition valid (v : value) : Prop :=
  match v with
  | V_int8 x => int_range 8 x | V_uint8 x => uint_range 8 x
  | V_int16 x => int_range 16 x | V_uint16 x => uint_range 16 x
  | V_int32 x => int_range 32 x | V_uint32 x => uint_range 32 x
  | V_int64 x | V_datetime x => int_range 64 x | V_uint64 x => uint_range 64 x
  | V_float bs => zlen bs = 4 | V_double bs => zlen bs = 8
  | V_string bs | V_blob bs => bs <> [] /\ zlen bs < 2 ^ 32
  | V_header h => uint_range 16 (hd_version h) /\ uint_range 16 (hd_request h)
  | V_reply r => uint_range 16 (rp_version r) /\ uint_range 16 (rp_request r) /\ uint_range 16 (rp_status r)
  | _ => True
  end.

(** The reader asks for a value of this type, and has room for it. *)
Definition asks (w : wanted) (v : value) : Prop :=
  match w, v with
  | W_int8, V_int8 _ | W_uint8, V_uint8 _ | W_int16, V_int16 _ | W_uint16, V_uint16 _
  | W_int32, V_int32 _ | W_uint32, V_uint32 _ | W_int64, V_int64 _ | W_uint64, V_uint64 _
  | W_float, V_float _ | W_double, V_double _ | W_datetime, V_datetime _ | W_bool, V_bool _ | W_null, V_null
  | W_array_start, V_array_start | W_array_end, V_array_end
  | W_object_start, V_object_start | W_object_end, V_object_end
  | W_header, V_header _ | W_reply, V_reply _ => True
  | W_string n, V_string bs => zlen bs < n
  | W_blob n, V_blob bs => zlen bs <= n
  | _, _ => False
  end.

(** ** Writing *)

(** [m] writes [bs] on [c]. *)
Definition sends (c : connection) (inc out bs : list Z) (m : res (status * connection)) : Prop :=
  wpr m (fun '(st, c') =>
    flushes c c' /\ (reliable c -> st = success /\ reliable c') /\ (st = success -> Connection.rep c' inc (out ++ bs))).

Lemma write_sends c inc out bs : Connection.rep c inc out -> sends c inc out bs (connection_write c bs).
Proof.
  intros Hrep. eapply wpr_mono; [by apply connection_write_spec|]. intros [st c'] ([H1 _] & H2 & H3). by split_and!.
Qed.

Lemma flush_sends c inc out : Connection.rep c inc out -> sends c inc out [] (connection_flush c).
Proof.
  intros Hrep. eapply wpr_mono; [by apply connection_flush_spec|]. intros [st c'] (H1 & H2 & H3).
  split; [done|]. split; [done|]. intros Hst. rewrite app_nil_r. by apply H3.
Qed.

Lemma done_sends c inc out : Connection.rep c inc out -> sends c inc out [] (Ret (success, c)).
Proof. intros Hrep. cbn. split; [done|]. split; [done|]. by rewrite app_nil_r. Qed.

Lemma wrote_sends c inc out b1 b2 m k :
  sends c inc out b1 m ->
  (forall c', Connection.rep c' inc (out ++ b1) -> sends c' inc (out ++ b1) b2 (k c')) ->
  sends c inc out (b1 ++ b2) (wrote m k).
Proof.
  intros Hm Hk. unfold sends, wrote. apply wpr_bind. eapply wpr_mono; [exact Hm|].
  intros [st c1] (F1 & R1 & P1). destruct st; cbn.
  - split; [done|]. split; [|done]. intros Hr. by destruct (R1 Hr).
  - eapply wpr_mono; [by apply Hk, P1|]. intros [st c2] (F2 & R2 & P2). split; [by etrans|].
    split; [intros Hr; by apply R2, R1|]. by rewrite app_assoc.
Qed.

Lemma unsigned_id w x : uint_range w x -> unsigned w x = x.
Proof. apply Z.mod_small. Qed.

Lemma sized_sends c inc out t bs :
  zlen bs < 2 ^ 32 -> Connection.rep c inc out ->
  sends c inc out (u8 t :: to_bytes 4 (zlen bs) ++ bs)
    (let! c := connection_putc c t in let! c := connection_write_u32 c (unsigned 32 (zlen bs)) in connection_write c bs).
Proof.
  intros Hlen Hrep. zlen_facts. rewrite unsigned_id by done.
  apply (wrote_sends _ _ _ [_] _); [by apply write_sends|]. intros c1 Hrep1.
  apply wrote_sends; [by apply write_sends|]. intros c2 Hrep2. by apply write_sends.
Qed.

(** A value is written in the format. *)
Lemma write_value_sends c inc out v :
  valid v -> Connection.rep c inc out -> sends c inc out (encode v) (write_value c v).
Proof.
  intros Hv Hrep.
  assert (Hput : forall c out x, Connection.rep c inc out -> sends c inc out [u8 x] (connection_putc c x))
    by (intros; by apply write_sends).
  assert (Huint : forall n c out x, Connection.rep c inc out -> sends c inc out (to_bytes n x) (connection_write_uint n c x))
    by (intros; by apply write_sends).
  destruct v; cbn [valid] in Hv; unfold encode; cbn [write_value tag payload];
    try (by apply (Hput c out)); try (by apply sized_sends; [apply Hv|]);
    try (apply (wrote_sends _ _ _ [_] _); [by apply Hput|intros c1 Hrep1]).
  all: try (by apply write_sends).
  all: try (by apply Huint).
  - rewrite (unsigned_id 16) by done. by apply Huint.
  - destruct v; by apply Hput.
  - apply wrote_sends; [by apply Huint|]. intros c1 Hrep1. rewrite <-(app_nil_r (to_bytes 2 (hd_request h))).
    apply wrote_sends; [by apply Huint|]. intros c2 Hrep2. by apply done_sends.
  - apply wrote_sends; [by apply Huint|]. intros c1 Hrep1. apply wrote_sends; [by apply Huint|].
    intros c2 Hrep2. rewrite <-(app_nil_r (to_bytes 2 (rp_status r))).
    apply wrote_sends; [by apply Huint|]. intros c3 Hrep3. by apply flush_sends.
Qed.

Lemma write_all_sends c inc out vs :
  Forall valid vs -> Connection.rep c inc out -> sends c inc out (encode_all vs) (write_all c vs).
Proof.
  intros Hvs. revert c out. induction Hvs as [|v vs Hv _ IH]; intros c out Hrep; [by apply done_sends|].
  cbn [write_all]. unfold encode_all. cbn [fmap list_fmap concat].
  apply wrote_sends; [by apply write_value_sends|]. intros c1 Hrep1. by apply IH.
Qed.

(** ** What has arrived *)

Section Arrived.
(** What the socket will do with what is sent. *)
Context {ans : list departure}.

(** The read buffer holds [q], the bytes [h] can be put back; [out] was written. *)
Definition held (c : connection) (h q out : list Z) : Prop :=
  exists rb wb w, readbuf c = Some rb /\ view rb h q /\ writebuf c = Some wb /\ view wb [] w /\
    0 <= fd (cn_sock c) /\ out = outbox (cn_sock c) ++ w /\ answers (cn_sock c) = ans.

(** [inc] is in the read buffer, or has arrived in one piece that fits in it. *)
Definition arrived (c : connection) (inc out : list Z) : Prop :=
  (exists h, held c h inc out) \/
  (inc <> [] /\ exists h more, inbox (cn_sock c) = Arrives inc :: more /\ held c h [] out /\
     forall rb, readbuf c = Some rb -> zlen inc <= size rb).

Lemma fill_arrived c h inc out more :
  inc <> [] -> inbox (cn_sock c) = Arrives inc :: more -> held c h [] out ->
  (forall rb, readbuf c = Some rb -> zlen inc <= size rb) ->
  wpr (fill_read_buffer c) (fun '(st, c') => st = success /\ held c' [] inc out).
Proof.
  intros Hne Hin (rb & wb & w & Hrb & Hv & Hwb & Hvw & Hfd & Hout & Hans) Hsz. specialize (Hsz rb Hrb).
  unfold fill_read_buffer. rewrite Hrb. cbn. rewrite (view_canread _ _ _ Hv). cbn.
  assert (Hpos : 0 < zlen inc) by (destruct inc; [done|rewrite zlen_cons; zlen_facts; lia]).
  destruct (view_filled rb h [] inc Hv Hsz) as (d & Hd & Hd1 & _).
  unfold membuf_size. cbn [membuf_reset size]. unfold socket_read.
  assert (Hr : tcp_read (retries_reads c) (cn_sock c) (size rb) = Ret (zlen inc, inc, set_inbox more (cn_sock c))).
  { assert (Hround : forall m, tcp_read_round (cn_sock c) (size rb) m = Ret (zlen inc, inc, set_inbox more (cn_sock c))).
    { intros m. unfold tcp_read_round, socket_poll_for. rewrite (proj2 (Z.leb_le _ _) Hfd). cbn [guard res_bind].
      change (poll (cn_sock c) POLLIN) with (poll_in (cn_sock c)). unfold poll_in. rewrite Hin.
      change (Z.land POLLIN POLLHUP) with 0. change (Z.land POLLIN POLLERR) with 0. change (Z.land POLLIN POLLNVAL) with 0.
      change (Z.land POLLIN POLLIN =? POLLIN) with true. cbn.
      unfold Gensocket.read. rewrite Hin, (proj2 (Z.leb_le (zlen inc) (size rb))) by lia. cbn.
      by rewrite (proj2 (Z.ltb_lt _ _) Hpos). }
    destruct (retries_reads c); cbn [tcp_read]; rewrite (proj2 (Z.leb_le _ _) Hfd); apply Hround. }
  cbn [zlen length Z.of_nat Z.eqb guard res_bind]. rewrite Hr. cbn [res_bind].
  change (membuf_data (membuf_reset rb)) with (data rb) in Hd. rewrite Hd. cbn [res_bind]. rewrite (proj2 (Z.ltb_lt _ _) Hpos).
  cbn. split; [done|]. eexists _, wb, w. cbn. split; [done|]. split; [by apply Hd1|]. by split_and!.
Qed.

(** One byte. *)
Lemma getc_arrived c y q out :
  arrived c (y :: q) out ->
  wpr (connection_getc c) (fun '(st, x, c') =>
    st = success /\ x = y /\ exists h, held c' h q out /\ (q <> [] -> exists h', h = h' ++ [y])).
Proof.
  assert (Hread : forall c1 h, held c1 h (y :: q) out ->
    wpr (res_bind (the (readbuf c1)) (fun mb => res_bind (membuf_read mb 1) (fun '(n, cells, mb) =>
      if negb (n =? 1) then Ret (failure, 0, set_readbuf (Some mb) c1)
      else match cells with
           | Some b :: _ => Ret (success, b, set_readbuf (Some mb) c1)
           | _ => Fault Uninitialised
           end)))
      (fun '(st, x, c') => st = success /\ x = y /\ exists h, held c' h q out /\ (q <> [] -> exists h', h = h' ++ [y]))).
  { intros c1 h (rb & wb & w & Hrb & Hv & Hwb & Hvw & Hfd & Hout & Hans). rewrite Hrb. cbn [the res_bind]. apply wpr_bind.
    eapply wpr_mono; [by apply membuf_read_spec|]. intros [[n cells] mb]. cbn [fst snd]. intros (-> & -> & Hsz & Hview).
    rewrite zlen_cons in *. pose proof (zlen_nonneg q). replace (Z.min 1 (1 + zlen q)) with 1 in * by lia. cbn.
    split; [done|]. split; [done|]. destruct (Z.eqb_spec 1 (1 + zlen q)) as [He|He].
    - assert (q = []) as -> by (apply zlen_0; lia). exists []. split; [|done]. by exists mb, wb, w.
    - exists (h ++ [y]). split; [by exists mb, wb, w|]. intros _. by exists h. }
  intros [[h Hh]|(Hne & h & more & Hin & Hh & Hsz)]; unfold connection_getc, readbuf_empty.
  - pose proof Hh as (rb & wb & w & Hrb & Hv & _). rewrite Hrb. cbn [the res_bind]. rewrite (view_canread _ _ _ Hv).
    cbn [res_bind]. rewrite (proj2 (Z.eqb_neq (zlen (y :: q)) 0)) by (rewrite zlen_cons; pose proof (zlen_nonneg q); lia).
    cbn [res_bind]. by apply (Hread c h).
  - pose proof Hh as (rb & wb & w & Hrb & Hv & _). rewrite Hrb. cbn [the res_bind]. rewrite (view_canread _ _ _ Hv).
    cbn [res_bind zlen length Z.of_nat Z.eqb]. apply wpr_bind. eapply wpr_mono; [by eapply fill_arrived|].
    intros [st c1] [-> H1]. by apply (Hread c1 []).
Qed.

(** The next bytes of the read buffer. *)
Lemma take_held c h bs q out :
  held c h (bs ++ q) out -> bs <> [] ->
  exists rb, readbuf c = Some rb /\
    wpr (membuf_read rb (zlen bs)) (fun '(n, cells, mb) =>
      n = zlen bs /\ cells = Some <$> bs /\ exists h', held (set_readbuf (Some mb) c) h' q out).
Proof.
  intros (rb & wb & w & Hrb & Hv & Hwb & Hvw & Hfd & Hout & Hans) Hne. exists rb. split; [done|].
  assert (Hpos : 0 < zlen bs) by (destruct bs; [done|rewrite zlen_cons; zlen_facts; lia]).
  eapply wpr_mono; [by apply membuf_read_spec|]. intros [[n cells] mb]. cbn [fst snd]. intros (-> & -> & Hsz & Hview).
  rewrite zlen_app in *. zlen_facts. replace (Z.min (zlen bs) (zlen bs + zlen q)) with (zlen bs) in * by lia.
  assert (Hn : Z.to_nat (zlen bs) = length bs) by (unfold zlen; lia). rewrite Hn, take_app_length in *. rewrite drop_app_length in Hview.
  split; [done|]. split; [done|]. destruct (Z.eqb_spec (zlen bs) (zlen bs + zlen q)) as [He|He].
  - assert (q = []) as -> by (apply zlen_0; lia). exists []. by exists mb, wb, w.
  - exists (h ++ bs). by exists mb, wb, w.
Qed.

(** Several bytes. *)
Lemma read_arrived c bs q out :
  arrived c (bs ++ q) out -> bs <> [] ->
  wpr (connection_read c (zlen bs)) (fun '(k, got, c') => k = zlen bs /\ got = bs /\ exists h, held c' h q out).
Proof.
  intros [[h Hh]|(_ & h & more & Hin & Hh & Hsz)] Hne; unfold connection_read.
  - destruct (take_held _ _ _ _ _ Hh Hne) as (rb & Hrb & Hw). rewrite Hrb. cbn [the res_bind]. apply wpr_bind.
    eapply wpr_mono; [exact Hw|]. intros [[n cells] mb] (-> & -> & h' & Hh'). rewrite initialised_bytes. cbn [res_bind].
    rewrite Z.eqb_refl. cbn. split; [done|]. split; [done|]. by exists h'.
  - assert (Hpos : 0 < zlen bs) by (destruct bs; [done|rewrite zlen_cons; zlen_facts; lia]).
    pose proof Hh as (rb & wb & w & Hrb & Hv & Hwb & Hvw & Hfd & Hout & Hans). specialize (Hsz rb Hrb).
    rewrite Hrb. cbn [the res_bind]. apply wpr_bind.
    eapply wpr_mono; [by apply membuf_read_spec|]. intros [[n cells] mb]. cbn [fst snd].
    rewrite zlen_nil. replace (Z.min (zlen bs) 0) with 0 by lia. cbn [Z.eqb Z.to_nat firstn].
    intros (-> & -> & Hsz' & Hview). change (initialised (Some <$> take (Z.to_nat 0) [])) with (Ret ([] : list Z)). cbn [res_bind].
    rewrite (proj2 (Z.eqb_neq 0 (zlen bs))) by lia. rewrite zlen_app in Hsz. zlen_facts.
    assert (Hmax : size rb <= PTRDIFF_MAX) by (destruct Hv as (? & _ & _ & ? & _); lia). unfold PTRDIFF_MAX in Hmax.
    rewrite u64_small by lia. rewrite Z.sub_0_r. unfold membuf_size. rewrite (proj2 (Z.ltb_ge (size mb) (zlen bs))) by lia.
    apply wpr_bind. eapply wpr_mono.
    { apply (fill_arrived _ [] (bs ++ q) out more); [by destruct bs|exact Hin| |].
      - by exists mb, wb, w.
      - intros rb' [= <-]. rewrite zlen_app. lia. }
    intros [st c1] [-> H1]. destruct (take_held _ _ _ _ _ H1 Hne) as (rb1 & Hrb1 & Hw1). rewrite Hrb1. cbn [the res_bind].
    apply wpr_bind. eapply wpr_mono; [exact Hw1|]. intros [[n cells] mb1] (-> & -> & h' & Hh'). rewrite initialised_bytes.
    cbn. split; [done|]. split; [done|]. by exists h'.
Qed.

(** [m] reads [x] and leaves [q]. *)
Definition receives {A} (q out : list Z) (x : A) (m : reader A) : Prop :=
  wpr m (fun '(r, c') => r = Some x /\ exists h, held c' h q out).

Lemma held_arrived c h q out : held c h q out -> arrived c q out.
Proof. intros Hh. left. by exists h. Qed.

Lemma readn_receives {A B} q1 q out (x : A) (y : B) m k :
  receives q1 out x m -> (forall c h, held c h q1 out -> receives q out y (k x c)) -> receives q out y (readn m k).
Proof.
  intros Hm Hk. unfold receives, readn. apply wpr_bind. eapply wpr_mono; [exact Hm|].
  intros [r c1] (-> & h & Hh). by eapply Hk.
Qed.

Lemma done_receives {A} c h q out (x : A) : held c h q out -> receives q out x (Ret (Some x, c)).
Proof. intros Hh. cbn. split; [done|]. by exists h. Qed.

Lemma expected_receives {A} c t q1 q out (x : A) k :
  arrived c (t :: q1) out -> 0 <= t < 128 ->
  (forall c h, held c h q1 out -> receives q out x (k c)) -> receives q out x (expected c t k).
Proof.
  intros Harr Ht Hk. unfold receives, expected, expect. apply wpr_bind, wpr_bind.
  eapply wpr_mono; [by apply getc_arrived|]. intros [[st y] c1] (-> & -> & h & Hh & _).
  unfold schar. rewrite (proj2 (Z.ltb_lt t 128)) by lia. rewrite Z.eqb_refl. cbn. by eapply Hk.
Qed.

Lemma getc_receives {A} (f : Z -> A) c y q out :
  arrived c (y :: q) out -> receives q out (f y) (stored f (connection_getc c)).
Proof.
  intros Harr. unfold receives, stored. apply wpr_bind. eapply wpr_mono; [by apply getc_arrived|].
  intros [[st x] c1] (-> & -> & h & Hh & _). cbn. split; [done|]. by exists h.
Qed.

Lemma uint_receives {A} (f : Z -> A) n c x q out :
  arrived c (to_bytes n x ++ q) out -> (0 < n)%nat -> uint_range (8 * Z.of_nat n) x ->
  receives q out (f x) (stored f (connection_read_uint n c)).
Proof.
  intros Harr Hn Hx. destruct (to_bytes_spec n x) as [Hv Hl]; [apply Hx|].
  unfold receives, stored, connection_read_uint. rewrite <-Hl. apply wpr_bind, wpr_bind.
  eapply wpr_mono; [apply read_arrived; [exact Harr|intros Hnil; rewrite Hnil, zlen_nil in Hl; lia]|].
  intros [[k got] c1] (-> & -> & h & Hh). rewrite Z.eqb_refl. cbn. split; [|by exists h].
  rewrite Hv, Z.mod_small; [done|]. unfold uint_range in Hx. by rewrite Z.pow_mul_r in Hx by lia.
Qed.

Lemma cells_receives c bs q out n :
  arrived c (bs ++ q) out -> zlen bs = n -> 0 < n -> receives q out bs (read_cells c n).
Proof.
  intros Harr <- Hn. unfold receives, read_cells. apply wpr_bind. eapply wpr_mono; [apply read_arrived; [exact Harr|by intros ->]|].
  intros [[k got] c1] (-> & -> & h & Hh). rewrite (proj2 (Z.leb_gt (zlen bs) 0)), Z.eqb_refl by lia. cbn.
  split; [done|]. by exists h.
Qed.

Lemma as_value_receives {A} q out (f : A -> value) x m : receives q out x m -> receives q out (f x) (as_value f m).
Proof.
  intros Hm. unfold receives, as_value. apply wpr_bind. eapply wpr_mono; [exact Hm|].
  intros [r c1] (-> & h & Hh). cbn. split; [done|]. by exists h.
Qed.

Lemma signed_unsigned w x : 0 < w -> int_range w x -> signed w (unsigned w x) = x.
Proof.
  intros Hw Hx. unfold signed, unsigned, int_range in *. rewrite Zplus_mod_idemp_l, Z.mod_small; [lia|].
  replace (2 ^ w) with (2 * 2 ^ (w - 1)); [lia|]. rewrite <-Z.pow_succ_r by lia. f_equal. lia.
Qed.

Lemma unsigned_range w x : 0 <= w -> uint_range w (unsigned w x).
Proof. intros Hw. apply Z.mod_pos_bound. lia. Qed.

Lemma schar_u8 x : int_range 8 x -> schar (u8 x) = x.
Proof.
  unfold int_range, schar, u8. intros Hx. destruct (Z.le_gt_cases 0 x) as [H0|H0].
  - rewrite Z.mod_small by lia. by rewrite (proj2 (Z.ltb_lt x 128)) by lia.
  - replace (x mod 256) with (x + 256) by (apply (Z.mod_unique x 256 (-1)); lia).
    rewrite (proj2 (Z.ltb_ge (x + 256) 128)) by lia. lia.
Qed.

(** The length and the bytes of a string or a blob. *)
Lemma sized_receives c bs q out (bad : Z -> bool) (short : Z -> Z -> bool) :
  arrived c ((to_bytes 4 (zlen bs) ++ bs) ++ q) out -> bs <> [] -> zlen bs < 2 ^ 32 -> bad (zlen bs) = false ->
  short (zlen bs) (zlen bs) = false ->
  receives q out bs (readn (stored id (connection_read_u32 c)) (fun len c =>
    if bad len then Ret (None, c)
    else let+ (nread, got, c) := connection_read c len in
         if short nread len then Ret (None, c) else Ret (Some got, c))).
Proof.
  rewrite <-app_assoc. intros Harr Hne Hlen Hbad Hshort. pose proof (zlen_nonneg bs).
  eapply readn_receives; [apply (uint_receives id 4 c (zlen bs)); [exact Harr|lia|unfold uint_range; lia]|].
  intros c1 h1 H1%held_arrived. unfold id. rewrite Hbad. unfold receives. apply wpr_bind. eapply wpr_mono; [by apply read_arrived|].
  intros [[k got] c2] (-> & -> & h & Hh). rewrite Hshort. cbn. split; [done|]. by exists h.
Qed.

Lemma tag_receives c t q out v :
  arrived c (t :: q) out -> 0 <= t < 128 -> receives q out v (as_value (fun _ => v) (tag_only c t)).
Proof.
  intros Harr Ht. apply (as_value_receives q out (fun _ => v) tt). eapply expected_receives; [exact Harr|done|].
  intros; by eapply done_receives.
Qed.

(** A value of the format is read back. *)
Lemma read_value_receives c w v q out :
  valid v -> asks w v -> arrived c (encode v ++ q) out -> receives q out v (read_value c w).
Proof.
  intros Hv Hw Harr. destruct w, v; try done; cbn [read_value]; unfold encode in Harr; cbn [tag payload app] in Harr;
    cbn [valid asks] in *; first [apply (as_value_receives q out _ tt)|apply as_value_receives|idtac];
    try (eapply expected_receives; [exact Harr|lia|]; intros c1 h Hh; pose proof (held_arrived _ _ _ _ Hh) as H1).
  - rewrite <-(schar_u8 v) at 1 by done. by apply getc_receives.
  - change v with (id v). apply (getc_receives id). unfold u8 in H1. by rewrite Z.mod_small in H1 by (unfold uint_range in Hv; lia).
  - rewrite <-(signed_unsigned 16 v) at 1 by done.
    apply (uint_receives (signed 16) 2); [exact H1|lia|by apply unsigned_range].
  - rewrite (unsigned_id 16) in H1 by done. by apply (uint_receives id 2); [|lia|].
  - rewrite <-(signed_unsigned 32 v) at 1 by done.
    apply (uint_receives (signed 32) 4); [exact H1|lia|by apply unsigned_range].
  - rewrite (unsigned_id 32) in H1 by done. by apply (uint_receives id 4); [|lia|].
  - rewrite <-(signed_unsigned 64 v) at 1 by done.
    apply (uint_receives (signed 64) 8); [exact H1|lia|by apply unsigned_range].
  - rewrite (unsigned_id 64) in H1 by done. by apply (uint_receives id 8); [|lia|].
  - by apply cells_receives.
  - by apply cells_receives.
  - rewrite <-(signed_unsigned 64 v) at 1 by done.
    apply (uint_receives (signed 64) 8); [exact H1|lia|by apply unsigned_range].
  - eapply readn_receives; [by apply (getc_receives schar)|]. intros c2 h2 Hh2. by destruct v; apply done_receives with h2.
  - by apply tag_receives.
  - destruct Hv. apply (sized_receives _ _ _ _ (fun len => destsize <=? len) (fun n len => (n <? 0) || negb (n =? len)));
      [done..|by apply Z.leb_gt|]. rewrite Z.eqb_refl. apply orb_false_intro; [apply Z.ltb_ge, zlen_nonneg|done].
  - destruct Hv. apply (sized_receives _ _ _ _ (fun len => destsize <? len) (fun n len => negb (n =? len)));
      [done..|by apply Z.ltb_ge|]. by rewrite Z.eqb_refl.
  - by apply tag_receives.
  - by apply tag_receives.
  - by apply tag_receives.
  - by apply tag_receives.
  - destruct h as [ver req], Hv as [H1 H2]. cbn [hd_version hd_request] in *. rewrite <-app_assoc in Harr.
    eapply readn_receives; [by apply (uint_receives id 2 c ver); [exact Harr|lia|]|]. intros c1 h1 Hh1%held_arrived.
    eapply readn_receives; [by apply (uint_receives id 2 c1 req); [exact Hh1|lia|]|]. intros c2 h2 Hh2.
    by eapply done_receives.
  - destruct r as [ver req sta], Hv as (H1 & H2 & H3). cbn [rp_version rp_request rp_status] in *. rewrite <-!app_assoc in Harr.
    eapply readn_receives; [by apply (uint_receives id 2 c ver); [exact Harr|lia|]|]. intros c1 h1 Hh1%held_arrived.
    eapply readn_receives; [by apply (uint_receives id 2 c1 req); [exact Hh1|lia|]|]. intros c2 h2 Hh2%held_arrived.
    eapply readn_receives; [by apply (uint_receives id 2 c2 sta); [exact Hh2|lia|]|]. intros c3 h3 Hh3.
    by eapply done_receives.
Qed.

Lemma read_all_held c h ws vs q out :
  Forall valid vs -> Forall2 asks ws vs -> held c h (encode_all vs ++ q) out -> receives q out vs (read_all c ws).
Proof.
  intros Hvs Hws. revert c h. induction Hws as [|w v ws vs Hw _ IH]; intros c h Hh; [by eapply done_receives|].
  apply list.Forall_cons in Hvs as [Hv Hvs]. cbn [read_all]. unfold encode_all in Hh. cbn [fmap list_fmap concat] in Hh.
  rewrite <-app_assoc in Hh. eapply readn_receives; [by eapply read_value_receives, held_arrived|]. intros c1 h1 Hh1.
  eapply readn_receives; [by eapply IH|]. intros c2 h2 Hh2. by eapply done_receives.
Qed.

Lemma read_all_receives c ws vs q out :
  Forall valid vs -> Forall2 asks ws vs -> vs <> [] -> arrived c (encode_all vs ++ q) out ->
  receives q out vs (read_all c ws).
Proof.
  intros Hvs Hws Hne Harr. destruct Hws as [|w v ws vs Hw Hws]; [done|].
  apply list.Forall_cons in Hvs as [Hv Hvs]. cbn [read_all]. unfold encode_all in Harr. cbn [fmap list_fmap concat] in Harr.
  rewrite <-app_assoc in Harr. eapply readn_receives; [by apply read_value_receives|]. intros c1 h1 Hh1.
  eapply readn_receives; [by eapply read_all_held|]. intros c2 h2 Hh2. by eapply done_receives.
Qed.

(** ** What does not arrive *)

(** A value of another type fails and stays, but for its first byte when nothing
    else is in the buffer. *)
Lemma expect_other c x q out t :
  arrived c (x :: q) out -> schar x <> t ->
  wpr (expect c t) (fun '(ok, c') => ok = false /\ exists h, held c' h (if q then [] else x :: q) out).
Proof.
  intros Harr Hne. unfold expect. apply wpr_bind. eapply wpr_mono; [by apply getc_arrived|].
  intros [[st y] c1] (-> & -> & h & Hh & Hlast). rewrite (proj2 (Z.eqb_neq _ _) Hne).
  destruct Hh as (rb & wb & w & Hrb & Hv & Hwb & Hvw & Hfd & Hout & Hans). unfold connection_ungetc. rewrite Hrb.
  cbn [the res_bind]. destruct (membuf_unget_spec _ _ _ Hv) as [_ Hun].
  destruct (membuf_unget rb) as [st mb]. cbn [fst snd] in Hun. cbn. split; [done|].
  destruct q as [|z q].
  - assert (h = []) as -> by (destruct Hv as (? & _ & _ & _ & _ & _ & Hq); by apply Hq).
    destruct Hun as [(_ & _ & ->)|(h' & ? & _ & Hbad & _)]; [|by destruct h']. exists []. by exists rb, wb, w.
  - destruct (Hlast ltac:(done)) as [h' ->]. destruct Hun as [(_ & Hbad & _)|(h2 & z2 & _ & Heq & Hv2)]; [by destruct h'|].
    apply app_inj_tail in Heq as [-> ->]. exists h2. by exists mb, wb, w.
Qed.

End Arrived.

(** * The properties *)

(** C38. What is written is read.  A list of values is written, in the format, on a
    connection that takes everything; the numbers fit their types, and the strings
    and blobs are shorter than 4 GB and not empty ([valid]), as the reader aborts
    on an empty one, [cbuf_empty_aborts]; and on any connection where these
    bytes have arrived, a reader that asks for their types, with arrays that have
    room, gets the values, and nothing that follows them is touched. *)
Theorem cbuf_roundtrip cw inc out vs ws ans cr rest out' :
  Forall valid vs -> Forall2 asks ws vs -> vs <> [] ->
  Connection.rep cw inc out -> reliable cw -> arrived (ans := ans) cr (encode_all vs ++ rest) out' ->
  wpr (write_all cw vs) (fun '(st, c') => st = success /\ Connection.rep c' inc (out ++ encode_all vs)) /\
  wpr (read_all cr ws) (fun '(r, c') => r = Some vs /\ exists h, held (ans := ans) c' h rest out').
Proof.
  intros Hvs Hws Hne Hrep Hrel Harr. split; [|by apply read_all_receives].
  eapply wpr_mono; [by apply write_all_sends|]. intros [st c'] (_ & H1 & H2). destruct (H1 Hrel) as [-> _]. split; [done|by apply H2].
Qed.

(** An empty string is written, and ends the reader: of the five bytes that
    [writebuf_string] sends for it [readbuf_string] reads the length and then fails an
    assertion, whatever the size of its array. *)
Theorem cbuf_empty_aborts cw inc out ans cr rest out' destsize :
  Connection.rep cw inc out -> reliable cw -> arrived (ans := ans) cr (encode (V_string []) ++ rest) out' -> 0 < destsize ->
  wpr (writebuf_string cw []) (fun '(st, c') => st = success /\ Connection.rep c' inc (out ++ encode (V_string []))) /\
  readbuf_string cr destsize = Fault AssertFailed.
Proof.
  intros Hrep Hrel Harr Hsize. split.
  { eapply wpr_mono; [by apply sized_sends|]. intros [st c'] (_ & H1 & H2). destruct (H1 Hrel) as [-> _].
    split; [done|by apply H2]. }
  unfold encode in Harr. cbn [tag payload app zlen length Z.of_nat] in Harr. rewrite app_nil_r in Harr.
  destruct (wpr_eq _ _ (getc_arrived _ _ _ _ Harr)) as ([[st x] c1] & Hg & -> & -> & h1 & Hh1 & _).
  unfold readbuf_string, expected, expect. rewrite Hg. cbn [res_bind]. change (schar (ch "Q") =? ch "Q") with true. cbn [res_bind].
  destruct (wpr_eq _ _ (uint_receives id 4 c1 0 rest out' (held_arrived _ _ _ _ Hh1) ltac:(lia) ltac:(by split))) as ([r c2] & Hu & -> & h2 & Hh2).
  unfold readn, connection_read_u32. rewrite Hu. cbn [res_bind]. unfold id. rewrite (proj2 (Z.leb_gt destsize 0)) by lia.
  destruct Hh2 as (rb & wb & w & Hrb & _). unfold connection_read. rewrite Hrb. done.
Qed.

(** * Samples *)

Definition sample_values : list value :=
  [V_header (Header 1 258); V_array_start; V_int8 (-5); V_uint16 65535; V_int32 (- 2 ^ 31); V_uint64 (2 ^ 64 - 1);
   V_datetime (-1); V_bool true; V_null; V_string (bytes "hello"); V_blob [0; 255]; V_float [0; 0; 128; 63]; V_array_end].
Definition sample_wanted : list wanted :=
  [W_header; W_array_start; W_int8; W_uint16; W_int32; W_uint64; W_datetime; W_bool; W_null; W_string 6; W_blob 2;
   W_float; W_array_end].

Lemma fresh_arrived n inb bs :
  (0 < n)%nat -> Z.of_nat n <= PTRDIFF_MAX -> bs <> [] -> zlen bs <= Z.of_nat n ->
  arrived (ans := []) (fresh_conn n 1 (Arrives bs :: inb) []) bs [].
Proof.
  intros Hn Hm Hne Hl. right. split; [done|]. exists [], inb. split; [done|]. split; [|by intros rb [= <-]].
  destruct (fresh_rep n 1 [] [] Hn Hm) as (rb & wb & h & q & w & H1 & H2 & H3 & H4 & H5 & H6 & H7).
  cbn in H1, H3. injection H1 as <-. injection H3 as <-. symmetry in H6. apply app_eq_nil in H6 as [-> _].
  assert (h = []) as -> by (destruct H2 as (? & _ & _ & _ & _ & _ & Hq); by apply Hq).
  eexists _, _, w. by split_and!.
Qed.

Lemma cbuf_roundtrip_witness :
  wpr (write_all (fresh_conn 64 1 [] []) sample_values)
    (fun '(st, c') => st = success /\ Connection.rep c' [] ([] ++ encode_all sample_values)) /\
  wpr (read_all (fresh_conn 128 1 [Arrives (encode_all sample_values ++ bytes "more")] []) sample_wanted)
    (fun '(r, c') => r = Some sample_values /\ exists h, held (ans := []) c' h (bytes "more") []).
Proof.
  apply (cbuf_roundtrip (fresh_conn 64 1 [] []) [] [] sample_values sample_wanted).
  - repeat constructor; unfold int_range, uint_range; try lia; done.
  - do 13 (apply list.Forall2_cons_2; [by vm_compute|]). apply list.Forall2_nil_2.
  - done.
  - apply (fresh_rep 64 1 [] []); [lia|unfold PTRDIFF_MAX; lia].
  - done.
  - apply fresh_arrived; [lia|unfold PTRDIFF_MAX; lia|done|by vm_compute].
Defined.

Lemma cbuf_empty_aborts_witness :
  wpr (writebuf_string (fresh_conn 64 1 [] []) [])
    (fun '(st, c') => st = success /\ Connection.rep c' [] ([] ++ encode (V_string []))) /\
  readbuf_string (fresh_conn 64 1 [Arrives (encode (V_string []))] []) 51 = Fault AssertFailed.
Proof.
  apply (cbuf_empty_aborts (fresh_conn 64 1 [] []) [] [] [] (fresh_conn 64 1 [Arrives (encode (V_string []))] []) [] []).
  - apply (fresh_rep 64 1 [] []); [lia|unfold PTRDIFF_MAX; lia].
  - done.
  - apply fresh_arrived; [lia|unfold PTRDIFF_MAX; lia|done|by vm_compute].
  - done.
Defined.
