(* ===== verification/Beep.v ===== *)
(** Beep: adding a user, apps/beep/user.c, db_user.c, main.c and bdb_client.c.

    A client sends a header and a user, as values of Cbuf; the server reads them,
    stores the user in its database and answers with a reply and the new number.
    What the database does is a parameter.  [beep_user_added] is the exchange;
    [bdb_user_add_refused] is what becomes of a user that is not stored. *)

From Stdlib Require Import ZArith Lia.
From stdpp Require Import base list numbers.
From S2P Require Import Prelude Membuf Gensocket Connection Cbuf.

Definition BEEP_VERSION : Z := 1.
Definition BEEP_USER_ADD : Z := 1.
Definition NAME_MAX : Z := 50.
Definition NICK_MAX : Z := NAME_MAX.
Definition EMAIL_MAX : Z := 500.

(** * Users *)

Record user : Set := User {
  user_id : Z;
  user_name : list Z;
  user_nick : list Z;
  user_email : list Z;
  user_created : Z;
}.

Definition user_init : user := User 0 [] [] [] 0.
Definition sizeof_user : Z := 624.
Definition user_new : C (option user) :=
  let* ok := alloc_ok sizeof_user in ret (if ok : bool then Some user_init else None).

Definition user_set_id (u : user) (id : Z) : user := User id (user_name u) (user_nick u) (user_email u) (user_created u).
Definition user_set_created (u : user) (t : Z) : user := User (user_id u) (user_name u) (user_nick u) (user_email u) t.
Definition put_name (u : user) (val : list Z) : user := User (user_id u) val (user_nick u) (user_email u) (user_created u).
Definition put_nick (u : user) (val : list Z) : user := User (user_id u) (user_name u) val (user_email u) (user_created u).
Definition put_email (u : user) (val : list Z) : user := User (user_id u) (user_name u) (user_nick u) val (user_created u).
Definition user_set_name (u : user) (val : list Z) : res user :=
  r_assert (zlen val <? NAME_MAX + 1);; Ret (put_name u val).
Definition user_set_nick (u : user) (val : list Z) : res user :=
  r_assert (zlen val <? NICK_MAX + 1);; Ret (put_nick u val).
Definition user_set_email (u : user) (val : list Z) : res user :=
  r_assert (zlen val <? EMAIL_MAX + 1);; Ret (put_email u val).

(** * Sending and receiving *)

Definition user_send (u : user) (c : connection) : res (status * connection) :=
  let! c := writebuf_header c (Header BEEP_VERSION BEEP_USER_ADD) in
  let! c := writebuf_object_start c in
  let! c := writebuf_int64 c (user_id u) in
  let! c := writebuf_string c (user_name u) in
  let! c := writebuf_string c (user_nick u) in
  let! c := writebuf_string c (user_email u) in
  let! c := writebuf_int64 c (user_created u) in
  let! c := writebuf_object_end c in
  connection_flush c.

(** The members are written one by one. *)
Definition fills {A} (m : reader A) (u : user) (set : A -> user) (k : user -> connection -> res (status * user * connection))
    : res (status * user * connection) :=
  let+ (r, c) := m in match r with None => Ret (failure, u, c) | Some x => k (set x) c end.

Definition user_recv (u : user) (c : connection) : res (status * user * connection) :=
  fills (readbuf_object_start c) u (fun _ => u) (fun u c =>
  fills (readbuf_int64 c) u (user_set_id u) (fun u c =>
  fills (readbuf_string c (NAME_MAX + 1)) u (put_name u) (fun u c =>
  fills (readbuf_string c (NICK_MAX + 1)) u (put_nick u) (fun u c =>
  fills (readbuf_string c (EMAIL_MAX + 1)) u (put_email u) (fun u c =>
  fills (readbuf_int64 c) u (user_set_created u) (fun u c =>
  fills (readbuf_object_end c) u (fun _ => u) (fun u c =>
  Ret (success, u, c)))))))).

(** * The database *)

(** [begins]: a transaction is begun; [sequence]: the next number; [puts]: the
    record is stored; [clock]: the time. *)
Record database : Set := Database {
  begins : bool;
  sequence : option Z;
  puts : bool;
  clock : Z;
}.

Inductive db_event : Set := Stored (u : user) | Committed | Rolled_back.

Definition user_valid_for_insert (u : user) : bool :=
  negb ((zlen (user_name u) =? 0) || (zlen (user_nick u) =? 0) || (zlen (user_email u) =? 0)) &&
  (user_id u =? 0) && (user_created u =? 0).

(** [bdb_server_rollback] asserts that there is a transaction. *)
Definition bdb_user_add (db : database) (u : user) : res (Z * user * list db_event) :=
  if negb (user_valid_for_insert u) then Ret (0, u, [])
  else if negb (begins db) then Fault AssertFailed
  else
    match sequence db with
    | None => Ret (0, u, [Rolled_back])
    | Some id =>
        let u := user_set_created (user_set_id u id) (clock db) in
        if negb (puts db) then Ret (0, u, [Rolled_back]) else Ret (id, u, [Stored u; Committed])
    end.

(** * The server *)

Definition user_add_handler (db : database) (c : connection) : res (status * connection * list db_event) :=
  let+ (st, u, c) := user_recv user_init c in
  match st with
  | failure => Ret (failure, c, [])
  | success =>
      let+ (id, u, t) := bdb_user_add db u in
      let+ (st, c) :=
        (let! c := writebuf_reply c (Reply BEEP_VERSION BEEP_USER_ADD 0) in
         let! c := writebuf_object_start c in
         let! c := writebuf_int64 c id in
         let! c := writebuf_object_end c in
         connection_flush c) in
      Ret (st, c, t)
  end.

(** One round of the loop: whether it goes on. *)
Definition beep_round (db : database) (c : connection) : res (bool * connection * list db_event) :=
  let+ (h, c) := readbuf_header c in
  match h with
  | None => Ret (false, c, [])
  | Some h =>
      if negb (hd_version h =? BEEP_VERSION) then Ret (false, c, [])
      else if hd_request h =? BEEP_USER_ADD then
        let+ (st, c, t) := user_add_handler db c in
        Ret (match st with success => true | failure => false end, c, t)
      else Ret (false, c, [])
  end.

(** [dbs]: what the database does in each round. *)
Fixpoint beep_callback (dbs : list database) (c : connection) : res (connection * list db_event) :=
  match dbs with
  | [] => Ret (c, [])
  | db :: dbs =>
      let+ (go, c, t) := beep_round db c in
      if go : bool then let+ (c, t') := beep_callback dbs c in Ret (c, t ++ t') else Ret (c, t)
  end.

(** * The client *)

Definition readbuf_read_id (c : connection) : res (Z * connection) :=
  let+ (r, c) :=
    (let? _ c := readbuf_object_start c in
     let? id c := readbuf_int64 c in
     let? _ c := readbuf_object_end c in
     Ret (Some id, c)) in
  Ret (match r with Some id => id | None => 0 end, c).

(** The answer: [die] without a reply, else the status and the number, when it
    is 0. *)
Definition read_answer (c : connection) : res (Z * option Z * connection) :=
  let+ (r, c) := readbuf_reply c in
  match r with
  | None => Fault Died
  | Some r =>
      if negb (rp_status r =? 0) then Ret (rp_status r, None, c)
      else let+ (id, c) := readbuf_read_id c in Ret (rp_status r, Some id, c)
  end.

(** * The exchange *)

Definition user_values (u : user) : list value :=
  [V_header (Header BEEP_VERSION BEEP_USER_ADD); V_object_start; V_int64 (user_id u); V_string (user_name u);
   V_string (user_nick u); V_string (user_email u); V_int64 (user_created u); V_object_end].
Definition answer_values (id : Z) : list value :=
  [V_reply (Reply BEEP_VERSION BEEP_USER_ADD 0); V_object_start; V_int64 id; V_object_end].

(** A user that can be sent and received; and one that can be stored, too. *)
Definition sendable_user (u : user) : Prop :=
  int_range 64 (user_id u) /\ int_range 64 (user_created u) /\
  0 < zlen (user_name u) <= NAME_MAX /\ 0 < zlen (user_nick u) <= NICK_MAX /\ 0 < zlen (user_email u) <= EMAIL_MAX.
Definition new_user (u : user) : Prop := sendable_user u /\ user_id u = 0 /\ user_created u = 0.

Definition server_user (u : user) (id t : Z) : user := user_set_created (user_set_id u id) t.

(** One more value of a sequence of writes. *)
Ltac send_value :=
  match goal with
  | |- sends ?c ?inc ?out (encode ?v ++ _) _ =>
      apply wrote_sends; [apply (write_value_sends c inc out v); [|assumption]|intros ? ?]
  end.
Ltac unfold_values :=
  unfold encode_all, user_values, answer_values; cbn [fmap list_fmap concat]; rewrite ?app_nil_r, <-?app_assoc.

Lemma string_valid (s : list Z) : 0 < zlen s <= 1000 -> s <> [] /\ zlen s < 2 ^ 32.
Proof. intros Hs. split; [intros ->; unfold zlen in Hs; cbn in Hs; lia|lia]. Qed.

Lemma user_valid u : sendable_user u -> Forall valid (user_values u).
Proof.
  unfold sendable_user, NICK_MAX, NAME_MAX, EMAIL_MAX, user_values. intros (Hi & Hc & H1 & H2 & H3).
  repeat apply list.Forall_cons_2; cbn [valid hd_version hd_request]; try done;
    unfold uint_range, int_range in *; try (by apply string_valid; lia); unfold BEEP_VERSION, BEEP_USER_ADD; lia.
Qed.

Lemma user_send_spec u c inc out :
  sendable_user u -> Connection.rep c inc out -> sends c inc out (encode_all (user_values u)) (user_send u c).
Proof.
  intros Hu Hrep. apply user_valid in Hu. unfold user_values in Hu. rewrite !list.Forall_cons in Hu.
  destruct Hu as (V1 & V2 & V3 & V4 & V5 & V6 & V7 & V8 & _). unfold_values. unfold user_send.
  do 7 (send_value; [done|]). rewrite <-(app_nil_r (encode V_object_end)). send_value; [done|]. by apply flush_sends.
Qed.

(** What a round answers. *)
Lemma answer_spec id c inc out :
  int_range 64 id -> Connection.rep c inc out ->
  sends c inc out (encode_all (answer_values id))
    (let! c := writebuf_reply c (Reply BEEP_VERSION BEEP_USER_ADD 0) in
     let! c := writebuf_object_start c in
     let! c := writebuf_int64 c id in
     let! c := writebuf_object_end c in
     connection_flush c).
Proof.
  intros Hid Hrep. unfold_values. do 3 (send_value; [done|]).
  rewrite <-(app_nil_r (encode V_object_end)). send_value; [done|]. by apply flush_sends.
Qed.

(** Writing leaves what has arrived. *)
Lemma held_sends c h q out bs m :
  held (ans := []) c h q out -> (forall inc, Connection.rep c inc out -> sends c inc out bs m) ->
  wpr m (fun '(st, c') => st = success /\ held (ans := []) c' h q (out ++ bs)).
Proof.
  intros (rb & wb & w & Hrb & Hv & Hwb & Hvw & Hfd & -> & Hrel) Hm.
  eapply wpr_mono; [apply (Hm (q ++ wire c)); by exists rb, wb, h, q, w|].
  intros [st c'] ((_ & F2 & _ & F4 & _) & H1 & H2). destruct (H1 Hrel) as [-> Hrel']. split; [done|].
  destruct (H2 eq_refl) as (rb' & wb' & h' & q' & w' & R1 & R2 & R3 & R4 & R5 & R6 & R7).
  exists rb, wb', w'. split_and!; try done; congruence.
Qed.

(** A reader that is an instance of [read_value]. *)
Lemma reader_receives {A ans} (f : A -> value) w v x c q out (m : reader A) :
  read_value c w = as_value f m -> (forall r, f <$> r = Some v -> r = Some x) ->
  valid v -> asks w v -> arrived (ans := ans) c (encode v ++ q) out -> receives (ans := ans) q out x m.
Proof.
  intros Hm Hf Hv Hw Harr. pose proof (read_value_receives c w v q out Hv Hw Harr) as H. rewrite Hm in H.
  unfold receives, as_value in *. destruct m as [[r c']|]; [|done]. cbn in *. destruct H as [Hr H]. split; [by apply Hf|done].
Qed.

Lemma fills_spec {A ans} (m : reader A) u set k x q out Q :
  receives (ans := ans) q out x m -> (forall c h, held (ans := ans) c h q out -> wpr (k (set x) c) Q) -> wpr (fills m u set k) Q.
Proof.
  intros Hm Hk. unfold fills. apply wpr_bind. eapply wpr_mono; [exact Hm|]. intros [r c] (-> & h & Hh). by eapply Hk.
Qed.

(** The next value is [v], which [f] makes of [x]. *)
Ltac is_value f w v x :=
  eapply (reader_receives f w v x);
    [reflexivity|intros [r|] ?; [first [by simplify_eq/=|by destruct r]|done]|assumption|cbn [asks]; (done || lia)
    |first [eassumption|eapply held_arrived; eassumption]].
Ltac fill_next f w v x := eapply fills_spec; [is_value f w v x|intros ? ? ?].

(** The rest of the message of a user, after the header. *)
Definition user_rest (u : user) : list value := drop 1 (user_values u).

Lemma user_recv_spec {ans} u u0 c rest out :
  sendable_user u -> arrived (ans := ans) c (encode_all (user_rest u) ++ rest) out ->
  wpr (user_recv u0 c) (fun '(st, u', c') => st = success /\ u' = u /\ exists h, held (ans := ans) c' h rest out).
Proof.
  intros Hu Harr. pose proof Hu as (_ & _ & L1 & L2 & L3). apply user_valid in Hu. unfold user_values in Hu. rewrite !list.Forall_cons in Hu.
  destruct Hu as (_ & V2 & V3 & V4 & V5 & V6 & V7 & V8 & _). revert Harr.
  unfold user_rest, encode_all, user_values. cbn [skipn fmap list_fmap concat]. rewrite app_nil_r, <-!app_assoc. intros Harr.
  unfold user_recv, NICK_MAX, NAME_MAX, EMAIL_MAX in *.
  fill_next (fun _ : unit => V_object_start) W_object_start V_object_start tt.
  fill_next V_int64 W_int64 (V_int64 (user_id u)) (user_id u).
  fill_next V_string (W_string 51) (V_string (user_name u)) (user_name u).
  fill_next V_string (W_string 51) (V_string (user_nick u)) (user_nick u).
  fill_next V_string (W_string 501) (V_string (user_email u)) (user_email u).
  fill_next V_int64 W_int64 (V_int64 (user_created u)) (user_created u).
  fill_next (fun _ : unit => V_object_end) W_object_end V_object_end tt.
  cbn. split; [done|]. split; [by destruct u|by eexists].
Qed.

(** What the database makes of a user it can store. *)
Lemma bdb_user_add_stores db u id :
  new_user u -> begins db = true -> sequence db = Some id -> puts db = true ->
  bdb_user_add db u = Ret (id, server_user u id (clock db), [Stored (server_user u id (clock db)); Committed]).
Proof.
  intros ((_ & _ & L1 & L2 & L3) & Hid & Hc) Hb Hs Hp. unfold bdb_user_add, user_valid_for_insert. rewrite Hid, Hc.
  rewrite !(proj2 (Z.eqb_neq _ 0)) by lia. cbn. by rewrite Hb, Hs, Hp.
Qed.

Lemma read_answer_spec {ans} id c rest out :
  int_range 64 id -> arrived (ans := ans) c (encode_all (answer_values id) ++ rest) out ->
  wpr (read_answer c) (fun '(st, r, c') => st = 0 /\ r = Some id /\ exists h, held (ans := ans) c' h rest out).
Proof.
  unfold encode_all, answer_values. cbn [fmap list_fmap concat]. rewrite app_nil_r, <-!app_assoc. intros Hid Harr.
  set (rp := Reply BEEP_VERSION BEEP_USER_ADD 0) in *.
  assert (V1 : valid (V_reply rp)) by done. assert (V3 : valid (V_int64 id)) by done.
  assert (V2 : valid V_object_start) by done. assert (V4 : valid V_object_end) by done.
  unfold read_answer. apply wpr_bind.
  refine (wpr_mono _ _ _ (_ : receives (ans := ans) (encode V_object_start ++ encode (V_int64 id) ++ encode V_object_end ++ rest) out rp _) _).
  { is_value V_reply W_reply (V_reply rp) rp. }
  intros [r c1] (-> & h1 & H1). cbn. unfold readbuf_read_id. do 2 apply wpr_bind.
  refine (wpr_mono _ _ _ (_ : receives (ans := ans) rest out id _) _).
  { eapply readn_receives; [is_value (fun _ : unit => V_object_start) W_object_start V_object_start tt|intros c2 h2 H2].
    eapply readn_receives; [is_value V_int64 W_int64 (V_int64 id) id|intros c3 h3 H3].
    eapply readn_receives; [is_value (fun _ : unit => V_object_end) W_object_end V_object_end tt|intros c4 h4 H4].
    by eapply done_receives. }
  intros [r c2] (-> & h2 & H2). cbn. split; [done|]. split; [done|]. by eexists.
Qed.

(** A round that adds a user: [id] is what [bdb_user_add] returns. *)
Lemma beep_round_spec db u u' id t c rest out :
  sendable_user u -> bdb_user_add db u = Ret (id, u', t) -> int_range 64 id ->
  arrived (ans := []) c (encode_all (user_values u) ++ rest) out ->
  wpr (beep_round db c) (fun '(go, c', t') => go = true /\ t' = t /\
    exists h, held (ans := []) c' h rest (out ++ encode_all (answer_values id))).
Proof.
  intros Hu Hadd Hid Harr. set (hd := Header BEEP_VERSION BEEP_USER_ADD).
  assert (V1 : valid (V_header hd)) by done. unfold beep_round. apply wpr_bind.
  change (encode_all (user_values u)) with (encode (V_header hd) ++ encode_all (user_rest u)) in Harr.
  rewrite <-app_assoc in Harr.
  refine (wpr_mono _ _ _ (_ : receives (ans := []) (encode_all (user_rest u) ++ rest) out hd _) _).
  { is_value V_header W_header (V_header hd) hd. }
  intros [r c1] (-> & h1 & H1). cbn [hd hd_version hd_request Z.eqb negb]. apply wpr_bind.
  unfold user_add_handler. apply wpr_bind.
  eapply wpr_mono; [eapply user_recv_spec; [exact Hu|by eapply held_arrived]|]. intros [[st u1] c2] (-> & -> & h2 & H2).
  rewrite Hadd. cbn [res_bind]. apply wpr_bind.
  eapply wpr_mono; [eapply (held_sends c2); [exact H2|intros inc' Hrep'; by apply (answer_spec id)]|].
  intros [st c3] (-> & H3). cbn [wpr]. split; [done|]. split; [done|]. by exists h2.
Qed.

(** * The properties *)

(** C39. A user is added.  A client writes a new user; where its bytes have arrived
    the server takes exactly these, and when its database works it stores the user with
    the next number and the time, commits, writes an answer and waits for the next
    request; and where the answer has arrived the client reads the status 0 and that
    number. *)
Theorem beep_user_added db u id cw inc outw cs rest outs ans cr rest' outr :
  new_user u -> begins db = true -> sequence db = Some id -> puts db = true -> int_range 64 id ->
  Connection.rep cw inc outw -> reliable cw ->
  arrived (ans := []) cs (encode_all (user_values u) ++ rest) outs ->
  arrived (ans := ans) cr (encode_all (answer_values id) ++ rest') outr ->
  let u' := server_user u id (clock db) in
  wpr (user_send u cw) (fun '(st, c') => st = success /\ Connection.rep c' inc (outw ++ encode_all (user_values u))) /\
  wpr (beep_round db cs) (fun '(go, c', t) => go = true /\ t = [Stored u'; Committed] /\
    exists h, held (ans := []) c' h rest (outs ++ encode_all (answer_values id))) /\
  wpr (read_answer cr) (fun '(st, r, c') => st = 0 /\ r = Some id /\ exists h, held (ans := ans) c' h rest' outr).
Proof.
  intros Hu Hb Hs Hp Hid Hrep Hrel Hcs Hcr u'. split; [|split; [|by apply read_answer_spec]].
  { eapply wpr_mono; [apply user_send_spec; [apply Hu|done]|]. intros [st c'] (_ & H1 & H2). destruct (H1 Hrel) as [-> _]. split; [done|by apply H2]. }
  apply (beep_round_spec db u u'); [apply Hu|by apply bdb_user_add_stores|done..].
Qed.

(** A user that is not stored.  A user without a name, with a number or with a
    time is not stored, and neither is one when the database has no number or
    refuses the record; and yet the answer has the status 0, with the number 0: the
    client cannot tell by the status. *)
Theorem bdb_user_add_refused db u cs rest outs :
  sendable_user u ->
  user_valid_for_insert u = false \/ begins db = true /\ (sequence db = None \/ puts db = false) ->
  arrived (ans := []) cs (encode_all (user_values u) ++ rest) outs ->
  wpr (beep_round db cs) (fun '(go, c', t) => go = true /\ (t = [] \/ t = [Rolled_back]) /\
    exists h, held (ans := []) c' h rest (outs ++ encode_all (answer_values 0))).
Proof.
  intros Hu Hdb Harr.
  assert (Hadd : exists u' t, bdb_user_add db u = Ret (0, u', t) /\ (t = [] \/ t = [Rolled_back])).
  { unfold bdb_user_add. destruct (user_valid_for_insert u); cbn [negb]; [|eexists _, _; by split; [|left]].
    destruct Hdb as [|(-> & Hdb)]; [done|]. cbn [negb]. destruct (sequence db) as [id|]; [|eexists _, _; by split; [|right]].
    destruct Hdb as [| ->]; [done|]. cbn [negb]. eexists _, _. by split; [|right]. }
  destruct Hadd as (u' & t & Hadd & Ht). eapply wpr_mono; [by eapply beep_round_spec|].
  intros [[go c'] t'] (-> & -> & H). by split_and!.
Qed.

(** * Samples *)

Definition sample_user : user := User 0 (bytes "Ada") (bytes "ada") (bytes "ada@example.org") 0.
Definition sample_db : database := Database true (Some 7) true 1764000000.

Lemma sample_user_new : new_user sample_user.
Proof.
  unfold new_user, sendable_user, int_range, NICK_MAX, NAME_MAX, EMAIL_MAX.
  split; [split_and!; by vm_compute|done].
Qed.

Definition sample_conn (bs : list Z) : connection := fresh_conn 1024 1 [Arrives bs] [].

Lemma sample_arrived bs : bs <> [] -> zlen bs <= 1024 -> arrived (ans := []) (sample_conn bs) bs [].
Proof. intros Hne Hl. apply fresh_arrived; [lia|unfold PTRDIFF_MAX; lia|done|lia]. Qed.

Lemma beep_user_added_witness :
  let u' := server_user sample_user 7 1764000000 in
  wpr (user_send sample_user (fresh_conn 1024 1 [] []))
    (fun '(st, c') => st = success /\ Connection.rep c' [] ([] ++ encode_all (user_values sample_user))) /\
  wpr (beep_round sample_db (sample_conn (encode_all (user_values sample_user) ++ [0])))
    (fun '(go, c', t) => go = true /\ t = [Stored u'; Committed] /\
      exists h, held (ans := []) c' h [0] ([] ++ encode_all (answer_values 7))) /\
  wpr (read_answer (sample_conn (encode_all (answer_values 7))))
    (fun '(st, r, c') => st = 0 /\ r = Some 7 /\ exists h, held (ans := []) c' h [] []).
Proof.
  apply (beep_user_added sample_db sample_user 7 _ [] []).
  - exact sample_user_new.
  - reflexivity.
  - reflexivity.
  - reflexivity.
  - by unfold int_range.
  - apply (fresh_rep 1024 1 [] []); [lia|unfold PTRDIFF_MAX; lia].
  - reflexivity.
  - by apply sample_arrived.
  - by apply (sample_arrived (encode_all (answer_values 7) ++ [])).
Defined.

Lemma bdb_user_add_refused_witness :
  wpr (beep_round (Database true None true 0) (sample_conn (encode_all (user_values sample_user))))
    (fun '(go, c', t) => go = true /\ (t = [] \/ t = [Rolled_back]) /\
      exists h, held (ans := []) c' h [] ([] ++ encode_all (answer_values 0))).
Proof.
  apply (bdb_user_add_refused (Database true None true 0) sample_user).
  - apply sample_user_new.
  - right. split; [reflexivity|]. by left.
  - by apply (sample_arrived (encode_all (user_values sample_user) ++ [])).
Defined.
