(* ===== verification/ConfigFile.v ===== *)
(** ConfigFile: directives of a configuration file, meta/src/meta_configfile.c.

    A file is a list of bytes that [fgets] cuts into lines of at most 2047; the
    three arrays of [configfile_read] are blocks whose bounds are checked.  A
    configuration is the list of its directives.

    [configfile_read_total] shows that the arrays are long enough for any file, and
    [configfile_roundtrip] that a file that was written with the directives is
    read as these directives, in any layout. *)

From Stdlib Require Import ZArith Lia.
From stdpp Require Import base list numbers.
From S2P Require Import Prelude Convert Cstring MetaMisc.

Definition MAX_DIRECTIVES : Z := 2000.
Definition LINE_SIZE : nat := 2048.
Definition HASH : Z := ch "#".
Definition QUOTE : Z := 34.
Definition NEWLINE : Z := 10.

(** * A line *)

Definition strip_comment (line : list Z) : list Z :=
  match strchr line HASH with Some i => take i line | None => line end.

(** The characters up to one that [stop]s are copied to [d] from [i]: the array,
    where the next character would go, and the rest of the line. *)
Fixpoint copy_until (stop : Z -> bool) (s : list Z) (d : block) (i : Z) : res (block * Z * list Z) :=
  match s with
  | [] => Ret (d, i, [])
  | c :: s' => if stop c then Ret (d, i, s) else let+ d := stc d i c in copy_until stop s' d (i + 1)
  end.

(** A quote in front of the value. *)
Definition skip_quote (s : list Z) : bool * list Z :=
  match s with c :: s' => if c =? QUOTE then (true, s') else (false, s) | [] => (false, s) end.

Definition get_name_and_value (line : list Z) (name value : block) : res (Z * block * block) :=
  let s := skip_while isspace (strip_comment line) in
  match s with
  | [] => Ret (0, name, value)
  | _ :: _ =>
      let+ (name, i, s) := copy_until isspace s name 0 in
      match s with
      | [] => Ret (-1, name, value)
      | _ :: _ =>
          let+ name := stc name i 0 in
          let (quoted, s) := skip_quote (skip_while isspace s) in
          let+ (value, j, _) := copy_until (if quoted : bool then Z.eqb QUOTE else isspace) s value 0 in
          let+ value := stc value j 0 in
          let+ n := strlen name in
          Ret (if n =? 0 then -1 else 1, name, value)
      end
  end.

(** * The configuration *)

(** [nameval]; [used] is the length of the list. *)
Definition nameval : Set := list Z * list Z.
Definition configfile : Set := list nameval.

Definition sizeof_nameval : Z := 16.
Definition sizeof_configfile : Z := 16008.

Definition add (cf : configfile) (name value : list Z) : C (status * configfile) :=
  if MAX_DIRECTIVES <=? zlen cf then ret (failure, cf)
  else
    let* n := alloc_ok (zlen name + 1) in
    if negb n then ret (failure, cf)
    else
      let* v := alloc_ok (zlen value + 1) in
      if negb v then ret (failure, cf)
      else
        let* nv := alloc_ok sizeof_nameval in
        ret (if nv : bool then (success, cf ++ [(name, value)]) else (failure, cf)).

(** [fgets] with room for [n] bytes: the bytes stored before the terminator, and
    what is left of the file. *)
Definition fgets (n : nat) (f : list Z) : option (list Z * list Z) :=
  match f with
  | [] => None
  | _ :: _ =>
      let k := Nat.min (match strchr f NEWLINE with Some i => S i | None => length f end) (n - 1) in
      Some (take k f, drop k f)
  end.

(** The string in the array ends at the first zero. *)
Definition as_string (bs : list Z) : list Z := take (span_len (fun c => negb (c =? 0)) bs) bs.

(** The loop; [fuel] is more than the lines of the file. *)
Fixpoint read_lines (fuel : nat) (f : list Z) (name value : block) (cf : configfile) : C (option configfile) :=
  match fuel with
  | O => lift (Fault FuelOut)
  | S fuel =>
      match fgets LINE_SIZE f with
      | None => ret (Some cf)
      | Some (line, f) =>
          let* (i, name, value) := lift (get_name_and_value (as_string line) name value) in
          if i =? -1 then ret None
          else if i =? 1 then
            let* n := lift (str_at name) in
            let* v := lift (str_at value) in
            let* (st, cf) := add cf n v in
            match st with failure => ret None | success => read_lines fuel f name value cf end
          else read_lines fuel f name value cf
      end
  end.

(** [file]: the bytes of the file, [None] when it cannot be opened. *)
Definition configfile_read (file : option (list Z)) : C (option configfile) :=
  match file with
  | None => ret None
  | Some f =>
      let* ok := alloc_ok sizeof_configfile in
      if negb ok then ret None
      else read_lines (S (length f)) f (replicate LINE_SIZE None) (replicate LINE_SIZE None) []
  end.

Fixpoint find (cf : configfile) (name : list Z) : option nameval :=
  match cf with
  | [] => None
  | nv :: cf => if strcmp name nv.1 =? 0 then Some nv else find cf name
  end.

Definition configfile_exists (cf : configfile) (name : list Z) : bool :=
  match find cf name with Some _ => true | None => false end.

(** [cb]: the size of the array the value is copied to. *)
Definition configfile_get_string (cf : configfile) (name : list Z) (cb : Z) : res (errno + list Z) :=
  r_assert (1 <? cb);;
  Ret (match find cf name with
       | None => inl ENOENT
       | Some nv => if cb <? zlen nv.2 + 1 then inl ENOSPC else inr nv.2
       end).

(** Failure with the [errno] that was set, or with none, or the number. *)
Definition number : Type := option errno + Z.

Definition long_of (s : list Z) : number :=
  let '(v, e, _) := strtol 10 s in
  if (v =? LONG_MIN) || (v =? LONG_MAX) then inl e
  else if (v =? 0) && errno_is e EINVAL then inl e
  else inr v.

Definition configfile_get_long (cf : configfile) (name : list Z) : res number :=
  let+ r := configfile_get_string cf name 20 in
  Ret (match r with inl e => inl (Some e) | inr s => long_of s end).

Definition configfile_get_ulong (cf : configfile) (name : list Z) : res number :=
  let+ r := configfile_get_string cf name 20 in
  Ret (match r with
       | inl e => inl (Some e)
       | inr s => match long_of s with inl e => inl e | inr v => inr (u64 v) end
       end).

(** A number in a narrower type. *)
Definition narrow (lo hi : Z) (r : number) : number :=
  match r with
  | inl e => inl e
  | inr v => if (v <? lo) || (hi <? v) then inl (Some EINVAL) else inr v
  end.

Definition UINT_MAX : Z := 2 ^ 32 - 1.
Definition UINT16_MAX : Z := 2 ^ 16 - 1.

Definition configfile_get_uint (cf : configfile) (name : list Z) : res number :=
  let+ r := configfile_get_ulong cf name in Ret (narrow 0 UINT_MAX r).
Definition configfile_get_uint16_t (cf : configfile) (name : list Z) : res number :=
  let+ r := configfile_get_uint cf name in Ret (narrow 0 UINT16_MAX r).
Definition configfile_get_int (cf : configfile) (name : list Z) : res number :=
  let+ r := configfile_get_long cf name in Ret (narrow INT_MIN INT_MAX r).

(** * What a line says *)

Inductive said : Set := Nothing | Malformed | Directive (name value : list Z).

Definition word (stop : Z -> bool) (s : list Z) : list Z := take (span_len (fun c => negb (stop c)) s) s.
Definition behind (stop : Z -> bool) (s : list Z) : list Z := drop (span_len (fun c => negb (stop c)) s) s.

Definition line_says (line : list Z) : said :=
  match skip_while isspace (strip_comment line) with
  | [] => Nothing
  | s =>
      match behind isspace s with
      | [] => Malformed
      | r =>
          let (quoted, v) := skip_quote (skip_while isspace r) in
          Directive (word isspace s) (word (if quoted then Z.eqb QUOTE else isspace) v)
      end
  end.

Lemma copy_until_spec stop s a d :
  zlen (word stop s) <= zlen d ->
  copy_until stop s (a ++ d) (zlen a) =
    Ret (a ++ (Some <$> word stop s) ++ drop (length (word stop s)) d, zlen a + zlen (word stop s), behind stop s).
Proof.
  unfold word, behind. revert a d. induction s as [|c s IH]; intros a d Hd; cbn [copy_until span_len] in *.
  { cbn. by rewrite Z.add_0_r. }
  destruct (stop c) eqn:Hc; cbn [negb] in *.
  { cbn. by rewrite Z.add_0_r. }
  cbn [firstn skipn length fmap list_fmap] in *. rewrite zlen_cons in *. zlen_facts. destruct d as [|x d]; [rewrite zlen_nil in Hd; lia|].
  rewrite stc_app by done. cbn [res_bind]. rewrite zlen_cons in Hd.
  replace (zlen a + 1) with (zlen (a ++ [Some c])) by (rewrite zlen_app, zlen_cons, zlen_nil; lia).
  rewrite (cons_middle (Some c) a d), (app_assoc a [Some c] d), IH by lia.
  cbn [skipn]. rewrite zlen_app, zlen_cons, zlen_nil, <-app_assoc. do 3 f_equal. lia.
Qed.

(** The word is stored and terminated. *)
Lemma config_copy_word_spec stop s d :
  zlen (word stop s) < zlen d ->
  exists d', copy_until stop s d 0 = Ret (d', zlen (word stop s), behind stop s) /\ zlen d' = zlen d /\
    stc d' (zlen (word stop s)) 0 = Ret (cstr (word stop s) ++ drop (S (length (word stop s))) d).
Proof.
  intros Hd. pose proof (copy_until_spec stop s [] d ltac:(lia)) as Hc. cbn [app] in Hc.
  change (zlen ([] : block)) with 0 in Hc. rewrite Z.add_0_l in Hc. eexists. split; [exact Hc|].
  split; [unfold zlen in *; rewrite length_app, length_fmap, length_drop; lia|].
  destruct (drop (length (word stop s)) d) as [|x r] eqn:Hdrop.
  { apply (f_equal length) in Hdrop. rewrite length_drop in Hdrop. unfold zlen in Hd. cbn in Hdrop. lia. }
  rewrite stc_app by (by rewrite zlen_fmap). unfold cstr. rewrite <-app_assoc. cbn [app]. do 3 f_equal.
  rewrite <-Nat.add_1_r, <-drop_drop, Hdrop. done.
Qed.

Lemma word_chars stop s : Forall is_char s -> Forall is_char (word stop s) /\ Forall is_char (behind stop s).
Proof. intros Hs. split; [by apply Forall_take|by apply Forall_drop]. Qed.

Lemma word_behind stop s : zlen (word stop s) + zlen (behind stop s) = zlen s.
Proof. rewrite <-zlen_app. unfold word, behind. by rewrite take_drop. Qed.

Lemma skip_chars p s : Forall is_char s -> Forall is_char (skip_while p s) /\ zlen (skip_while p s) <= zlen s.
Proof.
  destruct (skip_while_suffix p s) as [w Hw]. rewrite Hw at 1. rewrite Forall_app. intros [_ ?]. split; [done|].
  rewrite Hw at 2. rewrite zlen_app. zlen_facts. lia.
Qed.

Lemma strip_chars s : Forall is_char s -> Forall is_char (strip_comment s) /\ zlen (strip_comment s) <= zlen s.
Proof.
  unfold strip_comment. destruct (strchr s HASH); [|done]. intros Hs. split; [by apply Forall_take|].
  unfold zlen. rewrite length_take. lia.
Qed.

Lemma skip_quote_chars s :
  Forall is_char s -> Forall is_char (skip_quote s).2 /\ zlen (skip_quote s).2 <= zlen s.
Proof.
  destruct s as [|c s]; [done|]. intros Hs%list.Forall_cons. cbn. rewrite zlen_cons.
  destruct (c =? QUOTE); cbn; rewrite ?zlen_cons; (split; [|lia]); [apply Hs|by apply list.Forall_cons].
Qed.

Lemma skip_while_head p s c s' : skip_while p s = c :: s' -> p c = false.
Proof. induction s as [|x s IH]; [done|]. cbn. destruct (p x) eqn:Hp; [done|]. by intros [= <- <-]. Qed.

(** The arrays have room for a line. *)
Lemma get_name_and_value_spec line name value :
  Forall is_char line -> zlen line < zlen name -> zlen line < zlen value ->
  wpr (get_name_and_value line name value) (fun '(i, name', value') =>
    zlen name' = zlen name /\ zlen value' = zlen value /\
    match line_says line with
    | Nothing => i = 0
    | Malformed => i = -1
    | Directive n v => i = 1 /\ Forall is_char n /\ Forall is_char v /\
        exists j1 j2, name' = cstr n ++ j1 /\ value' = cstr v ++ j2
    end).
Proof.
  intros Hl Hn Hv. unfold get_name_and_value, line_says.
  destruct (strip_chars line Hl) as [Hc1 Hl1]. destruct (skip_chars isspace _ Hc1) as [Hc2 Hl2].
  destruct (skip_while isspace (strip_comment line)) as [|c s0] eqn:Hs; [done|].
  pose proof (skip_while_head _ _ _ _ Hs) as Hhd. clear Hs. set (s := c :: s0) in *.
  assert (Hne : 0 < zlen (word isspace s)).
  { unfold word, s. cbn [span_len]. rewrite Hhd. cbn. zlen_facts. unfold zlen. cbn. lia. }
  clearbody s. clear c s0 Hhd. destruct (word_chars isspace s Hc2) as [Hw Hr]. pose proof (word_behind isspace s) as Hwb.
  zlen_facts. destruct (config_copy_word_spec isspace s name) as (d1 & -> & Hl5 & Hd1); [lia|]. cbn [res_bind].
  destruct (behind isspace s) as [|r0 r1].
  { wp. by split_and!. }
  set (r := r0 :: r1) in *. clearbody r. clear r0 r1. rewrite Hd1. cbn [res_bind].
  destruct (skip_chars isspace r Hr) as [Hc3 Hl3]. destruct (skip_quote_chars _ Hc3) as [Hc4 Hl4].
  destruct (skip_quote (skip_while isspace r)) as [quoted t]. cbn [snd] in *.
  set (stop := if quoted then Z.eqb QUOTE else isspace). destruct (word_chars stop t Hc4) as [Hw2 _].
  pose proof (word_behind stop t) as Hwb2. zlen_facts.
  destruct (config_copy_word_spec stop t value) as (d2 & -> & _ & Hd2); [lia|]. cbn [res_bind]. rewrite Hd2. cbn [res_bind].
  change (cstr (word isspace s) ++ drop (S (length (word isspace s))) name)
    with (((Some <$> word isspace s) ++ [Some 0]) ++ drop (S (length (word isspace s))) name) at 1.
  rewrite <-app_assoc. cbn [app]. rewrite strlen_cstr by done. cbn [res_bind wpr].
  rewrite (proj2 (Z.eqb_neq _ _)) by lia.
  assert (Hlen : forall w d, zlen w < zlen d -> zlen (cstr w ++ drop (S (length w)) d) = zlen d).
  { intros w d Hlt. rewrite zlen_app, zlen_cstr. unfold zlen in *. rewrite length_drop. lia. }
  split; [apply Hlen; lia|]. split; [apply Hlen; lia|]. split; [done|]. split; [exact Hw|]. split; [exact Hw2|].
  by eexists _, _.
Qed.

(** * A file *)

Lemma as_string_chars bs :
  Forall (fun c => 0 <= c <= 255) bs -> Forall is_char (as_string bs) /\ zlen (as_string bs) <= zlen bs.
Proof.
  intros Hb. unfold as_string. pose proof (span_len_take (fun c => negb (c =? 0)) bs) as Hn.
  set (n := span_len _ bs) in *. split.
  - apply list.Forall_forall. intros c Hc. pose proof (proj1 (list.Forall_forall _ _) Hn c Hc) as Hz.
    apply negb_true_iff, Z.eqb_neq in Hz.
    assert (Hin : c ∈ bs) by (rewrite <-(take_drop n bs); apply elem_of_app; by left).
    pose proof (proj1 (list.Forall_forall _ _) Hb c Hin) as Hr. cbn in Hr. unfold is_char. lia.
  - unfold zlen. rewrite length_take. lia.
Qed.

Lemma as_string_id s : Forall is_char s -> as_string s = s.
Proof.
  unfold as_string. induction 1 as [|c s Hc _ IH]; [done|]. cbn [span_len].
  rewrite is_char_nonzero by done. cbn [negb]. cbn [firstn]. by rewrite IH.
Qed.

Lemma fgets_spec f line f' :
  Forall (fun c => 0 <= c <= 255) f -> fgets LINE_SIZE f = Some (line, f') ->
  Forall (fun c => 0 <= c <= 255) line /\ zlen line < 2048 /\ Forall (fun c => 0 <= c <= 255) f' /\
  (length f' < length f)%nat.
Proof.
  unfold fgets. destruct f as [|c f]; [done|]. intros Hf. set (k := Nat.min _ _). intros [= <- <-].
  assert (Hk : (0 < k <= 2047)%nat).
  { unfold k. change (LINE_SIZE - 1)%nat with 2047%nat. split; [|lia]. destruct (strchr _ _); cbn [length]; lia. }
  clearbody k. split; [by apply Forall_take|]. split; [unfold zlen; rewrite length_take; lia|].
  split; [by apply Forall_drop|]. rewrite length_drop. cbn [length]. lia.
Qed.

(** The lines of a text file. *)
Definition config_text (lines : list (list Z)) : list Z := concat ((fun l => l ++ [NEWLINE]) <$> lines).
Definition line_ok (l : list Z) : Prop := Forall is_char l /\ Forall (fun c => c <> NEWLINE) l /\ zlen l <= 2046.
Definition says (l : list Z) : said := line_says (l ++ [NEWLINE]).
Definition directive (s : said) : option nameval := match s with Directive n v => Some (n, v) | _ => None end.
Definition directives (lines : list (list Z)) : configfile := omap (fun l => directive (says l)) lines.

Lemma fgets_cut n l rest :
  Forall (fun c => c <> NEWLINE) l -> (S (length l) < n)%nat ->
  fgets n (l ++ NEWLINE :: rest) = Some (l ++ [NEWLINE], rest).
Proof.
  intros Hn Hl. unfold fgets. destruct (l ++ NEWLINE :: rest) as [|c f] eqn:Hf; [by destruct l|].
  rewrite <-Hf. rewrite strchr_app by done. rewrite Nat.min_l by lia.
  rewrite (cons_middle NEWLINE l rest), app_assoc.
  replace (S (length l)) with (length (l ++ [NEWLINE])) by (rewrite length_app; simpl; lia).
  by rewrite take_app_length, drop_app_length.
Qed.
Lemma fgets_line l rest :
  line_ok l -> fgets LINE_SIZE (l ++ NEWLINE :: rest) = Some (l ++ [NEWLINE], rest).
Proof. intros (_ & Hn & Hl). apply fgets_cut; [done|]. unfold LINE_SIZE, zlen in *. lia. Qed.

Lemma small_alloc n o (Q : bool -> oracle -> Prop) :
  n <= PTRDIFF_MAX -> (forall b o', (o = [] -> o' = [] /\ b = true) -> Q b o') -> wp (alloc_ok n) o Q.
Proof.
  intros Hn HQ. apply wp_alloc_ok. intros b o' _ Ho. apply HQ. intros Hoo. destruct (Ho Hoo) as [-> ->].
  split; [done|]. by apply Z.leb_le.
Qed.

Lemma add_spec cf n v o :
  zlen n < 2048 -> zlen v < 2048 ->
  wp (add cf n v) o (fun '(st, cf') o' =>
    (st = success -> cf' = cf ++ [(n, v)] /\ zlen cf < MAX_DIRECTIVES) /\
    (o = [] -> o' = [] /\ (zlen cf < MAX_DIRECTIVES -> st = success))).
Proof.
  intros Hn Hv. unfold add. destruct (Z.leb_spec MAX_DIRECTIVES (zlen cf)); [wp; split; [done|split; [done|lia]]|].
  apply wp_bind, small_alloc; [unfold PTRDIFF_MAX; lia|]. intros [|] o1 H1; cbn [negb].
  2: { apply wp_ret. split; [done|]. intros Hoo. by destruct (H1 Hoo). }
  apply wp_bind, small_alloc; [unfold PTRDIFF_MAX; lia|]. intros [|] o2 H2; cbn [negb].
  2: { apply wp_ret. split; [done|]. intros Hoo. destruct (H1 Hoo) as [-> _]. by destruct (H2 eq_refl). }
  apply wp_bind, small_alloc; [done|]. intros [|] o3 H3; apply wp_ret.
  - split; [by split|]. intros Hoo. destruct (H1 Hoo) as [-> _]. destruct (H2 eq_refl) as [-> _]. by destruct (H3 eq_refl).
  - split; [done|]. intros Hoo. destruct (H1 Hoo) as [-> _]. destruct (H2 eq_refl) as [-> _]. by destruct (H3 eq_refl).
Qed.

(** ** Reading *)

Definition arrays (name value : block) : Prop := zlen name = 2048 /\ zlen value = 2048.

(** A line of any kind is read within the arrays. *)
Lemma config_read_line_spec line name value :
  Forall is_char line -> zlen line < 2048 -> arrays name value ->
  wpr (get_name_and_value line name value) (fun '(i, name', value') =>
    arrays name' value' /\
    match line_says line with
    | Nothing => i = 0
    | Malformed => i = -1
    | Directive n v => i = 1 /\ str_at name' = Ret n /\ str_at value' = Ret v /\ zlen n < 2048 /\ zlen v < 2048
    end).
Proof.
  intros Hl Hlen [Hn Hv]. eapply wpr_mono; [apply get_name_and_value_spec; [done|lia|lia]|].
  intros [[i name'] value'] (Hn' & Hv' & Hs). rewrite Hn in Hn'. rewrite Hv in Hv'. split; [done|].
  destruct (line_says line) as [| |n v]; [done|done|]. destruct Hs as (-> & Hcn & Hcv & j1 & j2 & -> & ->).
  rewrite !str_at_here by done. rewrite zlen_app, zlen_cstr in Hn', Hv'. zlen_facts. repeat (split; [done|]). lia.
Qed.

Lemma read_lines_total fuel f name value cf o :
  Forall (fun c => 0 <= c <= 255) f -> (length f < fuel)%nat -> arrays name value ->
  wp (read_lines fuel f name value cf) o (fun _ _ => True).
Proof.
  revert f name value cf o. induction fuel as [|fuel IH]; intros f name value cf o Hf Hfuel Ha; [lia|].
  cbn [read_lines]. destruct (fgets LINE_SIZE f) as [[line f']|] eqn:Hg; [|done].
  destruct (fgets_spec _ _ _ Hf Hg) as (Hl & Hlen & Hf' & Hlt). destruct (as_string_chars line Hl) as [Hc Hle].
  apply wp_bind, wp_lift. eapply wpr_mono; [apply config_read_line_spec; [exact Hc|lia|exact Ha]|].
  intros [[i name'] value'] [Ha' Hs].
  assert (Hnext : forall cf o, wp (read_lines fuel f' name' value' cf) o (fun _ _ => True))
    by (intros; apply IH; [done|lia|done]).
  destruct (line_says _) as [| |n v]; [subst i; apply Hnext|by subst i|].
  destruct Hs as (-> & Hn & Hv & Hnl & Hvl). cbn [Z.eqb].
  apply wp_bind, wp_lift. rewrite Hn. cbn [wpr]. apply wp_bind, wp_lift. rewrite Hv. cbn [wpr].
  apply wp_bind. eapply wp_mono; [by apply add_spec|]. intros [[|] cf'] o1 _; [done|apply Hnext].
Qed.

(** What reading makes of lines, when [cf] has been read before them. *)
Definition reads_to (cf : configfile) (lines : list (list Z)) (o : oracle) (r : option configfile) : Prop :=
  (forall cf', r = Some cf' ->
     Forall (fun l => says l <> Malformed) lines /\ cf' = cf ++ directives lines /\
     (directives lines = [] \/ zlen cf' <= MAX_DIRECTIVES)) /\
  (o = [] -> Forall (fun l => says l <> Malformed) lines -> zlen (cf ++ directives lines) <= MAX_DIRECTIVES -> is_Some r).

Lemma read_lines_spec lines fuel name value cf o :
  Forall line_ok lines -> (length (config_text lines) < fuel)%nat -> arrays name value ->
  wp (read_lines fuel (config_text lines) name value cf) o (fun r o' => reads_to cf lines o r /\ (o = [] -> o' = [])).
Proof.
  intros Hl. revert fuel name value cf o.
  induction Hl as [|l lines Hl _ IH]; intros [|fuel] name value cf o Hfuel Ha; try (cbn in Hfuel; lia).
  { cbn [read_lines config_text fmap list_fmap concat fgets]. apply wp_ret. split; [|done]. split; [|by eexists].
    intros cf' [= <-]. split; [done|]. unfold directives. cbn. rewrite app_nil_r. split; [done|by left]. }
  change (config_text (l :: lines)) with ((l ++ [NEWLINE]) ++ config_text lines) in *.
  rewrite <-app_assoc in *. cbn [app] in *. cbn [read_lines]. rewrite fgets_line by done.
  assert (Hfuel' : (length (config_text lines) < fuel)%nat) by (rewrite length_app in Hfuel; cbn in Hfuel; lia).
  pose proof Hl as (Hc & _ & Hlen).
  assert (Hc' : Forall is_char (l ++ [NEWLINE])) by (apply Forall_app; split; [done|decide_closed]).
  rewrite as_string_id by done. apply wp_bind, wp_lift.
  eapply wpr_mono; [apply config_read_line_spec; [exact Hc'|rewrite zlen_app, zlen_cons, zlen_nil; lia|exact Ha]|].
  intros [[i name'] value'] [Ha' Hs]. fold (says l) in Hs.
  unfold reads_to. unfold directives at 1 2 3. cbn [omap list_omap]. fold (directives lines).
  destruct (says l) as [| |n v] eqn:Hsay; cbn [directive].
  - subst i. eapply wp_mono; [by apply IH|]. intros r o1 [[H1 H2] H3]. split; [split|exact H3].
    + intros cf' Hr. destruct (H1 cf' Hr) as [HF Hrest]. split; [|exact Hrest]. constructor; [congruence|exact HF].
    + intros Hoo HF%list.Forall_cons. apply H2; [done|apply HF].
  - subst i. apply wp_ret. split; [|done]. split; [done|]. intros _ HF%list.Forall_cons. by destruct HF.
  - destruct Hs as (-> & Hn & Hv & Hnl & Hvl). cbn [Z.eqb].
    apply wp_bind, wp_lift. rewrite Hn. cbn [wpr]. apply wp_bind, wp_lift. rewrite Hv. cbn [wpr].
    apply wp_bind. eapply wp_mono; [by apply add_spec|]. intros [st cf1] o1 [Hst Ho]. destruct st.
    + apply wp_ret. split; [|intros Hoo; by apply Ho]. split; [done|]. intros Hoo _ Hm. zlen_facts.
      rewrite zlen_app, zlen_cons in Hm. zlen_facts. destruct (Ho Hoo) as [_ Hf]. exfalso. cut (failure = success); [done|apply Hf; lia].
    + destruct (Hst eq_refl) as [-> Hcf]. eapply wp_mono; [by apply IH|]. intros r o2 [[H1 H2] H3].
      rewrite <-app_assoc in H1, H2. cbn [app] in H1, H2. split; [split|intros Hoo; by apply H3, Ho].
      * intros cf' Hr. destruct (H1 cf' Hr) as (HF & Heq & Hm).
        split; [constructor; [congruence|exact HF]|]. split; [exact Heq|]. right.
        destruct Hm as [Hm|Hm]; [|exact Hm]. rewrite Heq, Hm, zlen_app, zlen_cons, zlen_nil. lia.
      * intros Hoo HF%list.Forall_cons Hm. zlen_facts.
        
        apply H2; [by apply Ho|apply HF|done].
Qed.

(** ** Writing *)

Definition written (nv : nameval) : list Z := nv.1 ++ [32; QUOTE] ++ nv.2 ++ [QUOTE].

Definition plain (c : Z) : Prop := is_char c /\ c <> HASH /\ c <> NEWLINE.
Definition nameval_ok (nv : nameval) : Prop :=
  nv.1 <> [] /\ Forall (fun c => plain c /\ isspace c = false) nv.1 /\
  Forall (fun c => plain c /\ c <> QUOTE) nv.2 /\ zlen nv.1 + zlen nv.2 <= 2043.

Lemma word_app stop a c b :
  Forall (fun x => stop x = false) a -> stop c = true ->
  word stop (a ++ c :: b) = a /\ behind stop (a ++ c :: b) = c :: b.
Proof.
  unfold word, behind. intros Ha Hc. induction Ha as [|x a Hx _ [IH1 IH2]]; cbn [app span_len].
  { rewrite Hc. done. }
  rewrite Hx. cbn [negb firstn skipn]. by rewrite IH1, IH2.
Qed.

Lemma strip_plain s : Forall (fun c => c <> HASH) s -> strip_comment s = s.
Proof. intros Hs. unfold strip_comment. by rewrite strchr_none. Qed.

Lemma says_written nv : nameval_ok nv -> says (written nv) = Directive nv.1 nv.2.
Proof.
  intros (Hne & Hn & Hv & _). destruct nv as [n v]. cbn [fst snd] in *. unfold says, written, line_says. cbn [fst snd].
  rewrite strip_plain.
  2: { rewrite !Forall_app. split_and!; try (repeat constructor; discriminate).
       - eapply list.Forall_impl; [exact Hn|]. by intros c [(_ & ? & _) _].
       - eapply list.Forall_impl; [exact Hv|]. by intros c [(_ & ? & _) _]. }
  rewrite <-!app_assoc. cbn [app].
  assert (Hsp : Forall (fun c => isspace c = false) n) by (eapply list.Forall_impl; [exact Hn|]; by intros c [_ ?]).
  destruct (word_app isspace n 32 (QUOTE :: v ++ QUOTE :: [NEWLINE]) Hsp eq_refl) as [Hw Hb].
  destruct n as [|c n]; [done|]. cbn [app skip_while]. rewrite (proj1 (proj1 (list.Forall_cons _ _ _) Hsp)).
  change (c :: n ++ 32 :: QUOTE :: v ++ QUOTE :: [NEWLINE]) with ((c :: n) ++ 32 :: QUOTE :: v ++ QUOTE :: [NEWLINE]).
  rewrite Hw, Hb.
  change (skip_quote _) with (true, v ++ [QUOTE; NEWLINE]). cbn iota.
  assert (Hq : Forall (fun x => (QUOTE =? x) = false) v).
  { eapply list.Forall_impl; [exact Hv|]. intros x [_ Hx]. apply Z.eqb_neq. congruence. }
  by destruct (word_app (Z.eqb QUOTE) v QUOTE [NEWLINE] Hq (Z.eqb_refl _)) as [-> _].
Qed.

Lemma written_ok nv : nameval_ok nv -> line_ok (written nv).
Proof.
  intros (Hne & Hn & Hv & Hl). unfold line_ok, written. rewrite !Forall_app. split_and!.
  - eapply list.Forall_impl; [exact Hn|]. by intros c [(? & _) _].
  - decide_closed.
  - eapply list.Forall_impl; [exact Hv|]. by intros c [(? & _) _].
  - decide_closed.
  - eapply list.Forall_impl; [exact Hn|]. by intros c [(_ & _ & ?) _].
  - decide_closed.
  - eapply list.Forall_impl; [exact Hv|]. by intros c [(_ & _ & ?) _].
  - decide_closed.
  - rewrite !zlen_app. change (zlen [32; QUOTE]) with 2. change (zlen [QUOTE]) with 1. lia.
Qed.

Lemma directives_written cf :
  Forall nameval_ok cf ->
  directives (written <$> cf) = cf /\ Forall line_ok (written <$> cf) /\
  Forall (fun l => says l <> Malformed) (written <$> cf).
Proof.
  induction 1 as [|nv cf Hnv _ (H1 & H2 & H3)]; [done|]. cbn [fmap list_fmap]. unfold directives. cbn [omap list_omap].
  rewrite says_written by done. cbn [directive]. fold (directives (written <$> cf)). rewrite H1. split; [by destruct nv|].
  split; constructor; [by apply written_ok|done| |done]. by rewrite says_written.
Qed.

Lemma configfile_read_spec lines o :
  Forall line_ok lines ->
  wp (configfile_read (Some (config_text lines))) o (fun r o' => reads_to [] lines o r /\ (o = [] -> o' = [])).
Proof.
  intros Hl. unfold configfile_read. apply wp_bind, small_alloc; [done|]. intros [|] o1 Ho; cbn [negb].
  - eapply wp_mono; [apply read_lines_spec; [done|lia|by split]|]. intros r o2 [[H1 H2] H3].
    split; [split; [exact H1|]|]; intros Hoo; [apply H2|apply H3]; by destruct (Ho Hoo).
  - apply wp_ret. split; [|intros Hoo; by destruct (Ho Hoo)]. split; [done|]. intros Hoo. by destruct (Ho Hoo).
Qed.

(** * The properties *)

(** Any file can be read: whatever its bytes are, lines of any length
    included, and whatever the allocator does, [configfile_read] returns, and
    stays within its three arrays. *)
Theorem configfile_read_total (f : list Z) o :
  Forall (fun c => 0 <= c <= 255) f -> wp (configfile_read (Some f)) o (fun _ _ => True).
Proof.
  intros Hf. unfold configfile_read. apply wp_bind, small_alloc; [done|]. intros [|] o1 _; [|done]. cbn [negb].
  apply read_lines_total; [done|lia|by split].
Qed.

(** C34. What a file says is read.  Of a file of lines that fit [fgets] there are
    the directives of its lines, in order, unless a line is malformed or there are
    more than 2000 of them; and the lines that are written for directives, with
    the value in quotes, say these directives. *)
Theorem configfile_roundtrip lines o :
  Forall line_ok lines ->
  wp (configfile_read (Some (config_text lines))) o (fun r _ =>
    (forall cf, r = Some cf ->
       Forall (fun l => says l <> Malformed) lines /\ cf = directives lines /\
       (directives lines = [] \/ zlen cf <= MAX_DIRECTIVES)) /\
    (o = [] -> Forall (fun l => says l <> Malformed) lines -> zlen (directives lines) <= MAX_DIRECTIVES -> is_Some r) /\
    (forall cf, Forall nameval_ok cf -> lines = written <$> cf ->
       directives lines = cf /\ Forall (fun l => says l <> Malformed) lines)).
Proof.
  intros Hl. eapply wp_mono; [by apply configfile_read_spec|]. intros r o' [[H1 H2] _].
  split; [exact H1|]. split; [exact H2|]. intros cf Hcf ->. destruct (directives_written cf Hcf) as (Hd & _ & Hm). by split.
Qed.

Definition sample_lines : list (list Z) :=
  [bytes "# a comment"; []; bytes "  port  8080   # the port"; written (bytes "hostname", bytes "my host")].

Lemma configfile_read_total_witness :
  Forall (fun c => 0 <= c <= 255) (config_text sample_lines) /\
  wp (configfile_read (Some (config_text sample_lines))) [true; false] (fun _ _ => True).
Proof.
  assert (H : Forall (fun c => 0 <= c <= 255) (config_text sample_lines)) by decide_closed.
  split; [exact H|exact (configfile_read_total _ _ H)].
Defined.

Lemma configfile_roundtrip_witness :
  directives sample_lines = [(bytes "port", bytes "8080"); (bytes "hostname", bytes "my host")] /\
  wp (configfile_read (Some (config_text sample_lines))) [] (fun r _ =>
    (forall cf, r = Some cf ->
       Forall (fun l => says l <> Malformed) sample_lines /\ cf = directives sample_lines /\
       (directives sample_lines = [] \/ zlen cf <= MAX_DIRECTIVES)) /\
    (([] : oracle) = [] -> Forall (fun l => says l <> Malformed) sample_lines ->
       zlen (directives sample_lines) <= MAX_DIRECTIVES -> is_Some r) /\
    (forall cf, Forall nameval_ok cf -> sample_lines = written <$> cf ->
       directives sample_lines = cf /\ Forall (fun l => says l <> Malformed) sample_lines)).
Proof.
  split; [by vm_compute|]. apply configfile_roundtrip. unfold line_ok. repeat constructor; decide_closed.
Defined.
