(* ===== verification/Process.v ===== *)
(** Process: starting and stopping the services of a process, of
    meta/src/meta_process.c.

    The functions of a service are parameters, what they answer for its object.
    What the system answers to the calls that start a process is the record
    [system].  A function returns the [event]s it causes, in order: calls of the
    functions of the services, threads that are created, killed and joined, and
    what becomes of the user and the root directory.

    [process_start_balanced] says what a start that fails takes back,
    [process_keeps_first_user] which user the process runs as, and
    [exitcode_lost] that the exit codes are not stored. *)

From Stdlib Require Import ZArith Lia.
From stdpp Require Import base list numbers.
From S2P Require Import Prelude Convert Cstring ConfigFile.

Definition MAX_SERVICES : Z := 200.

Section Process.
(** What a service works on. *)
Context {object : Type} `{EqDecision object}.

(** * Data *)

(** [tid]: the thread was created. *)
Record service : Type := Service {
  sv_object : object;
  do_func : option (object -> status);
  undo_func : option (object -> status);
  run_func : object -> status;
  shutdown_func : object -> status;
  tid : bool;
  exitcode : Z;
}.

(** [nservices] is the length of the list; [sdt]: the shutdown thread was created. *)
Record process : Type := Process {
  appname : cstring;
  rootdir : cstring;
  username : cstring;
  services : list service;
  shutting_down : bool;
  sdt : bool;
  main_perms : option (list Z);
}.

Definition sizeof_process : Z := 11280.

Definition with_services (l : list service) (p : process) : process :=
  Process (appname p) (rootdir p) (username p) l (shutting_down p) (sdt p) (main_perms p).
Definition with_thread (p : process) : process :=
  Process (appname p) (rootdir p) (username p) (services p) (shutting_down p) true (main_perms p).
Definition with_shutting_down (p : process) : process :=
  Process (appname p) (rootdir p) (username p) (services p) true (sdt p) (main_perms p).

Definition process_new (name : list Z) : C (option process) :=
  c_assert (0 <? zlen name);;
  let* ok := alloc_ok sizeof_process in
  if negb ok then ret None
  else
    let* r := cstring_new in
    match r with
    | None => ret None
    | Some r =>
        let* a := cstring_dup name in
        match a with
        | None => ret None
        | Some a =>
            let* u := cstring_new in
            ret (match u with None => None | Some u => Some (Process a r u [] false false None) end)
        end
    end.

Definition process_set_seccomp (p : process) (perms : list Z) : process :=
  Process (appname p) (rootdir p) (username p) (services p) (shutting_down p) (sdt p) (Some perms).

Definition process_set_rootdir (p : process) (path : list Z) : C (status * process) :=
  let* (st, s) := cstring_set (rootdir p) path in
  ret (st, Process (appname p) s (username p) (services p) (shutting_down p) (sdt p) (main_perms p)).
Definition process_set_username (p : process) (name : list Z) : C (status * process) :=
  let* (st, s) := cstring_set (username p) name in
  ret (st, Process (appname p) (rootdir p) s (services p) (shutting_down p) (sdt p) (main_perms p)).

Definition given {A} (f : option A) : bool := match f with Some _ => true | None => false end.

Definition process_add_object_to_start (p : process) (o : object) (dof undof : option (object -> status))
    (runf shutf : object -> status) : res (option errno * process) :=
  r_assert (given dof || negb (given undof));;
  r_assert (given undof || negb (given dof));;
  if zlen (services p) =? MAX_SERVICES then Ret (Some ENOSPC, p)
  else Ret (None, with_services (services p ++ [Service o dof undof runf shutf false (-1)]) p).

Definition process_shutting_down (p : process) : bool := shutting_down p.

(** * The system *)

Inductive fork_result : Set := Fork_fails | Parent | Child.

(** [signals]: what [signal], [sigemptyset], [sigaddset] and [pthread_sigmask] do;
    [passwd]: the file of the users; [thread i]: the thread of the service [i] is
    created; [joins]: what [pthread_join] returns for the shutdown thread and for
    the services; [schedule]: who goes on after the shutdown thread was sent
    SIGTERM, that thread at each [true] and the thread of [process_start] at each
    [false]. *)
Record system : Type := System {
  forks : fork_result;
  signals : bool * bool * bool * bool;
  creates_sdt : bool;
  passwd : option (list Z);
  chdir : bool;
  chroot : bool;
  setuid : bool;
  thread : nat -> bool;
  joins_sdt : option errno;
  joins : nat -> option errno;
  schedule : list bool;
}.

Inductive event : Type :=
| Did (o : object) (st : status)
| Undid (o : object)
| Shut (o : object)
| Created (o : object)
| Joined (o : object) (code : status)
| Watching
| Killed
| Flagged
| Rooted (path : list Z)
| Became (uid : Z).

Definition set_signals_to_block (sys : system) : status :=
  let '(ignored, emptied, added, masked) := signals sys in
  if negb ignored then failure
  else if negb emptied then failure
  else if negb added then failure
  else if negb masked then failure
  else success.

(** The name of the file for the process number: [fopens] says which can be
    opened, [prints] and [closes] whether it is written. *)
Definition SIZEOF_FILENAME : nat := 1024.
Definition pid_file (dir : list Z) (name : list Z) : list Z :=
  take (SIZEOF_FILENAME - 1) (dir ++ name ++ bytes ".pid").
Definition write_pid (fopens : list Z -> bool) (prints closes : bool) (p : process) : res (status * option (list Z)) :=
  let+ name := str_at (c_str (appname p)) in
  let f := pid_file (bytes "/var/run/highlander/") name in
  let local := pid_file (bytes "./") name in
  if negb (fopens f) && negb (fopens local) then Ret (failure, None)
  else Ret (if negb prints then failure else if closes : bool then success else failure,
            Some (if fopens f then f else local)).

(** The shutdown thread, once SIGTERM has come: it sets the flag and calls the
    last function of every service, also of one that has no thread. *)
Definition shutdown_thread (p : process) : process * list event :=
  (with_shutting_down p, Flagged :: ((fun s => Shut (sv_object s)) <$> services p)).

(** Two threads: [main] and [other] are what each of them still does.  A thread
    that has nothing left to do loses its turn.  When the schedule ends the main thread has returned,
    and what is left of the other one comes later. *)
Fixpoint side_by_side (sched : list bool) (main other : list event) : list event :=
  match sched with
  | [] => main
  | true :: sched =>
      match other with
      | [] => side_by_side sched main []
      | e :: other => e :: side_by_side sched main other
      end
  | false :: sched =>
      match main with
      | [] => side_by_side sched [] other
      | e :: main => e :: side_by_side sched main other
      end
  end.

(** SIGTERM wakes the shutdown thread.  [main]: what is done after the signal. *)
Definition stop_shutdown_thread (sys : system) (p : process) (main : list event) : process * list event :=
  let (down, other) := shutdown_thread p in
  (if existsb id (schedule sys) then down else p, Killed :: side_by_side (schedule sys) main other).

Definition start_shutdown_thread (sys : system) (p : process) : status * process * list event :=
  match set_signals_to_block sys with
  | failure => (failure, p, [])
  | success => if creates_sdt sys then (success, with_thread p, [Watching]) else (failure, p, [])
  end.

(** The status a thread ends with. *)
Definition launcher (s : service) : status := run_func s (sv_object s).

(** * Starting *)

(** [i]: the index of the first service of the list; [failed]: the index of the
    service that failed, [None] for NULL. *)
Fixpoint undo_loop (l : list service) (i : nat) (failed : option nat) : list event :=
  match l with
  | [] => []
  | s :: l =>
      if decide (failed = Some i) then []
      else (match undo_func s with Some _ => [Undid (sv_object s)] | None => [] end) ++ undo_loop l (S i) failed
  end.
Definition process_run_undo_functions (p : process) (failed : option nat) : list event :=
  undo_loop (services p) 0 failed.

Fixpoint do_loop (l : list service) (i : nat) : option nat * list event :=
  match l with
  | [] => (None, [])
  | s :: l =>
      match do_func s with
      | None => do_loop l (S i)
      | Some f =>
          match f (sv_object s) with
          | failure => (Some i, [Did (sv_object s) failure])
          | success => let (r, t) := do_loop l (S i) in (r, Did (sv_object s) success :: t)
          end
      end
  end.
Definition process_run_do_functions (p : process) : status * list event :=
  match do_loop (services p) 0 with
  | (None, t) => (success, t)
  | (Some i, t) => (failure, t ++ process_run_undo_functions p (Some i))
  end.

Fixpoint stop_loop (l : list service) (i : nat) (failed : option nat) : res (list event) :=
  match l with
  | [] => Ret []
  | s :: l =>
      if decide (failed = Some i) then Ret []
      else
        r_assert (tid s);;
        let+ t := stop_loop l (S i) failed in
        Ret (Shut (sv_object s) :: Joined (sv_object s) (launcher s) :: t)
  end.
Definition process_stop_services (p : process) (failed : option nat) : res (list event) :=
  stop_loop (services p) 0 failed.

(** The thread of a service is created. *)
Definition start_one_service (s : service) : service :=
  Service (sv_object s) (do_func s) (undo_func s) (run_func s) (shutdown_func s) true (exitcode s).

(** [done]: the services that were started. *)
Fixpoint start_loop (sys : system) (done l : list service) (p : process) : res (status * process * list event) :=
  match l with
  | [] => Ret (success, with_services done p, [])
  | s :: l =>
      if thread sys (length done) then
        let+ (st, p, t) := start_loop sys (done ++ [start_one_service s]) l p in
        Ret (st, p, Created (sv_object s) :: t)
      else
        let p := with_services (done ++ s :: l) p in
        let+ t := process_stop_services p (Some (length done)) in
        let (p, u) := stop_shutdown_thread sys p [] in
        Ret (failure, p, t ++ u)
  end.
Definition process_start_services (sys : system) (p : process) : res (status * process * list event) :=
  start_loop sys [] (services p) p.

Definition process_change_rootdir (sys : system) (p : process) : res (status * process * list event) :=
  let+ n := cstring_length (rootdir p) in
  if 0 <? n then
    let+ path := str_at (c_str (rootdir p)) in
    if negb (chdir sys) || negb (chroot sys) then
      let (p, t) := stop_shutdown_thread sys p (process_run_undo_functions p None) in
      Ret (failure, p, t)
    else Ret (success, p, [Rooted path])
  else Ret (success, p, []).

(** The lines of the file of users; [fuel] is more than their number. *)
Fixpoint uid_loop (fuel : nat) (f : list Z) (name : cstring) : C (option Z) :=
  match fuel with
  | O => lift (Fault FuelOut)
  | S fuel =>
      match fgets 1024 f with
      | None => ret None
      | Some (line, f) =>
          let* (n, dest) := cstring_split (as_string line) (bytes ":") in
          match (if n =? 7 then dest else None) with
          | Some (d0 :: _ :: d2 :: _) =>
              let* eq := lift (cstring_equal name d0) in
              if negb eq then
                let* suid := lift (str_at (c_str d2)) in
                match (if isuint suid then touint suid else inl EINVAL) with
                | inr uid => ret (Some uid)
                | inl _ => lift (Fault Died)
                end
              else uid_loop fuel f name
          | _ => lift (Fault Died)
          end
      end
  end.
(** The status, and the number that was stored. *)
Definition get_uid_from_etc_passwd (sys : system) (name : cstring) : C (status * option Z) :=
  match passwd sys with
  | None => ret (failure, None)
  | Some f => let* uid := uid_loop (S (length f)) f name in ret (success, uid)
  end.

Inductive outcome : Set := Exits | Returns (st : status).

(** [setuid] of a number that was not stored. *)
Definition read_uid (uid : option Z) : res Z := match uid with Some u => Ret u | None => Fault Uninitialised end.

(** The user and the root directory, between the shutdown thread and the services. *)
Definition change_user (sys : system) (p : process) : C (status * process * list event) :=
  let* n := lift (cstring_length (username p)) in
  if 0 <? n then
    let* (found, uid) := get_uid_from_etc_passwd sys (username p) in
    match found with
    | failure =>
        let (p, t) := stop_shutdown_thread sys p (process_run_undo_functions p None) in
        ret (failure, p, t)
    | success =>
        let* (st, p, t) := lift (process_change_rootdir sys p) in
        match st with
        | failure => ret (failure, p, t)
        | success =>
            let* u := lift (read_uid uid) in
            if setuid sys then ret (success, p, t ++ [Became u])
            else
              let undone := process_run_undo_functions p None in
              let (p, u) := stop_shutdown_thread sys p [] in
              ret (failure, p, t ++ undone ++ u)
        end
    end
  else lift (process_change_rootdir sys p).

Definition process_start (sys : system) (p : process) (fork_and_close : bool) : C (outcome * process * list event) :=
  match (if fork_and_close then forks sys else Child) with
  | Fork_fails => ret (Returns failure, p, [])
  | Parent => ret (Exits, p, [])
  | Child =>
      let (rc, t0) := process_run_do_functions p in
      match rc with
      | failure => ret (Returns failure, p, t0)
      | success =>
          let '(rc, p, t1) := start_shutdown_thread sys p in
          match rc with
          | failure => ret (Returns failure, p, t0 ++ t1 ++ process_run_undo_functions p None)
          | success =>
              let* (rc, p, t2) := change_user sys p in
              match rc with
              | failure => ret (Returns failure, p, t0 ++ t1 ++ t2)
              | success =>
                  let* (rc, p, t3) := lift (process_start_services sys p) in
                  ret (Returns rc, p, t0 ++ t1 ++ t2 ++ t3)
              end
          end
      end
  end.

(** * Waiting *)

(** The exit code of a thread is stored in a local variable. *)
Fixpoint join_loop (sys : system) (l : list service) (i : nat) : res (option errno * list event) :=
  match l with
  | [] => Ret (None, [])
  | s :: l =>
      r_assert (tid s);;
      match joins sys i with
      | Some e => Ret (Some e, [])
      | None =>
          let+ (e, t) := join_loop sys l (S i) in Ret (e, Joined (sv_object s) (launcher s) :: t)
      end
  end.
(** The shutdown thread only ends when SIGTERM has come. *)
Definition process_wait_for_shutdown (sys : system) (p : process) : res (option errno * process * list event) :=
  r_assert (sdt p);;
  match joins_sdt sys with
  | Some e => Ret (Some e, p, [])
  | None =>
      let (p, down) := shutdown_thread p in
      let+ (e, t) := join_loop sys (services p) 0 in Ret (e, p, down ++ t)
  end.

Fixpoint exitcode_loop (l : list service) (o : object) : Z :=
  match l with
  | [] => -1
  | s :: l => if decide (sv_object s = o) then exitcode s else exitcode_loop l o
  end.
Definition process_get_exitcode (p : process) (o : object) : Z := i32 (exitcode_loop (services p) o).

(** * What is taken back *)

(** The objects whose first function succeeded, those for which it was undone,
    and so on. *)
Definition dones (t : list event) : list object := omap (fun e => match e with Did o success => Some o | _ => None end) t.
Definition undones (t : list event) : list object := omap (fun e => match e with Undid o => Some o | _ => None end) t.
Definition starts (t : list event) : list object := omap (fun e => match e with Created o => Some o | _ => None end) t.
Definition stops (t : list event) : list object := omap (fun e => match e with Shut o => Some o | _ => None end) t.
Definition ends (t : list event) : list object := omap (fun e => match e with Joined o _ => Some o | _ => None end) t.
Definition watches (t : list event) : list unit := omap (fun e => match e with Watching => Some () | _ => None end) t.
Definition kills (t : list event) : list unit := omap (fun e => match e with Killed => Some () | _ => None end) t.
Definition becomes (t : list event) : list Z := omap (fun e => match e with Became u => Some u | _ => None end) t.

(** The objects of services that have a first function. *)
Definition to_do (l : list service) : list object :=
  omap (fun s => match do_func s with Some _ => Some (sv_object s) | None => None end) l.
(** What [process_add_object_to_start] asserts. *)
Definition paired (s : service) : Prop := is_Some (do_func s) <-> is_Some (undo_func s).

(** No thread is created, told to stop or joined. *)
Definition idle (t : list event) : Prop :=
  starts t = [] /\ stops t = [] /\ ends t = [] /\ watches t = [] /\ kills t = [].

(** What is observed of two parts of a trace. *)
Lemma dones_app a b : dones (a ++ b) = dones a ++ dones b.
Proof. apply omap_app. Qed.
Lemma undones_app a b : undones (a ++ b) = undones a ++ undones b.
Proof. apply omap_app. Qed.
Lemma starts_app a b : starts (a ++ b) = starts a ++ starts b.
Proof. apply omap_app. Qed.
Lemma stops_app a b : stops (a ++ b) = stops a ++ stops b.
Proof. apply omap_app. Qed.
Lemma ends_app a b : ends (a ++ b) = ends a ++ ends b.
Proof. apply omap_app. Qed.
Lemma watches_app a b : watches (a ++ b) = watches a ++ watches b.
Proof. apply omap_app. Qed.
Lemma kills_app a b : kills (a ++ b) = kills a ++ kills b.
Proof. apply omap_app. Qed.
Lemma becomes_app a b : becomes (a ++ b) = becomes a ++ becomes b.
Proof. apply omap_app. Qed.

(** Splits every observation of the goal, with the known ones put in. *)
Ltac observe :=
  rewrite ?dones_app, ?undones_app, ?starts_app, ?stops_app, ?ends_app, ?watches_app, ?kills_app, ?becomes_app;
  repeat match goal with
  | H : ?f ?t = _ |- context [?f ?t] => progress rewrite H
  end;
  cbn [app]; rewrite ?app_nil_r.

(** * The shutdown thread *)

(** The steps it gets. *)
Definition turns (sched : list bool) : nat := length (List.filter id sched).

(** An observation that only one of two threads makes. *)
Lemma side_by_side_main {B} (f : event -> option B) sched main other :
  omap f other = [] -> omap f (side_by_side sched main other) = omap f main.
Proof.
  revert main other. induction sched as [|[] sched IH]; intros main other Ho; cbn [side_by_side]; [done|..].
  - destruct other as [|e other]; [by apply IH|]. cbn in *. destruct (f e); [done|]. by apply IH.
  - destruct main as [|e main]; [by apply IH|]. cbn. by rewrite IH.
Qed.
Lemma side_by_side_other {B} (f : event -> option B) sched main other :
  omap f main = [] -> omap f (side_by_side sched main other) = omap f (take (turns sched) other).
Proof.
  unfold turns. revert main other.
  induction sched as [|[] sched IH]; intros main other Hm; cbn [side_by_side List.filter id length firstn]; [done|..].
  - destruct other as [|e other]; [by rewrite IH, take_nil|]. cbn. by rewrite IH.
  - destruct main as [|e main]; [by apply IH|]. cbn in *. destruct (f e); [done|]. by apply IH.
Qed.

(** What a process that runs [t] leaves.  If SIGTERM was sent the shutdown
    thread had its turns: the flag is set at the first one, and each of the others calls the last
    function of a service, from the first service on.  [own]: the calls of
    those functions by the main thread. *)
Definition taken_down (sys : system) (p p' : process) (t : list event) (own : list object) : Prop :=
  stops t = own ++ match kills t with [] => [] | _ => take (Nat.pred (turns (schedule sys))) (sv_object <$> services p) end /\
  shutting_down p' = match kills t with [] => shutting_down p | _ => existsb id (schedule sys) || shutting_down p end.

Lemma shut_all (l : list service) k :
  stops (take k (Flagged :: ((fun s => Shut (sv_object s)) <$> l))) = take (Nat.pred k) (sv_object <$> l).
Proof.
  destruct k as [|k]; [done|]. cbn. revert k. induction l as [|s l IH]; intros [|k]; [done..|].
  unfold stops in *. cbn. f_equal. apply IH.
Qed.

(** An observation the shutdown thread never makes. *)
Lemma shut_none {B} (f : event -> option B) (l : list service) :
  f Flagged = None -> (forall o, f (Shut o) = None) -> omap f (Flagged :: ((fun s => Shut (sv_object s)) <$> l)) = [].
Proof. intros Hf Hs. cbn. rewrite Hf. induction l as [|s l IH]; [done|]. cbn. by rewrite Hs. Qed.

Lemma stop_shutdown_thread_spec sys p main :
  idle main ->
  let (p', t) := stop_shutdown_thread sys p main in
  dones t = dones main /\ undones t = undones main /\ becomes t = becomes main /\
  starts t = [] /\ ends t = [] /\ watches t = [] /\ kills t = [()] /\
  services p' = services p /\ taken_down sys p p' t [].
Proof.
  intros (I1 & I2 & I3 & I4 & I5). unfold stop_shutdown_thread. cbn [shutdown_thread].
  set (u := Flagged :: _). set (t := side_by_side _ _ _).
  assert (Hmain : forall B (f : event -> option B), f Killed = None -> f Flagged = None -> (forall o, f (Shut o) = None) ->
    omap f (Killed :: t) = omap f main).
  { intros B f Hk Hf Hs. cbn. rewrite Hk. apply side_by_side_main. by apply shut_none. }
  assert (Hkills : kills (Killed :: t) = [()]).
  { unfold kills. cbn. f_equal. unfold t. rewrite side_by_side_main by (by apply shut_none). exact I5. }
  unfold taken_down. rewrite Hkills.
  unfold dones, undones, becomes, starts, ends, watches. rewrite !Hmain by done.
  split; [done|]. split; [done|]. split; [done|]. split; [done|]. split; [done|]. split; [done|]. split; [done|].
  split; [by destruct (existsb id (schedule sys))|]. split; [|by destruct (existsb id (schedule sys))].
  unfold stops. cbn. unfold t. rewrite side_by_side_other by exact I2. apply shut_all.
Qed.

(** * Steps of a start *)

Lemma do_loop_spec l i :
  let (r, t) := do_loop l i in
  idle t /\ undones t = [] /\ becomes t = [] /\
  match r with
  | None => dones t = to_do l
  | Some j => (i <= j)%nat /\ dones t = to_do (take (j - i) l)
  end.
Proof.
  revert i. induction l as [|s l IH]; intros i; [done|]. cbn [do_loop]. destruct (do_func s) as [f|] eqn:Hf.
  - destruct (f (sv_object s)).
    + split; [done|]. split; [done|]. split; [done|]. split; [done|]. by rewrite Nat.sub_diag.
    + specialize (IH (S i)). destruct (do_loop l (S i)) as [r t]. destruct IH as (Hi & Hu & Hb & Hr).
      split; [exact Hi|]. split; [exact Hu|]. split; [exact Hb|]. destruct r as [j|].
      * destruct Hr as [Hj Hr]. split; [lia|]. replace (j - i)%nat with (S (j - S i)) by lia.
        unfold dones, to_do. cbn. rewrite Hf. cbn. f_equal. exact Hr.
      * unfold dones, to_do. cbn. rewrite Hf. cbn. f_equal. exact Hr.
  - specialize (IH (S i)). destruct (do_loop l (S i)) as [r t]. destruct IH as (Hi & Hu & Hb & Hr).
    split; [exact Hi|]. split; [exact Hu|]. split; [exact Hb|]. destruct r as [j|].
    + destruct Hr as [Hj Hr]. split; [lia|]. replace (j - i)%nat with (S (j - S i)) by lia.
      unfold to_do. cbn. by rewrite Hf.
    + unfold to_do. cbn. by rewrite Hf.
Qed.

Lemma undo_loop_spec l i failed :
  Forall paired l -> (forall j, failed = Some j -> (i <= j)%nat) ->
  let t := undo_loop l i failed in
  idle t /\ dones t = [] /\ becomes t = [] /\
  undones t = to_do (match failed with Some j => take (j - i) l | None => l end).
Proof.
  revert i. induction l as [|s l IH]; intros i Hp Hj; [destruct failed as [j|]; by rewrite ?take_nil|].
  cbn [undo_loop]. case_decide as Hd.
  { subst failed. rewrite Nat.sub_diag. done. }
  apply list.Forall_cons in Hp as [Hs Hp]. destruct (IH (S i)) as ((H1 & H2 & H3) & H4 & H5 & H6); [done|..].
  { intros j ->. specialize (Hj j eq_refl). assert (j <> i) by congruence. lia. }
  assert (Htd : to_do (match failed with Some j => take (j - i) (s :: l) | None => s :: l end) =
    (if undo_func s then [sv_object s] else []) ++ to_do (match failed with Some j => take (j - S i) l | None => l end)).
  { assert (Hhd : (match do_func s with Some _ => Some (sv_object s) | None => None end) =
      (if undo_func s then Some (sv_object s) else None)).
    { destruct Hs as [Ha Hb]. destruct (do_func s) as [f|], (undo_func s) as [g|]; try done.
      - by destruct (Ha ltac:(by eexists)).
      - by destruct (Hb ltac:(by eexists)). }
    destruct failed as [j|]; [|unfold to_do; cbn; rewrite Hhd; by destruct (undo_func s)].
    specialize (Hj j eq_refl). assert (j <> i) by congruence. replace (j - i)%nat with (S (j - S i)) by lia.
    unfold to_do. cbn. rewrite Hhd. by destruct (undo_func s). }
  rewrite Htd. destruct (undo_func s); cbn [app]; [|done]. split; [done|]. split; [done|]. split; [done|].
  unfold undones. cbn. f_equal. exact H6.
Qed.

(** Nothing is done or undone, and the user stays. *)
Definition quiet (t : list event) : Prop := dones t = [] /\ undones t = [] /\ becomes t = [].
(** The shutdown thread is neither created nor woken. *)
Definition alone (t : list event) : Prop := watches t = [] /\ kills t = [].

Lemma stop_loop_spec (a l : list service) i :
  Forall tid a ->
  wpr (stop_loop (a ++ l) i (Some (i + length a)%nat)) (fun t =>
    quiet t /\ alone t /\ starts t = [] /\ stops t = sv_object <$> a /\ ends t = sv_object <$> a).
Proof.
  intros Ha. revert i. induction Ha as [|s a Hs _ IH]; intros i.
  { rewrite Nat.add_0_r. destruct l as [|x l]; cbn; [done|]. by rewrite decide_True. }
  cbn [app stop_loop length]. rewrite decide_False by (intros [= ?]; lia).
  replace (i + S (length a))%nat with (S i + length a)%nat by lia.
  destruct (tid s); [|done]. cbn. apply wpr_bind. eapply wpr_mono; [apply IH|].
  intros t (H1 & Hal & H4 & H5 & H6). cbn. split; [done|]. split; [done|]. split; [done|].
  unfold stops, ends. cbn. split; f_equal; [exact H5|exact H6].
Qed.

(** The services with a thread. *)
Definition started (l : list service) : list service := start_one_service <$> l.

Lemma start_loop_spec sys done l p :
  Forall tid done ->
  wpr (start_loop sys done l p) (fun '(st, p', t) =>
    quiet t /\ watches t = [] /\
    match st with
    | success =>
        p' = with_services (done ++ started l) p /\ starts t = sv_object <$> l /\ stops t = [] /\ ends t = [] /\ kills t = []
    | failure =>
        exists k, (k < length l)%nat /\ thread sys (length done + k) = false /\
          starts t = sv_object <$> take k l /\ ends t = sv_object <$> done ++ take k l /\ kills t = [()] /\
          stops t = (sv_object <$> done ++ take k l) ++ take (Nat.pred (turns (schedule sys))) (sv_object <$> done ++ l) /\
          shutting_down p' = existsb id (schedule sys) || shutting_down p
    end).
Proof.
  revert done. induction l as [|s l IH]; intros done Hd; cbn [start_loop].
  { cbn. by rewrite app_nil_r. }
  destruct (thread sys (length done)) eqn:Ht.
  - apply wpr_bind. eapply wpr_mono; [apply IH; apply Forall_app; by split; [|constructor]|].
    intros [[st p'] t] (H1 & Hw & H). cbn. split; [done|]. split; [done|]. destruct st.
    + destruct H as (k & Hk & Hth & G1 & G2 & G3 & G4 & G5). exists (S k). cbn [length firstn].
      rewrite length_app in Hth. cbn in Hth. rewrite <-!app_assoc in *. cbn [app] in G2, G4.
      split; [lia|]. split; [rewrite <-Hth; f_equal; lia|].
      unfold starts, stops, ends. cbn. split; [f_equal; exact G1|]. rewrite !fmap_app in *. done.
    + destruct H as (-> & G1 & G2). rewrite <-app_assoc. split; [done|].
      unfold starts. cbn. split; [f_equal; exact G1|exact G2].
  - apply wpr_bind. unfold process_stop_services. cbn [services with_services].
    eapply wpr_mono; [by apply (stop_loop_spec done (s :: l) 0)|].
    intros t ((Q1 & Q2 & Q3) & (A1 & A2) & G1 & G2 & G3).
    pose proof (stop_shutdown_thread_spec sys (with_services (done ++ s :: l) p) [] ltac:(done)) as Hst.
    destruct (stop_shutdown_thread _ _ _) as [p' u]. destruct Hst as (U1 & U2 & U3 & U4 & U5 & U6 & U7 & U8 & U9 & U10).
    rewrite U7 in U9, U10. cbn [wpr]. unfold quiet. observe. split; [done|]. split; [done|].
    exists 0%nat. rewrite Nat.add_0_r. cbn [firstn fmap list_fmap app]. rewrite app_nil_r.
    split; [cbn; lia|done].
Qed.

(** A computation that returns. *)
Lemma bind_ret {A B} (m : C A) (k : A -> C B) o b o' :
  bind m k o = Ret (b, o') -> exists a o1, m o = Ret (a, o1) /\ k a o1 = Ret (b, o').
Proof. unfold bind. destruct (m o) as [[a o1]|]; [|done]. intros H. by exists a, o1. Qed.
Lemma lift_ret {A} (m : res A) o a o' : lift m o = Ret (a, o') -> m = Ret a /\ o' = o.
Proof. unfold lift. destruct m; [|done]. by intros [= -> ->]. Qed.
Lemma res_bind_ret {A B} (m : res A) (k : A -> res B) b :
  res_bind m k = Ret b -> exists a, m = Ret a /\ k a = Ret b.
Proof. destruct m as [a|]; [|done]. intros H. by exists a. Qed.

(** What changing the user leaves: when it fails everything is undone and the
    shutdown thread woken. *)
Definition changes (sys : system) (p : process) (st : status) (p' : process) (t : list event) : Prop :=
  starts t = [] /\ ends t = [] /\ watches t = [] /\ dones t = [] /\
  match st with
  | success => p' = p /\ stops t = [] /\ kills t = [] /\ undones t = []
  | failure => kills t = [()] /\ undones t = to_do (services p) /\ taken_down sys p p' t []
  end.

Lemma undo_all p : Forall paired (services p) ->
  let t := process_run_undo_functions p None in
  idle t /\ dones t = [] /\ becomes t = [] /\ undones t = to_do (services p).
Proof. intros Hp. by apply (undo_loop_spec (services p) 0 None). Qed.

(** A failure that wakes the shutdown thread before it undoes. *)
Lemma stop_undo sys p p' t :
  Forall paired (services p) -> stop_shutdown_thread sys p (process_run_undo_functions p None) = (p', t) ->
  changes sys p failure p' t /\ becomes t = [].
Proof.
  intros Hp Hst. destruct (undo_all p Hp) as (U1 & U2 & U3 & U4).
  pose proof (stop_shutdown_thread_spec sys p _ U1) as Hs. rewrite Hst in Hs.
  destruct Hs as (V1 & V2 & V3 & V4 & V5 & V6 & V7 & _ & V9). unfold changes. by rewrite V1, V2, V3.
Qed.

Lemma change_rootdir_spec sys p st p' t :
  Forall paired (services p) -> process_change_rootdir sys p = Ret (st, p', t) -> changes sys p st p' t /\ becomes t = [].
Proof.
  intros Hp. unfold process_change_rootdir.
  intros (n & _ & H)%res_bind_ret. destruct (0 <? n); [|by injection H as <- <- <-].
  apply res_bind_ret in H as (path & _ & H). destruct (negb (chdir sys) || negb (chroot sys)); [|by injection H as <- <- <-].
  destruct (stop_shutdown_thread _ _ _) as [p1 t1] eqn:Hst. injection H as <- <- <-. by apply stop_undo.
Qed.

Lemma change_user_spec sys p o st p' t o' :
  Forall paired (services p) -> change_user sys p o = Ret ((st, p', t), o') -> changes sys p st p' t.
Proof.
  intros Hp. destruct (undo_all p Hp) as ((I1 & I2 & I3 & I4 & I5) & U2 & U3 & U4). unfold change_user.
  intros (n & o1 & _ & H)%bind_ret. destruct (0 <? n).
  2: { apply lift_ret in H as [H _]. by eapply change_rootdir_spec. }
  apply bind_ret in H as ([found uid] & o2 & _ & H). destruct found.
  { destruct (stop_shutdown_thread _ _ _) as [p1 t1] eqn:Hst. injection H as <- <- <- _. by apply stop_undo. }
  apply bind_ret in H as ([[rst p1] t0] & o3 & (Hr & ->)%lift_ret & H).
  apply change_rootdir_spec in Hr as [Hr _]; [|done].
  destruct rst; [by injection H as <- <- <- _|]. apply bind_ret in H as (u & o4 & _ & H).
  destruct Hr as (C1 & C2 & C3 & C4 & -> & C5 & C6 & C7). unfold changes.
  destruct (setuid sys); [injection H as <- <- <- _; by observe|].
  pose proof (stop_shutdown_thread_spec sys p [] ltac:(done)) as Hs.
  destruct (stop_shutdown_thread _ _ _) as [p1 t1]. destruct Hs as (V1 & V2 & V3 & V4 & V5 & V6 & V7 & _ & V9).
  injection H as <- <- <- _. unfold taken_down in *. observe. split; [done|]. split; [done|]. split; [done|]. split; [done|].
  split; [done|]. split; [done|]. by rewrite V7 in V9.
Qed.

Lemma start_shutdown_thread_spec sys p :
  let '(st, p1, t) := start_shutdown_thread sys p in
  quiet t /\ starts t = [] /\ stops t = [] /\ ends t = [] /\ kills t = [] /\
  match st with failure => p1 = p /\ watches t = [] | success => p1 = with_thread p /\ watches t = [()] end.
Proof. unfold start_shutdown_thread. destruct (set_signals_to_block sys); [done|]. by destruct (creates_sdt sys). Qed.

(** C36. What a start takes back.  Every service has both first functions or none,
    as [process_add_object_to_start] asserts.

    When [process_start] succeeds every first function was run, in order, nothing
    was undone, every service has a thread, and the shutdown thread waits.

    When it fails every service that got a thread was told to stop by
    [process_stop_services] and was joined.  The shutdown thread was sent SIGTERM
    if and only if it was created; it then sets [shutting_down] and calls the last function
    of every service, in order, also of those without a thread and, again, of those
    that were joined: of as many as it has turns, whatever the schedule.  Exactly
    what was done is undone, in order, unless it was the thread of a service that could not be
    created: then nothing is undone. *)
Theorem process_start_balanced sys p fac o r p' t o' :
  Forall paired (services p) ->
  process_start sys p fac o = Ret ((r, p', t), o') ->
  match r with
  | Exits => t = [] /\ p' = p
  | Returns success =>
      dones t = to_do (services p) /\ undones t = [] /\ services p' = started (services p) /\
      starts t = sv_object <$> services p /\ stops t = [] /\ ends t = [] /\
      watches t = [()] /\ kills t = [] /\ shutting_down p' = shutting_down p
  | Returns failure =>
      ends t = starts t /\ kills t = watches t /\ taken_down sys p p' t (starts t) /\
      (starts t = [] /\ undones t = dones t \/
       undones t = [] /\ dones t = to_do (services p) /\
       exists k, (k < length (services p))%nat /\ thread sys k = false /\ starts t = sv_object <$> take k (services p))
  end.
Proof.
  intros Hp. unfold process_start. destruct (if fac then forks sys else Child).
  1: { intros [= <- <- <- <-]. do 3 (split; [done|]). by left. }
  1: by intros [= <- <- <- <-].
  unfold process_run_do_functions. pose proof (do_loop_spec (services p) 0) as Hdo.
  destruct (do_loop (services p) 0) as [[j|] t0]; destruct Hdo as ((I1 & I2 & I3 & I4 & I5) & D1 & D2 & D3).
  { intros [= <- <- <- <-]. destruct D3 as [_ D3].
    destruct (undo_loop_spec (services p) 0 (Some j) Hp) as ((U1 & U2 & U3 & U7 & U8) & U4 & U5 & U6); [intros; lia|].
    fold (process_run_undo_functions p (Some j)) in *. unfold taken_down. observe. do 3 (split; [done|]). by left. }
  destruct (undo_all p Hp) as ((U1 & U2 & U3 & U7 & U8) & U4 & U5 & U6).
  pose proof (start_shutdown_thread_spec sys p) as Hsdt.
  destruct (start_shutdown_thread sys p) as [[rc p1] t1]. destruct Hsdt as ((W4 & W5 & W6) & W1 & W2 & W3 & W7 & Hp1).
  destruct rc; destruct Hp1 as [-> W8].
  { intros [= <- <- <- <-]. unfold taken_down. observe. do 3 (split; [done|]). by left. }
  intros ([[st p2] t2] & o2 & Hc & H)%bind_ret. apply change_user_spec in Hc as (C1 & C2 & C3 & C4 & Hc); [|exact Hp].
  destruct st.
  { injection H as <- <- <- <-. destruct Hc as (C5 & C6 & C7). unfold taken_down in *. observe. cbn [services with_thread] in *.
    rewrite C5 in C7. do 3 (split; [done|]). by left. }
  destruct Hc as (-> & C5 & C6 & C7).
  apply bind_ret in H as ([[rc p3] t3] & o3 & (H & ->)%lift_ret & [= <- <- <- <-]).
  pose proof (start_loop_spec sys [] (services p) (with_thread p) ltac:(done)) as Hs. unfold process_start_services in H.
  cbn [services with_thread] in H. rewrite H in Hs. destruct Hs as ((S1 & S2 & S3) & S4 & Hs). destruct rc.
  - destruct Hs as (k & Hk & Hth & G1 & G2 & G3 & G4 & G5). cbn [app length Nat.add shutting_down with_thread] in *.
    unfold taken_down. observe. split; [done|]. split; [done|]. split; [done|]. right. split; [done|]. split; [done|]. by exists k.
  - destruct Hs as (-> & G1 & G2 & G3 & G4). by observe.
Qed.

(** * The user *)

(** The first line of the file of users: its name, and the text of its number. *)
Definition user_line (l n0 u : list Z) : Prop :=
  Forall is_char l /\ Forall (fun c => c <> NEWLINE) l /\ zlen l <= 1000 /\
  exists pw more, words (fun c => mem c (bytes ":")) [] (l ++ [NEWLINE]) = n0 :: pw :: u :: more /\ length more = 4%nat.

Lemma get_uid_spec sys c name l rest n0 u uid :
  passwd sys = Some (l ++ NEWLINE :: rest) -> user_line l n0 u -> touint u = inr uid ->
  rep c name -> name <> n0 ->
  wp (get_uid_from_etc_passwd sys c) [] (fun '(st, r) _ => st = success /\ r = Some uid).
Proof.
  intros Hpw (Hc & Hn & Hl & pw & more & Hw & Hm) Hu Hrep Hne. unfold get_uid_from_etc_passwd. rewrite Hpw.
  cbn [uid_loop]. rewrite fgets_cut by (done || (unfold zlen in Hl; lia)).
  assert (Hc' : Forall is_char (l ++ [NEWLINE])) by (apply Forall_app; split; [done|decide_closed]).
  rewrite as_string_id by done. apply wp_bind, wp_bind.
  eapply wp_mono; [apply cstring_split_correct; [done|rewrite zlen_app, zlen_cons, zlen_nil; unfold INT_MAX; lia]|].
  intros [n r] o1 Hr. cbn [fst snd] in Hr. rewrite Hw in Hr. destruct r as [arr|]; [|by destruct Hr as [_ Hr]; specialize (Hr eq_refl)].
  destruct Hr as (-> & _ & Hr & _). unfold zlen. cbn [length]. rewrite Hm. change (Z.of_nat 7 =? 7) with true. cbn iota.
  destruct (Forall2_cons_inv_r _ _ _ _ Hr) as (d0 & arr1 & H0 & Hr1 & ->).
  destruct (Forall2_cons_inv_r _ _ _ _ Hr1) as (d1 & arr2 & _ & Hr2 & ->).
  destruct (Forall2_cons_inv_r _ _ _ _ Hr2) as (d2 & arr3 & H2 & _ & ->).
  rewrite (cstring_equal_spec _ _ _ _ Hrep H0), bool_decide_false by done. apply wp_bind, wp_lift. cbn [wpr negb].
  apply wp_bind, wp_lift. unfold c_str. rewrite (rep_str_at _ _ H2). cbn [wpr]. unfold isuint. rewrite Hu. cbn [converts].
  apply wp_ret, wp_ret. done.
Qed.

(** A number that was read is the number [setuid] gets. *)
Lemma change_user_becomes sys p name uid p' t o' :
  Forall paired (services p) -> rep (username p) name -> name <> [] ->
  wp (get_uid_from_etc_passwd sys (username p)) [] (fun '(st, r) _ => st = success /\ r = Some uid) ->
  change_user sys p [] = Ret ((success, p', t), o') -> becomes t = [uid].
Proof.
  intros Hp Hrep Hne Hw. unfold change_user. intros (n & o1 & (Hn & ->)%lift_ret & H)%bind_ret.
  assert (Hlen : n = zlen name).
  { unfold cstring_length in Hn. apply res_bind_ret in Hn as (m & _ & Hn). unfold guard in Hn.
    destruct (m =? len (username p)); [|done]. injection Hn as <-. by destruct (rep_bounds _ _ Hrep) as (_ & _ & ->). }
  destruct (Z.ltb_spec 0 n) as [Hpos|Hz]; [|destruct name; [done|]; rewrite zlen_cons in Hlen; zlen_facts; lia].
  apply bind_ret in H as ([found r] & o2 & Hg & H). unfold wp in Hw. rewrite Hg in Hw. destruct Hw as [-> ->].
  apply bind_ret in H as ([[rst p1] t1] & o3 & (H1 & ->)%lift_ret & H).
  apply change_rootdir_spec in H1 as [_ B1]; [|done]. destruct rst; [done|]. cbn in H.
  destruct (setuid sys); [injection H as _ <- _; by observe|]. by destruct (existsb id (schedule sys)).
Qed.

(** The parts of a start that succeeds. *)
Lemma process_start_parts sys p fac o p' t o' :
  Forall paired (services p) ->
  process_start sys p fac o = Ret ((Returns success, p', t), o') ->
  services p' = started (services p) /\
  exists t1 o1, change_user sys (with_thread p) o = Ret ((success, with_thread p, t1), o1) /\ becomes t = becomes t1.
Proof.
  intros Hp. unfold process_start. destruct (if fac then forks sys else Child); [done..|].
  unfold process_run_do_functions. pose proof (do_loop_spec (services p) 0) as Hdo.
  destruct (do_loop (services p) 0) as [[j|] t0]; [done|]. destruct Hdo as (_ & _ & B0 & _).
  pose proof (start_shutdown_thread_spec sys p) as Hsdt.
  destruct (start_shutdown_thread sys p) as [[rc p1] t1]. destruct Hsdt as ((_ & _ & B1) & _ & _ & _ & _ & Hp1).
  destruct rc; destruct Hp1 as [-> _]; [done|].
  intros ([[st p2] t2] & o2 & Hc & H)%bind_ret. destruct st; [done|].
  pose proof (change_user_spec _ (with_thread p) _ _ _ _ _ Hp Hc) as (_ & _ & _ & _ & -> & _).
  apply bind_ret in H as ([[rc p3] t3] & o3 & (H & ->)%lift_ret & [= -> -> <- <-]).
  pose proof (start_loop_spec sys [] (services p) (with_thread p) ltac:(done)) as Hs. unfold process_start_services in H.
  cbn [services with_thread] in H. rewrite H in Hs. destruct Hs as ((_ & _ & B3) & _ & -> & _). split; [done|].
  exists t2, o2. split; [exact Hc|]. by observe.
Qed.

(** C37. The process runs as the first user that it was not told to run as.  When
    the name that was set is not the name of the first line of the file of users,
    and memory lasts, a process that starts has the user number of that first
    line: of root, for any other name. *)
Theorem process_keeps_first_user sys p fac l rest n0 u uid name p' t o' :
  Forall paired (services p) ->
  passwd sys = Some (l ++ NEWLINE :: rest) -> user_line l n0 u -> touint u = inr uid ->
  rep (username p) name -> name <> [] -> name <> n0 ->
  process_start sys p fac [] = Ret ((Returns success, p', t), o') ->
  becomes t = [uid].
Proof.
  intros Hp Hpw Hl Hu Hrep Hne Hn0 (_ & t1 & o1 & Hc & ->)%process_start_parts; [|exact Hp].
  eapply (change_user_becomes sys (with_thread p)); [exact Hp|exact Hrep|exact Hne| |exact Hc]. by eapply get_uid_spec.
Qed.

(** * Exit codes *)

Lemma exitcode_loop_none l o : Forall (fun s => exitcode s = -1) l -> exitcode_loop l o = -1.
Proof. induction 1 as [|s l Hs _ IH]; [done|]. cbn. by case_decide. Qed.

(** Exit codes are lost: whatever the services return, the code of each of them stays
    what [process_add_object_to_start] stored. *)
Lemma exitcode_lost sys p fac o p1 t1 o1 e p2 t2 ob :
  Forall paired (services p) -> Forall (fun s => exitcode s = -1) (services p) ->
  process_start sys p fac o = Ret ((Returns success, p1, t1), o1) ->
  process_wait_for_shutdown sys p1 = Ret (e, p2, t2) ->
  process_get_exitcode p2 ob = -1.
Proof.
  intros Hp Hx (Hs & _)%process_start_parts; [|exact Hp]. unfold process_wait_for_shutdown.
  intros (x & _ & H)%res_bind_ret.
  assert (Hsv : services p2 = services p1).
  { destruct (joins_sdt sys); [by injection H as _ <- _|]. apply res_bind_ret in H as ([? ?] & _ & H). by injection H as _ <- _. }
  unfold process_get_exitcode. rewrite Hsv, Hs, exitcode_loop_none; [done|].
  apply Forall_fmap. eapply list.Forall_impl; [exact Hx|]. done.
Qed.

End Process.

(** * Samples *)

(** A server that gets its port before the user is changed, and a clock. *)
Definition sample_services : list service :=
  [Service 1%nat (Some (fun _ => success)) (Some (fun _ => success)) (fun _ => success) (fun _ => success) false (-1);
   Service 2%nat None None (fun _ => success) (fun _ => success) false (-1)].
Definition nobody : cstring := mk_cstring 256 6 (cstr (bytes "nobody") ++ replicate 249 None).
Lemma nobody_rep : rep nobody (bytes "nobody").
Proof.
  exists (replicate 249 None). split; [reflexivity|]. split; [reflexivity|]. split; [reflexivity|].
  split; [unfold CSTRING_INITIAL_SIZE, PTRDIFF_MAX, nobody, size; lia|decide_closed].
Qed.
Definition sample_process : process :=
  Process Cstring.fresh Cstring.fresh nobody sample_services false false None.
Definition root_line : list Z := bytes "root:x:0:0:root:/root:/bin/bash".
Definition sample_passwd : list Z :=
  root_line ++ NEWLINE :: bytes "nobody:x:65534:65534:nobody:/nonexistent:/usr/sbin/nologin" ++ [NEWLINE].
Definition sample_system (threads : nat -> bool) : system :=
  System Child (true, true, true, true) true (Some sample_passwd) true true true threads None (fun _ => None) [true; true; false; true].

(** The second thread cannot be created: the port of the first service is not
    given back, and the shutdown thread stops both services, the first for the second time. *)
Definition sample_start := process_start (sample_system (fun i => Nat.eqb i 0)) sample_process true [].
Definition sample_trace : list event :=
  [Did 1%nat success; Watching; Became 0; Created 1%nat; Shut 1%nat; Joined 1%nat success; Killed; Flagged;
   Shut 1%nat; Shut 2%nat].

Definition what {object} (r : res (outcome * process (object := object) * list (event (object := object)) * oracle))
    : option (outcome * list event) :=
  match r with Ret (out, _, t, _) => Some (out, t) | Fault _ => None end.
Definition sample_running := process_start (sample_system (fun _ => true)) sample_process false [].

Lemma process_start_balanced_witness :
  exists p' o', sample_start = Ret ((Returns failure, p', sample_trace), o') /\
    ends sample_trace = starts sample_trace /\ kills sample_trace = watches sample_trace /\
    taken_down (sample_system (fun i => Nat.eqb i 0)) sample_process p' sample_trace (starts sample_trace) /\
    (starts sample_trace = [] /\ undones sample_trace = dones sample_trace \/
     undones sample_trace = [] /\ dones sample_trace = to_do sample_services /\
     exists k, (k < length sample_services)%nat /\ Nat.eqb k 0 = false /\
       starts sample_trace = sv_object <$> take k sample_services).
Proof.
  assert (H : what sample_start = Some (Returns failure, sample_trace)) by (vm_compute; reflexivity).
  destruct sample_start as [[[[r p'] t] o']|] eqn:He; [|discriminate H]. injection H as -> ->.
  exists p', o'. split; [reflexivity|].
  apply (process_start_balanced (sample_system (fun i => Nat.eqb i 0)) sample_process true [] (Returns failure) p' sample_trace o'); [|exact He].
  unfold sample_process, sample_services. repeat constructor; by intros [? [=]].
Defined.

Lemma process_keeps_first_user_witness :
  exists p' t o', sample_running = Ret ((Returns success, p', t), o') /\ becomes t = [0].
Proof.
  assert (H : fst <$> what sample_running = Some (Returns success)) by (vm_compute; reflexivity).
  destruct sample_running as [[[[r p'] t] o']|] eqn:He; [|discriminate H]. injection H as ->.
  exists p', t, o'. split; [reflexivity|].
  eapply (process_keeps_first_user (sample_system (fun _ => true)) sample_process false root_line _ (bytes "root")
    (bytes "0") 0 (bytes "nobody")); [..|exact He].
  - unfold sample_process, sample_services. repeat constructor; by intros [? [=]].
  - reflexivity.
  - split; [decide_closed|]. split; [decide_closed|]. split; [done|].
    exists (bytes "x"), [bytes "0"; bytes "root"; bytes "/root"; bytes "/bin/bash" ++ [NEWLINE]].
    split; vm_compute; reflexivity.
  - reflexivity.
  - exact nobody_rep.
  - done.
  - done.
Defined.
