(* ===== verification/ServerConfig.v ===== *)
(** ServerConfig: an HTTP server from its configuration file.

    [http_server_configure] of http/src/http_server.c reads the directives it
    knows and calls the setters of HttpServer and of Process.  What [getuid]
    returns is a parameter. *)

From Stdlib Require Import ZArith Lia.
From stdpp Require Import base list numbers.
From S2P Require Import Prelude Convert Cstring Gensocket HttpBase ConfigFile Process TcpServer HttpServer.

Section ServerConfig.
Context `{STRINGS} {object : Type}.
#[local] Notation process := (Process.process (object := object)).

(** A directive that may be missing, with the default of its variable: [None]
    when it cannot be read. *)
Definition setting (get : configfile -> list Z -> res number) (cf : configfile) (name : list Z) (default : Z)
    : res (option Z) :=
  if configfile_exists cf name
  then let+ r := get cf name in Ret (match r with inl _ => None | inr v => Some v end)
  else Ret (Some default).

Definition text_setting (cf : configfile) (name : list Z) (cb : Z) : res (option (list Z)) :=
  if configfile_exists cf name
  then let+ r := configfile_get_string cf name cb in Ret (match r with inl _ => None | inr t => Some t end)
  else Ret (Some []).

(** The variables of [http_server_configure]. *)
Record settings : Set := Settings {
  c_workers : Z;
  c_queuesize : Z;
  c_block_when_full : Z;
  c_timeout_read : Z;
  c_timeout_write : Z;
  c_timeout_accept : Z;
  c_retries_read : Z;
  c_retries_write : Z;
  c_logrotate : Z;
  c_username : list Z;
  c_rootdir : list Z;
  c_docroot : list Z;
  c_port : Z;
  c_hostname : list Z;
  c_logfile : list Z;
}.

(** The next directive, unless this one could not be read. *)
Definition andthen {A B} (m : res (option A)) (k : A -> res (option B)) : res (option B) :=
  let+ r := m in match r with None => Ret None | Some a => k a end.

Definition read_settings (cf : configfile) : res (option settings) :=
  andthen (setting configfile_get_int cf (bytes "workers") (-1)) (fun workers =>
  andthen (setting configfile_get_int cf (bytes "queuesize") (-1)) (fun queuesize =>
  andthen (setting configfile_get_int cf (bytes "block_when_full") (-1)) (fun block_when_full =>
  andthen (setting configfile_get_uint cf (bytes "timeout_read") 0) (fun timeout_read =>
  andthen (setting configfile_get_uint cf (bytes "timeout_write") 0) (fun timeout_write =>
  andthen (setting configfile_get_uint cf (bytes "retries_read") 0) (fun retries_read =>
  andthen (setting configfile_get_uint cf (bytes "retries_write") 0) (fun retries_write =>
  andthen (setting configfile_get_int cf (bytes "logrotate") (-1)) (fun logrotate =>
  andthen (text_setting cf (bytes "username") 1024) (fun username =>
  andthen (text_setting cf (bytes "rootdir") 1024) (fun rootdir =>
  andthen (text_setting cf (bytes "documentroot") 10240) (fun docroot =>
  andthen (setting configfile_get_uint16_t cf (bytes "port") 0) (fun port =>
  andthen (text_setting cf (bytes "hostname") 1024) (fun hostname =>
  andthen (text_setting cf (bytes "logfile") 1024) (fun logfile =>
  Ret (Some (Settings workers queuesize block_when_full timeout_read timeout_write 0 retries_read retries_write
    logrotate username rootdir docroot port hostname logfile)))))))))))))))).

Definition unless (skip : bool) (set : http_server -> http_server) (s : http_server) : http_server :=
  if skip then s else set s.

(** The setters that cannot fail, in the order of the calls. *)
Definition set_numbers (c : settings) (s : http_server) : res http_server :=
  let s := unless (c_port c =? 0) (fun s => http_server_set_port s (c_port c)) s in
  let s := unless (c_retries_read c =? 0) (fun s => http_server_set_retries_read s (c_retries_read c)) s in
  let s := unless (c_retries_write c =? 0) (fun s => http_server_set_retries_write s (c_retries_write c)) s in
  let+ s := (if c_logrotate c =? -1 then Ret s else http_server_set_logrotate s (c_logrotate c)) in
  let s := unless (c_timeout_read c =? 0) (fun s => http_server_set_timeout_read s (c_timeout_read c)) s in
  let s := unless (c_timeout_write c =? 0) (fun s => http_server_set_timeout_write s (c_timeout_write c)) s in
  let s := unless (c_timeout_accept c =? 0) (fun s => http_server_set_timeout_accept s (c_timeout_accept c)) s in
  let s := unless (c_block_when_full c =? -1) (fun s => http_server_set_block_when_full s (c_block_when_full c)) s in
  let s := unless (c_queuesize c =? -1) (fun s => http_server_set_queue_size s (u64 (c_queuesize c))) s in
  Ret (unless (c_workers c =? -1) (fun s => http_server_set_worker_threads s (u64 (c_workers c))) s).

Definition nonempty (t : list Z) : bool := 0 <? zlen t.

(** The texts, up to the first that cannot be set. *)
Definition set_texts (c : settings) (s : http_server) : C (status * http_server) :=
  let* (st, s) := (if nonempty (c_hostname c) then http_server_set_host s (c_hostname c) else ret (success, s)) in
  match st with
  | failure => ret (failure, s)
  | success =>
      let* (e, s) := (if nonempty (c_logfile c) then lift (http_server_set_logfile s (c_logfile c)) else ret (None, s)) in
      match e with
      | Some _ => ret (failure, s)
      | None =>
          let (e, s) := (if nonempty (c_docroot c) then http_server_set_documentroot s (c_docroot c) else (None, s)) in
          ret (match e with Some _ => failure | None => success end, s)
      end
  end.

(** [root]: [getuid] returns 0. *)
Definition set_process (root : bool) (c : settings) (p : process) : C (status * process) :=
  let* (st, p) := (if nonempty (c_username c) && root then process_set_username p (c_username c) else ret (success, p)) in
  match st with
  | failure => ret (failure, p)
  | success => if nonempty (c_rootdir c) && root then process_set_rootdir p (c_rootdir c) else ret (success, p)
  end.

Definition http_server_configure (root : bool) (file : option (list Z)) (s : http_server) (p : option process)
    : C (status * http_server * option process) :=
  let* cf := configfile_read file in
  match cf with
  | None => ret (failure, s, p)
  | Some cf =>
      let* c := lift (read_settings cf) in
      match c with
      | None => ret (failure, s, p)
      | Some c =>
          let* s := lift (set_numbers c s) in
          let* (st, s) := set_texts c s in
          match st, p with
          | failure, _ | success, None => ret (st, s, p)
          | success, Some p => let* (st, p) := set_process root c p in ret (st, s, Some p)
          end
      end
  end.

(** * What is configured *)

(** The number a member has when the server is configured.  The code takes a value that
    equals the initial value of its variable, [none], for a directive that is not
    there: [old] is kept, also when the file says [retries_write 0]. *)
Definition configured (c : settings) (f : hs_field) (old : Z) : Z :=
  let pick v none := if v =? none then old else v in
  match f with
  | Hs_port => pick (c_port c) 0
  | Hs_retries_read => pick (c_retries_read c) 0
  | Hs_retries_write => pick (c_retries_write c) 0
  | Hs_logrotate => pick (c_logrotate c) (-1)
  | Hs_timeout_read => pick (c_timeout_read c) 0
  | Hs_timeout_write => pick (c_timeout_write c) 0
  | Hs_block_when_full => pick (c_block_when_full c) (-1)
  | Hs_queue_size => if c_queuesize c =? -1 then old else u64 (c_queuesize c)
  | Hs_worker_threads => if c_workers c =? -1 then old else u64 (c_workers c)
  | Hs_logging => if nonempty (c_logfile c) then 1 else old
  | _ => old
  end.

(** The text of a directive: it fits its array and has no 0. *)
Definition text_ok (cb : Z) (t : list Z) : Prop := Forall is_char t /\ zlen t < cb.

(** The texts fit the arrays of the server. *)
Definition texts_fit (c : settings) : Prop :=
  text_ok 1024 (c_hostname c) /\ text_ok 1024 (c_logfile c) /\ text_ok 10240 (c_docroot c) /\
  text_ok 1024 (c_username c) /\ text_ok 1024 (c_rootdir c) /\ c_timeout_accept c = 0.

Lemma find_elem cf name nv : find cf name = Some nv -> nv ∈ cf.
Proof.
  induction cf as [|nv' cf IH]; [done|]. cbn. destruct (_ =? 0); [intros [= <-]; left|intros; right; by apply IH].
Qed.

Lemma text_setting_fits cf name cb t :
  0 < cb -> Forall (fun nv => Forall is_char nv.2) cf -> text_setting cf name cb = Ret (Some t) -> text_ok cb t.
Proof.
  intros Hcb Hcf. unfold text_setting, configfile_get_string. destruct (configfile_exists cf name).
  - destruct (1 <? cb); cbn; [|done]. destruct (find cf name) as [nv|] eqn:Hf; [|done].
    destruct (Z.ltb_spec cb (zlen nv.2 + 1)); [done|]. intros [= <-]. split; [|lia].
    apply find_elem in Hf. rewrite list.Forall_forall in Hcf. by apply Hcf.
  - intros [= <-]. by split.
Qed.

Lemma andthen_inv {A B} (m : res (option A)) (k : A -> res (option B)) b :
  andthen m k = Ret (Some b) -> exists a, m = Ret (Some a) /\ k a = Ret (Some b).
Proof. unfold andthen. destruct m as [[a|]|]; [|done..]. intros Hk. by exists a. Qed.

Lemma read_settings_fit cf c :
  Forall (fun nv => Forall is_char nv.2) cf -> read_settings cf = Ret (Some c) -> texts_fit c.
Proof.
  unfold read_settings. intros Hcf H0.
  repeat (apply andthen_inv in H0 as (? & ? & H0)). injection H0 as <-. unfold texts_fit. cbn.
  split_and!; [..|done]; by (eapply text_setting_fits; [|exact Hcf|eassumption]).
Qed.

(** The directives of lines have no 0. *)
Lemma directives_chars lines : Forall line_ok lines -> Forall (fun nv => Forall is_char nv.2) (directives lines).
Proof.
  induction 1 as [|l lines (Hc & _ & _) _ IH]; [done|]. unfold directives. cbn [omap list_omap]. fold (directives lines).
  destruct (says l) as [| |n v] eqn:Hs; [exact IH..|]. cbn [directive]. constructor; [|exact IH].
  unfold says in Hs. set (line := l ++ [NEWLINE]) in *. set (d := replicate (S (length line)) (None : option Z)).
  assert (Hd : zlen line < zlen d) by (unfold d, zlen; rewrite length_replicate; lia).
  assert (Hl : Forall is_char line) by (apply Forall_app; split; [done|decide_closed]).
  pose proof (get_name_and_value_spec line d d Hl Hd Hd) as Hw.
  destruct (get_name_and_value line d d) as [[[i n'] v']|]; [|done]. cbn [wpr] in Hw. rewrite Hs in Hw. apply Hw.
Qed.

(** Nothing but the numbers differs. *)
Definition renumbered (s s' : http_server) : Prop :=
  logfile s' = logfile s /\ documentroot s' = documentroot s /\ host s' = host s /\
  logfile_name s' = logfile_name s.

#[local] Instance renumbered_preorder : PreOrder renumbered.
Proof. split; [by intros s|]. intros a b c (? & ? & ? & ?) (? & ? & ? & ?). split_and!; congruence. Qed.

(** A setter of the number [g] that is called unless [b]. *)
Lemma unless_num b g v s f :
  hs_num (unless b (fun s => hs_with_num g v s) s) f = if negb b && bool_decide (f = g) then v else hs_num s f.
Proof. destruct b; cbn; [done|]. case_decide; [by rewrite bool_decide_true|by rewrite bool_decide_false]. Qed.

Lemma unless_renumbered b g v s0 s :
  renumbered s0 s -> renumbered s0 (unless b (fun s => hs_with_num g v s) s).
Proof. intros Hr. etransitivity; [exact Hr|]. by destruct b. Qed.

Lemma logrotate_unless v s :
  -1 <= v ->
  (if v =? -1 then Ret s else http_server_set_logrotate s v) =
  Ret (unless (v =? -1) (fun s => hs_with_num Hs_logrotate v s) s).
Proof.
  intros Hv. destruct (Z.eqb_spec v (-1)) as [|Hne]; [done|].
  unfold http_server_set_logrotate. by rewrite (proj2 (Z.leb_le 0 v)) by lia.
Qed.

Lemma set_numbers_spec c s :
  c_timeout_accept c = 0 -> -1 <= c_logrotate c ->
  wpr (set_numbers c s) (fun s' => renumbered s s' /\
    forall f, hs_num s' f = if decide (f = Hs_logging) then hs_num s f else configured c f (hs_num s f)).
Proof.
  intros Hacc Hrot. unfold set_numbers. rewrite logrotate_unless by done.
  unfold http_server_set_port, http_server_set_retries_read, http_server_set_retries_write,
    http_server_set_timeout_read, http_server_set_timeout_write, http_server_set_timeout_accept,
    http_server_set_block_when_full, http_server_set_queue_size, http_server_set_worker_threads.
  cbn. split; [by repeat apply unless_renumbered|].
  intros f. repeat rewrite unless_num. rewrite Hacc. clear Hacc Hrot.
  destruct f;
    repeat first [rewrite bool_decide_true by done|rewrite bool_decide_false by done];
    rewrite ?Bool.andb_false_r, ?Bool.andb_true_r; cbn; first [done|by destruct (_ =? _)].
Qed.

(** A log rotation below -1 fails an assertion. *)
Lemma negative_logrotate c s : c_logrotate c < -1 -> set_numbers c s = Fault AssertFailed.
Proof.
  intros Hr. unfold set_numbers. rewrite (proj2 (Z.eqb_neq (c_logrotate c) (-1))) by lia.
  unfold http_server_set_logrotate. by rewrite (proj2 (Z.leb_gt 0 (c_logrotate c))) by lia.
Qed.

(** The texts that are set. *)
Definition text_or (old t : list Z) : list Z := if nonempty t then t else old.

Lemma set_texts_spec c s o :
  texts_fit c -> logfile s = Null ->
  wp (set_texts c s) o (fun '(st, s') o' =>
    (st = success ->
       host s' = (if nonempty (c_hostname c) then Some (c_hostname c) else host s) /\
       logfile_name s' = text_or (logfile_name s) (c_logfile c) /\
       documentroot s' = text_or (documentroot s) (c_docroot c) /\
       forall f, hs_num s' f =
         if decide (f = Hs_logging) then configured c f (hs_num s f) else hs_num s f) /\
    (o = [] -> o' = [] /\ st = success)).
Proof.
  intros ((_ & Hh) & (_ & Hl) & (_ & Hd) & _) Hlog. unfold set_texts. apply wp_bind.
  eapply (wp_mono _ _ (fun r o' =>
    (r.1 = success -> r.2 = hs_with_texts (if nonempty (c_hostname c) then Some (c_hostname c) else host s)
       (logfile_name s) (documentroot s) s) /\ (o = [] -> o' = [] /\ r.1 = success))).
  { destruct (nonempty (c_hostname c)); [|apply wp_ret; by destruct s].
    unfold http_server_set_host. apply wp_bind, small_alloc; [unfold PTRDIFF_MAX; lia|]. intros [|] o1 Ho; apply wp_ret.
    - split; [done|]. intros Hoo. by destruct (Ho Hoo).
    - split; [done|]. intros Hoo. by destruct (Ho Hoo). }
  intros [[|] s1] o1 [H1 Ho]; cbn [fst snd] in *.
  { apply wp_ret. split; [done|]. intros Hoo. by destruct (Ho Hoo). }
  rewrite (H1 eq_refl). clear H1 s1. unfold http_server_set_logfile, http_server_set_documentroot. cbn.
  rewrite Hlog. cbn. unfold LOGFILE_MAX, DOCUMENTROOT_MAX.
  rewrite (proj2 (Z.ltb_ge _ (zlen (c_logfile c) + 1))), (proj2 (Z.ltb_ge _ (zlen (c_docroot c) + 1))) by lia.
  assert (Ho' : o = [] -> o1 = []) by (intros Hoo; by destruct (Ho Hoo)).
  destruct (nonempty (c_logfile c)) eqn:Hn, (nonempty (c_docroot c)) eqn:Hn';
    apply wp_bind; cbn; unfold text_or; rewrite ?Hn, ?Hn'; cbn;
    (split; [|intros Hoo; split; [by apply Ho'|done]]); intros _; (split; [done|]); (split; [done|]); (split; [done|]);
    intros f; case_decide as Hf; subst; cbn; rewrite ?Hn; done.
Qed.

(** ** The process *)

(** A process whose texts are these. *)
Definition process_holds (p : process) (u r : list Z) : Prop :=
  Cstring.rep (username p) u /\ Cstring.size (username p) <= 2 ^ 40 /\
  Cstring.rep (rootdir p) r /\ Cstring.size (rootdir p) <= 2 ^ 40.

Lemma process_str_set s t t' o :
  Cstring.rep s t -> Cstring.size s <= 2 ^ 40 -> text_ok 1024 t' ->
  wp (Cstring.cstring_set s t') o (fun '(st, s') o' =>
    (st = success -> Cstring.rep s' t' /\ Cstring.size s' <= 2 ^ 40) /\ (o = [] -> o' = [] /\ st = success)).
Proof.
  intros Hs Hc (Ht & Hl). eapply wp_mono; [apply (str_set_law (H := cstring_strings) s t); [exact Hs|split; [exact Ht|unfold PTRDIFF_MAX; lia]]|].
  intros [st s'] o' (H1 & H2 & H3). cbn [str_cap cstring_laws] in H2, H3. split.
  - intros ->. split; [exact H1|lia].
  - intros Hoo. destruct (H3 Hoo) as [-> H4]. split; [done|]. apply H4. unfold PTRDIFF_MAX. lia.
Qed.

Lemma set_process_spec root c p u r o :
  texts_fit c -> process_holds p u r ->
  wp (set_process root c p) o (fun '(st, p') o' =>
    (st = success ->
       process_holds p' (if root then text_or u (c_username c) else u) (if root then text_or r (c_rootdir c) else r)) /\
    (o = [] -> o' = [] /\ st = success)).
Proof.
  intros (_ & _ & _ & Hu & Hr & _) (H1 & H2 & H3 & H4). unfold set_process, text_or.
  destruct root; rewrite ?Bool.andb_false_r, ?Bool.andb_true_r; [|apply wp_bind, wp_ret; by split].
  apply wp_bind. eapply (wp_mono _ _ (fun r1 o' =>
    (r1.1 = success -> process_holds r1.2 (if nonempty (c_username c) then c_username c else u) r) /\
    (o = [] -> o' = [] /\ r1.1 = success))).
  { destruct (nonempty (c_username c)); [|by apply wp_ret].
    apply wp_bind. eapply wp_mono; [by apply (process_str_set _ u)|]. intros [st s'] o1 [Hs Ho]. apply wp_ret. cbn.
    split; [|done]. intros Hst. destruct (Hs Hst). by split_and!. }
  intros [[|] p1] o1 [Hp Ho]; cbn [fst snd] in *.
  { apply wp_ret. split; [done|]. intros Hoo. by destruct (Ho Hoo). }
  assert (Ho' : o = [] -> o1 = []) by (intros Hoo; by destruct (Ho Hoo)). destruct (Hp eq_refl) as (G1 & G2 & G3 & G4).
  destruct (nonempty (c_rootdir c)); [|apply wp_ret; split; [done|intros Hoo; split; [by apply Ho'|done]]].
  apply wp_bind. eapply wp_mono; [by apply (process_str_set _ r)|]. intros [st s'] o2 [Hs Ho2]. apply wp_ret.
  split; [|intros Hoo; by apply Ho2, Ho']. intros Hst. destruct (Hs Hst). by split_and!.
Qed.

(** ** The property *)

(** The process after [http_server_configure]. *)
Definition process_configured (root : bool) (c : settings) (u r : list Z) (p : option process) : Prop :=
  match p with
  | None => True
  | Some p =>
      process_holds p (if root then text_or u (c_username c) else u) (if root then text_or r (c_rootdir c) else r)
  end.

(** C35. A server is configured as its file says.  When the directives of the
    lines can be read, and the log is rotated at a number of lines that is not
    below -1, [http_server_configure] fails no assertion; when it succeeds each number and text with
    a directive has its value and each other one is what it was, but a directive
    whose value is the initial value of its variable (0 for the port, the retries
    and the timeouts, -1 for the workers, the queue, [block_when_full] and the
    rotation of the log, the empty text) changes nothing; the process keeps
    user name and root directory, for the root user only; and it succeeds when
    memory lasts, no line is malformed and there are at most 2000 directives. *)
Theorem server_configured root lines c s p u r o :
  Forall line_ok lines -> logfile s = Null ->
  read_settings (directives lines) = Ret (Some c) -> -1 <= c_logrotate c ->
  match p with None => True | Some p => process_holds p u r end ->
  wp (http_server_configure root (Some (config_text lines)) s p) o (fun '(st, s', p') _ =>
    (st = success ->
       (forall f, hs_num s' f = configured c f (hs_num s f)) /\
       host s' = (if nonempty (c_hostname c) then Some (c_hostname c) else host s) /\
       logfile_name s' = text_or (logfile_name s) (c_logfile c) /\
       documentroot s' = text_or (documentroot s) (c_docroot c) /\
       (is_Some p' <-> is_Some p) /\ process_configured root c u r p') /\
    (o = [] -> Forall (fun l => says l <> Malformed) lines -> zlen (directives lines) <= MAX_DIRECTIVES ->
       st = success)).
Proof.
  intros Hl Hlog Hc Hrot Hp. pose proof (read_settings_fit _ _ (directives_chars _ Hl) Hc) as Hfit.
  unfold http_server_configure. apply wp_bind. eapply wp_mono; [by apply configfile_read_spec|].
  intros [cf|] o1 [[Hr1 Hr2] Ho1].
  2: { apply wp_ret. split; [done|]. intros Hoo Hm Hn. by destruct (Hr2 Hoo Hm Hn). }
  destruct (Hr1 cf eq_refl) as (_ & -> & _). cbn [app]. rewrite Hc. apply wp_bind, wp_lift. cbn [wpr].
  apply wp_bind, wp_lift. eapply wpr_mono; [apply set_numbers_spec; [apply Hfit|exact Hrot]|].
  intros s1 ((R1 & R2 & R3 & R4) & Hnum). apply wp_bind.
  eapply wp_mono; [apply set_texts_spec; [exact Hfit|by rewrite R1]|]. intros [st s2] o2 [Ht Ho2].
  rewrite R2, R3, R4 in Ht.
  assert (Hall : st = success -> (forall f, hs_num s2 f = configured c f (hs_num s f))).
  { intros Hst f. destruct (Ht Hst) as (_ & _ & _ & Hf). rewrite Hf. case_decide as He; [|by rewrite Hnum, decide_False].
    subst f. cbn. destruct (nonempty (c_logfile c)); [done|]. by rewrite Hnum. }
  destruct st, p as [p|]; try (apply wp_ret; split; [done|]; intros Hoo; by destruct (Ho2 (Ho1 Hoo))).
  - apply wp_bind. eapply wp_mono; [by apply set_process_spec|]. intros [st p'] o3 [Hs Ho3]. apply wp_ret.
    split; [|intros Hoo _ _; apply Ho3, Ho2, Ho1, Hoo]. intros Hst. destruct (Ht eq_refl) as (T1 & T2 & T3 & _).
    split_and!; [by apply Hall|done..|by apply Hs].
  - apply wp_ret. split; [|done]. intros _. destruct (Ht eq_refl) as (T1 & T2 & T3 & _).
    split_and!; [by apply Hall|done..].
Qed.

End ServerConfig.

(** A server that was just made, and a process. *)
Definition bare_server : http_server :=
  Server (Tcp defaults (fun _ => None) SOCKTYPE_TCP None (Socket 3 EAGAIN [] [] []) false false false None [] []
    None None None) server_defaults 0 No_pages None false None None None Null [] [] (bytes "./") None.
Definition bare_process : process (object := unit) := Process Cstring.fresh Cstring.fresh Cstring.fresh [] false false None.
Definition config_lines : list (list Z) :=
  [bytes "# the server"; bytes "port 8080"; bytes "workers 4 # threads"; bytes "logrotate 1000"; [];
   written (bytes "logfile", bytes "/var/log/my httpd"); bytes "username nobody"].
Definition config_settings : settings :=
  Settings 4 (-1) (-1) 0 0 0 0 0 1000 (bytes "nobody") [] [] 8080 [] (bytes "/var/log/my httpd").

Lemma server_configured_witness :
  read_settings (directives config_lines) = Ret (Some config_settings) /\
  wp (http_server_configure true (Some (config_text config_lines)) bare_server (Some bare_process)) []
    (fun '(st, s', p') _ =>
      (st = success ->
         (forall f, hs_num s' f = configured config_settings f (server_defaults f)) /\
         host s' = None /\ logfile_name s' = bytes "/var/log/my httpd" /\ documentroot s' = bytes "./" /\
         (is_Some p' <-> is_Some (Some bare_process)) /\ process_configured true config_settings [] [] p') /\
      (([] : oracle) = [] -> Forall (fun l => says l <> Malformed) config_lines ->
         zlen (directives config_lines) <= MAX_DIRECTIVES -> st = success)).
Proof.
  split; [reflexivity|]. apply (server_configured true config_lines config_settings bare_server (Some bare_process)).
  - unfold line_ok. repeat constructor; decide_closed.
  - reflexivity.
  - reflexivity.
  - by unfold config_settings, c_logrotate.
  - unfold process_holds. repeat split; try apply rep_fresh; by vm_compute.
Defined.
