(* ===== verification/RootResources.v ===== *)
(** RootResources: what a server acquires before it drops its privileges, from
    meta/src/gensocket.c, meta/src/tcp_server.c and http/src/http_server.c: the
    socket that listens.

    What [getaddrinfo], [socket], [setsockopt], [bind], [listen] and [fcntl]
    answer is a parameter; the TLS context is a boolean, whether it can be made.

    [server_listens] shows when the socket listens, and when the function returns
    a status that was never set; [nonblock_flags] what the two functions for the
    blocking mode do to the other flags. *)

From Stdlib Require Import ZArith Lia.
From stdpp Require Import base list numbers.
From S2P Require Import Prelude Cstring Gensocket HttpBase TcpServer HttpServer.

(** * Sockets *)

Definition status_of (ok : bool) : status := if ok then success else failure.

(** [ok]: what the system call returned. *)
Definition socket_set_reuse_addr (ok : bool) (s : socket) : res status :=
  r_assert (0 <=? fd s);; Ret (status_of ok).

Definition socket_set_tcp_nodelay (ok : bool) (s : socket) : status := status_of ok.

Definition socket_bind_inet (ok : bool) (s : socket) : status := status_of ok.

Definition socket_listen (ok : bool) (s : socket) (backlog : Z) : res status :=
  r_assert (0 <=? fd s);; Ret (status_of ok).

Definition O_NONBLOCK : Z := 2048.

(** [flags]: what F_GETFL returned; the second result is what F_SETFL stored. *)
Definition socket_set_nonblock (flags : option Z) (ok : bool) (s : socket) : res (status * option Z) :=
  r_assert (0 <=? fd s);;
  match flags with
  | None => Ret (failure, None)
  | Some flags => Ret (status_of ok, if ok then Some (Z.lor flags O_NONBLOCK) else None)
  end.

Definition socket_clear_nonblock (flags : option Z) (ok : bool) (s : socket) : res (status * option Z) :=
  r_assert (0 <=? fd s);;
  match flags with
  | None => Ret (failure, None)
  | Some flags => Ret (status_of ok, if ok then Some (flags - Z.land flags O_NONBLOCK) else None)
  end.

(** An address of the host: [socket] gives no descriptor for it, or one, for which
    the three calls that follow succeed or not. *)
Inductive local_address : Set :=
| No_descriptor
| Descriptor (d : Z) (reuse binds listens : bool).

Definition socket_socket (a : local_address) (s : socket) : status * socket :=
  match a with
  | No_descriptor => (failure, set_fd (-1) s)
  | Descriptor d _ _ _ => (success, set_fd d s)
  end.

(** The loop: the first address with a descriptor. *)
Fixpoint first_socket (l : list local_address) (s : socket) : option local_address * socket :=
  match l with
  | [] => (None, s)
  | a :: l =>
      let (st, s) := socket_socket a s in
      match st with success => (Some a, s) | failure => first_socket l s end
  end.

(** What follows the label: [false] when one of the three calls fails. *)
Definition set_up (a : local_address) (s : socket) : res bool :=
  match a with
  | No_descriptor => Ret false
  | Descriptor _ reuse binds listens =>
      let+ st := socket_set_reuse_addr reuse s in
      match st with
      | failure => Ret false
      | success =>
          match socket_bind_inet binds s with
          | failure => Ret false
          | success =>
              let+ st := socket_listen listens s 100 in
              Ret (match st with success => true | failure => false end)
          end
      end
  end.

(** [found]: the addresses, [None] when [getaddrinfo] fails.  The jump to the
    label passes the initialisation of the status that is returned. *)
Definition socket_create_server_socket (found : option (list local_address)) (port : Z) (s : socket)
    : res (status * socket) :=
  r_assert (0 <? port);;
  match found with
  | None => Ret (failure, s)
  | Some l =>
      match first_socket l s with
      | (None, s) => Ret (failure, snd (socket_close 0 s))
      | (Some a, s) =>
          let+ ok := set_up a s in
          if ok : bool then Ret (success, s) else Fault Uninitialised
      end
  end.

(** The TLS half is not in the model. *)
Definition socket_accept (type : socktype) (a : accepted) (listener newsock : socket)
    : res (option (status * errno * socket)) :=
  match type with
  | SOCKTYPE_TCP => let+ r := tcp_accept a listener newsock in Ret (Some r)
  | SOCKTYPE_SSL => Ret None
  end.

(** * Servers *)

Section Servers.
Context `{STRINGS}.

(** [resolve]: the addresses of a name and a port; [context]: whether the TLS
    context can be set up. *)
Definition tcp_server_get_root_resources {service} (resolve : list Z -> Z -> option (list local_address))
    (context : bool) (this : tcp_server (service := service)) : res (status * tcp_server) :=
  let+ hostname := match tc_text this Host with Some t => str_text t | None => Ret (bytes "localhost") end in
  match tc_socktype this, context with
  | SOCKTYPE_SSL, false => Ret (failure, this)
  | _, _ =>
      let port := tc_num this Port in
      let+ (st, l) := socket_create_server_socket (resolve hostname port) port (listener this) in
      Ret (st, tc_with_listener l this)
  end.

Definition http_server_get_root_resources (resolve : list Z -> Z -> option (list local_address)) (context : bool)
    (this : http_server) : C (status * http_server) :=
  let* (st, this) := configure_tcp_server this in
  match st with
  | failure => ret (failure, this)
  | success =>
      let* (st, t) := lift (tcp_server_get_root_resources resolve context (tcpsrv this)) in
      ret (st, hs_with_tcp t this)
  end.

End Servers.

(** * The socket that listens *)

Lemma first_socket_spec l s :
  match first_socket l s with
  | (None, s') => Forall (eq No_descriptor) l /\ (l <> [] -> fd s' = -1) /\ (l = [] -> s' = s)
  | (Some a, s') => exists l1 d r b n l2, l = l1 ++ a :: l2 /\ a = Descriptor d r b n /\ Forall (eq No_descriptor) l1 /\
      fd s' = d
  end.
Proof.
  revert s. induction l as [|a l IH]; intros s; [done|]. destruct a as [|d r b n]; cbn.
  - specialize (IH (set_fd (-1) s)). destruct (first_socket l (set_fd (-1) s)) as [[a|] s'].
    + destruct IH as (l1 & d & r & b & n & l2 & -> & -> & Hl & ?). exists (No_descriptor :: l1), d, r, b, n, l2.
      repeat split; [|done]. by constructor.
    + destruct IH as (Hl & Hne & Hnil). split; [by constructor|]. split; [|done]. intros _.
      destruct l; [by rewrite Hnil|by apply Hne].
  - exists [], d, r, b, n, l. repeat split. constructor.
Qed.

(** A descriptor of the system is not negative. *)
Definition real (a : local_address) : Prop := match a with No_descriptor => True | Descriptor d _ _ _ => 0 <= d end.

Lemma set_up_spec d r b n s :
  fd s = d -> 0 <= d -> set_up (Descriptor d r b n) s = Ret (r && b && n).
Proof.
  intros Hs Hd. cbn. unfold socket_set_reuse_addr, socket_listen, socket_bind_inet, status_of, guard. rewrite Hs.
  rewrite (proj2 (Z.leb_le 0 d)) by done. by destruct r, b, n.
Qed.

(** When a server gets its socket.  Only the first address for which there is a
    descriptor is tried.  When its port can be bound the socket listens on it; when
    it cannot, the status that is returned was never set, also if another
    address would have done, and the descriptor stays open; when there is no
    descriptor the call fails, and the socket has none. *)
Theorem server_listens l port s :
  0 < port -> fd s = -1 -> Forall real l ->
  (Forall (eq No_descriptor) l /\ exists s', socket_create_server_socket (Some l) port s = Ret (failure, s') /\ fd s' = -1) \/
  exists l1 d r b n l2, l = l1 ++ Descriptor d r b n :: l2 /\ Forall (eq No_descriptor) l1 /\
    if r && b && n
    then exists s', socket_create_server_socket (Some l) port s = Ret (success, s') /\ fd s' = d
    else socket_create_server_socket (Some l) port s = Fault Uninitialised.
Proof.
  intros Hp Hs Hreal. unfold socket_create_server_socket, guard. rewrite (proj2 (Z.ltb_lt 0 port)) by done. cbn [res_bind].
  pose proof (first_socket_spec l s) as Hf. destruct (first_socket l s) as [[a|] s'].
  - destruct Hf as (l1 & d & r & b & n & l2 & -> & -> & Hl1 & Hd). right. exists l1, d, r, b, n, l2.
    split; [done|]. split; [done|]. apply Forall_app in Hreal as [_ Hreal]. apply list.Forall_cons in Hreal as [Hr _].
    rewrite (set_up_spec d r b n s' Hd Hr). cbn [res_bind]. destruct (r && b && n); [|done]. by exists s'.
  - destruct Hf as (Hl & Hne & Hnil). left. split; [done|].
    assert (Hfd : fd s' = -1) by (destruct l; [by rewrite Hnil|by apply Hne]).
    exists s'. unfold socket_close. rewrite Hfd. cbn. done.
Qed.

(** Setting and clearing the mode leaves every other flag, and the mode is set or
    clear afterwards. *)
Theorem nonblock_flags flags s i :
  0 <= fd s -> 0 <= i ->
  (exists f, socket_set_nonblock (Some flags) true s = Ret (success, Some f) /\
     Z.testbit f i = (Z.testbit flags i || (i =? 11))%bool) /\
  exists f, socket_clear_nonblock (Some flags) true s = Ret (success, Some f) /\
    Z.testbit f i = (Z.testbit flags i && negb (i =? 11))%bool.
Proof.
  intros Hs Hi. unfold socket_set_nonblock, socket_clear_nonblock, guard. rewrite (proj2 (Z.leb_le 0 (fd s))) by done.
  assert (Hbit : Z.testbit O_NONBLOCK i = (i =? 11)).
  { change O_NONBLOCK with (2 ^ 11). rewrite Z.pow2_bits_eqb by lia. apply Z.eqb_sym. }
  cbn. split; eexists; (split; [done|]).
  - by rewrite Z.lor_spec, Hbit.
  - rewrite Z.sub_nocarry_ldiff.
    + rewrite Z.ldiff_spec, Z.land_spec, Hbit. by destruct (Z.testbit flags i), (i =? 11).
    + apply Z.bits_inj'. intros j Hj. rewrite Z.ldiff_spec, Z.land_spec, Z.bits_0.
      by destruct (Z.testbit flags j), (Z.testbit O_NONBLOCK j).
Qed.

Section Listening.
Context `{StringLaws}.

(** An HTTP server that got its resources listens on its port: what the accept loop
    asserts of the listener holds. *)
Theorem http_server_listens resolve context srv o :
  (forall n p l, resolve n p = Some l -> Forall real l) -> fd (listener (tcpsrv srv)) = -1 ->
  tc_socktype (tcpsrv srv) = SOCKTYPE_TCP ->
  match http_server_get_root_resources resolve context srv o with
  | Ret ((success, srv'), _) => 0 <= fd (listener (tcpsrv srv')) /\ tc_num (tcpsrv srv') Port = hs_num srv Hs_port
  | _ => True
  end.
Proof.
  intros Hreal Hfd Htcp. unfold http_server_get_root_resources, configure_tcp_server, bind at 1 2.
  destruct (tcp_server_set_hostname (tcpsrv srv) (host srv) o) as [[[st t] o1]|] eqn:Eh; [|done].
  assert (Ht : listener t = listener (tcpsrv srv) /\ tc_socktype t = tc_socktype (tcpsrv srv)).
  { unfold tcp_server_set_hostname in Eh. destruct (host srv) as [hn|]; [|by injection Eh as <- <- <-].
    unfold bind, ret in Eh. destruct (str_dup hn o) as [[r o2]|]; [|done]. by injection Eh as <- <- <-. }
  destruct st; [done|]. unfold ret at 1. cbn beta iota. unfold bind, lift.
  match goal with |- context [tcp_server_get_root_resources _ _ (tcpsrv ?x)] => set (srv1 := x) end.
  assert (H1 : fd (listener (tcpsrv srv1)) = -1 /\ tc_socktype (tcpsrv srv1) = SOCKTYPE_TCP /\
    tc_num (tcpsrv srv1) Port = hs_num srv Hs_port).
  { destruct Ht as [Hl Hty]. unfold srv1. cbn. rewrite Hl, Hty. done. }
  generalize dependent srv1. intros srv1 (Hl1 & Hty1 & Hport).
  unfold tcp_server_get_root_resources. destruct (match tc_text (tcpsrv srv1) Host with Some t0 => str_text t0 | None => Ret (bytes "localhost") end) as [hn|]; [|done].
  cbn [res_bind]. rewrite Hty1. destruct (resolve hn (tc_num (tcpsrv srv1) Port)) as [l|] eqn:Hres.
  2:{ unfold socket_create_server_socket, guard. by destruct (0 <? _). }
  destruct (Z.ltb_spec 0 (tc_num (tcpsrv srv1) Port)) as [Hp|Hp].
  2:{ unfold socket_create_server_socket, guard. by rewrite (proj2 (Z.ltb_ge _ _) Hp). }
  destruct (server_listens l (tc_num (tcpsrv srv1) Port) (listener (tcpsrv srv1)) Hp Hl1 (Hreal _ _ _ Hres))
    as [(_ & s' & -> & _)|(l1 & d & r & b & n & l2 & -> & _ & Hcase)]; [done|].
  destruct (r && b && n).
  - destruct Hcase as (s' & -> & Hd). cbn. split; [|done]. rewrite Hd.
    pose proof (Hreal _ _ _ Hres) as HF. apply Forall_app in HF as [_ HF]. by apply list.Forall_cons in HF as [? _].
  - by rewrite Hcase.
Qed.

End Listening.
