(* ===== verification/HttpClient.v ===== *)
(** HttpClient: meta/src/tcp_client.c and http/src/http_client.c.

    A client has a connection with its two buffers, a request and a response.
    [http_client_get] fills the request in, sends it and receives the response.

    What [getaddrinfo], [socket] and [connect] do is a parameter, and so is the
    TLS library: a context can be had or not. *)

From Stdlib Require Import ZArith Lia.
From stdpp Require Import base list numbers.
From S2P Require Import Prelude Cstring Membuf Gensocket Connection HttpBase HttpDate Request Response TcpServer.

(** * Connecting *)

(** What happens for an address that [getaddrinfo] found: [socket] fails, the
    host does not answer (and [close] returns [rc]), or it does, with the wire
    behind the connection. *)
Inductive address : Set :=
| No_socket
| Unreachable (fd rc : Z)
| Reaches (fd : Z) (inb : list arrival) (ans : list departure).

(** [socket_socket] *)
Definition socket_socket (a : address) (s : socket) : status * socket :=
  match a with
  | No_socket => (failure, set_fd (-1) s)
  | Unreachable fd _ | Reaches fd _ _ => (success, set_fd fd s)
  end.

(** The body of the loop over the addresses. *)
Definition try_address (s : socket) (a : address) : socket :=
  let (st, s) := socket_socket a s in
  match st, a with
  | failure, _ | _, No_socket => s
  | success, Unreachable _ rc => snd (socket_close rc s)
  | success, Reaches fd inb ans => Socket fd (s_errno s) inb [] ans
  end.

(** [found]: the addresses, [None] when [getaddrinfo] fails. *)
Definition tcp_create_client_socket (found : option (list address)) (port : Z) (s : socket)
    : res (status * socket) :=
  r_assert (fd s =? -1);;
  r_assert (0 <? port);;
  match found with
  | None => Ret (failure, s)
  | Some l =>
      let s := fold_left try_address l s in
      Ret (if fd s =? -1 then failure else success, s)
  end.

Definition connection_connect (found : option (list address)) (port : Z) (c : connection)
    : res (status * connection) :=
  let+ (st, s) := tcp_create_client_socket found port (cn_sock c) in Ret (st, set_sock s c).

(** The last address decides. *)
Lemma tcp_create_client_socket_last l a port s :
  fd s = -1 -> 0 < port -> (forall fd inb ans, a = Reaches fd inb ans -> 0 <= fd) ->
  exists s', tcp_create_client_socket (Some (l ++ [a])) port s =
    Ret (match a with Reaches _ _ _ => success | _ => failure end, s').
Proof.
  intros Hs Hp Ha. unfold tcp_create_client_socket. rewrite Hs, (proj2 (Z.ltb_lt _ _) Hp). cbn.
  rewrite fold_left_app. cbn. generalize (fold_left try_address l s). intros s1. unfold try_address.
  destruct a as [|d rc|d inb ans]; cbn.
  - by eexists.
  - unfold socket_close. cbn. destruct (Z.eqb_spec d (-1)) as [->|]; by eexists.
  - specialize (Ha d inb ans eq_refl). rewrite (proj2 (Z.eqb_neq d (-1))) by lia. by eexists.
Qed.

(** * The TCP client *)

Inductive tl_num : Set :=
| Tl_timeout_reads | Tl_timeout_writes | Tl_nretries_read | Tl_nretries_write
| Tl_readbuf_size | Tl_writebuf_size.
Inductive tl_text : Set := Tl_rootcert | Tl_private_key | Tl_ciphers | Tl_cadir.

#[export] Instance tl_num_eq_dec : EqDecision tl_num.
Proof. solve_decision. Defined.
#[export] Instance tl_text_eq_dec : EqDecision tl_text.
Proof. solve_decision. Defined.

Section HttpClient.
Context `{STRINGS}.

(** The two buffers are those of the connection. *)
Record tcp_client : Type := TcpClient {
  tl_socktype : socktype;
  tl_texts : tl_text -> option str;
  tl_nums : tl_num -> Z;
  tc_conn : connection;
}.

Definition tl_with_num (f : tl_num) (v : Z) (p : tcp_client) : tcp_client :=
  TcpClient (tl_socktype p) (tl_texts p) (fun g => if decide (g = f) then v else tl_nums p g) (tc_conn p).
Definition tl_with_text (f : tl_text) (t : option str) (p : tcp_client) : tcp_client :=
  TcpClient (tl_socktype p) (fun g => if decide (g = f) then t else tl_texts p g) (tl_nums p) (tc_conn p).
Definition tl_with_conn (c : connection) (p : tcp_client) : tcp_client :=
  TcpClient (tl_socktype p) (tl_texts p) (tl_nums p) c.

Definition sizeof_tcp_client : Z := 120.
Definition CIPHER_LIST : list Z :=
  bytes "TLS_AES_256_GCM_SHA384:TLS_CHACHA20_POLY1305_SHA256:TLS_AES_128_GCM_SHA256".

Definition client_defaults (f : tl_num) : Z :=
  match f with
  | Tl_timeout_reads | Tl_timeout_writes => 1000
  | Tl_nretries_read | Tl_nretries_write => 5
  | Tl_readbuf_size | Tl_writebuf_size => 10 * 1024
  end.

(** [context]: whether the TLS library gives a context.  What a failure frees is
    not seen again. *)
Definition tcp_client_new (context : bool) (now : Z) (type : socktype) : C (option tcp_client) :=
  let* ok := alloc_ok sizeof_tcp_client in
  if negb ok then ret None
  else
    let* ciphers := str_dup CIPHER_LIST in
    match ciphers with
    | None => ret None
    | Some ciphers =>
        if match type with SOCKTYPE_SSL => negb context | SOCKTYPE_TCP => false end then ret None
        else
          let* rb := membuf_new (client_defaults Tl_readbuf_size) in
          match rb with
          | None => ret None
          | Some rb =>
              let* wb := membuf_new (client_defaults Tl_writebuf_size) in
              match wb with
              | None => ret None
              | Some wb =>
                  let* conn := connection_new [] [] 5 5 now in
                  match conn with
                  | None => ret None
                  | Some conn =>
                      let* conn := lift (connection_assign_read_buffer conn rb) in
                      let* conn := lift (connection_assign_write_buffer conn wb) in
                      ret (Some (TcpClient type (fun f => if decide (f = Tl_ciphers) then Some ciphers else None)
                                   client_defaults conn))
                  end
              end
          end
    end.

Definition tcp_client_free (this : option tcp_client) : res unit :=
  match this with None => Ret tt | Some p => connection_free (tc_conn p) end.

Definition tcp_client_connect (found : option (list address)) (p : tcp_client) (port : Z)
    : res (status * tcp_client) :=
  let+ (st, c) := connection_connect found port (tc_conn p) in Ret (st, tl_with_conn c p).

Definition tcp_client_connection (p : tcp_client) : connection := tc_conn p.

(** [rc]: what [close] returns. *)
Definition tcp_client_close (rc : Z) (p : tcp_client) : res (status * tcp_client) :=
  let+ (st, c) := connection_close rc (tc_conn p) in Ret (st, tl_with_conn c p).

Definition tcp_client_get_timeout_write (p : tcp_client) : Z := tl_nums p Tl_timeout_writes.
Definition tcp_client_get_timeout_read (p : tcp_client) : Z := tl_nums p Tl_timeout_reads.
Definition tcp_client_set_timeout_write (p : tcp_client) (millisec : Z) := tl_with_num Tl_timeout_writes millisec p.
Definition tcp_client_set_timeout_read (p : tcp_client) (millisec : Z) := tl_with_num Tl_timeout_reads millisec p.
Definition tcp_client_set_retries_read (p : tcp_client) (count : Z) := tl_with_num Tl_nretries_read count p.
Definition tcp_client_set_retries_write (p : tcp_client) (count : Z) := tl_with_num Tl_nretries_write count p.
Definition tcp_client_get_retries_write (p : tcp_client) : Z := tl_nums p Tl_nretries_write.
Definition tcp_client_get_retries_read (p : tcp_client) : Z := tl_nums p Tl_nretries_read.

Definition tcp_client_set_readbuf_size (p : tcp_client) (size : Z) : res tcp_client :=
  r_assert (negb (size =? 0));; Ret (tl_with_num Tl_readbuf_size size p).
Definition tcp_client_set_writebuf_size (p : tcp_client) (size : Z) : res tcp_client :=
  r_assert (negb (size =? 0));; Ret (tl_with_num Tl_writebuf_size size p).

(** The string is made when it is set for the first time. *)
Definition tl_set (f : tl_text) (p : tcp_client) (path : list Z) : C (status * tcp_client) :=
  c_assert (0 <? zlen path);;
  let* s := (match tl_texts p f with Some s => ret (Some s) | None => str_new end) in
  match s with
  | None => ret (failure, p)
  | Some s => let* (st, s) := str_set s path in ret (st, tl_with_text f (Some s) p)
  end.

(** [loads]: whether the TLS library takes the file. *)
Definition tcp_client_set_rootcert (loads : bool) (p : tcp_client) (path : list Z) : C (status * tcp_client) :=
  c_assert (match tl_socktype p with SOCKTYPE_SSL => true | SOCKTYPE_TCP => false end);;
  let* (st, p) := tl_set Tl_rootcert p path in
  ret (match st with success => if loads then success else failure | failure => failure end, p).
Definition tcp_client_set_private_key := tl_set Tl_private_key.
Definition tcp_client_set_ca_directory := tl_set Tl_cadir.
Definition tcp_client_set_ciphers (p : tcp_client) (ciphers : list Z) : C (status * tcp_client) :=
  c_assert (match tl_texts p Tl_ciphers with Some _ => true | None => false end);;
  tl_set Tl_ciphers p ciphers.

(** * The HTTP client *)

Record http_client : Type := HttpClient {
  tcpclient : tcp_client;
  cl_request : http_request;
  cl_response : http_response;
}.

Definition sizeof_http_client : Z := 24.

Definition http_client_new (context : bool) (now : Z) (type : socktype) : C (option http_client) :=
  let* ok := alloc_ok sizeof_http_client in
  if negb ok then ret None
  else
    let* rq := request_new in
    match rq with
    | None => ret None
    | Some rq =>
        let* rs := response_new in
        match rs with
        | None => ret None
        | Some rs =>
            let* t := tcp_client_new context now type in
            ret (match t with None => None | Some t => Some (HttpClient t rq rs) end)
        end
    end.

Definition http_client_free (this : option http_client) : res unit :=
  match this with None => Ret tt | Some p => tcp_client_free (Some (tcpclient p)) end.

Definition cl_with_tcp (t : tcp_client) (p : http_client) : http_client :=
  HttpClient t (cl_request p) (cl_response p).

Definition http_client_connect (found : option (list address)) (p : http_client) (port : Z)
    : res (status * http_client) :=
  let+ (st, t) := tcp_client_connect found (tcpclient p) port in Ret (st, cl_with_tcp t p).
Definition http_client_disconnect (rc : Z) (p : http_client) : res (status * http_client) :=
  let+ (st, t) := tcp_client_close rc (tcpclient p) in Ret (st, cl_with_tcp t p).

(** The three fields of a request, up to the first that cannot be set. *)
Definition fill_request (r : http_request) (host uri : list Z) : C (status * http_request) :=
  let* (st, r) := request_set_host r host in
  match st with
  | failure => ret (failure, r)
  | success =>
      let* (st, r) := request_set_uri r uri in
      match st with
      | failure => ret (failure, r)
      | success => request_set_user_agent r (bytes "highlander")
      end
  end.

(** [fuel]: more than the lines of the header. *)
Definition http_client_get (mktime : tm -> Z) (fuel : nat) (p : http_client) (host uri : list Z)
    : C (status * option http_error * http_client) :=
  let r := request_set_version (request_set_method (cl_request p) METHOD_GET) VERSION_11 in
  let* (st, r) := fill_request r host uri in
  match st with
  | failure => ret (failure, None, HttpClient (tcpclient p) r (cl_response p))
  | success =>
      let* (st, e, c) := request_send r (tcp_client_connection (tcpclient p)) in
      match st with
      | failure => ret (failure, e, HttpClient (tl_with_conn c (tcpclient p)) r (cl_response p))
      | success =>
          let* (st, e, (rs, c)) := response_receive mktime fuel (10 * 1024 * 1024) (cl_response p, c) in
          ret (st, e, HttpClient (tl_with_conn c (tcpclient p)) r rs)
      end
  end.

Definition http_client_http_status (p : http_client) : Z := response_get_status (cl_response p).
Definition http_client_response (p : http_client) : http_response := cl_response p.

Definition http_client_get_timeout_write (p : http_client) : Z := tcp_client_get_timeout_write (tcpclient p).
Definition http_client_get_timeout_read (p : http_client) : Z := tcp_client_get_timeout_read (tcpclient p).
Definition http_client_set_timeout_write (p : http_client) (millisec : Z) : http_client :=
  cl_with_tcp (tcp_client_set_timeout_write (tcpclient p) millisec) p.
Definition http_client_set_timeout_read (p : http_client) (millisec : Z) : http_client :=
  cl_with_tcp (tcp_client_set_timeout_read (tcpclient p) millisec) p.
Definition http_client_set_retries_read (p : http_client) (count : Z) : http_client :=
  cl_with_tcp (tcp_client_set_retries_read (tcpclient p) count) p.
Definition http_client_set_retries_write (p : http_client) (count : Z) : http_client :=
  cl_with_tcp (tcp_client_set_retries_write (tcpclient p) count) p.

End HttpClient.
