(* ===== verification/HttpClientProps.v ===== *)
(** HttpClientProps: a client meets a server.

    [http_client_get_spec] says what [http_client_get] sends and what it makes of
    the answer; [client_meets_server] composes it with a round of the server, each
    side reading what the other wrote. *)

From Stdlib Require Import ZArith Lia.
From stdpp Require Import base sets list numbers functions.
From S2P Require Import TcpServerProps.
From S2P Require Import Prelude Convert Cstring MetaMisc Membuf Gensocket Connection HttpBase HeaderLines.
From S2P Require Import HttpDate GeneralHeader GeneralHeaderProps EntityHeader HeaderProps Request RequestProps.
From S2P Require Import Response ResponseProps Threadpool Pool TcpServer HttpServer Service ServiceProps HttpClient.

Section Client.
Context `{StringLaws}.
Variable zone : Z.

Let mktime := HttpDate.mktime zone.

(** What [http_client_get] asks. *)
Definition asks (host uri : list Z) : RequestProps.contents :=
  <[R Rq_user_agent := Some (bytes "highlander")]> (<[R Rq_uri := Some uri]> (<[R Rq_host := Some host]> no_contents)).

(** A field of a request that has none yet is set. *)
Lemma request_field_set f x r w t o :
  rq_flag f = Some x -> RequestProps.holds sent_as r w -> w (R f) = None -> valid_str t -> zlen t <= 2 ^ 38 ->
  wp (rq_set f x r t) o (fun '(st, r') o' =>
    (st = success -> RequestProps.holds sent_as r' (<[R f := Some t]> w) /\ RequestProps.same r r') /\
    (o = [] -> o' = [] /\ st = success)).
Proof.
  intros Hx [Hh Hr] Hw Ht Hlen. eapply wp_mono.
  { eapply (rq_put_spec str_set f x r _ t o); [by left|done|exact Hr|exact Hw|done|done]. }
  intros [st r'] o' [Hst Ho]. split; [|exact Ho]. intros Hs. destruct (Hst Hs) as (Hr' & Hsame & Hg & He).
  split; [|exact Hsame]. split.
  - rewrite Hg, He. by apply headers_hold_own.
  - eapply rq_holds_ext; [|exact Hr']. insert_ext.
Qed.

Lemma fill_request_spec r host uri o :
  RequestProps.holds sent_as r no_contents -> valid_str host -> zlen host <= 2 ^ 38 -> valid_str uri -> zlen uri <= 2 ^ 38 ->
  wp (fill_request r host uri) o (fun '(st, r') o' =>
    (st = success -> RequestProps.holds sent_as r' (asks host uri) /\ method r' = method r /\ version r' = version r) /\
    (o = [] -> o' = [] /\ st = success)).
Proof.
  intros Hr Hh Hhl Hu Hul. unfold fill_request, request_set_host, request_set_uri, request_set_user_agent.
  assert (Hoff : request_flag_is_set r REQUEST_HOST_SET = false).
  { destruct Hr as (_ & Hr & _). destruct (Hr Rq_host) as (s & _ & t & _ & Hv & _). cbn in Hv.
    by destruct (request_flag_is_set r REQUEST_HOST_SET). }
  rewrite Hoff. cbn [negb].
  apply wp_bind, wp_bind, wp_lift. apply wpr_guard; [done|].
  eapply wp_mono; [by apply (request_field_set Rq_host)|]. intros [st r1] o1 [Hst Ho1]. destruct st.
  { apply wp_ret. split; [done|]. intros Hoo. by destruct (Ho1 Hoo). }
  destruct (Hst eq_refl) as [Hr1 Hs1]. clear Hst.
  apply wp_bind. eapply wp_mono; [by apply (request_field_set Rq_uri _ r1 (<[R Rq_host := Some host]> no_contents))|].
  intros [st r2] o2 [Hst Ho2]. destruct st.
  { apply wp_ret. split; [done|]. intros Hoo. destruct (Ho1 Hoo) as [-> _]. by destruct (Ho2 eq_refl). }
  destruct (Hst eq_refl) as [Hr2 Hs2]. clear Hst.
  eapply wp_mono.
  { apply (request_field_set Rq_user_agent _ r2 (<[R Rq_uri := Some uri]> (<[R Rq_host := Some host]> no_contents))
      (bytes "highlander")); [done|done|done|split; [decide_closed|done]|done]. }
  intros [st r3] o3 [Hst Ho3]. split.
  - intros Hs. destruct (Hst Hs) as [Hr3 Hs3]. split; [exact Hr3|].
    destruct Hs1 as (? & ? & _), Hs2 as (? & ? & _), Hs3 as (? & ? & _). split; congruence.
  - intros Hoo. destruct (Ho1 Hoo) as [-> _]. destruct (Ho2 eq_refl) as [-> _]. by apply Ho3.
Qed.

Lemma asks_sendable host uri :
  value_ok mktime (R Rq_host) host -> RequestProps.sendable zone (asks host uri).
Proof.
  intros Hh F v. unfold asks. rewrite !insert_field. repeat case_decide; subst; intros [= <-].
  - right. split; [by eexists|]. split; [decide_closed|]. split; [done|]. split; [done|].
    split; [intros; decide_closed|exact I].
  - by left.
  - right. by split; [eexists|].
Qed.

(** What is between the client and the wire. *)
Definition client_ready (p : http_client) (w0 : ResponseProps.contents) (inc out : list Z) : Prop :=
  RequestProps.holds sent_as (cl_request p) no_contents /\
  ResponseProps.holds (read_as mktime) (cl_response p) w0 /\
  Connection.rep (tc_conn (tcpclient p)) inc out /\ reliable (tc_conn (tcpclient p)).

Lemma http_client_get_spec p host uri v code w w0 body rest out fuel o :
  client_ready p w0 (response_text v code w body ++ rest) out ->
  uri_ok uri -> value_ok mktime (R Rq_host) host ->
  v = VERSION_10 \/ v = VERSION_11 -> has_entity code -> ResponseProps.sendable zone w ->
  w Length = Some (decimal (zlen body)) -> zlen body <= 10 * 1024 * 1024 ->
  (length (HeaderProps.fields : list ResponseProps.field) < fuel)%nat ->
  wp (http_client_get mktime fuel p host uri) o (fun '(st, e, p') o' =>
    (st = success ->
       arrived zone v code (overlay w w0) body rest (out ++ request_text METHOD_GET uri VERSION_11 (asks host uri))
         (cl_response p') (tc_conn (tcpclient p'))) /\
    (o = [] -> st = success)).
Proof.
  intros (Hrq & Hrs & Hrep & Hrel) Huok Hhost Hv Hcode Hw Hlen Hmax Hfuel. unfold http_client_get.
  set (r0 := request_set_version (request_set_method (cl_request p) METHOD_GET) VERSION_11).
  assert (Hr0 : RequestProps.holds sent_as r0 no_contents) by exact Hrq.
  destruct (value_valid mktime (R Rq_host) host Hhost) as [Hhv Hhl].
  assert (Huv : valid_str uri /\ zlen uri <= 2 ^ 38).
  { destruct Huok as (Huc & _ & Hul). split; [split|lia]; [|unfold PTRDIFF_MAX; lia].
    eapply list.Forall_impl; [exact Huc|]. intros x (Hx & _). apply Hx. }
  destruct Huv as [Huv Hul]. apply wp_bind. eapply wp_mono; [by apply fill_request_spec|].
  intros [st r1] o1 [Hst Ho1]. destruct st.
  { apply wp_ret. split; [done|]. intros Hoo. by destruct (Ho1 Hoo). }
  destruct (Hst eq_refl) as (Hr1 & Hm & Hv1). clear Hst. cbn in Hm, Hv1.
  apply wp_bind. eapply wp_mono.
  { eapply (request_send_spec zone r1 (asks host uri) uri); [exact Hr1|by apply asks_sendable|done|done| | |exact Hrep|done].
    - by rewrite Hm.
    - right. by rewrite Hv1. }
  intros [[st e] c1] o2 [Hst Ho2]. destruct st.
  { apply wp_ret. split; [done|]. intros Hoo. destruct (Ho1 Hoo) as [-> _]. by destruct (Ho2 eq_refl). }
  destruct (Hst eq_refl) as [_ Hrep1]. rewrite Hm, Hv1 in Hrep1.
  apply wp_bind. eapply wp_mono.
  { eapply (response_receive_spec zone v code w w0 body); try done. unfold PTRDIFF_MAX. lia. }
  intros [[st' e'] [rs c2]] o3 Hst'. apply wp_ret. destruct st'.
  - split; [done|]. intros Hoo. destruct (Ho1 Hoo) as [-> _]. destruct (Ho2 eq_refl) as [-> _]. by destruct Hst'.
  - by split.
Qed.

Section Exchange.
Variables (stale_errno : errno) (now : Z).
Variables (file_size : list Z -> option Z) (file_reads : list Z -> option (list (list Z))).
Variables (stat : list Z -> file_kind) (behind : block).
Hypothesis Hnow : now <> -1.

(** The fields of the answer as they are sent. *)
Definition answered (r : reply) (w0 : ResponseProps.contents) : ResponseProps.contents :=
  complete now false (zlen (rp_body r)) (rp_fields r (modified now w0)).

(** C2. A client meets a server: when a server in its loop reads what
    [http_client_get] writes, for a page that is registered, and the client reads
    what the server then has put on the wire, the client has the status and the
    fields of the page's reply; the entity it has is a prefix of the page, not
    empty unless the page is, and the rest of it is what the client can still
    read.  Nobody reads or writes more than that. *)
Theorem client_meets_server fuel l s host u p r :
  ready zone s (request_text METHOD_GET u VERSION_11 (asks host u)) [] -> polled (sv_conn s) ->
  asked zone now s METHOD_GET u VERSION_11 (asks host u) p r -> value_ok mktime (R Rq_host) host ->
  (forall w0, unused w0 -> ResponseProps.sendable zone (answered r w0) /\
     (rp_fields r (modified now w0) Length = None \/
      rp_fields r (modified now w0) Length = Some (decimal (zlen (rp_body r))))) -> zlen (rp_body r) <= 10 * 1024 * 1024 ->
  (length (HeaderProps.fields : list RequestProps.field) < fuel)%nat ->
  (length (HeaderProps.fields : list ResponseProps.field) < fuel)%nat ->
  wp (service_round mktime stale_errno now file_size file_reads stat behind fuel l s) [] (fun '(e, s') _ =>
    e = Continues /\ (exists w1, unused w1 /\
    forall c w0, client_ready c w0 (outbox (cn_sock (sv_conn s'))) [] ->
    wp (http_client_get mktime fuel c host u) [] (fun '(st, _, c') _ =>
      st = success /\
      arrived zone VERSION_11 (rp_code r) (overlay (answered r w1) w0) (rp_body r) []
        (request_text METHOD_GET u VERSION_11 (asks host u)) (cl_response c') (tc_conn (tcpclient c'))))).
Proof.
  intros Hready Hpoll Hasked Hhost Hsend Hmax Hf1 Hf2. pose proof Hasked as [_ _ Huok _ _ _ _ _ [Hcode _]].
  eapply wp_mono; [eapply (service_answers_spec zone stale_errno now file_size file_reads stat behind); try done;
    rewrite app_nil_r; exact Hready|].
  intros [e s'] o' (-> & _ & _ & w1 & Hw1 & Hready'). split; [done|]. exists w1. split; [done|].
  destruct Hready' as (_ & _ & _ & _ & _ & Hout & _). rewrite Hout. intros c w0 Hc.
  eapply wp_mono; [apply (http_client_get_spec c host u VERSION_11 (rp_code r) (answered r w1) w0 (rp_body r) [] [] fuel); try done|].
  - by rewrite app_nil_r.
  - by right.
  - by apply Hsend.
  - by apply complete_length, Hsend.
  - intros [[st e] c'] o2 [Hst Ho]. specialize (Ho eq_refl). split; [done|]. by apply Hst.
Qed.

End Exchange.
End Client.

(** * A client at the site *)

(** A client that will read [wire]. *)
Definition client_of (wire : list Z) : http_client :=
  HttpClient (TcpClient SOCKTYPE_TCP (fun _ => None) client_defaults (fresh_conn 4096 1 [Arrives wire] []))
    blank_request (sample_response []).

Lemma delivered wire : Connection.rep (fresh_conn 4096 1 [Arrives wire] []) wire [].
Proof.
  pose proof (fresh_rep 4096 1 [Arrives wire] [] ltac:(lia) ltac:(done)) as Hr.
  destruct wire; [done|]. cbn [deliver] in Hr. by rewrite app_nil_r in Hr.
Qed.

Lemma client_of_ready wire : client_ready 0 (client_of wire) ResponseProps.sample_contents wire [].
Proof.
  split; [apply blank_holds|]. split; [apply sample_response_holds|]. split; [|done].
  apply delivered.
Qed.

Lemma hello_sendable w0 : unused w0 -> ResponseProps.sendable 0 (answered nov_11 hello_reply w0).
Proof.
  intros [-> | ->] F v HF; destruct F as [[]|[]|[]| | | |]; try discriminate HF; injection HF as <-;
    (split; [by eexists|]); (split; [unfold on_line; decide_closed|]);
    (split; [by vm_compute|]); (split; [by vm_compute|]); (split; [discriminate|]);
    match goal with
    | |- True => exact I
    | |- exists d, parse_rfc822_date _ _ = _ /\ _ =>
        eexists; split; [vm_compute; reflexivity|discriminate]
    | |- _ => by exists (zlen sample_body)
    end.
Qed.

Definition example_org : list Z := bytes "example.org".
Definition hello_uri : list Z := bytes "/index.html".

(** A server that will read what the client asks. *)
Definition hello_serving : serving :=
  Serving hello_site
    (fresh_conn 4096 1 [Arrives (request_text METHOD_GET hello_uri VERSION_11 (asks example_org hello_uri))] [])
    blank_request html_response.

Lemma client_meets_server_witness :
  let l := Calls true true true true true true [] None true in
  wp (service_round (HttpDate.mktime 0) EIO nov_11 site_size (fun _ => None) site_stat [None] 50 l hello_serving) []
    (fun '(e, s') _ => e = Continues /\ (exists w1, unused w1 /\
      wp (http_client_get (HttpDate.mktime 0) 50 (client_of (outbox (cn_sock (sv_conn s')))) example_org hello_uri) []
        (fun '(st, _, c') _ => st = success /\
          arrived 0 VERSION_11 200 (overlay (answered nov_11 hello_reply w1) ResponseProps.sample_contents) sample_body []
            (request_text METHOD_GET hello_uri VERSION_11 (asks example_org hello_uri))
            (cl_response c') (tc_conn (tcpclient c'))))).
Proof.
  intros l. assert (Hhost : value_ok (HttpDate.mktime 0) (R Rq_host) example_org).
  { split; [unfold on_line; decide_closed|]. split; [done|]. split; [done|]. split; [discriminate|exact I]. }
  eapply wp_mono.
  { apply (client_meets_server 0 EIO nov_11 site_size (fun _ => None) site_stat [None]) with
      (host := example_org) (u := hello_uri) (p := hello_page) (r := hello_reply).
    - discriminate.
    - split; [apply blank_holds|]. split; [exists html; split; [by left|apply html_holds]|].
      split; [by repeat split; [exact rep_fresh|by exists []; exact rep_fresh|left]|].
      split; [|split; [done|split; [done|by left]]].
      apply delivered.
    - by eexists _, _.
    - split.
      + done.
      + by right.
      + split; [unfold on_line; decide_closed|]. split; [done|]. unfold zlen. simpl. lia.
      + by apply asks_sendable.
      + done.
      + done.
      + eexists. split; [done|]. reflexivity.
      + apply hello_answers.
      + split; [by left|]. apply hello_reply_ok.
    - exact Hhost.
    - intros w0 Hw0. split; [by apply hello_sendable|]. right. cbn [rp_fields hello_reply].
      by rewrite insert_field, decide_True.
    - done.
    - apply Nat.ltb_lt. vm_compute. reflexivity.
    - apply Nat.ltb_lt. vm_compute. reflexivity. }
  intros [e s'] o' (He & w1 & Hw1 & Hall). split; [exact He|]. exists w1. split; [exact Hw1|].
  apply Hall, client_of_ready.
Defined.
