(* ===== verification/Array.v ===== *)
(** Array: the growing array of pointers of meta/src/meta_array.c and
    meta/src/meta_array.h.

    The block is a list of cells, [None] being a null pointer or a cell that
    [realloc] has added.  [array_is_list] shows that the array is the list of
    what was added. *)

From Stdlib Require Import ZArith Lia.
From stdpp Require Import base list numbers.
From S2P Require Import Prelude.

Section Array.
Context {A : Type}.

Record array : Type := mk_array {
  can_grow : bool;
  nused : Z;
  nallocated : Z;
  elements : list (option A);
}.

Definition sizeof_array : Z := 32.

Definition array_new (nmemb : Z) (grows : bool) : C (option array) :=
  c_assert (0 <? nmemb);;
  let* ok := alloc_ok sizeof_array in
  if negb ok then ret None
  else
    let* ok := alloc_ok (nmemb * 8) in
    ret (if ok : bool then Some (mk_array grows 0 nmemb (replicate (Z.to_nat nmemb) None)) else None).

(** What the destructor is called with, last element first. *)
Fixpoint free_loop (n : nat) (l : list (option A)) : res (list A) :=
  match n with
  | O => Ret []
  | S n =>
      match l !! n with
      | Some (Some x) => let+ r := free_loop n l in Ret (x :: r)
      | _ => Fault Uninitialised
      end
  end.

Definition array_free (a : array) (free_fn : bool) : res (list A) :=
  if free_fn then free_loop (Z.to_nat (nused a)) (elements a) else Ret [].

Definition array_extend (a : array) (nmemb : Z) : C (status * array) :=
  c_assert (0 <? nmemb);;
  let n := u64 (nallocated a + nmemb) in
  let size := u64 (8 * n) in
  let* ok := alloc_ok size in
  ret (if ok : bool
       then (success, mk_array (can_grow a) (nused a) n
               (take (Z.to_nat (size / 8)) (elements a) ++
                replicate (Z.to_nat (size / 8) - length (elements a)) None))
       else (failure, a)).

Definition array_nelem (a : array) : Z := nused a.

Definition array_get (a : array) (ielem : Z) : res A :=
  r_assert ((0 <=? ielem) && (ielem <? array_nelem a));;
  match elements a !! Z.to_nat ielem with
  | Some (Some x) => Ret x
  | _ => Fault Uninitialised
  end.

Definition array_add (a : array) (elem : A) : C (status * array) :=
  let store a :=
    if nused a <? zlen (elements a)
    then ret (success, mk_array (can_grow a) (nused a + 1) (nallocated a)
                (<[Z.to_nat (nused a) := Some elem]> (elements a)))
    else lift (Fault OutOfBounds) in
  if nused a =? nallocated a then
    if negb (can_grow a) then ret (failure, a)
    else
      let* (st, a) := array_extend a (nused a) in
      match st with
      | failure => ret (failure, a)
      | success => store a
      end
  else store a.

(** * The list *)

Definition array_rep (a : array) (l : list A) : Prop :=
  nused a = zlen l /\ 0 < nallocated a /\ zlen (elements a) = nallocated a /\
  exists rest, elements a = (Some <$> l) ++ rest.

(** Calls of [array_add], and the list of what was taken. *)
Fixpoint run_adds (xs : list A) (a : array) (l : list A) : C (array * list A) :=
  match xs with
  | [] => ret (a, l)
  | x :: xs =>
      let* (st, a) := array_add a x in
      run_adds xs a (match st with success => l ++ [x] | failure => l end)
  end.

Lemma array_store a l x :
  array_rep a l -> nused a < nallocated a ->
  (nused a <? zlen (elements a)) = true /\
  array_rep (mk_array (can_grow a) (nused a + 1) (nallocated a)
    (<[Z.to_nat (nused a) := Some x]> (elements a))) (l ++ [x]).
Proof.
  intros (Hn & Hp & Hl & rest & He) Hlt. rewrite (proj2 (Z.ltb_lt _ _)) by lia. split; [done|].
  split; [cbn; zlia|]. split; [done|]. split; [cbn; unfold zlen in *; by rewrite length_insert|].
  destruct rest as [|c rest].
  { exfalso. rewrite app_nil_r in He. apply (f_equal zlen) in He. rewrite zlen_fmap in He. lia. }
  exists rest. cbn. rewrite He, Hn. unfold zlen. rewrite Nat2Z.id.
  rewrite insert_app_r_alt by (by rewrite length_fmap). rewrite length_fmap, Nat.sub_diag. cbn.
  by rewrite fmap_app, <-app_assoc.
Qed.

Lemma array_extend_spec a l o :
  array_rep a l -> nused a = nallocated a -> nallocated a <= 2 ^ 50 ->
  wp (array_extend a (nused a)) o (fun '(st, a') o' =>
    array_rep a' l /\ can_grow a' = can_grow a /\
    nallocated a' = (match st with success => 2 * nallocated a | failure => nallocated a end) /\
    (o = [] -> o' = [] /\ st = success)).
Proof.
  intros Hr Hf Hmax. pose proof Hr as (Hn & Hp & Hl & rest & He). unfold array_extend.
  rewrite Hf. wp. rewrite (u64_small (nallocated a + nallocated a)) by lia.
  rewrite u64_small by lia.
  apply wp_alloc_ok. intros b o' _ Hb. wp. destruct b.
  - split; [|split; [done|split; [cbn; lia|]]].
    2:{ intros Ho. split; [|done]. by destruct (Hb Ho). }
    replace (8 * (nallocated a + nallocated a) / 8) with (nallocated a + nallocated a)
      by (rewrite Z.mul_comm, Z.div_mul; lia).
    rewrite take_ge by (unfold zlen in Hl; lia).
    split; [cbn; lia|]. split; [cbn; lia|]. split.
    + cbn. rewrite zlen_app, zlen_replicate, Hl. unfold zlen in Hl. lia.
    + cbn. eexists. rewrite He, <-app_assoc. done.
  - split; [done|]. split; [done|]. split; [done|]. intros Ho. destruct (Hb Ho) as [_ Hb'].
    by rewrite (proj2 (Z.leb_le _ _)) in Hb' by (unfold PTRDIFF_MAX; lia).
Qed.

(** One call: the list grows by the element, or the call fails, because a fixed
    array is full or the allocator refuses. *)
Lemma array_add_spec a l x o :
  array_rep a l -> nallocated a <= 2 ^ 50 ->
  wp (array_add a x) o (fun '(st, a') o' =>
    array_rep a' (match st with success => l ++ [x] | failure => l end) /\
    can_grow a' = can_grow a /\ nallocated a' <= Z.max (nallocated a) (2 * zlen l) /\
    (can_grow a = false -> nallocated a' = nallocated a /\
      (st = success <-> zlen l < nallocated a)) /\
    (o = [] -> o' = [] /\ (can_grow a = true -> st = success))).
Proof.
  intros Hr Hmax. pose proof Hr as (Hn & Hp & Hl & _). unfold array_add.
  destruct (Z.eqb_spec (nused a) (nallocated a)) as [Hf|Hf].
  - destruct (can_grow a) eqn:Hg; cbn [negb].
    + wp. eapply wp_mono; [by apply array_extend_spec|]. intros [[] a1] o1 (Hr1 & Hg1 & Hn1 & Ho1).
      * wp. split; [done|]. split; [congruence|]. split; [lia|]. split; [done|].
        intros Ho. by destruct (Ho1 Ho).
      * destruct (array_store a1 l x Hr1) as [-> Hr2]; [destruct Hr1 as (-> & _); lia|]. wp.
        split; [done|]. split; [cbn; congruence|]. split; [cbn; lia|]. split; [done|].
        intros Ho. by destruct (Ho1 Ho).
    + wp. split; [done|]. split; [done|]. split; [lia|]. split; [|done]. intros _.
      split; [done|]. split; [done|lia].
  - assert (Hlt : nused a < nallocated a).
    { destruct Hr as (_ & _ & _ & rest & He). apply (f_equal zlen) in He.
      rewrite zlen_app, zlen_fmap in He. zlen_facts. lia. }
    destruct (array_store a l x Hr Hlt) as [-> Hr2]. wp.
    split; [done|]. split; [done|]. split; [cbn; lia|]. split; [|done]. intros _.
    split; [done|]. split; [intros _; lia|done].
Qed.

Lemma array_new_spec nmemb grows o :
  0 < nmemb -> 
  wp (array_new nmemb grows) o (fun r o' =>
    (forall a, r = Some a -> array_rep a [] /\ can_grow a = grows /\ nallocated a = nmemb) /\
    (o = [] -> nmemb * 8 <= PTRDIFF_MAX -> o' = [] /\ is_Some r)).
Proof.
  intros Hn. unfold array_new. wp. apply wp_alloc_ok. intros b o1 _ Hb. destruct b; cbn [negb]; wp.
  - apply wp_alloc_ok. intros b o2 _ Hb2. wp. split.
    + intros a Ha. destruct b; [|done]. injection Ha as <-. split; [|done].
      split; [done|]. split; [done|]. split; [cbn; rewrite zlen_replicate; lia|]. by eexists.
    + intros Ho Hm. destruct (Hb Ho) as [-> _]. destruct (Hb2 eq_refl) as [-> Hb3].
      rewrite Hb3, (proj2 (Z.leb_le _ _)) by lia. by eauto.
  - split; [done|]. intros Ho _. by destruct (Hb Ho) as [_ ?].
Qed.

Lemma array_fits a l : array_rep a l -> zlen l <= nallocated a.
Proof.
  intros (_ & _ & Hl & rest & He). apply (f_equal zlen) in He.
  rewrite zlen_app, zlen_fmap in He. zlen_facts. lia.
Qed.

Lemma array_adds_spec xs a l o :
  array_rep a l -> nallocated a <= 2 ^ 50 -> zlen l + zlen xs <= 2 ^ 40 ->
  wp (run_adds xs a l) o (fun '(a', l') _ =>
    array_rep a' l' /\ can_grow a' = can_grow a /\
    (exists ys, l' = l ++ ys /\ ys `sublist_of` xs) /\
    (can_grow a = false -> nallocated a' = nallocated a /\
       l' = take (Z.to_nat (nallocated a)) (l ++ xs)) /\
    (can_grow a = true -> o = [] -> l' = l ++ xs)).
Proof.
  revert a l o. induction xs as [|x xs IH]; intros a l o Hr Hn Hmax; cbn [run_adds]; wp;
    pose proof (array_fits a l Hr) as Hfit.
  - split; [done|]. split; [done|]. rewrite app_nil_r. split; [exists []; by rewrite app_nil_r|].
    split; [|done]. intros _. split; [done|]. rewrite take_ge; [done|]. unfold zlen in Hfit. lia.
  - rewrite zlen_cons in Hmax. zlen_facts.
    eapply wp_mono; [by apply (array_add_spec a l x o Hr)|].
    intros [st a1] o1 (Hr1 & Hg1 & Hn1 & Hfix & Ho1).
    eapply wp_mono; [apply (IH a1 _ o1 Hr1); [lia|destruct st; zlia]|].
    intros [a2 l2] o2 (Hr2 & Hg2 & (ys & Hl2 & Hys) & Hfix2 & Hok).
    split; [done|]. split; [congruence|]. rewrite Hg1 in Hfix2, Hok. split; [|split].
    + destruct st; [exists ys; split; [done|by apply sublist_cons]|].
      exists (x :: ys). rewrite Hl2, <-app_assoc. split; [done|]. by apply sublist_skip.
    + intros Hg. destruct (Hfix Hg) as [Hn' Hst]. destruct (Hfix2 Hg) as [-> ->]. split; [done|].
      rewrite Hn'. destruct st; [|by rewrite <-app_assoc].
      assert (zlen l = nallocated a) as <-; [|unfold zlen; by rewrite Nat2Z.id, !take_app_length].
      destruct (Z.lt_ge_cases (zlen l) (nallocated a)) as [Hlt|]; [|lia]. by apply Hst in Hlt.
    + intros Hg Ho. destruct (Ho1 Ho) as [-> Hst]. rewrite (Hst Hg) in Hok.
      rewrite Hok by done. by rewrite <-app_assoc.
Qed.

Lemma array_get_spec a l i x :
  array_rep a l -> l !! i = Some x -> array_get a (Z.of_nat i) = Ret x.
Proof.
  intros (Hn & _ & _ & rest & He) Hi. pose proof (lookup_lt_Some _ _ _ Hi).
  unfold array_get, array_nelem, guard. rewrite Hn.
  rewrite (proj2 (Z.ltb_lt (Z.of_nat i) (zlen l))) by (unfold zlen; lia).
  rewrite (proj2 (Z.leb_le 0 (Z.of_nat i))) by lia. cbn [andb res_bind].
  rewrite Nat2Z.id, He, lookup_app_l by (by rewrite length_fmap). by rewrite list_lookup_fmap, Hi.
Qed.

(** An array holds what was added to it, in order: after any calls of
    [array_add] under any behaviour of the allocator, [array_get] returns the
    elements that were taken and fails its assertion beyond them.  A fixed array
    takes exactly as many as it was made for; a growing one takes all as long as
    the allocator does not refuse. *)
Theorem array_is_list nmemb grows xs o :
  0 < nmemb <= 2 ^ 50 -> zlen xs <= 2 ^ 40 ->
  wp (array_new nmemb grows) o (fun r o' => forall a, r = Some a ->
    wp (run_adds xs a []) o' (fun '(a', l) _ =>
      array_nelem a' = zlen l /\ l `sublist_of` xs /\
      (forall i, array_get a' (Z.of_nat i) =
         match l !! i with Some x => Ret x | None => Fault AssertFailed end) /\
      (grows = false -> l = take (Z.to_nat nmemb) xs) /\
      (grows = true -> o' = [] -> l = xs))).
Proof.
  intros Hn Hxs. eapply wp_mono; [apply array_new_spec; lia|]. intros r o' [Hr _] a Ha.
  destruct (Hr a Ha) as (Hrep & <- & <-).
  eapply wp_mono; [apply array_adds_spec; [done|lia|rewrite zlen_nil; lia]|].
  intros [a' l] o2 (Hrep' & _ & (ys & -> & Hys) & Hfix & Hok). cbn in *.
  split; [by destruct Hrep'|]. split; [done|]. split; [|split].
  - intros i. destruct (ys !! i) as [x|] eqn:Hi; [by eapply array_get_spec|].
    unfold array_get, array_nelem, guard. destruct Hrep' as (-> & _).
    apply lookup_ge_None in Hi. rewrite (proj2 (Z.ltb_ge _ _)) by (unfold zlen; lia).
    by rewrite andb_false_r.
  - intros Hg. by apply Hfix.
  - done.
Qed.

End Array.

Lemma array_is_list_witness :
  wp (array_new 2 false) [] (fun r o' => forall a, r = Some a ->
    wp (run_adds [5; 6; 7] a []) o' (fun '(a', l) _ =>
      array_nelem a' = zlen l /\ l `sublist_of` [5; 6; 7] /\
      (forall i, array_get a' (Z.of_nat i) =
         match l !! i with Some x => Ret x | None => Fault AssertFailed end) /\
      (false = false -> l = take (Z.to_nat 2) [5; 6; 7]) /\
      (false = true -> o' = [] -> l = [5; 6; 7]))).
Proof. apply (array_is_list 2 false [5; 6; 7] []); [done|]. by vm_compute. Defined.
