(* ===== verification/Client.v ===== *)
(** Client: what a user of a component sees.

    A user makes one call after another, and what it calls next depends on the
    answers.  A component refines an abstract one when every user that keeps to
    the preconditions of the abstract one gets answers the abstract one gives;
    [performs_refine] reduces this to one call. *)

From stdpp Require Import base list.
From S2P Require Import Prelude.

Section Client.
(** The states of the component, the abstract states, the calls and the answers. *)
Context {S M K R : Type}.

Inductive client : Type := Stop | Do (k : K) (go_on : R -> client).

Fixpoint performs (perform : S -> K -> C (R * S)) (s : S) (u : client) : C (list (K * R) * S) :=
  match u with
  | Stop => ret ([], s)
  | Do k go_on =>
      let* (a, s) := perform s k in
      let* (l, s) := performs perform s (go_on a) in
      ret ((k, a) :: l, s)
  end.

Section Abstract.
(** [answers m k a m']: in the abstract state [m], the call [k] may give the answer
    [a] and the state [m']; [enabled]: the precondition of a call. *)
Context (answers : M -> K -> R -> M -> Prop) (enabled : M -> K -> Prop).

Inductive run : M -> list (K * R) -> M -> Prop :=
| run_nil m : run m [] m
| run_cons m k a m1 l m2 : answers m k a m1 -> run m1 l m2 -> run m ((k, a) :: l) m2.

(** A user that keeps to the preconditions, whatever it is answered. *)
Fixpoint allowed (m : M) (u : client) : Prop :=
  match u with
  | Stop => True
  | Do k go_on => enabled m k /\ forall a m', answers m k a m' -> allowed m' (go_on a)
  end.

Lemma performs_refine (perform : S -> K -> C (R * S)) (rep : S -> M -> Prop) (ok : R -> Prop) :
  (forall s m k o, rep s m -> enabled m k ->
     wp (perform s k) o (fun '(a, s') o' =>
       exists m', answers m k a m' /\ rep s' m' /\ (o = [] -> o' = [] /\ ok a))) ->
  forall u s m o, rep s m -> allowed m u ->
    wp (performs perform s u) o (fun '(l, s') _ =>
      exists m', run m l m' /\ rep s' m' /\ (o = [] -> Forall ok l.*2)).
Proof.
  intros Hone u. induction u as [|k go_on IH]; intros s m o Hr Ha; cbn [performs]; wp.
  - exists m. split; [constructor|]. split; [done|]. constructor.
  - destruct Ha as [Hk Ha]. eapply wp_mono; [by apply Hone|].
    intros [a s1] o1 (m1 & Hans & Hr1 & Ho). wp. eapply wp_mono; [by eapply (IH a s1 m1), Ha|].
    intros [l s2] o2 (m2 & Hrun & Hr2 & Hl). wp. exists m2.
    split; [by econstructor|]. split; [done|]. intros Ho1. destruct (Ho Ho1) as [-> Hok].
    constructor; [done|]. by apply Hl.
Qed.

End Abstract.
End Client.

Arguments client K R : clear implicits.
