(* ===== verification/Stack.v ===== *)
(** Stack: the stack of meta/src/meta_stack.c, a list of meta/src/meta_list.c
    used from its front.

    A stack is the list header; what is pushed is not NULL.  A stack that was
    emptied and pushed on again keeps the wrong end in the header of its list,
    which the stack never uses: the invariant [stack_rep] says nothing of it, and
    [stack_is_lifo] holds for every sequence of calls. *)

From Stdlib Require Import ZArith Lia.
From stdpp Require Import base list numbers gmap sets.
From S2P Require Import Prelude Client MetaList MetaListLoops.

#[local] Arguments load : simpl never.
#[local] Arguments store : simpl never.

Section Stack.
Context {A : Type}.

Abbreviation heap := (gmap loc (node A)).
Implicit Types (h : heap) (xs : list A) (x y : A) (ls : list loc) (c : data A).

Definition sizeof_stack : Z := 8.

Definition stack_new (h : heap) : C (option loc * heap) :=
  let* ok := alloc_ok sizeof_stack in
  if negb ok then ret (None, h) else list_new h.

Definition stack_free (h : heap) (this : option loc) : C heap :=
  match this with None => ret h | Some _ => sublist_free h this end.

Definition stack_push (h : heap) (this : loc) (p : A) : C (status * heap) :=
  let* (r, h) := list_insert h (Some this) p in
  ret (match r with None => failure | Some _ => success end, h).

Definition stack_top (h : heap) (this : loc) : C A :=
  let* n := list_size h this in
  c_assert (negb (n =? 0));;
  let* i := lift (list_first h (Some this)) in
  c_assert (negb (list_end i));;
  lift (list_get h i).

Definition stack_pop (h : heap) (this : loc) : C heap :=
  let* n := list_size h this in
  c_assert (negb (n =? 0));;
  let* i := lift (list_first h (Some this)) in
  if negb (list_end i) then
    let* (_, h) := lift (list_remove_node h this i) in ret h
  else ret h.

Definition stack_nelem (h : heap) (this : loc) : C Z := list_size h this.

Definition stack_get (h : heap) (this : loc) (i : nat) : C (option A) := list_get_item h this i.

(** * Calls *)

Inductive call : Type := Push (x : A) | Pop | Top | Nelem | Get (i : nat).

(** What a call returns. *)
Inductive answer : Type := Status (st : status) | Nothing | Value (x : A) | Number (n : Z) | NoValue.

Definition perform (s : loc) (h : heap) (k : call) : C (answer * heap) :=
  match k with
  | Push x => let* (st, h) := stack_push h s x in ret (Status st, h)
  | Pop => let* h := stack_pop h s in ret (Nothing, h)
  | Top => let* x := stack_top h s in ret (Value x, h)
  | Nelem => let* n := stack_nelem h s in ret (Number n, h)
  | Get i => let* r := stack_get h s i in
             ret (match r with Some x => Value x | None => NoValue end, h)
  end.

(** The same call on a list, the top first; a push has succeeded or not. *)
Definition answers (xs : list A) (k : call) (a : answer) (xs' : list A) : Prop :=
  match k with
  | Push x => a = Status success /\ xs' = x :: xs \/ a = Status failure /\ xs' = xs
  | Pop => exists x, xs = x :: xs' /\ a = Nothing
  | Top => xs' = xs /\ exists x, head xs = Some x /\ a = Value x
  | Nelem => xs' = xs /\ a = Number (zlen xs)
  | Get i => xs' = xs /\ exists x, xs !! i = Some x /\ a = Value x
  end.

(** A user that neither pops nor looks at an empty stack, whatever pushes fail. *)
Definition enabled (xs : list A) (k : call) : Prop :=
  match k with
  | Pop | Top => xs <> []
  | Get i => (i < length xs)%nat
  | Push _ | Nelem => True
  end.

(** * The stack as a list *)

Definition pointer (c : data A) : Prop := match c with Item _ => False | _ => True end.

Definition stack_rep (h : heap) (s : loc) (xs : list A) : Prop :=
  exists ls c, islist h s ls xs c /\ pointer c.

Lemma stack_new_spec h o :
  wp (stack_new h) o (fun '(r, h') o' =>
    (forall s, r = Some s -> stack_rep h' s []) /\ (o = [] -> is_Some r)).
Proof.
  unfold stack_new. wp. apply wp_alloc_ok. intros b o1 _ Hb. destruct b; cbn [negb]; wp.
  - apply list_new_spec.
    + intros l h' o' _ Hl _ _. split; [|by eauto]. intros s [= <-]. by exists [], Null.
    + intros o' Ho. split; [done|]. intros ->. by destruct (Hb eq_refl) as [? _].
  - split; [done|]. intros ->. by destruct (Hb eq_refl).
Qed.

Lemma stack_push_spec h s xs x o :
  stack_rep h s xs ->
  wp (stack_push h s x) o (fun '(st, h') o' =>
    match st with
    | success => stack_rep h' s (x :: xs) /\ (o = [] -> o' = [])
    | failure => stack_rep h' s xs /\ o <> []
    end).
Proof.
  intros (ls & c & Hl & Hc). pose proof (il_header _ _ _ _ _ Hl) as Hh.
  unfold stack_push, list_insert, list_or_new. do 2 wp.
  apply wp_alloc_node; [|intros o' Ho; wp; split; [by exists ls, c|done]].
  intros n o' Hn Ho. pose proof (fresh_not_in _ _ _ _ _ _ Hl Hn) as Hnin.
  assert (s <> n) by set_solver.
  assert (Hfin : forall h' c', pointer c' -> relinked h h' s [] ls (Some n) (Some n) c' ->
    h' !! n = Some (mkNode (hd_or ls None) (Some s) (Item x)) -> stack_rep h' s (x :: xs)).
  { intros h' c' Hc' Hrel Hnn. exists (n :: ls), c'. split; [|done].
    by eapply (islist_insert h h' s [] ls [] xs). }
  destruct ls as [|l ls]; cbn [hd_or] in Hh.
  - destruct c as [|l|]; [| |done]; heap_steps; (split; [|done]);
      [eapply (Hfin _ (Cached n))|eapply (Hfin _ (Cached l))]; try done;
      try solve_relinked n; rewrite !lookup_alter_ne by done;
      rewrite !lookup_alter_eq, lookup_insert_eq; done.
  - assert (is_Some (h !! l)) by (eapply islist_in; [exact Hl | set_solver]).
    assert (l <> n) by set_solver. destruct (islist_apart h s [] l ls xs _ Hl) as [? _].
    destruct c as [|k|]; [| |done]; heap_steps; (split; [|done]);
      [eapply (Hfin _ (Cached n))|eapply (Hfin _ (Cached k))]; try done;
      try solve_relinked n; rewrite !lookup_alter_ne by done;
      rewrite !lookup_alter_eq, lookup_insert_eq; done.
Qed.

Lemma stack_top_spec h s x xs o :
  stack_rep h s (x :: xs) -> wp (stack_top h s) o (fun r o' => r = x /\ o' = o).
Proof.
  intros (ls & c & Hl & Hc). unfold stack_top. wp. eapply wp_mono; [by eapply list_size_spec|].
  intros n o' [-> ->]. wp.
  destruct Hl as [_ Hh Hs]. destruct ls as [|l ls]; [done|]. destruct Hs as [Hl _].
  unfold list_first, list_get. heap_steps. cbn [hd_or list_end negb guard wpr]. heap_steps. done.
Qed.

Lemma stack_pop_spec h s x xs o :
  stack_rep h s (x :: xs) -> wp (stack_pop h s) o (fun h' o' => stack_rep h' s xs /\ o' = o).
Proof.
  intros (ls & c & Hl & Hc). unfold stack_pop. wp. eapply wp_mono; [by eapply list_size_spec|].
  intros n o' [-> ->]. wp.
  pose proof Hl as [Hnd Hh Hs]. destruct ls as [|l ls]; [done|]. destruct Hs as [Hk Hs].
  unfold list_first. heap_steps. cbn [hd_or list_end negb] in *. unfold list_remove_node.
  assert (s <> l) by (apply NoDup_cons in Hnd as [? _]; set_solver).
  assert (l ∉ ls) by (by apply NoDup_cons in Hnd as [_ [? _]%NoDup_cons]).
  assert (Hfin : forall h' c', pointer c' -> relinked h h' s [] ls (hd_or ls None) (Some s) c' ->
    stack_rep h' s xs).
  { intros h' c' Hc' Hrel. exists ls, c'. split; [|done].
    by eapply (islist_remove h h' s [] l ls [] x xs). }
  assert (Hkn : l ∉ s :: [] ++ ls) by set_solver.
  destruct ls as [|k ls]; cbn [hd_or] in Hk.
  - heap_steps. destruct c as [|e|]; [| |done]; cbn [ndata] in *; [|case_decide]; heap_steps;
      (split; [|done]); eapply Hfin; try solve_relinked l; done.
  - assert (is_Some (h !! k)) by (eapply islist_in; [exact Hl | set_solver]).
    assert (s <> k) by (apply NoDup_cons in Hnd as [? _]; set_solver).
    assert (l <> k) by set_solver.
    heap_steps. destruct c as [|e|]; [| |done]; cbn [ndata] in *; [|case_decide]; heap_steps;
      (split; [|done]); eapply Hfin; try solve_relinked l; done.
Qed.

Lemma stack_get_spec h s xs i x o :
  stack_rep h s xs -> xs !! i = Some x ->
  wp (stack_get h s i) o (fun r o' => r = Some x /\ o' = o).
Proof. intros (ls & c & Hl & _) Hi. by eapply list_get_item_spec. Qed.

Lemma stack_nelem_spec h s xs o :
  stack_rep h s xs -> wp (stack_nelem h s) o (fun n o' => n = zlen xs /\ o' = o).
Proof. intros (ls & c & Hl & _). by eapply list_size_spec. Qed.

(** One call. *)
Lemma perform_spec h s xs k o :
  stack_rep h s xs -> enabled xs k ->
  wp (perform s h k) o (fun '(a, h') o' =>
    exists xs', answers xs k a xs' /\ stack_rep h' s xs' /\
      (o = [] -> o' = [] /\ a <> Status failure)).
Proof.
  intros Hr Ha. destruct k as [x| | | |i]; cbn [perform enabled] in *; wp.
  - eapply wp_mono; [by eapply stack_push_spec|]. intros [[] h'] o' [Hr' Ho]; wp.
    + exists xs. split; [by right|]. done.
    + exists (x :: xs). split; [by left|]. auto.
  - destruct xs as [|x xs]; [done|]. eapply wp_mono; [by eapply stack_pop_spec|].
    intros h' o' [Hr' ->]. wp. exists xs. split; [by exists x|]. done.
  - destruct xs as [|x xs]; [done|].
    eapply wp_mono; [by eapply stack_top_spec|]. intros r o' [-> ->]. wp.
    exists (x :: xs). split; [split; [done|by exists x]|]. done.
  - eapply wp_mono; [by eapply stack_nelem_spec|]. intros r o' [-> ->]. wp. by exists xs.
  - destruct (lookup_lt_is_Some_2 xs i Ha) as [x Hx].
    eapply wp_mono; [by eapply stack_get_spec|]. intros r o' [-> ->]. wp.
    exists xs. split; [split; [done|by exists x]|]. done.
Qed.

(** A stack is last in, first out: whatever calls a user makes on a new
    stack, one that never takes from an empty stack gets the answers of a list,
    under any behaviour of the allocator; only a push fails, for want of memory,
    and changes nothing then. *)
Theorem stack_is_lifo h u o :
  allowed answers enabled [] u ->
  wp (stack_new h) o (fun '(r, h1) o1 =>
    (o = [] -> is_Some r) /\
    forall s, r = Some s ->
      wp (performs (perform s) h1 u) o1 (fun '(l, h2) _ =>
        exists xs, run answers [] l xs /\ stack_rep h2 s xs /\
          (o1 = [] -> Forall (fun a => a <> Status failure) l.*2))).
Proof.
  intros Ha. eapply wp_mono; [apply stack_new_spec|]. intros [r h1] o1 [Hr Hs]. split; [done|].
  intros s ->. apply (performs_refine answers enabled (perform s) (fun h xs => stack_rep h s xs)).
  - intros. by apply perform_spec.
  - by apply Hr.
  - done.
Qed.

End Stack.

(** Two pushes, then a pop for the ones that succeeded. *)
Definition demo_client : client (call (A := Z)) (answer (A := Z)) :=
  Do (Push 1) (fun _ => Do (Push 2) (fun a => match a with
    | Status success => Do Top (fun _ => Do Pop (fun _ => Stop))
    | _ => Stop
    end)).

Lemma stack_is_lifo_witness :
  wp (stack_new (∅ : gmap loc (node Z))) [true; true; false] (fun '(r, h1) o1 =>
    ([true; true; false] = [] -> is_Some r) /\
    forall s, r = Some s ->
      wp (performs (perform s) h1 demo_client) o1 (fun '(l, h2) _ =>
        exists xs, run answers [] l xs /\ stack_rep h2 s xs /\
          (o1 = [] -> Forall (fun a => a <> Status failure) l.*2))).
Proof.
  apply (stack_is_lifo ∅ demo_client [true; true; false]). split; [exact I|]. intros a xs _.
  split; [exact I|]. intros a' xs' Ha. destruct a' as [[] | | | |]; try exact I.
  destruct Ha as [[_ ->]|[? _]]; [|discriminate]. split; [discriminate|].
  intros ? ? [-> _]. split; [discriminate|]. intros ? ? _. exact I.
Defined.
