(* ===== verification/Map.v ===== *)
(** Map: the map from strings to pointers of meta/src/meta_map.c, a list of
    meta/src/meta_list.c whose payloads point to pairs.

    The memory is a [world]: the nodes of the lists, the pairs, the keys, the
    blocks of the maps themselves, and the log of what the map's [freefunc] was called with.  Each of them is
    allocated and freed by the operations.  [map_owns_values] shows that the
    map is a finite map, that it frees each value it has taken exactly once
    and that it leaves no node, pair, key or map behind. *)

From Stdlib Require Import ZArith Lia.
From stdpp Require Import base list numbers gmap sets.
From S2P Require Import Prelude MetaList MetaListLoops Cstring Pair.

#[local] Arguments load : simpl never.
#[local] Arguments store : simpl never.

Section Map.
Context {V S : Type}.

(** [struct pair]: its key is in a block of its own. *)
Record pair : Type := mkPair { pkey : loc; pvalue : V }.

Abbreviation heap := (gmap loc (node loc)).

(** [keys]: the blocks of the keys, each with its string; [structs]: the maps. *)
Record world : Type := World {
  nodes : heap;
  pairs : gmap loc pair;
  keys : gmap loc (list Z);
  structs : gset loc;
  log : list V;
}.

Definition set_nodes (h : heap) (w : world) : world := World h (pairs w) (keys w) (structs w) (log w).

(** [self]: where the map is.  [freefunc] may be null. *)
Record map : Type := Map { self : loc; lst : loc; freefunc : bool }.

Definition sizeof_map : Z := 16.
Definition sizeof_pair : Z := 16.

(** [*p], [this->lst] and the string at a key *)
Definition pair_at (w : world) (p : loc) : res pair :=
  match pairs w !! p with Some e => Ret e | None => Fault OutOfBounds end.
Definition list_of (w : world) (this : map) : res loc :=
  if decide (self this ∈ structs w) then Ret (lst this) else Fault OutOfBounds.
Definition key_at (ks : gmap loc (list Z)) (q : loc) : res (list Z) :=
  match ks !! q with Some s => Ret s | None => Fault OutOfBounds end.

(** * Iterators *)

Definition map_first (w : world) (this : map) : res (option loc) :=
  let+ l := list_of w this in list_first (nodes w) (Some l).
Definition map_next (w : world) (mi : option loc) : res (option loc) := list_next (nodes w) mi.
Definition map_end (mi : option loc) : bool := list_end mi.

Definition map_key (w : world) (mi : option loc) : res (list Z) :=
  let+ p := list_get (nodes w) mi in let+ e := pair_at w p in key_at (keys w) (pkey e).

Definition map_value (w : world) (mi : option loc) : res V :=
  let+ p := list_get (nodes w) mi in let+ e := pair_at w p in Ret (pvalue e).

(** [for (i = list_first(lst); !list_end(i); i = list_next(i))] with a body that
    takes the pair of a node, and may end the loop. *)
Fixpoint entries_loop {T} (fuel : nat) (w : world) (i : option loc)
    (body : loc -> pair -> T -> res (bool * T)) (t : T) : res (bool * T) :=
  if list_end i then Ret (true, t)
  else
    match fuel with
    | O => Fault FuelOut
    | Datatypes.S fuel =>
        let+ p := list_get (nodes w) i in
        let+ e := pair_at w p in
        let+ (go, t) := body p e t in
        if negb go then Ret (false, t)
        else let+ i := list_next (nodes w) i in entries_loop fuel w i body t
    end.

Definition for_entries {T} (w : world) (this : map) (body : loc -> pair -> T -> res (bool * T)) (t : T)
    : res (bool * T) :=
  let+ i := map_first w this in entries_loop (pass (nodes w)) w i body t.

(** * Operations *)

Definition map_new (w : world) (freefunc : bool) : C (option map * world) :=
  let* ok := alloc_ok sizeof_map in
  if negb ok then ret (None, w)
  else
    let new := base.fresh (structs w) in
    let* (l, h) := list_new (nodes w) in
    ret (match l with
         | None => (None, set_nodes h w)
         | Some l => (Some (Map new l freefunc), World h (pairs w) (keys w) ({[new]} ∪ structs w) (log w))
         end).

(** [if (this->freefunc != 0) this->freefunc(v)] *)
Definition call_free (this : map) (v : V) (l : list V) : list V :=
  if freefunc this then l ++ [v] else l.

(** [free(q)] for a key: it must be there. *)
Definition free_key (q : loc) (ks : gmap loc (list Z)) : res (gmap loc (list Z)) :=
  let+ _ := key_at ks q in Ret (delete q ks).

(** The loop frees the key and gives the value to [freefunc], [list_free] calls
    [free] on each pair, then the map goes. *)
Definition map_free (w : world) (this : option map) : C world :=
  match this with
  | None => ret w
  | Some this =>
      let* (_, (ks, l)) := lift (for_entries w this (fun _ e '(ks, l) =>
        let+ ks := free_key (pkey e) ks in Ret (true, (ks, call_free this (pvalue e) l))) (keys w, log w)) in
      let* lst := lift (list_of w this) in
      let* (p, h) := list_free (nodes w) (Some lst) (Some (fun p ps => delete p ps)) (pairs w) in
      ret (World h p ks (structs w ∖ {[self this]}) l)
  end.

Definition map_find (w : world) (this : map) (k : list Z) : res (option loc) :=
  let+ (_, r) := for_entries w this (fun p e r =>
    let+ s := key_at (keys w) (pkey e) in
    Ret (if strcmp k s =? 0 then (false, Some p) else (true, r))) None in
  Ret r.

Definition map_set (w : world) (this : map) (k : list Z) (v : V) : C (status * world) :=
  let* found := lift (map_find w this k) in
  match found with
  | Some p =>
      let* e := lift (pair_at w p) in
      ret (success, World (nodes w) (<[p := mkPair (pkey e) v]> (pairs w)) (keys w) (structs w)
                      (call_free this (pvalue e) (log w)))
  | None =>
      let* ok := alloc_ok sizeof_pair in
      if negb ok then ret (failure, w)
      else
        let p := new_loc (pairs w) in
        let* ok := alloc_ok (zlen k + 1) in
        if negb ok then ret (failure, w)
        else
          let q := new_loc (keys w) in
          let* lst := lift (list_of w this) in
          let* (tmp, h) := list_add (nodes w) (Some lst) p in
          match tmp with
          | None => ret (failure, set_nodes h w)
          | Some _ =>
              ret (success, World h (<[p := mkPair q v]> (pairs w)) (<[q := k]> (keys w)) (structs w) (log w))
          end
  end.

Definition map_exists (w : world) (this : map) (k : list Z) : res bool :=
  let+ p := map_find w this k in
  Ret (match p with Some _ => true | None => false end).

Definition map_get (w : world) (this : map) (k : list Z) : res (option V) :=
  let+ p := map_find w this k in
  match p with
  | None => Ret None
  | Some p => let+ e := pair_at w p in Ret (Some (pvalue e))
  end.

Definition map_foreach (w : world) (this : map) (f : S -> list Z -> V -> bool * S) (args : S)
    : res (bool * S) :=
  for_entries w this (fun _ e s => let+ k := key_at (keys w) (pkey e) in Ret (f s k (pvalue e))) args.

(** * The map *)

(** A pair with its key: [kat] is the block of the key. *)
Record entry : Type := mkEntry { kat : loc; key : list Z; value : V }.
Definition pair_of (e : entry) : pair := mkPair (kat e) (value e).

(** The pairs of the map in the order of the list, each where it is, as it grew
    from the memory [w0]: nothing that was there has changed, everything else is
    the map's. *)
Record owns (w0 w : world) (m : map) (ls : list loc) (es : list (loc * entry)) : Prop := mkOwns {
  ow_list : exists c, islist (nodes w) (lst m) ls es.*1 c /\ cache_ok (lst m) ls c;
  ow_pairs : Forall (fun '(p, e) => pairs w !! p = Some (pair_of e)) es;
  ow_strings : Forall (fun e => keys w !! kat e = Some (key e)) es.*2;
  ow_nodup : NoDup es.*1 /\ NoDup (kat <$> es.*2);
  ow_keys : NoDup (key <$> es.*2);
  ow_valid : Forall valid_str (key <$> es.*2);
  ow_nodes : only (lst m :: ls) (nodes w0) (nodes w) /\ forall k, k ∈ lst m :: ls -> nodes w0 !! k = None;
  ow_rest : (forall p, p ∉ es.*1 -> pairs w !! p = pairs w0 !! p) /\ forall p, p ∈ es.*1 -> pairs w0 !! p = None;
  ow_blocks : (forall q, q ∉ kat <$> es.*2 -> keys w !! q = keys w0 !! q) /\
    forall q, q ∈ kat <$> es.*2 -> keys w0 !! q = None;
  ow_self : structs w = {[self m]} ∪ structs w0 /\ self m ∉ structs w0;
}.

(** What the map holds, in order and as a finite map. *)
Definition items (es : list (loc * entry)) : list (list Z * V) :=
  (fun e => (key e, value e)) <$> es.*2.

Definition contents (es : list (loc * entry)) : gmap (list Z) V :=
  list_to_map (items es).

Lemma list_of_spec w0 w m ls es : owns w0 w m ls es -> list_of w m = Ret (lst m).
Proof. intros Ho. unfold list_of. destruct (ow_self _ _ _ _ _ Ho) as [-> _]. by rewrite decide_True by set_solver. Qed.

(** The loop over the pairs when its body, on each pair, is [g] and keeps [I]. *)
Lemma for_entries_spec {T} w0 w m ls es (body : loc -> pair -> T -> res (bool * T)) g (I : list entry -> T -> Prop) t :
  owns w0 w m ls es ->
  (forall p e rest t, (e :: rest) `suffix_of` es.*2 -> I (e :: rest) t ->
     body p (pair_of e) t = Ret (g p e t) /\ I rest (g p e t).2) ->
  I es.*2 t ->
  for_entries w m body t = Ret (fold_while (fun '(p, e) => g p e) es t).
Proof.
  intros Ho Hb. unfold for_entries, map_first. rewrite (list_of_spec _ _ _ _ _ Ho). cbn [res_bind].
  destruct Ho as [(c & Hl & _) Hp _ _ _ _ _ _ _ _]. pose proof (islist_pass _ _ _ _ _ Hl) as Hf.
  destruct Hl as [_ Hh Hs]. unfold list_first, guard, load. cbn [res_bind].
  rewrite Hh. cbn [res_bind next]. revert Hf Hs Hb. generalize (pass (nodes w)) as fuel, (lst m) as p0.
  intros fuel. clear Hh. revert ls t fuel. induction Hp as [|[p e] es Hpe _ IH]; intros ls t fuel p0 Hf Hs Hb Ht;
    destruct ls as [|l ls]; try done; [by destruct fuel|].
  destruct fuel as [|fuel]; [simpl in Hf; lia|]. destruct Hs as [Hl Hs]. cbn [fmap list_fmap snd] in Hb, Ht.
  cbn [hd_or entries_loop list_end]. unfold list_get, list_next, load, pair_at. cbn [list_end negb guard res_bind].
  rewrite Hl. cbn [res_bind next]. unfold payload. cbn [res_bind ndata fst]. rewrite Hpe. cbn [res_bind fold_while].
  destruct (Hb p e es.*2 t) as [-> Ht']; [done..|]. cbn [res_bind].
  destruct (g p e t) as [[] t']; cbn [negb]; [|done]. eapply IH; [simpl in Hf; lia|exact Hs| |exact Ht'].
  intros q f rest u Hsuf. apply Hb. by apply suffix_cons_r.
Qed.

(** A body that reads the key. *)
Lemma for_keys_spec {T} w0 w m ls es (g : loc -> entry -> T -> bool * T) (body : loc -> pair -> T -> res (bool * T)) t :
  owns w0 w m ls es ->
  (forall p e t, keys w !! kat e = Some (key e) -> body p (pair_of e) t = Ret (g p e t)) ->
  for_entries w m body t = Ret (fold_while (fun '(p, e) => g p e) es t).
Proof.
  intros Ho Hb. eapply (for_entries_spec _ _ _ _ _ _ _ (fun _ _ => True)); [exact Ho| |done].
  intros p e rest u [pre Hpre] _. split; [|done]. apply Hb. pose proof (ow_strings _ _ _ _ _ Ho) as Hs.
  rewrite Hpre in Hs. by apply Forall_app in Hs as [_ [? _]%Forall_cons].
Qed.

(** The pair with the key. *)
Lemma map_find_spec w0 w m ls es k :
  owns w0 w m ls es -> valid_str k ->
  (map_find w m k = Ret None /\ k ∉ key <$> es.*2) \/
  exists es1 p e es2, map_find w m k = Ret (Some p) /\ es = es1 ++ (p, e) :: es2 /\ key e = k.
Proof.
  intros Ho Hk. unfold map_find.
  rewrite (for_keys_spec _ _ _ _ _ (fun p e r => if strcmp k (key e) =? 0 then (false, Some p) else (true, r)) _ _ Ho)
    by (intros p e t E; unfold key_at, pair_of; cbn [pkey]; by rewrite E).
  pose proof (ow_valid _ _ _ _ _ Ho) as Hv. clear Ho.
  set (body := fun '(p, e) (r : option loc) => if strcmp k (key e) =? 0 then (false, Some p) else (true, r)).
  assert (Hgo : (fold_while body es None = (true, None) /\ k ∉ key <$> es.*2) \/
    exists es1 p e es2, fold_while body es None = (false, Some p) /\ es = es1 ++ (p, e) :: es2 /\ key e = k).
  { induction es as [|[p e] es IH]; [left; split; [done|apply not_elem_of_nil]|].
    apply Forall_cons in Hv as [Hve Hv]. specialize (IH Hv). cbn [fold_while body fmap list_fmap snd] in *.
    rewrite strcmp_eq by done. destruct (bool_decide_reflect (k = key e)) as [->|E].
    - right. by exists [], p, e, es.
    - destruct IH as [[-> Hn]|(es1 & p' & e' & es2 & -> & -> & ?)].
      + left. split; [done|]. by apply not_elem_of_cons.
      + right. by exists ((p, e) :: es1), p', e', es2. }
  destruct Hgo as [[-> ?]|(es1 & p & e & es2 & -> & ? & ?)]; [by left|].
  right. by exists es1, p, e, es2.
Qed.

Lemma owns_entry w0 w m ls es1 p e es2 :
  owns w0 w m ls (es1 ++ (p, e) :: es2) -> pairs w !! p = Some (pair_of e).
Proof. intros Ho. pose proof (ow_pairs _ _ _ _ _ Ho) as Hp. by apply Forall_app in Hp as [_ [? _]%Forall_cons]. Qed.

Lemma items_keys es : (items es).*1 = key <$> es.*2.
Proof. unfold items. by rewrite <-!list_fmap_compose. Qed.

Lemma items_app es1 es2 : items (es1 ++ es2) = items es1 ++ items es2.
Proof. unfold items. by rewrite !fmap_app. Qed.

Lemma contents_app es1 p e es2 :
  NoDup (key <$> (es1 ++ (p, e) :: es2).*2) ->
  contents (es1 ++ (p, e) :: es2) = <[key e := value e]> (contents (es1 ++ es2)).
Proof.
  intros Hnd. unfold contents. rewrite <-list_to_map_cons. apply list_to_map_proper.
  - by rewrite items_keys.
  - rewrite !items_app. symmetry. apply Permutation_middle.
Qed.

Lemma contents_none es k : k ∉ key <$> es.*2 -> contents es !! k = None.
Proof. intros Hk. apply not_elem_of_list_to_map. by rewrite items_keys. Qed.

Lemma map_get_spec w0 w m ls es k :
  owns w0 w m ls es -> valid_str k ->
  map_get w m k = Ret (contents es !! k) /\
  map_exists w m k = Ret (bool_decide (is_Some (contents es !! k))).
Proof.
  intros Ho Hk. unfold map_get, map_exists.
  destruct (map_find_spec _ _ _ _ _ _ Ho Hk) as [[-> Hn]|(es1 & p & e & es2 & -> & -> & <-)]; cbn [res_bind].
  - rewrite (contents_none _ _ Hn). done.
  - rewrite (contents_app _ _ _ _ (ow_keys _ _ _ _ _ Ho)), lookup_insert_eq.
    unfold pair_at. by rewrite (owns_entry _ _ _ _ _ _ _ _ Ho).
Qed.

Definition values (es : list (loc * entry)) : list V := value <$> es.*2.

(** The list with the value of a key replaced where it is, or added at the end. *)
Fixpoint upsert (k : list Z) (v : V) (l : list (list Z * V)) : list (list Z * V) :=
  match l with
  | [] => [(k, v)]
  | (k', v') :: l => if decide (k' = k) then (k', v) :: l else (k', v') :: upsert k v l
  end.

Lemma upsert_middle k v l1 v0 l2 : k ∉ l1.*1 -> upsert k v (l1 ++ (k, v0) :: l2) = l1 ++ (k, v) :: l2.
Proof.
  induction l1 as [|[k' v'] l1 IH]; cbn; intros Hn; [by rewrite decide_True|].
  apply not_elem_of_cons in Hn as [? Hn]. by rewrite decide_False, IH by done.
Qed.

Lemma upsert_new k v l : k ∉ l.*1 -> upsert k v l = l ++ [(k, v)].
Proof.
  induction l as [|[k' v'] l IH]; cbn; intros Hn; [done|].
  apply not_elem_of_cons in Hn as [? Hn]. by rewrite decide_False, IH by done.
Qed.

(** What the [freefunc] has to be called with, sooner or later, without order. *)
Definition accounted (m : map) (w w' : world) (es es' : list (loc * entry)) (taken : list V) : Prop :=
  if freefunc m then log w' ++ values es' ≡ₚ log w ++ values es ++ taken else log w' = log w.

Lemma map_replace_spec w0 w m ls es1 p e es2 v :
  owns w0 w m ls (es1 ++ (p, e) :: es2) ->
  let w' := World (nodes w) (<[p := mkPair (kat e) v]> (pairs w)) (keys w) (structs w) (call_free m (value e) (log w)) in
  let es' := es1 ++ (p, mkEntry (kat e) (key e) v) :: es2 in
  owns w0 w' m ls es' /\ contents es' = <[key e := v]> (contents (es1 ++ (p, e) :: es2)) /\
  items es' = upsert (key e) v (items (es1 ++ (p, e) :: es2)) /\
  accounted m w w' (es1 ++ (p, e) :: es2) es' [v].
Proof.
  intros Ho w' es'. pose proof Ho as [Hl Hp Hst [Hnd Hndk] Hk Hv Hn [Hr Hr0] Hb Hself].
  assert (Hps : es'.*1 = (es1 ++ (p, e) :: es2).*1) by (unfold es'; by rewrite !fmap_app).
  assert (Hks : key <$> es'.*2 = key <$> (es1 ++ (p, e) :: es2).*2) by (unfold es'; by rewrite !fmap_app).
  assert (Hqs : kat <$> es'.*2 = kat <$> (es1 ++ (p, e) :: es2).*2) by (unfold es'; by rewrite !fmap_app).
  assert (Hne : Forall (fun '(q, f) => (<[p := mkPair (kat e) v]> (pairs w)) !! q = Some (pair_of f)) (es1 ++ es2)).
  { rewrite fmap_app, fmap_cons in Hnd. apply Forall_forall. intros [q f] Hq.
    rewrite lookup_insert_ne.
    - apply (proj1 (list.Forall_forall _ _) Hp (q, f)). set_solver.
    - intros ->. rewrite <-Permutation_middle in Hnd. apply NoDup_cons in Hnd as [Hnin _].
      apply Hnin. rewrite <-fmap_app. by apply (list_elem_of_fmap_2 fst _ (q, f)). }
  apply Forall_app in Hne as [Hne1 Hne2].
  split; [|split; [|split]].
  - constructor; rewrite ?Hps, ?Hks, ?Hqs; try done.
    + unfold es'. apply Forall_app. split; [done|]. constructor; [apply lookup_insert_eq|done].
    + unfold es'. cbn [keys w']. rewrite fmap_app, fmap_cons in *. apply Forall_app in Hst as [? [? ?]%Forall_cons].
      apply Forall_app. split; [done|]. by constructor.
    + split; [|done]. intros q Hq. cbn. rewrite lookup_insert_ne; [by apply Hr|]. intros ->. apply Hq.
      rewrite fmap_app, fmap_cons. set_solver.
  - rewrite (contents_app es1 p e es2) by done. unfold es'.
    rewrite contents_app by (fold es'; by rewrite Hks). by rewrite insert_insert_eq.
  - unfold es'. rewrite !items_app. symmetry. apply upsert_middle.
    rewrite <-items_keys, items_app, fmap_app in Hk. apply NoDup_app in Hk as (_ & Hd & _).
    intros Hin. apply (Hd _ Hin). by left.
  - unfold accounted, values, w', es'. cbn [log]. unfold call_free. destruct (freefunc m); [|done].
    rewrite !fmap_app. cbn. solve_Permutation.
Qed.

Lemma map_append_spec w0 w m ls es k v h n :
  owns w0 w m ls es -> valid_str k -> k ∉ key <$> es.*2 ->
  let p := new_loc (pairs w) in
  let a := new_loc (keys w) in
  nodes w !! n = None -> islist h (lst m) (ls ++ [n]) (es.*1 ++ [p]) (Cached n) ->
  only (lst m :: n :: ls) (nodes w) h ->
  let w' := World h (<[p := mkPair a v]> (pairs w)) (<[a := k]> (keys w)) (structs w) (log w) in
  let es' := es ++ [(p, mkEntry a k v)] in
  owns w0 w' m (ls ++ [n]) es' /\ contents es' = <[k := v]> (contents es) /\
  items es' = upsert k v (items es) /\ accounted m w w' es es' [v].
Proof.
  intros [(c & Hl & Hc) Hp Hst [Hnd Hndk] Hk Hv [Hn Hn0] [Hr Hr0] [Hb Hb0] Hself] Hvk Hnk p a Hfree Hl' Honly w' es'.
  assert (Hpf : pairs w !! p = None) by apply new_loc_fresh.
  assert (Hpe : p ∉ es.*1).
  { intros (pe & -> & Hin)%list_elem_of_fmap. destruct pe as [q e].
    pose proof (proj1 (list.Forall_forall _ _) Hp _ Hin) as E. cbn in E. cbn in Hpf. congruence. }
  assert (Haf : keys w !! a = None) by apply new_loc_fresh.
  assert (Hae : a ∉ kat <$> es.*2).
  { intros (e & E & Hin)%list_elem_of_fmap. pose proof (proj1 (list.Forall_forall _ _) Hst _ Hin) as E'. cbn in E'. congruence. }
  assert (Hqs : kat <$> es'.*2 = (kat <$> es.*2) ++ [a]) by (unfold es'; by rewrite !fmap_app).
  assert (Hks : key <$> es'.*2 = (key <$> es.*2) ++ [k]) by (unfold es'; by rewrite !fmap_app).
  assert (Hnd' : NoDup (key <$> es'.*2)).
  { rewrite Hks. apply NoDup_app. split; [done|]. split; [|apply NoDup_singleton]. set_solver. }
  assert (Hpin : forall q, q ∈ es'.*1 <-> q ∈ es.*1 \/ q = p).
  { intros q. unfold es'. rewrite fmap_app. cbn. set_solver. }
  split; [|split; [|split]].
  - constructor; try done.
    + exists (Cached n). unfold es', w'. cbn [nodes]. rewrite fmap_app. split; [done|].
      unfold cache_ok. destruct (ls ++ [n]) eqn:E; [by destruct ls|]. by rewrite <-E, end_of_snoc.
    + unfold es'. apply Forall_app. split; [|constructor; [apply lookup_insert_eq|constructor]].
      apply Forall_forall. intros [q e] Hq. cbn [pairs w']. rewrite lookup_insert_ne.
      * by apply (proj1 (list.Forall_forall _ _) Hp (q, e)).
      * intros ->. apply Hpe. by apply (list_elem_of_fmap_2 fst _ (q, e)).
    + unfold es'. rewrite fmap_app. apply Forall_app. split; [|constructor; [apply lookup_insert_eq|constructor]].
      apply Forall_forall. intros e He. cbn [keys w']. rewrite lookup_insert_ne.
      * by apply (proj1 (list.Forall_forall _ _) Hst e).
      * intros E. apply Hae. rewrite E. by apply list_elem_of_fmap_2.
    + rewrite Hqs. split; [unfold es'; rewrite fmap_app|]; apply NoDup_app; split; try done; split; [set_solver|apply NoDup_singleton|set_solver|apply NoDup_singleton].
    + rewrite Hks. apply Forall_app. auto.
    + cbn [nodes w']. split.
      * intros j Hj. rewrite Honly by set_solver. apply Hn. set_solver.
      * intros j Hj. assert (j = n \/ j ∈ lst m :: ls) as [-> | ?] by set_solver; [|by apply Hn0].
        destruct (decide (n ∈ lst m :: ls)); [by apply Hn0|]. by rewrite <-Hn.
    + cbn [pairs w']. split.
      * intros q Hq. rewrite Hpin in Hq. rewrite lookup_insert_ne by naive_solver. apply Hr. naive_solver.
      * intros q [? | ->]%Hpin; [by apply Hr0|]. by rewrite <-Hr.
    + rewrite Hqs. cbn [keys w']. split.
      * intros q Hq. rewrite lookup_insert_ne by set_solver. apply Hb. set_solver.
      * intros q [? | ->%list_elem_of_singleton]%elem_of_app; [by apply Hb0|]. by rewrite <-Hb.
  - unfold es'. rewrite contents_app by done. by rewrite app_nil_r.
  - unfold es'. rewrite items_app, upsert_new; [done|]. by rewrite items_keys.
  - unfold accounted, values, w', es'. cbn [log]. destruct (freefunc m); [|done].
    rewrite !fmap_app. cbn. solve_Permutation.
Qed.

(** [map_set]: the value is taken, or nothing changes. *)
Lemma map_set_spec w0 w m ls es k v o :
  owns w0 w m ls es -> valid_str k ->
  wp (map_set w m k v) o (fun '(st, w') o' =>
    match st with
    | success => exists ls' es', owns w0 w' m ls' es' /\ contents es' = <[k := v]> (contents es) /\
        items es' = upsert k v (items es) /\ accounted m w w' es es' [v] /\ (o = [] -> o' = [])
    | failure => w' = w /\ (o = [] -> o' = [] /\ PTRDIFF_MAX < zlen k + 1)
    end).
Proof.
  intros Ho Hk. unfold map_set. wp.
  destruct (map_find_spec _ _ _ _ _ _ Ho Hk) as [[-> Hn]|(es1 & p & e & es2 & -> & -> & <-)]; cbn [wpr].
  - wp. apply wp_alloc_ok. intros b o1 _ Hb1. destruct b; cbn [negb]; wp.
    2:{ split; [done|]. intros Hnil. by destruct (Hb1 Hnil). }
    apply wp_alloc_ok. intros b o2 Hm Hb2. destruct b; cbn [negb]; wp.
    2:{ split; [done|]. intros Hnil. destruct (Hb1 Hnil) as [-> _]. destruct (Hb2 eq_refl) as [-> E].
        split; [done|]. symmetry in E. by apply Z.leb_gt in E. }
    rewrite (list_of_spec _ _ _ _ _ Ho). cbn [wpr]. wp.
    destruct (ow_list _ _ _ _ _ Ho) as (c & Hl & Hc).
    eapply wp_mono; [by eapply list_add_spec|].
    intros [r h] o3 [(-> & (n & Hfree & Hl' & Honly) & Ho3)|(-> & -> & Hne)]; wp.
    + destruct (map_append_spec w0 w m ls es k v h n Ho Hk Hn Hfree Hl' Honly) as (H1 & H2 & H3 & H4).
      eexists _, _. split; [exact H1|]. split; [done|]. split; [done|]. split; [done|]. intros Hnil.
      destruct (Hb1 Hnil) as [-> _]. destruct (Hb2 eq_refl) as [-> _]. by apply Ho3.
    + split; [by destruct w|]. intros Hnil. destruct (Hb1 Hnil) as [-> _]. by destruct (Hb2 eq_refl) as [-> _].
  - wp. unfold pair_at. rewrite (owns_entry _ _ _ _ _ _ _ _ Ho). cbn [wpr]. wp.
    destruct (map_replace_spec w0 w m ls es1 p e es2 v Ho) as (H1 & H2 & H3 & H4). by eauto 9.
Qed.

Lemma map_new_spec w0 ff o :
  wp (map_new w0 ff) o (fun '(r, w) o' =>
    (forall m, r = Some m -> owns w0 w m [] [] /\ freefunc m = ff /\ log w = log w0) /\
    (r = None -> w = w0) /\ (o = [] -> o' = [] /\ is_Some r)).
Proof.
  unfold map_new. wp. apply wp_alloc_ok. intros b o1 _ Hb. destruct b; cbn [negb]; wp.
  2:{ split; [done|]. split; [done|]. intros Ho. by destruct (Hb Ho). }
  apply list_new_spec.
  - intros l h o' Hfree Hl Honly Ho. wp. split; [|split; [done|]].
    2:{ intros Hnil. destruct (Hb Hnil) as [-> _]. by rewrite Ho. }
    intros m [= <-]. split; [|done]. constructor; cbn; try constructor; try done.
    + exists Null. split; [done|by left].
    + by apply NoDup_nil.
    + by apply NoDup_nil.
    + intros k ->%list_elem_of_singleton. done.
    + intros p Hp. by apply elem_of_nil in Hp.
    + intros q Hq. by apply elem_of_nil in Hq.
    + apply is_fresh.
  - intros o' Ho. wp. split; [done|]. split; [by destruct w0|]. intros Hnil.
    by destruct (Hb Hnil) as [-> _].
Qed.

(** What the loop of [map_free] does. *)
Definition free_entry (m : map) (e : entry) (t : gmap loc (list Z) * list V) : bool * (gmap loc (list Z) * list V) :=
  (true, (delete (kat e) t.1, call_free m (value e) t.2)).

Lemma fold_free m es ks l :
  fold_while (fun '(p, e) => free_entry m e) es (ks, l) =
  (true, (fold_left (fun ks q => delete q ks) (kat <$> es.*2) ks, if freefunc m then l ++ values es else l)).
Proof.
  unfold values. revert ks l. induction es as [|[p e] es IH]; intros ks l.
  - cbn. rewrite app_nil_r. by destruct (freefunc m).
  - cbn [fold_while free_entry fst snd]. rewrite IH. cbn. unfold call_free. destruct (freefunc m); [|done]. by rewrite <-app_assoc.
Qed.

Lemma fold_delete {A} (l : list loc) (ps : gmap loc A) q :
  fold_left (fun s p => delete p s) l ps !! q = if decide (q ∈ l) then None else ps !! q.
Proof.
  revert ps. induction l as [|p l IH]; intros ps; [done|]. cbn [fold_left].
  rewrite IH. destruct (decide (q = p)) as [->|Hne].
  - rewrite lookup_delete_eq, (decide_True (P := p ∈ p :: _)) by by left. by destruct (decide _).
  - rewrite lookup_delete_ne by done. apply decide_ext. rewrite elem_of_cons. naive_solver.
Qed.

(** The loop of [map_free]: every key is still there when it is freed. *)
Lemma free_entries_spec w0 w m ls es :
  owns w0 w m ls es ->
  for_entries w m (fun _ e '(ks, l) => let+ ks := free_key (pkey e) ks in Ret (true, (ks, call_free m (pvalue e) l)))
    (keys w, log w) = Ret (fold_while (fun '(p, e) => free_entry m e) es (keys w, log w)).
Proof.
  intros Ho. pose proof (ow_strings _ _ _ _ _ Ho) as Hst. destruct (ow_nodup _ _ _ _ _ Ho) as [_ Hnd].
  eapply (for_entries_spec _ _ _ _ _ _ (fun _ e => free_entry m e)
    (fun rest t => Forall (fun e => t.1 !! kat e = Some (key e)) rest)); [exact Ho| |done].
  intros p e rest [ks l] [pre Hpre] [He Hrest]%list.Forall_cons. cbn [fst] in *.
  unfold free_key, key_at, pair_of. cbn [pkey]. rewrite He. cbn [res_bind]. split; [done|].
  cbn [free_entry fst snd]. rewrite Hpre, fmap_app in Hnd. apply NoDup_app in Hnd as (_ & _ & [Hni _]%list.NoDup_cons).
  apply list.Forall_forall. intros f Hf. rewrite lookup_delete_ne; [by apply (proj1 (list.Forall_forall _ _) Hrest)|].
  intros E. apply Hni. rewrite E. by apply list_elem_of_fmap_2.
Qed.

(** [map_free] leaves the memory as it was before the map. *)
Lemma map_free_spec w0 w m ls es o :
  owns w0 w m ls es ->
  wp (map_free w (Some m)) o (fun w' o' =>
    w' = World (nodes w0) (pairs w0) (keys w0) (structs w0) (if freefunc m then log w ++ values es else log w) /\ o' = o).
Proof.
  intros Ho. unfold map_free. wp. rewrite (free_entries_spec _ _ _ _ _ Ho), fold_free. cbn [wpr]. wp.
  rewrite (list_of_spec _ _ _ _ _ Ho). cbn [wpr]. wp.
  destruct Ho as [(c & Hl & _) _ _ _ _ _ [Hn Hn0] [Hr Hr0] [Hb Hb0] [Hs Hs0]].
  eapply wp_mono; [by eapply list_free_spec|]. intros [p h] o' (-> & [Hgone Honly] & ->). wp.
  split; [|done]. f_equal; [apply map_eq; intros j..|].
  - destruct (decide (j ∈ lst m :: ls)).
    + by rewrite Hgone, Hn0.
    + rewrite Honly by done. by apply Hn.
  - rewrite fold_delete. case_decide; [by rewrite Hr0|]. by apply Hr.
  - rewrite fold_delete. case_decide; [by rewrite Hb0|]. by apply Hb.
  - rewrite Hs. set_solver.
Qed.

Lemma map_foreach_spec w0 w m ls es f s :
  owns w0 w m ls es ->
  map_foreach w m f s = Ret (fold_while (fun '(k, v) s => f s k v) (items es) s).
Proof.
  intros Ho. unfold map_foreach. rewrite (for_keys_spec _ _ _ _ _ (fun _ e s => f s (key e) (value e)) _ _ Ho)
    by (intros p e t E; unfold key_at, pair_of; cbn [pkey pvalue]; by rewrite E). f_equal. clear Ho.
  unfold items. revert s. induction es as [|[p e] es IH]; intros s; [done|]. cbn.
  destruct (f s (key e) (value e)) as [[] s']; [|done]. apply IH.
Qed.

(** * The theorem *)

(** Calls of [map_set]; [taken]: the pairs of those that succeeded. *)
Fixpoint run_sets (w : world) (m : map) (sets : list (list Z * V)) : C (world * list (list Z * V)) :=
  match sets with
  | [] => ret (w, [])
  | (k, v) :: sets =>
      let* (st, w) := map_set w m k v in
      let* (w, taken) := run_sets w m sets in
      ret (w, match st with success => (k, v) :: taken | failure => taken end)
  end.

Definition put_all (l : list (list Z * V)) (taken : list (list Z * V)) : list (list Z * V) :=
  fold_left (fun l '(k, v) => upsert k v l) taken l.

Lemma run_sets_spec w0 w m ls es sets o :
  owns w0 w m ls es -> Forall (fun kv => valid_str kv.1) sets ->
  wp (run_sets w m sets) o (fun '(w', taken) _ =>
    exists ls' es', owns w0 w' m ls' es' /\ items es' = put_all (items es) taken /\
      contents es' = fold_left (fun c '(k, v) => <[k := v]> c) taken (contents es) /\
      accounted m w w' es es' taken.*2 /\ taken `sublist_of` sets /\
      (o = [] -> Forall (fun kv => zlen kv.1 < PTRDIFF_MAX) sets -> taken = sets)).
Proof.
  intros Ho Hs. revert w ls es o Ho. induction Hs as [|[k v] sets Hk _ IH]; intros w ls es o Ho; cbn [run_sets]; wp.
  { exists ls, es. split_and!; try done. unfold accounted. destruct (freefunc m); [|done].
    by rewrite app_nil_r. }
  eapply wp_mono; [by eapply map_set_spec|]. intros [[] w1] o1 H.
  - destruct H as [-> Ho1]. wp. eapply wp_mono; [by eapply IH|].
    intros [w2 taken] o2 (ls2 & es2 & H1 & H2 & H3 & H4 & H5 & H6). wp. exists ls2, es2.
    split_and!; try done; [by apply sublist_cons|]. intros Hnil [Hlen _]%Forall_cons.
    destruct (Ho1 Hnil) as [_ E]. cbn in Hlen. lia.
  - destruct H as (ls1 & es1 & Ho1 & Hc1 & Hi1 & Ha1 & Hn1). wp. eapply wp_mono; [by eapply IH|].
    intros [w2 taken] o2 (ls2 & es2 & H1 & H2 & H3 & H4 & H5 & H6). wp. exists ls2, es2.
    split_and!; [done|by rewrite H2, Hi1|by rewrite H3, Hc1| |by apply sublist_skip|].
    + unfold accounted in *. destruct (freefunc m); [|by rewrite H4].
      rewrite H4. cbn. rewrite app_assoc, Ha1. solve_Permutation.
    + intros Hnil [_ Hlen]%Forall_cons. f_equal. by apply H6; [apply Hn1|].
Qed.

(** C23. The map is a finite map and owns its values: after any calls of
    [map_set], under any behaviour of the allocator and in any memory, each key
    has the value it was last given, [map_foreach] visits the keys in the order
    of their first insertion, and [map_free] leaves the memory (nodes, pairs, keys
    and maps) as it was before [map_new], the [freefunc] having been called exactly once with each value
    that was taken. *)
Theorem map_owns_values w0 ff sets k f s o :
  Forall (fun kv => valid_str kv.1) sets -> valid_str k ->
  wp (map_new w0 ff) o (fun '(r, w1) o1 =>
    (o = [] -> is_Some r) /\ (r = None -> w1 = w0) /\
    forall m, r = Some m ->
      wp (run_sets w1 m sets) o1 (fun '(w, taken) o2 =>
        let M : gmap (list Z) V := fold_left (fun c '(k, v) => <[k := v]> c) taken ∅ in
        taken `sublist_of` sets /\
        (o1 = [] -> Forall (fun kv => zlen kv.1 < PTRDIFF_MAX) sets -> taken = sets) /\
        map_get w m k = Ret (M !! k) /\
        map_exists w m k = Ret (bool_decide (is_Some (M !! k))) /\
        map_foreach w m f s = Ret (fold_while (fun '(k, v) s => f s k v) (put_all [] taken) s) /\
        wp (map_free w (Some m)) o2 (fun w' _ =>
          nodes w' = nodes w0 /\ pairs w' = pairs w0 /\ keys w' = keys w0 /\ structs w' = structs w0 /\
          if ff then log w' ≡ₚ log w0 ++ taken.*2 else log w' = log w0))).
Proof.
  intros Hs Hk. eapply wp_mono; [apply map_new_spec|]. intros [r w1] o1 (Hm & Hnone & Hnil).
  split; [intros Ho; by destruct (Hnil Ho)|]. split; [done|]. intros m Hr.
  destruct (Hm m Hr) as (Ho & <- & Hlog). eapply wp_mono; [by eapply run_sets_spec|].
  intros [w taken] o2 (ls & es & How & Hi & Hc & Ha & Hsub & Hall).
  destruct (map_get_spec _ _ _ _ _ _ How Hk) as [Hg He]. rewrite Hc in Hg, He.
  split; [done|]. split; [done|]. split; [exact Hg|]. split; [exact He|]. split.
  { rewrite (map_foreach_spec _ _ _ _ _ _ _ How), Hi. done. }
  eapply wp_mono; [by eapply map_free_spec|]. intros w' o3 [-> _]. do 4 (split; [done|]).
  cbn [log]. unfold accounted in Ha. destruct (freefunc m); [by rewrite Ha, Hlog|by rewrite Ha].
Qed.

End Map.

Lemma map_owns_values_witness :
  wp (map_new (World ∅ ∅ ∅ ∅ [] : @world Z) true) [] (fun '(r, w1) o1 =>
    (([] : oracle) = [] -> is_Some r) /\ (r = None -> w1 = World ∅ ∅ ∅ ∅ []) /\
    forall m, r = Some m ->
      wp (run_sets w1 m [(bytes "a", 1); (bytes "b", 2); (bytes "a", 3)]) o1 (fun '(w, taken) o2 =>
        let M : gmap (list Z) Z := fold_left (fun c '(k, v) => <[k := v]> c) taken ∅ in
        taken `sublist_of` [(bytes "a", 1); (bytes "b", 2); (bytes "a", 3)] /\
        (o1 = [] -> Forall (fun kv => zlen kv.1 < PTRDIFF_MAX) [(bytes "a", 1); (bytes "b", 2); (bytes "a", 3)] ->
           taken = [(bytes "a", 1); (bytes "b", 2); (bytes "a", 3)]) /\
        map_get w m (bytes "a") = Ret (M !! bytes "a") /\
        map_exists w m (bytes "a") = Ret (bool_decide (is_Some (M !! bytes "a"))) /\
        map_foreach w m (fun n _ v => (true, n + v)) 0 =
          Ret (fold_while (fun '(k, v) s => (true, s + v)) (put_all [] taken) 0) /\
        wp (map_free w (Some m)) o2 (fun w' _ =>
          nodes w' = ∅ /\ pairs w' = ∅ /\ keys w' = ∅ /\ structs w' = ∅ /\
          if true then log w' ≡ₚ [] ++ taken.*2 else log w' = []))).
Proof.
  apply (map_owns_values (World ∅ ∅ ∅ ∅ []) true [(bytes "a", 1); (bytes "b", 2); (bytes "a", 3)] (bytes "a")
    (fun n _ v => (true, n + v)) 0 []).
  - repeat constructor; decide_closed.
  - split; decide_closed.
Defined.
