(* ===== verification/HtmlBuffer.v ===== *)
(** HtmlBuffer: the functions of http/src/html_buffer.c that write a page into a
    growable string.

    Some sixty functions append one piece of markup each.  [html_document] shows
    what a page handler gets that writes a document as a tree, each opening
    function paired with its closing one: the text of the tree, in which every
    tag is closed in order ([scan] is the reader of the tags).
    [html_printf_overflows] is about the one function that does not go through the
    string. *)

From Stdlib Require Import ZArith Lia.
From stdpp Require Import base list numbers.
From S2P Require Import Prelude Convert Cstring HttpBase Response Puts.

Section HtmlBuffer.
Context `{STRINGS} {T : Type}.

(** [template] is not set by [html_buffer_new]: [None] stands for memory that was
    not initialised.  [T]: what points to a template. *)
Record html_buffer : Type := HtmlBuffer { template : option T; buffer : str }.

Definition sizeof_html_buffer : Z := 16.

(** A function that writes into the string. *)
Definition on_buffer (put : str -> C (status * str)) (b : html_buffer) : C (status * html_buffer) :=
  let* (st, s) := put (buffer b) in ret (st, HtmlBuffer (template b) s).

Definition html_buffer_new : C (option html_buffer) :=
  let* ok := alloc_ok sizeof_html_buffer in
  if negb ok then ret None
  else let* s := str_new in ret (HtmlBuffer None <$> s).

Definition html_buffer_set_template (b : html_buffer) (t : T) : html_buffer := HtmlBuffer (Some t) (buffer b).

(** [out]: the text of the format and its arguments, which [vsprintf] stores in a
    block of [cb + 1] bytes. *)
Definition html_printf (b : html_buffer) (cb : Z) (out : list Z) : C (status * html_buffer) :=
  c_assert (0 <? cb);;
  let* buf := malloc (u64 (cb + 1)) in
  match buf with
  | None => ret (failure, b)
  | Some buf =>
      let* buf := lift (wr buf 0 (cstr out)) in
      let* s := lift (str_at buf) in
      on_buffer (fun x => str_concat x s) b
  end.

Definition html_add (b : html_buffer) (s : list Z) : C (status * html_buffer) :=
  on_buffer (fun x => str_concat x s) b.

(** [cstring_concat(b->buffer, "...")] *)
Definition emits (t : list Z) (b : html_buffer) : C (status * html_buffer) :=
  on_buffer (fun x => str_concat x t) b.

(** [cstring_concat3(b->buffer, "...", s, "...")] *)
Definition encloses (before after : list Z) (b : html_buffer) (s : list Z) : C (status * html_buffer) :=
  on_buffer (fun x => str_concat3 x before s after) b.

Definition html_address := encloses (bytes "<address>") (bytes "</address>").
Definition html_big := encloses (bytes "<big>") (bytes "</big>").
Definition html_bold := encloses (bytes "<b>") (bytes "</b>").
Definition html_th := encloses (bytes "<th>") (bytes "</th>").
Definition html_td := encloses (bytes "<td>") (bytes "</td>").
Definition html_strong := encloses (bytes "<strong>") (bytes "</strong>").
Definition html_italic := encloses (bytes "<italic>") (bytes "</italic>").
Definition html_slant := encloses (bytes "<slant>") (bytes "</slant>").
Definition html_em := encloses (bytes "<em>") (bytes "</em>").
Definition html_dfn := encloses (bytes "<dfn>") (bytes "</dfn>").
Definition html_code := encloses (bytes "<code>") (bytes "</code>").
Definition html_samp := encloses (bytes "<samp>") (bytes "</samp>").
Definition html_kbd := encloses (bytes "<kbd>") (bytes "</kbd>").
Definition html_var := encloses (bytes "<var>") (bytes "</var>").
Definition html_cite := encloses (bytes "<cite>") (bytes "</cite>").
Definition html_abbr := encloses (bytes "<abbr>") (bytes "</abbr>").
Definition html_acronym := encloses (bytes "<acronym>") (bytes "</acronym>").
Definition html_small := encloses (bytes "<small>") (bytes "</small>").
Definition html_dt := encloses (bytes "<dt>") (bytes "</dt>").
Definition html_dd := encloses (bytes "<dd>") (bytes "</dd>").
Definition html_li := encloses (bytes "<li>") (bytes "</li>").
Definition html_del := encloses (bytes "<del>") (bytes "</del>").
Definition html_ins := encloses (bytes "<ins>") (bytes "</ins>").
Definition html_p := encloses (bytes "<p>") (bytes "</p>").
Definition html_h1 := encloses (bytes "<h1>") (bytes "</h1>").
Definition html_h2 := encloses (bytes "<h2>") (bytes "</h2>").
Definition html_h3 := encloses (bytes "<h3>") (bytes "</h3>").
Definition html_h4 := encloses (bytes "<h4>") (bytes "</h4>").
Definition html_h5 := encloses (bytes "<h5>") (bytes "</h5>").
Definition html_h6 := encloses (bytes "<h6>") (bytes "</h6>").
Definition html_title := encloses (bytes "<title>") (bytes "</title>").
Definition html_q := encloses (bytes "<q>") (bytes "</q>").
Definition html_sub := encloses (bytes "<sub>") (bytes "</sub>").
Definition html_sup := encloses (bytes "<sup>") (bytes "</sup>").
Definition html_tt := encloses (bytes "<tt>") (bytes "</tt>").

Definition html_address_start := emits (bytes "<address>").
Definition html_address_end := emits (bytes "</address>").
Definition html_blockquote_end := emits (bytes "</blockquote>").
Definition html_body_start := emits (bytes "<body>").
Definition html_body_end := emits (bytes "</body>").
Definition html_br := emits (bytes "<br>").
Definition html_table_end := emits (bytes "</table>").
Definition html_tr_start := emits (bytes "<tr>").
Definition html_tr_end := emits (bytes "</tr>").
Definition html_dl_start := emits (bytes "<dl>").
Definition html_dl_end := emits (bytes "</dl>").
Definition html_ol_start := emits (bytes "<ol>").
Definition html_ol_end := emits (bytes "</ol>").
Definition html_ul_start := emits (bytes "<ul>").
Definition html_ul_end := emits (bytes "</ul>").
Definition html_p_start := emits (bytes "<p>").
Definition html_p_end := emits (bytes "</p>").
Definition html_head_start := emits (bytes "<head>").
Definition html_head_end := emits (bytes "</head>").
Definition html_hr := emits (bytes "<hr>").
Definition html_html_start := emits (bytes "<html>").
Definition html_html_end := emits (bytes "</html>").
Definition html_select_start := emits (bytes "<select>").
Definition html_select_end := emits (bytes "</select>").
Definition html_optgroup_end := emits (bytes "</optgroup>").
Definition html_style_end := emits (bytes "</style>").

Definition QUOTE : list Z := [34].

Definition html_anchor (b : html_buffer) (url text : list Z) : C (status * html_buffer) :=
  c_assert (negb (zlen url =? 0));;
  c_assert (negb (zlen text =? 0));;
  on_buffer (fun x => str_printf x (bytes "<a href=" ++ QUOTE ++ url ++ QUOTE ++ bytes ">" ++ text ++ bytes "</a>")) b.

Definition html_base (b : html_buffer) (url : list Z) : C (status * html_buffer) := ret (failure, b).
Definition html_meta (b : html_buffer) (s : list Z) : C (status * html_buffer) := ret (failure, b).

(** "Implement me" *)
Definition html_button (b : html_buffer) (name type value onfocus onblur : list Z) : C (status * html_buffer) :=
  lift (Fault AssertFailed).

Definition html_blockquote_start (b : html_buffer) (url : list Z) : C (status * html_buffer) :=
  c_assert (0 <? zlen url);;
  on_buffer (fun x => str_concat3 x (bytes "<blockquote cite ='") url (bytes "'>")) b.

Definition html_table_start (b : html_buffer) (ncol : Z) : C (status * html_buffer) :=
  if 0 <? ncol
  then on_buffer (fun x => str_printf x (bytes "<table columns='" ++ decimal ncol ++ bytes "'>")) b
  else on_buffer (fun x => str_concat x (bytes "<table>")) b.

(** An attribute that is left out under a condition. *)
Definition put_if (c : bool) (put : str -> C (status * str)) (s : str) : C (status * str) :=
  if c then put s else ret (success, s).

Definition html_img (b : html_buffer) (url : list Z) (alt : option (list Z)) (height width : Z)
    : C (status * html_buffer) :=
  c_assert (0 <? zlen url);;
  let alt := default [] alt in
  on_buffer (fun x =>
    and_put (str_concat3 x (bytes "<img src='") url (bytes "'")) (fun x =>
    and_put (put_if (0 <? zlen alt) (fun x => str_concat3 x (bytes " alt='") alt (bytes "'")) x) (fun x =>
    and_put (put_if (0 <? height) (fun x => str_printf x (bytes " height='" ++ decimal height ++ bytes "'")) x) (fun x =>
    and_put (put_if (0 <? width) (fun x => str_printf x (bytes " width='" ++ decimal width ++ bytes "'")) x) (fun x =>
    str_concat x (bytes ">")))))) b.

Definition html_label (b : html_buffer) (for_ text : list Z) : C (status * html_buffer) :=
  c_assert (0 <? zlen for_);;
  c_assert (0 <? zlen text);;
  on_buffer (fun x => str_printf x (bytes "<label for='" ++ for_ ++ bytes "'>" ++ text ++ bytes "</label>")) b.

Definition html_option (b : html_buffer) (selected : Z) (value : option (list Z)) (text : list Z)
    : C (status * html_buffer) :=
  c_assert (0 <? zlen text);;
  let value := default [] value in
  on_buffer (fun x =>
    and_put (str_concat x (bytes "<option")) (fun x =>
    and_put (put_if (selected =? 1) (fun x => str_concat x (bytes " selected ")) x) (fun x =>
    and_put (put_if (0 <? zlen value) (fun x => str_concat3 x (bytes " value='") value (bytes "'")) x) (fun x =>
    str_concat3 x (bytes ">") text (bytes "</option>"))))) b.

Definition html_optgroup_start (b : html_buffer) (label : option (list Z)) : C (status * html_buffer) :=
  match label with
  | Some label => on_buffer (fun x => str_printf x (bytes "<optgroup label=" ++ QUOTE ++ label ++ QUOTE ++ bytes ">")) b
  | None => on_buffer (fun x => str_concat x (bytes "<optgroup>")) b
  end.

(** The quote is not closed. *)
Definition html_style_start (b : html_buffer) (type : list Z) : C (status * html_buffer) :=
  c_assert (0 <? zlen type);;
  on_buffer (fun x => str_concat3 x (bytes "<style type='") type (bytes ">")) b.

(** * Documents *)

(** The functions that enclose a text, and the name each is called for. *)
Definition enclosing : list ((html_buffer -> list Z -> C (status * html_buffer)) * list Z) :=
  [(html_address, bytes "address");
   (html_big, bytes "big");
   (html_bold, bytes "b");
   (html_th, bytes "th");
   (html_td, bytes "td");
   (html_strong, bytes "strong");
   (html_italic, bytes "italic");
   (html_slant, bytes "slant");
   (html_em, bytes "em");
   (html_dfn, bytes "dfn");
   (html_code, bytes "code");
   (html_samp, bytes "samp");
   (html_kbd, bytes "kbd");
   (html_var, bytes "var");
   (html_cite, bytes "cite");
   (html_abbr, bytes "abbr");
   (html_acronym, bytes "acronym");
   (html_small, bytes "small");
   (html_dt, bytes "dt");
   (html_dd, bytes "dd");
   (html_li, bytes "li");
   (html_del, bytes "del");
   (html_ins, bytes "ins");
   (html_p, bytes "p");
   (html_h1, bytes "h1");
   (html_h2, bytes "h2");
   (html_h3, bytes "h3");
   (html_h4, bytes "h4");
   (html_h5, bytes "h5");
   (html_h6, bytes "h6");
   (html_title, bytes "title");
   (html_q, bytes "q");
   (html_sub, bytes "sub");
   (html_sup, bytes "sup");
   (html_tt, bytes "tt")].

(** The functions that open and those that close an element. *)
Definition opening : list ((html_buffer -> C (status * html_buffer)) * (html_buffer -> C (status * html_buffer)) * list Z) :=
  [(html_address_start, html_address_end, bytes "address");
   (html_body_start, html_body_end, bytes "body");
   (fun b => html_table_start b 0, html_table_end, bytes "table");
   (html_tr_start, html_tr_end, bytes "tr");
   (html_dl_start, html_dl_end, bytes "dl");
   (html_ol_start, html_ol_end, bytes "ol");
   (html_ul_start, html_ul_end, bytes "ul");
   (html_p_start, html_p_end, bytes "p");
   (html_head_start, html_head_end, bytes "head");
   (html_html_start, html_html_end, bytes "html");
   (html_select_start, html_select_end, bytes "select");
   (fun b => html_optgroup_start b None, html_optgroup_end, bytes "optgroup")].

(** What a page handler writes. *)
Inductive doc : Type :=
| Words (s : list Z)
| Break
| Rule
| Enclosed (i : nat) (s : list Z)
| Link (url text : list Z)
| Label (for_ text : list Z)
| Choice (selected : Z) (value : option (list Z)) (text : list Z)
| Image (url : list Z) (alt : option (list Z)) (height width : Z)
| Element (i : nat) (l : list doc)
| Quotation (url : list Z) (l : list doc)
| Columns (ncol : Z) (l : list doc).

Definition write_all (w : doc -> html_buffer -> C (status * html_buffer))
    : list doc -> html_buffer -> C (status * html_buffer) :=
  fix go l b := match l with [] => ret (success, b) | d :: l => and_then (w d b) (go l) end.

Fixpoint write (d : doc) (b : html_buffer) : C (status * html_buffer) :=
  match d with
  | Words s => html_add b s
  | Break => html_br b
  | Rule => html_hr b
  | Enclosed i s => match enclosing !! i with Some (f, _) => f b s | None => lift (Fault AssertFailed) end
  | Link url text => html_anchor b url text
  | Label for_ text => html_label b for_ text
  | Choice selected value text => html_option b selected value text
  | Image url alt height width => html_img b url alt height width
  | Element i l =>
      match opening !! i with
      | Some (f, g, _) => and_then (f b) (fun b => and_then (write_all write l b) g)
      | None => lift (Fault AssertFailed)
      end
  | Quotation url l =>
      and_then (html_blockquote_start b url) (fun b => and_then (write_all write l b) html_blockquote_end)
  | Columns ncol l =>
      and_then (html_table_start b ncol) (fun b => and_then (write_all write l b) html_table_end)
  end.

End HtmlBuffer.

(** ** The text of a document *)

Definition tag (t : list Z) : list Z := bytes "<" ++ t ++ bytes ">".
Definition end_tag (n : list Z) : list Z := bytes "</" ++ n ++ bytes ">".

Definition attribute (b : bool) (name value : list Z) : list Z :=
  if b then bytes " " ++ name ++ bytes "='" ++ value ++ bytes "'" else [].

Definition enclosing_names `{STRINGS} : list (list Z) := snd <$> enclosing (T := unit).
Definition opening_names `{STRINGS} : list (list Z) := snd <$> opening (T := unit).

Fixpoint text `{STRINGS} (d : doc) : list Z :=
  match d with
  | Words s => s
  | Break => tag (bytes "br")
  | Rule => tag (bytes "hr")
  | Enclosed i s => let n := default [] (enclosing_names !! i) in tag n ++ s ++ end_tag n
  | Link url s => tag (bytes "a href=" ++ QUOTE ++ url ++ QUOTE) ++ s ++ end_tag (bytes "a")
  | Label f s => tag (bytes "label for='" ++ f ++ bytes "'") ++ s ++ end_tag (bytes "label")
  | Choice sel v s =>
      let v := default [] v in
      tag (bytes "option" ++ (if sel =? 1 then bytes " selected " else []) ++ attribute (0 <? zlen v) (bytes "value") v) ++
      s ++ end_tag (bytes "option")
  | Image url alt h w =>
      let alt := default [] alt in
      tag (bytes "img src='" ++ url ++ bytes "'" ++ attribute (0 <? zlen alt) (bytes "alt") alt ++
           attribute (0 <? h) (bytes "height") (decimal h) ++ attribute (0 <? w) (bytes "width") (decimal w))
  | Element i l => let n := default [] (opening_names !! i) in tag n ++ flat_map text l ++ end_tag n
  | Quotation url l =>
      tag (bytes "blockquote cite ='" ++ url ++ bytes "'") ++ flat_map text l ++ end_tag (bytes "blockquote")
  | Columns n l =>
      tag (bytes "table" ++ attribute (0 <? n) (bytes "columns") (decimal n)) ++ flat_map text l ++ end_tag (bytes "table")
  end.

(** Characters that can be in a text: not those of a tag. *)
Definition clean (s : list Z) : bool :=
  forallb (fun c => in_range 1 255 c && negb (c =? ch "<") && negb (c =? ch ">")) s.

(** What the functions assert of their arguments, and strings that are clean. *)
Fixpoint good `{STRINGS} (d : doc) : bool :=
  match d with
  | Words s => clean s
  | Break | Rule => true
  | Enclosed i s => bool_decide (is_Some (enclosing_names !! i)) && clean s
  | Link url s | Label url s => (0 <? zlen url) && (0 <? zlen s) && clean url && clean s
  | Choice _ v s => (0 <? zlen s) && clean (default [] v) && clean s
  | Image url alt _ _ => (0 <? zlen url) && clean url && clean (default [] alt)
  | Element i l => bool_decide (is_Some (opening_names !! i)) && forallb good l
  | Quotation url l => (0 <? zlen url) && clean url && forallb good l
  | Columns _ l => forallb good l
  end.

(** ** Reading the tags *)

(** The names of the elements that are open, and the tag that is being read. *)
Inductive scanner : Type :=
| Outside (stack : list (list Z))
| Inside (stack : list (list Z)) (t : list Z)
| Broken.

Definition tag_name (t : list Z) : list Z := firstn (span_len (fun c => negb (c =? ch " ")) t) t.

Definition void_tag (n : list Z) : bool :=
  bool_decide (n = bytes "br") || bool_decide (n = bytes "hr") || bool_decide (n = bytes "img").

(** A tag that has been read opens or closes an element. *)
Definition enter (stack : list (list Z)) (t : list Z) : scanner :=
  if prefixb (bytes "/") t
  then match stack with
       | m :: stack => if bool_decide (m = drop 1 t) then Outside stack else Broken
       | [] => Broken
       end
  else if void_tag (tag_name t) then Outside stack else Outside (tag_name t :: stack).

Definition scan_char (s : scanner) (c : Z) : scanner :=
  match s with
  | Outside stack => if c =? ch "<" then Inside stack [] else if c =? ch ">" then Broken else Outside stack
  | Inside stack t => if c =? ch ">" then enter stack t else if c =? ch "<" then Broken else Inside stack (t ++ [c])
  | Broken => Broken
  end.

Definition scan (s : scanner) (l : list Z) : scanner := fold_left scan_char l s.

Lemma clean_cons c s :
  clean (c :: s) = true -> is_char c /\ (c =? ch "<") = false /\ (c =? ch ">") = false /\ clean s = true.
Proof.
  cbn [clean forallb]. unfold in_range, is_char. intros Hc. zreflect.
  repeat split; (lia || done || by apply Z.eqb_neq).
Qed.

Lemma clean_app a b : clean (a ++ b) = clean a && clean b.
Proof. apply forallb_app. Qed.

Lemma clean_chars s : clean s = true -> Forall is_char s.
Proof. induction s as [|c s IH]; [constructor|]. intros (? & _ & _ & ?)%clean_cons. constructor; auto. Qed.

Lemma scan_app s a b : scan s (a ++ b) = scan (scan s a) b.
Proof. apply fold_left_app. Qed.

Lemma scan_clean st s : clean s = true -> scan (Outside st) s = Outside st.
Proof.
  induction s as [|c s IH]; [done|]. intros (_ & Hl & Hg & Hs)%clean_cons. cbn. rewrite Hl, Hg. by apply IH.
Qed.

Lemma scan_inside st t s : clean s = true -> scan (Inside st t) s = Inside st (t ++ s).
Proof.
  revert t. induction s as [|c s IH]; intros t; [by rewrite app_nil_r|].
  intros (_ & Hl & Hg & Hs)%clean_cons. cbn. rewrite Hl, Hg. fold (scan (Inside st (t ++ [c])) s).
  rewrite IH by done. by rewrite <-app_assoc.
Qed.

Lemma scan_tag st t : clean t = true -> scan (Outside st) (tag t) = enter st t.
Proof.
  intros Ht. unfold tag. rewrite !scan_app. change (scan (Outside st) (bytes "<")) with (Inside st []).
  by rewrite scan_inside.
Qed.

Lemma scan_end_tag st n : clean n = true -> scan (Outside (n :: st)) (end_tag n) = Outside st.
Proof.
  intros Hn. change (end_tag n) with (tag (ch "/" :: n)). rewrite scan_tag by done.
  unfold enter. cbn [prefixb bytes]. change (drop 1 (ch "/" :: n)) with n. by rewrite bool_decide_true.
Qed.

(** The names that the tables have can be read back. *)
Definition good_name (n : list Z) : bool :=
  clean n && bool_decide (tag_name n = n) && negb (void_tag n) && negb (prefixb (bytes "/") n).

Lemma enter_name st n : good_name n = true -> enter st n = Outside (n :: st).
Proof.
  unfold good_name. intros Hn. zreflect. unfold enter.
  apply bool_decide_eq_true in H2 as Ht. by rewrite Ht, H0, H1.
Qed.

(** ** Documents are balanced *)

Definition children (d : doc) : list doc :=
  match d with Element _ l | Quotation _ l | Columns _ l => l | _ => [] end.

Lemma doc_induct (P : doc -> Prop) : (forall d, Forall P (children d) -> P d) -> forall d, P d.
Proof.
  intros H. refine (fix IH d := H d _).
  refine (let go := fix go l : Forall P l :=
    match l with [] => List.Forall_nil P | x :: l => List.Forall_cons P x l (IH x) (go l) end in _).
  exact (match d with
    | Element _ l | Quotation _ l | Columns _ l => go l
    | _ => List.Forall_nil P
    end).
Qed.

Lemma decimal_clean n : clean (decimal n) = true.
Proof.
  assert (Hd : forall ds, digits ds -> clean ds = true).
  { intros ds Hds. apply forallb_forall. intros c Hc%list_elem_of_In. unfold digits in Hds.
    pose proof (proj1 (list.Forall_forall _ _) Hds c Hc) as Hdig. cbn in Hdig. unfold isdigit, in_range in *. zreflect.
    rewrite !andb_true_iff, !negb_true_iff, !Z.eqb_neq, !Z.leb_le. lia. }
  unfold decimal. zcase; [change (clean (decimal_nat (- n)) = true)|]; apply Hd, decimal_nat_digits; lia.
Qed.

Lemma attribute_clean b n v : clean n = true -> clean v = true -> clean (attribute b n v) = true.
Proof. intros Hn Hv. unfold attribute. destruct b; [|done]. by rewrite !clean_app, Hn, Hv. Qed.

Lemma enclosing_good `{STRINGS} i n : enclosing_names !! i = Some n -> good_name n = true.
Proof.
  assert (H0 : Forall (fun n => good_name n = true) enclosing_names) by (repeat constructor).
  intros Hi. exact (list.Forall_lookup_1 (fun n => good_name n = true) _ i n H0 Hi).
Qed.

Lemma opening_good `{STRINGS} i n : opening_names !! i = Some n -> good_name n = true.
Proof.
  assert (H0 : Forall (fun n => good_name n = true) opening_names) by (repeat constructor).
  intros Hi. exact (list.Forall_lookup_1 (fun n => good_name n = true) _ i n H0 Hi).
Qed.

Lemma good_clean n : good_name n = true -> clean n = true.
Proof. unfold good_name. intros Hn. by zreflect. Qed.

(** What is between a tag and its end. *)
Lemma scan_pair st t n body :
  clean t = true -> clean n = true -> enter st t = Outside (n :: st) ->
  scan (Outside (n :: st)) body = Outside (n :: st) ->
  scan (Outside st) (tag t ++ body ++ end_tag n) = Outside st.
Proof. intros Ht Hn He Hb. by rewrite !scan_app, scan_tag, He, Hb, scan_end_tag. Qed.

Ltac clean_tac :=
  rewrite ?clean_app; repeat (apply andb_true_iff; split);
  first [done | by apply attribute_clean; [|try done; apply decimal_clean] | by destruct (_ =? _)].

Lemma document_balanced `{STRINGS} d : good d = true -> forall st, scan (Outside st) (text d) = Outside st.
Proof.
  induction d as [d IH] using doc_induct. intros Hg st.
  assert (Hall : forall l, Forall (fun d => good d = true -> forall st, scan (Outside st) (text d) = Outside st) l ->
    forallb good l = true -> forall st, scan (Outside st) (flat_map text l) = Outside st).
  { clear. induction 1 as [|x l Hx _ IHl]; intros Hgl st; [done|]. cbn [forallb flat_map] in *. apply andb_true_iff in Hgl as [Hgx Hgl].
    by rewrite scan_app, Hx, IHl. }
  destruct d as [s| | |i s|url s|f s|sel v s|url alt h w|i l|url l|n l]; cbn [good text children] in *; zreflect.
  - by apply scan_clean.
  - by rewrite scan_tag.
  - by rewrite scan_tag.
  - apply bool_decide_eq_true in H0 as [n Hn]. rewrite Hn. pose proof (enclosing_good _ _ Hn) as Hgn.
    apply scan_pair; [by apply good_clean..|by apply enter_name|by apply scan_clean].
  - apply scan_pair; [clean_tac|done|done|by apply scan_clean].
  - apply scan_pair; [clean_tac|done|done|by apply scan_clean].
  - apply scan_pair; [clean_tac|done| |by apply scan_clean]. unfold attribute. by destruct (_ =? _), (0 <? _).
  - rewrite scan_tag; [done|clean_tac].
  - apply bool_decide_eq_true in H0 as [n Hn]. rewrite Hn. pose proof (opening_good _ _ Hn) as Hgn.
    apply scan_pair; [by apply good_clean..|by apply enter_name|by apply Hall].
  - apply scan_pair; [clean_tac|done|done|by apply Hall].
  - apply scan_pair; [clean_tac|done| |by apply Hall]. unfold attribute. by destruct (0 <? _).
Qed.

(** ** Documents are written *)

Section Written.
Context `{StringLaws} {T : Type}.
Implicit Types (b : html_buffer (T := T)).

Definition keeps_template (b b' : html_buffer (T := T)) : Prop := template b' = template b.

#[local] Instance keeps_template_preorder : PreOrder keeps_template.
Proof. split; [done|]. intros b1 b2 b3. unfold keeps_template. congruence. Qed.

(** The contract for a buffer, whose template stays, and its rules. *)
Abbreviation appends := (fills buffer keeps_template).
Abbreviation appends_nothing := (fills_nothing buffer keeps_template).
Abbreviation appends_then := (fills_then buffer keeps_template).
Abbreviation appends_eq := (fills_eq buffer keeps_template).
Abbreviation appends_assert := (fills_assert buffer keeps_template).

Lemma appends_on t0 put t : puts_at t0 put t -> appends t0 (on_buffer put) t.
Proof. by apply (puts_fills buffer keeps_template (fun s b => HtmlBuffer (template b) s)). Qed.

Lemma puts_put_if t0 (c : bool) put t : puts_at t0 put t -> puts_at t0 (put_if c put) (if c then t else []).
Proof. intros Hp. unfold put_if. by destruct c; [|apply puts_nothing]. Qed.

Lemma enclosing_spec i n :
  enclosing_names !! i = Some n ->
  enclosing (T := T) !! i = Some (encloses (tag n) (end_tag n), n).
Proof.
  change enclosing_names with (snd <$> enclosing (T := T)). rewrite list_lookup_fmap.
  assert (HF : Forall (fun fn => fn.1 = encloses (tag fn.2) (end_tag fn.2)) (enclosing (T := T))) by (repeat constructor).
  destruct (enclosing !! i) as [[f m]|] eqn:Hi; [|done]. intros [= <-].
  apply (list.Forall_lookup_1 _ _ i _ HF) in Hi. cbn in Hi. by rewrite Hi.
Qed.

Lemma opening_spec i n :
  opening_names !! i = Some n ->
  opening (T := T) !! i = Some (emits (tag n), emits (end_tag n), n).
Proof.
  change opening_names with (snd <$> opening (T := T)). rewrite list_lookup_fmap.
  assert (HF : Forall (fun fn => fn.1 = (emits (tag fn.2), emits (end_tag fn.2))) (opening (T := T))) by (repeat constructor).
  destruct (opening !! i) as [[f m]|] eqn:Hi; [|done]. intros [= <-].
  apply (list.Forall_lookup_1 _ _ i _ HF) in Hi. cbn in Hi. by rewrite Hi.
Qed.

Lemma appends_emits t0 t : Forall is_char t -> appends t0 (emits t) t.
Proof. intros Ht. by apply appends_on, puts_concat. Qed.

Lemma tag_chars n : clean n = true -> Forall is_char (tag n) /\ Forall is_char (end_tag n).
Proof. intros Hn%clean_chars. unfold tag, end_tag. rewrite !Forall_app. split_and!; try done; decide_closed. Qed.

Lemma write_all_appends t0 l :
  Forall (fun d => good d = true -> forall t0, appends t0 (write d) (text d)) l -> forallb good l = true ->
  appends t0 (write_all write l) (flat_map text l).
Proof.
  intros Hl. revert t0. induction Hl as [|d l Hd _ IH]; intros t0 Hg; [apply appends_nothing|].
  cbn [forallb flat_map write_all] in *. apply andb_true_iff in Hg as [Hgd Hg]. apply appends_then; auto.
Qed.

(** An element with its contents. *)
Lemma appends_around t0 f g a body c l :
  (forall t0, appends t0 f a) -> (forall t0, appends t0 g c) ->
  (forall t0, appends t0 (write_all write l) body) ->
  appends t0 (fun b => and_then (f b) (fun b => and_then (write_all write l b) g)) (a ++ body ++ c).
Proof. intros Hf Hg Hb. apply appends_then; [done|]. apply appends_then; auto. Qed.

(** Literals and texts of the parts. *)
Ltac chars :=
  first [ done | decide_closed | by apply clean_chars | by apply clean_chars, decimal_clean | apply Forall_app; split; chars ].

Lemma choice_appends t0 sel v s :
  good (Choice sel v s) = true -> appends t0 (fun b => html_option b sel v s) (text (Choice sel v s)).
Proof.
  cbn [good]. intros Hg. zreflect. apply appends_assert; [by apply Z.ltb_lt|].
  apply (appends_eq _ _ (bytes "<option" ++ (if sel =? 1 then bytes " selected " else []) ++
    attribute (0 <? zlen (default [] v)) (bytes "value") (default [] v) ++ bytes ">" ++ s ++ bytes "</option>")).
  { cbn [text]. unfold tag, end_tag. by rewrite <-!app_assoc. }
  apply appends_on, puts_then; [apply puts_concat; chars|].
  apply puts_then; [apply puts_put_if, puts_concat; chars|].
  apply puts_then; [|apply puts_concat3; chars].
  unfold attribute. apply puts_put_if. apply (puts_concat3 _ (bytes " value='") _ (bytes "'")); chars.
Qed.

Lemma image_appends t0 url alt h w :
  good (Image url alt h w) = true -> appends t0 (fun b => html_img b url alt h w) (text (Image url alt h w)).
Proof.
  cbn [good]. intros Hg. zreflect. apply appends_assert; [by apply Z.ltb_lt|].
  apply (appends_eq _ _ ((bytes "<img src='" ++ url ++ bytes "'") ++ attribute (0 <? zlen (default [] alt)) (bytes "alt") (default [] alt) ++
    attribute (0 <? h) (bytes "height") (decimal h) ++ attribute (0 <? w) (bytes "width") (decimal w) ++ bytes ">")).
  { cbn [text]. unfold tag. by rewrite <-!app_assoc. }
  apply appends_on, puts_then; [apply puts_concat3; chars|].
  apply puts_then; [unfold attribute; apply puts_put_if, (puts_concat3 _ (bytes " alt='") _ (bytes "'")); chars|].
  apply puts_then; [unfold attribute; apply puts_put_if, puts_printf; chars|].
  apply puts_then; [unfold attribute; apply puts_put_if, puts_printf; chars|]. apply puts_concat; chars.
Qed.

Lemma document_written d : good d = true -> forall t0, appends t0 (write d) (text d).
Proof.
  induction d as [d IH] using doc_induct. intros Hg t0.
  destruct d as [s| | |i s|url s|f s|sel v s|url alt h w|i l|url l|n l]; cbn [write children] in *;
    try (by apply choice_appends); try (by apply image_appends); cbn [good text] in *; zreflect.
  - apply appends_on, puts_concat. by apply clean_chars.
  - apply appends_emits. decide_closed.
  - apply appends_emits. decide_closed.
  - apply bool_decide_eq_true in H1 as [n Hn]. rewrite (enclosing_spec _ _ Hn), Hn. cbn [default].
    pose proof (tag_chars n (good_clean _ (enclosing_good _ _ Hn))) as [? ?].
    apply appends_on, puts_concat3; chars.
  - apply appends_assert; [by rewrite (proj2 (Z.eqb_neq _ _)) by lia|]. apply appends_assert; [by rewrite (proj2 (Z.eqb_neq _ _)) by lia|].
    apply (appends_eq _ _ (bytes "<a href=" ++ QUOTE ++ url ++ QUOTE ++ bytes ">" ++ s ++ bytes "</a>")).
    { unfold tag, end_tag. by rewrite <-!app_assoc. }
    apply appends_on, puts_printf; chars.
  - apply appends_assert; [by apply Z.ltb_lt|]. apply appends_assert; [by apply Z.ltb_lt|].
    apply (appends_eq _ _ (bytes "<label for='" ++ f ++ bytes "'>" ++ s ++ bytes "</label>")).
    { unfold tag, end_tag. by rewrite <-!app_assoc. }
    apply appends_on, puts_printf; chars.
  - apply bool_decide_eq_true in H1 as [n Hn]. rewrite (opening_spec _ _ Hn), Hn. cbn [default].
    pose proof (tag_chars n (good_clean _ (opening_good _ _ Hn))) as [? ?].
    apply appends_around; intros; [by apply appends_emits|by apply appends_emits|by apply write_all_appends].
  - apply appends_around; intros; [|apply appends_emits; decide_closed|by apply write_all_appends].
    apply appends_assert; [by apply Z.ltb_lt|].
    apply (appends_eq _ _ (bytes "<blockquote cite ='" ++ url ++ bytes "'>")); [unfold tag; by rewrite <-!app_assoc|].
    apply appends_on, puts_concat3; chars.
  - apply appends_around; intros; [|apply appends_emits; decide_closed|by apply write_all_appends].
    unfold html_table_start, attribute. destruct (0 <? n).
    + apply (appends_eq _ _ (bytes "<table columns='" ++ decimal n ++ bytes "'>")); [unfold tag; by rewrite <-!app_assoc|].
      apply appends_on, puts_printf; chars.
    + apply appends_on, puts_concat; chars.
Qed.

(** C22. A page handler that writes a document as a tree gets its text: for every
    document whose texts have no angle brackets, from a new buffer and under any
    behaviour of the allocator, what is in the buffer is a first part of the
    text, and all of it when every call succeeded, as they do while there is
    memory.  In the text every element is closed in order. *)
Theorem html_document (d : doc) o :
  good d = true -> zlen (text d) <= 2 ^ 38 ->
  (forall st, scan (Outside st) (text d) = Outside st) /\
  wp html_buffer_new o (fun r o1 => (o = [] -> o1 = [] /\ is_Some r) /\ forall b, r = Some b ->
    template b = None (A := T) /\
    wp (write d b) o1 (fun '(st, b') o2 =>
      (exists p, p `prefix_of` text d /\ str_rep (buffer b') p /\ (st = success -> p = text d)) /\
      (o1 = [] -> o2 = [] /\ st = success))).
Proof.
  intros Hg Hl. split; [by apply document_balanced|]. unfold html_buffer_new. wp.
  apply wp_alloc_ok. intros b o1 _ Hb. destruct b; cbn [negb]; wp.
  2:{ split; [|done]. intros Ho. by destruct (Hb Ho). }
  eapply wp_mono; [apply str_new_law|]. intros r o2 [Hs Ho]. wp. split.
  { intros Hoo. destruct (Hb Hoo) as [-> _]. destruct (Ho eq_refl) as [-> [s ->]]. done. }
  intros b Hb'. destruct r as [s|]; [|done]. injection Hb' as <-. destruct (Hs s eq_refl) as [Hr Hc].
  split; [done|]. eapply wp_mono; [eapply (document_written d Hg [] Hl (HtmlBuffer None s)); [done|cbn; lia]|].
  intros [st b'] o3 (_ & (p & ? & ? & _ & ?) & ?). split; [|done]. by exists p.
Qed.

(** What [vsprintf] does with a text that is longer than was said. *)
Theorem html_printf_overflows (b : html_buffer (T := T)) cb out :
  0 < cb < PTRDIFF_MAX -> cb < zlen out -> html_printf b cb out [] = Fault OutOfBounds.
Proof.
  intros Hcb Hout. unfold html_printf, malloc, bind, lift, guard, alloc_ok, ret.
  rewrite (proj2 (Z.ltb_lt 0 cb)), u64_small by (unfold PTRDIFF_MAX in *; lia).
  rewrite (proj2 (Z.leb_le (cb + 1) PTRDIFF_MAX)) by lia. unfold wr.
  rewrite (proj2 (andb_false_iff _ _)); [done|]. right. apply Z.leb_gt.
  rewrite zlen_replicate, zlen_cstr. lia.
Qed.

End Written.

(** * Witnesses *)

(** A list with two entries and a picture. *)
Definition sample_doc : doc :=
  Element 1 [Element 6 [Enclosed 20 (bytes "one"); Enclosed 20 (bytes "two")]; Image (bytes "/a.png") None 10 0;
             Choice 1 (Some (bytes "v")) (bytes "w")].

Lemma html_document_witness :
  text sample_doc = bytes "<body><ul><li>one</li><li>two</li></ul><img src='/a.png' height='10'><option selected  value='v'>w</option></body>" /\
  (forall st, scan (Outside st) (text sample_doc) = Outside st) /\
  wp html_buffer_new [true; true; true; false] (fun r o1 => ([true; true; true; false] = [] -> o1 = [] /\ is_Some r) /\ forall b, r = Some b ->
    template b = None (A := unit) /\
    wp (write sample_doc b) o1 (fun '(st, b') o2 =>
      (exists p, p `prefix_of` text sample_doc /\ str_rep (buffer b') p /\ (st = success -> p = text sample_doc)) /\
      (o1 = [] -> o2 = [] /\ st = success))).
Proof.
  split; [by vm_compute|]. apply (html_document (T := unit) sample_doc [true; true; true; false]); by vm_compute.
Defined.

Lemma html_printf_overflows_witness :
  html_printf (HtmlBuffer (T := unit) None Cstring.fresh) 3 (bytes "12345") [] = Fault OutOfBounds.
Proof. apply html_printf_overflows; unfold PTRDIFF_MAX; by cbn. Defined.
