(* ===== verification/HtmlTemplate.v ===== *)
(** HtmlTemplate: pages out of templates, from http/src/html_section.c,
    html_menu.c, html_template.c, html_template_repository.c and the last function
    of html_buffer.c.

    A menu is a tree: an item belongs to one menu, as [html_menu_free] requires.
    The lists of sections and of items are sequences; the lock of a template, which
    protects its rendered menu, is not in the model.  Templates are shared by the
    buffers that use them: they are objects in a store, and the log of the map of
    the repository (Map) tells which were freed.

    [html_template_fills] shows what a layout makes of the parts, with [expand] as
    the reference, and on which layouts an assertion fails;
    [html_menu_renders] that a menu is rendered in the order of its tree;
    [html_menu_stale] that a new menu is not shown;
    [html_page] what a page handler sends that uses a template of the
    repository. *)

From Stdlib Require Import ZArith Lia.
From stdpp Require Import base list numbers gmap.
From S2P Require Import Prelude Convert Cstring HttpBase HeaderProps Response Puts HtmlBuffer MetaList Map.

Section HtmlTemplate.
Context `{STRINGS}.

(** * Sections *)

Record html_section : Type := Section_ { sec_name : option (list Z); sec_code : option (list Z) }.

Definition sizeof_section : Z := 16.

Definition html_section_new : C (option html_section) :=
  let* ok := alloc_ok sizeof_section in ret (if ok : bool then Some (Section_ None None) else None).

(** The old string is freed first. *)
Definition html_section_set_name (s : html_section) (v : list Z) : C (bool * html_section) :=
  let* ok := alloc_ok (zlen v + 1) in
  ret (ok, Section_ (if ok : bool then Some v else None) (sec_code s)).

Definition html_section_set_code (s : html_section) (v : list Z) : C (bool * html_section) :=
  let* ok := alloc_ok (zlen v + 1) in
  ret (ok, Section_ (sec_name s) (if ok : bool then Some v else None)).

Definition html_section_get_code (s : html_section) : option (list Z) := sec_code s.
Definition html_section_get_name (s : html_section) : option (list Z) := sec_name s.

(** * Menus *)

Inductive html_menu : Type :=
| Menu (text image hover_image link : str) (items : list html_menu).

Definition sizeof_menu : Z := 40.
Definition sizeof_list : Z := 24.

Definition html_menu_new : C (option html_menu) :=
  let* ok := alloc_ok sizeof_menu in
  if negb ok then ret None
  else
    let* ok := alloc_ok sizeof_list in
    if negb ok then ret None
    else
      let* arr := new_strings 4 in
      ret (match arr with Some [t; i; h; l] => Some (Menu t i h l []) | _ => None end).

Definition html_menu_set_text (m : html_menu) (s : list Z) : C (status * html_menu) :=
  let '(Menu t i h l items) := m in let* (st, t) := str_set t s in ret (st, Menu t i h l items).
Definition html_menu_set_image (m : html_menu) (s : list Z) : C (status * html_menu) :=
  let '(Menu t i h l items) := m in let* (st, i) := str_set i s in ret (st, Menu t i h l items).
Definition html_menu_set_hover_image (m : html_menu) (s : list Z) : C (status * html_menu) :=
  let '(Menu t i h l items) := m in let* (st, h) := str_set h s in ret (st, Menu t i h l items).
Definition html_menu_set_link (m : html_menu) (s : list Z) : C (status * html_menu) :=
  let '(Menu t i h l items) := m in let* (st, l) := str_set l s in ret (st, Menu t i h l items).

Definition html_menu_add_menu (m submenu : html_menu) : C (status * html_menu) :=
  let '(Menu t i h l items) := m in
  let* ok := alloc_ok sizeof_list in
  ret (if ok : bool then (success, Menu t i h l (items ++ [submenu])) else (failure, m)).

Definition html_menu_get_text (m : html_menu) : res (list Z) := let '(Menu t _ _ _ _) := m in str_text t.
Definition html_menu_get_image (m : html_menu) : res (list Z) := let '(Menu _ i _ _ _) := m in str_text i.
Definition html_menu_get_hover_image (m : html_menu) : res (list Z) := let '(Menu _ _ h _ _) := m in str_text h.
Definition html_menu_get_link (m : html_menu) : res (list Z) := let '(Menu _ _ _ l _) := m in str_text l.

(** The text of one item.  [c_str] is never NULL, so that the branches for a menu
    without text or without link are not taken. *)
Definition menu_line (link text : list Z) : list Z :=
  bytes "<a href='" ++ link ++ bytes "'>" ++ text ++ bytes "</a><br>" ++ [10].

(** The loop over the items. *)
Definition render_all (r : html_menu -> str -> C (status * str)) : list html_menu -> str -> C (status * str) :=
  fix go l buffer :=
    match l with [] => ret (success, buffer) | m :: l => and_put (r m buffer) (go l) end.

Fixpoint html_menu_render (m : html_menu) (buffer : str) : C (status * str) :=
  let '(Menu t i h l items) := m in
  let* text := lift (str_text t) in
  let* link := lift (str_text l) in
  let* _ := lift (str_text i) in
  let* _ := lift (str_text h) in
  and_put (str_printf buffer (menu_line link text)) (render_all html_menu_render items).

(** * Templates *)

Record html_template : Type := Template {
  width : Z;
  height : Z;
  layout : option (list Z);
  sections : list html_section;
  menu : option html_menu;
  rendered_menu : option str;
}.

Definition sizeof_template : Z := 96.

Definition set_sections (l : list html_section) (t : html_template) : html_template :=
  Template (width t) (height t) (layout t) l (menu t) (rendered_menu t).
Definition set_rendered (s : option str) (t : html_template) : html_template :=
  Template (width t) (height t) (layout t) (sections t) (menu t) s.

Definition html_template_new : C (option html_template) :=
  let* ok := alloc_ok sizeof_template in
  if negb ok then ret None
  else
    let* ok := alloc_ok sizeof_list in
    ret (if ok : bool then Some (Template 0 0 None [] None None) else None).

(** The old menu is freed; the rendered one stays. *)
Definition html_template_set_menu (t : html_template) (m : html_menu) : html_template :=
  Template (width t) (height t) (layout t) (sections t) (Some m) (rendered_menu t).

Definition html_template_set_layout (t : html_template) (s : list Z) : C (bool * html_template) :=
  let* ok := alloc_ok (zlen s + 1) in
  ret (ok, Template (width t) (height t) (if ok : bool then Some s else None) (sections t) (menu t) (rendered_menu t)).

Definition html_template_add_section (t : html_template) (s : html_section) : C (bool * html_template) :=
  let* ok := alloc_ok sizeof_list in
  ret (if ok : bool then (true, set_sections (sections t ++ [s]) t) else (false, t)).

Definition html_template_add_user_section (t : html_template) : C (bool * html_template) :=
  let* s := html_section_new in
  match s with
  | None => ret (false, t)
  | Some s =>
      let* (ok, s) := html_section_set_name s (bytes "user") in
      if negb ok then ret (false, t) else html_template_add_section t s
  end.

(** The menu is rendered when there is no text of it yet. *)
Definition render_menu (t : html_template) : C (status * html_template) :=
  match menu t, rendered_menu t with
  | None, _ | Some _, Some _ => ret (success, t)
  | Some m, None =>
      let* s := str_new in
      match s with
      | None => ret (failure, t)
      | Some s =>
          let* (st, s) := html_menu_render m s in
          ret (match st with success => (success, set_rendered (Some s) t) | failure => (failure, t) end)
      end
  end.

(** [case 'S']: section number [i]. *)
Definition send_section (t : html_template) (usercode : list Z) (i : nat) (r : http_response)
    : C (status * http_response) :=
  c_assert (i <? length (sections t))%nat;;
  match sections t !! i with
  | None => ret (failure, r)
  | Some sect =>
      match html_section_get_name sect with
      | None => lift (Fault OutOfBounds)
      | Some sectname =>
          if strcmp sectname (bytes "user") =? 0 then response_add r usercode
          else match html_section_get_code sect with
               | None => lift (Fault AssertFailed)
               | Some code => response_add r code
               end
      end
  end.

Definition send_menu (t : html_template) (r : http_response) : C (status * http_response) :=
  match menu t, rendered_menu t with
  | None, _ => ret (success, r)
  | Some _, None => lift (Fault OutOfBounds)
  | Some _, Some s => let* text := lift (str_text s) in response_add r text
  end.

(** The loop: [s] is what is left of the layout, [i] the number of the next
    section. *)
Fixpoint send_loop (fuel : nat) (t : html_template) (headcode usercode s : list Z) (i : nat)
    (r : http_response) : C (status * http_response) :=
  match strchr s (ch "%") with
  | None => response_add r s
  | Some k =>
      match fuel with
      | O => lift (Fault FuelOut)
      | S fuel =>
          and_then (response_add_end r (cstr s) (Z.of_nat k)) (fun r =>
          match drop (S k) s with
          | [] => response_add r []
          | c :: s =>
              if c =? ch "S" then
                and_then (send_section t usercode i r) (send_loop fuel t headcode usercode s (S i))
              else if c =? ch "H" then
                and_then (response_add r headcode) (send_loop fuel t headcode usercode s i)
              else if c =? ch "M" then
                and_then (send_menu t r) (send_loop fuel t headcode usercode s i)
              else
                and_then (response_add_char r (ch "%")) (fun r =>
                and_then (response_add_char r c) (send_loop fuel t headcode usercode s i))
          end)
      end
  end.

Definition html_template_send (t : html_template) (response : http_response) (headcode usercode : list Z)
    : C (status * html_template * http_response) :=
  match layout t with
  | None => lift (Fault AssertFailed)
  | Some s =>
      let* (st, t) := render_menu t in
      match st with
      | failure => ret (failure, t, response)
      | success =>
          let* (st, response) := send_loop (length s) t headcode usercode s 0 response in
          ret (st, t, response)
      end
  end.

(** * The repository *)

(** The templates, the map of the repository with its memory, and the pointer
    [repos] to the map. *)
Record world : Type := World {
  store : gmap loc html_template;
  maps : Map.world (V := loc);
  repos : option Map.map;
}.

Definition sizeof_repository : Z := 8.

(** A template is alive when the map did not free it. *)
Definition template_at (w : world) (p : loc) : res html_template :=
  if bool_decide (p ∈ Map.log (maps w)) then Fault OutOfBounds
  else match store w !! p with Some t => Ret t | None => Fault OutOfBounds end.

Definition html_template_repository_empty (w : world) : C world :=
  match repos w with
  | None => ret w
  | Some m => let* maps := map_free (maps w) (Some m) in ret (World (store w) maps None)
  end.

Definition init_repos (w : world) : C (bool * world) :=
  match repos w with
  | Some _ => ret (true, w)
  | None =>
      let* ok := alloc_ok sizeof_repository in
      if negb ok then ret (false, w)
      else
        let* (m, maps) := map_new (maps w) true in
        ret (match m with Some _ => true | None => false end, World (store w) maps m)
  end.

Definition html_template_repository_use (w : world) (name : list Z) : C (option (html_buffer (T := loc)) * world) :=
  let* (ok, w) := init_repos w in
  match ok, repos w with
  | true, Some m =>
      let* t := lift (map_get (maps w) m name) in
      match t with
      | None => ret (None, w)
      | Some t =>
          let* b := html_buffer_new in
          ret ((fun b => html_buffer_set_template b t) <$> b, w)
      end
  | _, _ => ret (None, w)
  end.

Definition html_template_repository_add (w : world) (name : list Z) (t : loc) : C (bool * world) :=
  let* (ok, w) := init_repos w in
  match ok, repos w with
  | true, Some m =>
      let* (st, maps) := map_set (maps w) m name t in
      ret (match st with success => true | failure => false end, World (store w) maps (Some m))
  | _, _ => ret (false, w)
  end.

Definition HTTP_500_INTERNAL_SERVER_ERROR : Z := 500.

(** The buffer is freed; its template, if none was set, was never initialised. *)
Definition html_done (w : world) (b : html_buffer (T := loc)) (response : http_response) (returncode : Z)
    : C (Z * world * http_response) :=
  match template b with
  | None => lift (Fault Uninitialised)
  | Some p =>
      let* t := lift (template_at w p) in
      let* usercode := lift (str_text (buffer b)) in
      let* (rc, t, response) := html_template_send t response (bytes "fix later") usercode in
      ret (match rc with success => returncode | failure => HTTP_500_INTERNAL_SERVER_ERROR end,
           World (<[p := t]> (store w)) (maps w) (repos w), response)
  end.

End HtmlTemplate.

(** * What a layout makes of the parts *)

Definition PERCENT : Z := ch "%".

(** Text in front of a page; the page is complete or ends where an assertion
    fails. *)
Definition put (t : list Z) (page : list Z * bool) : list Z * bool := (t ++ page.1, page.2).

(** The page of a layout: [fresh] when nothing was read since the last directive.
    A directive must not come first or follow another one at once, and there must
    be a section for each of its directives. *)
Fixpoint expand (head menu : list Z) (fresh : bool) (l : list Z) (secs : list (list Z)) : list Z * bool :=
  match l with
  | [] => ([], true)
  | c :: l =>
      if c =? PERCENT then
        if fresh then ([], false)
        else
          match l with
          | [] => ([], true)
          | d :: l =>
              if d =? ch "S" then
                match secs with
                | [] => ([], false)
                | t :: secs => put t (expand head menu true l secs)
                end
              else if d =? ch "H" then put head (expand head menu true l secs)
              else if d =? ch "M" then put menu (expand head menu true l secs)
              else put [PERCENT; d] (expand head menu true l secs)
          end
      else put [c] (expand head menu false l secs)
  end.

Lemma put_put a b page : put a (put b page) = put (a ++ b) page.
Proof. unfold put. cbn. by rewrite app_assoc. Qed.

Lemma expand_text head menu fresh p l secs :
  Forall (fun x => x <> PERCENT) p -> p <> [] ->
  expand head menu fresh (p ++ l) secs = put p (expand head menu false l secs).
Proof.
  intros Hp. revert fresh. induction Hp as [|c p Hc Hp IH]; intros fresh Hne; [done|].
  cbn [app expand]. rewrite (proj2 (Z.eqb_neq _ _)) by done.
  destruct p as [|c' p]; [done|]. rewrite IH by done. by rewrite put_put.
Qed.

Lemma split_percent l :
  Forall (fun x => x <> PERCENT) l \/ exists p q, l = p ++ PERCENT :: q /\ Forall (fun x => x <> PERCENT) p.
Proof.
  induction l as [|c l IH]; [by left|]. destruct (decide (c = PERCENT)) as [-> |Hc].
  - right. by exists [], l.
  - destruct IH as [IH|(p & q & -> & Hp)]; [left; by constructor|]. right. exists (c :: p), q. by split; [|constructor].
Qed.

Section Page.
Context `{StringLaws}.

(** Appending to the page changes nothing else of a response. *)
Definition same_but_page (r r' : http_response) : Prop :=
  rs_version r' = rs_version r /\ rs_status r' = rs_status r /\ rs_general r' = rs_general r /\
  rs_entity_header r' = rs_entity_header r /\ rs_flags r' = rs_flags r /\
  forall f, f <> Rs_entity -> rs_str r' f = rs_str r f.

#[local] Instance same_but_page_preorder : PreOrder same_but_page.
Proof.
  split; [done|]. intros r1 r2 r3 (? & ? & ? & ? & ? & E1) (? & ? & ? & ? & ? & E2).
  split_and!; try congruence. intros f Hf. by rewrite E2, E1.
Qed.

Abbreviation the_page := (fun r : http_response => rs_str r Rs_entity).
Abbreviation pages := (fills the_page same_but_page).
Abbreviation pages_then := (fills_then the_page same_but_page).
Abbreviation pages_nothing := (fills_nothing the_page same_but_page).
Abbreviation pages_eq := (fills_eq the_page same_but_page).

Lemma pages_on t0 p t : puts_at t0 p t -> pages t0 (on_page p) t.
Proof.
  apply (puts_fills the_page same_but_page (rs_with_str Rs_entity)). intros s r. cbn.
  rewrite decide_True by done. split; [done|]. repeat (split; [done|]). intros f Hf. cbn. by rewrite decide_False.
Qed.

Lemma pages_add t0 t : Forall is_char t -> pages t0 (fun r => response_add r t) t.
Proof. intros Ht. by apply pages_on, puts_concat. Qed.

(** ** Menus *)

(** The texts of a menu. *)
Inductive tree : Type := Tree (link text : list Z) (subs : list tree).

Fixpoint menu_text (tr : tree) : list Z :=
  let '(Tree link text subs) := tr in menu_line link text ++ flat_map menu_text subs.

Fixpoint shows (tr : tree) (m : html_menu) {struct tr} : Prop :=
  let '(Tree link text subs) := tr in
  let '(Menu t i h l items) := m in
  str_rep t text /\ str_rep l link /\ (exists x, str_rep i x) /\ (exists x, str_rep h x) /\
  (fix go subs items :=
     match subs, items with
     | [], [] => True
     | s :: subs, m :: items => shows s m /\ go subs items
     | _, _ => False
     end) subs items.

Lemma menu_line_chars link text : Forall is_char link -> Forall is_char text -> Forall is_char (menu_line link text).
Proof. intros Hl Ht. unfold menu_line. rewrite !Forall_app. split_and!; try done; decide_closed. Qed.

Lemma tree_induct (P : tree -> Prop) :
  (forall link text subs, Forall P subs -> P (Tree link text subs)) -> forall tr, P tr.
Proof.
  intros HP. refine (fix IH tr := match tr with Tree link text subs => HP link text subs _ end).
  exact ((fix go l : Forall P l :=
    match l with [] => List.Forall_nil P | x :: l => List.Forall_cons P x l (IH x) (go l) end) subs).
Qed.

Lemma menu_renders tr m t0 : shows tr m -> puts_at t0 (html_menu_render m) (menu_text tr).
Proof.
  revert m t0. induction tr as [link text subs IH] using tree_induct. intros [t i h l items] t0.
  cbn [shows]. intros (Ht & Hl & [xi Hi] & [xh Hh] & Hsub).
  destruct (str_text_law _ _ Ht) as [Et [Ct _]], (str_text_law _ _ Hl) as [El [Cl _]].
  destruct (str_text_law _ _ Hi) as [Ei _], (str_text_law _ _ Hh) as [Eh _]. cbn [html_menu_render menu_text].
  apply (puts_lift _ _ _ _ _ Et), (puts_lift _ _ _ _ _ El), (puts_lift _ _ _ _ _ Ei), (puts_lift _ _ _ _ _ Eh).
  apply puts_then; [by apply puts_printf, menu_line_chars|]. generalize (t0 ++ menu_line link text). intros t1.
  clear - IH Hsub. revert items t1 Hsub. induction IH as [|s subs Hs _ IHl]; intros [|m items] t1 Hsub; try done.
  - apply puts_nothing.
  - destruct Hsub as [Hm Hsub]. cbn [flat_map render_all]. apply puts_then; [by apply Hs|by apply IHl].
Qed.

Lemma menu_chars tr m : shows tr m -> Forall is_char (menu_text tr).
Proof.
  revert m. induction tr as [link text subs IH] using tree_induct. intros [t i h l items]. cbn [shows menu_text].
  intros (Ht & Hl & _ & _ & Hsub). destruct (str_text_law _ _ Ht) as [_ [Ct _]], (str_text_law _ _ Hl) as [_ [Cl _]].
  apply Forall_app. split; [by apply menu_line_chars|]. clear - IH Hsub. revert items Hsub.
  induction IH as [|s subs Hs _ IHl]; intros [|m items] Hsub; try done. destruct Hsub as [Hm Hsub].
  cbn [flat_map]. apply Forall_app. split; [by eapply Hs|by eapply IHl].
Qed.

(** ** The loop *)

Abbreviation outcome := (comes_to the_page same_but_page).

(** What a section gives. *)
Definition section_text (usercode : list Z) (sect : html_section) (tx : list Z) : Prop :=
  Forall is_char tx /\ exists n, sec_name sect = Some n /\ Forall is_char n /\
    if decide (n = bytes "user") then tx = usercode else sec_code sect = Some tx.

(** The text that the menu directive gives, once the menu is rendered. *)
Definition menu_ready (t : html_template) (mt : list Z) : Prop :=
  match menu t with None => mt = [] | Some _ => exists s, rendered_menu t = Some s /\ str_rep s mt end.

Lemma send_section_outcome t usercode secs i t0 :
  Forall2 (section_text usercode) (sections t) secs ->
  match drop i secs with
  | [] => aborts the_page t0 (send_section t usercode i) []
  | tx :: _ => pages t0 (send_section t usercode i) tx
  end.
Proof.
  intros Hs. pose proof (Forall2_length _ _ _ Hs) as Hlen. destruct (drop i secs) as [|tx rest] eqn:Hd.
  - intros _ r _ _. unfold send_section, bind, lift, guard.
    assert (length secs <= i)%nat by (apply (f_equal length) in Hd; rewrite length_drop in Hd; cbn in Hd; lia).
    by rewrite (proj2 (Nat.ltb_ge _ _)) by lia.
  - assert (Hi : secs !! i = Some tx) by (by rewrite <-(Nat.add_0_r i), <-lookup_drop, Hd).
    destruct (Forall2_lookup_r _ _ _ _ _ Hs Hi) as (sect & Hsect & Hc & n & Hn & Hnc & Htx).
    pose proof (lookup_lt_Some _ _ _ Hsect). unfold send_section.
    apply (fills_assert the_page same_but_page); [by apply Nat.ltb_lt|]. rewrite Hsect.
    unfold html_section_get_name, html_section_get_code. rewrite Hn.
    destruct (Z.eqb_spec (strcmp n (bytes "user")) 0) as [E|E].
    + apply strcmp_0 in E; [|done|decide_closed]. rewrite decide_True in Htx by done. subst tx. by apply pages_add.
    + rewrite decide_False in Htx; [rewrite Htx; by apply pages_add|].
      intros ->. apply E. by apply strcmp_0; [decide_closed..|].
Qed.

Lemma send_menu_pages t mt t0 : menu_ready t mt -> Forall is_char mt -> pages t0 (send_menu t) mt.
Proof.
  unfold menu_ready, send_menu. destruct (menu t) as [m|]; [|intros -> _; apply pages_nothing].
  intros (s & -> & Hs) Hc. destruct (str_text_law _ _ Hs) as [Et _]. rewrite Et. by apply pages_add.
Qed.

Lemma send_loop_eq fuel t headcode usercode s i :
  send_loop (S fuel) t headcode usercode s i = fun r =>
    match strchr s PERCENT with
    | None => response_add r s
    | Some k =>
        and_then (response_add_end r (cstr s) (Z.of_nat k)) (fun r =>
        match drop (S k) s with
        | [] => response_add r []
        | c :: s =>
            if c =? ch "S" then
              and_then (send_section t usercode i r) (send_loop fuel t headcode usercode s (S i))
            else if c =? ch "H" then
              and_then (response_add r headcode) (send_loop fuel t headcode usercode s i)
            else if c =? ch "M" then
              and_then (send_menu t r) (send_loop fuel t headcode usercode s i)
            else
              and_then (response_add_char r PERCENT) (fun r =>
              and_then (response_add_char r c) (send_loop fuel t headcode usercode s i))
        end)
    end.
Proof. done. Qed.

Lemma send_loop_outcome fuel t headcode usercode secs mt s i t0 :
  Forall2 (section_text usercode) (sections t) secs -> menu_ready t mt -> Forall is_char mt ->
  Forall is_char headcode -> (length s <= fuel)%nat -> Forall is_char s ->
  outcome t0 (send_loop fuel t headcode usercode s i) (expand headcode mt true s (drop i secs)).
Proof.
  intros Hs Hm Hmt Hhead. revert s i t0. induction fuel as [|fuel IH]; intros s i t0 Hlen Hc.
  { destruct s; [|cbn in Hlen; lia]. by apply (pages_add t0 []). }
  destruct (split_percent s) as [Hno|(p & q & -> & Hp)].
  - rewrite send_loop_eq, (strchr_none PERCENT s Hno).
    destruct s as [|c s]; [by apply (pages_add t0 [])|].
    pose proof (expand_text headcode mt true (c :: s) [] (drop i secs) Hno ltac:(done)) as E.
    rewrite app_nil_r in E. rewrite E. unfold put. cbn [expand fst snd]. rewrite app_nil_r. by apply pages_add.
  - rewrite send_loop_eq, (strchr_app PERCENT p q Hp).
    destruct p as [|c0 p].
    { cbn [app length]. intros _ r _ _. unfold and_then, response_add_end, on_page, bind.
      by rewrite str_pcat_empty_law. }
    set (pp := c0 :: p) in *. rewrite expand_text by done. apply Forall_app in Hc as [Hcp Hcq].
    unfold put. apply (comes_to_then the_page same_but_page).
    { unfold response_add_end. apply pages_on. fold (zlen pp).
      replace (cstr (pp ++ PERCENT :: q)) with ((Some <$> pp) ++ (Some <$> PERCENT :: q) ++ [Some 0]);
        [by apply puts_pcat|]. unfold cstr. by rewrite fmap_app, <-app_assoc. }
    replace (drop (S (length pp)) (pp ++ PERCENT :: q)) with q
      by (by rewrite drop_app_ge, Nat.sub_succ_l, Nat.sub_diag by lia).
    cbn [expand]. rewrite Z.eqb_refl. apply Forall_cons in Hcq as [_ Hcq]. rewrite length_app in Hlen. cbn [length] in Hlen.
    destruct q as [|d q]; [by apply (pages_add _ [])|]. apply Forall_cons in Hcq as [Hd Hcq]. cbn [length] in Hlen.
    assert (Hrest : forall i t0, outcome t0 (send_loop fuel t headcode usercode q i) (expand headcode mt true q (drop i secs))).
    { intros i' t1. apply IH; [lia|done]. }
    destruct (d =? ch "S").
    { pose proof (send_section_outcome t usercode secs i (t0 ++ pp) Hs) as Hsec.
      destruct (drop i secs) as [|tx rest] eqn:Hdr.
      - intros Hl r Hr Hcap. cbn in Hl. unfold and_then, bind. by rewrite (Hsec Hl r Hr Hcap).
      - assert (Hdr' : drop (S i) secs = rest) by (rewrite <-Nat.add_1_r, <-drop_drop, Hdr; done).
        unfold put. apply (comes_to_then the_page same_but_page); [done|]. rewrite <-Hdr'. apply Hrest. }
    destruct (d =? ch "H").
    { unfold put. apply (comes_to_then the_page same_but_page); [by apply pages_add|apply Hrest]. }
    destruct (d =? ch "M").
    { unfold put. apply (comes_to_then the_page same_but_page); [by apply send_menu_pages|apply Hrest]. }
    replace (put [PERCENT; d] (expand headcode mt true q (drop i secs)))
      with (put [PERCENT] (put [d] (expand headcode mt true q (drop i secs)))) by by rewrite put_put.
    unfold put. apply (comes_to_then the_page same_but_page); [by apply pages_on, puts_char; decide_closed|].
    cbn [fst snd]. by apply (comes_to_then the_page same_but_page _ _ _ [d]); [apply pages_on, puts_char|].
Qed.

(** The text of the menu of a template, rendered already or not. *)
Definition menu_gives (t : html_template) (mt : list Z) : Prop :=
  match menu t, rendered_menu t with
  | None, _ => mt = []
  | Some _, Some s => str_rep s mt
  | Some m, None => exists tr, shows tr m /\ mt = menu_text tr /\ zlen mt <= 2 ^ 38
  end.

Lemma menu_gives_chars t mt : menu_gives t mt -> Forall is_char mt.
Proof.
  unfold menu_gives. destruct (menu t) as [m|]; [|by intros ->]. destruct (rendered_menu t) as [s|].
  - intros Hs. by destruct (str_text_law _ _ Hs) as [_ [? _]].
  - intros (tr & Hs & -> & _). by eapply menu_chars.
Qed.

Lemma render_menu_spec t mt o :
  menu_gives t mt ->
  wp (render_menu t) o (fun '(st, t') o' =>
    sections t' = sections t /\ menu t' = menu t /\ (st = success -> menu_ready t' mt) /\
    (o = [] -> o' = [] /\ st = success)).
Proof.
  unfold menu_gives, render_menu, menu_ready. destruct (menu t) as [m|] eqn:Hm.
  2:{ intros ->. wp. by rewrite Hm. }
  destruct (rendered_menu t) as [s|] eqn:Hs.
  { intros Hrep. wp. rewrite Hm. repeat (split; [done|]). split; [|done]. intros _. by exists s. }
  intros (tr & Hsh & -> & Hl). wp. eapply wp_mono; [apply str_new_law|]. intros [s|] o1 [Hnew Ho1].
  2:{ wp. split; [done|]. split; [done|]. split; [done|]. intros Ho. by destruct (Ho1 Ho) as [_ [? ?]]. }
  destruct (Hnew s eq_refl) as [Hr Hcap]. wp.
  eapply wp_mono; [by eapply (puts_done [] _ _ s o1 (menu_renders tr m [] Hsh)); [..|lia]|].
  intros [st s'] o2 [Hst Ho2]. assert (Hoo : o = [] -> o2 = [] /\ st = success) by (intros Ho; apply Ho2; by destruct (Ho1 Ho)).
  destruct st; wp; (split; [done|]); (split; [done|]); (split; [|done]); [done|].
  intros _. cbn. rewrite Hm. exists s'. split; [done|]. by apply Hst.
Qed.

Lemma template_send_spec t l headcode usercode secs mt r t0 o :
  layout t = Some l -> Forall is_char l -> Forall2 (section_text usercode) (sections t) secs ->
  menu_gives t mt -> Forall is_char headcode -> str_rep (rs_str r Rs_entity) t0 -> str_cap (rs_str r Rs_entity) <= 2 ^ 40 ->
  let page := expand headcode mt true l secs in
  zlen (t0 ++ page.1) <= 2 ^ 38 ->
  (page.2 = true ->
     wp (html_template_send t r headcode usercode) o (fun '(st, t', r') o' => same_but_page r r' /\
       (exists p, p `prefix_of` page.1 /\ str_rep (rs_str r' Rs_entity) (t0 ++ p) /\ (st = success -> p = page.1)) /\
       (o = [] -> o' = [] /\ st = success))) /\
  (page.2 = false -> html_template_send t r headcode usercode [] = Fault AssertFailed).
Proof.
  intros Hlay Hl Hsecs Hmenu Hhead Hr Hcap page Hlen. pose proof (menu_gives_chars _ _ Hmenu) as Hmt.
  assert (Hgo : forall t', sections t' = sections t -> menu_ready t' mt ->
    outcome t0 (send_loop (length l) t' headcode usercode l 0) page).
  { intros t' E Hready. unfold page. rewrite <-(drop_0 secs). apply send_loop_outcome; try done. by rewrite E. }
  unfold html_template_send. rewrite Hlay. split; intros Hok.
  - apply wp_bind. eapply wp_mono; [by apply render_menu_spec|]. intros [[] t'] o1 (Hs & _ & Hready & Ho1).
    + wp. split; [reflexivity|]. split; [|intros Ho; by destruct (Ho1 Ho)]. exists []. rewrite app_nil_r.
      split; [apply prefix_nil|done].
    + specialize (Hgo t' Hs (Hready eq_refl)). unfold comes_to in Hgo. rewrite Hok in Hgo. wp.
      eapply wp_mono; [by apply Hgo|]. intros [st r'] o2 (Hsame & (p & Hp & Hrp & _ & Heq) & Ho2). wp.
      split; [done|]. split; [by exists p|]. intros Ho. apply Ho2. by destruct (Ho1 Ho).
  - destruct (wp_eq _ _ _ (render_menu_spec t mt [] Hmenu)) as ([st t'] & o1 & E & Hs & _ & Hready & Ho1).
    destruct (Ho1 eq_refl) as [-> ->]. unfold bind at 1. rewrite E.
    specialize (Hgo t' Hs (Hready eq_refl)). unfold comes_to in Hgo. rewrite Hok in Hgo. unfold bind.
    by rewrite (Hgo Hlen r Hr Hcap).
Qed.

Lemma send_loop_menu t t' headcode usercode fuel s i r :
  sections t' = sections t -> rendered_menu t' = rendered_menu t -> is_Some (menu t) -> is_Some (menu t') ->
  forall o, send_loop fuel t' headcode usercode s i r o = send_loop fuel t headcode usercode s i r o.
Proof.
  intros Hs Hren [m Hm] [m' Hm']. revert s i r. induction fuel as [|fuel IH]; intros s i r o; [done|].
  rewrite !send_loop_eq. destruct (strchr s PERCENT) as [k|]; [|done].
  assert (Hthen : forall (a b : C (status * http_response)) k1 k2 o, a = b -> (forall r o, k1 r o = k2 r o) ->
    and_then a k1 o = and_then b k2 o).
  { intros a b k1 k2 o' -> Hk. unfold and_then, bind. destruct (b o') as [[[[] x] o2]|]; [done|apply Hk|done]. }
  apply Hthen; [done|]. intros r1 o1. destruct (drop (S k) s) as [|c s']; [done|].
  destruct (c =? ch "S"); [apply Hthen; [unfold send_section; by rewrite Hs|intros; apply IH]|].
  destruct (c =? ch "H"); [apply Hthen; [done|intros; apply IH]|].
  destruct (c =? ch "M"); [apply Hthen; [unfold send_menu; by rewrite Hm, Hm', Hren|intros; apply IH]|].
  apply Hthen; [done|]. intros. apply Hthen; [done|]. intros. apply IH.
Qed.

(** C21. What a layout makes of the parts.  The page that [html_template_send] adds
    to a response is that of [expand]: the characters of the layout, with the
    sections in turn at each %S (the code of the page handler for the section that
    is called user), the head at %H, the menu at %M, and any other directive as it
    is; under any behaviour of the allocator a first part of it is added, and all
    of it when the call succeeds; the rest of the response stays.  When a
    directive is the first thing in the layout, or follows another one at once, or
    there is no section for it, the call ends in a failed assertion. *)
Theorem html_template_fills t l headcode usercode secs mt r t0 o :
  layout t = Some l -> Forall is_char l -> Forall2 (section_text usercode) (sections t) secs ->
  menu_gives t mt -> Forall is_char headcode -> str_rep (rs_str r Rs_entity) t0 -> str_cap (rs_str r Rs_entity) <= 2 ^ 40 ->
  let page := expand headcode mt true l secs in
  zlen (t0 ++ page.1) <= 2 ^ 38 ->
  (page.2 = true ->
     wp (html_template_send t r headcode usercode) o (fun '(st, t', r') o' => same_but_page r r' /\
       (exists p, p `prefix_of` page.1 /\ str_rep (rs_str r' Rs_entity) (t0 ++ p) /\ (st = success -> p = page.1)) /\
       (o = [] -> o' = [] /\ st = success))) /\
  (page.2 = false -> html_template_send t r headcode usercode [] = Fault AssertFailed).
Proof. apply template_send_spec. Qed.

(** A new menu is not shown: once a template has been sent, what it sends does not
    depend on the menu that is set, because the menu that was rendered first is
    kept. *)
Theorem html_menu_stale t m s m' response headcode usercode o :
  menu t = Some m -> rendered_menu t = Some s ->
  html_template_send (html_template_set_menu t m') response headcode usercode o =
  match html_template_send t response headcode usercode o with
  | Ret ((st, t1, r1), o1) => Ret ((st, html_template_set_menu t1 m', r1), o1)
  | Fault f => Fault f
  end.
Proof.
  intros Hm Hs. unfold html_template_send. cbn [html_template_set_menu layout]. destruct (layout t) as [l|]; [|done].
  unfold render_menu, bind. cbn [html_template_set_menu menu rendered_menu]. rewrite Hm, Hs. unfold ret. cbn beta iota.
  rewrite (send_loop_menu t); [|done|done|by rewrite Hm|done].
  by destruct (send_loop _ t headcode usercode l 0 response o) as [[[st r1] o1]|].
Qed.

(** ** The repository *)

(** A template that is the first one added is there, and alive. *)
Lemma repository_first w name p :
  repos w = None -> Map.log (maps w) = [] -> valid_str name ->
  exists m maps', html_template_repository_add w name p [] = Ret ((true, World (store w) maps' (Some m)), []) /\
    map_get maps' m name = Ret (Some p) /\ Map.log maps' = [].
Proof.
  intros Hrep Hlog Hv. unfold html_template_repository_add, init_repos. rewrite Hrep. unfold bind at 1 2. unfold alloc_ok at 1.
  change (sizeof_repository <=? PTRDIFF_MAX) with true. cbn [negb]. unfold bind at 1.
  destruct (wp_eq _ _ _ (map_new_spec (maps w) true [])) as ([r m1] & o1 & E & Hm & _ & Ho).
  destruct (Ho eq_refl) as [-> [m ->]]. rewrite E. destruct (Hm m eq_refl) as (Hown & Hff & Hl1). rewrite Hlog in Hl1.
  unfold ret, bind. cbn [repos maps].
  destruct (wp_eq _ _ _ (map_set_spec _ _ _ _ _ name p [] Hown Hv)) as ([st m2] & o2 & E2 & Hst).
  rewrite E2. destruct st.
  { destruct Hst as [_ Hbad]. destruct (Hbad eq_refl) as [_ ?]. destruct Hv. lia. }
  destruct Hst as (ls & es & Hown2 & Hc & Hit & Hacc & Ho2). rewrite (Ho2 eq_refl).
  exists m, m2. split; [done|]. split.
  - destruct (map_get_spec _ _ _ _ _ name Hown2 Hv) as [-> _]. by rewrite Hc, lookup_insert_eq.
  - unfold accounted in Hacc. rewrite Hff, Hl1 in Hacc. apply Permutation_length in Hacc.
    assert (Hv1 : values es = [p]).
    { transitivity (snd <$> items es); [|by rewrite Hit]. unfold values, items. clear.
      induction (es.*2) as [|x l IH]; [done|]. cbn. by f_equal. }
    rewrite Hv1, length_app in Hacc. cbn in Hacc. destruct (Map.log m2); [done|cbn in Hacc; lia].
Qed.

(** C20. A page that is made with a template.  An application adds a template to the
    repository; a page handler takes a buffer for it, writes a document and calls
    [html_done]: with memory to spare every call succeeds, the response gets the page
    that the layout makes of the template's sections and the text of the document,
    with the words fix later for the head, and the handler's return code comes
    back. *)
Theorem html_page w p t l name d r t0 code secs mt :
  repos w = None -> Map.log (maps w) = [] -> valid_str name -> store w !! p = Some t ->
  layout t = Some l -> Forall is_char l -> Forall2 (section_text (text d)) (sections t) secs -> menu_gives t mt ->
  good d = true -> zlen (text d) <= 2 ^ 38 ->
  str_rep (rs_str r Rs_entity) t0 -> str_cap (rs_str r Rs_entity) <= 2 ^ 40 ->
  let page := expand (bytes "fix later") mt true l secs in
  zlen (t0 ++ page.1) <= 2 ^ 38 -> page.2 = true ->
  exists w1 b b' w2 r',
    html_template_repository_add w name p [] = Ret ((true, w1), []) /\
    html_template_repository_use w1 name [] = Ret ((Some b, w1), []) /\
    write d b [] = Ret ((success, b'), []) /\
    html_done w1 b' r code [] = Ret ((code, w2, r'), []) /\
    same_but_page r r' /\ str_rep (rs_str r' Rs_entity) (t0 ++ page.1).
Proof.
  intros Hrep Hlog Hv Hst Hlay Hl Hsecs Hmenu Hgood Hlen Hr Hcap page Hpl Hok.
  destruct (repository_first w name p Hrep Hlog Hv) as (m & maps' & Hadd & Hget & Hl0).
  set (w1 := World (store w) maps' (Some m)) in *. exists w1.
  destruct (wp_eq _ _ _ (str_new_law [])) as (rs & o1 & Enew & Hnew & Ho). destruct (Ho eq_refl) as [-> [s ->]].
  destruct (Hnew s eq_refl) as [Hs Hsc].
  set (b := HtmlBuffer (Some p) s). exists b.
  destruct (fills_run buffer keeps_template [] (write d) (text d) b (document_written d Hgood [])) as (b1 & Ew & Hb1 & _);
    [done|done|cbn; lia|]. exists b1.
  assert (Htpl : template b1 = Some p).
  { destruct (wp_eq _ _ _ (document_written (T := loc) d Hgood [] Hlen b [] Hs ltac:(cbn; lia))) as ([st b2] & o2 & E2 & Hk & _).
    rewrite Ew in E2. injection E2 as <- <- <-. exact Hk. }
  pose proof (template_send_spec t l (bytes "fix later") (text d) secs mt r t0 [] Hlay Hl Hsecs Hmenu
    ltac:(decide_closed) Hr Hcap Hpl) as [Hsend _].
  destruct (wp_eq _ _ _ (Hsend Hok)) as ([[st t1] r1] & o2 & Es & Hsame & (q & _ & Hq & Heq) & Ho2).
  destruct (Ho2 eq_refl) as [-> ->]. specialize (Heq eq_refl) as ->.
  exists (World (<[p := t1]> (store w)) maps' (Some m)), r1. split; [done|]. split.
  { unfold html_template_repository_use, init_repos, bind, lift, ret. cbn [repos w1 maps]. rewrite Hget.
    unfold html_buffer_new, bind, alloc_ok. change (sizeof_html_buffer <=? PTRDIFF_MAX) with true. cbn [negb].
    by rewrite Enew. }
  split; [exact Ew|]. split; [|done]. unfold html_done. rewrite Htpl. unfold template_at. cbn [w1 maps store].
  rewrite Hl0, bool_decide_false by apply not_elem_of_nil. rewrite Hst. unfold bind, lift.
  change ([] ++ text d) with (text d) in Hb1. destruct (str_text_law _ _ Hb1) as [-> _]. by rewrite Es.
Qed.

End Page.

(** * Witnesses *)

Definition sample_response : http_response :=
  Response VERSION_11 200 (GeneralHeader.GH 0 0 0 0 0 0 (fun _ => Cstring.fresh))
    (EntityHeader.EH 0 0 0 0 (fun _ => Cstring.fresh)) 0 (fun _ => Cstring.fresh) 0 0 (-1) None None false false false.

(** The layout of meta_html.h, with a menu of one item. *)
Definition sample_layout : list Z := bytes "<html>%H<body>%M <td>%S</td><td>%S</td></body></html>".

Definition sample_template : html_template :=
  Template 0 0 (Some sample_layout)
    [Section_ (Some (bytes "logo")) (Some (bytes "LOGO")); Section_ (Some (bytes "user")) None]
    (Some (Menu (string_with (bytes "Home")) Cstring.fresh Cstring.fresh (string_with (bytes "/")) [])) None.

Definition sample_menu : list Z := menu_text (Tree (bytes "/") (bytes "Home") []).

Lemma sample_sections u : Forall is_char u -> Forall2 (section_text u) (sections sample_template) [bytes "LOGO"; u].
Proof.
  intros Hu. constructor; [|constructor; [|constructor]].
  - split; [decide_closed|]. exists (bytes "logo"). split; [done|]. split; [decide_closed|done].
  - split; [done|]. exists (bytes "user"). split; [done|]. split; [decide_closed|done].
Qed.

Lemma sample_menu_gives : menu_gives sample_template sample_menu.
Proof.
  exists (Tree (bytes "/") (bytes "Home") []). split; [|by split; [|vm_compute]]. cbn.
  repeat split; try (exists []; exact rep_fresh); by apply string_with_rep.
Qed.

Lemma html_template_fills_witness :
  let page := expand (bytes "X") sample_menu true sample_layout [bytes "LOGO"; bytes "U"] in
  page = (bytes "<html>X<body><a href='/'>Home</a><br>" ++ [10] ++ bytes " <td>LOGO</td><td>U</td></body></html>", true) /\
  (page.2 = true ->
     wp (html_template_send sample_template sample_response (bytes "X") (bytes "U")) [true] (fun '(st, t', r') o' =>
       same_but_page sample_response r' /\
       (exists p, p `prefix_of` page.1 /\ str_rep (rs_str r' Rs_entity) ([] ++ p) /\ (st = success -> p = page.1)) /\
       ([true] = [] -> o' = [] /\ st = success))) /\
  (page.2 = false -> html_template_send sample_template sample_response (bytes "X") (bytes "U") [] = Fault AssertFailed).
Proof.
  split; [by vm_compute|].
  apply (html_template_fills sample_template sample_layout (bytes "X") (bytes "U") [bytes "LOGO"; bytes "U"] sample_menu
    sample_response [] [true]).
  - done.
  - decide_closed.
  - by apply sample_sections; decide_closed.
  - apply sample_menu_gives.
  - decide_closed.
  - exact rep_fresh.
  - by vm_compute.
  - by vm_compute.
Defined.

Definition old_menu : html_menu :=
  Menu (string_with (bytes "Home")) Cstring.fresh Cstring.fresh (string_with (bytes "/")) [].
Definition new_menu : html_menu :=
  Menu (string_with (bytes "New")) Cstring.fresh Cstring.fresh Cstring.fresh [].
Definition old_rendered : str := string_with (bytes "old").
Definition sent_template : html_template := set_rendered (Some old_rendered) sample_template.

Lemma html_menu_stale_witness :
  html_template_send (html_template_set_menu sent_template new_menu) sample_response [] [] [] =
  match html_template_send sent_template sample_response [] [] [] with
  | Ret ((st, t1, r1), o1) => Ret ((st, html_template_set_menu t1 new_menu, r1), o1)
  | Fault f => Fault f
  end.
Proof. apply (html_menu_stale sent_template old_menu old_rendered new_menu); reflexivity. Defined.

Definition sample_world : world := World {[1%nat := sample_template]} (Map.World ∅ ∅ ∅ ∅ []) None.

Lemma html_page_witness :
  let page := expand (bytes "fix later") sample_menu true sample_layout [bytes "LOGO"; text sample_doc] in
  exists w1 b b' w2 r',
    html_template_repository_add sample_world (bytes "main") 1%nat [] = Ret ((true, w1), []) /\
    html_template_repository_use w1 (bytes "main") [] = Ret ((Some b, w1), []) /\
    write sample_doc b [] = Ret ((success, b'), []) /\
    html_done w1 b' sample_response 200 [] = Ret ((200, w2, r'), []) /\
    same_but_page sample_response r' /\ str_rep (rs_str r' Rs_entity) ([] ++ page.1).
Proof.
  apply (html_page sample_world 1%nat sample_template sample_layout (bytes "main") sample_doc sample_response []
    200 [bytes "LOGO"; text sample_doc] sample_menu).
  - done.
  - done.
  - by split; [decide_closed|vm_compute].
  - apply lookup_singleton_eq.
  - done.
  - decide_closed.
  - apply sample_sections. decide_closed.
  - apply sample_menu_gives.
  - by vm_compute.
  - by vm_compute.
  - exact rep_fresh.
  - by vm_compute.
  - by vm_compute.
  - by vm_compute.
Defined.
