(* ===== verification/ListTable.v ===== *)
(** ListTable: an array of lists, the hash tables of meta/src/meta_stringmap.c
    and meta/src/meta_cache.c.

    A cell is NULL or the header of a list of meta/src/meta_list.c; the lists
    share no node.  The loops of the two files over the whole table, and what an
    operation on one list leaves of the others. *)

From Stdlib Require Import ZArith Lia.
From stdpp Require Import base list numbers gmap sets.
From S2P Require Import Prelude MetaList MetaListLoops.

#[local] Arguments load : simpl never.
#[local] Arguments store : simpl never.

Section ListTable.
Context {A : Type}.

Abbreviation heap := (gmap loc (node A)).

(** [for (i = 0; i < nelem; i++) if (hashtable[i] != NULL)] and the loop over
    the list inside; the body may end both. *)
Fixpoint for_table {T} (t : list (option loc)) (h : heap) (s : T)
    (body : heap -> A -> T -> C (bool * T * heap)) : C (bool * T * heap) :=
  match t with
  | [] => ret (true, s, h)
  | None :: t => for_table t h s body
  | Some lst :: t =>
      let* li := lift (list_first h (Some lst)) in
      let* (go, s, h) := for_nodes (pass h) h li s (fun h n s =>
        let* p := lift (payload n) in body h p s) in
      if go : bool then for_table t h s body else ret (false, s, h)
  end.

(** [list_free] of each list, in the order of the table. *)
Fixpoint free_table (t : list (option loc)) (h : heap) : C heap :=
  match t with
  | [] => ret h
  | None :: t => free_table t h
  | Some lst :: t =>
      let* (_, h) := list_free h (Some lst) (Some (fun _ u => u)) tt in
      free_table t h
  end.

(** [for (i = list_first(lst); !list_end(i); i = list_next(i))] up to the first
    element with [p]; the iterator. *)
Fixpoint find_loop (fuel : nat) (h : heap) (i : option loc) (p : A -> bool) : res (option loc) :=
  if list_end i then Ret None
  else
    match fuel with
    | O => Fault FuelOut
    | S fuel =>
        let+ x := list_get h i in
        if p x then Ret i else let+ i := list_next h i in find_loop fuel h i p
    end.

(** * The table in the heap *)

(** A cell of the array with what its list holds. *)
Record slot : Type := Slot { sl_list : option loc; sl_nodes : list loc; sl_items : list A }.

Definition foot (sl : slot) : list loc :=
  match sl_list sl with None => [] | Some l => l :: sl_nodes sl end.

Definition slot_ok (h : heap) (sl : slot) : Prop :=
  match sl_list sl with
  | None => sl_nodes sl = [] /\ sl_items sl = []
  | Some l => exists c, islist h l (sl_nodes sl) (sl_items sl) c /\ cache_ok l (sl_nodes sl) c
  end.

Definition feet (t : list slot) : list loc := t ≫= foot.
Definition entries (t : list slot) : list A := t ≫= sl_items.

Definition in_heap (h : heap) (t : list slot) : Prop := Forall (slot_ok h) t /\ NoDup (feet t).

(** The heap changes in the tables; what the second has and the first has not
    was free, and the other way round. *)
Definition evolves (h : heap) (t : list slot) (h' : heap) (t' : list slot) : Prop :=
  only (feet t ++ feet t') h h' /\ (forall k, k ∈ feet t' -> k ∈ feet t \/ h !! k = None) /\
  forall k, k ∈ feet t -> k ∉ feet t' -> h' !! k = None.

Lemma bind_middle {B D} (f : B -> list D) t1 x t2 : (t1 ++ x :: t2) ≫= f ≡ₚ f x ++ ((t1 ++ t2) ≫= f).
Proof. rewrite !bind_app. csimpl. solve_Permutation. Qed.

Lemma insert_middle {B} (t1 t2 : list B) x y : <[length t1 := y]> (t1 ++ x :: t2) = t1 ++ y :: t2.
Proof. by rewrite insert_app_r_alt, Nat.sub_diag. Qed.

Lemma slot_in h sl k : slot_ok h sl -> k ∈ foot sl -> is_Some (h !! k).
Proof.
  unfold slot_ok, foot. destruct (sl_list sl) as [l|]; [|by intros _ ?%elem_of_nil].
  intros (c & Hl & _) Hk. by eapply islist_in.
Qed.

Lemma slot_frame h h' sl :
  slot_ok h sl -> (forall k, k ∈ foot sl -> h' !! k = h !! k) -> slot_ok h' sl.
Proof.
  unfold slot_ok, foot. destruct (sl_list sl) as [l|]; [|done]. intros (c & Hl & Hc) Hf.
  exists c. split; [|done]. by eapply islist_frame.
Qed.

Lemma in_heap_in h t k : in_heap h t -> k ∈ feet t -> is_Some (h !! k).
Proof.
  intros [Ht _] (sl & Hk & Hsl)%list_elem_of_bind. rewrite list.Forall_forall in Ht.
  eapply slot_in; [by apply Ht|done].
Qed.

Lemma in_heap_frame h h' t :
  in_heap h t -> (forall k, k ∈ feet t -> h' !! k = h !! k) -> in_heap h' t.
Proof.
  intros [Ht Hnd] Hf. split; [|done]. rewrite list.Forall_forall in Ht |- *. intros sl Hsl.
  eapply slot_frame; [by apply Ht|]. intros k Hk. apply Hf, list_elem_of_bind. by exists sl.
Qed.

(** One cell changes. *)
Lemma in_heap_update h h' t1 sl sl' t2 :
  in_heap h (t1 ++ sl :: t2) -> slot_ok h' sl' -> NoDup (foot sl') ->
  (forall k, k ∈ foot sl' -> k ∈ foot sl \/ h !! k = None) ->
  (forall k, k ∈ foot sl -> k ∉ foot sl' -> h' !! k = None) -> only (foot sl ++ foot sl') h h' ->
  in_heap h' (t1 ++ sl' :: t2) /\ evolves h (t1 ++ sl :: t2) h' (t1 ++ sl' :: t2).
Proof.
  intros Hin Hsl' Hnd' Hnew Hold Honly. pose proof Hin as [Ht Hnd].
  assert (Hmid : forall s, feet (t1 ++ s :: t2) ≡ₚ foot s ++ feet (t1 ++ t2)) by (intros s; apply bind_middle).
  rewrite Hmid in Hnd. apply NoDup_app in Hnd as (Hnd1 & Hdis & Hnd2).
  assert (Hdis' : forall k, k ∈ foot sl' -> k ∉ feet (t1 ++ t2)).
  { intros k Hk Hk2. destruct (Hnew k Hk) as [?|Hn]; [by eapply Hdis|].
    destruct (in_heap_in h _ k Hin) as [x Hx]; [rewrite Hmid; set_solver|congruence]. }
  assert (Hrest : in_heap h' (t1 ++ t2)).
  { apply (in_heap_frame h).
    - split; [|done]. rewrite Forall_app, Forall_cons in Ht. rewrite Forall_app. naive_solver.
    - intros k Hk. apply Honly. intros [?|?]%elem_of_app; [by eapply Hdis|by eapply Hdis']. }
  destruct Hrest as [Ht' _]. rewrite Forall_app in Ht'. split.
  - split; [rewrite Forall_app, Forall_cons; naive_solver|]. rewrite Hmid. apply NoDup_app. naive_solver.
  - split; [|split].
    + intros k Hk. rewrite !Hmid in Hk. apply Honly. set_solver.
    + intros k Hk. rewrite Hmid in Hk. rewrite Hmid. set_solver.
    + intros k. rewrite !Hmid. set_solver.
Qed.

Lemma evolves_refl h t : evolves h t h t.
Proof. split; [done|]. split; [by left|done]. Qed.

Lemma evolves_trans h t h1 t1 h2 t2 : evolves h t h1 t1 -> evolves h1 t1 h2 t2 -> evolves h t h2 t2.
Proof.
  intros (Ho1 & Hn1 & Hg1) (Ho2 & Hn2 & Hg2). split; [|split].
  - intros k [Hk Hk2]%not_elem_of_app. destruct (decide (k ∈ feet t1)) as [Hk1|Hk1].
    + rewrite Hg2 by done. destruct (Hn1 k Hk1); [done|congruence].
    + rewrite Ho2, Ho1 by set_solver. done.
  - intros k Hk. destruct (decide (k ∈ feet t1)) as [Hk1|Hk1]; [by apply Hn1|].
    destruct (decide (k ∈ feet t)) as [?|Hk0]; [by left|]. right.
    destruct (Hn2 k Hk) as [?|Hnone]; [done|]. rewrite <-Ho1; [done|set_solver].
  - intros k Hk Hk2. destruct (decide (k ∈ feet t1)) as [Hk1|Hk1]; [by apply Hg2|].
    rewrite Ho2; [by apply Hg1|set_solver].
Qed.

(** ** Freeing *)

Lemma free_table_spec h t o :
  in_heap h t -> wp (free_table (sl_list <$> t) h) o (fun h' o' => freed (feet t) h h' /\ o' = o).
Proof.
  revert h. induction t as [|sl t IH]; intros h [Ht Hnd].
  { cbn. wp. split; [|done]. split; [|done]. by intros k ?%elem_of_nil. }
  apply Forall_cons in Ht as [Hsl Ht]. change (feet (sl :: t)) with (foot sl ++ feet t) in *.
  apply NoDup_app in Hnd as (Hnd1 & Hdis & Hnd2). rewrite fmap_cons. unfold slot_ok in Hsl.
  unfold foot in Hdis |- *. destruct (sl_list sl) as [l|]; cbn [free_table]; [|by apply IH].
  destruct Hsl as (c & Hl & _). apply wp_bind. eapply wp_mono; [by eapply list_free_spec|].
  intros [u h1] o1 (_ & [Hgone Honly] & ->). eapply wp_mono; [apply IH|].
  - apply (in_heap_frame h h1 t); [done|]. intros k Hk. apply Honly. intros ?. by eapply Hdis.
  - intros h' o' [[Hgone' Honly'] ->]. split; [|done]. split.
    + intros k [Hk|Hk]%elem_of_app; [|by apply Hgone']. rewrite Honly'; [by apply Hgone|]. by apply Hdis.
    + intros k [Hk1 Hk2]%not_elem_of_app. rewrite Honly' by done. by apply Honly.
Qed.

Lemma evolves_free h t h1 t1 h' :
  evolves h t h1 t1 -> feet t = [] -> freed (feet t1) h1 h' -> h' = h.
Proof.
  intros (Honly & Hnew & _) Hf [Hgone Honly']. rewrite Hf in *. apply map_eq. intros k.
  destruct (decide (k ∈ feet t1)) as [Hk|Hk].
  - rewrite Hgone by done. destruct (Hnew k Hk) as [Hk0 | ->]; [|done]. by apply elem_of_nil in Hk0.
  - rewrite Honly' by done. by apply Honly.
Qed.

(** What was there before a table that grew out of nothing. *)
Lemma evolves_old h t h' t' k : evolves h t h' t' -> feet t = [] -> is_Some (h !! k) -> h' !! k = h !! k.
Proof.
  intros (Honly & Hnew & _) Hf [x Hx]. rewrite Hf in *. apply Honly. intros Hk.
  destruct (Hnew k Hk) as [Hk0|]; [by apply elem_of_nil in Hk0|congruence].
Qed.

Lemma empty_table n : feet (replicate n (Slot None [] [])) = [] /\ entries (replicate n (Slot None [] [])) = [].
Proof. unfold feet, entries. induction n as [|n [IH1 IH2]]; [done|]. by csimpl. Qed.

(** ** Where the elements are *)

Definition placed (P : nat -> A -> Prop) (t : list slot) : Prop :=
  forall i sl, t !! i = Some sl -> Forall (P i) (sl_items sl).

Lemma placed_at P t1 sl t2 : placed P (t1 ++ sl :: t2) -> Forall (P (length t1)) (sl_items sl).
Proof. intros Hp. by apply (Hp (length t1) sl), list_lookup_middle. Qed.

Lemma placed_update P t1 sl sl' t2 :
  placed P (t1 ++ sl :: t2) -> Forall (P (length t1)) (sl_items sl') -> placed P (t1 ++ sl' :: t2).
Proof.
  intros Hp Hsl' i x Hx. destruct (decide (i = length t1)) as [->|Hne].
  - rewrite list_lookup_middle in Hx by done. by injection Hx as <-.
  - apply (Hp i x). rewrite <-(insert_middle t1 t2 sl' sl). by rewrite list_lookup_insert_ne.
Qed.

Lemma placed_in P t e : placed P t -> e ∈ entries t -> exists i, P i e.
Proof.
  intros Hp (sl & He & Hsl)%list_elem_of_bind. apply list_elem_of_lookup in Hsl as [i Hi].
  exists i. specialize (Hp i sl Hi). rewrite list.Forall_forall in Hp. by apply Hp.
Qed.

(** An element that belongs in a cell is there. *)
Lemma placed_here P t1 sl t2 e :
  placed P (t1 ++ sl :: t2) -> (forall i, P i e -> i = length t1) ->
  e ∈ entries (t1 ++ sl :: t2) <-> e ∈ sl_items sl.
Proof.
  intros Hp Hone. split.
  - intros (sl' & He & Hsl')%list_elem_of_bind. apply list_elem_of_lookup in Hsl' as [i Hi].
    pose proof (proj1 (list.Forall_forall _ _) (Hp i sl' Hi) e He) as HP. rewrite (Hone i HP) in Hi.
    rewrite list_lookup_middle in Hi by done. by injection Hi as <-.
  - intros He. unfold entries. rewrite bind_middle. apply elem_of_app. by left.
Qed.

Lemma table_split (t : list slot) n : (n < length t)%nat -> exists t1 sl t2, t = t1 ++ sl :: t2 /\ length t1 = n.
Proof.
  intros Hn. destruct (lookup_lt_is_Some_2 t n Hn) as [sl Hsl].
  exists (take n t), sl, (drop (S n) t). rewrite take_drop_middle by done.
  split; [done|]. rewrite length_take. lia.
Qed.

Lemma table_lookup (t1 : list slot) sl t2 : (sl_list <$> t1 ++ sl :: t2) !! length t1 = Some (sl_list sl).
Proof. by rewrite list_lookup_fmap, list_lookup_middle. Qed.

Lemma table_insert (t1 : list slot) sl sl' t2 :
  <[length t1 := sl_list sl']> (sl_list <$> t1 ++ sl :: t2) = sl_list <$> t1 ++ sl' :: t2.
Proof. rewrite !fmap_app, !fmap_cons, <-(length_fmap sl_list t1). apply insert_middle. Qed.

(** ** One list of a table *)

Lemma in_heap_slot h t1 sl t2 : in_heap h (t1 ++ sl :: t2) -> slot_ok h sl.
Proof. intros [Ht _]. by apply Forall_app in Ht as [_ [? _]%Forall_cons]. Qed.

(** An element at the end. *)
Lemma slot_add_spec h t1 sl t2 l e o :
  in_heap h (t1 ++ sl :: t2) -> sl_list sl = Some l ->
  wp (list_add h (Some l) e) o (fun '(r, h') o' =>
    (o = [] -> o' = [] /\ is_Some r) /\
    match r with
    | None => h' = h
    | Some _ => exists n, let sl' := Slot (Some l) (sl_nodes sl ++ [n]) (sl_items sl ++ [e]) in
        in_heap h' (t1 ++ sl' :: t2) /\ evolves h (t1 ++ sl :: t2) h' (t1 ++ sl' :: t2)
    end).
Proof.
  intros Hh Hl. pose proof (in_heap_slot _ _ _ _ Hh) as Hsl. unfold slot_ok in Hsl. rewrite Hl in Hsl.
  destruct Hsl as (c & Hlist & Hc). eapply wp_mono; [by eapply list_add_spec|].
  intros [r h'] o' [(-> & (n & Hn & Hlist' & Honly) & Ho)|(-> & -> & Ho)].
  2:{ split; [intros H; by destruct Ho|done]. }
  split; [intros H; split; [by apply Ho|by eexists]|]. exists n. intros sl'.
  assert (Hfeet : foot sl' ≡ₚ n :: foot sl) by (unfold foot; rewrite Hl; cbn; solve_Permutation).
  apply (in_heap_update h h'); [done| | | | |].
  - exists (Cached n). split; [done|]. cbn. unfold cache_ok.
    destruct (sl_nodes sl ++ [n]) eqn:E; [by destruct (sl_nodes sl)|]. by rewrite <-E, end_of_snoc.
  - by destruct Hlist'.
  - intros k. rewrite Hfeet. intros [-> | ?]%elem_of_cons; auto.
  - intros k. rewrite Hfeet. set_solver.
  - intros k Hk. apply Honly. rewrite Hfeet in Hk. unfold foot in Hk. rewrite Hl in Hk. set_solver.
Qed.

(** A list for a cell that has none. *)
Lemma slot_new_spec h t1 sl t2 o :
  in_heap h (t1 ++ sl :: t2) -> sl_list sl = None ->
  wp (list_new h) o (fun '(r, h') o' =>
    (o = [] -> o' = [] /\ is_Some r) /\
    match r with
    | None => h' = h
    | Some l => let sl' := Slot (Some l) [] [] in
        sl_items sl = [] /\ in_heap h' (t1 ++ sl' :: t2) /\ evolves h (t1 ++ sl :: t2) h' (t1 ++ sl' :: t2)
    end).
Proof.
  intros Hh Hnone. pose proof (in_heap_slot _ _ _ _ Hh) as Hsl. unfold slot_ok in Hsl. rewrite Hnone in Hsl.
  destruct Hsl as [_ Hitems]. apply list_new_spec; [|intros o' Ho; split; [|done]; by intros ->].
  intros l h' o' Hfree Hl Honly Ho. split; [intros H; split; [by apply Ho|by eexists]|]. split; [done|].
  assert (Hf : foot sl = []) by (unfold foot; by rewrite Hnone).
  apply (in_heap_update h h'); rewrite ?Hf; [done| | | | |done].
  - exists Null. split; [done|by left].
  - apply NoDup_singleton.
  - intros k ->%list_elem_of_singleton. by right.
  - by intros k ?%elem_of_nil.
Qed.

(** An element out of a list. *)
Lemma slot_delete_spec {S} h t1 l ls1 k ls2 xs1 y xs2 t2 (cleanup : A -> S -> S) s :
  let sl := Slot (Some l) (ls1 ++ k :: ls2) (xs1 ++ y :: xs2) in
  let sl' := Slot (Some l) (ls1 ++ ls2) (xs1 ++ xs2) in
  in_heap h (t1 ++ sl :: t2) -> length ls1 = length xs1 ->
  wpr (list_delete h l (Some k) cleanup s) (fun '(_, s', h') =>
    s' = cleanup y s /\ in_heap h' (t1 ++ sl' :: t2) /\ evolves h (t1 ++ sl :: t2) h' (t1 ++ sl' :: t2)).
Proof.
  intros sl sl' Hh Hlen. pose proof (in_heap_slot _ _ _ _ Hh) as (c & Hl & Hc). cbn in Hl, Hc.
  destruct (islist_node _ _ _ _ _ _ _ Hl) as (xs1' & y' & xs2' & Hxs & Hlen' & Hk).
  apply app_inj_1 in Hxs as [<- [= <- <-]]; [|congruence].
  unfold list_delete. wp. eapply wpr_load; [exact Hk|]. wp. cbn [payload ndata wpr].
  wp. eapply wpr_mono; [by eapply list_remove_node_spec|].
  intros [i h'] (_ & c' & Hl' & Hc' & _ & Honly & Hgone). wp. split; [done|].
  assert (Hp : l :: ls1 ++ k :: ls2 ≡ₚ k :: l :: ls1 ++ ls2) by solve_Permutation.
  apply (in_heap_update h h' t1 sl sl' t2 Hh).
  - by exists c'.
  - by destruct Hl'.
  - intros j Hj. left. cbn in *. set_solver.
  - intros j Hj Hj'. cbn in Hj, Hj'. rewrite Hp in Hj. assert (j = k) as -> by set_solver. done.
  - intros j Hj. apply Honly. cbn in Hj. set_solver.
Qed.

Lemma find_loop_spec fuel h q ls xs (p : A -> bool) :
  seg h q ls xs None -> (length ls <= fuel)%nat ->
  (find_loop fuel h (hd_or ls None) p = Ret None /\ Forall (fun x => p x = false) xs) \/
  exists ls1 k ls2 xs1 x xs2, find_loop fuel h (hd_or ls None) p = Ret (Some k) /\
    ls = ls1 ++ k :: ls2 /\ xs = xs1 ++ x :: xs2 /\ length ls1 = length xs1 /\
    list_get h (Some k) = Ret x /\ p x = true.
Proof.
  revert fuel q ls. induction xs as [|x xs IH]; intros fuel q [|l ls] Hs Hf; try done.
  - left. split; [by destruct fuel|constructor].
  - destruct Hs as [Hl Hs]. destruct fuel as [|fuel]; [simpl in Hf; lia|].
    cbn [hd_or find_loop list_end].
    assert (Hget : list_get h (Some l) = Ret x).
    { unfold list_get, load. cbn [list_end negb guard res_bind]. by rewrite Hl. }
    rewrite Hget. cbn [res_bind]. destruct (p x) eqn:Hp.
    + right. exists [], l, ls, [], x, xs. by split_and!.
    + unfold list_next, load. rewrite Hl. cbn [res_bind next].
      destruct (IH fuel l ls Hs ltac:(simpl in Hf; lia))
        as [[-> ?]|(ls1 & k & ls2 & xs1 & y & xs2 & -> & -> & -> & ? & ? & ?)].
      * left. split; [done|]. by constructor.
      * right. exists (l :: ls1), k, ls2, (x :: xs1), y, xs2. split_and!; cbn; auto.
Qed.

(** In a cell of a table. *)
Lemma slot_find_spec h t1 sl t2 l (p : A -> bool) :
  in_heap h (t1 ++ sl :: t2) -> sl_list sl = Some l ->
  exists i, list_first h (Some l) = Ret i /\
  ((find_loop (pass h) h i p = Ret None /\ Forall (fun x => p x = false) (sl_items sl)) \/
  exists ls1 k ls2 xs1 x xs2, find_loop (pass h) h i p = Ret (Some k) /\
    sl = Slot (Some l) (ls1 ++ k :: ls2) (xs1 ++ x :: xs2) /\ length ls1 = length xs1 /\
    list_get h (Some k) = Ret x /\ p x = true).
Proof.
  intros Hh Hl. pose proof (in_heap_slot _ _ _ _ Hh) as Hsl. unfold slot_ok in Hsl. rewrite Hl in Hsl.
  destruct Hsl as (c & Hlist & _). pose proof (islist_pass _ _ _ _ _ Hlist). destruct Hlist as [_ Hhd Hseg].
  exists (hd_or (sl_nodes sl) None). unfold list_first, load. cbn [guard res_bind]. rewrite Hhd.
  split; [done|]. destruct (find_loop_spec (pass h) h l _ _ p Hseg ltac:(lia))
    as [?|(ls1 & k & ls2 & xs1 & x & xs2 & ? & Hls & Hxs & ? & ? & ?)]; [by left|].
  right. exists ls1, k, ls2, xs1, x, xs2. split_and!; try done.
  destruct sl; cbn in *. by subst.
Qed.

(** ** A table whose lists were freed *)

Lemma free_gone h t o :
  (exists sl l, sl ∈ t /\ sl_list sl = Some l) ->
  (forall sl l, sl ∈ t -> sl_list sl = Some l -> h !! l = None) ->
  free_table (sl_list <$> t) h o = Fault OutOfBounds.
Proof.
  induction t as [|sl t IH]; intros (x & l & Hx & Hl) Hgone; [by apply elem_of_nil in Hx|].
  rewrite fmap_cons. destruct (sl_list sl) as [k|] eqn:E; cbn [free_table].
  - unfold list_free, bind, lift, load. rewrite (Hgone sl k); [done|by left|done].
  - apply elem_of_cons in Hx as [->|Hx]; [congruence|]. apply IH; [by exists x, l|].
    intros y m Hy. apply Hgone. by right.
Qed.

(** ** Loops *)

(** The rule for [for_table]: [J] holds before each entry, of the entries still
    to come; the body leaves the table alone. *)
Lemma for_table_spec {T} (body : heap -> A -> T -> C (bool * T * heap))
    (J : heap -> T -> list A -> oracle -> Prop) (Q : bool * T * heap -> oracle -> Prop)
    (all : list loc) t :
  (forall h e es s o, J h s (e :: es) o ->
     wp (body h e s) o (fun '(go, s', h') o' =>
       (forall k, k ∈ all -> h' !! k = h !! k) /\
       if go : bool then J h' s' es o' else Q (false, s', h') o')) ->
  (forall h s o, J h s [] o -> Q (true, s, h) o) ->
  forall h s o, in_heap h t -> feet t ⊆ all -> J h s (entries t) o ->
    wp (for_table (sl_list <$> t) h s body) o Q.
Proof.
  intros Hbody Hend. induction t as [|sl t IH]; intros h s o Hh Hall HJ.
  { cbn. wp. by apply Hend. }
  destruct Hh as [[Hsl Ht]%Forall_cons Hnd].
  change (feet (sl :: t)) with (foot sl ++ feet t) in *.
  change (entries (sl :: t)) with (sl_items sl ++ entries t) in HJ.
  apply NoDup_app in Hnd as (_ & _ & Hnd). rewrite fmap_cons. unfold slot_ok in Hsl.
  destruct (sl_list sl) as [l|] eqn:El; cbn [for_table].
  2:{ destruct Hsl as [_ E]. rewrite E in HJ. apply IH; [done|set_solver|done]. }
  destruct Hsl as (c & Hl & _). pose proof (islist_pass _ _ _ _ _ Hl) as Hpass. destruct Hl as [_ Hhd Hs].
  unfold list_first. wp. eapply wpr_load; [exact Hhd|]. cbn [next wpr]. apply wp_bind.
  eapply (for_nodes_spec _ (fun h1 s1 xs o1 => (forall k, k ∈ all -> h1 !! k = h !! k) /\
    J h1 s1 (xs ++ entries t) o1) _ all).
  - intros h1 p ls x xs s1 o1 [Hsame HJ1] _. wp. cbn [payload ndata wpr].
    eapply wp_mono; [apply (Hbody h1 x (xs ++ entries t)), HJ1|].
    intros [[go s2] h2] o2 [Hsame2 Hgo]. split; [done|]. destruct go; [|by wp].
    split; [|done]. intros k Hk. by rewrite Hsame2, Hsame.
  - intros h1 s1 o1 [Hsame HJ1]. cbn in HJ1. apply IH; [|set_solver|done].
    apply (in_heap_frame h); [done|]. intros k Hk. apply Hsame. set_solver.
  - exact Hs.
  - unfold foot in Hall. rewrite El in Hall. set_solver.
  - lia.
  - split; [done|exact HJ].
Qed.

End ListTable.
