(* ===== verification/StringMap.v ===== *)
(** StringMap: the hash table that gives strings unique numbers, of
    meta/src/meta_stringmap.c: an array of lists of meta/src/meta_list.c.

    An entry is written before it enters a list and never changes, so that the
    payload of a node is the entry itself.  [stringmap_ids] shows that the
    numbers are unique and stable; [stringmap_difference] what
    [stringmap_subset] and [stringmap_tolist] return; and
    [stringmap_invalidate_dangles] that the table must not be used after
    [stringmap_invalidate]. *)

From Stdlib Require Import ZArith Lia.
From stdpp Require Import base list numbers gmap sets.
From S2P Require Import Prelude MetaList MetaListLoops ListTable Cstring Pair.

#[local] Arguments load : simpl never.
#[local] Arguments store : simpl never.

(** [hashval << 5] and the sums wrap around. *)
Definition hash (str : list Z) : Z :=
  fold_left (fun hashval c => u64 (u64 (u64 (Z.shiftl hashval 5) + hashval) + c)) str 5381.

Record entry : Type := Entry { str : list Z; hashval : Z; id : Z }.

Record stringmap : Type := StringMap { nelem : Z; hashtable : list (option loc); last_id : Z }.

Definition set_hashtable (t : list (option loc)) (m : stringmap) : stringmap :=
  StringMap (nelem m) t (last_id m).
Definition set_last_id (i : Z) (m : stringmap) : stringmap :=
  StringMap (nelem m) (hashtable m) i.

Definition sizeof_stringmap : Z := 24.
Definition sizeof_entry : Z := 24.

Abbreviation heap := (gmap loc (node entry)).
Abbreviation slot := (ListTable.slot (A := entry)).

Definition stringmap_foreach {S} (h : heap) (this : stringmap) (f : list Z -> S -> bool * S) (arg : S)
    : C (bool * S) :=
  let* (rc, arg, _) := for_table (hashtable this) h arg (fun h p arg =>
    let '(rc, arg) := f (str p) arg in ret (rc, arg, h)) in
  ret (rc, arg).

Definition stringmap_new (size : Z) : C (option stringmap) :=
  c_assert (0 <? size);;
  let* ok := alloc_ok sizeof_stringmap in
  if negb ok then ret None
  else
    let* ok := alloc_ok (size * 8) in
    ret (if ok : bool then Some (StringMap size (replicate (Z.to_nat size) None) 0) else None).

Definition stringmap_free (h : heap) (this : option stringmap) : C heap :=
  match this with None => ret h | Some this => free_table (hashtable this) h end.

(** The array keeps the pointers to the lists that were freed. *)
Definition stringmap_invalidate (h : heap) (this : stringmap) : C (status * heap) :=
  let* h := free_table (hashtable this) h in ret (success, h).

(** The iterator of the entry, [None] when there is none. *)
Definition sm_locate (h : heap) (this : stringmap) (s : list Z) : res (option loc) :=
  r_assert (0 <? zlen s);;
  let hv := hash s in
  match hashtable this !! Z.to_nat (hv mod nelem this) with
  | None => Fault OutOfBounds
  | Some None => Ret None
  | Some (Some lst) =>
      let+ i := list_first h (Some lst) in
      find_loop (pass h) h i (fun e => (hashval e =? hv) && (strcmp s (str e) =? 0))
  end.

(** The second result is what is stored in [*pid], if anything. *)
Definition stringmap_add (h : heap) (this : stringmap) (s : list Z)
    : C (status * option Z * stringmap * heap) :=
  c_assert (0 <? zlen s);;
  let* found := lift (sm_locate h this s) in
  match found with
  | Some _ => let* e := lift (list_get h found) in ret (success, Some (id e), this, h)
  | None =>
      let* ok := alloc_ok sizeof_entry in
      if negb ok then ret (failure, None, this, h)
      else
        let* ok := alloc_ok (zlen s + 1) in
        if negb ok then ret (failure, None, this, h)
        else
          let this := set_last_id (u64 (last_id this + 1)) this in
          let e := Entry s (hash s) (last_id this) in
          let hid := Z.to_nat (hashval e mod nelem this) in
          let* (lst, this, h) :=
            match hashtable this !! hid with
            | None => lift (Fault OutOfBounds)
            | Some (Some lst) => ret (Some lst, this, h)
            | Some None =>
                let* (l, h) := list_new h in
                ret (l, set_hashtable (<[hid := l]> (hashtable this)) this, h)
            end in
          match lst with
          | None => ret (failure, Some (id e), this, h)
          | Some _ =>
              let* (r, h) := list_add h lst e in
              ret (match r with None => failure | Some _ => success end, Some (id e), this, h)
          end
  end.

Definition stringmap_exists (h : heap) (this : stringmap) (s : list Z) : res bool :=
  r_assert (0 <? zlen s);;
  let+ i := sm_locate h this s in Ret (negb (list_end i)).

Definition stringmap_get_id (h : heap) (this : stringmap) (s : list Z) : res (status * option Z) :=
  r_assert (0 <? zlen s);;
  let+ i := sm_locate h this s in
  if list_end i then Ret (failure, None)
  else let+ e := list_get h i in Ret (success, Some (id e)).

Definition stringmap_subset (h : heap) (sm1 sm2 : stringmap) : C (option stringmap * heap) :=
  let* sm := stringmap_new (nelem sm1) in
  match sm with
  | None => ret (None, h)
  | Some sm =>
      let* (ok, sm, h) := for_table (hashtable sm1) h sm (fun h p sm =>
        let* there := lift (stringmap_exists h sm2 (str p)) in
        if there : bool then ret (true, sm, h)
        else
          let* (st, _, sm, h) := stringmap_add h sm (str p) in
          ret (match st with success => true | failure => false end, sm, h)) in
      if ok : bool then ret (Some sm, h)
      else let* h := stringmap_free h (Some sm) in ret (None, h)
  end.

(** The list of the copies is in a heap of its own, [hs]. *)
Definition stringmap_tolist (h : heap) (hs : gmap loc (node (list Z))) (this : stringmap)
    : C (option loc * gmap loc (node (list Z))) :=
  let* (lst, hs) := list_new hs in
  match lst with
  | None => ret (None, hs)
  | Some _ =>
      let* (ok, hs, _) := for_table (hashtable this) h hs (fun h p hs =>
        let* ok := alloc_ok (zlen (str p) + 1) in
        if negb ok then ret (false, hs, h)
        else
          let* (r, hs) := list_add hs lst (str p) in
          ret (match r with None => false | Some _ => true end, hs, h)) in
      if ok : bool then ret (lst, hs)
      else let* (_, hs) := list_free hs lst (Some (fun _ u => u)) tt in ret (None, hs)
  end.

(** * The table in the heap *)

(** What may be added: not the empty string. *)
Definition addable (s : list Z) : Prop := valid_str s /\ s <> [].

(** The entry of cell [i] of a table with [n] cells. *)
Definition entry_ok (n : Z) (i : nat) (e : entry) : Prop :=
  hashval e = hash (str e) /\ Z.to_nat (hashval e mod n) = i /\ addable (str e).

Record sm_rep (h : heap) (sm : stringmap) (t : list slot) : Prop := mkRep {
  sr_table : hashtable sm = sl_list <$> t;
  sr_nelem : zlen t = nelem sm /\ 0 < nelem sm;
  sr_heap : in_heap h t;
  sr_items : placed (entry_ok (nelem sm)) t;
  sr_strs : NoDup (str <$> entries t);
  sr_ids : NoDup (id <$> entries t);
  sr_range : 0 <= last_id sm /\ Forall (fun e => 1 <= id e <= last_id sm) (entries t);
}.

(** ** Locating *)

Definition slot_of (sm : stringmap) (s : list Z) : nat := Z.to_nat (hash s mod nelem sm).

Lemma slot_split h sm t s :
  sm_rep h sm t -> exists t1 sl t2, t = t1 ++ sl :: t2 /\ length t1 = slot_of sm s.
Proof.
  intros [_ [Hn Hp] _ _ _ _ _]. pose proof (Z.mod_pos_bound (hash s) (nelem sm) Hp) as Hb.
  apply table_split. unfold slot_of, zlen in *. lia.
Qed.

Lemma slot_lookup h sm t1 sl t2 s :
  sm_rep h sm (t1 ++ sl :: t2) -> length t1 = slot_of sm s ->
  hashtable sm !! slot_of sm s = Some (sl_list sl).
Proof. intros Hr <-. rewrite (sr_table _ _ _ Hr). apply table_lookup. Qed.

Lemma slot_items h sm t1 sl t2 s :
  sm_rep h sm (t1 ++ sl :: t2) -> length t1 = slot_of sm s ->
  s ∈ str <$> entries (t1 ++ sl :: t2) <-> s ∈ str <$> sl_items sl.
Proof.
  intros Hr Hlen.
  assert (Hone : forall e, str e = s -> e ∈ entries (t1 ++ sl :: t2) <-> e ∈ sl_items sl).
  { intros e <-. apply (placed_here _ _ _ _ _ (sr_items _ _ _ Hr)). intros i (Hh & Hi & _).
    rewrite Hlen. unfold slot_of. by rewrite <-Hh. }
  rewrite !list_elem_of_fmap. split; intros (e & He & Hin); exists e; (split; [done|]);
    by apply (Hone e (eq_sym He)).
Qed.

Lemma sm_locate_spec h sm t s :
  sm_rep h sm t -> valid_str s -> s <> [] ->
  (sm_locate h sm s = Ret None /\ s ∉ str <$> entries t) \/
  exists k e, sm_locate h sm s = Ret (Some k) /\ list_get h (Some k) = Ret e /\
    e ∈ entries t /\ str e = s.
Proof.
  intros Hr Hv Hs. destruct (slot_split _ _ _ s Hr) as (t1 & sl & t2 & -> & Hlen).
  rewrite (slot_items _ _ _ _ _ s Hr Hlen). unfold sm_locate, guard.
  rewrite (proj2 (Z.ltb_lt 0 (zlen s))) by (destruct s; [done|zlia]). cbn [res_bind].
  fold (slot_of sm s). rewrite (slot_lookup _ _ _ _ _ _ Hr Hlen).
  pose proof (placed_at _ _ _ _ (sr_items _ _ _ Hr)) as Hok. rewrite list.Forall_forall in Hok.
  pose proof (sr_heap _ _ _ Hr) as Hh. destruct (sl_list sl) as [l|] eqn:Hl.
  2:{ left. apply in_heap_slot in Hh. unfold slot_ok in Hh. rewrite Hl in Hh.
      destruct Hh as [_ ->]. split; [done|]. apply not_elem_of_nil. }
  set (p := fun e => (hashval e =? hash s) && (strcmp s (str e) =? 0)).
  assert (Hp : forall e, e ∈ sl_items sl -> p e = bool_decide (s = str e)).
  { intros e He. destruct (Hok e He) as (Hhash & _ & [Hve _]). unfold p. rewrite strcmp_eq by done.
    destruct (bool_decide_reflect (s = str e)) as [->|]; [|apply andb_false_r].
    by rewrite Hhash, Z.eqb_refl. }
  destruct (slot_find_spec h t1 sl t2 l p Hh Hl) as (i & -> & [[Hf Hnone]|Hsome]); cbn [res_bind].
  - left. split; [done|]. intros (e & -> & He)%list_elem_of_fmap.
    pose proof (proj1 (list.Forall_forall _ _) Hnone e He) as Hpe. cbn in Hpe.
    rewrite (Hp e He), bool_decide_true in Hpe by done. done.
  - destruct Hsome as (ls1 & k & ls2 & xs1 & e & xs2 & Hf & Hsl & _ & Hget & Hpe).
    assert (He : e ∈ sl_items sl) by (rewrite Hsl; cbn; set_solver).
    rewrite (Hp e He) in Hpe. apply bool_decide_eq_true in Hpe as ->.
    right. exists k, e. split; [done|]. split; [done|]. split; [|done].
    unfold entries. rewrite bind_middle. apply elem_of_app. by left.
Qed.

(** ** Adding *)

(** A cell gets another list and, maybe, the next entry at its end. *)
Lemma rep_update h sm t1 sl t2 s h' sl' extra :
  sm_rep h sm (t1 ++ sl :: t2) -> length t1 = slot_of sm s -> addable s ->
  s ∉ str <$> entries (t1 ++ sl :: t2) -> in_heap h' (t1 ++ sl' :: t2) ->
  sl_items sl' = sl_items sl ++ extra ->
  extra = [] \/ extra = [Entry s (hash s) (last_id sm + 1)] ->
  sm_rep h' (StringMap (nelem sm) (<[slot_of sm s := sl_list sl']> (hashtable sm)) (last_id sm + 1))
    (t1 ++ sl' :: t2) /\
  entries (t1 ++ sl' :: t2) ≡ₚ extra ++ entries (t1 ++ sl :: t2).
Proof.
  intros [Ht [Hn Hpos] Hh Hi Hs Hid [Hr0 Hr]] Hlen Hv Hns Hh' Hsl' Hex.
  assert (Hent : entries (t1 ++ sl' :: t2) ≡ₚ extra ++ entries (t1 ++ sl :: t2)).
  { unfold entries. rewrite !bind_middle, Hsl'. solve_Permutation. }
  split; [|done]. constructor; cbn [hashtable nelem last_id].
  - rewrite Ht, <-Hlen. apply table_insert.
  - unfold zlen in *. rewrite length_app in *. cbn in *. lia.
  - done.
  - eapply placed_update; [exact Hi|]. rewrite Hsl'. apply Forall_app. split; [by apply placed_at in Hi|].
    destruct Hex as [-> | ->]; [done|]. apply Forall_singleton. by split.
  - rewrite Hent. destruct Hex as [-> | ->]; [done|]. apply NoDup_cons. by split.
  - rewrite Hent. destruct Hex as [-> | ->]; [done|]. apply NoDup_cons. split; [|done].
    intros (e & He & Hin)%list_elem_of_fmap. cbn in He.
    pose proof (proj1 (list.Forall_forall _ _) Hr e Hin) as Hb. cbn in Hb. lia.
  - split; [lia|]. rewrite Hent. apply Forall_app. split.
    + destruct Hex as [-> | ->]; [done|]. apply Forall_singleton. cbn. lia.
    + eapply Forall_impl; [exact Hr|]. cbn. lia.
Qed.

(** What a call of [stringmap_add] does. *)
Definition adds (h : heap) (sm : stringmap) (t : list slot) (s : list Z) (o : oracle)
    (r : status * option Z * stringmap * heap) (o' : oracle) : Prop :=
  let '(st, pid, sm', h') := r in
  nelem sm' = nelem sm /\ last_id sm <= last_id sm' <= last_id sm + 1 /\
  (o = [] -> o' = [] /\ (zlen s < PTRDIFF_MAX -> st = success)) /\
  exists t', sm_rep h' sm' t' /\ evolves h t h' t' /\
    match st with
    | failure => entries t' ≡ₚ entries t
    | success => exists e, str e = s /\ pid = Some (id e) /\ e ∈ entries t' /\
        (entries t' ≡ₚ entries t \/ entries t' ≡ₚ e :: entries t /\ s ∉ str <$> entries t)
    end.

(** The entry goes to the end of the list of a cell that has one. *)
Lemma add_entry h sm t1 sl t2 s l o :
  sm_rep h sm (t1 ++ sl :: t2) -> length t1 = slot_of sm s -> addable s ->
  s ∉ str <$> entries (t1 ++ sl :: t2) -> sl_list sl = Some l ->
  let e := Entry s (hash s) (last_id sm + 1) in
  wp (list_add h (Some l) e) o (fun '(r, h') o' =>
    (o = [] -> o' = [] /\ is_Some r) /\
    exists sl', sm_rep h' (StringMap (nelem sm) (hashtable sm) (last_id sm + 1)) (t1 ++ sl' :: t2) /\
      evolves h (t1 ++ sl :: t2) h' (t1 ++ sl' :: t2) /\
      match r with
      | None => entries (t1 ++ sl' :: t2) ≡ₚ entries (t1 ++ sl :: t2)
      | Some _ => entries (t1 ++ sl' :: t2) ≡ₚ e :: entries (t1 ++ sl :: t2)
      end).
Proof.
  intros Hr Hlen Hv Hns Hl e. pose proof (sr_heap _ _ _ Hr) as Hh.
  assert (Hid : forall sl' : slot, sl_list sl' = Some l -> <[slot_of sm s := sl_list sl']> (hashtable sm) = hashtable sm).
  { intros sl' ->. rewrite <-Hl. apply list_insert_id. by eapply slot_lookup. }
  eapply wp_mono; [by apply slot_add_spec|]. intros [r h'] o' [Ho Hadd]. split; [done|]. destruct r as [k|].
  - destruct Hadd as [n [Hh' Hg]]. set (sl' := Slot _ _ _) in *. exists sl'.
    destruct (rep_update h sm t1 sl t2 s h' sl' [e] Hr Hlen Hv Hns Hh' eq_refl (or_intror eq_refl)) as [Hr' He].
    by rewrite Hid in Hr'.
  - subst h'. exists sl.
    destruct (rep_update h sm t1 sl t2 s h sl [] Hr Hlen Hv Hns Hh (eq_sym (app_nil_r _)) (or_introl eq_refl)) as [Hr' He].
    rewrite Hid in Hr' by done. split; [done|]. split; [apply evolves_refl|done].
Qed.

(** A cell without a list gets an empty one. *)
Lemma new_list h sm t1 sl t2 s o :
  sm_rep h sm (t1 ++ sl :: t2) -> length t1 = slot_of sm s -> sl_list sl = None ->
  wp (list_new h) o (fun '(r, h') o' =>
    (o = [] -> o' = [] /\ is_Some r) /\
    match r with
    | None => h' = h
    | Some l =>
        let sl' := Slot (Some l) [] [] in
        sm_rep h' (set_hashtable (<[slot_of sm s := Some l]> (hashtable sm)) sm) (t1 ++ sl' :: t2) /\
        evolves h (t1 ++ sl :: t2) h' (t1 ++ sl' :: t2) /\
        entries (t1 ++ sl' :: t2) = entries (t1 ++ sl :: t2)
    end).
Proof.
  intros Hr Hlen Hnone. eapply wp_mono; [by apply slot_new_spec, Hnone; apply Hr|].
  intros [r h'] o' [Ho Hnew]. split; [done|]. destruct r as [l|]; [|done].
  destruct Hnew as (Hitems & Hh' & Hg). set (sl' := Slot _ _ _) in *.
  assert (He : entries (t1 ++ sl' :: t2) = entries (t1 ++ sl :: t2)).
  { unfold entries. rewrite !bind_app. csimpl. by rewrite Hitems. }
  split; [|done]. destruct Hr as [Htab [Hn Hpos] _ Hi Hs Hid Hran].
  constructor; cbn [set_hashtable hashtable nelem last_id]; rewrite ?He; try done.
  - rewrite Htab, <-Hlen. apply (table_insert t1 sl sl' t2).
  - unfold zlen in *. rewrite length_app in *. cbn in *. lia.
  - eapply placed_update; [exact Hi|constructor].
Qed.

Lemma stringmap_add_spec h sm t s o :
  sm_rep h sm t -> valid_str s -> s <> [] -> last_id sm < 2 ^ 64 - 1 ->
  wp (stringmap_add h sm s) o (adds h sm t s o).
Proof.
  intros Hr Hv Hs Hmax. pose proof (sr_range _ _ _ Hr) as [Hpos _]. unfold stringmap_add.
  assert (0 < zlen s) by (destruct s; [done|zlia]). wp.
  destruct (sm_locate_spec _ _ _ _ Hr Hv Hs) as [[-> Hns]|(k & e & -> & Hget & He & Hes)]; cbn [wpr]; wp.
  2:{ rewrite Hget. cbn [wpr]. wp. split; [done|]. split; [lia|]. split; [done|]. exists t.
      split; [done|]. split; [apply evolves_refl|]. exists e. by eauto. }
  assert (Hunch : forall o1, (o = [] -> o1 = [] /\ ~ zlen s < PTRDIFF_MAX) -> adds h sm t s o (failure, None, sm, h) o1).
  { intros o1 Ho1. split; [done|]. split; [lia|]. split; [naive_solver|]. exists t.
    split; [done|]. split; [apply evolves_refl|done]. }
  apply wp_alloc_ok. intros b o1 _ Hb1. destruct b; cbn [negb]; wp.
  2:{ apply Hunch. intros Ho. by destruct (Hb1 Ho). }
  apply wp_alloc_ok. intros b o2 _ Hb2. destruct b; cbn [negb]; wp.
  2:{ apply Hunch. intros Ho. destruct (Hb1 Ho) as [-> _]. destruct (Hb2 eq_refl) as [-> E].
      split; [done|]. symmetry in E. apply Z.leb_gt in E. lia. }
  assert (Ho2 : o = [] -> o2 = []) by (intros Ho; destruct (Hb1 Ho) as [-> _]; by destruct (Hb2 eq_refl)).
  clear Hunch Hb1 Hb2 o1. cbn [set_last_id last_id hashval hashtable nelem]. rewrite u64_small by lia.
  fold (slot_of sm s).
  destruct (slot_split _ _ _ s Hr) as (t1 & sl & t2 & -> & Hlen).
  rewrite (slot_lookup _ _ _ _ _ _ Hr Hlen). destruct (sl_list sl) as [l|] eqn:Hl.
  - wp. eapply wp_mono; [by eapply add_entry|]. intros [r h'] o3 (Ho3 & sl' & Hr' & Hg & Hent). wp.
    split; [done|]. split; [cbn; lia|]. split.
    { intros Ho. destruct (Ho3 (Ho2 Ho)) as [-> [? ->]]. done. }
    exists (t1 ++ sl' :: t2). split; [done|]. split; [done|]. destruct r as [?|]; [|done].
    exists (Entry s (hash s) (last_id sm + 1)). split; [done|]. split; [done|].
    split; [rewrite Hent; by left|]. by right.
  - wp. eapply wp_mono; [by eapply new_list|]. intros [r h1] o3 (Ho3 & H1). wp. destruct r as [l|].
    + destruct H1 as (Hr1 & Hg1 & He1). wp. rewrite <-He1 in Hns.
      eapply wp_mono; [by eapply (add_entry h1 _ t1 (Slot (Some l) [] []) t2 s l _ Hr1 Hlen (conj Hv Hs) Hns)|].
      intros [r h'] o4 (Ho4 & sl' & Hr' & Hg & Hent). wp. cbn [set_hashtable nelem hashtable last_id] in *.
      split; [done|]. split; [cbn; lia|]. split.
      { intros Ho. destruct (Ho3 (Ho2 Ho)) as [-> _]. destruct (Ho4 eq_refl) as [-> [? ->]]. done. }
      exists (t1 ++ sl' :: t2). rewrite He1 in Hent, Hns. split; [done|]. split; [by eapply evolves_trans|].
      destruct r as [?|]; [|done]. exists (Entry s (hash s) (last_id sm + 1)).
      split; [done|]. split; [done|]. split; [rewrite Hent; by left|]. by right.
    + subst h1. wp. split; [done|]. split; [cbn; lia|]. split.
      { intros Ho. by destruct (Ho3 (Ho2 Ho)) as [_ [? ?]]. }
      exists (t1 ++ sl :: t2). split; [|split; [apply evolves_refl|done]].
      pose proof (rep_update h sm t1 sl t2 s h sl [] Hr Hlen (conj Hv Hs) Hns (sr_heap _ _ _ Hr)
        (eq_sym (app_nil_r _)) (or_introl eq_refl)) as [Hr' _].
      by rewrite Hl in Hr'.
Qed.

Lemma stringmap_new_spec n o :
  0 < n ->
  wp (stringmap_new n) o (fun r o' =>
    (o = [] -> o' = [] /\ (n * 8 <= PTRDIFF_MAX -> is_Some r)) /\
    forall sm, r = Some sm -> nelem sm = n /\ last_id sm = 0 /\
      forall h, sm_rep h sm (replicate (Z.to_nat n) (Slot None [] []))).
Proof.
  intros Hn. unfold stringmap_new. wp. apply wp_alloc_ok. intros b o1 _ Hb1. destruct b; cbn [negb]; wp.
  2:{ split; [|done]. intros Ho. by destruct (Hb1 Ho). }
  apply wp_alloc_ok. intros b o2 _ Hb2. wp. split.
  { intros Ho. destruct (Hb1 Ho) as [-> _]. destruct (Hb2 eq_refl) as [-> ->]. split; [done|].
    intros Hm. by rewrite (proj2 (Z.leb_le _ _)). }
  intros sm Hsm. destruct b; [|done]. injection Hsm as <-. split; [done|]. split; [done|]. intros h.
  assert (Hfl : forall (B : Type) (f : slot -> list B) k, f (Slot None [] []) = [] ->
    replicate k (Slot None [] []) ≫= f = []).
  { intros B f k Hf. induction k as [|k IH]; [done|]. csimpl. by rewrite Hf, IH. }
  constructor; unfold entries; rewrite ?Hfl by done; try constructor; cbn; try done; try lia.
  - by rewrite fmap_replicate.
  - rewrite zlen_replicate. lia.
  - by apply Forall_replicate.
  - unfold feet. rewrite Hfl by done. constructor.
  - intros i sl Hsl. apply lookup_replicate in Hsl as [-> _]. constructor.
Qed.

(** * The numbers *)

(** The number of each string. *)
Definition numbers (t : list slot) : gmap (list Z) Z :=
  list_to_map ((fun e => (str e, id e)) <$> entries t).

Lemma numbers_lookup h sm t s i :
  sm_rep h sm t -> numbers t !! s = Some i <-> exists e, e ∈ entries t /\ str e = s /\ id e = i.
Proof.
  intros Hr. unfold numbers. rewrite <-elem_of_list_to_map.
  - rewrite list_elem_of_fmap. split.
    + intros (e & [= -> ->] & ?). eauto.
    + intros (e & ? & <- & <-). eauto.
  - rewrite <-list_fmap_compose. apply (sr_strs _ _ _ Hr).
Qed.

Lemma numbers_inj h sm t s1 s2 i :
  sm_rep h sm t -> numbers t !! s1 = Some i -> numbers t !! s2 = Some i -> s1 = s2.
Proof.
  intros Hr (e1 & H1 & <- & Hi)%(numbers_lookup _ _ _ _ _ Hr) (e2 & H2 & <- & <-)%(numbers_lookup _ _ _ _ _ Hr).
  f_equal. apply list_elem_of_lookup in H1 as [j1 H1]. apply list_elem_of_lookup in H2 as [j2 H2].
  assert (j1 = j2) as ->; [|congruence].
  eapply (NoDup_lookup (id <$> entries t)); [apply (sr_ids _ _ _ Hr)| |];
    rewrite list_lookup_fmap, ?H1, ?H2; cbn; by f_equal.
Qed.

Lemma stringmap_lookup_spec h sm t s :
  sm_rep h sm t -> valid_str s -> s <> [] ->
  stringmap_exists h sm s = Ret (bool_decide (is_Some (numbers t !! s))) /\
  stringmap_get_id h sm s =
    Ret (match numbers t !! s with Some i => (success, Some i) | None => (failure, None) end).
Proof.
  intros Hr Hv Hs. unfold stringmap_exists, stringmap_get_id, guard.
  rewrite (proj2 (Z.ltb_lt 0 (zlen s))) by (destruct s; [done|zlia]). cbn [res_bind].
  destruct (sm_locate_spec _ _ _ _ Hr Hv Hs) as [[-> Hns]|(k & e & -> & Hget & He & Hes)]; cbn [res_bind list_end negb].
  - assert (numbers t !! s = None) as ->; [|done]. destruct (numbers t !! s) as [i|] eqn:E; [|done].
    apply (numbers_lookup _ _ _ _ _ Hr) in E as (e & He & <- & _). exfalso. apply Hns. by apply list_elem_of_fmap_2.
  - assert (numbers t !! s = Some (id e)) as -> by (apply (numbers_lookup _ _ _ _ _ Hr); by exists e).
    rewrite Hget. done.
Qed.

Fixpoint run_adds (h : heap) (sm : stringmap) (ss : list (list Z))
    : C (list (status * option Z) * stringmap * heap) :=
  match ss with
  | [] => ret ([], sm, h)
  | s :: ss =>
      let* (st, pid, sm, h) := stringmap_add h sm s in
      let* (rs, sm, h) := run_adds h sm ss in
      ret ((st, pid) :: rs, sm, h)
  end.

(** The answer to a call is the string's number in the end. *)
Definition answered (M : gmap (list Z) Z) (s : list Z) (r : status * option Z) : Prop :=
  r.1 = success -> exists i, r.2 = Some i /\ M !! s = Some i.

Lemma numbers_mono h sm t h' sm' t' s i :
  sm_rep h sm t -> sm_rep h' sm' t' -> entries t ⊆ entries t' ->
  numbers t !! s = Some i -> numbers t' !! s = Some i.
Proof.
  intros Hr Hr' Hsub (e & He & ?)%(numbers_lookup _ _ _ _ _ Hr).
  apply (numbers_lookup _ _ _ _ _ Hr'). exists e. auto.
Qed.

Lemma run_adds_spec h sm t ss o :
  sm_rep h sm t -> Forall addable ss -> last_id sm + zlen ss < 2 ^ 64 ->
  wp (run_adds h sm ss) o (fun '(rs, sm', h') _ =>
    exists t', sm_rep h' sm' t' /\ evolves h t h' t' /\ entries t ⊆ entries t' /\
      nelem sm' = nelem sm /\ last_id sm' <= last_id sm + zlen ss /\
      Forall2 (answered (numbers t')) ss rs /\
      (forall s, s ∈ str <$> entries t' -> s ∈ str <$> entries t \/ s ∈ ss) /\
      (o = [] -> Forall (fun s => zlen s < PTRDIFF_MAX) ss -> Forall (fun r => r.1 = success) rs)).
Proof.
  intros Hr Hs. revert h sm t o Hr. induction Hs as [|s ss [Hv Hne] _ IH]; intros h sm t o Hr Hmax; cbn [run_adds]; wp.
  { exists t. split_and!; try done; [apply evolves_refl|zlia|naive_solver]. }
  rewrite zlen_cons in *. zlen_facts. eapply wp_mono; [apply stringmap_add_spec; [exact Hr|done|done|lia]|].
  intros [[[st pid] sm1] h1] o1 (Hn1 & Hid1 & Hnil1 & t1 & Hr1 & Hg1 & Hst). wp.
  eapply wp_mono; [eapply (IH h1 sm1 t1); [exact Hr1|lia]|].
  intros [[rs sm2] h2] o2 (t2 & Hr2 & Hg2 & Hsub2 & Hn2 & Hid2 & Hall & Hfrom & Hnil2). wp. exists t2.
  assert (Hsub1 : entries t ⊆ entries t1).
  { destruct st; [by rewrite Hst|]. destruct Hst as (e & _ & _ & _ & [-> | [-> _]]); [done|]. set_solver. }
  split_and!; [done|by eapply evolves_trans|set_solver|congruence|lia| | |].
  - constructor; [|done]. intros Hok. cbn in Hok. subst st. destruct Hst as (e & He & -> & Hin & _).
    exists (id e). split; [done|]. apply (numbers_lookup _ _ _ _ _ Hr2). exists e. auto.
  - intros x Hx. destruct (Hfrom x Hx) as [Hx1|?]; [|by right; right].
    destruct st; [rewrite Hst in Hx1; by left|].
    destruct Hst as (e & <- & _ & _ & [E | [E _]]); rewrite E in Hx1; [by left|].
    cbn in Hx1. apply elem_of_cons in Hx1 as [->|?]; [right; by left|by left].
  - intros Ho [Hlen Hlens]%Forall_cons. destruct (Hnil1 Ho) as [-> Hok]. constructor; [by apply Hok|].
    by apply Hnil2.
Qed.

(** C24. A string map gives strings unique and stable numbers: after any calls of
    [stringmap_add] on a new map, under any behaviour of the allocator, every
    call that succeeded has returned the number the string still has, different
    strings have different numbers, from 1 to the number of calls, a string is in
    the map only if it was added, and [stringmap_exists] and [stringmap_get_id]
    tell; [stringmap_free] then leaves the heap as it was. *)
Theorem stringmap_ids n ss h s o :
  0 < n -> n * 8 <= PTRDIFF_MAX -> Forall addable ss -> zlen ss < 2 ^ 64 -> addable s ->
  wp (stringmap_new n) o (fun r o1 => (o = [] -> is_Some r) /\ forall sm, r = Some sm ->
    wp (run_adds h sm ss) o1 (fun '(rs, sm', h') o2 =>
      exists M : gmap (list Z) Z,
        Forall2 (answered M) ss rs /\
        (forall s1 s2 i, M !! s1 = Some i -> M !! s2 = Some i -> s1 = s2) /\
        (forall s i, M !! s = Some i -> 1 <= i <= zlen ss /\ s ∈ ss) /\
        stringmap_exists h' sm' s = Ret (bool_decide (is_Some (M !! s))) /\
        stringmap_get_id h' sm' s =
          Ret (match M !! s with Some i => (success, Some i) | None => (failure, None) end) /\
        (o1 = [] -> Forall (fun s => zlen s < PTRDIFF_MAX) ss -> Forall (fun r => r.1 = success) rs) /\
        wp (stringmap_free h' (Some sm')) o2 (fun h'' _ => h'' = h))).
Proof.
  intros Hn Hn8 Hss Hlen [Hv Hne]. eapply wp_mono; [by apply stringmap_new_spec|].
  intros r o1 [Hnil Hr]. split; [intros Ho; by apply Hnil|]. intros sm Hsm.
  destruct (Hr sm Hsm) as (Hnel & Hid0 & Hrep). specialize (Hrep h).
  set (t0 := replicate (Z.to_nat n) (Slot None [] [])) in *.
  destruct (empty_table (A := entry) (Z.to_nat n)) as [Hf0 He0]. fold t0 in Hf0, He0.
  eapply wp_mono; [apply (run_adds_spec h sm t0); [done|done|lia]|].
  intros [[rs sm'] h'] o2 (t' & Hr' & Hg & _ & _ & Hid & Hall & Hfrom & Hok).
  exists (numbers t'). split; [done|]. split; [intros s1 s2 i; by eapply numbers_inj|]. split.
  { intros x i (e & He & <- & <-)%(numbers_lookup _ _ _ _ _ Hr').
    destruct (sr_range _ _ _ Hr') as [_ Hran]. pose proof (proj1 (list.Forall_forall _ _) Hran e He) as Hb.
    cbn in Hb. split; [lia|]. destruct (Hfrom (str e)) as [Hin|?]; [by apply list_elem_of_fmap_2| |done].
    rewrite He0 in Hin. by apply elem_of_nil in Hin. }
  destruct (stringmap_lookup_spec _ _ _ s Hr' Hv Hne) as [-> ->]. split; [done|]. split; [done|].
  split; [done|]. unfold stringmap_free. rewrite (sr_table _ _ _ Hr').
  eapply wp_mono; [apply free_table_spec, Hr'|]. intros h'' o3 [Hfr _]. by eapply evolves_free.
Qed.

Lemma stringmap_ids_witness :
  wp (stringmap_new 2) [true; true; true; true; true; true; false] (fun r o1 =>
    ([true; true; true; true; true; true; false] = [] -> is_Some r) /\ forall sm, r = Some sm ->
    wp (run_adds ∅ sm [bytes "a"; bytes "b"; bytes "a"]) o1 (fun '(rs, sm', h') o2 =>
      exists M : gmap (list Z) Z,
        Forall2 (answered M) [bytes "a"; bytes "b"; bytes "a"] rs /\
        (forall s1 s2 i, M !! s1 = Some i -> M !! s2 = Some i -> s1 = s2) /\
        (forall s i, M !! s = Some i -> 1 <= i <= zlen [bytes "a"; bytes "b"; bytes "a"] /\ s ∈ [bytes "a"; bytes "b"; bytes "a"]) /\
        stringmap_exists h' sm' (bytes "a") = Ret (bool_decide (is_Some (M !! bytes "a"))) /\
        stringmap_get_id h' sm' (bytes "a") =
          Ret (match M !! bytes "a" with Some i => (success, Some i) | None => (failure, None) end) /\
        (o1 = [] -> Forall (fun s => zlen s < PTRDIFF_MAX) [bytes "a"; bytes "b"; bytes "a"] -> Forall (fun r => r.1 = success) rs) /\
        wp (stringmap_free h' (Some sm')) o2 (fun h'' _ => h'' = ∅))).
Proof.
  apply (stringmap_ids 2 [bytes "a"; bytes "b"; bytes "a"] ∅ (bytes "a")).
  - done.
  - by vm_compute.
  - repeat (constructor; [split; [split; decide_closed|discriminate]|]). constructor.
  - by vm_compute.
  - split; [split; decide_closed|discriminate].
Defined.

(** * After [stringmap_invalidate] *)

(** [stringmap_invalidate] frees the lists and keeps the pointers to them: a
    look-up or an addition of a string that was in the map, and a second
    [stringmap_free] or [stringmap_invalidate], read freed memory. *)
Theorem stringmap_invalidate_dangles h sm t s o :
  sm_rep h sm t -> s <> [] -> s ∈ str <$> entries t ->
  wp (stringmap_invalidate h sm) o (fun '(st, h') o' =>
    st = success /\
    stringmap_exists h' sm s = Fault OutOfBounds /\ stringmap_get_id h' sm s = Fault OutOfBounds /\
    stringmap_add h' sm s o' = Fault OutOfBounds /\
    stringmap_free h' (Some sm) o' = Fault OutOfBounds /\
    stringmap_invalidate h' sm o' = Fault OutOfBounds).
Proof.
  intros Hr Hne Hin. unfold stringmap_invalidate at 1. rewrite (sr_table _ _ _ Hr). wp.
  eapply wp_mono; [apply free_table_spec, Hr|]. intros h' o' [[Hgone _] ->]. wp. split; [done|].
  destruct (slot_split _ _ _ s Hr) as (t1 & sl & t2 & -> & Hlen).
  pose proof Hin as Hit. rewrite (slot_items _ _ _ _ _ _ Hr Hlen) in Hit.
  destruct (sr_heap _ _ _ Hr) as [Ht _]. apply Forall_app in Ht as [_ [Hsl _]%Forall_cons].
  assert (exists l, sl_list sl = Some l) as [l Hl].
  { unfold slot_ok in Hsl. destruct (sl_list sl); [eauto|]. destruct Hsl as [_ E]. rewrite E in Hit. by apply elem_of_nil in Hit. }
  assert (Hdead : forall x k, x ∈ t1 ++ sl :: t2 -> sl_list x = Some k -> h' !! k = None).
  { intros x k Hx Hk. apply Hgone, list_elem_of_bind. exists x. split; [|done]. unfold foot. rewrite Hk. by left. }
  assert (Hs : (0 <? zlen s) = true) by (apply Z.ltb_lt; destruct s; [done|zlia]).
  assert (Hloc : sm_locate h' sm s = Fault OutOfBounds).
  { unfold sm_locate. rewrite Hs. cbn [guard res_bind]. fold (slot_of sm s).
    rewrite (slot_lookup _ _ _ _ _ _ Hr Hlen), Hl. unfold list_first, load. cbn [guard res_bind].
    rewrite (Hdead sl l); [done|set_solver|done]. }
  assert (Hfree : free_table (hashtable sm) h' o = Fault OutOfBounds).
  { rewrite (sr_table _ _ _ Hr). apply free_gone; [|done]. exists sl, l. split; [set_solver|done]. }
  unfold stringmap_exists, stringmap_get_id, stringmap_add, stringmap_invalidate, bind, lift.
  rewrite Hs, Hloc, Hfree. done.
Qed.

Definition demo_heap : heap :=
  <[0%nat := mkNode (Some 1%nat) None (Cached 1%nat)]>
  {[1%nat := mkNode None (Some 0%nat) (Item (Entry (bytes "a") (hash (bytes "a")) 1))]}.

Definition demo_map : stringmap := StringMap 1 [Some 0%nat] 1.

Definition demo_table : list slot :=
  [Slot (Some 0%nat) [1%nat] [Entry (bytes "a") (hash (bytes "a")) 1]].

Lemma demo_rep : sm_rep demo_heap demo_map demo_table.
Proof.
  constructor; try done.
  - split; [|decide_closed]. repeat constructor. exists (Cached 1%nat). split; [|done].
    split; [decide_closed|reflexivity|]. split; [reflexivity|done].
  - intros [|i] sl Hsl; [|done]. injection Hsl as <-. repeat constructor; decide_closed.
  - decide_closed.
  - decide_closed.
  - split; [done|]. repeat constructor; done.
Qed.

Lemma stringmap_invalidate_dangles_witness :
  wp (stringmap_invalidate demo_heap demo_map) [] (fun '(st, h') o' =>
    st = success /\
    stringmap_exists h' demo_map (bytes "a") = Fault OutOfBounds /\
    stringmap_get_id h' demo_map (bytes "a") = Fault OutOfBounds /\
    stringmap_add h' demo_map (bytes "a") o' = Fault OutOfBounds /\
    stringmap_free h' (Some demo_map) o' = Fault OutOfBounds /\
    stringmap_invalidate h' demo_map o' = Fault OutOfBounds).
Proof.
  apply (stringmap_invalidate_dangles demo_heap demo_map demo_table (bytes "a") []);
    [apply demo_rep|discriminate|by left].
Defined.

(** * The whole table *)

Lemma sm_rep_frame h h' sm t :
  sm_rep h sm t -> (forall k, k ∈ feet t -> h' !! k = h !! k) -> sm_rep h' sm t.
Proof. intros [? ? Hh ? ? ? ?] Hf. constructor; try done. by eapply in_heap_frame. Qed.

Lemma entries_addable h sm t e : sm_rep h sm t -> e ∈ entries t -> addable (str e).
Proof.
  intros Hr (sl & He & Hsl)%list_elem_of_bind. apply list_elem_of_lookup in Hsl as [i Hi].
  by destruct (proj1 (list.Forall_forall _ _) (sr_items _ _ _ Hr i sl Hi) e He) as (_ & _ & ?).
Qed.

Lemma numbers_known h sm t s :
  sm_rep h sm t -> is_Some (numbers t !! s) <-> s ∈ str <$> entries t.
Proof.
  intros Hr. split.
  - intros [i (e & He & <- & _)%(numbers_lookup _ _ _ _ _ Hr)]. by apply list_elem_of_fmap_2.
  - intros (e & -> & He)%list_elem_of_fmap. exists (id e). apply (numbers_lookup _ _ _ _ _ Hr). by exists e.
Qed.


(** What the loop of [stringmap_subset] has done after the entries [don]. *)
Definition subset_inv (h : heap) (n : Z) (t1 t2 : list slot) (o : oracle)
    (h' : heap) (sm : stringmap) (es : list entry) (o' : oracle) : Prop :=
  exists don t, entries t1 = don ++ es /\ sm_rep h' sm t /\ nelem sm = n /\ last_id sm <= zlen don /\
    evolves h (replicate (Z.to_nat n) (Slot None [] [])) h' t /\
    (forall s, s ∈ str <$> entries t <-> s ∈ str <$> don /\ s ∉ str <$> entries t2) /\
    (o = [] -> o' = []).

(** The entry [e] is added unless it is in [sm2]. *)
Lemma subset_step h sm1 sm2 t1 t2 n o h' sm e es o' :
  sm_rep h sm1 t1 -> sm_rep h sm2 t2 -> zlen (entries t1) < 2 ^ 64 ->
  Forall (fun e => zlen (str e) < PTRDIFF_MAX) (entries t1) ->
  subset_inv h n t1 t2 o h' sm (e :: es) o' ->
  wp (let* there := lift (stringmap_exists h' sm2 (str e)) in
      if there : bool then ret (true, sm, h')
      else let* (st, _, sm, h) := stringmap_add h' sm (str e) in
           ret (match st with success => true | failure => false end, sm, h)) o'
    (fun '(go, sm', h2) o2 =>
      (forall k, k ∈ feet t1 ++ feet t2 -> h2 !! k = h' !! k) /\
      if go : bool then subset_inv h n t1 t2 o h2 sm' es o2
      else o <> [] /\ exists t, sm_rep h2 sm' t /\ evolves h (replicate (Z.to_nat n) (Slot None [] [])) h2 t).
Proof.
  intros Hr1 Hr2 Hlen Hsmall (don & t & Hes & Hr & Hn & Hid & Hg & Hin & Ho).
  destruct (empty_table (A := entry) (Z.to_nat n)) as [Hf0 _].
  assert (Hee : e ∈ entries t1) by (rewrite Hes; set_solver).
  destruct (entries_addable _ _ _ _ Hr1 Hee) as [Hv Hne].
  assert (Hold : forall h2 t', evolves h (replicate (Z.to_nat n) (Slot None [] [])) h2 t' ->
    forall k, k ∈ feet t1 ++ feet t2 -> h2 !! k = h !! k).
  { intros h2 t' Hev k Hk. eapply evolves_old; [exact Hev|done|].
    apply elem_of_app in Hk as [Hk|Hk]; (eapply in_heap_in; [|exact Hk]); [apply Hr1|apply Hr2]. }
  assert (Hr2' : sm_rep h' sm2 t2) by (apply (sm_rep_frame h); [done|]; intros k Hk; eapply Hold; [exact Hg|set_solver]).
  wp. destruct (stringmap_lookup_spec _ _ _ _ Hr2' Hv Hne) as [-> _]. cbn [wpr].
  assert (Hdon : entries t1 = (don ++ [e]) ++ es) by (by rewrite <-app_assoc).
  assert (Hld : zlen (don ++ [e]) = zlen don + 1) by (by rewrite zlen_app).
  destruct (bool_decide_reflect (is_Some (numbers t2 !! str e))) as [Hknown|Hnew];
    rewrite (numbers_known _ _ _ _ Hr2') in *.
  - wp. split; [done|]. exists (don ++ [e]), t. split_and!; try done; [lia|].
    intros s. rewrite Hin, fmap_app. set_solver.
  - wp. assert (zlen don + 1 <= zlen (entries t1)) by (rewrite Hes, zlen_app, zlen_cons; zlen_facts; lia).
    eapply wp_mono; [apply stringmap_add_spec; [exact Hr|done|done|lia]|].
    intros [[[st pid] sm'] h2] o2 (Hn' & Hid' & Hnil & t' & Hr' & Hg' & Hst). wp.
    pose proof (evolves_trans _ _ _ _ _ _ Hg Hg') as Hg2.
    split; [intros k Hk; by rewrite (Hold h2 t' Hg2), (Hold h' t Hg) by done|].
    destruct st.
    + split; [|by exists t']. intros Hoo. destruct (Hnil (Ho Hoo)) as [_ Hs].
      rewrite list.Forall_forall in Hsmall. by specialize (Hs (Hsmall e Hee)).
    + exists (don ++ [e]), t'. split_and!; [done|done|congruence|lia|done| |].
      * intros s. destruct Hst as (e' & He' & _ & Hin' & Hent). rewrite fmap_app. cbn.
        destruct Hent as [E | [E _]]; rewrite E; [rewrite E in Hin'|cbn; rewrite He'];
          pose proof (Hin s) as Hs; [|set_solver].
        assert (str e ∈ str <$> entries t) by (rewrite <-He'; by apply list_elem_of_fmap_2). 
        pose proof (Hin (str e)). set_solver.
      * intros Hoo. by apply Hnil, Ho.
Qed.

Lemma stringmap_subset_spec h sm1 sm2 t1 t2 o :
  sm_rep h sm1 t1 -> sm_rep h sm2 t2 -> zlen (entries t1) < 2 ^ 64 ->
  nelem sm1 * 8 <= PTRDIFF_MAX -> Forall (fun e => zlen (str e) < PTRDIFF_MAX) (entries t1) ->
  wp (stringmap_subset h sm1 sm2) o (fun '(r, h') o' =>
    (o = [] -> is_Some r) /\ (r = None -> h' = h) /\
    forall sm, r = Some sm -> exists t, sm_rep h' sm t /\ evolves h (replicate (Z.to_nat (nelem sm1)) (Slot None [] [])) h' t /\
      forall s, s ∈ str <$> entries t <-> s ∈ str <$> entries t1 /\ s ∉ str <$> entries t2).
Proof.
  intros Hr1 Hr2 Hlen Hn8 Hsmall. unfold stringmap_subset. wp.
  pose proof (sr_nelem _ _ _ Hr1) as [_ Hpos]. eapply wp_mono; [by apply stringmap_new_spec|].
  intros [sm|] o1 [Hnil Hnew]; wp.
  2:{ split; [|done]. intros Ho. destruct (Hnil Ho) as [_ Hs]. by apply Hs. }
  destruct (Hnew sm eq_refl) as (Hn & Hid & Hrep). destruct (empty_table (A := entry) (Z.to_nat (nelem sm1))) as [Hf0 He0].
  assert (Ho1 : o = [] -> o1 = []) by (intros Ho; by apply Hnil).
  rewrite (sr_table _ _ _ Hr1).
  eapply (for_table_spec _ (subset_inv h (nelem sm1) t1 t2 o1) _ (feet t1 ++ feet t2)).
  - intros h' e es sm' o' Hinv. eapply wp_mono; [by apply (subset_step h sm1 sm2 t1 t2 (nelem sm1) o1)|].
    intros [[[] sm''] h2] o2 [Hsame Hgo]; (split; [done|]); [done|].
    destruct Hgo as (Hne & t & Hr & Hg). wp. unfold stringmap_free. rewrite (sr_table _ _ _ Hr).
    eapply wp_mono; [apply free_table_spec, Hr|]. intros h3 o3 [Hfr _]. wp.
    split; [intros Ho; by destruct (Hne (Ho1 Ho))|]. split; [|done]. intros _. by eapply evolves_free.
  - intros h' sm' o' (don & t & Hes & Hr & Hn' & _ & Hg & Hin & _). wp. split; [by eexists|]. split; [done|].
    intros sm'' [= <-]. exists t. split; [done|]. split; [done|]. by rewrite Hes, app_nil_r.
  - apply Hr1.
  - set_solver.
  - exists [], (replicate (Z.to_nat (nelem sm1)) (Slot None [] [])). split_and!; try done; [rewrite zlen_nil; lia|apply evolves_refl|].
    rewrite He0. set_solver.
Qed.

(** [stringmap_foreach] visits the entries in the order of the table. *)
Lemma stringmap_foreach_spec {S} h sm t (f : list Z -> S -> bool * S) arg o :
  sm_rep h sm t ->
  wp (stringmap_foreach h sm f arg) o (fun r o' => r = fold_while f (str <$> entries t) arg /\ o' = o).
Proof.
  intros Hr. unfold stringmap_foreach. wp. rewrite (sr_table _ _ _ Hr).
  eapply (for_table_spec _ (fun h' arg' es o' => o' = o /\
    fold_while f (str <$> entries t) arg = fold_while f (str <$> es) arg') _ (feet t)).
  - intros h' e es s o' [-> Hfold]. rewrite fmap_cons in Hfold. cbn [fold_while] in Hfold.
    destruct (f (str e) s) as [[] s']; wp; (split; [done|done]).
  - intros h' s o' [-> Hfold]. by wp.
  - apply Hr.
  - done.
  - done.
Qed.

(** The list holds copies of the strings, in that order. *)
Lemma stringmap_tolist_spec h hs sm t o :
  sm_rep h sm t -> Forall (fun e => zlen (str e) < PTRDIFF_MAX) (entries t) ->
  wp (stringmap_tolist h hs sm) o (fun '(r, hs') o' =>
    (o = [] -> is_Some r) /\
    match r with
    | None => hs' = hs
    | Some l => exists ls c, islist hs' l ls (str <$> entries t) c /\ only (l :: ls) hs hs'
    end).
Proof.
  intros Hr Hsmall. unfold stringmap_tolist. wp. apply list_new_spec; [|intros o' Ho; by wp].
  intros l hs1 o1 Hfree Hl Honly Ho1. wp. rewrite (sr_table _ _ _ Hr).
  eapply (for_table_spec _ (fun h' hs' es o' => (o = [] -> o' = []) /\ exists don ls c,
    str <$> entries t = don ++ (str <$> es) /\ Forall (fun e => zlen (str e) < PTRDIFF_MAX) es /\
    islist hs' l ls don c /\ cache_ok l ls c /\ only (l :: ls) hs hs' /\
    forall k, k ∈ l :: ls -> hs !! k = None) _ (feet t)).
  - intros h' e es hs' o' (Hnil & don & ls & c & Hes & [He Hsm]%Forall_cons & Hl' & Hc & Hon & Hno).
    assert (Hfail : forall o3, o <> [] -> wp
      (let* (_, hs3) := list_free hs' (Some l) (Some (fun _ u => u)) tt in ret (None, hs3)) o3
      (fun '(r, hs'') _ => (o = [] -> is_Some r) /\
        match r with None => hs'' = hs | Some l => exists ls c, islist hs'' l ls (str <$> entries t) c /\ only (l :: ls) hs hs'' end)).
    { intros o3 Hne. apply wp_bind. eapply wp_mono; [by eapply list_free_spec|].
      intros [u hs3] o4 (_ & [Hgone Hon3] & _). wp. split; [done|]. apply map_eq. intros k.
      destruct (decide (k ∈ l :: ls)); [by rewrite Hgone, Hno|]. by rewrite Hon3, Hon. }
    wp. apply wp_alloc_ok. intros b o2 _ Hb. destruct b; cbn [negb]; wp.
    2:{ split; [done|]. cbn [negb]. apply Hfail. intros ->. destruct (Hb (Hnil eq_refl)) as [_ E].
        symmetry in E. apply Z.leb_gt in E. lia. }
    assert (Ho2 : o = [] -> o2 = []) by (intros ->; by destruct (Hb (Hnil eq_refl))).
    eapply wp_mono; [by eapply list_add_spec|].
    intros [r hs2] o3 [(-> & (n & Hn & Hl2 & Hon2) & Ho3)|(-> & -> & Hne)]; wp; (split; [done|]).
    + split; [auto|]. exists (don ++ [str e]), (ls ++ [n]), (Cached n). split_and!; try done.
      * by rewrite Hes, <-app_assoc.
      * unfold cache_ok. destruct (ls ++ [n]) eqn:E; [by destruct ls|]. by rewrite <-E, end_of_snoc.
      * intros k Hk. rewrite Hon2 by set_solver. apply Hon. set_solver.
      * intros k Hk. assert (k = n \/ k ∈ l :: ls) as [-> | ?] by set_solver; [|by apply Hno].
        destruct (decide (n ∈ l :: ls)); [by apply Hno|]. by rewrite <-Hon.
    + apply Hfail. intros Ho. by apply Hne, Ho2.
  - intros h' hs' o' (Hnil & don & ls & c & Hes & _ & Hl' & _ & Hon & _). wp. split; [by eexists|].
    exists ls, c. cbn in Hes. rewrite app_nil_r in Hes. by rewrite Hes.
  - apply Hr.
  - done.
  - split; [done|]. exists [], [], Null. split_and!; try done; [by left|].
    intros k ->%list_elem_of_singleton. done.
Qed.

(** [stringmap_subset] makes the difference of two maps, and
    [stringmap_tolist] of the result the list of its strings; when memory runs
    out they leave nothing behind, and the two maps are never changed. *)
Theorem stringmap_difference h hs sm1 sm2 t1 t2 o :
  sm_rep h sm1 t1 -> sm_rep h sm2 t2 -> zlen (entries t1) < 2 ^ 64 ->
  nelem sm1 * 8 <= PTRDIFF_MAX -> Forall (fun e => zlen (str e) < PTRDIFF_MAX) (entries t1) ->
  wp (stringmap_subset h sm1 sm2) o (fun '(r, h') o' =>
    (o = [] -> is_Some r) /\ (r = None -> h' = h) /\ sm_rep h' sm1 t1 /\ sm_rep h' sm2 t2 /\
    forall sm, r = Some sm ->
      wp (stringmap_tolist h' hs sm) o' (fun '(q, hs') _ =>
        (o' = [] -> is_Some q) /\ (q = None -> hs' = hs) /\
        forall l, q = Some l -> exists ls ss c, islist hs' l ls ss c /\ NoDup ss /\
          forall s, s ∈ ss <-> s ∈ str <$> entries t1 /\ s ∉ str <$> entries t2)).
Proof.
  intros Hr1 Hr2 Hlen Hn8 Hsmall. eapply wp_mono; [by apply stringmap_subset_spec|].
  intros [r h'] o' (Hnil & Hnone & Hsome). split; [done|]. split; [done|].
  assert (Hsame : forall k, k ∈ feet t1 ++ feet t2 -> h' !! k = h !! k).
  { intros k Hk. destruct r as [sm|]; [|by rewrite Hnone].
    destruct (Hsome sm eq_refl) as (t & _ & Hev & _). eapply evolves_old; [exact Hev|apply empty_table|].
    apply elem_of_app in Hk as [Hk|Hk]; (eapply in_heap_in; [|exact Hk]); [apply Hr1|apply Hr2]. }
  split; [apply (sm_rep_frame h); [done|set_solver]|]. split; [apply (sm_rep_frame h); [done|set_solver]|].
  intros sm Hsm. destruct (Hsome sm Hsm) as (t & Hr & _ & Hin).
  eapply wp_mono; [apply (stringmap_tolist_spec h' hs sm t); [done|]|].
  - apply Forall_forall. intros e He. rewrite list.Forall_forall in Hsmall.
    assert (Hs : str e ∈ str <$> entries t) by by apply list_elem_of_fmap_2.
    apply Hin in Hs as [(e' & -> & He')%list_elem_of_fmap _]. by apply Hsmall.
  - intros [q hs'] o2 [Hq Hl]. split; [done|]. split; [by intros ->|]. intros l ->.
    destruct Hl as (ls & c & Hl & _). exists ls, (str <$> entries t), c. split; [done|].
    split; [apply Hr|done].
Qed.

Lemma stringmap_difference_witness :
  wp (stringmap_subset demo_heap demo_map (StringMap 1 [None] 0)) [true; true; true; false] (fun '(r, h') o' =>
    ([true; true; true; false] = [] -> is_Some r) /\ (r = None -> h' = demo_heap) /\
    sm_rep h' demo_map demo_table /\ sm_rep h' (StringMap 1 [None] 0) [Slot None [] []] /\
    forall sm, r = Some sm ->
      wp (stringmap_tolist h' ∅ sm) o' (fun '(q, hs') _ =>
        (o' = [] -> is_Some q) /\ (q = None -> hs' = ∅) /\
        forall l, q = Some l -> exists ls ss c, islist hs' l ls ss c /\ NoDup ss /\
          forall s, s ∈ ss <-> s ∈ str <$> entries demo_table /\ s ∉ str <$> entries [Slot None [] []])).
Proof.
  apply (stringmap_difference demo_heap ∅ demo_map (StringMap 1 [None] 0) demo_table [Slot None [] []]).
  - apply demo_rep.
  - constructor; try done; repeat constructor. intros [|i] sl Hsl; [|done]. by injection Hsl as <-.
  - by vm_compute.
  - by vm_compute.
  - repeat constructor.
Defined.
