(* ===== verification/Cache.v ===== *)
(** Cache: the cache of meta/src/meta_cache.c, a hash table of lists (ListTable)
    with a hotlist of the entries used last.

    An entry is written before it enters a list and does not change until it is
    freed, so that the payload of a node is the entry itself; its data is not
    NULL.  [free] of the data is recorded in a log.  What [rand] returns is a
    parameter: the list of its results.

    [cache_is_map] shows that the cache is a finite map that owns its data;
    [cache_unbounded] that it never evicts anything, because [current_bytes] is
    never increased; [cache_hotlist] what the hotlist holds. *)

From Stdlib Require Import ZArith Lia.
From stdpp Require Import base list numbers gmap sets.
From S2P Require Import Prelude Client MetaList MetaListLoops ListTable.

#[local] Arguments load : simpl never.
#[local] Arguments store : simpl never.

Section Cache.
Context {A : Type}.

(** [used] is never set or read. *)
Record cache_entry : Type := CacheEntry { id : Z; edata : A; esize : Z; pinned : bool }.

Record cache : Type := Cache {
  max_bytes : Z;
  current_bytes : Z;
  nelem : Z;
  hashtable : list (option loc);
  hotlist : list Z;
  hotlist_nelem : Z;
}.

Definition set_hashtable (t : list (option loc)) (c : cache) : cache :=
  Cache (max_bytes c) (current_bytes c) (nelem c) t (hotlist c) (hotlist_nelem c).
Definition set_hotlist (l : list Z) (c : cache) : cache :=
  Cache (max_bytes c) (current_bytes c) (nelem c) (hashtable c) l (hotlist_nelem c).

Definition sizeof_cache : Z := 48.
Definition sizeof_cache_entry : Z := 40.

Abbreviation heap := (gmap loc (node cache_entry)).
Abbreviation slot := (ListTable.slot (A := cache_entry)).

Definition cache_new (n hotlist_n cb : Z) : C (option cache) :=
  c_assert (0 <? cb);;
  let* ok := alloc_ok sizeof_cache in
  if negb ok then ret None
  else
    let* ok := alloc_ok (n * 8) in
    if negb ok then ret None
    else
      let* ok := alloc_ok (hotlist_n * 8) in
      ret (if ok : bool
           then Some (Cache cb 0 n (replicate (Z.to_nat n) None) (replicate (Z.to_nat hotlist_n) 0) hotlist_n)
           else None).

Definition cache_entry_free (p : cache_entry) (log : list A) : list A := log ++ [edata p].

(** [cleanup] takes the data of a whole list first; [cache_entry_freev] then
    finds null pointers. *)
Fixpoint free_loop (t : list (option loc)) (h : heap) (log : list A) : C (list A * heap) :=
  match t with
  | [] => ret (log, h)
  | None :: t => free_loop t h log
  | Some lst :: t =>
      let* li := lift (list_first h (Some lst)) in
      let* (_, log, h) := for_nodes (pass h) h li log (fun h n log =>
        let* entry := lift (payload n) in ret (true, log ++ [edata entry], h)) in
      let* (_, h) := list_free h (Some lst) (Some (fun _ u => u)) tt in
      free_loop t h log
  end.

Definition cache_free (h : heap) (c : option cache) (log : list A) : C (list A * heap) :=
  match c with None => ret (log, h) | Some c => free_loop (hashtable c) h log end.

(** * The hotlist *)

Definition on_hotlist (c : cache) (i : Z) : bool := existsb (Z.eqb i) (hotlist c).

(** [memmove(&l[dst], &l[src], n * sizeof *l)] *)
Definition move (l : list Z) (dst src n : Z) : res (list Z) :=
  if (0 <=? n) && (src + n <=? zlen l) && (dst + n <=? zlen l)
  then Ret (take (Z.to_nat dst) l ++ take (Z.to_nat n) (drop (Z.to_nat src) l) ++ drop (Z.to_nat (dst + n)) l)
  else Fault OutOfBounds.

Definition store_at (l : list Z) (i x : Z) : res (list Z) :=
  if (0 <=? i) && (i <? zlen l) then Ret (<[Z.to_nat i := x]> l) else Fault OutOfBounds.

(** The index of the first cell with [i]. *)
Fixpoint index_of (i : Z) (l : list Z) : option nat :=
  match l with
  | [] => None
  | x :: l => if x =? i then Some O else S <$> index_of i l
  end.

Definition add_to_hotlist (c : cache) (i : Z) : res cache :=
  match hotlist c with
  | [] => Fault OutOfBounds
  | x :: _ =>
      if x =? i then Ret c
      else
        let+ l :=
          match index_of i (hotlist c) with
          | Some n => move (hotlist c) 1 0 (Z.of_nat n - 1)
          | None => move (hotlist c) 1 0 (hotlist_nelem c - 1)
          end in
        let+ l := store_at l 0 i in
        Ret (set_hotlist l c)
  end.

Definition remove_from_hotlist (c : cache) (i : Z) : res cache :=
  match index_of i (hotlist c) with
  | None => Ret c
  | Some n =>
      let n := Z.of_nat n in
      let+ l := if negb (n + 1 =? hotlist_nelem c)
                then move (hotlist c) n (n + 1) (hotlist_nelem c - n - 1)
                else Ret (hotlist c) in
      let+ l := store_at l (hotlist_nelem c - 1) 0 in
      Ret (set_hotlist l c)
  end.

(** * Entries *)

(** [id % nelem]; a division by zero ends the program. *)
Definition hash_id (c : cache) (i : Z) : res nat :=
  if nelem c =? 0 then Fault Died else Ret (Z.to_nat (i mod nelem c)).

Definition cell (c : cache) (hid : nat) : res (option loc) :=
  match hashtable c !! hid with Some r => Ret r | None => Fault OutOfBounds end.

Definition find_entry (h : heap) (c : cache) (i : Z) : res (option loc) :=
  let+ hid := hash_id c i in
  let+ r := cell c hid in
  match r with
  | None => Ret None
  | Some lst =>
      let+ it := list_first h (Some lst) in find_loop (pass h) h it (fun entry => id entry =? i)
  end.

Definition cache_exists (h : heap) (c : cache) (i : Z) : res bool :=
  let+ it := find_entry h c i in Ret (negb (list_end it)).

(** The data and its size; [None] for failure. *)
Definition cache_get (h : heap) (c : cache) (i : Z) : res (option (A * Z) * cache) :=
  let+ it := find_entry h c i in
  if list_end it then Ret (None, c)
  else
    let+ entry := list_get h it in
    let+ c := add_to_hotlist c (id entry) in
    Ret (Some (edata entry, esize entry), c).

(** An error, or success, and the log. *)
Definition cache_remove (h : heap) (c : cache) (i : Z) (log : list A)
    : res (option errno * cache * heap * list A) :=
  let+ it := find_entry h c i in
  if list_end it then Ret (Some ENOENT, c, h, log)
  else
    let+ hid := hash_id c i in
    let+ r := cell c hid in
    match r with
    | None => Fault AssertFailed
    | Some lst =>
        let+ there := cache_exists h c i in
        r_assert there;;
        let+ (_, log, h) := list_delete h lst it cache_entry_free log in
        let+ c := remove_from_hotlist c i in
        Ret (None, c, h, log)
    end.

(** [for (i = list_first(...); ...)]: the iterator steps on from the entry, also
    when the entry was removed. *)
Fixpoint evict_loop (fuel : nat) (h : heap) (c : cache) (it : option loc) (log : list A)
    : res (option errno * cache * heap * list A) :=
  if list_end it then Ret (None, c, h, log)
  else
    match fuel with
    | O => Fault FuelOut
    | S fuel =>
        let+ entry := list_get h it in
        let+ (e, c, h, log) :=
          if negb (on_hotlist c (id entry)) && negb (pinned entry)
          then cache_remove h c (id entry) log
          else Ret (None, c, h, log) in
        match e with
        | Some _ => Ret (e, c, h, log)
        | None => let+ it := list_next h it in evict_loop fuel h c it log
        end
    end.

(** [rands]: what [rand] returns, call after call. *)
Fixpoint space_loop (rands : list Z) (h : heap) (c : cache) (cb : Z) (log : list A)
    : res (option errno * cache * heap * list A) :=
  if u64 (current_bytes c + cb) <=? max_bytes c then Ret (None, c, h, log)
  else
    match rands with
    | [] => Fault FuelOut
    | r :: rands =>
        let+ hid := hash_id c r in
        let+ lst := cell c hid in
        match lst with
        | None => space_loop rands h c cb log
        | Some _ =>
            let+ it := list_first h lst in
            let+ (e, c, h, log) := evict_loop (pass h) h c it log in
            match e with
            | Some _ => Ret (e, c, h, log)
            | None => space_loop rands h c cb log
            end
        end
    end.

Definition make_space (rands : list Z) (h : heap) (c : cache) (cb : Z) (log : list A)
    : res (option errno * cache * heap * list A) :=
  if max_bytes c <? cb then Ret (Some ENOSPC, c, h, log) else space_loop rands h c cb log.

(** Failure with the [errno] that was set: [Some ENOMEM] stands for the one that
    [malloc] sets. A duplicate ends the program. *)
Definition cache_add (rands : list Z) (h : heap) (c : cache) (i : Z) (d : A) (cb : Z) (pin : bool)
    (log : list A) : C (option errno * cache * heap * list A) :=
  let* hid := lift (hash_id c i) in
  let* (e, c, h, log) := lift (make_space rands h c cb log) in
  match e with
  | Some _ => ret (e, c, h, log)
  | None =>
      let* ok := alloc_ok sizeof_cache_entry in
      if negb ok then ret (Some ENOMEM, c, h, log)
      else
        let entry := CacheEntry i d cb pin in
        let* dup := lift (cache_exists h c i) in
        if dup : bool then lift (Fault Died)
        else
          let* r := lift (cell c hid) in
          let* (lst, c, h) :=
            match r with
            | Some lst => ret (Some lst, c, h)
            | None =>
                let* (l, h) := list_new h in
                ret (l, set_hashtable (<[hid := l]> (hashtable c)) c, h)
            end in
          match lst with
          | None => ret (Some ENOMEM, c, h, log)
          | Some _ =>
              let* (r, h) := list_add h lst entry in
              ret (match r with None => Some ENOMEM | Some _ => None end, c, h, log)
          end
  end.

(** * The hotlist *)

Lemma index_of_spec i l :
  match index_of i l with
  | None => i ∉ l
  | Some n => exists a b, l = a ++ i :: b /\ length a = n /\ i ∉ a
  end.
Proof.
  induction l as [|x l IH]; cbn; [apply not_elem_of_nil|].
  destruct (Z.eqb_spec x i) as [->|Hne]; [exists [], l; split_and!; try done; apply not_elem_of_nil|].
  destruct (index_of i l) as [n|]; cbn.
  - destruct IH as (a & b & -> & <- & Ha). exists (x :: a), b. split_and!; try done. set_solver.
  - set_solver.
Qed.

(** Moving the front of a list one cell back. *)
Lemma move_back x l a y b :
  x :: l = a ++ y :: b -> move (x :: l) 1 0 (zlen a) = Ret (x :: a ++ b).
Proof.
  intros E. unfold move. zlen_facts.
  rewrite !(proj2 (andb_true_iff _ _)) by (rewrite E, ?zlen_app, ?zlen_cons; zlen_facts;
    repeat split; apply Z.leb_le || apply andb_true_iff; try split; try apply Z.leb_le; lia).
  change (take (Z.to_nat 1) (x :: l)) with [x]. change (drop (Z.to_nat 0) (x :: l)) with (x :: l).
  unfold zlen. rewrite Nat2Z.id, E, take_app_length, drop_app_ge by lia.
  by replace (Z.to_nat (1 + Z.of_nat (length a)) - length a)%nat with 1%nat by lia.
Qed.

Lemma store_head x l i : store_at (x :: l) 0 i = Ret (i :: l).
Proof. unfold store_at. rewrite zlen_cons. zlen_facts. by rewrite (proj2 (Z.ltb_lt _ _)) by lia. Qed.

(** What the hotlist becomes: when [i] was in the list, the cell in front of it
    is lost, because [i - 1] cells are moved where [i] are in the way. *)
Definition hot_add (i : Z) (l : list Z) : list Z :=
  match index_of i l with
  | Some O => l
  | Some n => i :: take (n - 1) l ++ drop n l
  | None => i :: take (length l - 1) l
  end.

Lemma hot_add_length i l : l <> [] -> length (hot_add i l) = length l.
Proof.
  intros Hl. unfold hot_add. pose proof (index_of_spec i l) as Hi. destruct (index_of i l) as [[|n]|]; [done| |].
  - destruct Hi as (a & b & -> & Ha & _). cbn [length]. rewrite !length_app, length_take, length_drop, length_app. cbn. lia.
  - destruct l; [done|]. cbn [length]. rewrite length_take. cbn. lia.
Qed.

Lemma add_to_hotlist_spec c i :
  zlen (hotlist c) = hotlist_nelem c -> 0 < hotlist_nelem c ->
  add_to_hotlist c i = Ret (set_hotlist (hot_add i (hotlist c)) c).
Proof.
  intros Hlen Hpos. unfold add_to_hotlist, hot_add.
  destruct (hotlist c) as [|x l] eqn:Eh; [rewrite zlen_nil in Hlen; lia|]. cbn [index_of].
  destruct (Z.eqb_spec x i) as [->|Hne]; [rewrite <-Eh; by destruct c|].
  pose proof (index_of_spec i l) as Hi. destruct (index_of i l) as [n|]; cbn [fmap option_fmap option_map].
  - destruct Hi as (a & b & -> & <- & Ha). set (q := x :: a ++ i :: b).
    assert (exists p y, x :: a = p ++ [y] /\ length p = length a) as (p & y & Hp & Hpl).
    { destruct (exists_last (l := x :: a)) as (p & y & E); [done|]. exists p, y. split; [done|].
      apply (f_equal length) in E. rewrite length_app in E. cbn in E. lia. }
    assert (Hq : q = p ++ y :: i :: b) by (unfold q; rewrite app_comm_cons, Hp, <-app_assoc; done).
    replace (Z.of_nat (S (length a)) - 1) with (zlen p) by (unfold zlen; lia).
    unfold q in Hq at 1. unfold q at 1. rewrite (move_back _ _ _ _ _ Hq). cbn [res_bind].
    rewrite store_head. cbn [res_bind]. fold q in Hq. rewrite Hq.
    replace (S (length a) - 1)%nat with (length p) by lia. rewrite take_app_length.
    rewrite drop_app_ge by lia. by replace (S (length a) - length p)%nat with 1%nat by lia.
  - destruct (exists_last (l := x :: l)) as (p & y & E); [done|].
    assert (Hpl : length (x :: l) = S (length p)) by (rewrite E, length_app; cbn; lia).
    replace (hotlist_nelem c - 1) with (zlen p) by (rewrite <-Hlen; unfold zlen; lia).
    rewrite (move_back _ _ _ _ _ E). cbn [res_bind]. rewrite store_head. cbn [res_bind].
    rewrite Hpl, app_nil_r, E. replace (S (length p) - 1)%nat with (length p) by lia. by rewrite take_app_length.
Qed.

Lemma remove_from_hotlist_ok c i :
  zlen (hotlist c) = hotlist_nelem c ->
  exists l, remove_from_hotlist c i = Ret (set_hotlist l c) /\ zlen l = zlen (hotlist c).
Proof.
  intros Hlen. unfold remove_from_hotlist. pose proof (index_of_spec i (hotlist c)) as Hi.
  destruct (index_of i (hotlist c)) as [n|]; [|exists (hotlist c); by destruct c].
  destruct Hi as (a & b & E & <- & _). rewrite <-Hlen.
  assert (Hst : forall l, zlen l = zlen (hotlist c) -> exists l',
    store_at l (zlen (hotlist c) - 1) 0 = Ret l' /\ zlen l' = zlen (hotlist c)).
  { intros l Hl. unfold store_at. rewrite Hl, E, zlen_app, zlen_cons. zlen_facts.
    rewrite (proj2 (andb_true_iff _ _)) by (split; [apply Z.leb_le|apply Z.ltb_lt]; lia).
    eexists. split; [done|]. unfold zlen in *. rewrite length_insert. rewrite E in Hl. rewrite Hl.
    rewrite length_app. cbn. lia. }
  destruct (Z.eqb_spec (Z.of_nat (length a) + 1) (zlen (hotlist c))) as [|Hne]; cbn [negb res_bind].
  - destruct (Hst (hotlist c) eq_refl) as (l' & -> & Hl'). cbn [res_bind]. by exists l'.
  - assert (exists l, move (hotlist c) (Z.of_nat (length a)) (Z.of_nat (length a) + 1)
        (zlen (hotlist c) - Z.of_nat (length a) - 1) = Ret l /\ zlen l = zlen (hotlist c)) as (l & -> & Hl).
    { unfold move. assert (Z.of_nat (length a) + 1 <= zlen (hotlist c)) by (rewrite E, zlen_app, zlen_cons; zlia).
      rewrite !(proj2 (andb_true_iff _ _)) by (repeat split; apply Z.leb_le || apply andb_true_iff;
        try split; try apply Z.leb_le; lia).
      eexists. split; [done|]. unfold zlen in *. rewrite !length_app, !length_take, !length_drop. lia. }
    cbn [res_bind]. destruct (Hst l Hl) as (l' & -> & Hl'). cbn [res_bind]. by exists l'.
Qed.

(** * The cache in the heap *)

(** The entry is in the cell of its number. *)
Definition entry_at (n : Z) (i : nat) (e : cache_entry) : Prop := Z.to_nat (id e mod n) = i.

Record cache_rep (h : heap) (c : cache) (t : list slot) : Prop := mkCacheRep {
  cr_table : hashtable c = sl_list <$> t;
  cr_nelem : zlen t = nelem c /\ 0 < nelem c;
  cr_heap : in_heap h t;
  cr_items : placed (entry_at (nelem c)) t;
  cr_ids : NoDup (id <$> entries t);
  cr_bytes : current_bytes c = 0 /\ 0 < max_bytes c < 2 ^ 64;
  cr_hot : zlen (hotlist c) = hotlist_nelem c /\ 0 < hotlist_nelem c;
}.

Lemma hotlist_rep h c t l :
  cache_rep h c t -> zlen l = zlen (hotlist c) -> cache_rep h (set_hotlist l c) t.
Proof. intros [? ? ? ? ? ? [Hl ?]] Hlen. constructor; try done. cbn. by rewrite Hlen. Qed.

Lemma hash_id_spec h c t i :
  cache_rep h c t -> exists t1 sl t2, t = t1 ++ sl :: t2 /\ hash_id c i = Ret (length t1) /\
    length t1 = Z.to_nat (i mod nelem c).
Proof.
  intros Hr. destruct (cr_nelem _ _ _ Hr) as [Hn Hp]. pose proof (Z.mod_pos_bound i (nelem c) Hp).
  destruct (table_split t (Z.to_nat (i mod nelem c))) as (t1 & sl & t2 & -> & Hlen); [unfold zlen in Hn; lia|].
  exists t1, sl, t2. split; [done|]. split; [|done]. unfold hash_id.
  by rewrite (proj2 (Z.eqb_neq _ _)), Hlen by lia.
Qed.

Lemma cell_spec h c t1 sl t2 :
  cache_rep h c (t1 ++ sl :: t2) -> cell c (length t1) = Ret (sl_list sl).
Proof. intros Hr. unfold cell. by rewrite (cr_table _ _ _ Hr), table_lookup. Qed.

Lemma entries_here h c t1 sl t2 i :
  cache_rep h c (t1 ++ sl :: t2) -> length t1 = Z.to_nat (i mod nelem c) ->
  i ∈ id <$> entries (t1 ++ sl :: t2) <-> i ∈ id <$> sl_items sl.
Proof.
  intros Hr Hlen. rewrite !list_elem_of_fmap. split; intros (e & He & Hin); exists e; (split; [done|]);
    apply (placed_here _ _ _ _ e (cr_items _ _ _ Hr)); try done;
    intros j <-; by rewrite Hlen, He.
Qed.

Lemma find_entry_spec h c t i :
  cache_rep h c t ->
  (find_entry h c i = Ret None /\ i ∉ id <$> entries t) \/
  exists t1 l ls1 k ls2 xs1 e xs2 t2, find_entry h c i = Ret (Some k) /\
    t = t1 ++ Slot (Some l) (ls1 ++ k :: ls2) (xs1 ++ e :: xs2) :: t2 /\ length ls1 = length xs1 /\
    hash_id c i = Ret (length t1) /\ list_get h (Some k) = Ret e /\ id e = i.
Proof.
  intros Hr. destruct (hash_id_spec _ _ _ i Hr) as (t1 & sl & t2 & -> & Hid & Hlen).
  rewrite (entries_here _ _ _ _ _ _ Hr Hlen). unfold find_entry. rewrite Hid. cbn [res_bind].
  rewrite (cell_spec _ _ _ _ _ Hr). cbn [res_bind]. pose proof (cr_heap _ _ _ Hr) as Hh.
  destruct (sl_list sl) as [l|] eqn:El.
  2:{ left. apply in_heap_slot in Hh. unfold slot_ok in Hh. rewrite El in Hh. destruct Hh as [_ ->].
      split; [done|]. apply not_elem_of_nil. }
  destruct (slot_find_spec h t1 sl t2 l (fun e => id e =? i) Hh El) as (it & -> & [[Hf Hnone]|Hsome]); cbn [res_bind].
  - left. split; [done|]. intros (e & -> & He)%list_elem_of_fmap.
    pose proof (proj1 (list.Forall_forall _ _) Hnone e He) as Hne. cbn in Hne. by rewrite Z.eqb_refl in Hne.
  - destruct Hsome as (ls1 & k & ls2 & xs1 & e & xs2 & Hf & -> & Hls & Hget & He).
    apply Z.eqb_eq in He. right. by exists t1, l, ls1, k, ls2, xs1, e, xs2, t2.
Qed.

(** What the cache holds for each number. *)
Definition contents (t : list slot) : gmap Z (A * Z) :=
  list_to_map ((fun e => (id e, (edata e, esize e))) <$> entries t).

(** The data in the cache. *)
Definition items (t : list slot) : list A := edata <$> entries t.

Lemma contents_keys t : (fst <$> ((fun e => (id e, (edata e, esize e))) <$> entries t)) = id <$> entries t.
Proof. by rewrite <-list_fmap_compose. Qed.

Lemma contents_absent t i : i ∉ id <$> entries t -> contents t !! i = None.
Proof. intros Hi. apply not_elem_of_list_to_map. by rewrite contents_keys. Qed.

Lemma contents_perm t es :
  NoDup (id <$> entries t) -> entries t ≡ₚ es ->
  contents t = list_to_map ((fun e => (id e, (edata e, esize e))) <$> es).
Proof.
  intros Hnd Hp. apply list_to_map_proper; [by rewrite contents_keys|]. by rewrite Hp.
Qed.

Lemma entries_middle t1 l ls1 k ls2 xs1 e xs2 t2 :
  entries (t1 ++ Slot (Some l) (ls1 ++ k :: ls2) (xs1 ++ e :: xs2) :: t2) ≡ₚ
  e :: entries (t1 ++ Slot (A := cache_entry) (Some l) (ls1 ++ ls2) (xs1 ++ xs2) :: t2).
Proof. unfold entries. rewrite !bind_middle. cbn. rewrite <-Permutation_middle. done. Qed.

Lemma cache_exists_spec h c t i :
  cache_rep h c t -> cache_exists h c i = Ret (bool_decide (is_Some (contents t !! i))).
Proof.
  intros Hr. unfold cache_exists.
  destruct (find_entry_spec _ _ _ i Hr) as [[-> Hn]|(t1 & l & ls1 & k & ls2 & xs1 & e & xs2 & t2 & -> & -> & _ & _ & _ & <-)].
  - by rewrite (contents_absent _ _ Hn).
  - rewrite (contents_perm _ _ (cr_ids _ _ _ Hr) (entries_middle _ _ _ _ _ _ _ _ _)). cbn.
    rewrite lookup_insert_eq. done.
Qed.

Lemma cache_get_spec h c t i :
  cache_rep h c t ->
  exists c', cache_get h c i = Ret (contents t !! i, c') /\ cache_rep h c' t /\
    max_bytes c' = max_bytes c /\ c' = set_hotlist (match contents t !! i with Some _ => hot_add i (hotlist c) | None => hotlist c end) c.
Proof.
  intros Hr. unfold cache_get.
  destruct (find_entry_spec _ _ _ i Hr) as [[-> Hn]|(t1 & l & ls1 & k & ls2 & xs1 & e & xs2 & t2 & -> & -> & _ & _ & Hget & <-)];
    cbn [res_bind list_end].
  - rewrite (contents_absent _ _ Hn). exists c. split; [done|]. split; [done|]. split; [done|]. by destruct c.
  - rewrite Hget. cbn [res_bind]. destruct (cr_hot _ _ _ Hr) as [Hl Hpos].
    rewrite add_to_hotlist_spec by done. cbn [res_bind].
    rewrite (contents_perm _ _ (cr_ids _ _ _ Hr) (entries_middle _ _ _ _ _ _ _ _ _)). cbn.
    rewrite lookup_insert_eq. eexists. split; [done|]. split; [|done]. apply hotlist_rep; [done|].
    unfold zlen in *. rewrite hot_add_length; [done|]. intros E. rewrite E in Hl. cbn in Hl. lia.
Qed.

(** [make_space] only compares: [current_bytes] stays 0, so that there is always
    space for what fits in the cache at all. *)
Lemma make_space_spec rands h c t cb log :
  cache_rep h c t -> 0 <= cb < 2 ^ 64 ->
  make_space rands h c cb log = Ret (if max_bytes c <? cb then Some ENOSPC else None, c, h, log).
Proof.
  intros Hr Hcb. destruct (cr_bytes _ _ _ Hr) as [Hcur Hmax]. unfold make_space.
  destruct (Z.ltb_spec (max_bytes c) cb); [done|].
  assert ((u64 (current_bytes c + cb) <=? max_bytes c) = true) as Hle
    by (rewrite Hcur, u64_small by lia; apply Z.leb_le; lia).
  destruct rands; cbn [space_loop]; by rewrite Hle.
Qed.

Lemma rep_change h c t1 sl t2 h' sl' :
  cache_rep h c (t1 ++ sl :: t2) -> in_heap h' (t1 ++ sl' :: t2) ->
  Forall (entry_at (nelem c) (length t1)) (sl_items sl') ->
  NoDup (id <$> entries (t1 ++ sl' :: t2)) ->
  cache_rep h' (set_hashtable (<[length t1 := sl_list sl']> (hashtable c)) c) (t1 ++ sl' :: t2).
Proof.
  intros [Ht [Hn Hp] Hh Hi Hid Hb Hhot] Hh' Hsl Hnd. constructor; cbn; try done.
  - rewrite Ht. apply table_insert.
  - unfold zlen in *. rewrite length_app in *. cbn in *. lia.
  - by eapply placed_update.
Qed.

Lemma rep_same_cell h c t1 sl t2 l :
  cache_rep h c (t1 ++ sl :: t2) -> sl_list sl = Some l ->
  set_hashtable (<[length t1 := Some l]> (hashtable c)) c = c.
Proof.
  intros Hr Hl. rewrite list_insert_id; [by destruct c|].
  rewrite (cr_table _ _ _ Hr), <-Hl. apply table_lookup.
Qed.

Lemma cache_remove_spec h c t i log :
  cache_rep h c t ->
  exists c' h' t', cache_rep h' c' t' /\ evolves h t h' t' /\ contents t' = delete i (contents t) /\
    items t ≡ₚ match contents t !! i with Some (d, _) => [d] | None => [] end ++ items t' /\
    max_bytes c' = max_bytes c /\
    cache_remove h c i log = Ret (match contents t !! i with Some _ => None | None => Some ENOENT end, c', h',
      match contents t !! i with Some (d, _) => log ++ [d] | None => log end).
Proof.
  intros Hr. unfold cache_remove. pose proof (cache_exists_spec _ _ _ i Hr) as Hex.
  destruct (find_entry_spec _ _ _ i Hr) as [[-> Hn]|(t1 & l & ls1 & k & ls2 & xs1 & e & xs2 & t2 & -> & -> & Hls & Hid & Hget & <-)];
    cbn [res_bind list_end].
  { exists c, h, t. rewrite (contents_absent _ _ Hn). split; [done|]. split; [apply evolves_refl|].
    split; [|done]. by rewrite delete_id by by apply contents_absent. }
  assert (Hit : items (t1 ++ Slot (Some l) (ls1 ++ k :: ls2) (xs1 ++ e :: xs2) :: t2) ≡ₚ
    [edata e] ++ items (t1 ++ Slot (Some l) (ls1 ++ ls2) (xs1 ++ xs2) :: t2)).
  { unfold items. by rewrite entries_middle. }
  rewrite Hid. cbn [res_bind]. rewrite (cell_spec _ _ _ _ _ Hr). cbn [res_bind sl_list]. rewrite Hex. cbn [res_bind].
  pose proof (entries_middle t1 l ls1 k ls2 xs1 e xs2 t2) as Hmid.
  pose proof (contents_perm _ _ (cr_ids _ _ _ Hr) Hmid) as Hc. cbn in Hc.
  pose proof (cr_ids _ _ _ Hr) as Hnd. rewrite Hmid in Hnd. apply NoDup_cons in Hnd as [Hne Hnd].
  rewrite Hc, lookup_insert_eq. cbn [bool_decide].
  destruct (wpr_eq _ _ (slot_delete_spec h t1 l ls1 k ls2 xs1 e xs2 t2 cache_entry_free log (cr_heap _ _ _ Hr) Hls))
    as ([[it log'] h'] & Hdel & -> & Hh' & Hev).
  unfold guard. rewrite bool_decide_true by by eexists. cbn [res_bind]. rewrite Hdel. cbn [res_bind].
  destruct (remove_from_hotlist_ok c (id e) (proj1 (cr_hot _ _ _ Hr))) as (hl & -> & Hhl). cbn [res_bind].
  set (sl' := Slot (Some l) (ls1 ++ ls2) (xs1 ++ xs2)) in *.
  exists (set_hotlist hl c), h', (t1 ++ sl' :: t2).
  assert (Hr' : cache_rep h' c (t1 ++ sl' :: t2)).
  { erewrite <-(rep_same_cell h c t1 _ t2 l Hr) by done. eapply (rep_change h c t1 _ t2 h' sl' Hr); try done.
    pose proof (placed_at _ _ _ _ (cr_items _ _ _ Hr)) as Hi. cbn in Hi |- *.
    apply Forall_app in Hi as [? [_ ?]%Forall_cons]. by apply Forall_app. }
  split; [by apply hotlist_rep|]. split; [done|]. split; [|done].
  fold (contents (t1 ++ sl' :: t2)). rewrite delete_insert_id; [done|]. by apply contents_absent.
Qed.

(** The entry goes to the end of its list. *)
Lemma add_entry_spec h c t1 sl t2 l e o :
  cache_rep h c (t1 ++ sl :: t2) -> sl_list sl = Some l ->
  length t1 = Z.to_nat (id e mod nelem c) -> contents (t1 ++ sl :: t2) !! id e = None ->
  wp (list_add h (Some l) e) o (fun '(r, h') o' =>
    (o = [] -> o' = [] /\ is_Some r) /\ exists t',
    cache_rep h' c t' /\ evolves h (t1 ++ sl :: t2) h' t' /\
    contents t' = match r with
                  | Some _ => <[id e := (edata e, esize e)]> (contents (t1 ++ sl :: t2))
                  | None => contents (t1 ++ sl :: t2)
                  end /\
    items t' ≡ₚ match r with Some _ => [edata e] | None => [] end ++ items (t1 ++ sl :: t2)).
Proof.
  intros Hr Hl Hlen Hnone. eapply wp_mono; [by apply slot_add_spec; [apply Hr|]|].
  intros [r h'] o' [Ho Hadd]. split; [done|]. destruct r as [k|].
  2:{ subst h'. exists (t1 ++ sl :: t2). split; [done|]. split; [apply evolves_refl|done]. }
  destruct Hadd as [n [Hh' Hev]]. set (sl' := Slot _ _ _) in *. exists (t1 ++ sl' :: t2).
  assert (Hent : entries (t1 ++ sl' :: t2) ≡ₚ e :: entries (t1 ++ sl :: t2)).
  { unfold entries. rewrite !bind_middle. cbn. by rewrite <-Permutation_middle, app_nil_r. }
  assert (Hnd : NoDup (id <$> entries (t1 ++ sl' :: t2))).
  { rewrite Hent. apply NoDup_cons. split; [|apply Hr]. intros Hin. rewrite <-contents_keys in Hin.
    apply not_elem_of_list_to_map in Hnone. done. }
  split; [|split; [done|]].
  - erewrite <-(rep_same_cell h c t1 sl t2 l Hr Hl). apply (rep_change h c t1 sl t2 h' sl' Hr Hh'); [|done].
    cbn. apply Forall_app. split; [apply (placed_at _ _ _ _ (cr_items _ _ _ Hr))|].
    apply Forall_singleton. by unfold entry_at.
  - split; [by rewrite (contents_perm _ _ Hnd Hent)|]. unfold items. by rewrite Hent.
Qed.

(** A cell gets its list. *)
Lemma add_list_spec h c t1 sl t2 o :
  cache_rep h c (t1 ++ sl :: t2) -> sl_list sl = None ->
  wp (list_new h) o (fun '(r, h') o' =>
    (o = [] -> o' = [] /\ is_Some r) /\
    match r with
    | None => h' = h
    | Some l => let sl' := Slot (Some l) [] [] in
        cache_rep h' (set_hashtable (<[length t1 := Some l]> (hashtable c)) c) (t1 ++ sl' :: t2) /\
        evolves h (t1 ++ sl :: t2) h' (t1 ++ sl' :: t2) /\
        contents (t1 ++ sl' :: t2) = contents (t1 ++ sl :: t2) /\ items (t1 ++ sl' :: t2) = items (t1 ++ sl :: t2)
    end).
Proof.
  intros Hr Hl. eapply wp_mono; [by apply slot_new_spec; [apply Hr|]|].
  intros [r h'] o' [Ho Hnew]. split; [done|]. destruct r as [l|]; [|done].
  destruct Hnew as (Hitems & Hh' & Hev). set (sl' := Slot _ _ _) in *.
  assert (He : entries (t1 ++ sl' :: t2) = entries (t1 ++ sl :: t2)).
  { unfold entries. rewrite !bind_app. csimpl. by rewrite Hitems. }
  split; [|split; [done|unfold contents, items; by rewrite He]].
  apply (rep_change h c t1 sl t2 h' sl' Hr Hh'); [constructor|]. rewrite He. apply Hr.
Qed.

Lemma cache_add_spec rands h c t i d cb pin log o :
  cache_rep h c t -> 0 <= cb < 2 ^ 64 -> contents t !! i = None ->
  wp (cache_add rands h c i d cb pin log) o (fun '(e, c', h', log') o' =>
    log' = log /\ max_bytes c' = max_bytes c /\
    (o = [] -> o' = [] /\ e = if max_bytes c <? cb then Some ENOSPC else None) /\
    exists t', cache_rep h' c' t' /\ evolves h t h' t' /\
      if max_bytes c <? cb then e = Some ENOSPC /\ contents t' = contents t /\ items t' ≡ₚ items t
      else match e with
           | None => contents t' = <[i := (d, cb)]> (contents t) /\ items t' ≡ₚ d :: items t
           | Some e => e = ENOMEM /\ contents t' = contents t /\ items t' ≡ₚ items t
           end).
Proof.
  intros Hr Hcb Hnone. unfold cache_add.
  destruct (hash_id_spec _ _ _ i Hr) as (t1 & sl & t2 & -> & Hid & Hlen). rewrite Hid. do 3 wp.
  rewrite (make_space_spec _ _ _ _ _ _ Hr Hcb). cbn [wpr].
  assert (Hfail : forall c' h' t' (o' : oracle), cache_rep h' c' t' -> evolves h (t1 ++ sl :: t2) h' t' ->
    contents t' = contents (t1 ++ sl :: t2) -> items t' ≡ₚ items (t1 ++ sl :: t2) -> max_bytes c' = max_bytes c -> o <> [] -> (max_bytes c <? cb) = false ->
    log = log /\ max_bytes c' = max_bytes c /\
    (o = [] -> o' = [] /\ Some ENOMEM = if max_bytes c <? cb then Some ENOSPC else None) /\
    exists t', cache_rep h' c' t' /\ evolves h (t1 ++ sl :: t2) h' t' /\
      if max_bytes c <? cb
      then Some ENOMEM = Some ENOSPC /\ contents t' = contents (t1 ++ sl :: t2) /\ items t' ≡ₚ items (t1 ++ sl :: t2)
      else ENOMEM = ENOMEM /\ contents t' = contents (t1 ++ sl :: t2) /\ items t' ≡ₚ items (t1 ++ sl :: t2)).
  { intros c' h' t' o' Hr' Hev Hc Hi Hm Hne ->. split; [done|]. split; [done|]. split; [done|]. by exists t'. }
  destruct (max_bytes c <? cb) eqn:Hbig; wp.
  { split; [done|]. split; [done|]. split; [done|]. exists (t1 ++ sl :: t2). split; [done|].
    split; [apply evolves_refl|]. done. }
  apply wp_alloc_ok. intros b o1 _ Hb1. destruct b; cbn [negb]; wp.
  2:{ eapply Hfail; try done; [apply evolves_refl|]. intros Ho. by destruct (Hb1 Ho). }
  rewrite (cache_exists_spec _ _ _ _ Hr), Hnone. cbn [wpr]. rewrite bool_decide_false by by intros [? ?]. wp.
  rewrite (cell_spec _ _ _ _ _ Hr). cbn [wpr].
  assert (Ho1 : o = [] -> o1 = []) by (intros Ho; by destruct (Hb1 Ho)).
  destruct (sl_list sl) as [l|] eqn:Hl; wp.
  - eapply wp_mono; [by eapply (add_entry_spec h c t1 sl t2 l (CacheEntry i d cb pin))|].
    intros [r h'] o2 (Ho2 & t' & Hr' & Hev & Hc & Hi). wp. destruct r as [?|].
    + split; [done|]. split; [done|]. split; [intros Ho; split; [|done]; by apply Ho2, Ho1|]. by exists t'.
    + eapply Hfail; try done. intros Ho. by destruct (Ho2 (Ho1 Ho)) as [_ [? ?]].
  - eapply wp_mono; [by eapply add_list_spec|]. intros [r h1] o2 [Ho2 Hnew]. wp. destruct r as [l|]; wp.
    + destruct Hnew as (Hr1 & Hev1 & Hc1 & Hi1). rewrite <-Hc1 in Hnone.
      eapply wp_mono; [by eapply (add_entry_spec h1 _ t1 (Slot (Some l) [] []) t2 l (CacheEntry i d cb pin) o2 Hr1)|].
      intros [r h'] o3 (Ho3 & t' & Hr' & Hev & Hc & Hi). rewrite Hc1 in Hc. rewrite Hi1 in Hi. wp.
      pose proof (evolves_trans _ _ _ _ _ _ Hev1 Hev) as Hev2. destruct r as [?|].
      * split; [done|]. split; [done|]. split; [intros Ho; split; [|done]; by apply Ho3, Ho2, Ho1|]. by exists t'.
      * eapply Hfail; try done. intros Ho. destruct (Ho2 (Ho1 Ho)) as [-> _]. by destruct (Ho3 eq_refl) as [_ [? ?]].
    + subst h1. rewrite <-Hl. eapply (Hfail _ h (t1 ++ sl :: t2)); try done; [|apply evolves_refl|].
      * pose proof (rep_change h c t1 sl t2 h sl Hr (cr_heap _ _ _ Hr) (placed_at _ _ _ _ (cr_items _ _ _ Hr)) (cr_ids _ _ _ Hr)). done.
      * intros Ho. by destruct (Ho2 (Ho1 Ho)) as [_ [? ?]].
Qed.

(** ** Making and freeing *)

Lemma cache_new_spec n hn cb o :
  0 < n -> 0 < hn -> 0 < cb < 2 ^ 64 ->
  wp (cache_new n hn cb) o (fun r o' =>
    (o = [] -> o' = [] /\ (n * 8 <= PTRDIFF_MAX -> hn * 8 <= PTRDIFF_MAX -> is_Some r)) /\
    forall c, r = Some c -> max_bytes c = cb /\
      forall h, cache_rep h c (replicate (Z.to_nat n) (Slot None [] []))).
Proof.
  intros Hn Hhn Hcb. unfold cache_new. wp.
  apply wp_alloc_ok. intros b o1 _ Hb1. destruct b; cbn [negb]; wp.
  2:{ split; [|done]. intros Ho. by destruct (Hb1 Ho). }
  apply wp_alloc_ok. intros b o2 _ Hb2. destruct b; cbn [negb]; wp.
  2:{ split; [|done]. intros Ho. destruct (Hb1 Ho) as [-> _]. destruct (Hb2 eq_refl) as [-> E].
      split; [done|]. intros Hm _. symmetry in E. apply Z.leb_gt in E. lia. }
  apply wp_alloc_ok. intros b o3 _ Hb3. wp. split.
  { intros Ho. destruct (Hb1 Ho) as [-> _]. destruct (Hb2 eq_refl) as [-> _]. destruct (Hb3 eq_refl) as [-> ->].
    split; [done|]. intros _ Hm. by rewrite (proj2 (Z.leb_le _ _)). }
  intros c Hc. destruct b; [|done]. injection Hc as <-. split; [done|]. intros h.
  destruct (empty_table (A := cache_entry) (Z.to_nat n)) as [Hf He]. constructor; cbn.
  - by rewrite fmap_replicate.
  - rewrite zlen_replicate. lia.
  - split; [by apply Forall_replicate|]. rewrite Hf. constructor.
  - intros i sl Hsl. apply lookup_replicate in Hsl as [-> _]. constructor.
  - rewrite He. constructor.
  - done.
  - rewrite zlen_replicate. lia.
Qed.

Lemma free_loop_spec h t log o :
  in_heap h t ->
  wp (free_loop (sl_list <$> t) h log) o (fun '(log', h') o' =>
    log' = log ++ items t /\ freed (feet t) h h' /\ o' = o).
Proof.
  revert h log. induction t as [|sl t IH]; intros h log [Ht Hnd].
  { cbn. wp. rewrite app_nil_r. split; [done|]. split; [|done]. split; [by intros k ?%elem_of_nil|done]. }
  apply Forall_cons in Ht as [Hsl Ht]. change (feet (sl :: t)) with (foot sl ++ feet t) in *.
  assert (Hit : items (sl :: t) = (edata <$> sl_items sl) ++ items t) by (unfold items, entries; csimpl; by rewrite fmap_app).
  rewrite Hit.
  apply NoDup_app in Hnd as (Hnd1 & Hdis & Hnd2). rewrite fmap_cons. unfold slot_ok in Hsl.
  unfold foot in Hdis |- *. destruct (sl_list sl) as [l|]; cbn [free_loop].
  2:{ destruct Hsl as [_ ->]. by apply IH. }
  destruct Hsl as (c & Hl & _). unfold list_first. apply wp_bind, wp_lift, wpr_bind, wpr_guard; [done|].
  apply wpr_bind. eapply wpr_load; [exact (il_header _ _ _ _ _ Hl)|]. cbn [next wpr]. apply wp_bind.
  eapply (for_nodes_pure _ (fun _ e log => (true, log ++ [edata e]))) with
    (fin := fun es log => (true, log ++ (edata <$> es))).
  - exact Hl.
  - intros. wp. cbn. by wp.
  - intros. by rewrite app_nil_r.
  - intros. by rewrite fmap_cons, <-app_assoc.
  - apply wp_bind. eapply wp_mono; [by eapply list_free_spec|]. intros [u h1] o1 (_ & [Hgone Honly] & ->).
    eapply wp_mono; [apply IH|].
    + apply (in_heap_frame h h1 t); [done|]. intros k Hk. apply Honly. intros ?. by eapply Hdis.
    + intros [log' h'] o' (-> & [Hgone' Honly'] & ->). rewrite <-app_assoc.
      split; [done|]. split; [|done]. split.
      * intros k [Hk|Hk]%elem_of_app; [|by apply Hgone']. rewrite Honly'; [by apply Hgone|]. by apply Hdis.
      * intros k [Hk1 Hk2]%not_elem_of_app. rewrite Honly' by done. by apply Honly.
Qed.

(** * Calls *)

Inductive call : Type :=
| Add (rands : list Z) (i : Z) (d : A) (cb : Z) (pin : bool)
| Get (i : Z)
| Exists' (i : Z)
| Remove (i : Z).

Inductive answer : Type := Error (e : option errno) | Found (r : option (A * Z)) | Yes (b : bool).

Definition perform (s : cache * heap * list A) (k : call) : C (answer * (cache * heap * list A)) :=
  let '(c, h, log) := s in
  match k with
  | Add rands i d cb pin =>
      let* (e, c, h, log) := cache_add rands h c i d cb pin log in ret (Error e, (c, h, log))
  | Get i => let* (r, c) := lift (cache_get h c i) in ret (Found r, (c, h, log))
  | Exists' i => let* b := lift (cache_exists h c i) in ret (Yes b, (c, h, log))
  | Remove i => let* (e, c, h, log) := lift (cache_remove h c i log) in ret (Error e, (c, h, log))
  end.

(** The abstract cache: what it holds, the data it has freed, the data it was
    given. *)
Record astate : Type := AState { held : gmap Z (A * Z); gone : list A; taken : list A }.

(** The same call on it. *)
Definition answers (maxb : Z) (m : astate) (k : call) (a : answer) (m' : astate) : Prop :=
  match k with
  | Add _ i d cb _ =>
      if maxb <? cb then a = Error (Some ENOSPC) /\ m' = m
      else a = Error None /\ m' = AState (<[i := (d, cb)]> (held m)) (gone m) (taken m ++ [d]) \/
           a = Error (Some ENOMEM) /\ m' = m
  | Get i => a = Found (held m !! i) /\ m' = m
  | Exists' i => a = Yes (bool_decide (is_Some (held m !! i))) /\ m' = m
  | Remove i =>
      match held m !! i with
      | None => a = Error (Some ENOENT) /\ m' = m
      | Some (d, _) => a = Error None /\ m' = AState (delete i (held m)) (gone m ++ [d]) (taken m)
      end
  end.

(** Adding a number that is in the cache ends the program. *)
Definition enabled (m : astate) (k : call) : Prop :=
  match k with Add _ i _ cb _ => held m !! i = None /\ 0 <= cb < 2 ^ 64 | _ => True end.

(** The state of the memory, for a cache made in the heap [h0]. *)
Definition refines (h0 : heap) (t0 : list slot) (maxb : Z) (s : cache * heap * list A) (m : astate) : Prop :=
  let '(c, h, log) := s in
  max_bytes c = maxb /\ gone m = log /\
  exists t, cache_rep h c t /\ evolves h0 t0 h t /\ contents t = held m /\
    log ++ items t ≡ₚ taken m.

Lemma cache_call_spec h0 t0 maxb s m k o :
  refines h0 t0 maxb s m -> enabled m k ->
  wp (perform s k) o (fun '(a, s') o' =>
    exists m', answers maxb m k a m' /\ refines h0 t0 maxb s' m' /\
      (o = [] -> o' = [] /\ a <> Error (Some ENOMEM))).
Proof.
  destruct s as [[c h] log], m as [m l tk]. intros (<- & Hl & t & Hr & Hev & Hm & Htk) Hen.
  cbn in Hl, Hm, Htk. subst l m.
  destruct k as [rands i d cb pin|i|i|i]; cbn [perform answers held gone taken]; wp.
  - destruct Hen as [Hnone Hcb]. cbn in Hnone. eapply wp_mono; [by eapply cache_add_spec|].
    intros [[[e c'] h'] log'] o' (-> & Hmx & Ho & t' & Hr' & Hev' & Hc). wp.
    pose proof (evolves_trans _ _ _ _ _ _ Hev Hev') as Hev2.
    assert (Hno : (o = [] -> o' = [] /\ e = if max_bytes c <? cb then Some ENOSPC else None) ->
      o = [] -> o' = [] /\ Error e <> Error (Some ENOMEM)).
    { intros H Hnil. destruct (H Hnil) as [-> ->]. split; [done|]. by destruct (_ <? _). }
    specialize (Hno Ho). destruct (max_bytes c <? cb).
    + destruct Hc as (-> & Hc & He). exists (AState (contents t) log tk). split; [done|]. split; [|done].
      split; [done|]. split; [done|]. exists t'. by rewrite He.
    + destruct e as [e|].
      * destruct Hc as (-> & Hc & He). exists (AState (contents t) log tk). split; [by right|]. split; [|done].
        split; [done|]. split; [done|]. exists t'. by rewrite He.
      * destruct Hc as [Hc He]. exists (AState (<[i:=(d, cb)]> (contents t)) log (tk ++ [d])).
        split; [by left|]. split; [|done]. split; [done|]. split; [done|]. exists t'.
        split; [done|]. split; [done|]. split; [done|]. cbn. rewrite He, <-Htk. cbn. solve_Permutation.
  - destruct (cache_get_spec _ _ _ i Hr) as (c' & -> & Hr' & Hmx & _). cbn [wpr]. wp.
    exists (AState (contents t) log tk). split; [done|]. split; [|done]. split; [done|]. split; [done|]. by exists t.
  - rewrite (cache_exists_spec _ _ _ i Hr). cbn [wpr]. wp. exists (AState (contents t) log tk). split; [done|].
    split; [|done]. split; [done|]. split; [done|]. by exists t.
  - destruct (cache_remove_spec _ _ _ i log Hr) as (c' & h' & t' & Hr' & Hev' & Hc & He & Hmx & ->). cbn [wpr]. wp.
    pose proof (evolves_trans _ _ _ _ _ _ Hev Hev') as Hev2. destruct (contents t !! i) as [[d cb]|] eqn:Hi.
    + exists (AState (delete i (contents t)) (log ++ [d]) tk). split; [done|]. split; [|done].
      split; [done|]. split; [done|]. exists t'. split_and!; try done. cbn. rewrite <-Htk, He. solve_Permutation.
    + exists (AState (contents t) log tk). split; [done|]. split; [|done]. split; [done|]. split; [done|].
      exists t'. split; [done|]. split; [done|]. split; [by rewrite Hc, delete_id|]. cbn in *. by rewrite <-He.
Qed.

(** The data of the calls of [cache_add] that succeeded. *)
Definition accepted (l : list (call * answer)) : list A :=
  omap (fun ka => match ka with (Add _ _ d _ _, Error None) => Some d | _ => None end) l.

Lemma run_accepted maxb m l m' : run (answers maxb) m l m' -> taken m' = taken m ++ accepted l.
Proof.
  induction 1 as [m|m k a m1 l m2 Hans _ IH]; [by rewrite app_nil_r|]. rewrite IH. unfold accepted. cbn.
  destruct k as [rands i d cb pin|i|i|i]; cbn in Hans.
  - destruct (maxb <? cb); [by destruct Hans as [-> ->]|].
    destruct Hans as [[-> ->]|[-> ->]]; [|done]. cbn. by rewrite <-app_assoc.
  - by destruct Hans as [-> ->].
  - by destruct Hans as [-> ->].
  - destruct (held m !! i) as [[d cb]|]; by destruct Hans as [-> ->].
Qed.

(** C25. The cache is a finite map that owns its data: whatever calls a user makes
    on a new cache, without adding a number twice, get the answers of a map, under
    any behaviour of the allocator and of [rand]; an item larger than the cache is
    refused, all others are taken unless memory runs out; and [cache_free] leaves
    the heap as it was before, every item that was taken having been freed exactly
    once, by [cache_remove] or at the end. *)
Theorem cache_is_map n hn cb u o :
  0 < n -> 0 < hn -> 0 < cb < 2 ^ 64 -> allowed (answers cb) enabled (AState ∅ [] []) u ->
  wp (cache_new n hn cb) o (fun r o1 =>
    (o = [] -> n * 8 <= PTRDIFF_MAX -> hn * 8 <= PTRDIFF_MAX -> is_Some r) /\
    forall c h, r = Some c ->
      wp (performs perform (c, h, []) u) o1 (fun '(l, (c', h', log)) o2 =>
        (exists m, run (answers cb) (AState ∅ [] []) l m) /\
        (o1 = [] -> Forall (fun a => a <> Error (Some ENOMEM)) l.*2) /\
        wp (cache_free h' (Some c') log) o2 (fun '(log', h'') _ =>
          h'' = h /\ log' ≡ₚ accepted l))).
Proof.
  intros Hn Hhn Hcb Hu. eapply wp_mono; [by apply cache_new_spec|]. intros r o1 [Ho Hr].
  split; [intros H; by apply Ho|]. intros c h Hc. destruct (Hr c Hc) as [Hmx Hrep]. specialize (Hrep h).
  set (t0 := replicate _ _) in *. destruct (empty_table (A := cache_entry) (Z.to_nat n)) as [Hf He].
  fold t0 in Hf, He. eapply wp_mono.
  - apply (performs_refine (answers cb) enabled perform (refines h t0 cb) (fun a => a <> Error (Some ENOMEM))) with
      (m := AState ∅ [] []).
    + intros. by apply cache_call_spec.
    + split; [done|]. split; [done|]. exists t0. split; [done|]. split; [apply evolves_refl|].
      unfold contents, items. rewrite He. done.
    + exact Hu.
  - intros [l [[c' h'] log]] o2 (m & Hrun & (_ & Hg & t & Hr' & Hev & _ & Htk) & Hok).
    split; [by exists m|]. split; [done|]. unfold cache_free. rewrite (cr_table _ _ _ Hr').
    eapply wp_mono; [apply free_loop_spec, Hr'|]. intros [log' h''] o3 (-> & Hfr & _).
    split; [by eapply evolves_free|]. rewrite Htk, (run_accepted _ _ _ _ Hrun). done.
Qed.

(** ** Bytes *)

(** Calls of [cache_add]. *)
Fixpoint add_all (xs : list (Z * A)) (cb : Z) (s : cache * heap * list A)
    : C (list (option errno) * (cache * heap * list A)) :=
  match xs with
  | [] => ret ([], s)
  | (i, d) :: xs =>
      let '(c, h, log) := s in
      let* (e, c, h, log) := cache_add [] h c i d cb false log in
      let* (es, s) := add_all xs cb (c, h, log) in
      ret (e :: es, s)
  end.

(** The size given to [cache_new] is no bound on what the cache holds, only on
    one item: any number of items of that size is taken, nothing is ever evicted
    and [rand] is never called, because [current_bytes] is never increased. *)
Theorem cache_unbounded n hn cb xs h :
  0 < n -> n * 8 <= PTRDIFF_MAX -> 0 < hn -> hn * 8 <= PTRDIFF_MAX -> 0 < cb < 2 ^ 64 -> NoDup xs.*1 ->
  exists c, cache_new n hn cb [] = Ret (Some c, []) /\ max_bytes c = cb /\
    exists es c' h', add_all xs cb (c, h, []) [] = Ret (es, (c', h', []), []) /\
      Forall (fun e => e = None) es /\
      forall i d, (i, d) ∈ xs -> exists c2, cache_get h' c' i = Ret (Some (d, cb), c2).
Proof.
  intros Hn Hn8 Hhn Hhn8 Hcb Hnd.
  destruct (wp_eq _ _ _ (cache_new_spec n hn cb [] Hn Hhn Hcb)) as (r & o1 & -> & Ho & Hr).
  destruct (Ho eq_refl) as [-> Hsome]. destruct (Hsome Hn8 Hhn8) as [c ->].
  destruct (Hr c eq_refl) as [Hmx Hrep]. specialize (Hrep h). exists c. split; [done|]. split; [done|].
  set (t0 := replicate _ _) in *.
  assert (Hfresh : forall i, i ∈ xs.*1 -> contents t0 !! i = None).
  { intros i _. destruct (empty_table (A := cache_entry) (Z.to_nat n)) as [_ He]. fold t0 in He.
    unfold contents. by rewrite He. }
  assert (H : forall h c t, cache_rep h c t -> max_bytes c = cb -> (forall i, i ∈ xs.*1 -> contents t !! i = None) ->
    exists es c' h' t', add_all xs cb (c, h, []) [] = Ret (es, (c', h', []), []) /\ cache_rep h' c' t' /\
      Forall (fun e => e = None) es /\ (forall i d, (i, d) ∈ xs -> contents t' !! i = Some (d, cb)) /\
      forall i, i ∉ xs.*1 -> contents t' !! i = contents t !! i).
  { clear -Hnd Hcb. induction xs as [|[i d] xs IH]; intros h c t Hr Hmx Hfresh.
    { exists [], c, h, t. split_and!; try done. by intros i d ?%elem_of_nil. }
    cbn in Hnd. apply NoDup_cons in Hnd as [Hi Hnd].
    assert (Hc0 : 0 <= cb < 2 ^ 64) by lia.
    destruct (wp_eq _ _ _ (cache_add_spec [] h c t i d cb false [] [] Hr Hc0 (Hfresh i ltac:(by left))))
      as ([[[e c1] h1] log1] & o1 & Hadd & -> & Hm1 & Ho1 & t1 & Hr1 & _ & Hc1).
    destruct (Ho1 eq_refl) as [-> He]. rewrite Hmx, Z.ltb_irrefl in He, Hc1. subst e. destruct Hc1 as [Hc1 _].
    destruct (IH Hnd h1 c1 t1 Hr1) as (es & c' & h' & t' & Hall & Hr' & Hes & Hin & Hout); [congruence| |].
    { intros j Hj. rewrite Hc1, lookup_insert_ne by (intros ->; done). apply Hfresh. by right. }
    exists (None :: es), c', h', t'. cbn [add_all]. unfold bind. rewrite Hadd, Hall.
    split; [done|]. split; [done|]. split; [by constructor|]. split.
    - intros j d' [[= -> ->]|Hj]%elem_of_cons; [|by apply Hin]. by rewrite Hout, Hc1, lookup_insert_eq.
    - intros j Hj. cbn in Hj. apply not_elem_of_cons in Hj as [Hji Hj]. by rewrite Hout, Hc1, lookup_insert_ne. }
  destruct (H h c t0 Hrep Hmx Hfresh) as (es & c' & h' & t' & Hall & Hr' & Hes & Hin & _).
  exists es, c', h'. split; [done|]. split; [done|]. intros i d Hid.
  destruct (cache_get_spec _ _ _ i Hr') as (c2 & -> & _). exists c2. by rewrite (Hin i d Hid).
Qed.

(** A hit on an entry that is in the hotlist, but not in front, puts its number
    in front a second time and loses the number that was just in front of it; a
    hit on one that is not there loses the oldest number. *)
Theorem cache_hotlist h c t i d cb :
  cache_rep h c t -> contents t !! i = Some (d, cb) ->
  exists c', cache_get h c i = Ret (Some (d, cb), c') /\
    (forall a x b, hotlist c = a ++ x :: i :: b -> i ∉ a -> x <> i -> hotlist c' = i :: a ++ i :: b) /\
    (forall a x, hotlist c = a ++ [x] -> i ∉ hotlist c -> hotlist c' = i :: a) /\
    (forall b, hotlist c = i :: b -> hotlist c' = hotlist c).
Proof.
  intros Hr Hi. destruct (cache_get_spec _ _ _ i Hr) as (c' & Hget & _ & _ & ->). rewrite Hi in *.
  exists (set_hotlist (hot_add i (hotlist c)) c). split; [done|]. cbn. unfold hot_add. split_and!.
  - intros a x b E Ha Hx.
    assert (Hn : index_of i (hotlist c) = Some (S (length a))).
    { rewrite E. clear -Ha Hx. induction a as [|y a IH]; cbn.
      - by rewrite (proj2 (Z.eqb_neq x i)), Z.eqb_refl.
      - apply not_elem_of_cons in Ha as [Hy Ha]. rewrite (proj2 (Z.eqb_neq y i)) by congruence. by rewrite IH. }
    rewrite Hn, E. replace (S (length a) - 1)%nat with (length a) by lia. rewrite take_app_length.
    rewrite drop_app_ge by lia. by replace (S (length a) - length a)%nat with 1%nat by lia.
  - intros a x E Hni. pose proof (index_of_spec i (hotlist c)) as Hs. destruct (index_of i (hotlist c)) as [n|].
    + destruct Hs as (p & q & E' & _). rewrite E' in Hni. set_solver.
    + rewrite E, length_app. cbn. replace (length a + 1 - 1)%nat with (length a) by lia. by rewrite take_app_length.
  - intros b E. rewrite E. cbn. by rewrite Z.eqb_refl.
Qed.

End Cache.

(** An item that is added, looked up and removed if there was memory for it. *)
Definition demo_client : client (call (A := Z)) (answer (A := Z)) :=
  Do (Add [] 1 10 5 false) (fun a => match a with
    | Error None => Do (Get 1) (fun _ => Do (Remove 1) (fun _ => Do (Exists' 1) (fun _ => Stop)))
    | _ => Stop
    end).

Lemma cache_is_map_witness :
  wp (cache_new 2 2 100) [true; true; true; true; false] (fun r o1 =>
    ([true; true; true; true; false] = [] -> 2 * 8 <= PTRDIFF_MAX -> 2 * 8 <= PTRDIFF_MAX -> is_Some r) /\
    forall c h, r = Some c ->
      wp (performs perform (c, h, []) demo_client) o1 (fun '(l, (c', h', log)) o2 =>
        (exists m, run (answers 100) (AState ∅ [] []) l m) /\
        (o1 = [] -> Forall (fun a => a <> Error (Some ENOMEM)) l.*2) /\
        wp (cache_free h' (Some c') log) o2 (fun '(log', h'') _ =>
          h'' = h /\ log' ≡ₚ accepted l))).
Proof.
  apply (cache_is_map 2 2 100 demo_client [true; true; true; true; false]); [done|done|done|].
  split; [split; [reflexivity|done]|]. intros a m Ha. destruct a as [[e|]| |]; try exact I.
  split; [exact I|]. intros a' m' Ha'. split; [exact I|]. intros a2 m2 Ha2. split; [exact I|]. intros ? ? _. exact I.
Defined.

Lemma cache_unbounded_witness :
  exists c, cache_new 2 2 100 [] = Ret (Some c, []) /\ max_bytes c = 100 /\
    exists es c' h', add_all [(1, 10); (3, 30); (2, 20)] 100 (c, ∅, []) [] = Ret (es, (c', h', []), []) /\
      Forall (fun e => e = None) es /\
      forall i d, (i, d) ∈ [(1, 10); (3, 30); (2, 20)] -> exists c2, cache_get h' c' i = Ret (Some (d, 100), c2).
Proof.
  apply (cache_unbounded 2 2 100 [(1, 10); (3, 30); (2, 20)] ∅); try done. decide_closed.
Defined.

Definition demo_heap : gmap loc (node (cache_entry (A := Z))) :=
  <[0%nat := mkNode (Some 1%nat) None (Cached 1%nat)]>
  {[1%nat := mkNode None (Some 0%nat) (Item (CacheEntry 7 10 5 false))]}.

Definition demo_cache : cache := Cache 100 0 1 [Some 0%nat] [3; 4; 7] 3.

Definition demo_table : list (slot (A := cache_entry (A := Z))) :=
  [Slot (Some 0%nat) [1%nat] [CacheEntry 7 10 5 false]].

Lemma cache_hotlist_witness :
  exists c', cache_get demo_heap demo_cache 7 = Ret (Some (10, 5), c') /\
    (forall a x b, hotlist demo_cache = a ++ x :: 7 :: b -> 7 ∉ a -> x <> 7 -> hotlist c' = 7 :: a ++ 7 :: b) /\
    (forall a x, hotlist demo_cache = a ++ [x] -> 7 ∉ hotlist demo_cache -> hotlist c' = 7 :: a) /\
    (forall b, hotlist demo_cache = 7 :: b -> hotlist c' = hotlist demo_cache).
Proof.
  apply (cache_hotlist demo_heap demo_cache demo_table 7 10 5); [|by vm_compute].
  constructor; try done.
  - split; [|decide_closed]. repeat constructor. exists (Cached 1%nat). split; [|done].
    split; [decide_closed|reflexivity|]. split; [reflexivity|done].
  - intros [|i] sl Hsl; [|done]. injection Hsl as <-. repeat constructor; decide_closed.
  - decide_closed.
Defined.
