(* ===== verification/FileCache.v ===== *)
(** FileCache: the cache of files in memory of meta/src/meta_filecache.c, the
    string map of their aliases (StringMap) and the cache of their contents
    (Cache) behind one lock.

    A [fileinfo] belongs to one owner at a time: the caller of [filecache_add]
    gives it away whether the call succeeds or not, and the cache never changes
    it, so that it is a value; [fileinfo_free] is recorded in a log, the one
    [cache_free] writes.  The pointers of a [filecache] to its two tables are
    NULL, live or dangling, because [filecache_invalidate] leaves them so when
    it fails.  What the system answers is a parameter: [struct stat] with its
    [st_size], and for each file name what [open], [read] and [close] do.

    [filecache_is_map] shows that the file cache is a map from aliases to files
    that frees every [fileinfo] it was given exactly once;
    [filecache_add_reads] that a readable file is served from memory;
    [filecache_ghost] that an alias outlives the failure to add its file;
    [filecache_invalidate_dangles] what a failure to invalidate leaves. *)

From Stdlib Require Import ZArith Lia.
From stdpp Require Import base list numbers gmap sets.
From S2P Require Import Prelude Client Cstring MetaList MetaListLoops ListTable StringMap Cache.

#[local] Arguments load : simpl never.
#[local] Arguments store : simpl never.

Section FileCache.
(** [struct stat], its [st_size], and the one [calloc] makes. *)
Context {stat : Type} (st_size : stat -> Z) (zero_stat : stat).

Record fileinfo : Type := FileInfo {
  st : stat;
  mimetype : option (list Z);
  name : option (list Z);
  alias : option (list Z);
  contents : option (list Z);
}.

Definition sizeof_fileinfo : Z := 176.

Definition fileinfo_new : C (option fileinfo) :=
  let* ok := alloc_ok sizeof_fileinfo in
  ret (if ok : bool then Some (FileInfo zero_stat None None None None) else None).

Definition fileinfo_free (p : option fileinfo) (log : list fileinfo) : list fileinfo :=
  match p with None => log | Some p => log ++ [p] end.

Definition fileinfo_set_stat (p : fileinfo) (pst : stat) : fileinfo :=
  FileInfo pst (mimetype p) (name p) (alias p) (contents p).

(** The old string is freed before the new one is allocated. *)
Definition dup_string (s : list Z) : C (status * option (list Z)) :=
  let* ok := alloc_ok (zlen s + 1) in
  ret (if ok : bool then (success, Some s) else (failure, None)).

Definition fileinfo_set_name (p : fileinfo) (s : list Z) : C (status * fileinfo) :=
  let* (rc, v) := dup_string s in
  ret (rc, FileInfo (st p) (mimetype p) v (alias p) (contents p)).

Definition fileinfo_set_alias (p : fileinfo) (s : list Z) : C (status * fileinfo) :=
  let* (rc, v) := dup_string s in
  ret (rc, FileInfo (st p) (mimetype p) (name p) v (contents p)).

Definition fileinfo_set_mimetype (p : fileinfo) (s : list Z) : C (status * fileinfo) :=
  let* (rc, v) := dup_string s in
  ret (rc, FileInfo (st p) v (name p) (alias p) (contents p)).

Definition set_contents (v : option (list Z)) (p : fileinfo) : fileinfo :=
  FileInfo (st p) (mimetype p) (name p) (alias p) v.

(** * The file cache *)

Definition HOTLIST_SIZE : Z := 10.

Inductive ptr (T : Type) : Type := Null | Live (t : T) | Dangling.
#[global] Arguments Null {T}.
#[global] Arguments Live {T} t.
#[global] Arguments Dangling {T}.

(** A pointer that is used; NULL fails the assertion of the callee. *)
Definition deref {T} (p : ptr T) : res T :=
  match p with Null => Fault AssertFailed | Live t => Ret t | Dangling => Fault OutOfBounds end.

(** What [pthread_rwlock_t] allows: a thread that holds the lock waits for ever
    when it takes it for writing. *)
Inductive rwlock : Type := Unlocked | Reading | Writing.

Record filecache : Type := FileCache {
  filenames : ptr stringmap;
  metacache : ptr Cache.cache;
  lock : rwlock;
  nelem : Z;
  bytes : Z;
}.

Definition set_filenames (p : ptr stringmap) (f : filecache) : filecache :=
  FileCache p (metacache f) (lock f) (nelem f) (bytes f).
Definition set_metacache (p : ptr Cache.cache) (f : filecache) : filecache :=
  FileCache (filenames f) p (lock f) (nelem f) (bytes f).
Definition set_lock (l : rwlock) (f : filecache) : filecache :=
  FileCache (filenames f) (metacache f) l (nelem f) (bytes f).

Definition acquire (l : rwlock) (f : filecache) : res filecache :=
  match lock f with Unlocked => Ret (set_lock l f) | _ => Fault Died end.

(** The nodes of the string map, those of the cache and the [fileinfo]s freed. *)
Record memory : Type := Memory {
  hs : gmap loc (node entry);
  hc : gmap loc (node (cache_entry (A := fileinfo)));
  log : list fileinfo;
}.

Definition sizeof_filecache : Z := 88.

(** When the first [malloc] fails, [new->filenames] reads through NULL. *)
Definition filecache_new (mem : memory) (nelem bytes : Z) : C (option filecache * memory) :=
  c_assert (0 <? nelem);;
  c_assert (0 <? bytes);;
  let* ok := alloc_ok sizeof_filecache in
  if negb ok then lift (Fault OutOfBounds)
  else
    let* names := stringmap_new nelem in
    match names with
    | None =>
        let* h := stringmap_free (hs mem) None in ret (None, Memory h (hc mem) (log mem))
    | Some names =>
        let* meta := cache_new nelem HOTLIST_SIZE bytes in
        match meta with
        | None =>
            let* h := stringmap_free (hs mem) (Some names) in ret (None, Memory h (hc mem) (log mem))
        | Some meta => ret (Some (FileCache (Live names) (Live meta) Unlocked nelem bytes), mem)
        end
    end.

(** [free]ing what a pointer points to; NULL is ignored, a dangling pointer is
    followed. *)
Definition opt_ptr {T} (p : ptr T) : res (option T) :=
  match p with Null => Ret None | Live t => Ret (Some t) | Dangling => Fault OutOfBounds end.

Definition free_names (mem : memory) (p : ptr stringmap) : C memory :=
  let* p := lift (opt_ptr p) in
  let* h := stringmap_free (hs mem) p in ret (Memory h (hc mem) (log mem)).

Definition free_meta (mem : memory) (p : ptr Cache.cache) : C memory :=
  let* p := lift (opt_ptr p) in
  let* (log, h) := cache_free (hc mem) p (log mem) in ret (Memory (hs mem) h log).

Definition filecache_free (mem : memory) (this : option filecache) : C memory :=
  match this with
  | None => ret mem
  | Some this => let* mem := free_meta mem (metacache this) in free_names mem (filenames this)
  end.

(** What the system does with a name: [open] fails, or [read] gets some bytes
    (or fails) and [close] succeeds or not. *)
Inductive opened : Type := NoFile | Opened (got : option (list Z)) (closes : bool).

(** [open(NULL)] fails with EFAULT. *)
Definition open_file (disk : list Z -> opened) (n : option (list Z)) : opened :=
  match n with None => NoFile | Some n => disk n end.

(** Up to the lock: [finfo] with the contents that were allocated, whether they
    are complete, and how often the descriptor was closed. *)
Definition load_file (disk : list Z -> opened) (finfo : fileinfo) : C (bool * fileinfo * nat) :=
  match open_file disk (name finfo) with
  | NoFile => ret (false, finfo, O)
  | Opened got closes =>
      let* ok := alloc_ok (u64 (st_size (st finfo))) in
      if negb ok then ret (false, finfo, 1%nat)
      else
        match got with
        | None => ret (false, set_contents (Some []) finfo, 1%nat)
        | Some got =>
            let finfo := set_contents (Some got) finfo in
            if negb (zlen got =? st_size (st finfo)) then ret (false, finfo, 1%nat)
            else if negb closes then ret (false, finfo, 2%nat)
            else ret (true, finfo, 1%nat)
        end
  end.

(** The last result is [*pid], if it was stored. *)
Definition filecache_add (disk : list Z -> opened) (rands : list Z) (mem : memory) (this : filecache)
    (finfo : fileinfo) (pin : bool) : C (status * option Z * filecache * memory) :=
  c_assert (match contents finfo with None => true | Some _ => false end);;
  let* (loaded, finfo, _) := load_file disk finfo in
  let err this mem pid :=
    ret (failure, pid, this, Memory (hs mem) (hc mem) (fileinfo_free (Some finfo) (log mem))) in
  if negb loaded then err this mem None
  else
    let* this := lift (acquire Writing this) in
    let* names := lift (deref (filenames this)) in
    let* key := lift (match alias finfo with Some s => Ret s | None => Fault AssertFailed end) in
    let* (rc, pid, names, h) := stringmap_add (hs mem) names key in
    let this := set_filenames (Live names) this in
    let mem := Memory h (hc mem) (log mem) in
    let* (rc, this, mem) :=
      match rc, pid with
      | success, Some pid =>
          let* meta := lift (deref (metacache this)) in
          let* (e, meta, h, log) := cache_add rands (hc mem) meta pid finfo sizeof_fileinfo pin (log mem) in
          ret (match e with None => success | Some _ => failure end,
               set_metacache (Live meta) this, Memory (hs mem) h log)
      | success, None => lift (Fault Uninitialised)
      | failure, _ => ret (failure, this, mem)
      end in
    let this := set_lock Unlocked this in
    match rc with
    | success => ret (success, pid, this, mem)
    | failure => err this mem pid
    end.

(** The second half of [filecache_invalidate], after the tables were freed. *)
Definition renew_tables (mem : memory) (this : filecache) : C (bool * filecache * memory) :=
  let* names := stringmap_new (nelem this) in
  match names with
  | None => ret (false, set_lock Unlocked (set_filenames Null this), mem)
  | Some names =>
      let this := set_filenames (Live names) this in
      let* meta := cache_new (nelem this) HOTLIST_SIZE (bytes this) in
      match meta with
      | None =>
          let* mem := free_names mem (Live names) in
          ret (true, set_lock Unlocked (set_filenames Null (set_metacache Null this)), mem)
      | Some meta => ret (true, set_lock Unlocked (set_metacache (Live meta) this), mem)
      end
  end.

Definition filecache_invalidate (mem : memory) (this : filecache) : C (bool * filecache * memory) :=
  let* this := lift (acquire Writing this) in
  let* mem := free_names mem (filenames this) in
  let* mem := free_meta mem (metacache this) in
  renew_tables mem (set_filenames Dangling (set_metacache Dangling this)).

Definition filecache_exists (mem : memory) (this : filecache) (filename : list Z) : res (bool * filecache) :=
  let+ this := acquire Reading this in
  let+ names := deref (filenames this) in
  let+ (rc, _) := stringmap_get_id (hs mem) names filename in
  Ret (match rc with success => true | failure => false end, set_lock Unlocked this).

(** The part that the next four functions share: the number of the name, and the
    entry of the number. *)
Definition lookup_info (mem : memory) (this : filecache) (filename : list Z)
    : res (option fileinfo * filecache) :=
  let+ this := acquire Reading this in
  let+ names := deref (filenames this) in
  let+ (rc, i) := stringmap_get_id (hs mem) names filename in
  let+ (r, this) :=
    match rc, i with
    | success, Some i =>
        let+ meta := deref (metacache this) in
        let+ (r, meta) := cache_get (hc mem) meta i in
        Ret (fst <$> r, set_metacache (Live meta) this)
    | success, None => Fault Uninitialised
    | failure, _ => Ret (None, this)
    end in
  Ret (r, set_lock Unlocked this).

(** [*pdata] and [*pcb]; [None] for failure. *)
Definition filecache_get (mem : memory) (this : filecache) (filename : list Z)
    : res (option (option (list Z) * Z) * filecache) :=
  let+ (r, this) := lookup_info mem this filename in
  Ret ((fun fi => (contents fi, u64 (st_size (st fi)))) <$> r, this).

Definition filecache_foreach {S} (mem : memory) (this : filecache) (fn : list Z -> S -> bool * S) (arg : S)
    : C (bool * S * filecache) :=
  let* this := lift (acquire Reading this) in
  let* names := lift (deref (filenames this)) in
  let* (rc, arg) := stringmap_foreach (hs mem) names fn arg in
  ret (rc, arg, set_lock Unlocked this).

Definition fileinfo_stat (p : fileinfo) : stat := st p.
Definition fileinfo_name (p : fileinfo) : option (list Z) := name p.
Definition fileinfo_alias (p : fileinfo) : option (list Z) := alias p.
Definition fileinfo_mimetype (p : fileinfo) : option (list Z) := mimetype p.

Definition filecache_stat (mem : memory) (this : filecache) (filename : list Z)
    : res (option stat * filecache) :=
  let+ (r, this) := lookup_info mem this filename in Ret (fileinfo_stat <$> r, this).

(** [strncat(mime, fileinfo_mimetype(p), cb - 1)] into the array [mime]; the
    pointer must not be NULL. *)
Definition filecache_get_mime_type (mem : memory) (this : filecache) (filename : list Z) (mime : block) (cb : Z)
    : res (status * block * filecache) :=
  let+ (r, this) := lookup_info mem this filename in
  match r with
  | None => Ret (failure, mime, this)
  | Some p =>
      let+ mime := stc mime 0 0 in
      match fileinfo_mimetype p with
      | None => Fault OutOfBounds
      | Some s =>
          let+ mime := wr mime 0 (cstr (firstn (Z.to_nat (u64 (cb - 1))) s)) in
          Ret (success, mime, this)
      end
  end.

Definition filecache_fileinfo (mem : memory) (this : filecache) (filename : list Z)
    : res (option fileinfo * filecache) :=
  lookup_info mem this filename.

(** * The two tables together *)

(** A live, unlocked file cache; every number the cache has is the number of an
    alias. *)
Record fc_rep (mem : memory) (fc : filecache) (sm : stringmap) (c : Cache.cache)
    (ts : list (ListTable.slot (A := entry))) (tc : list (ListTable.slot (A := cache_entry (A := fileinfo)))) : Prop := mkFcRep {
  fr_names : filenames fc = Live sm;
  fr_meta : metacache fc = Live c;
  fr_lock : lock fc = Unlocked;
  fr_map : sm_rep (hs mem) sm ts;
  fr_cache : cache_rep (hc mem) c tc;
  fr_keys : forall i, is_Some (Cache.contents tc !! i) -> exists s, numbers ts !! s = Some i;
}.

(** The files, by alias, and the aliases the string map knows. *)
Definition files (ts : list (ListTable.slot (A := entry))) (tc : list (ListTable.slot (A := cache_entry (A := fileinfo))))
    : gmap (list Z) fileinfo :=
  omap (fun i => fst <$> Cache.contents tc !! i) (numbers ts).

Definition known (ts : list (ListTable.slot (A := entry))) : gset (list Z) := dom (numbers ts).

Lemma files_lookup ts tc s :
  files ts tc !! s = i ← numbers ts !! s; fst <$> Cache.contents tc !! i.
Proof. apply lookup_omap. Qed.

Lemma known_spec ts s : bool_decide (is_Some (numbers ts !! s)) = bool_decide (s ∈ known ts).
Proof. apply bool_decide_ext. unfold known. by rewrite elem_of_dom. Qed.

Lemma lookup_info_spec mem fc sm c ts tc s :
  fc_rep mem fc sm c ts tc -> addable s ->
  exists c', lookup_info mem fc s = Ret (files ts tc !! s, set_metacache (Live c') fc) /\
    fc_rep mem (set_metacache (Live c') fc) sm c' ts tc /\ max_bytes c' = max_bytes c.
Proof.
  intros [Hn Hm Hl Hsm Hc Hk] [Hv Hne]. destruct fc as [fn mc lk ne by_]. cbn in Hn, Hm, Hl. subst.
  unfold lookup_info, acquire. cbn [lock set_lock filenames res_bind deref].
  destruct (stringmap_lookup_spec _ _ _ s Hsm Hv Hne) as [_ ->]. rewrite files_lookup.
  destruct (numbers ts !! s) as [i|]; cbn.
  - destruct (cache_get_spec _ _ _ i Hc) as (c' & -> & Hc' & Hmx & _). cbn. by exists c'.
  - by exists c.
Qed.

(** ** What an addition changes *)

Lemma numbers_perm h sm ts h' sm' ts' :
  sm_rep h sm ts -> sm_rep h' sm' ts' -> entries ts' ≡ₚ entries ts -> numbers ts' = numbers ts.
Proof.
  intros _ Hr' He. unfold numbers. apply list_to_map_proper.
  - rewrite <-list_fmap_compose. apply (sr_strs _ _ _ Hr').
  - by rewrite He.
Qed.

Lemma numbers_add h sm ts h' sm' ts' e :
  sm_rep h sm ts -> sm_rep h' sm' ts' -> e ∈ entries ts' ->
  (entries ts' ≡ₚ entries ts \/ entries ts' ≡ₚ e :: entries ts /\ str e ∉ str <$> entries ts) ->
  numbers ts' = <[str e := StringMap.id e]> (numbers ts).
Proof.
  intros Hr Hr' Hin [He|[He _]].
  - rewrite (numbers_perm _ _ _ _ _ _ Hr Hr' He). symmetry. apply insert_id.
    apply (numbers_lookup _ _ _ _ _ Hr). exists e. rewrite <-He. done.
  - unfold numbers at 1. rewrite (list_to_map_proper _ ((fun e => (str e, StringMap.id e)) <$> e :: entries ts)).
    + done.
    + rewrite <-list_fmap_compose. apply (sr_strs _ _ _ Hr').
    + by rewrite He.
Qed.

(** The number an alias without a file gets is not in the cache. *)
Lemma number_fresh mem fc sm c ts tc h' sm' ts' s i :
  fc_rep mem fc sm c ts tc -> sm_rep h' sm' ts' -> numbers ts' = <[s := i]> (numbers ts) ->
  files ts tc !! s = None -> Cache.contents tc !! i = None.
Proof.
  intros Hr Hr' Hn Hs. destruct (Cache.contents tc !! i) as [p|] eqn:Hi; [|done]. exfalso.
  destruct (fr_keys _ _ _ _ _ _ Hr i ltac:(by eexists)) as [s' Hs'].
  assert (s' = s) as ->.
  { destruct (decide (s' = s)) as [|Hne]; [done|]. apply (numbers_inj _ _ _ s' s i Hr'); rewrite Hn.
    - by rewrite lookup_insert_ne.
    - by rewrite lookup_insert_eq. }
  rewrite files_lookup, Hs' in Hs. cbn in Hs. by rewrite Hi in Hs.
Qed.

Lemma files_known ts ts' tc s i :
  numbers ts' = <[s := i]> (numbers ts) -> files ts tc !! s = None -> Cache.contents tc !! i = None ->
  files ts' tc = files ts tc.
Proof.
  intros Hn Hs Hi. apply map_eq. intros x. rewrite !files_lookup, Hn. destruct (decide (s = x)) as [<-|Hne].
  - rewrite lookup_insert_eq. cbn. rewrite Hi. by rewrite files_lookup in Hs.
  - by rewrite lookup_insert_ne.
Qed.

Lemma files_insert h' sm' ts ts' tc tc' s i d cb :
  sm_rep h' sm' ts' -> numbers ts' = <[s := i]> (numbers ts) ->
  Cache.contents tc' = <[i := (d, cb)]> (Cache.contents tc) ->
  files ts' tc' = <[s := d]> (files ts tc).
Proof.
  intros Hr' Hn Hc. apply map_eq. intros x. rewrite files_lookup, Hc. destruct (decide (s = x)) as [<-|Hne].
  - by rewrite Hn, !lookup_insert_eq; cbn; rewrite lookup_insert_eq.
  - rewrite lookup_insert_ne, files_lookup by done. destruct (numbers ts' !! x) as [j|] eqn:Hx.
    + assert (i <> j).
      { intros <-. apply Hne. apply (numbers_inj _ _ _ s x i Hr'); [|done]. by rewrite Hn, lookup_insert_eq. }
      rewrite Hn, lookup_insert_ne in Hx by done. rewrite Hx. cbn. by rewrite lookup_insert_ne.
    + rewrite Hn, lookup_insert_ne in Hx by done. by rewrite Hx.
Qed.

(** ** Adding a file *)

(** The file can be read: [read] delivers [st_size] bytes. *)
Definition readable (disk : list Z -> opened) (fi : fileinfo) (got : list Z) : Prop :=
  open_file disk (name fi) = Opened (Some got) true /\ zlen got = st_size (st fi).

Lemma load_file_spec disk fi o :
  wp (load_file disk fi) o (fun '(loaded, fi', _) o' =>
    exists v, fi' = set_contents v fi /\ (if loaded then exists got, v = Some got /\ readable disk fi got else True) /\
      (o = [] -> o' = [] /\ forall got, readable disk fi got -> zlen got <= PTRDIFF_MAX -> loaded = true)).
Proof.
  unfold load_file, readable.
  assert (Hself : fi = set_contents (contents fi) fi) by by destruct fi.
  destruct (open_file disk (name fi)) as [|got closes].
  { wp. exists (contents fi). split; [done|]. split; [done|]. intros Ho. split; [done|]. by intros got [? _]. }
  apply wp_bind, wp_alloc_ok. intros b o1 _ Hb. destruct b; cbn [negb].
  2:{ wp. exists (contents fi). split; [done|]. split; [done|]. intros Ho. destruct (Hb Ho) as [-> E].
      split; [done|]. intros g [_ Hg] Hm. zlen_facts. rewrite <-Hg, u64_small in E by (unfold PTRDIFF_MAX in *; lia).
      symmetry in E. apply Z.leb_gt in E. lia. }
  assert (Ho1 : o = [] -> o1 = []) by (intros Ho; by destruct (Hb Ho)).
  destruct got as [got|]; [|wp; exists (Some []); by split_and!; try naive_solver].
  change (st (set_contents (Some got) fi)) with (st fi).
  destruct (Z.eqb_spec (zlen got) (st_size (st fi))) as [Hz|Hz]; cbn [negb].
  2:{ wp. exists (Some got). split; [done|]. split; [done|]. intros Ho. split; [by apply Ho1|]. by intros g [[= ->] ?]. }
  destruct closes; cbn [negb]; wp; exists (Some got); (split; [done|]).
  - split; [by exists got|]. intros Ho. split; [by apply Ho1|done].
  - split; [done|]. intros Ho. split; [by apply Ho1|]. by intros g [[=] _].
Qed.

(** What [filecache_add] leaves of the file [fi] with the alias [s]. *)
Definition added (disk : list Z -> opened) (mem : memory) (ts : list (ListTable.slot (A := entry)))
    (tc : list (ListTable.slot (A := cache_entry (A := fileinfo)))) (fi : fileinfo) (s : list Z)
    (rc : status) (mem' : memory) (ts' : list (ListTable.slot (A := entry)))
    (tc' : list (ListTable.slot (A := cache_entry (A := fileinfo)))) : Prop :=
  match rc with
  | success => exists got, readable disk fi got /\ log mem' = log mem /\
      items tc' ≡ₚ set_contents (Some got) fi :: items tc /\
      files ts' tc' = <[s := set_contents (Some got) fi]> (files ts tc) /\ known ts' = {[s]} ∪ known ts
  | failure => (exists v, log mem' = log mem ++ [set_contents v fi]) /\ items tc' ≡ₚ items tc /\
      files ts' tc' = files ts tc /\ (known ts' = known ts \/ known ts' = {[s]} ∪ known ts)
  end.

Lemma filecache_add_spec disk rands mem fc sm c ts tc fi s pin o :
  fc_rep mem fc sm c ts tc -> contents fi = None -> alias fi = Some s -> addable s ->
  files ts tc !! s = None -> last_id sm < 2 ^ 64 - 1 ->
  wp (filecache_add disk rands mem fc fi pin) o (fun '(rc, pid, fc', mem') o' =>
    exists sm' c' ts' tc', fc_rep mem' fc' sm' c' ts' tc' /\
      evolves (hs mem) ts (hs mem') ts' /\ evolves (hc mem) tc (hc mem') tc' /\
      last_id sm' <= last_id sm + 1 /\ max_bytes c' = max_bytes c /\
      added disk mem ts tc fi s rc mem' ts' tc' /\
      (o = [] -> o' = [] /\ forall got, readable disk fi got -> zlen got <= PTRDIFF_MAX -> zlen s < PTRDIFF_MAX ->
        s ∈ known ts' /\ rc = if max_bytes c <? sizeof_fileinfo then failure else success)).
Proof.
  intros Hr Hfi Hal Hs Hnone Hid. unfold filecache_add. rewrite Hfi. wp.
  eapply wp_mono; [apply load_file_spec|]. intros [[loaded fi'] n] o1 (v & -> & Hl & Ho1). wp.
  destruct loaded; cbn [negb]; wp.
  2:{ exists sm, c, ts, tc. cbn. destruct Hr. split; [by constructor|]. split; [apply evolves_refl|].
      split; [apply evolves_refl|]. split; [lia|]. split; [done|]. split; [split; [by exists v|]; by auto|].
      intros Ho. destruct (Ho1 Ho) as [-> H]. split; [done|]. intros got Hg Hm _. by specialize (H got Hg Hm). }
  destruct Hl as (got & -> & Hread). destruct fc as [fn mc lk ne by_]. pose proof Hr as [Hn Hm Hlk Hsm Hc Hk].
  cbn in Hn, Hm, Hlk. subst fn mc lk. unfold acquire. cbn [lock wpr]. cbn [set_lock filenames deref]. wp.
  cbn [set_contents alias]. rewrite Hal. cbn [wpr]. apply wp_bind. destruct Hs as [Hv Hne].
  eapply wp_mono; [by apply stringmap_add_spec|]. intros [[[rc pid] sm'] h'] o2 (Hnel & [Hid1 Hid2] & Ho2 & ts' & Hsm' & Hev & Hadd).
  destruct rc.
  { wp. exists sm', c, ts', tc. assert (Hnum : numbers ts' = numbers ts) by by eapply numbers_perm. cbn.
    split; [constructor; cbn; try done; intros i Hi; rewrite Hnum; by apply Hk|]. split; [done|].
    split; [apply evolves_refl|]. split; [done|]. split; [done|]. split.
    { split; [by exists (Some got)|]. unfold files, known. rewrite Hnum. by auto. }
    intros Ho. destruct (Ho1 Ho) as [-> H]. destruct (Ho2 eq_refl) as [-> H2]. split; [done|].
    intros ? ? ? Hz. by specialize (H2 Hz). }
  destruct Hadd as (e & <- & -> & He & Hent). pose proof (numbers_add _ _ _ _ _ _ _ Hsm Hsm' He Hent) as Hnum.
  pose proof (number_fresh _ _ _ _ _ _ _ _ _ _ _ Hr Hsm' Hnum Hnone) as Hfresh. wp. cbn [set_filenames metacache deref wpr].
  eapply wp_mono; [apply (cache_add_spec _ _ c tc); [done|by split|done]|].
  intros [[[er c'] hc'] lg] o3 (-> & Hmx & Ho3 & tc' & Hc' & Hevc & Hres).
  assert (Hknown : known ts' = {[str e]} ∪ known ts) by (unfold known; by rewrite Hnum, dom_insert_L).
  assert (Hoo : o = [] -> o3 = [] /\ forall g, readable disk fi g -> zlen g <= PTRDIFF_MAX -> zlen (str e) < PTRDIFF_MAX ->
      str e ∈ known ts' /\
      match er with None => success | Some _ => failure end = if max_bytes c <? sizeof_fileinfo then failure else success).
  { intros Ho. destruct (Ho1 Ho) as [-> _]. destruct (Ho2 eq_refl) as [-> _]. destruct (Ho3 eq_refl) as [-> ->].
    split; [done|]. intros _ _ _ _. split; [rewrite Hknown; set_solver|]. by destruct (_ <? _). }
  assert (Hmono : forall i x, numbers ts !! x = Some i -> exists x, numbers ts' !! x = Some i).
  { intros i x Hx. exists x. rewrite Hnum. destruct (decide (str e = x)) as [<-|]; [|by rewrite lookup_insert_ne].
    rewrite lookup_insert_eq. destruct Hent as [Hp|[_ Hni]].
    - rewrite <-(numbers_perm _ _ _ _ _ _ Hsm Hsm' Hp), Hnum, lookup_insert_eq in Hx. done.
    - exfalso. apply Hni, (numbers_known _ _ _ _ Hsm). by eexists. }
  assert (Hgone : er <> None -> Cache.contents tc' = Cache.contents tc /\ items tc' ≡ₚ items tc).
  { intros He'. destruct (max_bytes c <? sizeof_fileinfo); [by destruct Hres as (_ & ? & ?)|].
    destruct er; [|done]. by destruct Hres as (_ & ? & ?). }
  destruct er as [er|]; wp; exists sm', c', ts', tc'; cbn.
  - destruct (Hgone ltac:(done)) as [Hcon Hit].
    split; [constructor; cbn; try done; rewrite Hcon; intros i [x Hx]%Hk; by eapply Hmono|].
    split; [done|]. split; [done|]. split; [done|]. split; [done|]. split; [|done].
    split; [by exists (Some got)|]. split; [done|]. split; [|by right].
    transitivity (files ts' tc); [unfold files; by rewrite Hcon|by eapply files_known].
  - destruct (max_bytes c <? sizeof_fileinfo); [by destruct Hres|]. destruct Hres as [Hcon Hit].
    split.
    { constructor; cbn; try done. rewrite Hcon. intros i Hi. destruct (decide (StringMap.id e = i)) as [<-|Hni].
      - exists (str e). by rewrite Hnum, lookup_insert_eq.
      - rewrite lookup_insert_ne in Hi by done. apply Hk in Hi as [x Hx]. by eapply Hmono. }
    split; [done|]. split; [done|]. split; [done|]. split; [done|]. split; [|done].
    exists got. split; [done|]. split; [done|]. split; [done|]. split; [|done]. by eapply files_insert.
Qed.

(** ** Making, clearing and freeing *)

Abbreviation no_names n := (replicate (Z.to_nat n) (Slot (A := entry) None [] [])).
Abbreviation no_entries n := (replicate (Z.to_nat n) (Slot (A := cache_entry (A := fileinfo)) None [] [])).

Lemma empty_files n : files (no_names n) (no_entries n) = ∅ /\ known (no_names n) = ∅ /\ items (no_entries n) = [].
Proof.
  destruct (empty_table (A := entry) (Z.to_nat n)) as [_ He].
  destruct (empty_table (A := cache_entry (A := fileinfo)) (Z.to_nat n)) as [_ He'].
  unfold files, known, numbers, items. rewrite He, He'. cbn. split_and!; [apply omap_empty|apply dom_empty_L|done].
Qed.

Lemma empty_rep mem fc sm c n :
  filenames fc = Live sm -> metacache fc = Live c -> lock fc = Unlocked ->
  sm_rep (hs mem) sm (no_names n) -> cache_rep (hc mem) c (no_entries n) ->
  fc_rep mem fc sm c (no_names n) (no_entries n).
Proof.
  intros. constructor; try done. destruct (empty_table (A := cache_entry (A := fileinfo)) (Z.to_nat n)) as [_ He].
  unfold Cache.contents. rewrite He. by intros i [x Hx].
Qed.

Lemma free_names_spec mem sm ts o :
  sm_rep (hs mem) sm ts ->
  wp (free_names mem (Live sm)) o (fun mem' o' =>
    freed (feet ts) (hs mem) (hs mem') /\ hc mem' = hc mem /\ log mem' = log mem /\ o' = o).
Proof.
  intros Hr. unfold free_names. wp. cbn [opt_ptr wpr]. wp. unfold stringmap_free. rewrite (sr_table _ _ _ Hr).
  eapply wp_mono; [apply free_table_spec, Hr|]. intros h o' [Hf ->]. by wp.
Qed.

Lemma free_meta_spec mem c tc o :
  cache_rep (hc mem) c tc ->
  wp (free_meta mem (Live c)) o (fun mem' o' =>
    freed (feet tc) (hc mem) (hc mem') /\ hs mem' = hs mem /\ log mem' = log mem ++ items tc /\ o' = o).
Proof.
  intros Hr. unfold free_meta. wp. cbn [opt_ptr wpr]. wp. unfold cache_free. rewrite (cr_table _ _ _ Hr).
  eapply wp_mono; [apply free_loop_spec, Hr|]. intros [lg h] o' (-> & Hf & ->). by wp.
Qed.

Lemma freed_nothing {B} (h h' : gmap loc (node B)) : freed [] h h' -> h' = h.
Proof. intros [_ Ho]. apply map_eq. intros k. apply Ho. by intros ?%elem_of_nil. Qed.

(** The allocator grants the first request. *)
Definition granted (o : oracle) : Prop := match o with b :: _ => b = true | [] => True end.

Lemma wp_granted n o (Q : bool -> oracle -> Prop) :
  granted o -> n <= PTRDIFF_MAX -> (forall o1, (o = [] -> o1 = []) -> Q true o1) -> wp (alloc_ok n) o Q.
Proof.
  intros Hg Hn HQ. unfold wp, alloc_ok. destruct o as [|b o]; [|cbn in Hg; subst b; cbn [andb]];
    rewrite (proj2 (Z.leb_le _ _)) by done; by apply HQ.
Qed.

Lemma filecache_new_spec mem n b o :
  0 < n -> 0 < b < 2 ^ 64 -> granted o ->
  wp (filecache_new mem n b) o (fun '(r, mem') o' =>
    mem' = mem /\ (o = [] -> o' = [] /\ (n * 8 <= PTRDIFF_MAX -> is_Some r)) /\
    forall fc, r = Some fc -> exists sm c, last_id sm = 0 /\ max_bytes c = b /\
      forall m, fc_rep m fc sm c (no_names n) (no_entries n)).
Proof.
  intros Hn Hb Hg. unfold filecache_new. wp.
  apply wp_granted; [done|unfold sizeof_filecache, PTRDIFF_MAX; lia|]. intros o1 Ho1. cbn [negb]. wp.
  eapply wp_mono; [by apply stringmap_new_spec|]. intros [sm|] o2 [Ho2 Hsm].
  2:{ cbn. wp. destruct mem. split; [done|]. split; [|done]. intros Ho. destruct (Ho2 (Ho1 Ho)) as [-> H].
      split; [done|]. intros Hm. by destruct (H Hm). }
  destruct (Hsm sm eq_refl) as (_ & Hid & Hrep). wp.
  eapply wp_mono; [by apply (cache_new_spec (A := fileinfo))|]. intros [c|] o3 [Ho3 Hc]; wp.
  - split; [done|]. split; [intros Ho; split; [by apply Ho3, Ho2, Ho1|done]|].
    intros fc [= <-]. destruct (Hc c eq_refl) as [Hmx Hcr]. exists sm, c. split; [done|]. split; [done|].
    intros m. by apply empty_rep.
  - unfold stringmap_free. rewrite (sr_table _ _ _ (Hrep (hs mem))).
    eapply wp_mono; [apply free_table_spec, Hrep|]. intros h o4 [Hf ->]. wp.
    rewrite (proj1 (empty_table _)) in Hf. apply freed_nothing in Hf as ->. destruct mem. split; [done|].
    split; [|done]. intros Ho. destruct (Ho3 (proj1 (Ho2 (Ho1 Ho)))) as [-> H]. split; [done|].
    intros Hm. specialize (H Hm ltac:(unfold HOTLIST_SIZE, PTRDIFF_MAX; lia)). by destruct H.
Qed.

Lemma filecache_free_spec mem fc sm c ts tc o :
  fc_rep mem fc sm c ts tc ->
  wp (filecache_free mem (Some fc)) o (fun mem' o' =>
    freed (feet ts) (hs mem) (hs mem') /\ freed (feet tc) (hc mem) (hc mem') /\
    log mem' = log mem ++ items tc /\ o' = o).
Proof.
  intros [Hn Hm _ Hsm Hc _]. cbn [filecache_free]. rewrite Hn, Hm. wp. eapply wp_mono; [by apply free_meta_spec|].
  intros mem1 o1 (Hf1 & Hhs & Hl & ->). rewrite <-Hhs in Hsm. eapply wp_mono; [by apply free_names_spec|].
  intros mem2 o2 (Hf2 & Hhc & Hl2 & ->). rewrite Hhs in Hf2. rewrite <-Hhc in Hf1. by rewrite Hl2.
Qed.

(** * Calls *)

Inductive call : Type :=
| Add (disk : list Z -> opened) (rands : list Z) (fi : fileinfo) (pin : bool)
| Get (s : list Z)
| Exists' (s : list Z)
| Stat (s : list Z)
| Info (s : list Z).

Inductive answer : Type :=
| Added (rc : status)
| Got (r : option (option (list Z) * Z))
| Yes (b : bool)
| Stated (r : option stat)
| Found (r : option fileinfo).

Definition perform (w : filecache * memory) (k : call) : C (answer * (filecache * memory)) :=
  let '(fc, mem) := w in
  match k with
  | Add disk rands fi pin =>
      let* (rc, _, fc, mem) := filecache_add disk rands mem fc fi pin in ret (Added rc, (fc, mem))
  | Get s => let* (r, fc) := lift (filecache_get mem fc s) in ret (Got r, (fc, mem))
  | Exists' s => let* (b, fc) := lift (filecache_exists mem fc s) in ret (Yes b, (fc, mem))
  | Stat s => let* (r, fc) := lift (filecache_stat mem fc s) in ret (Stated r, (fc, mem))
  | Info s => let* (r, fc) := lift (filecache_fileinfo mem fc s) in ret (Found r, (fc, mem))
  end.

(** The abstract file cache: the files by alias, the aliases that exist, how many
    additions were tried, and the [fileinfo]s that were given away. *)
Record astate : Type := AState {
  stored : gmap (list Z) fileinfo;
  there : gset (list Z);
  tries : Z;
  given : list fileinfo;
}.

(** The same call on it; [filecache_exists] answers for the aliases, the other
    functions for the files. *)
Definition answers (m : astate) (k : call) (a : answer) (m' : astate) : Prop :=
  match k with
  | Add disk _ fi _ => exists s, alias fi = Some s /\
      ((exists got, readable disk fi got /\ a = Added success /\
          m' = AState (<[s := set_contents (Some got) fi]> (stored m)) ({[s]} ∪ there m) (tries m + 1) (given m ++ [fi])) \/
       (exists names, (names = there m \/ names = {[s]} ∪ there m) /\ a = Added failure /\
          m' = AState (stored m) names (tries m + 1) (given m ++ [fi])))
  | Get s => a = Got ((fun fi => (contents fi, u64 (st_size (st fi)))) <$> stored m !! s) /\ m' = m
  | Exists' s => a = Yes (bool_decide (s ∈ there m)) /\ m' = m
  | Stat s => a = Stated (st <$> stored m !! s) /\ m' = m
  | Info s => a = Found (stored m !! s) /\ m' = m
  end.

(** An alias has one file: adding it again ends the program. *)
Definition enabled (m : astate) (k : call) : Prop :=
  match k with
  | Add _ _ fi _ => contents fi = None /\ tries m < 2 ^ 64 - 1 /\
      exists s, alias fi = Some s /\ addable s /\ stored m !! s = None
  | Get s | Exists' s | Stat s | Info s => addable s
  end.

(** The state of a file cache made in the memory [mem0]. *)
Definition refines (mem0 : memory) (n : Z) (w : filecache * memory) (m : astate) : Prop :=
  let '(fc, mem) := w in
  exists sm c ts tc, fc_rep mem fc sm c ts tc /\
    evolves (hs mem0) (no_names n) (hs mem) ts /\ evolves (hc mem0) (no_entries n) (hc mem) tc /\
    files ts tc = stored m /\ known ts = there m /\ last_id sm <= tries m /\
    set_contents None <$> (log mem ++ items tc) ≡ₚ given m.

Lemma set_contents_none v fi : contents fi = None -> set_contents None (set_contents v fi) = fi.
Proof. destruct fi. cbn. by intros ->. Qed.

Lemma refines_lookup mem0 n fc mem m s :
  refines mem0 n (fc, mem) m -> addable s ->
  exists fc', lookup_info mem fc s = Ret (stored m !! s, fc') /\ refines mem0 n (fc', mem) m.
Proof.
  intros (sm & c & ts & tc & Hr & Hev & Hevc & Hf & Hk & Hid & Hg) Hs.
  destruct (lookup_info_spec _ _ _ _ _ _ _ Hr Hs) as (c' & -> & Hr' & _). eexists. rewrite Hf. split; [done|].
  by exists sm, c', ts, tc.
Qed.

Lemma exists_spec mem fc sm c ts tc s :
  fc_rep mem fc sm c ts tc -> addable s ->
  filecache_exists mem fc s = Ret (bool_decide (s ∈ known ts), fc).
Proof.
  intros [Hn Hm Hl Hsm _ _] [Hv Hne]. destruct fc as [fn mc lk ne by_]. cbn in Hn, Hm, Hl. subst.
  unfold filecache_exists, acquire. cbn [lock set_lock filenames res_bind deref].
  destruct (stringmap_lookup_spec _ _ _ s Hsm Hv Hne) as [_ ->]. rewrite <-known_spec.
  by destruct (numbers ts !! s).
Qed.

Lemma refines_exists mem0 n fc mem m s :
  refines mem0 n (fc, mem) m -> addable s ->
  exists fc', filecache_exists mem fc s = Ret (bool_decide (s ∈ there m), fc') /\ refines mem0 n (fc', mem) m.
Proof.
  intros (sm & c & ts & tc & Hr & Hev & Hevc & Hf & Hk & Hid & Hg) Hs. exists fc.
  rewrite (exists_spec _ _ _ _ _ _ _ Hr Hs), Hk. split; [done|]. by exists sm, c, ts, tc.
Qed.

Lemma filecache_call_spec mem0 n w m k o :
  refines mem0 n w m -> enabled m k ->
  wp (perform w k) o (fun '(a, w') o' =>
    exists m', answers m k a m' /\ refines mem0 n w' m' /\ (o = [] -> o' = [] /\ True)).
Proof.
  destruct w as [fc mem]. intros Hr Hen. destruct k as [disk rands fi pin|s|s|s|s]; cbn [perform answers].
  - destruct Hr as (sm & c & ts & tc & Hr & Hev & Hevc & Hf & Hk & Hid & Hg).
    destruct Hen as (Hfi & Ht & s & Hal & Hs & Hnone). rewrite <-Hf in Hnone. wp.
    eapply wp_mono; [eapply filecache_add_spec; try done; lia|].
    intros [[[rc pid] fc'] mem'] o' (sm' & c' & ts' & tc' & Hr' & Hev' & Hevc' & Hid' & _ & Hadd & Ho). wp.
    assert (Hrest : forall m', files ts' tc' = stored m' -> known ts' = there m' -> tries m' = tries m + 1 ->
      set_contents None <$> (log mem' ++ items tc') ≡ₚ given m' -> refines mem0 n (fc', mem') m').
    { intros m' E1 E2 E3 E4. exists sm', c', ts', tc'. split; [done|]. split; [by eapply evolves_trans|].
      split; [by eapply evolves_trans|]. split; [done|]. split; [done|]. split; [lia|done]. }
    assert (Hoo : o = [] -> o' = [] /\ True) by (intros E; split; [by apply Ho|done]).
    destruct rc; cbn [added] in Hadd.
    + destruct Hadd as ([v Hlog] & Hit & Hf' & Hk'). rewrite Hf in Hf'. rewrite Hk in Hk'.
      exists (AState (stored m) (known ts') (tries m + 1) (given m ++ [fi])). split; [|split; [apply Hrest; try done|done]].
      * exists s. split; [done|]. right. by exists (known ts').
      * cbn. rewrite Hlog, Hit, <-Hg, !fmap_app. cbn. rewrite set_contents_none by done. solve_Permutation.
    + destruct Hadd as (got & Hread & Hlog & Hit & Hf' & Hk'). rewrite Hf in Hf'. rewrite Hk in Hk'.
      eexists. split; [exists s; split; [done|]; left; by exists got|]. split; [apply Hrest; try done|done].
      cbn. rewrite Hlog, fmap_app, Hit, <-Hg, fmap_app. cbn. rewrite set_contents_none by done. solve_Permutation.
  - destruct (refines_lookup _ _ _ _ _ s Hr Hen) as (fc' & Hl & Hr'). unfold filecache_get. rewrite Hl. wp. by exists m.
  - destruct (refines_exists _ _ _ _ _ s Hr Hen) as (fc' & Hl & Hr'). rewrite Hl. wp. by exists m.
  - destruct (refines_lookup _ _ _ _ _ s Hr Hen) as (fc' & Hl & Hr'). unfold filecache_stat. rewrite Hl. wp. by exists m.
  - destruct (refines_lookup _ _ _ _ _ s Hr Hen) as (fc' & Hl & Hr'). unfold filecache_fileinfo. rewrite Hl. wp. by exists m.
Qed.

(** The files of the calls of [filecache_add], whatever they returned. *)
Definition offered (l : list (call * answer)) : list fileinfo :=
  omap (fun ka => match ka with (Add _ _ fi _, _) => Some fi | _ => None end) l.

Lemma run_offered m l m' : run answers m l m' -> given m' = given m ++ offered l.
Proof.
  induction 1 as [m|m k a m1 l m2 Hans _ IH]; [by rewrite app_nil_r|]. rewrite IH. unfold offered. cbn.
  destruct k as [disk rands fi pin|s|s|s|s]; cbn in Hans |- *; try by destruct Hans as [_ ->].
  destruct Hans as (s & _ & [(got & _ & _ & ->)|(names & _ & _ & ->)]); cbn; by rewrite <-app_assoc.
Qed.

(** C26. The file cache is a map from aliases to files: whatever calls a user makes
    on a new one, without adding an alias that has a file, get the answers of an
    abstract map, under any behaviour of the allocator, of [rand] and of the disk;
    the answers on a file are what was read and the [struct stat] that was given.
    After [filecache_free] the memory is as before, and every [fileinfo] that was
    given to [filecache_add], whether it succeeded or not, was freed exactly
    once. *)
Theorem filecache_is_map mem n b u o :
  0 < n -> 0 < b < 2 ^ 64 -> granted o -> log mem = [] -> allowed answers enabled (AState ∅ ∅ 0 []) u ->
  wp (filecache_new mem n b) o (fun '(r, mem1) o1 => mem1 = mem /\
    forall fc, r = Some fc ->
      wp (performs perform (fc, mem1) u) o1 (fun '(l, (fc', mem')) o2 =>
        (exists m, run answers (AState ∅ ∅ 0 []) l m) /\
        wp (filecache_free mem' (Some fc')) o2 (fun mem'' _ =>
          hs mem'' = hs mem /\ hc mem'' = hc mem /\ set_contents None <$> log mem'' ≡ₚ offered l))).
Proof.
  intros Hn Hb Hgr Hlog Hu. eapply wp_mono; [by apply filecache_new_spec|]. intros [r mem1] o1 (-> & _ & Hfc).
  split; [done|]. intros fc Hr. destruct (Hfc fc Hr) as (sm & c & Hid & _ & Hrep). specialize (Hrep mem).
  destruct (empty_files n) as (Hf0 & Hk0 & Hi0).
  destruct (empty_table (A := entry) (Z.to_nat n)) as [Hft _].
  destruct (empty_table (A := cache_entry (A := fileinfo)) (Z.to_nat n)) as [Hft' _].
  eapply wp_mono.
  - apply (performs_refine answers enabled perform (refines mem n) (fun _ => True)) with (m := AState ∅ ∅ 0 []).
    + intros. by apply filecache_call_spec.
    + exists sm, c, (no_names n), (no_entries n). split; [done|]. split; [apply evolves_refl|].
      split; [apply evolves_refl|]. split; [done|]. split; [done|]. split; [cbn; lia|].
      by rewrite Hi0, Hlog.
    + exact Hu.
  - intros [l [fc' mem']] o2 (m & Hrun & (sm' & c' & ts & tc & Hr' & Hev & Hevc & _ & _ & _ & Hg) & _).
    split; [by exists m|]. eapply wp_mono; [by eapply filecache_free_spec|].
    intros mem'' o3 (Hfs & Hfm & -> & _). split; [by eapply evolves_free|]. split; [by eapply evolves_free|].
    by rewrite Hg, (run_offered _ _ _ Hrun).
Qed.

(** With memory to spare, a file that can be read is served from memory under
    its alias: [filecache_get] gives the bytes that were read and their number,
    and [filecache_get_mime_type] the type it was given, cut without notice to
    the size of the array. *)
Theorem filecache_add_reads disk rands mem fc sm c ts tc fi s pin got ty mime cb :
  fc_rep mem fc sm c ts tc -> contents fi = None -> alias fi = Some s -> addable s ->
  files ts tc !! s = None -> last_id sm < 2 ^ 64 - 1 -> readable disk fi got -> zlen got <= PTRDIFF_MAX ->
  sizeof_fileinfo <= max_bytes c -> mimetype fi = Some ty -> Forall is_char ty -> 1 <= cb <= zlen mime -> cb < 2 ^ 64 ->
  exists pid fc' mem', filecache_add disk rands mem fc fi pin [] = Ret ((success, pid, fc', mem'), []) /\
    (exists fc2, filecache_get mem' fc' s = Ret (Some (Some got, zlen got), fc2)) /\
    exists mime' fc2, filecache_get_mime_type mem' fc' s mime cb = Ret (success, mime', fc2) /\
      str_at mime' = Ret (firstn (Z.to_nat (cb - 1)) ty).
Proof.
  intros Hr Hfi Hal Hs Hnone Hid Hread Hgot Hmax Hty Hch Hcb Hcb2.
  destruct (wp_eq _ _ _ (filecache_add_spec disk rands mem fc sm c ts tc fi s pin [] Hr Hfi Hal Hs Hnone Hid))
    as ([[[rc pid] fc'] mem'] & o' & Hadd & sm' & c' & ts' & tc' & Hr' & _ & _ & _ & _ & Hres & Ho).
  destruct (Ho eq_refl) as [-> H]. destruct (H got Hread Hgot (proj2 (proj1 Hs))) as [_ ->].
  rewrite (proj2 (Z.ltb_ge _ _) Hmax) in Hadd, Hres. exists pid, fc', mem'. split; [done|].
  destruct Hres as (got' & [Hop Hz] & _ & _ & Hf & _). destruct Hread as [Hop' _]. rewrite Hop' in Hop. injection Hop as <-.
  destruct (lookup_info_spec _ _ _ _ _ _ _ Hr' Hs) as (c2 & Hl & _). rewrite Hf, lookup_insert_eq in Hl. zlen_facts. split.
  - eexists. unfold filecache_get. rewrite Hl. cbn. rewrite <-Hz, u64_small by (unfold PTRDIFF_MAX in *; lia). done.
  - unfold filecache_get_mime_type. rewrite Hl. cbn [res_bind].
    destruct mime as [|x mime]; [rewrite zlen_nil in Hcb; lia|]. rewrite stc_head. cbn [res_bind].
    unfold fileinfo_mimetype. cbn [set_contents mimetype]. rewrite Hty, u64_small by lia.
    set (t := firstn _ ty). assert (Ht : zlen t <= cb - 1) by (unfold t, zlen; rewrite length_take; lia).
    rewrite wr_head by (rewrite zlen_cstr, !zlen_cons in *; lia). do 2 eexists. split; [done|].
    apply str_at_here. by apply Forall_take.
Qed.

(** An alias outlives the failure to add its file: in a file cache whose size
    is below that of a [fileinfo], no file can be added, however small, because
    the size that counts is that of the [fileinfo], not of the contents; but
    [filecache_exists] then finds the alias, and [filecache_get] fails on it. *)
Theorem filecache_ghost n b disk rands mem fi s pin got :
  0 < n -> n * 8 <= PTRDIFF_MAX -> 0 < b < sizeof_fileinfo -> contents fi = None -> alias fi = Some s ->
  addable s -> readable disk fi got -> zlen got <= PTRDIFF_MAX ->
  exists fc, filecache_new mem n b [] = Ret ((Some fc, mem), []) /\
    exists pid fc' mem', filecache_add disk rands mem fc fi pin [] = Ret ((failure, pid, fc', mem'), []) /\
      (exists v, log mem' = log mem ++ [set_contents v fi]) /\
      (exists fc2, filecache_exists mem' fc' s = Ret (true, fc2)) /\
      exists fc2, filecache_get mem' fc' s = Ret (None, fc2).
Proof.
  intros Hn Hn8 Hb Hfi Hal Hs Hread Hgot. unfold sizeof_fileinfo in Hb. assert (Hb2 : 0 < b < 2 ^ 64) by lia.
  destruct (wp_eq _ _ _ (filecache_new_spec mem n b [] Hn Hb2 I)) as ([r m1] & o1 & -> & -> & Ho & Hfc).
  destruct (Ho eq_refl) as [-> Hsome]. destruct (Hsome Hn8) as [fc ->]. exists fc. split; [done|].
  destruct (Hfc fc eq_refl) as (sm & c & Hid & Hmx & Hrep). specialize (Hrep mem).
  destruct (empty_files n) as (Hf0 & _ & _).
  assert (Hnone : files (no_names n) (no_entries n) !! s = None) by by rewrite Hf0.
  destruct (wp_eq _ _ _ (filecache_add_spec disk rands mem fc sm c _ _ fi s pin [] Hrep Hfi Hal Hs Hnone ltac:(lia)))
    as ([[[rc pid] fc'] mem'] & o' & Hadd & sm' & c' & ts' & tc' & Hr' & _ & _ & _ & _ & Hres & Ho').
  destruct (Ho' eq_refl) as [-> H]. destruct (H got Hread Hgot (proj2 (proj1 Hs))) as [Hin ->].
  rewrite Hmx in Hadd, Hres. change (b <? sizeof_fileinfo) with (b <? 176) in Hadd, Hres.
  rewrite (proj2 (Z.ltb_lt b 176)) in Hadd, Hres by lia. exists pid, fc', mem'. split; [done|].
  destruct Hres as (Hlog & _ & Hf & _). split; [done|]. split.
  - rewrite (exists_spec _ _ _ _ _ _ _ Hr' Hs), bool_decide_true by done. by eexists.
  - destruct (lookup_info_spec _ _ _ _ _ _ _ Hr' Hs) as (c2 & Hl & _). unfold filecache_get. rewrite Hl, Hf, Hf0.
    by eexists.
Qed.

(** ** Invalidating *)

Lemma invalidate_frees mem fc sm c ts tc o Q :
  fc_rep mem fc sm c ts tc ->
  (forall mem1, log mem1 = log mem ++ items tc ->
     wp (renew_tables mem1 (FileCache Dangling Dangling Writing (nelem fc) (bytes fc))) o Q) ->
  wp (filecache_invalidate mem fc) o Q.
Proof.
  intros [Hn Hm Hl Hsm Hc _] HQ. destruct fc as [fn mc lk ne by_]. cbn in Hn, Hm, Hl. subst.
  unfold filecache_invalidate, acquire. cbn [lock]. wp. cbn [set_lock filenames metacache].
  eapply wp_mono; [by apply free_names_spec|]. intros m1 o1 (_ & Hhc & Hlog & ->). rewrite <-Hhc in Hc.
  wp. eapply wp_mono; [by apply free_meta_spec|]. intros m2 o2 (_ & _ & Hlog2 & ->). apply HQ. by rewrite Hlog2, Hlog.
Qed.

(** The answers of the allocator for the two tables of [n] cells. *)
Lemma stringmap_new_granted n o :
  0 < n -> n * 8 <= PTRDIFF_MAX ->
  stringmap_new n (true :: true :: o) = Ret (Some (StringMap n (replicate (Z.to_nat n) None) 0), o) /\
  stringmap_new n (false :: o) = Ret (None, o).
Proof.
  intros Hn H8. unfold stringmap_new, bind, lift, guard. rewrite (proj2 (Z.ltb_lt 0 n)) by done. cbn.
  change (sizeof_stringmap <=? PTRDIFF_MAX) with true. cbn. by rewrite (proj2 (Z.leb_le (n * 8) _)).
Qed.

(** With memory to spare the file cache is as new. *)
Lemma filecache_invalidate_renews mem fc sm c ts tc :
  fc_rep mem fc sm c ts tc -> 0 < nelem fc -> nelem fc * 8 <= PTRDIFF_MAX -> 0 < bytes fc < 2 ^ 64 ->
  wp (filecache_invalidate mem fc) [] (fun '(ok, fc', mem') o' => o' = [] /\ ok = true /\
    log mem' = log mem ++ items tc /\ exists sm' c', last_id sm' = 0 /\ max_bytes c' = bytes fc /\
      fc_rep mem' fc' sm' c' (no_names (nelem fc)) (no_entries (nelem fc))).
Proof.
  intros Hr Hpos H8 Hb. eapply invalidate_frees; [done|]. intros m1 Hlog. unfold renew_tables. wp. cbn [nelem].
  eapply wp_mono; [by apply stringmap_new_spec|]. intros r o1 [Ho1 Hsm]. destruct (Ho1 eq_refl) as [-> Hs].
  destruct (Hs H8) as [sm' ->]. destruct (Hsm sm' eq_refl) as (_ & Hid & Hrep). wp. cbn [set_filenames nelem bytes].
  eapply wp_mono; [by apply (cache_new_spec (A := fileinfo))|]. intros r o2 [Ho2 Hc]. destruct (Ho2 eq_refl) as [-> Hs2].
  destruct (Hs2 H8 ltac:(unfold HOTLIST_SIZE, PTRDIFF_MAX; lia)) as [c' ->]. destruct (Hc c' eq_refl) as [Hmx Hcr]. wp.
  split; [done|]. split; [done|]. split; [done|]. exists sm', c'. split; [done|]. split; [done|]. by apply empty_rep.
Qed.

(** [filecache_invalidate] frees every file.  With memory, the file cache is
    then empty.  When the new string map cannot be allocated it returns 0 and
    [filecache_free] follows the pointer to the cache that was freed; when the
    new cache cannot be allocated it returns 1 all the same, and the next use
    fails an assertion. *)
Theorem filecache_invalidate_dangles mem fc sm c ts tc :
  fc_rep mem fc sm c ts tc -> 0 < nelem fc -> nelem fc * 8 <= PTRDIFF_MAX -> 0 < bytes fc < 2 ^ 64 ->
  (exists fc' mem', filecache_invalidate mem fc [] = Ret ((true, fc', mem'), []) /\ log mem' = log mem ++ items tc /\
     forall s, addable s -> filecache_exists mem' fc' s = Ret (false, fc')) /\
  (exists fc' mem', filecache_invalidate mem fc [false] = Ret ((false, fc', mem'), []) /\
     filecache_free mem' (Some fc') [] = Fault OutOfBounds) /\
  exists fc' mem', filecache_invalidate mem fc [true; true; false] = Ret ((true, fc', mem'), []) /\
     forall s, filecache_get mem' fc' s = Fault AssertFailed.
Proof.
  intros Hr Hpos H8 Hb. split_and!.
  - destruct (wp_eq _ _ _ (filecache_invalidate_renews _ _ _ _ _ _ Hr Hpos H8 Hb))
      as ([[ok fc'] mem'] & o' & E & -> & -> & Hlog & sm' & c' & _ & _ & Hr').
    exists fc', mem'. split; [done|]. split; [done|]. intros s Hs. rewrite (exists_spec _ _ _ _ _ _ _ Hr' Hs).
    destruct (empty_files (nelem fc)) as (_ & -> & _). by rewrite bool_decide_false by set_solver.
  - edestruct (wp_eq (filecache_invalidate mem fc) [false] (fun '(ok, fc', mem') o' => o' = [] /\ ok = false /\
      metacache fc' = Dangling)) as ([[ok fc'] mem'] & o' & E & -> & -> & Hd).
    + eapply invalidate_frees; [done|]. intros m1 _. unfold renew_tables, wp, bind at 1. cbn [nelem].
      by rewrite (proj2 (stringmap_new_granted _ _ Hpos H8)).
    + exists fc', mem'. split; [done|]. unfold filecache_free, free_meta, bind. by rewrite Hd.
  - edestruct (wp_eq (filecache_invalidate mem fc) [true; true; false] (fun '(ok, fc', mem') o' => o' = [] /\ ok = true /\
      filenames fc' = Null /\ lock fc' = Unlocked)) as ([[ok fc'] mem'] & o' & E & -> & -> & Hd & Hl).
    + eapply invalidate_frees; [done|]. intros m1 _. unfold renew_tables. wp. cbn [nelem]. unfold wp at 1.
      rewrite (proj1 (stringmap_new_granted _ _ Hpos H8)). cbn [set_filenames nelem bytes].
      unfold cache_new, bind, lift, guard. rewrite (proj2 (Z.ltb_lt 0 (bytes fc))) by lia. cbn.
      fold (replicate (Z.to_nat (nelem fc)) (None (A := loc))).
      assert (Hf : forall k h, free_table (A := entry) (replicate k None) h = ret h) by (by induction k).
      rewrite Hf. done.
    + exists fc', mem'. split; [done|]. intros s. unfold filecache_get, lookup_info, acquire. rewrite Hl. cbn.
      by rewrite Hd.
Qed.

End FileCache.

(** * Witnesses *)

(** A [struct stat] that is only a size; a disk with one file of three bytes. *)
Definition demo_size (n : Z) : Z := n.

Definition demo_disk (s : list Z) : opened :=
  if bool_decide (s = Prelude.bytes "f") then Opened (Some (Prelude.bytes "abc")) true else NoFile.

Definition demo_info : fileinfo := FileInfo 3 (Some (Prelude.bytes "text/plain")) (Some (Prelude.bytes "f")) (Some (Prelude.bytes "/f")) None.

Definition demo_empty : memory (stat := Z) := Memory ∅ ∅ [].

Definition demo_filecache : filecache :=
  FileCache (Live (StringMap 1 [None] 0)) (Live (Cache.Cache 1000 0 1 [None] (replicate 10 0) 10)) Unlocked 1 1000.

Lemma demo_filecache_rep :
  fc_rep demo_empty demo_filecache (StringMap 1 [None] 0) (Cache.Cache 1000 0 1 [None] (replicate 10 0) 10)
    [Slot None [] []] [Slot None [] []].
Proof.
  apply (empty_rep _ _ _ _ 1); try done.
  - constructor; try done; repeat constructor. intros [|i] sl Hsl; [|done]. by injection Hsl as <-.
  - constructor; try done; repeat constructor. intros [|i] sl Hsl; [|done]. by injection Hsl as <-.
Qed.

Lemma demo_addable : addable (Prelude.bytes "/f").
Proof. split; [|done]. split; [decide_closed|by vm_compute]. Qed.

Lemma demo_readable : readable demo_size demo_disk demo_info (Prelude.bytes "abc").
Proof. by vm_compute. Qed.

(** A file that is added and, if there was memory for it, looked up. *)
Definition demo_user : client (call (stat := Z)) (answer (stat := Z)) :=
  Do (Add demo_disk [] demo_info false) (fun a => match a with
    | Added success => Do (Get (Prelude.bytes "/f")) (fun _ => Stop)
    | _ => Stop
    end).

Lemma filecache_is_map_witness :
  wp (filecache_new demo_empty 2 1000) [true; true; true] (fun '(r, mem1) o1 => mem1 = demo_empty /\
    forall fc, r = Some fc ->
      wp (performs (perform demo_size) (fc, mem1) demo_user) o1 (fun '(l, (fc', mem')) o2 =>
        (exists m, run (answers demo_size) (AState ∅ ∅ 0 []) l m) /\
        wp (filecache_free mem' (Some fc')) o2 (fun mem'' _ =>
          hs mem'' = hs demo_empty /\ hc mem'' = hc demo_empty /\ set_contents None <$> log mem'' ≡ₚ offered l))).
Proof.
  apply (filecache_is_map demo_size demo_empty 2 1000 demo_user [true; true; true]); try done.
  split.
  - split; [done|]. split; [done|]. exists (Prelude.bytes "/f"). split; [done|]. split; [apply demo_addable|done].
  - intros a m Ha. destruct a as [[]| | | |]; try exact I. split; [apply demo_addable|]. intros ? ? _. exact I.
Defined.

Lemma filecache_add_reads_witness :
  exists pid fc' mem', filecache_add demo_size demo_disk [] demo_empty demo_filecache demo_info false [] =
      Ret ((success, pid, fc', mem'), []) /\
    (exists fc2, filecache_get demo_size mem' fc' (Prelude.bytes "/f") =
      Ret (Some (Some (Prelude.bytes "abc"), zlen (Prelude.bytes "abc")), fc2)) /\
    exists mime' fc2, filecache_get_mime_type mem' fc' (Prelude.bytes "/f") (replicate 5 None) 5 = Ret (success, mime', fc2) /\
      str_at mime' = Ret (firstn (Z.to_nat (5 - 1)) (Prelude.bytes "text/plain")).
Proof.
  apply (filecache_add_reads demo_size demo_disk [] demo_empty demo_filecache (StringMap 1 [None] 0)
    (Cache.Cache 1000 0 1 [None] (replicate 10 0) 10) [Slot None [] []] [Slot None [] []]); try done.
  - apply demo_filecache_rep.
  - apply demo_addable.
  - decide_closed.
Defined.

Lemma filecache_ghost_witness :
  exists fc, filecache_new demo_empty 1 100 [] = Ret ((Some fc, demo_empty), []) /\
    exists pid fc' mem', filecache_add demo_size demo_disk [] demo_empty fc demo_info false [] =
        Ret ((failure, pid, fc', mem'), []) /\
      (exists v, log mem' = log demo_empty ++ [set_contents v demo_info]) /\
      (exists fc2, filecache_exists mem' fc' (Prelude.bytes "/f") = Ret (true, fc2)) /\
      exists fc2, filecache_get demo_size mem' fc' (Prelude.bytes "/f") = Ret (None, fc2).
Proof.
  apply (filecache_ghost demo_size 1 100 demo_disk [] demo_empty demo_info (Prelude.bytes "/f") false (Prelude.bytes "abc")); try done.
  apply demo_addable.
Defined.

Lemma filecache_invalidate_dangles_witness :
  (exists fc' mem', filecache_invalidate demo_empty demo_filecache [] = Ret ((true, fc', mem'), []) /\
     log mem' = log demo_empty ++ items [Slot None [] []] /\
     forall s, addable s -> filecache_exists mem' fc' s = Ret (false, fc')) /\
  (exists fc' mem', filecache_invalidate demo_empty demo_filecache [false] = Ret ((false, fc', mem'), []) /\
     filecache_free mem' (Some fc') [] = Fault OutOfBounds) /\
  exists fc' mem', filecache_invalidate demo_empty demo_filecache [true; true; false] = Ret ((true, fc', mem'), []) /\
     forall s, filecache_get demo_size mem' fc' s = Fault AssertFailed.
Proof.
  apply (filecache_invalidate_dangles demo_size demo_empty demo_filecache (StringMap 1 [None] 0)
    (Cache.Cache 1000 0 1 [None] (replicate 10 0) 10) [Slot None [] []] [Slot None [] []]); try done.
  apply demo_filecache_rep.
Defined.
