(* ===== verification/FindFiles.v ===== *)
(** FindFiles: the files on disk that the web cache loads, from
    apps/webcache/find_files.c, with get_basename of meta/src/meta_misc.c.

    What is on disk is a tree of names; what [opendir], [readdir] and [stat] answer
    is read off it, and [fnmatch] is a parameter.  The list that is filled is
    the sequence it holds; what is left on it after a failure is the caller's.

    [walk_finds] shows that the walk finds the files of the trees whose names
    match a pattern, in order; [files_distinct] that no path, and no alias,
    occurs twice in a tree; [changes_found] what the comparison of the disk with
    the cache tells. *)

From Stdlib Require Import ZArith Lia.
From stdpp Require Import base list numbers.
From S2P Require Import Prelude Cstring MetaMisc MetaList HttpBase MetaError FileCache.

(** * Base names *)

(** The string behind the last [c], if there is one. *)
Fixpoint behind_last (c : Z) (s : list Z) : option (list Z) :=
  match s with
  | [] => None
  | x :: s => match behind_last c s with Some t => Some t | None => if x =? c then Some s else None end
  end.

Definition SLASH : Z := ch "/".

(** The part of [name] behind its last slash. *)
Definition base (name : list Z) : list Z := default name (behind_last SLASH name).

Definition get_basename (name : list Z) (suffix : option (list Z)) (dest : block) (destsize : Z) : res block :=
  r_assert (1 <? destsize);;
  let+ dest := strncpy dest (base name) destsize in
  let+ dest := stc dest (destsize - 1) 0 in
  match suffix with
  | None => Ret dest
  | Some suffix =>
      let+ t := str_at dest in
      match strstr t suffix with
      | None => Ret dest
      | Some k =>
          let i := zlen suffix in
          let+ c := ldc dest (Z.of_nat k + i) in
          if c =? 0 then stc dest (Z.of_nat k) 0 else Ret dest
      end
  end.

(** The suffix is looked for from the left, so that what is cut off has to be the
    first occurrence. *)
Definition without (suffix : option (list Z)) (t : list Z) : list Z :=
  match suffix with
  | None => t
  | Some suffix =>
      match strstr t suffix with
      | Some k => if (k + length suffix =? length t)%nat then firstn k t else t
      | None => t
      end
  end.

Lemma behind_last_suffix c s t : behind_last c s = Some t -> exists a, s = a ++ c :: t.
Proof.
  revert t. induction s as [|x s IH]; intros t; [done|]. cbn [behind_last].
  destruct (behind_last c s) as [u|].
  - intros [= ->]. destruct (IH t eq_refl) as [a ->]. by exists (x :: a).
  - destruct (Z.eqb_spec x c) as [->|]; [|done]. intros [= ->]. by exists [].
Qed.

Lemma base_suffix s : exists a, s = a ++ base s.
Proof.
  unfold base. destruct (behind_last SLASH s) as [t|] eqn:H; cbn; [|by exists []].
  apply behind_last_suffix in H as [a ->]. exists (a ++ [SLASH]). by rewrite <- app_assoc.
Qed.

Lemma base_chars P s : Forall P s -> Forall P (base s).
Proof. destruct (base_suffix s) as [a Ha]. rewrite Ha at 1. by intros [_ ?]%Forall_app. Qed.

Lemma base_length s : zlen (base s) <= zlen s.
Proof. destruct (base_suffix s) as [a Ha]. rewrite Ha at 2. rewrite zlen_app. pose proof (zlen_nonneg a). lia. Qed.

Lemma strstr_bound t p k : strstr t p = Some k -> (k + length p <= length t)%nat.
Proof.
  revert k. induction t as [|x t IH]; intros k; cbn [strstr].
  - destruct p; [by intros [= <-]|done].
  - destruct (prefixb p (x :: t)) eqn:Hp.
    + intros [= <-]. assert (Hpre : forall p s, prefixb p s = true -> (length p <= length s)%nat).
      { clear. induction p as [|a p IHp]; intros [|b s]; cbn; try done; try lia. intros [_ ?]%andb_true_iff.
        specialize (IHp _ ltac:(eassumption)). lia. }
      by apply Hpre.
    + destruct (strstr t p) as [j|]; [|done]. intros [= <-]. specialize (IH j eq_refl). cbn. lia.
Qed.

(** [get_basename] copies the last part of a path, as much as fits, and cuts off
    the suffix if its first occurrence is at the end. *)
Theorem get_basename_cuts name suffix dest destsize :
  zlen dest = destsize -> 1 < destsize -> Forall is_char name ->
  exists d, get_basename name suffix dest destsize = Ret d /\
    str_at d = Ret (without suffix (firstn (Z.to_nat (destsize - 1)) (base name))).
Proof.
  intros <- Hd Hn. destruct (strncpy_ended dest (base name)) as (k & m & Hs & Hm & Hst & Hz); [lia|].
  set (t := firstn _ (base name)) in *. assert (Ht : Forall is_char t) by (by apply Forall_take, base_chars).
  unfold get_basename, guard. rewrite (proj2 (Z.ltb_lt _ _)) by done. cbn [res_bind]. rewrite Hs. cbn [res_bind].
  rewrite Hst. cbn [res_bind].
  destruct suffix as [suffix|]; cbn [without]; [|eexists; split; [done|by apply str_at_here]].
  rewrite str_at_here by done. cbn [res_bind].
  destruct (strstr t suffix) as [j|] eqn:Hj; [|eexists; split; [done|by apply str_at_here]].
  pose proof (strstr_bound _ _ _ Hj) as Hb. set (i := (j + length suffix)%nat) in *.
  assert (Hi : Z.of_nat j + zlen suffix = Z.of_nat i) by (unfold i, zlen; lia). rewrite Hi.
  assert (Hcut : forall n, cstr t ++ replicate k (Some 0) =
      (Some <$> take n t) ++ (Some <$> drop n t) ++ Some 0 :: replicate k (Some 0)).
  { intros n. rewrite app_assoc, <- fmap_app, take_drop. unfold cstr. by rewrite <- app_assoc. }
  assert (Hlen : forall n, (n <= length t)%nat -> zlen (Some <$> take n t) = Z.of_nat n).
  { intros n Hn'. unfold zlen. rewrite length_fmap, length_take. lia. }
  assert (Hload : ldc (cstr t ++ replicate k (Some 0)) (Z.of_nat i) = Ret (default 0 (t !! i))).
  { rewrite (Hcut i). destruct (drop i t) as [|c u] eqn:Hd'.
    - cbn [fmap list_fmap app]. rewrite ldc_app by (symmetry; by apply Hlen). rewrite lookup_ge_None_2; [done|].
      apply (f_equal length) in Hd'. rewrite length_drop in Hd'. cbn in Hd'. lia.
    - cbn [fmap list_fmap app]. rewrite ldc_app by (symmetry; by apply Hlen).
      rewrite <- (Nat.add_0_r i), <- lookup_drop, Hd'. done. }
  rewrite Hload. cbn [res_bind]. destruct (Nat.eqb_spec i (length t)) as [He|Hne].
  - rewrite lookup_ge_None_2 by lia. cbn [default]. rewrite Z.eqb_refl, (Hcut j).
    destruct (drop j t) as [|c u]; cbn [fmap list_fmap app];
      (rewrite stc_app by (symmetry; apply Hlen; lia)); (eexists; split; [done|]);
      by apply (str_at_cstr (take j t)), Forall_take.
  - destruct (lookup_lt_is_Some_2 t i) as [c Hc]; [lia|]. rewrite Hc.
    assert (Hcc : is_char c) by (by eapply list.Forall_lookup_1 in Hc).
    change (default 0 (Some c)) with c. rewrite is_char_nonzero by done. eexists. split; [done|]. by apply str_at_here.
Qed.

Section FindFiles.
Context {stat : Type} (zero_stat : stat).
Variable fnmatch : list Z -> list Z -> bool.
(** What the stack holds behind the array of the extension. *)
Variable stack : block.

Abbreviation fileinfo := (FileCache.fileinfo (stat := stat)).

(** What a name is: nothing that [stat] finds, a file, something else, or a
    directory, which [opendir] opens or not (for lack of permission, or for
    another reason). *)
Inductive tree : Type :=
| Gone
| Regular (st : stat)
| Special
| Denied
| Unopened
| Subdir (entries : list (list Z * tree)).

(** The type of a file, with its terminator, in the array. *)
Definition popen_mime_type (filename : list Z) (buf : block) : res block :=
  let+ s := get_mime_type filename (replicate 100 None ++ stack) in wr buf 0 (cstr s).

(** A file that does not start with the directory ends the program. *)
Definition create_known_as (rootdir file : list Z) : res (list Z) :=
  match strstr file rootdir with
  | Some O =>
      let s := drop (length rootdir) file in
      Ret (match s with c :: s' => if c =? SLASH then s' else s | [] => s end)
  | _ => Fault Died
  end.

(** [list_add] *)
Definition add_last (lst : list fileinfo) (fi : fileinfo) : C (bool * list fileinfo) :=
  let* ok := alloc_ok sizeof_node in
  ret (if ok : bool then (true, lst ++ [fi]) else (false, lst)).

(** The object of a file whose name matches. *)
Definition describe (get_mimetype : bool) (rootdir path : list Z) (pst : stat) (lst : list fileinfo)
    : C (bool * list fileinfo) :=
  let* fi := fileinfo_new zero_stat in
  match fi with
  | None => ret (false, lst)
  | Some fi =>
      let mimetype := replicate 2048 None in
      let* mimetype := lift (if get_mimetype then popen_mime_type path mimetype else stc mimetype 0 0) in
      let* known_as := lift (create_known_as rootdir path) in
      let fi := fileinfo_set_stat fi pst in
      let* (rc, fi) := fileinfo_set_alias fi known_as in
      match rc with
      | failure => ret (false, lst)
      | success =>
          let* (rc, fi) := fileinfo_set_name fi path in
          match rc with
          | failure => ret (false, lst)
          | success =>
              let* mimetype := lift (str_at mimetype) in
              let* (rc, fi) := fileinfo_set_mimetype fi mimetype in
              match rc with
              | failure => ret (false, lst)
              | success => add_last lst fi
              end
          end
      end
  end.

(** The first pattern that matches is the last one that is tried. *)
Fixpoint match_loop (patterns : list (list Z)) (base : list Z) (found : C (bool * list fileinfo)) (lst : list fileinfo)
    : C (bool * list fileinfo) :=
  match patterns with
  | [] => ret (true, lst)
  | p :: patterns => if fnmatch p base then found else match_loop patterns base found lst
  end.

Definition handle_one_file (patterns : list (list Z)) (get_mimetype : bool) (rootdir path : list Z) (pst : stat)
    (lst : list fileinfo) : C (bool * list fileinfo) :=
  let cb := zlen path + 1 in
  let* base := malloc cb in
  match base with
  | None => ret (false, lst)
  | Some base =>
      let* base := lift (get_basename path None base cb) in
      let* base := lift (str_at base) in
      match_loop patterns base (describe get_mimetype rootdir path pst lst) lst
  end.

Definition dots (d_name : list Z) : bool := (strcmp d_name (Prelude.bytes ".") =? 0) || (strcmp d_name (Prelude.bytes "..") =? 0).

(** [snprintf(path, cb, "%s/%s", dirname, de->d_name)] *)
Definition join (dirname d_name : list Z) : list Z := dirname ++ SLASH :: d_name.

(** The loop over a directory; [walk]: the call for one that is in it. *)
Definition read_dir (one_file : list Z -> stat -> list fileinfo -> C (bool * list fileinfo))
    (walk : list Z -> tree -> list fileinfo -> C (status * list fileinfo)) (dirname : list Z) :=
  fix loop (l : list (list Z * tree)) (lst : list fileinfo) {struct l} : C (status * list fileinfo) :=
    match l with
    | [] => ret (success, lst)
    | (d_name, t) :: l =>
        if dots d_name then loop l lst
        else
          let cb := zlen dirname + 1 + zlen d_name + 1 in
          let* ok := alloc_ok cb in
          if negb ok then ret (failure, lst)
          else
            let path := join dirname d_name in
            match t with
            | Gone => ret (failure, lst)
            | Special => loop l lst
            | Regular st =>
                let* (rc, lst) := one_file path st lst in
                if rc : bool then loop l lst else ret (failure, lst)
            | Denied | Unopened | Subdir _ =>
                let* (rc, lst) := walk path t lst in
                match rc with failure => ret (failure, lst) | success => loop l lst end
            end
    end.

Fixpoint find_files (patterns : list (list Z)) (get_mimetype : bool) (rootdir dirname : list Z) (t : tree)
    (lst : list fileinfo) {struct t} : C (status * list fileinfo) :=
  match t with
  | Gone | Regular _ | Special | Unopened => ret (failure, lst)
  | Denied => ret (success, lst)
  | Subdir entries =>
      read_dir (handle_one_file patterns get_mimetype rootdir) (find_files patterns get_mimetype rootdir) dirname
        entries lst
  end.

(** The loop over the directories; [disk]: the tree of a name. *)
Fixpoint walk_loop (disk : list Z -> tree) (patterns : list (list Z)) (get_mimetype : bool) (pstr : list cstring)
    (lst : list fileinfo) : C (status * list fileinfo) :=
  match pstr with
  | [] => ret (success, lst)
  | p :: pstr =>
      let* rootdir := lift (str_at (c_str p)) in
      let* (rc, lst) := find_files patterns get_mimetype rootdir rootdir (disk rootdir) lst in
      match rc with failure => ret (failure, lst) | success => walk_loop disk patterns get_mimetype pstr lst end
  end.

Definition blanks : list Z := [32; 9].

Definition walk_all_directories (disk : list Z -> tree) (directories : list Z) (patterns : list (list Z))
    (lst : list fileinfo) (get_mimetype : bool) : C (status * list fileinfo) :=
  let* (nelem, pstr) := cstring_split directories blanks in
  if nelem =? 0 then ret (failure, lst)
  else
    match pstr with
    | None => lift (Fault OutOfBounds)
    | Some pstr => walk_loop disk patterns get_mimetype pstr lst
    end.

(** * The files of a tree *)

(** The paths below a directory, with what [stat] says, in the order of the walk. *)
Definition files_below (below : list Z -> tree -> list (list Z * stat)) (dirname : list Z) (e : list Z * tree)
    : list (list Z * stat) :=
  if dots e.1 then []
  else match e.2 with Regular st => [(join dirname e.1, st)] | _ => below (join dirname e.1) e.2 end.

Fixpoint files_in (dirname : list Z) (t : tree) {struct t} : list (list Z * stat) :=
  match t with
  | Subdir entries => flat_map (files_below files_in dirname) entries
  | _ => []
  end.

(** What a file system answers: names that are not empty, without slashes, and no
    name twice; and no path is too long for [stat]. *)
Definition name_ok (n : list Z) : Prop := Forall is_char n /\ n <> [] /\ SLASH ∉ n.

Definition PATH_MAX : Z := 4096.

Fixpoint tree_ok (dirname : list Z) (t : tree) {struct t} : Prop :=
  match t with
  | Subdir entries =>
      NoDup (fst <$> entries) /\
      foldr (fun e P => (name_ok e.1 /\ zlen (join dirname e.1) < PATH_MAX /\ tree_ok (join dirname e.1) e.2) /\ P) True entries
  | _ => True
  end.

(** Every name can be examined, and every directory opened or it is one the user
    may not read. *)
Fixpoint readable_tree (t : tree) : bool :=
  match t with
  | Subdir entries =>
      forallb (fun e => dots e.1 || match e.2 with
                                    | Gone => false
                                    | Regular _ | Special => true
                                    | _ => readable_tree e.2
                                    end) entries
  | Denied => true
  | _ => false
  end.

Section Tree_ind.
Variable P : tree -> Prop.
Hypothesis Hgone : P Gone.
Hypothesis Hregular : forall st, P (Regular st).
Hypothesis Hspecial : P Special.
Hypothesis Hdenied : P Denied.
Hypothesis Hunopened : P Unopened.
Hypothesis Hsubdir : forall entries, Forall (fun e => P e.2) entries -> P (Subdir entries).

Fixpoint tree_ind' (t : tree) : P t :=
  match t with
  | Gone => Hgone
  | Regular st => Hregular st
  | Special => Hspecial
  | Denied => Hdenied
  | Unopened => Hunopened
  | Subdir entries =>
      Hsubdir entries ((fix go l : Forall (fun e => P e.2) l :=
        match l with [] => Forall_nil _ | e :: l => Forall_cons _ e l (tree_ind' e.2) (go l) end) entries)
  end.
End Tree_ind.

(** What is known of a file that is found. *)
Definition mime_of (path : list Z) : list Z :=
  match get_mime_type path (replicate 100 None ++ stack) with Ret s => s | Fault _ => [] end.

Definition alias_of (rootdir path : list Z) : list Z :=
  match drop (length rootdir) path with c :: s => if c =? SLASH then s else c :: s | [] => [] end.

Definition info (get_mimetype : bool) (rootdir : list Z) (f : list Z * stat) : fileinfo :=
  FileInfo f.2 (Some (if get_mimetype then mime_of f.1 else [])) (Some f.1) (Some (alias_of rootdir f.1)) None.

Definition wanted (patterns : list (list Z)) (f : list Z * stat) : bool :=
  existsb (fun p => fnmatch p (base f.1)) patterns.

(** The files a walk finds. *)
Definition found (patterns : list (list Z)) (get_mimetype : bool) (rootdir : list Z) (t : tree) : list fileinfo :=
  info get_mimetype rootdir <$> List.filter (wanted patterns) (files_in rootdir t).

(** * The walk *)

Hypothesis Hstack : 1 <= zlen stack.

Lemma mime_spec path : get_mime_type path (replicate 100 None ++ stack) = Ret (mime_of path) /\
  Forall is_char (mime_of path) /\ zlen (mime_of path) <= 30.
Proof.
  unfold mime_of. edestruct (wpr_eq _ _ (get_mime_type_spec path (replicate 100 None ++ stack) ltac:(rewrite zlen_app, zlen_replicate; lia)))
    as (ct & -> & H). done.
Qed.

Lemma prefixb_prefix p s : prefixb p (p ++ s) = true.
Proof. induction p as [|c p IH]; [done|]. cbn. by rewrite Z.eqb_refl. Qed.

Lemma known_as_spec rootdir t : create_known_as rootdir (rootdir ++ t) = Ret (alias_of rootdir (rootdir ++ t)).
Proof.
  unfold create_known_as, alias_of. replace (strstr (rootdir ++ t) rootdir) with (Some O).
  { by destruct (drop _ _). }
  pose proof (prefixb_prefix rootdir t) as H. destruct (rootdir ++ t); cbn [strstr]; [|by rewrite H].
  by destruct rootdir.
Qed.

(** The file is put on the list, or nothing is. *)
Definition one_found (lst new lst' : list fileinfo) (rc : bool) (o o' : oracle) : Prop :=
  lst' = (if rc then lst ++ new else lst) /\ (o = [] -> o' = [] /\ rc = true).

Definition path_ok (rootdir path : list Z) : Prop :=
  (exists t, path = rootdir ++ t) /\ Forall is_char path /\ 0 < zlen path < PATH_MAX.

(** A small request: granted, or refused by an allocator that refuses something. *)
Lemma wp_small n o (Q : bool -> oracle -> Prop) :
  n <= PTRDIFF_MAX -> (forall o', (o = [] -> o' = []) -> Q true o') -> (forall o', o <> [] -> Q false o') ->
  wp (alloc_ok n) o Q.
Proof.
  intros Hn Ht Hf. apply wp_alloc_ok. intros b o' _ Ho. destruct b.
  - apply Ht. intros E. by destruct (Ho E).
  - apply Hf. intros E. destruct (Ho E) as [_ H]. by rewrite (proj2 (Z.leb_le _ _)) in H.
Qed.

Ltac small := apply wp_small; [unfold sizeof_fileinfo, sizeof_node, PATH_MAX, PTRDIFF_MAX in *; lia| |].

Lemma alias_length rootdir path : zlen (alias_of rootdir path) <= zlen path.
Proof.
  unfold alias_of. assert (H : zlen (drop (length rootdir) path) <= zlen path) by (unfold zlen; rewrite length_drop; lia).
  destruct (drop _ _) as [|c u]; [done|]. rewrite zlen_cons in H. case_match; rewrite ?zlen_cons; lia.
Qed.

Lemma describe_spec gm rootdir path st lst o :
  path_ok rootdir path ->
  wp (describe gm rootdir path st lst) o (fun '(rc, lst') o' =>
    one_found lst [info gm rootdir (path, st)] lst' rc o o').
Proof.
  intros ([t Ht] & Hch & Hlen). unfold describe, fileinfo_new, fileinfo_set_alias, fileinfo_set_name, fileinfo_set_mimetype,
    dup_string, add_last.
  assert (Hno : forall o', o <> [] -> one_found lst [info gm rootdir (path, st)] lst false o o') by (by intros o' ?; split).
  destruct (mime_spec path) as (Hm & Hmc & Hml). pose proof (alias_length rootdir path) as Hal.
  assert (Hmime : exists b, (if gm then popen_mime_type path (replicate 2048 None) else stc (replicate 2048 None) 0 0) = Ret b /\
      str_at b = Ret (if gm then mime_of path else [])).
  { destruct gm; [|by eexists].
    unfold popen_mime_type. rewrite Hm. cbn [res_bind]. rewrite wr_head by (rewrite zlen_cstr, zlen_replicate; lia).
    eexists. split; [done|]. by apply str_at_here. }
  destruct Hmime as (b & Hb & Hsb).
  wp. small; intros o1 Ho1; wp; [|by apply Hno]. rewrite Hb. wp. rewrite Ht at 1. rewrite known_as_spec, <- Ht. wp.
  small; intros o2 Ho2; wp; [|apply Hno; by intros ->%Ho1]. 
  small; intros o3 Ho3; wp; [|apply Hno; by intros ->%Ho1%Ho2].
  assert (Hgm : zlen (if gm then mime_of path else []) <= 30) by (by destruct gm).
  rewrite Hsb. wp. small; intros o4 Ho4; wp; [|apply Hno; by intros ->%Ho1%Ho2%Ho3].
  small; intros o5 Ho5; wp; [|apply Hno; by intros ->%Ho1%Ho2%Ho3%Ho4].
  split; [done|]. intros E. split; [by apply Ho5, Ho4, Ho3, Ho2, Ho1|done].
Qed.


Lemma match_loop_spec patterns b found lst o (Q : bool * list fileinfo -> oracle -> Prop) :
  (existsb (fun p => fnmatch p b) patterns = true -> wp found o Q) ->
  (existsb (fun p => fnmatch p b) patterns = false -> Q (true, lst) o) ->
  wp (match_loop patterns b found lst) o Q.
Proof.
  induction patterns as [|p patterns IH]; cbn [match_loop existsb]; intros Ht Hf; [apply wp_ret; by apply Hf|].
  destruct (fnmatch p b); [by apply Ht|by apply IH].
Qed.

Lemma handle_one_file_spec patterns gm rootdir path st lst o :
  path_ok rootdir path ->
  wp (handle_one_file patterns gm rootdir path st lst) o (fun '(rc, lst') o' =>
    one_found lst (info gm rootdir <$> List.filter (wanted patterns) [(path, st)]) lst' rc o o').
Proof.
  intros Hp. pose proof Hp as (_ & Hch & Hlen). unfold PATH_MAX in Hlen. unfold handle_one_file.
  apply wp_bind, wp_malloc.
  2:{ intros o1 Ho1. apply wp_ret. split; [done|]. intros E. destruct (Ho1 E). unfold PTRDIFF_MAX in *. lia. }
  intros o1 _ Ho1.
  destruct (get_basename_cuts path None (replicate (Z.to_nat (zlen path + 1)) None) (zlen path + 1))
    as (d & -> & Hd); [rewrite zlen_replicate; lia|lia|done|].
  assert (Hb : str_at d = Ret (base path)).
  { rewrite Hd. cbn [without]. rewrite take_ge; [done|]. pose proof (base_length path). unfold zlen in *. lia. }
  wp. rewrite Hb. wp. cbn [List.filter]. unfold wanted. cbn [fst]. apply match_loop_spec; intros ->.
  - eapply wp_mono; [by apply describe_spec|]. intros [rc lst'] o' [Hl Ho]. split; [done|]. intros E. by apply Ho, Ho1.
  - split; [by rewrite app_nil_r|]. intros E. by split; [apply Ho1|].
Qed.

(** ** Directories *)

(** A walk adds the first of the files that are there to find; all of them when it
    succeeds, which it does on a tree that can be read, if memory lasts. *)
Definition walked (lst all lst' : list fileinfo) (readable : bool) (rc : status) (o o' : oracle) : Prop :=
  (exists k, lst' = lst ++ firstn k all) /\
  (rc = success -> lst' = lst ++ all /\ readable = true) /\
  (o = [] -> readable = true -> o' = [] /\ rc = success).

Lemma walked_step lst a b lst1 lst' rc ra rb o o1 o' :
  walked lst a lst1 ra success o o1 -> walked lst1 b lst' rb rc o1 o' -> walked lst (a ++ b) lst' (ra && rb) rc o o'.
Proof.
  intros (_ & Ha & Hoa) ((k & Hk) & Hb & Hob). destruct (Ha eq_refl) as [-> ->]. cbn [andb]. split; [|split].
  - exists (length a + k)%nat. by rewrite Hk, take_app_add, app_assoc.
  - intros E. destruct (Hb E) as [-> ->]. by rewrite app_assoc.
  - intros E Hr. destruct (Hoa E eq_refl) as [-> _]. by apply Hob.
Qed.

Lemma walked_stop lst a b lst1 ra rb o o1 :
  walked lst a lst1 ra failure o o1 -> walked lst (a ++ b) lst1 (ra && rb) failure o o1.
Proof.
  intros ((k & Hk) & _ & Ho). split; [|split; [done|]].
  - exists (Nat.min k (length a)). rewrite Hk. f_equal.
    rewrite take_app_le by lia. destruct (decide (k <= length a)%nat); [by rewrite Nat.min_l by lia|].
    rewrite Nat.min_r by lia. by rewrite !take_ge by lia.
  - intros E [Hra _]%andb_true_iff. by destruct (Ho E Hra).
Qed.

Lemma walked_nothing lst o o' : (o = [] -> o' = []) -> walked lst [] lst true success o o'.
Proof. intros Ho. split; [exists O; by rewrite app_nil_r|]. split; [by rewrite app_nil_r|]. intros E _. by split; [apply Ho|]. Qed.

Definition found_in (patterns : list (list Z)) (gm : bool) (rootdir : list Z) (l : list (list Z * stat)) : list fileinfo :=
  info gm rootdir <$> List.filter (wanted patterns) l.

Lemma found_app patterns gm rootdir a b :
  found_in patterns gm rootdir (a ++ b) = found_in patterns gm rootdir a ++ found_in patterns gm rootdir b.
Proof. unfold found_in. by rewrite List.filter_app, fmap_app. Qed.

Definition dir_ok (rootdir dirname : list Z) : Prop := (exists t, dirname = rootdir ++ t) /\ Forall is_char dirname.

Lemma join_ok rootdir dirname n :
  dir_ok rootdir dirname -> name_ok n -> zlen (join dirname n) < PATH_MAX ->
  dir_ok rootdir (join dirname n) /\ path_ok rootdir (join dirname n).
Proof.
  intros ([t ->] & Hd) (Hn & _ & _) Hl. unfold join in *.
  assert (Hc : Forall is_char ((rootdir ++ t) ++ SLASH :: n)) by (apply Forall_app; split; [done|by constructor; [done|]]).
  assert (He : exists u, (rootdir ++ t) ++ SLASH :: n = rootdir ++ u) by (eexists; by rewrite <- app_assoc).
  split; [done|]. split; [done|]. split; [done|]. split; [|done]. rewrite zlen_app, zlen_cons. zlen_facts. lia.
Qed.

Definition walks (patterns : list (list Z)) (gm : bool) (rootdir : list Z) (t : tree) : Prop :=
  forall dirname lst o, dir_ok rootdir dirname -> tree_ok dirname t ->
    wp (find_files patterns gm rootdir dirname t lst) o (fun '(rc, lst') o' =>
      walked lst (found_in patterns gm rootdir (files_in dirname t)) lst' (readable_tree t) rc o o').

Lemma walked_weaken lst all lst' r rc o o1 o' :
  (o = [] -> o1 = []) -> walked lst all lst' r rc o1 o' -> walked lst all lst' r rc o o'.
Proof. intros Ho (Hk & Hs & He). split; [done|]. split; [done|]. intros E. by apply He, Ho. Qed.

Lemma walked_refused lst all r o o' : (o <> [] \/ r = false) -> walked lst all lst r failure o o'.
Proof. intros H. split; [exists O; by rewrite app_nil_r|]. split; [done|]. intros -> ->. by destruct H. Qed.

Lemma read_dir_spec patterns gm rootdir dirname l :
  dir_ok rootdir dirname ->
  Forall (fun e => walks patterns gm rootdir e.2) l ->
  foldr (fun e P => (name_ok e.1 /\ zlen (join dirname e.1) < PATH_MAX /\ tree_ok (join dirname e.1) e.2) /\ P) True l ->
  forall lst o,
  wp (read_dir (handle_one_file patterns gm rootdir) (find_files patterns gm rootdir) dirname l lst) o
    (fun '(rc, lst') o' =>
      walked lst (found_in patterns gm rootdir (flat_map (files_below files_in dirname) l)) lst'
        (readable_tree (Subdir l)) rc o o').
Proof.
  intros Hdir. induction l as [|[n t] l IH]; intros Hall Hok lst o; [apply wp_ret; by apply walked_nothing|].
  apply list.Forall_cons in Hall as [Hw Hall]. cbn [foldr fst snd] in Hok. destruct Hok as [(Hn & Hlen & Ht) Hok].
  specialize (IH Hall Hok). cbn [read_dir flat_map fst snd]. rewrite found_app.
  change (files_below files_in dirname (n, t)) with
    (if dots n then [] else match t with Regular st => [(join dirname n, st)] | _ => files_in (join dirname n) t end).
  assert (Hr : readable_tree (Subdir ((n, t) :: l)) =
    (dots n || match t with Gone => false | Regular _ | Special => true | _ => readable_tree t end) && readable_tree (Subdir l))
    by done.
  rewrite Hr. clear Hr. destruct (dots n); [exact (IH lst o)|]. rewrite orb_false_l.
  destruct (join_ok _ _ _ Hdir Hn Hlen) as [Hdir' Hpath].
  assert (Hcb : zlen dirname + 1 + zlen n + 1 <= PTRDIFF_MAX).
  { unfold join, PATH_MAX, PTRDIFF_MAX in *. rewrite zlen_app, zlen_cons in Hlen. lia. }
  apply wp_bind, wp_small; [done| |]; intros o1 Ho1; cbn [negb]; [|apply wp_ret; apply walked_refused; by left].
  assert (Hsub : walks patterns gm rootdir t -> wp (let* (rc, lst0) := find_files patterns gm rootdir (join dirname n) t lst in
      match rc with
      | failure => ret (failure, lst0)
      | success => read_dir (handle_one_file patterns gm rootdir) (find_files patterns gm rootdir) dirname l lst0
      end) o1 (fun '(rc, lst') o' =>
        walked lst (found_in patterns gm rootdir (files_in (join dirname n) t) ++
          found_in patterns gm rootdir (flat_map (files_below files_in dirname) l)) lst'
          (readable_tree t && readable_tree (Subdir l)) rc o o')).
  { intros Hwt. apply wp_bind. eapply wp_mono; [by apply Hwt|]. intros [rc lst1] o2 Hst. eapply walked_weaken in Hst; [|done].
    destruct rc; [apply wp_ret; by apply walked_stop|]. eapply wp_mono; [apply IH|]. intros [rc lst2] o3 Hst2.
    by eapply walked_step. }
  destruct t as [|st| | | |entries].
  - apply wp_ret. apply walked_refused. by right.
  - apply wp_bind. eapply wp_mono; [by apply handle_one_file_spec|]. intros [rc lst1] o2 [-> Ho2]. destruct rc.
    + eapply wp_mono; [apply IH|]. intros [rc lst2] o3 Hst2.
      eapply (walked_step lst _ _ _ _ _ true); [|exact Hst2].
      split; [exists (length (info gm rootdir <$> List.filter (wanted patterns) [(join dirname n, st)])); by rewrite take_ge|].
      split; [done|]. intros E _. split; [by apply Ho2, Ho1|done].
    + apply wp_ret. apply walked_refused. left. intros E. by destruct (Ho2 (Ho1 E)).
  - cbn [files_in found_in List.filter fmap list_fmap app]. eapply wp_mono; [apply IH|]. intros [rc lst2] o3 Hst.
    by eapply walked_weaken.
  - by apply Hsub.
  - by apply Hsub.
  - by apply Hsub.
Qed.

Lemma find_files_spec patterns gm rootdir t : walks patterns gm rootdir t.
Proof.
  induction t as [|st| | | |entries IH] using tree_ind'; intros dirname lst o Hd Hok; cbn [find_files files_in readable_tree].
  1,2,3,5: apply wp_ret, walked_refused; by right.
  - apply wp_ret. by apply walked_nothing.
  - apply read_dir_spec; [done|done|apply Hok].
Qed.

(** ** Paths and aliases *)

Definition rest_of_path (r : list Z) : Prop := r = [] \/ exists u, r = SLASH :: u.

Lemma first_part n1 n2 r1 r2 :
  SLASH ∉ n1 -> SLASH ∉ n2 -> rest_of_path r1 -> rest_of_path r2 -> n1 ++ r1 = n2 ++ r2 -> n1 = n2.
Proof.
  revert n2. induction n1 as [|c n1 IH]; intros [|d n2] H1 H2' Hr1 Hr2 E; cbn in E; [done| | |].
  - subst r1. destruct Hr1 as [|[u [= -> _]]]; [done|]. destruct H2'. constructor.
  - subst r2. destruct Hr2 as [|[u [= -> _]]]; [done|]. destruct H1. constructor.
  - injection E as -> E. f_equal. apply IH; try done; intros Hin; [apply H1|apply H2']; by constructor.
Qed.

(** The paths below a directory start with its name. *)
Lemma files_in_prefix t dirname f : In f (files_in dirname t) -> exists u, f.1 = dirname ++ SLASH :: u.
Proof.
  revert dirname. induction t as [| | | | |entries IH] using tree_ind'; intros dirname; cbn [files_in]; try done.
  rewrite in_flat_map. intros ([n t] & He & Hf). unfold files_below in Hf. cbn [fst snd] in Hf.
  destruct (dots n); [done|].
  assert (Hrec : In f (files_in (join dirname n) t) -> exists u, f.1 = dirname ++ SLASH :: u).
  { rewrite list.Forall_forall in IH. intros Hin.
    destruct (IH (n, t) ltac:(by apply list_elem_of_In) _ Hin) as [u ->]. unfold join. rewrite <- app_assoc. by eexists. }
  destruct t; try by apply Hrec. destruct Hf as [<-|[]]. by exists n.
Qed.

Lemma files_below_form dirname e f :
  In f (files_below files_in dirname e) -> exists r, f.1 = dirname ++ SLASH :: e.1 ++ r /\ rest_of_path r.
Proof.
  destruct e as [n t]. unfold files_below. cbn [fst snd]. destruct (dots n); [done|].
  assert (Hrec : In f (files_in (join dirname n) t) -> exists r, f.1 = dirname ++ SLASH :: n ++ r /\ rest_of_path r).
  { intros [u ->]%files_in_prefix. exists (SLASH :: u). unfold join. rewrite <- !app_assoc. split; [done|]. right. by eexists. }
  destruct t; try exact Hrec. intros [<-|[]]. exists []. rewrite app_nil_r. split; [done|by left].
Qed.

Lemma tree_ok_entries dirname entries e :
  foldr (fun e P => (name_ok e.1 /\ zlen (join dirname e.1) < PATH_MAX /\ tree_ok (join dirname e.1) e.2) /\ P) True entries ->
  In e entries -> name_ok e.1 /\ zlen (join dirname e.1) < PATH_MAX /\ tree_ok (join dirname e.1) e.2.
Proof. induction entries as [|x l IH]; [done|]. cbn. intros [Hx Hl] [->|Hin]; [done|by apply IH]. Qed.

Lemma files_in_ok rootdir t dirname f :
  dir_ok rootdir dirname -> tree_ok dirname t -> In f (files_in dirname t) -> path_ok rootdir f.1.
Proof.
  revert dirname. induction t as [| | | | |entries IH] using tree_ind'; intros dirname Hd Hok; cbn [files_in]; try done.
  rewrite in_flat_map. intros (e & He & Hf). destruct Hok as [_ Hok].
  destruct (tree_ok_entries _ _ _ Hok He) as (Hn & Hlen & Ht). destruct (join_ok _ _ _ Hd Hn Hlen) as [Hd' Hp].
  unfold files_below in Hf. destruct (dots e.1); [done|].
  assert (Hrec : In f (files_in (join dirname e.1) e.2) -> path_ok rootdir f.1).
  { rewrite list.Forall_forall in IH. intros Hin. eapply (IH e); [by apply list_elem_of_In|done..]. }
  destruct (e.2); try by apply Hrec. by destruct Hf as [<-|[]].
Qed.

(** No path occurs twice in a tree, and so no alias. *)
Lemma paths_distinct t dirname : tree_ok dirname t -> NoDup (fst <$> files_in dirname t).
Proof.
  revert dirname. induction t as [| | | | |entries IH] using tree_ind'; intros dirname Hok; try constructor.
  cbn [files_in]. destruct Hok as [Hnd Hok]. induction entries as [|[n t] l IHl]; [constructor|].
  apply list.Forall_cons in IH as [IHt IH]. cbn [fmap list_fmap fst] in Hnd. apply list.NoDup_cons in Hnd as [Hn Hnd].
  cbn [foldr fst snd] in Hok. destruct Hok as [(Hname & _ & Ht) Hok]. cbn [flat_map]. rewrite fmap_app. apply list.NoDup_app.
  split; [|split; [|by apply IHl]].
  - unfold files_below. cbn [fst snd]. destruct (dots n); [constructor|].
    destruct t; try exact (IHt _ Ht). apply list.NoDup_singleton.
  - intros p Hp Hp'. apply list_elem_of_fmap in Hp as (f & -> & Hf). apply list_elem_of_fmap in Hp' as (g & Hfg & Hg).
    apply list_elem_of_In in Hf, Hg. apply in_flat_map in Hg as (e & He & Hg).
    apply files_below_form in Hf as (r & Hf & Hr). apply files_below_form in Hg as (r' & Hg & Hr').
    destruct (tree_ok_entries _ _ _ Hok He) as ((_ & _ & Hns) & _). destruct Hname as (_ & _ & Hns').
    rewrite Hf, Hg in Hfg. apply app_inv_head in Hfg. injection Hfg as Hfg. cbn [fst] in Hfg.
    pose proof (first_part _ _ _ _ Hns' Hns Hr Hr' Hfg) as ->. apply Hn. apply list_elem_of_fmap. exists e.
    split; [done|by apply list_elem_of_In].
Qed.

Lemma alias_below rootdir u : alias_of rootdir (rootdir ++ SLASH :: u) = u.
Proof. unfold alias_of. by rewrite drop_app_length, Z.eqb_refl. Qed.

Lemma files_in_below t dirname f :
  tree_ok dirname t -> In f (files_in dirname t) -> exists u, f.1 = dirname ++ SLASH :: u /\ u <> [].
Proof.
  destruct t as [| | | | |entries]; try done. cbn [files_in]. rewrite in_flat_map. intros [_ Hok] (e & He & Hf).
  apply files_below_form in Hf as (r & Hf & _). destruct (tree_ok_entries _ _ _ Hok He) as ((_ & Hn & _) & _).
  exists (e.1 ++ r). split; [done|]. by destruct (e.1).
Qed.

(** The aliases of what a walk finds in a tree. *)
Theorem files_distinct patterns gm rootdir t :
  Forall is_char rootdir -> tree_ok rootdir t ->
  NoDup (alias <$> found patterns gm rootdir t) /\
  Forall (fun fi => exists p s, name fi = Some p /\ alias fi = Some s /\ p = rootdir ++ SLASH :: s /\ s <> [] /\
    Forall is_char p /\ zlen p < PATH_MAX /\ contents fi = None /\
    mimetype fi = Some (if gm then mime_of p else [])) (found patterns gm rootdir t).
Proof.
  intros Hr Hok. pose proof (paths_distinct _ _ Hok) as Hnd.
  assert (Hd : dir_ok rootdir rootdir) by (split; [by exists []; rewrite app_nil_r|done]). unfold found.
  assert (Hfiles : forall f, In f (files_in rootdir t) -> path_ok rootdir f.1 /\
      f.1 = rootdir ++ SLASH :: alias_of rootdir f.1 /\ alias_of rootdir f.1 <> []).
  { intros f Hf. split; [by eapply files_in_ok|]. destruct (files_in_below _ _ _ Hok Hf) as (u & -> & Hu). by rewrite alias_below. }
  clear Hok Hd. induction (files_in rootdir t) as [|f l IH]; [split; constructor|].
  cbn [fmap list_fmap] in Hnd. apply list.NoDup_cons in Hnd as [Hf Hnd].
  destruct (IH Hnd) as [IH1 IH2]; [intros g Hg; apply Hfiles; by right|].
  cbn [List.filter]. destruct (wanted patterns f); [|done]. cbn [fmap list_fmap]. split; constructor; [|exact IH1| |exact IH2].
  - intros Hin. apply list_elem_of_fmap in Hin as (fi & Ha & Hfi). apply list_elem_of_fmap in Hfi as (g & -> & Hg).
    apply list_elem_of_In, filter_In in Hg as [Hg _]. cbn in Ha. injection Ha as Ha.
    destruct (Hfiles f) as (_ & Hf1 & _); [by left|]. destruct (Hfiles g) as (_ & Hg1 & _); [by right|].
    apply Hf. apply list_elem_of_fmap. exists g. split; [congruence|by apply list_elem_of_In].
  - destruct (Hfiles f) as ((_ & Hc & Hl) & Hf1 & Hne); [by left|]. exists f.1, (alias_of rootdir f.1). cbn. repeat split; try done. lia.
Qed.

(** ** Several directories *)

Definition found_all (disk : list Z -> tree) (patterns : list (list Z)) (gm : bool) (dirs : list (list Z)) : list fileinfo :=
  flat_map (fun d => found patterns gm d (disk d)) dirs.

Definition dirs_ok (disk : list Z -> tree) (dirs : list (list Z)) : Prop :=
  Forall (fun d => Forall is_char d /\ tree_ok d (disk d)) dirs.

Lemma walk_loop_spec disk patterns gm pstr dirs lst o :
  Forall2 rep pstr dirs -> dirs_ok disk dirs ->
  wp (walk_loop disk patterns gm pstr lst) o (fun '(rc, lst') o' =>
    walked lst (found_all disk patterns gm dirs) lst' (forallb (fun d => readable_tree (disk d)) dirs) rc o o').
Proof.
  intros Hrep. revert lst o. induction Hrep as [|p d pstr dirs Hp _ IH]; intros lst o Hok; cbn [walk_loop].
  { apply wp_ret. by apply walked_nothing. }
  apply list.Forall_cons in Hok as [[Hd Ht] Hok]. unfold c_str. apply wp_bind, wp_lift. rewrite (rep_str_at _ _ Hp). cbn [wpr].
  apply wp_bind. eapply wp_mono; [apply find_files_spec; [split; [by exists []; rewrite app_nil_r|done]|done]|].
  intros [rc lst1] o1 H1. destruct rc.
  - apply wp_ret. by apply (walked_stop _ _ _ _ _ _ _ _ H1).
  - eapply wp_mono; [by apply IH|]. intros [rc2 lst2] o2 H2'. by apply (walked_step _ _ _ _ _ _ _ _ _ _ _ H1 H2').
Qed.

(** The walk over the directories: whatever the allocator does, what is on the
    list is a first part of the files below the directories, in the order of the
    directories and of their entries, whose names match a pattern, each with its
    path, its alias, which is the path below its directory, what [stat] said and its
    type.  It is all of them when the walk succeeds, and it succeeds, when memory
    lasts, if every name can be examined. *)
Theorem walk_finds disk directories patterns gm lst o :
  let dirs := words (fun c => mem c blanks) [] directories in
  Forall is_char directories -> zlen directories <= INT_MAX -> dirs_ok disk dirs ->
  wp (walk_all_directories disk directories patterns lst gm) o (fun '(rc, lst') o' =>
    walked lst (found_all disk patterns gm dirs) lst'
      (bool_decide (dirs <> []) && forallb (fun d => readable_tree (disk d)) dirs) rc o o').
Proof.
  intros dirs Hd Hl Hok. unfold walk_all_directories. apply wp_bind. eapply wp_mono; [by apply cstring_split_correct|].
  intros [n [arr|]] o1 Hs; cbn [fst snd] in Hs.
  - destruct Hs as (-> & Hpos & Hrep & Ho). fold dirs in Hpos, Hrep |- *. rewrite (proj2 (Z.eqb_neq _ _)) by lia.
    rewrite bool_decide_true by (intros E; rewrite E in Hpos; done). cbn [andb].
    eapply wp_mono; [by apply walk_loop_spec|]. intros [rc lst'] o2 H. by eapply walked_weaken.
  - destruct Hs as [-> Ho]. fold dirs in Ho. cbn. apply wp_ret. apply walked_refused.
    destruct (decide (dirs = [])) as [->|Hne]; [by right|]. left. intros E. by apply Hne, Ho.
Qed.
End FindFiles.
