(* ===== verification/Webcache.v ===== *)
(** Webcache: a web server that serves files from memory, apps/webcache: the
    page handler of handle_requests.c, the loading of the cache of highcached.c
    and show_cache.c, and the comparison with the disk of find_files.c.

    The global file cache is passed and returned; the counters are atomic, so that
    each of them is added to in one step.  The disk is a tree of names ([disk])
    with what [open] and [read] do ([content]).

    [webcache_loads] shows that the server that has started has every file of its
    directories in memory; [webcache_answers] what it answers to any request;
    [changes_found] what the comparison with the disk tells; [reload_renews] that
    reloading replaces what is in memory, and [reload_frees_twice] what a file
    that cannot be read then does to it. *)

From Stdlib Require Import ZArith Lia.
From stdpp Require Import base list numbers gmap sets.
From S2P Require Import Prelude Convert Cstring MetaMisc MetaList StringMap Cache HttpBase HttpDate GeneralHeader EntityHeader Pair Request HeaderProps Response ConfigFile FileCache FindFiles.

Section Webcache.
Context `{StringLaws}.
Context {stat : Type} (st_size st_mtime : stat -> Z) (zero_stat : stat).
Variable fnmatch : list Z -> list Z -> bool.
Variable stack : block.

Abbreviation fileinfo := (FileCache.fileinfo (stat := stat)).
Abbreviation memory := (FileCache.memory (stat := stat)).
Abbreviation tree := (FindFiles.tree (stat := stat)).

(** * Requests *)

Record counters : Type := Counters {
  sum_requests : Z;
  sum_bytes : Z;
  sum_200 : Z;
  sum_404 : Z;
  sum_400 : Z;
  sum_304 : Z;
  sum_500 : Z;
}.

Definition inc (x : Z) : Z := (x + 1) mod 2 ^ 32.

Definition HTTP_304_NOT_MODIFIED : Z := 304.

(** Any other status is an [abort]. *)
Definition inc_status_counter (rc : Z) (n : counters) : res counters :=
  let '(Counters rq by_ ok nf bad nm err) := n in
  if rc =? HTTP_200_OK then Ret (Counters rq by_ (inc ok) nf bad nm err)
  else if rc =? HTTP_304_NOT_MODIFIED then Ret (Counters rq by_ ok nf bad (inc nm) err)
  else if rc =? HTTP_400_BAD_REQUEST then Ret (Counters rq by_ ok nf (inc bad) nm err)
  else if rc =? HTTP_404_NOT_FOUND then Ret (Counters rq by_ ok (inc nf) bad nm err)
  else if rc =? HTTP_500_INTERNAL_SERVER_ERROR then Ret (Counters rq by_ ok nf bad nm (inc err))
  else Fault Died.

(** The pointer that [filecache_get] stored. *)
Definition set_file (page : http_response) (file : option (list Z)) (size : Z) : http_response :=
  match file with
  | Some bs => response_set_content_buffer page (Some <$> bs) size
  | None =>
      response_set_content_length
        (rs_with_buffer None true (content_free_when_done page) (response_set_flag page CONTENT_LENGTH)) size
  end.

(** The part of the handler behind [filecache_get]. *)
Definition send_file (mem : memory) (fc : filecache) (req : http_request) (page : http_response) (uri : list Z)
    (file : option (list Z)) (size : Z) : C (Z * filecache * http_response) :=
  let* (rc, mimetype, fc) := lift (filecache_get_mime_type mem fc uri (replicate 128 None) 128) in
  match rc with
  | failure => ret (HTTP_500_INTERNAL_SERVER_ERROR, fc, page)
  | success =>
      let* mimetype := lift (str_at mimetype) in
      let* (rc, page) := response_set_content_type page mimetype in
      match rc with
      | failure => ret (HTTP_500_INTERNAL_SERVER_ERROR, fc, page)
      | success =>
          let* (st, fc) := lift (filecache_stat mem fc uri) in
          match st with
          | None => ret (HTTP_500_INTERNAL_SERVER_ERROR, fc, page)
          | Some st =>
              let since := request_get_if_modified_since req in
              if since =? -1
              then ret (HTTP_200_OK, fc, set_file (response_set_last_modified page (st_mtime st)) file size)
              else if st_mtime st <=? since then ret (HTTP_304_NOT_MODIFIED, fc, page)
              else ret (HTTP_200_OK, fc, set_file page file size)
          end
      end
  end.

(** The conditions in their order; the second result is [size]. *)
Definition handle_uri (mem : memory) (fc : filecache) (req : http_request) (page : http_response)
    : C (Z * Z * filecache * http_response) :=
  let stop rc := ret (rc, 0, fc, page) in
  match request_get_method req with
  | METHOD_GET =>
      if 0 <? request_get_parameter_count req then stop HTTP_400_BAD_REQUEST
      else
        let* uri := lift (request_get_uri req) in
        match uri with
        | None => stop HTTP_400_BAD_REQUEST
        | Some uri =>
            if zlen uri <=? 1 then stop HTTP_400_BAD_REQUEST
            else
              match uri with
              | [] => stop HTTP_400_BAD_REQUEST
              | c :: uri =>
                  if negb (c =? SLASH) then stop HTTP_400_BAD_REQUEST
                  else
                    match strstr uri (Prelude.bytes "..") with
                    | Some _ => stop HTTP_400_BAD_REQUEST
                    | None =>
                        let* (r, fc) := lift (filecache_get st_size mem fc uri) in
                        match r with
                        | None => ret (HTTP_404_NOT_FOUND, 0, fc, page)
                        | Some (file, size) =>
                            let* (rc, fc, page) := send_file mem fc req page uri file size in
                            ret (rc, size, fc, page)
                        end
                    end
              end
        end
  | _ => stop HTTP_400_BAD_REQUEST
  end.

Definition handle_requests (mem : memory) (fc : filecache) (req : http_request) (page : http_response) (n : counters)
    : C (Z * filecache * http_response * counters) :=
  let* (rc, size, fc, page) := handle_uri mem fc req page in
  let* n := lift (inc_status_counter rc n) in
  let '(Counters rq by_ ok nf bad nm err) := n in
  ret (rc, fc, page, Counters (inc rq) (u64 (by_ + size)) ok nf bad nm err).

(** * Loading *)

Variable disk : list Z -> tree.
Variable content : list Z -> opened.
(** What [rand] returns while a file is added. *)
Variable rands : fileinfo -> list Z.

(** The loop over the list: whether every file was added, and how many were. *)
Fixpoint add_files (l : list fileinfo) (files : Z) (mem : memory) (fc : filecache) : C (bool * Z * filecache * memory) :=
  match l with
  | [] => ret (true, files, fc, mem)
  | fi :: l =>
      let* (rc, _, fc, mem) := filecache_add st_size content (rands fi) mem fc fi true in
      match rc with
      | failure => ret (false, files, fc, mem)
      | success => add_files l (u64 (files + 1)) mem fc
      end
  end.

Fixpoint texts (l : list cstring) : res (list (list Z)) :=
  match l with
  | [] => Ret []
  | s :: l => let+ t := str_at (c_str s) in let+ l := texts l in Ret (t :: l)
  end.

Definition or_die {A B} (r : A + B) : res B := match r with inl _ => Fault Died | inr b => Ret b end.

Definition split_filename_patterns (g_files : list Z) : C (list (list Z)) :=
  let* (n, arr) := cstring_split g_files blanks in
  if n =? 0 then lift (Fault Died)
  else match arr with None => lift (Fault OutOfBounds) | Some arr => lift (texts arr) end.

Definition sizeof_list : Z := 24.
Definition new_list : C (option (list fileinfo)) :=
  let* ok := alloc_ok sizeof_list in ret (if ok : bool then Some [] else None).

(** The directories, the patterns and the cache. *)
Definition create_cache (config : option (list Z)) (mem : memory) : C (list Z * list (list Z) * filecache * memory) :=
  let* cf := configfile_read config in
  match cf with
  | None => lift (Fault Died)
  | Some cf =>
      let* size := lift (let+ r := configfile_get_ulong cf (Prelude.bytes "size") in or_die r) in
      let* buckets := lift (let+ r := configfile_get_ulong cf (Prelude.bytes "buckets") in or_die r) in
      let* g_files := lift (let+ r := configfile_get_string cf (Prelude.bytes "files") 10240 in or_die r) in
      let* g_dirs := lift (let+ r := configfile_get_string cf (Prelude.bytes "dirs") 10240 in or_die r) in
      let* (fc, mem) := filecache_new mem size (u64 (buckets * 1024 * 1024)) in
      match fc with
      | None => lift (Fault Died)
      | Some fc =>
          let* patterns := split_filename_patterns g_files in
          let* lst := new_list in
          match lst with
          | None => lift (Fault Died)
          | Some lst =>
              let* (rc, lst) := walk_all_directories zero_stat fnmatch stack disk g_dirs patterns lst true in
              match rc with
              | failure => ret (g_dirs, patterns, fc, mem)
              | success =>
                  let* (ok, _, fc, mem) := add_files lst 0 mem fc in
                  if ok : bool then ret (g_dirs, patterns, fc, mem) else lift (Fault Died)
              end
          end
      end
  end.

(** [list_free(lst, fileinfo_freev)] *)
Definition free_list (lst : list fileinfo) (mem : memory) : memory :=
  Memory (hs mem) (hc mem) (log mem ++ lst).

(** The number of files; 0 for failure. *)
Definition reload_cache (g_dirs : list Z) (patterns : list (list Z)) (mem : memory) (fc : filecache)
    : C (Z * filecache * memory) :=
  let* lst := new_list in
  match lst with
  | None => ret (0, fc, mem)
  | Some lst =>
      let* (rc, lst) := walk_all_directories zero_stat fnmatch stack disk g_dirs patterns lst true in
      match rc with
      | failure => ret (0, fc, free_list lst mem)
      | success =>
          let* (ok, fc, mem) := filecache_invalidate mem fc in
          if negb ok then ret (0, fc, free_list lst mem)
          else
            let* (ok, files, fc, mem) := add_files lst 0 mem fc in
            ret (if ok : bool then (files, fc, mem) else (0, fc, free_list lst mem))
      end
  end.

(** * Comparison with the disk *)

(** The loop that deletes from the list what [drop] says. *)
Fixpoint keep_files (drop_it : filecache -> fileinfo -> res (bool * filecache)) (l : list fileinfo) (mem : memory)
    (fc : filecache) : res (list fileinfo * filecache * memory) :=
  match l with
  | [] => Ret ([], fc, mem)
  | fi :: l =>
      let+ (gone, fc) := drop_it fc fi in
      let+ (r, fc, mem) := keep_files drop_it l (if gone : bool then free_list [fi] mem else mem) fc in
      Ret (if gone then r else fi :: r, fc, mem)
  end.

Definition alias_text (fi : fileinfo) : res (list Z) :=
  match fileinfo_alias fi with Some s => Ret s | None => Fault AssertFailed end.

Definition find_on_disk (drop_it : memory -> filecache -> fileinfo -> res (bool * filecache)) (directories : list Z)
    (patterns : list (list Z)) (mem : memory) (fc : filecache) : C (option (list fileinfo) * filecache * memory) :=
  let* lst := new_list in
  match lst with
  | None => ret (None, fc, mem)
  | Some lst =>
      let* (rc, lst) := walk_all_directories zero_stat fnmatch stack disk directories patterns lst true in
      match rc with
      | failure => ret (None, fc, free_list lst mem)
      | success =>
          let* (l, fc, mem) := lift (keep_files (drop_it mem) lst mem fc) in ret (Some l, fc, mem)
      end
  end.

Definition find_new_files : list Z -> list (list Z) -> memory -> filecache -> C (option (list fileinfo) * filecache * memory) :=
  find_on_disk (fun mem fc fi => let+ s := alias_text fi in filecache_exists mem fc s).

Definition find_modified_files : list Z -> list (list Z) -> memory -> filecache -> C (option (list fileinfo) * filecache * memory) :=
  find_on_disk (fun mem fc fi =>
    let diskfile := fileinfo_stat fi in
    let+ s := alias_text fi in
    let+ (cachefile, fc) := filecache_stat mem fc s in
    Ret (match cachefile with Some st => st_mtime st =? st_mtime diskfile | None => true end, fc)).

Definition filecache_filenames (fc : filecache) : ptr stringmap := filenames fc.

(** The loop that makes a string map of the aliases. *)
Fixpoint add_aliases (h : gmap loc (node entry)) (sm : stringmap) (l : list fileinfo)
    : C (bool * stringmap * gmap loc (node entry)) :=
  match l with
  | [] => ret (true, sm, h)
  | fi :: l =>
      let* s := lift (alias_text fi) in
      let* (rc, _, sm, h) := stringmap_add h sm s in
      match rc with failure => ret (false, sm, h) | success => add_aliases h sm l end
  end.

(** The two string maps are freed, in the order of the two ends of the function. *)
Definition free_maps (mem : memory) (first second : option stringmap) : C memory :=
  let* h := stringmap_free (hs mem) first in
  let* h := stringmap_free h second in
  ret (Memory h (hc mem) (log mem)).

(** The list of the names, in a heap of its own; it runs without the lock of the
    file cache. *)
Definition find_deleted_files (directories : list Z) (patterns : list (list Z)) (mem : memory) (fc : filecache)
    : C (option loc * gmap loc (node (list Z)) * memory) :=
  let* diskfiles := new_list in
  match diskfiles with
  | None => ret (None, ∅, mem)
  | Some lst =>
      let* (rc, lst) := walk_all_directories zero_stat fnmatch stack disk directories patterns lst false in
      let mem1 := free_list lst mem in
      match rc with
      | failure => ret (None, ∅, mem1)
      | success =>
          if zlen lst =? 0 then let* (l, hl) := list_new ∅ in ret (l, hl, mem1)
          else
            let* sm := stringmap_new (zlen lst) in
            match sm with
            | None => ret (None, ∅, mem1)
            | Some sm =>
                let* (ok, sm, h) := add_aliases (hs mem) sm lst in
                let mem1 := Memory h (hc mem1) (log mem1) in
                if negb ok then let* mem1 := free_maps mem1 (Some sm) None in ret (None, ∅, mem1)
                else
                  let* sm_filecache := lift (deref (filecache_filenames fc)) in
                  let* (deleted, h) := stringmap_subset h sm_filecache sm in
                  let mem1 := Memory h (hc mem1) (log mem1) in
                  match deleted with
                  | None => let* mem1 := free_maps mem1 (Some sm) None in ret (None, ∅, mem1)
                  | Some deleted =>
                      let* (files, hl) := stringmap_tolist h ∅ deleted in
                      match files with
                      | None => let* mem1 := free_maps mem1 (Some sm) (Some deleted) in ret (None, hl, mem1)
                      | Some _ => let* mem1 := free_maps mem1 (Some deleted) (Some sm) in ret (files, hl, mem1)
                      end
                  end
            end
      end
  end.

(** * What is in memory *)

(** The file cache has the files [m], by alias. *)
Definition serves (mem : memory) (fc : filecache) (m : gmap (list Z) fileinfo) : Prop :=
  exists sm c ts tc, fc_rep mem fc sm c ts tc /\ files ts tc = m.

(** The file can be read, in full. *)
Definition legible (fi : fileinfo) (got : list Z) : Prop := readable st_size content fi got.

(** The files [l] are added to [m]. *)
Fixpoint loaded (l : list fileinfo) (m m' : gmap (list Z) fileinfo) : Prop :=
  match l with
  | [] => m' = m
  | fi :: l => exists s got, alias fi = Some s /\ legible fi got /\ loaded l (<[s := set_contents (Some got) fi]> m) m'
  end.

Lemma loaded_other l m m' s : loaded l m m' -> Some s ∉ alias <$> l -> m' !! s = m !! s.
Proof.
  revert m. induction l as [|fi l IH]; intros m; cbn [loaded fmap list_fmap]; [by intros ->|].
  intros (x & got & Ha & _ & Hl) Hn. rewrite (IH _ Hl) by (intros Hin; apply Hn; by constructor).
  apply lookup_insert_ne. intros ->. apply Hn. rewrite Ha. constructor.
Qed.

Lemma loaded_lookup l m m' fi s :
  loaded l m m' -> NoDup (alias <$> l) -> fi ∈ l -> alias fi = Some s ->
  exists got, legible fi got /\ m' !! s = Some (set_contents (Some got) fi).
Proof.
  revert m. induction l as [|x l IH]; intros m Hl Hnd Hin Hs; [by apply not_elem_of_nil in Hin|].
  destruct Hl as (t & got & Ha & Hg & Hl). cbn [fmap list_fmap] in Hnd. apply list.NoDup_cons in Hnd as [Hx Hnd].
  apply elem_of_cons in Hin as [->|Hin]; [|by eapply IH].
  exists got. split; [done|]. assert (t = s) as -> by congruence.
  rewrite (loaded_other _ _ _ _ Hl) by (by rewrite <- Hs). apply lookup_insert_eq.
Qed.

Lemma loaded_only l m m' s : loaded l m m' -> is_Some (m' !! s) -> is_Some (m !! s) \/ Some s ∈ alias <$> l.
Proof.
  intros Hl Hm. destruct (decide (Some s ∈ alias <$> l)) as [|Hn]; [by right|]. left. by rewrite <- (loaded_other _ _ _ _ Hl Hn).
Qed.

(** A file that may be added to [m]. *)
Definition fresh (m : gmap (list Z) fileinfo) (fi : fileinfo) : Prop :=
  contents fi = None /\ exists s, alias fi = Some s /\ addable s /\ m !! s = None.

Lemma add_files_spec l n mem fc sm c ts tc o :
  fc_rep mem fc sm c ts tc -> Forall (fresh (files ts tc)) l -> NoDup (alias <$> l) -> last_id sm + zlen l < 2 ^ 64 ->
  wp (add_files l n mem fc) o (fun '(ok, n', fc', mem') o' =>
    exists sm' c' ts' tc', fc_rep mem' fc' sm' c' ts' tc' /\ (ok = true -> loaded l (files ts tc) (files ts' tc') /\ log mem' = log mem /\
        last_id sm' <= last_id sm + zlen l /\ max_bytes c' = max_bytes c /\
        (0 <= n -> n + zlen l < 2 ^ 64 -> n' = n + zlen l)) /\
      (o = [] -> sizeof_fileinfo <= max_bytes c -> Forall (fun fi => exists got, legible fi got /\ zlen got <= PTRDIFF_MAX) l ->
       o' = [] /\ ok = true)).
Proof.
  revert n mem fc sm c ts tc o. induction l as [|fi l IH]; intros n mem fc sm c ts tc o Hr Hfr Hnd Hid; cbn [add_files].
  { apply wp_ret. exists sm, c, ts, tc. split; [done|]. split; [|done]. rewrite zlen_nil. intros _. split_and!; try done; lia. }
  apply list.Forall_cons in Hfr as [(Hc & s & Ha & Hs & Hm) Hfr].
  cbn [fmap list_fmap] in Hnd. apply list.NoDup_cons in Hnd as [Hx Hnd]. rewrite zlen_cons in Hid. zlen_facts.
  apply wp_bind. eapply wp_mono; [eapply filecache_add_spec; try done; lia|].
  intros [[[rc pid] fc1] mem1] o1 (sm1 & c1 & ts1 & tc1 & Hr1 & _ & _ & Hid1 & Hmax & Hadd & Ho1). destruct rc.
  - apply wp_ret. exists sm1, c1, ts1, tc1. split; [done|]. split; [done|]. intros Ho Hsz Hall.
    apply list.Forall_cons in Hall as [(got & Hg & Hgl) _]. destruct (Ho1 Ho) as [_ Hgot].
    destruct (Hgot got Hg Hgl (proj2 (proj1 Hs))) as [_ E]. by rewrite (proj2 (Z.ltb_ge _ _) Hsz) in E.
  - destruct Hadd as (got & Hg & Hlog & _ & Hf & _).
    eapply wp_mono; [apply (IH _ mem1 fc1 sm1 c1 ts1 tc1); try done; [|lia]|].
    + rewrite Hf. apply list.Forall_forall. intros fi' Hin. rewrite list.Forall_forall in Hfr.
      destruct (Hfr fi' Hin) as (Hc' & s' & Ha' & Hs' & Hm'). split; [done|]. exists s'. split; [done|]. split; [done|].
      rewrite lookup_insert_ne; [done|]. intros ->. apply Hx. rewrite Ha, <- Ha'. by apply list_elem_of_fmap_2.
    + intros [[[ok n'] fc'] mem'] o2 (sm' & c' & ts' & tc' & Hr' & Hl & Ho2). exists sm', c', ts', tc'. split; [done|].
      split.
      * intros Hok. destruct (Hl Hok) as (Hl1 & Hlog1 & Hid' & Hmax' & Hn). rewrite zlen_cons.
        split_and!; [|congruence|lia|congruence|].
        -- exists s, got. split; [done|]. split; [done|]. by rewrite <- Hf.
        -- intros Hpos Hb. rewrite u64_small in Hn by lia. lia.
      * intros Ho Hsz Hall. apply list.Forall_cons in Hall as [_ Hall]. destruct (Ho1 Ho) as [-> _].
        apply Ho2; [done|by rewrite Hmax|done].
Qed.

(** ** Starting *)

Hypothesis Hstack : 1 <= zlen stack.

Lemma texts_spec arr ws : Forall2 rep arr ws -> texts arr = Ret ws.
Proof.
  induction 1 as [|c w arr ws Hc _ IH]; [done|]. cbn [texts]. unfold c_str. rewrite (rep_str_at _ _ Hc). cbn [res_bind].
  by rewrite IH.
Qed.

Definition patterns_of (g_files : list Z) : list (list Z) := words (fun c => mem c blanks) [] g_files.

Lemma patterns_spec g_files :
  Forall is_char g_files -> zlen g_files <= INT_MAX -> patterns_of g_files <> [] ->
  wp (split_filename_patterns g_files) [] (fun r o' => r = patterns_of g_files /\ o' = []).
Proof.
  intros Hc Hl Hne. unfold split_filename_patterns. apply wp_bind. eapply wp_mono; [by apply cstring_split_correct|].
  intros [n [arr|]] o1 Hs; cbn [fst snd] in Hs.
  - destruct Hs as (-> & Hpos & Hrep & Ho). rewrite (proj2 (Z.eqb_neq _ _)) by lia. apply wp_lift.
    rewrite (texts_spec _ _ Hrep). cbn. by rewrite Ho.
  - destruct Hs as [_ Hs]. by destruct Hne, Hs.
Qed.

(** The directories have files of different names below them, all of which can be
    examined; those that match can be read. *)
Record site_ok (dirs : list (list Z)) (patterns : list (list Z)) : Prop := SiteOk {
  site_dirs : dirs_ok disk dirs;
  site_some : dirs <> [];
  site_readable : forallb (fun d => readable_tree (disk d)) dirs = true;
  site_aliases : NoDup (alias <$> found_all fnmatch stack disk patterns true dirs);
  site_legible : Forall (fun fi => exists got, legible fi got /\ zlen got <= PTRDIFF_MAX)
    (found_all fnmatch stack disk patterns true dirs);
}.

Lemma found_fresh dirs patterns :
  dirs_ok disk dirs -> Forall (fresh ∅) (found_all fnmatch stack disk patterns true dirs).
Proof.
  intros Hok. induction Hok as [|d dirs [Hd Ht] _ IH]; [constructor|]. apply Forall_app. split; [|exact IH].
  destruct (files_distinct fnmatch stack patterns true d (disk d) Hd Ht) as [_ Hall]. eapply Forall_impl; [exact Hall|].
  intros fi (p & s & _ & Ha & -> & Hne & Hc & Hl & Hco & _). split; [done|]. exists s. split; [done|].
  split; [|by apply lookup_empty]. split; [|done]. apply Forall_app in Hc as [_ Hc]. split; [by inversion Hc|].
  rewrite zlen_app, zlen_cons in Hl. zlen_facts. unfold PATH_MAX, PTRDIFF_MAX in *. lia.
Qed.

(** The server that has started has the files of its directories in memory:
    with a configuration that can be read, and memory to spare, every file below the
    directories whose name matches a pattern is there, under its alias, the path
    below its directory, with the bytes that were read, what [stat] said and the type of
    its extension; and nothing else is there.  The size in the configuration, which
    is meant to be in megabytes, is the number of cells of the hash tables, and the
    number of buckets is the size. *)
Theorem webcache_loads config cf size buckets g_files g_dirs mem :
  let dirs := words (fun c => Prelude.mem c blanks) [] g_dirs in
  let all := found_all fnmatch stack disk (patterns_of g_files) true dirs in
  configfile_read config [] = Ret (Some cf, []) ->
  configfile_get_ulong cf (Prelude.bytes "size") = Ret (inr size) ->
  configfile_get_ulong cf (Prelude.bytes "buckets") = Ret (inr buckets) ->
  configfile_get_string cf (Prelude.bytes "files") 10240 = Ret (inr g_files) ->
  configfile_get_string cf (Prelude.bytes "dirs") 10240 = Ret (inr g_dirs) ->
  0 < size -> size * 8 <= PTRDIFF_MAX -> 0 < buckets < 2 ^ 44 ->
  Forall is_char g_files -> zlen g_files <= INT_MAX -> patterns_of g_files <> [] ->
  Forall is_char g_dirs -> zlen g_dirs <= INT_MAX -> site_ok dirs (patterns_of g_files) -> zlen all < 2 ^ 64 ->
  wp (create_cache config mem) [] (fun '(d, p, fc, mem') o' => d = g_dirs /\ p = patterns_of g_files /\ o' = [] /\
    exists m, serves mem' fc m /\
      (forall fi s, fi ∈ all -> alias fi = Some s ->
         exists got, legible fi got /\ m !! s = Some (set_contents (Some got) fi)) /\
      forall s, is_Some (m !! s) -> Some s ∈ alias <$> all).
Proof.
  intros dirs all Hcf Hsize Hbuckets Hfiles Hdirs Hs1 Hs8 Hb Hfc Hfl Hfn Hdc Hdl [Hok Hsome Hread Hnd Hleg] Hcount.
  unfold create_cache. apply wp_bind. unfold wp at 1. rewrite Hcf. apply wp_bind, wp_lift. rewrite Hsize. cbn [res_bind or_die wpr].
  apply wp_bind, wp_lift. rewrite Hbuckets. cbn [res_bind or_die wpr].
  apply wp_bind, wp_lift. rewrite Hfiles. cbn [res_bind or_die wpr].
  apply wp_bind, wp_lift. rewrite Hdirs. cbn [res_bind or_die wpr].
  rewrite u64_small by lia. apply wp_bind. eapply wp_mono; [apply filecache_new_spec; [done|lia|exact I]|].
  intros [r mem1] o1 (-> & Ho1 & Hnew). destruct (Ho1 eq_refl) as [-> Hr]. destruct (Hr Hs8) as [fc ->].
  destruct (Hnew fc eq_refl) as (sm & c & Hid & Hmx & Hrep). specialize (Hrep mem).
  apply wp_bind. eapply wp_mono; [by apply patterns_spec|]. intros ? ? [-> ->].
  apply wp_bind. unfold new_list. apply wp_bind, wp_small; [unfold sizeof_list, PTRDIFF_MAX; lia| |by intros ? []].
  intros o2 Ho2. rewrite (Ho2 eq_refl). apply wp_ret.
  apply wp_bind. eapply wp_mono; [by apply (walk_finds zero_stat fnmatch stack Hstack)|].
  intros [rc lst] o3 (_ & Hsucc & Hgo). fold dirs in Hsucc, Hgo. rewrite bool_decide_true in Hgo by done.
  destruct (Hgo eq_refl Hread) as [-> ->]. destruct (Hsucc eq_refl) as [-> _]. cbn [app]. fold all.
  destruct (empty_files (stat := stat) size) as (Hf0 & _ & _).
  apply wp_bind. eapply wp_mono; [apply (add_files_spec _ _ mem fc sm c _ _ [] Hrep)|].
  - rewrite Hf0. by apply found_fresh.
  - done.
  - rewrite Hid. lia.
  - intros [[[ok n] fc'] mem'] o4 (sm' & c' & ts' & tc' & Hr' & Hl & Ho4).
    destruct (Ho4 eq_refl) as [-> ->]; [rewrite Hmx; unfold sizeof_fileinfo; lia|done|]. apply wp_ret.
    split; [done|]. split; [done|]. split; [done|]. exists (files ts' tc'). destruct (Hl eq_refl) as [Hl1 _]. rewrite Hf0 in Hl1.
    split; [by exists sm', c', ts', tc'|]. split.
    + intros fi s Hin Ha. by eapply loaded_lookup.
    + intros s Hm. destruct (loaded_only _ _ _ _ Hl1 Hm) as [[x Hx]|]; [by rewrite lookup_empty in Hx|done].
Qed.

(** ** Reloading *)

Lemma add_files_app a b n mem fc o (Q : bool * Z * filecache * memory -> oracle -> Prop) :
  wp (add_files a n mem fc) o (fun '(ok, n', fc', mem') o' =>
    if ok : bool then wp (add_files b n' mem' fc') o' Q else Q (ok, n', fc', mem') o') ->
  wp (add_files (a ++ b) n mem fc) o Q.
Proof.
  revert n mem fc o. induction a as [|fi a IH]; intros n mem fc o; [done|]. cbn [app add_files].
  unfold wp, bind. destruct (filecache_add _ _ _ _ _ _ _ o) as [[[[[rc pid] fc1] mem1] o1]|]; [|done].
  destruct rc; [done|]. apply IH.
Qed.

(** What is asked of the directories, but that the files can be read. *)
Definition walkable (dirs : list (list Z)) (all : list fileinfo) : Prop :=
  dirs_ok disk dirs /\ dirs <> [] /\ forallb (fun d => readable_tree (disk d)) dirs = true /\
  NoDup (alias <$> all) /\ zlen all < 2 ^ 64.

Definition in_memory (all : list fileinfo) (m : gmap (list Z) fileinfo) : Prop :=
  forall fi s, fi ∈ all -> alias fi = Some s -> exists got, legible fi got /\ m !! s = Some (set_contents (Some got) fi).

(** The two steps before the files are added again. *)
Lemma reload_starts g_dirs patterns mem fc sm c ts tc (Q : Z * filecache * memory -> oracle -> Prop) :
  let dirs := words (fun c => Prelude.mem c blanks) [] g_dirs in
  let all := found_all fnmatch stack disk patterns true dirs in
  Forall is_char g_dirs -> zlen g_dirs <= INT_MAX -> walkable dirs all -> fc_rep mem fc sm c ts tc ->
  0 < nelem fc -> nelem fc * 8 <= PTRDIFF_MAX -> sizeof_fileinfo <= bytes fc < 2 ^ 64 ->
  (forall mem1 fc1 sm1 c1 ts1 tc1, fc_rep mem1 fc1 sm1 c1 ts1 tc1 -> files ts1 tc1 = ∅ -> last_id sm1 = 0 ->
     sizeof_fileinfo <= max_bytes c1 -> log mem1 = log mem ++ items tc ->
     wp (add_files all 0 mem1 fc1) [] (fun '(ok, n, fc2, mem2) o' =>
       Q (if ok : bool then (n, fc2, mem2) else (0, fc2, free_list all mem2)) o')) ->
  wp (reload_cache g_dirs patterns mem fc) [] Q.
Proof.
  intros dirs all Hdc Hdl (Hok & Hsome & Hread & Hnd & Hcount) Hr Hn H8 [Hb1 Hb2] HQ.
  unfold reload_cache, new_list. apply wp_bind, wp_bind, wp_small; [unfold sizeof_list, PTRDIFF_MAX; lia| |by intros ? []].
  intros o2 Ho2. rewrite (Ho2 eq_refl). apply wp_ret.
  apply wp_bind. eapply wp_mono; [by apply (walk_finds zero_stat fnmatch stack Hstack)|].
  intros [rc lst] o3 (_ & Hsucc & Hgo). fold dirs in Hsucc, Hgo. rewrite bool_decide_true in Hgo by done.
  destruct (Hgo eq_refl Hread) as [-> ->]. destruct (Hsucc eq_refl) as [-> _]. cbn [app]. fold all.
  apply wp_bind. unfold sizeof_fileinfo in Hb1.
  eapply wp_mono; [eapply filecache_invalidate_renews; try done; lia|].
  intros [[ok fc1] mem1] o4 (-> & -> & Hlog & sm1 & c1 & Hid & Hmx & Hr1). cbn [negb].
  destruct (empty_files (stat := stat) (nelem fc)) as (Hf0 & _ & _).
  apply wp_bind. eapply wp_mono; [apply (HQ _ _ _ _ _ _ Hr1 Hf0 Hid); [unfold sizeof_fileinfo; lia|done]|].
  intros [[[[] n] fc2] mem2] o5 HQ2; apply wp_ret; exact HQ2.
Qed.

(** Reloading replaces what is in memory by what is on disk. *)
Theorem reload_renews g_dirs patterns mem fc sm c ts tc :
  let dirs := words (fun c => Prelude.mem c blanks) [] g_dirs in
  let all := found_all fnmatch stack disk patterns true dirs in
  Forall is_char g_dirs -> zlen g_dirs <= INT_MAX -> walkable dirs all -> fc_rep mem fc sm c ts tc ->
  0 < nelem fc -> nelem fc * 8 <= PTRDIFF_MAX -> sizeof_fileinfo <= bytes fc < 2 ^ 64 ->
  Forall (fun fi => exists got, legible fi got /\ zlen got <= PTRDIFF_MAX) all ->
  wp (reload_cache g_dirs patterns mem fc) [] (fun '(n, fc', mem') _ =>
    n = zlen all /\ log mem' = log mem ++ items tc /\
    exists m, serves mem' fc' m /\ in_memory all m /\ forall s, is_Some (m !! s) -> Some s ∈ alias <$> all).
Proof.
  intros dirs all Hdc Hdl Hw Hr Hn H8 Hb Hleg. eapply reload_starts; try done.
  intros mem1 fc1 sm1 c1 ts1 tc1 Hr1 Hf0 Hid Hmx Hlog. pose proof Hw as (Hok & _ & _ & Hnd & Hcount).
  fold dirs all. eapply wp_mono; [apply (add_files_spec _ _ _ _ _ _ _ _ [] Hr1)|].
  - rewrite Hf0. by apply found_fresh.
  - done.
  - by rewrite Hid.
  - intros [[[ok n] fc'] mem'] o4 (sm' & c' & ts' & tc' & Hr' & Hl & Ho4).
    destruct (Ho4 eq_refl) as [_ ->]; [done|done|]. destruct (Hl eq_refl) as (Hl1 & Hlog1 & _ & _ & Hn').
    split; [by apply Hn'|]. split; [congruence|]. exists (files ts' tc'). split; [by exists sm', c', ts', tc'|].
    rewrite Hf0 in Hl1. split; [intros fi s; by eapply loaded_lookup|]. intros s Hm.
    destruct (loaded_only _ _ _ _ Hl1 Hm) as [[x Hx]|]; [by rewrite lookup_empty in Hx|done].
Qed.

Lemma serves_free l mem fc sm c ts tc : fc_rep mem fc sm c ts tc -> fc_rep (free_list l mem) fc sm c ts tc.
Proof. by intros [? ? ? ? ? ?]. Qed.

(** One file that cannot be read is enough for reloading to free memory that is in
    use.  The files before it are freed although the cache serves them, and it is
    freed twice itself. *)
Theorem reload_frees_twice g_dirs patterns mem fc sm c ts tc pre fi rest :
  let dirs := words (fun c => Prelude.mem c blanks) [] g_dirs in
  let all := found_all fnmatch stack disk patterns true dirs in
  Forall is_char g_dirs -> zlen g_dirs <= INT_MAX -> walkable dirs all -> fc_rep mem fc sm c ts tc ->
  0 < nelem fc -> nelem fc * 8 <= PTRDIFF_MAX -> sizeof_fileinfo <= bytes fc < 2 ^ 64 ->
  all = pre ++ fi :: rest -> Forall (fun fi => exists got, legible fi got /\ zlen got <= PTRDIFF_MAX) pre ->
  (forall got, ~ legible fi got) ->
  wp (reload_cache g_dirs patterns mem fc) [] (fun '(n, fc', mem') _ => n = 0 /\
    (exists v, log mem' = (log mem ++ items tc) ++ set_contents v fi :: pre ++ fi :: rest) /\
    exists m, serves mem' fc' m /\ in_memory pre m).
Proof.
  intros dirs all Hdc Hdl Hw Hr Hn H8 Hb Hall Hleg Hbad. eapply reload_starts; try done.
  intros mem1 fc1 sm1 c1 ts1 tc1 Hr1 Hf0 Hid Hmx Hlog. pose proof Hw as (Hok & _ & _ & Hnd & Hcount).
  pose proof (found_fresh dirs patterns Hok) as Hfresh. fold dirs all. fold all in Hfresh. rewrite Hall in Hnd, Hcount, Hfresh |- *.
  rewrite fmap_app in Hnd. apply list.NoDup_app in Hnd as (Hnd1 & Hdisj & Hnd2). apply Forall_app in Hfresh as [Hf1 Hf2].
  apply list.Forall_cons in Hf2 as [(Hc & s & Ha & Hs & _) _]. rewrite zlen_app, zlen_cons in Hcount.
  apply add_files_app. zlen_facts. eapply wp_mono; [apply (add_files_spec _ _ _ _ _ _ _ _ [] Hr1)|].
  - by rewrite Hf0.
  - done.
  - rewrite Hid. lia.
  - intros [[[ok n] fc'] mem'] o4 (sm' & c' & ts' & tc' & Hr' & Hl & Ho4).
    destruct (Ho4 eq_refl) as [-> ->]; [done|done|]. destruct (Hl eq_refl) as (Hl1 & Hlog1 & Hid' & Hmx' & _).
    assert (Hnone : files ts' tc' !! s = None).
    { rewrite (loaded_other _ _ _ _ Hl1), Hf0, lookup_empty; [done|]. rewrite <- Ha. intros Hin.
      apply (Hdisj _ Hin). cbn [fmap list_fmap]. constructor. }
    cbn [add_files]. apply wp_bind. eapply wp_mono; [eapply filecache_add_spec; try done; lia|].
    intros [[[rc pid] fc2] mem2] o5 (sm2 & c2 & ts2 & tc2 & Hr2 & _ & _ & _ & _ & Hadd & _). destruct rc.
    + apply wp_ret. destruct Hadd as ([v Hlog2] & _ & Hf & _). split; [done|]. split.
      * exists v. cbn [free_list FileCache.log]. rewrite Hlog2, Hlog1, Hlog. by rewrite <- !app_assoc.
      * exists (files ts2 tc2). split; [by exists sm2, c2, ts2, tc2; split; [apply serves_free|]|].
        rewrite Hf. rewrite Hf0 in Hl1.
        intros x y. by eapply loaded_lookup.
    + destruct Hadd as (got & Hg & _). by destruct (Hbad got).
Qed.

(** ** Comparing with the disk *)

(** The loop keeps what is not dropped, frees the rest, and finds the file cache as
    it left it. *)
Lemma keep_files_spec drop_it (P : filecache -> Prop) (b : fileinfo -> bool) l mem fc :
  P fc -> (forall fi fc, fi ∈ l -> P fc -> exists fc', drop_it fc fi = Ret (b fi, fc') /\ P fc') ->
  exists fc', keep_files drop_it l mem fc = Ret (List.filter (fun fi => negb (b fi)) l, fc',
    Memory (hs mem) (hc mem) (log mem ++ List.filter b l)) /\ P fc'.
Proof.
  revert mem fc. induction l as [|fi l IH]; intros mem fc Hfc Hdrop; cbn [keep_files List.filter].
  { exists fc. rewrite app_nil_r. by destruct mem. }
  destruct (Hdrop fi fc) as (fc1 & -> & Hfc1); [constructor|done|]. cbn [res_bind].
  destruct (IH (if b fi then free_list [fi] mem else mem) fc1 Hfc1) as (fc2 & -> & Hfc2).
  { intros x fc0 Hx. apply Hdrop. by constructor. }
  cbn [res_bind]. exists fc2. split; [|done]. destruct (b fi); cbn [negb]; [|by destruct mem].
  cbn [free_list hs hc log]. by rewrite <- app_assoc.
Qed.

Lemma found_alias dirs patterns fi :
  dirs_ok disk dirs -> fi ∈ found_all fnmatch stack disk patterns true dirs ->
  exists s, alias_text fi = Ret s /\ alias fi = Some s /\ addable s.
Proof.
  intros Hok Hin. pose proof (found_fresh dirs patterns Hok) as Hf. rewrite list.Forall_forall in Hf.
  destruct (Hf fi Hin) as (_ & s & Ha & Hs & _). exists s. unfold alias_text, fileinfo_alias. by rewrite Ha.
Qed.

(** The list of a comparison that runs with memory to spare. *)
Lemma find_on_disk_spec drop_it g_dirs patterns mem fc (P : filecache -> Prop) (b : fileinfo -> bool) :
  let dirs := words (fun c => Prelude.mem c blanks) [] g_dirs in
  let all := found_all fnmatch stack disk patterns true dirs in
  Forall is_char g_dirs -> zlen g_dirs <= INT_MAX -> walkable dirs all -> P fc ->
  (forall fi fc, fi ∈ all -> P fc -> exists fc', drop_it mem fc fi = Ret (b fi, fc') /\ P fc') ->
  wp (find_on_disk drop_it g_dirs patterns mem fc) [] (fun '(r, fc', mem') _ =>
    r = Some (List.filter (fun fi => negb (b fi)) all) /\ P fc' /\
    mem' = Memory (hs mem) (hc mem) (log mem ++ List.filter b all)).
Proof.
  intros dirs all Hdc Hdl (Hok & Hsome & Hread & _) HP Hdrop. unfold find_on_disk, new_list.
  apply wp_bind, wp_bind, wp_small; [unfold sizeof_list, PTRDIFF_MAX; lia| |by intros ? []].
  intros o2 Ho2. rewrite (Ho2 eq_refl). apply wp_ret.
  apply wp_bind. eapply wp_mono; [by apply (walk_finds zero_stat fnmatch stack Hstack)|].
  intros [rc lst] o3 (_ & Hsucc & Hgo). fold dirs in Hsucc, Hgo. rewrite bool_decide_true in Hgo by done.
  destruct (Hgo eq_refl Hread) as [-> ->]. destruct (Hsucc eq_refl) as [-> _]. cbn [app]. fold all.
  apply wp_bind, wp_lift. destruct (keep_files_spec (drop_it mem) P b all mem fc HP Hdrop) as (fc' & -> & HP').
  cbn [wpr]. by apply wp_ret.
Qed.

(** The alias of a file that was found. *)
Definition alias_or (fi : fileinfo) : list Z := default [] (alias fi).

(** What the comparison of the disk with the cache finds, with memory to spare: the
    new files are those whose alias the cache does not know, the modified ones those it
    has with another time of modification; and each [fileinfo] of the walk that is
    not on the list that is returned is freed. *)
Theorem changes_found g_dirs patterns mem fc sm c ts tc :
  let dirs := words (fun c => Prelude.mem c blanks) [] g_dirs in
  let all := found_all fnmatch stack disk patterns true dirs in
  let is_known fi := bool_decide (alias_or fi ∈ known ts) in
  let unmodified fi := match files ts tc !! alias_or fi with Some f => st_mtime (st f) =? st_mtime (st fi) | None => true end in
  Forall is_char g_dirs -> zlen g_dirs <= INT_MAX -> walkable dirs all -> fc_rep mem fc sm c ts tc ->
  wp (find_new_files g_dirs patterns mem fc) [] (fun '(r, _, mem') _ =>
    r = Some (List.filter (fun fi => negb (is_known fi)) all) /\
    mem' = Memory (hs mem) (hc mem) (log mem ++ List.filter is_known all)) /\
  wp (find_modified_files g_dirs patterns mem fc) [] (fun '(r, _, mem') _ =>
    r = Some (List.filter (fun fi => negb (unmodified fi)) all) /\
    mem' = Memory (hs mem) (hc mem) (log mem ++ List.filter unmodified all)).
Proof.
  intros dirs all is_known unmodified Hdc Hdl Hw Hr. pose proof Hw as (Hok & _).
  set (P := fun fc => exists c, fc_rep mem fc sm c ts tc). assert (HP : P fc) by (by exists c). split.
  - eapply wp_mono; [apply (find_on_disk_spec _ g_dirs patterns mem fc P is_known); try done|].
    2:{ intros [[r fc'] mem'] o (-> & _ & ->). done. }
    intros fi fc0 Hin (c0 & Hr0). destruct (found_alias _ _ _ Hok Hin) as (s & -> & Ha & Hs). cbn [res_bind].
    exists fc0. rewrite (exists_spec _ _ _ _ _ _ _ Hr0 Hs). split; [|by exists c0].
    unfold is_known, alias_or. by rewrite Ha.
  - eapply wp_mono; [apply (find_on_disk_spec _ g_dirs patterns mem fc P unmodified); try done|].
    2:{ intros [[r fc'] mem'] o (-> & _ & ->). done. }
    intros fi fc0 Hin (c0 & Hr0). destruct (found_alias _ _ _ Hok Hin) as (s & -> & Ha & Hs). cbn [res_bind].
    destruct (lookup_info_spec _ _ _ _ _ _ _ Hr0 Hs) as (c1 & Hl & Hr1 & _). unfold filecache_stat. rewrite Hl.
    cbn [res_bind]. eexists. split; [|by exists c1]. unfold unmodified, alias_or. rewrite Ha.
    change (default [] (Some s)) with s. by destruct (files ts tc !! s).
Qed.

(** ** Answering *)

(** The alias a request asks for: of a GET without parameters, what is behind the
    slash of its URI, if that is not empty and has no pair of dots. *)
Definition asked (req : http_request) (uri : option (list Z)) : option (list Z) :=
  match request_get_method req, uri with
  | METHOD_GET, Some (c :: s) =>
      if (request_get_parameter_count req <=? 0) && (1 <? zlen (c :: s)) && (c =? SLASH) &&
         match strstr s (Prelude.bytes "..") with Some _ => false | None => true end
      then Some s else None
  | _, _ => None
  end.

(** Every file has a type that fits the array of the handler. *)
Definition typed (m : gmap (list Z) fileinfo) : Prop :=
  forall s fi, m !! s = Some fi -> exists t, mimetype fi = Some t /\ valid_str t /\ zlen t < 128.

(** What is wrong with the counters: nothing, when they start at 0. *)
Definition imbalance (n : counters) : Z :=
  (sum_requests n - (sum_200 n + sum_404 n + sum_400 n + sum_304 n + sum_500 n)) mod 2 ^ 32.

Lemma inc_eq x : exists k, inc x = x + 1 + k * 2 ^ 32.
Proof. exists (- ((x + 1) / 2 ^ 32)). unfold inc. pose proof (Z.div_mod (x + 1) (2 ^ 32) ltac:(done)). lia. Qed.

Lemma status_counted rc n :
  rc = 200 \/ rc = 304 \/ rc = 400 \/ rc = 404 \/ rc = 500 ->
  exists n', inc_status_counter rc n = Ret n' /\ sum_requests n' = sum_requests n /\ sum_bytes n' = sum_bytes n /\
    exists k, sum_200 n' + sum_404 n' + sum_400 n' + sum_304 n' + sum_500 n' =
      sum_200 n + sum_404 n + sum_400 n + sum_304 n + sum_500 n + 1 + k * 2 ^ 32.
Proof.
  destruct n as [rq by_ ok nf bad nm err].
  intros [->|[->|[->|[->| ->]]]]; (eexists; split; [reflexivity|]; split; [done|]; split; [done|]); cbn [sum_200 sum_404 sum_400 sum_304 sum_500];
    match goal with |- context [inc ?x] => destruct (inc_eq x) as [k ->] end; exists k; lia.
Qed.

Lemma mime_type_spec (mem : memory) fc sm c ts tc s (fi : fileinfo) t :
  fc_rep mem fc sm c ts tc -> addable s -> files ts tc !! s = Some fi -> mimetype fi = Some t -> valid_str t -> zlen t < 128 ->
  exists b fc' c', filecache_get_mime_type mem fc s (replicate 128 None) 128 = Ret (success, b, fc') /\
    str_at b = Ret t /\ fc_rep mem fc' sm c' ts tc.
Proof.
  intros Hr Hs Hf Hm [Hv _] Hl. destruct (lookup_info_spec _ _ _ _ _ _ _ Hr Hs) as (c' & Hi & Hr' & _).
  unfold filecache_get_mime_type. rewrite Hi, Hf. cbn [res_bind].
  change (stc (replicate 128 None) 0 0) with (Ret (Some 0 :: replicate 127 None : block)). cbn [res_bind].
  unfold fileinfo_mimetype. rewrite Hm. change (Z.to_nat (u64 (128 - 1))) with 127%nat.
  rewrite firstn_all2 by (unfold zlen in Hl; lia). pose proof (zlen_cstr t) as Hz.
  rewrite wr_head by (rewrite Hz; change (zlen (Some 0 :: replicate 127 None)) with 128; lia). cbn [res_bind].
  eexists _, _, c'. split; [done|]. split; [by apply str_at_here|done].
Qed.

(** The header and the buffer of a page that was answered with the file [fi]. *)
Definition answered (D : list Z -> Z -> Prop) (req : http_request) (page page' : http_response) (w : fields_of rs_field -> option (list Z)) (fi : fileinfo) (rc : Z) : Prop :=
  exists t, mimetype fi = Some t /\
  let w1 := <[E Eh_content_type := Some t]> w in
  let length := Some (decimal (u64 (st_size (st fi)))) in
  let sent := content_buffer page' = (fun bs : list Z => (Some <$> bs) : block) <$> FileCache.contents fi /\ content_buffer_in_use page' = true in
  let since := request_get_if_modified_since req in
  if since =? -1 then
    rc = HTTP_200_OK /\ sent /\ forall d, D d (st_mtime (st fi)) ->
      eh_holds D (rs_entity_header page') (<[Length := length]> (<[Modified := Some d]> w1))
  else if st_mtime (st fi) <=? since then
    rc = HTTP_304_NOT_MODIFIED /\ content_buffer page' = content_buffer page /\ eh_holds D (rs_entity_header page') w1
  else rc = HTTP_200_OK /\ sent /\ eh_holds D (rs_entity_header page') (<[Length := length]> w1).

Lemma set_file_spec D (page : http_response) (w : fields_of rs_field -> option (list Z)) file size :
  eh_holds D (rs_entity_header page) w ->
  let page' := set_file page file size in
  content_buffer page' = (fun bs : list Z => (Some <$> bs) : block) <$> file /\ content_buffer_in_use page' = true /\
  eh_holds D (rs_entity_header page') (<[Length := Some (decimal size)]> w).
Proof. intros Hw. destruct file as [bs|]; (split; [done|]; split; [done|]); by apply eh_set_length_spec. Qed.

Lemma send_file_spec D (mem : memory) fc sm c ts tc req (page : http_response) (w : fields_of rs_field -> option (list Z)) s (fi : fileinfo) o :
  fc_rep mem fc sm c ts tc -> addable s -> files ts tc !! s = Some fi -> typed (files ts tc) ->
  eh_holds D (rs_entity_header page) w ->
  wp (send_file mem fc req page s (FileCache.contents fi) (u64 (st_size (st fi)))) o (fun '(rc, fc', page') _ =>
    (exists c', fc_rep mem fc' sm c' ts tc) /\
    (rc = HTTP_500_INTERNAL_SERVER_ERROR /\ o <> [] \/ answered D req page page' w fi rc)).
Proof.
  intros Hr Hs Hf Hty Hw. destruct (Hty _ _ Hf) as (t & Ht & Hv & Hl).
  destruct (mime_type_spec _ _ _ _ _ _ _ _ _ Hr Hs Hf Ht Hv Hl) as (b & fc1 & c1 & Hb & Hstr & Hr1).
  unfold send_file. apply wp_bind, wp_lift. rewrite Hb. cbn [wpr]. apply wp_bind, wp_lift. rewrite Hstr. cbn [wpr].
  apply wp_bind. unfold response_set_content_type, on_entity. apply wp_bind.
  eapply wp_mono; [apply (eh_set_spec D Eh_content_type _ w t o Hw Hv); lia|].
  intros [st1 eh] o1 [Hok Ho]. apply wp_ret. destruct st1.
  { apply wp_ret. split; [by exists c1|]. left. split; [done|]. intros Hnil. by destruct (Ho Hnil). }
  specialize (Hok eq_refl). destruct (lookup_info_spec _ _ _ _ _ _ _ Hr1 Hs) as (c2 & Hi & Hr2 & _).
  apply wp_bind, wp_lift. unfold filecache_stat. rewrite Hi, Hf. cbn [res_bind wpr fmap option_fmap option_map].
  assert (Hin : exists c', fc_rep mem (set_metacache (Live c2) fc1) sm c' ts tc) by (by exists c2).
  unfold fileinfo_stat. set (page1 := rs_with_entity eh page). change eh with (rs_entity_header page1) in Hok.
  destruct (Z.eqb_spec (request_get_if_modified_since req) (-1)) as [Hn|Hn].
  - apply wp_ret. split; [done|]. right. exists t. split; [done|]. cbn zeta. rewrite (proj2 (Z.eqb_eq _ _)) by done.
    split; [done|]. split; [by destruct (FileCache.contents fi)|]. intros d Hd.
    apply (set_file_spec D (response_set_last_modified page1 (st_mtime (st fi)))). by apply eh_set_modified_spec.
  - destruct (Z.leb_spec (st_mtime (FileCache.st fi)) (request_get_if_modified_since req)) as [Hle|Hgt];
      apply wp_ret; (split; [done|]); right; exists t; (split; [done|]); cbn zeta; rewrite (proj2 (Z.eqb_neq _ _)) by done.
    + rewrite (proj2 (Z.leb_le _ _)) by done. done.
    + rewrite (proj2 (Z.leb_gt _ _)) by done. destruct (set_file_spec D page1 _ (FileCache.contents fi) (u64 (st_size (st fi))) Hok) as (H1 & H2 & H3). done.
Qed.

Lemma answered_status D req page page' w fi rc : answered D req page page' w fi rc -> rc = 200 \/ rc = 304.
Proof.
  intros (t & _ & Ha). cbn zeta in Ha. destruct (_ =? -1); [left; apply Ha|]. destruct (_ <=? _); [right|left]; apply Ha.
Qed.

(** The counters, behind the answer. *)
Lemma handle_requests_wp mem fc req page n o (Q : Z * filecache * http_response * counters -> oracle -> Prop) :
  wp (handle_uri mem fc req page) o (fun '(rc, size, fc', page') o' =>
    (rc = 200 \/ rc = 304 \/ rc = 400 \/ rc = 404 \/ rc = 500) /\
    forall n', imbalance n' = imbalance n -> sum_bytes n' = u64 (sum_bytes n + size) -> Q (rc, fc', page', n') o') ->
  wp (handle_requests mem fc req page n) o Q.
Proof.
  intros Hu. unfold handle_requests. apply wp_bind. eapply wp_mono; [exact Hu|]. intros [[[rc size] fc'] page'] o' [Hrc HQ].
  destruct (status_counted rc n Hrc) as (n1 & E & Hreq & Hby & k & Hsum). apply wp_bind, wp_lift. rewrite E. cbn [wpr].
  destruct n1 as [rq by_ ok nf bad nm err]. cbn [sum_requests sum_bytes sum_200 sum_404 sum_400 sum_304 sum_500] in *.
  apply wp_ret, HQ; [|cbn; by rewrite Hby]. unfold imbalance. cbn [sum_requests sum_200 sum_404 sum_400 sum_304 sum_500].
  destruct (inc_eq rq) as [j ->]. rewrite Hreq.
  replace (_ - _) with (sum_requests n - (sum_200 n + sum_404 n + sum_400 n + sum_304 n + sum_500 n) + (j - k) * 2 ^ 32) by lia.
  apply Z_mod_plus_full.
Qed.

(** What the server answers.  A request that asks for no file gets 400, one for a
    file that is not in memory 404; a file is sent from memory with its type and
    its length, or answered with 304 when the time of the request is not before
    that of its modification, or with 500 when memory runs out.  The time of
    the modification is sent only when the request did not ask for it.  The
    counters of the answers stay in balance with that of the requests, and the
    bytes of a file are counted also when it is not sent. *)
Theorem webcache_answers D (mem : memory) fc sm c ts tc req (page : http_response) (w : fields_of rs_field -> option (list Z)) n uri o :
  fc_rep mem fc sm c ts tc -> request_get_uri req = Ret uri -> (forall s, asked req uri = Some s -> addable s) ->
  typed (files ts tc) -> eh_holds D (rs_entity_header page) w ->
  wp (handle_requests mem fc req page n) o (fun '(rc, fc', page', n') _ =>
    (exists c', fc_rep mem fc' sm c' ts tc) /\ imbalance n' = imbalance n /\
    match asked req uri with
    | None => rc = HTTP_400_BAD_REQUEST /\ page' = page /\ sum_bytes n' = u64 (sum_bytes n)
    | Some s =>
        match files ts tc !! s with
        | None => rc = HTTP_404_NOT_FOUND /\ page' = page /\ sum_bytes n' = u64 (sum_bytes n)
        | Some fi =>
            sum_bytes n' = u64 (sum_bytes n + u64 (st_size (st fi))) /\
            (rc = HTTP_500_INTERNAL_SERVER_ERROR /\ o <> [] \/ answered D req page page' w fi rc)
        end
    end).
Proof.
  intros Hr Hu Ha Hty Hw. apply handle_requests_wp. unfold handle_uri, asked in *.
  assert (Hin : exists c', fc_rep mem fc sm c' ts tc) by (by exists c).
  assert (Hstop : forall m, m = HTTP_400_BAD_REQUEST -> wp (ret (m, 0, fc, page)) o (fun '(rc, size, fc', page') o' =>
    (rc = 200 \/ rc = 304 \/ rc = 400 \/ rc = 404 \/ rc = 500) /\
    forall n', imbalance n' = imbalance n -> sum_bytes n' = u64 (sum_bytes n + size) ->
    (exists c', fc_rep mem fc' sm c' ts tc) /\ imbalance n' = imbalance n /\
    rc = HTTP_400_BAD_REQUEST /\ page' = page /\ sum_bytes n' = u64 (sum_bytes n))).
  { intros m ->. apply wp_ret. split; [unfold HTTP_400_BAD_REQUEST; lia|]. intros n' H1 H2. rewrite Z.add_0_r in H2. done. }
  destruct (request_get_method req); try (by apply Hstop).
  destruct (Z.ltb_spec 0 (request_get_parameter_count req)) as [Hp|Hp].
  { rewrite (proj2 (Z.leb_gt _ _)) by lia. destruct uri as [[|x s]|]; by apply Hstop. }
  rewrite (proj2 (Z.leb_le _ _)) in * by lia. cbn [andb] in *. apply wp_bind, wp_lift. rewrite Hu. cbn [wpr].
  destruct uri as [uri|]; [|by apply Hstop].
  destruct (Z.leb_spec (zlen uri) 1) as [Hl|Hl].
  { destruct uri as [|x s]; [by apply Hstop|]. rewrite (proj2 (Z.ltb_ge _ _)) by lia. by apply Hstop. }
  destruct uri as [|x s]; [by apply Hstop|]. rewrite (proj2 (Z.ltb_lt _ _)) in * by lia. cbn [andb] in *.
  destruct (x =? SLASH); cbn [negb andb] in *; [|by apply Hstop].
  destruct (strstr s (Prelude.bytes "..")); [by apply Hstop|]. specialize (Ha s eq_refl).
  destruct (lookup_info_spec _ _ _ _ _ _ _ Hr Ha) as (c1 & Hi & Hr1 & _).
  apply wp_bind, wp_lift. unfold filecache_get. rewrite Hi. cbn [res_bind wpr].
  destruct (files ts tc !! s) as [fi|] eqn:Hf; cbn [fmap option_fmap option_map].
  - apply wp_bind. eapply wp_mono; [by eapply send_file_spec|]. intros [[rc fc'] page'] o' [Hrep Hans]. apply wp_ret. split.
    { destruct Hans as [[-> _]|Hans%answered_status]; [unfold HTTP_500_INTERNAL_SERVER_ERROR|]; lia. }
    intros n' H1 H2. done.
  - apply wp_ret. split; [unfold HTTP_404_NOT_FOUND; lia|]. intros n' H1 H2. rewrite Z.add_0_r in H2.
    split; [by exists c1|done].
Qed.

End Webcache.
